(* ===== verification/_CoqProject ===== *)
-Q . S2P
Prelude.v
Prog.v
GoString.v
Json.v
Schema.v
Scope.v
Registry.v
Principal.v
Policy.v
Sha256.v
GoTime.v
Payload.v
Events.v
Message.v
Session.v
Projection.v
SessionLog.v
SessionClaims.v
SessionQueries.v
ProjectionFacts.v
Compactor.v
Repair.v
SessionStore.v
RateLimit.v
Capability.v
ModelCall.v
Journal.v
Guard.v
Fence.v
CapabilityClaims.v
Admission.v
Agent.v
Turn.v
TurnReport.v
Continuation.v
TurnClaims.v
Profile.v
ProfileClaims.v
Runtime.v
RuntimeClaims.v
ControlDb.v
RunControl.v
ControlJson.v
ApprovalStore.v
SqlSession.v
SessionFence.v
RunSystem.v
RunTable.v
ControlExamples.v
FenceFacts.v
ControlClaims.v
FenceClaims.v
ApprovalClaims.v
WriteBehind.v
WriterInv.v
WriterClaims.v
QueueWorker.v
WorkerRules.v
WorkerClaims.v
Credential.v
TrustGate.v
Plugin.v
PluginClaims.v
Disclose.v
DiscloseClaims.v
GraphContract.v
GraphContext.v
GraphState.v
GraphStateFacts.v
GraphValidate.v
GraphExample.v
GraphShape.v
GraphStore.v
GraphStoreFacts.v
GraphExecutor.v
GraphDiscipline.v
GraphSystem.v
GraphClaims.v
GraphLease.v
GraphTurn.v
