(* ===== verification/Prelude.v ===== *)
(** * auto-agent: verification of the agent kernel and its control plane

    The program is a multi-tenant agent server.  Its kernel, [src/pkg/core], is
    a library without I/O of its own that runs one agent turn: it resolves what
    a principal may do in a scope, asks a model what to do, runs the tools the
    model asks for behind a guard funnel, and writes everything to an
    append-only session log from which the run can be repaired, resumed or
    continued.  Around it, [src/pkg/storage] keeps the durable control plane in SQL:
    the queue of runs with its claims and generations, the approvals, the leases
    and fences of sessions, and the session log itself; the workers of
    [src/pkg/server] take runs from the queue and execute them through the kernel
    behind a write-behind flusher.  A run can also be executed by the graph engine
    ([src/pkg/execution/graph] over the contracts of [src/pkg/extensions/graph]),
    which moves a checkpoint through a declared graph of nodes, under a segment
    lease and over a compare-and-swap checkpoint store.  HTTP, provider clients and
    other extensions surround all of it.  This development models the kernel, the
    durable journal ([src/pkg/storage/tool_journal.go]) it depends on for
    exactly-once effects, the control plane, the flusher, the queue workers, and
    the graph engine with its contracts, a checkpoint store, the segment leases
    and the adapter that runs a turn of the kernel as a graph.

    ** How the code is modelled

    Pure Go functions are Rocq functions with the same names and the same order
    of checks.  A fallible function returns [result]: [Err] carries the constant
    part of the error text.  Go maps are [gmap], sets [gset], strings are byte
    strings, [time.Time] is its RFC 3339 text, integers are [Z] with [wrap_int64]
    where the code can wrap.  Payloads are kept as JSON trees with the encoder
    and decoder of [encoding/json] ([Json], [Payload], [Events]).  A method under
    a mutex is one atomic step of a state record.  Code that calls out (hooks,
    approvers, limiters, clocks, models, providers, SQL statements) is a [prog]
    ([Prog]): a tree of effects with their answers; [runs] gives its traces,
    [drive] evaluates it against a concrete environment, and a theorem about all
    traces quantifies over every behaviour of the outside, panics included.
    A transaction of the control plane is a function from tables to tables whose
    error leaves them as they were; [sql!] is a statement that may fail, times
    are nanoseconds and columns milliseconds, as in the code.  Where the SQL
    leaves a choice (which tied row, which rows another transaction has locked)
    the choice is an argument, and the theorems hold for every choice.
    Parameters stand for code outside the repository: [regexp_Compile] (regexp),
    [parse_json] (json.Unmarshal of arbitrary text), [resolve_model] and
    [resolve_fast] (host resolvers), [resolve_credential] (the resolver of
    credentials, which [Credential] instantiates with its registry).

    ** Files

    - [Prelude], [Prog], [GoString], [Json], [GoTime], [Sha256]: results, effects
      and traces, UTF-8 and string predicates, encoding/json, times, digests.
    - [Scope] (scope.go), [Principal] (types.go, identifier.go), [Registry] and
      [Policy] (policy.go), [Schema] (schema.go).
    - [Capability], [CapabilityClaims] (capability.go); [Profile], [ProfileClaims]
      (profile.go).
    - [Payload], [Events], [Message], [Session], [Projection] (session.go): data,
      append, restore, index, conversation and its cache.  [SessionLog] relates
      append to restore and proves the log invariant; [SessionClaims],
      [SessionQueries], [ProjectionFacts] hold the properties.  [Compactor]
      (context.go and the fused path of session.go), [Repair] (repair.go),
      [SessionStore] (session_store.go), [RateLimit] (ratelimit.go).
    - [ModelCall] (llm.go, model_gate.go, model_context.go): the gate, the context
      checks and the stream protocol.
    - [Journal] (tool_journal.go of core and storage): the interface and its SQL
      implementation, statement by statement.  [Guard] (agent_tool_guard.go,
      agent_guard_support.go, hooks.go): the funnel.  [Fence] states what the
      kernel needs of a journal as the class [FencingJournal], proves it of the
      SQL journal, and proves the funnel safe against the class alone.
      [Admission] proves that every step of the funnel keeps the books.
    - [Agent] (agent.go, agent_model_call.go, fastrouter.go): the loop.  [Turn]
      carries fence and books through the loop and defines the concurrent
      [system] of workers; [TurnReport] does the same for model calls and for
      the reported status; [Continuation] treats runs rebuilt from their log;
      [TurnClaims] states the properties of turns.
    - [Runtime], [RuntimeClaims] (runtime.go): the composition of a turn from
      profile, capabilities, policy, filter and limits, and its entry points.
    - [Credential] (credential.go): the layered credential registry.  [Plugin],
      [PluginClaims] (plugin.go): plugins on the four registries, which they meet
      through the class [ScopedStore].  [TrustGate] (trust_gate.go): the proof of
      an accepted call and what compares it.  [Disclose], [DiscloseClaims]
      (disclose.go): the searchable tool library.
    - [ControlDb] (the tables of sql_schema.go), [RunControl] (run_control.go: submit,
      claim, renew, suspend, settle, requeue, recover, cancel, list),
      [ControlJson] and [ApprovalStore] (approval.go), [SqlSession] (sql_leases.go,
      evidence.go, sql_session_store.go: leases, run evidence, the SQL session
      log), [SessionFence] (session_fence.go, sql_session_fence.go: fenced appends
      in both dialects).
      [RunSystem] composes the operations into one step relation and states the
      abstract life cycle of a run; [RunTable] derives the invariants of reachable
      tables; [FenceFacts] the facts on stored sessions and leases.
      [ControlExamples] holds concrete tables; [ControlClaims], [FenceClaims] and
      [ApprovalClaims] the properties.
    - [WriteBehind] (write_behind.go): the flusher as locked regions that threads,
      timers, the producer and other writers interleave.  [WriterInv] states what
      it needs of a store as the class [SinkLaws] and proves its invariants from
      it; [WriterClaims] proves the class of the SQL and the memory store and
      holds the properties.
    - [QueueWorker] (server_run_worker.go, server_native_queued_recovery.go): the
      execution of a claimed run as a [prog].  [WorkerRules] is a watcher of its
      effects that never objects; [WorkerClaims] reads the properties off it.

    - [GraphContract] (contract.go, checkpoint.go), [GraphContext] (context.go),
      [GraphState] (state.go), [GraphValidate] (validator.go, registry.go): graph
      definitions, states, context plans, checkpoints and transitions with their
      validation, canonical forms and digests.  [GraphStateFacts] holds the facts
      and claims on states, [GraphShape] the graph walks against reachability and
      cycles, [GraphExample] a small graph.
    - [GraphStore] (adapter/memory/graphcheckpoint): the contract of a checkpoint
      store as the classes [CheckpointStore] and [CheckpointStoreLaws], and the
      in-memory store; [GraphStoreFacts] proves the laws of it.
    - [GraphExecutor] (executor.go, bindings.go, ports.go of execution/graph): the
      engine as a [prog].  [GraphDiscipline] states the rule every effect of it
      obeys and proves it by weakest preconditions over histories; [GraphSystem]
      interleaves any number of calls over any store with the laws; [GraphClaims]
      states the properties.
    - [GraphLease] (adapter/sql/graphsegment): the segment authority.  [GraphTurn]
      (adapter/runexecutor/graph): the turn that acquires a lease, runs the engine
      with a kernel turn as its node, and gives the lease back.

    ** What the theorems show

    - Effects happen at most once: whatever any number of workers do
      concurrently, with statements failing before or after taking effect and
      crashes anywhere, the provider of a non-idempotent call is started at most
      once; a recorded outcome never changes and is replayed from its JSON; a
      continuation skips exactly the calls that have a durable result.
    - Every provider start is preceded by its own argument validation, hook and
      approval and, right before it, by a run of the journal's
      BeginToolInvocation that decided to execute; every model call is authorised by the
      gate; budgets and step limits bound both.
    - End to end: a turn of the runtime starts only what is visible, selected,
      granted and allowed by policy, within the tightest limit; what it mounts
      for itself leaves no trace; a composition that fails is a failed run.
    - Turns terminate, and what they report is what the log says, also when they
      fail, except for an end event that the session refuses.
    - The log is append-only, starts a run once, has an exact and overflow-free
      usage ledger, is rebuilt by Clone, and answers its queries as the events
      say; the cached conversation is the conversation from scratch; compaction
      fused with projection is compaction; a repair closes exactly the
      interrupted run; a stale writer loses no update.
    - Policy is an order-free intersection with the least caps declared; protected capabilities are final;
      snapshots are exactly the granted catalog and never leak redacted data;
      profiles are the last word of their layers; scope paths are keys; a
      credential is the nearest one and a protected one is final.
    - A plugin leaves no trace in the registries it shares with the host, whether
      its installation fails or it is closed later.  The tool library is
      presentation only: it shows what was discovered last, all of it executable.
    - The control plane is consistent in every reachable state, within its limit
      of runs in flight on SQLite but not on PostgreSQL, and refines an
      abstract life cycle with strictly growing generations; a worker that lost
      its claim can neither renew, suspend nor settle the run, and a fenced
      append writes nothing unless claim and lease still hold at commit; a claim
      takes the first claimable run of its order; recovery returns every lost
      run to the queue or ends it; a submission is idempotent per key.
    - Under every interleaving a flush of an open writer that answers without an
      error has made durable all the session held when it was called, and no
      dirty writer is forgotten.  A queue worker settles its claim at most once;
      once it has learned that the claim or the fence is lost it neither settles
      nor itself writes to the session, and it closes the writer of its turn,
      aborting it when lost, before it releases the lease; it never settles
      without the reason its answer claims: a durable log, a status in the log,
      or attempts left.
    - Session leases exclude each other; appended events are what is loaded;
      the two SQL dialects fence alike; an approval is decided at most once.
    - The graph validator accepts exactly the well-shaped graphs; a state patch
      means exactly its entries; the versions of a checkpoint are a gapless chain
      of legal steps from a ready one, and a repeated commit is a replay.
    - Over any interleaving of graph calls, with crashes, wrong leases and lost
      answers, a node runs at most once per committed start, behind its own start,
      lease, sandbox and plan, and at most as often as the step limit and the
      resolved approvals allow; commits are fenced by the lease of their owner;
      every call returns within the step limit of its definition; an interrupted
      attempt is never run again.  A segment
      lease that verifies is the newest of its run.  A graph turn releases its
      lease at most once, and exactly once unless its run waits.
    - Fourteen divergences are proved as theorems: the rate limiter admits twice its
      limit around a minute boundary, a summary of future positions splits live
      and restored conversations, the fused path can exceed its window, a
      cancellation requested before a suspension is lost until it is requested
      again, the in-flight limit can be exceeded on PostgreSQL, a checkpoint of a
      closed writer answers without writing, a failed turn reports an end that the
      log may have refused, one ended run blocks
      the expiry of every other approval, a timer callback can write after an
      abort has returned, a failed repair on the last attempt leaves the session
      waiting for ever, the trust gate refuses every call of a turn with run
      capabilities and of a session whose owner's grants changed, a graph state
      of exactly the maximal size is accepted and then refused, and a graph turn
      on a waiting run keeps its lease and so blocks the approval.

    ** Fuel

    Five recursions are not structural.  Profile resolution uses one unit per
    mounted layer plus one, enough because a cycle is detected by the visiting
    set.  [Guard.execute_fuel] is the calls left in the run plus the resumed ones
    plus one, enough because every nested entry uses one of them.
    [Agent.steps_left] is the steps left plus one.  The walks of the graph
    validator get one unit per node plus one, enough because each node is queued
    or entered once.  [GraphExecutor.drive_fuel] is the largest step limit
    that a definition may have plus three; the limit of the definition at hand
    plus two is enough, because each iteration takes a step or uses up a resumed
    attempt.  That each is enough is proved (any larger fuel gives the same
    result, or the out-of-fuel answer is excluded), so the out-of-fuel answers
    never occur.

    ** Not modelled

    Telemetry (observational), an agent with disclosure on (the library itself is
    modelled), provider deadlines and goroutine isolation, the five-second bound on the
    final hook, cancellation of a model stream before its adapter returns (what
    an adapter emits after a violation is ignored anyway), retention pruning of
    the journal and its listing query, schema migrations, the remaining SQL
    stores (users, credentials, memory, programmatic runs, the SQL checkpoint
    store, whose contract the graph theorems use through its class), programmatic
    execution, the console routes of graphs, and the layers
    around them: HTTP, the starting and stopping of goroutines, provider clients,
    other extensions and the console.  Write transactions of the control plane are
    taken one at a time, as SQLite serialises them.  On PostgreSQL the conditional
    updates and the unique keys of two transactions are ordered by row locks, and
    rows skipped because locked are the argument [skip]; a count is not ordered by
    them, so the count of runs in flight is taken in a database of its own, the
    argument [seen], which only SQLite makes the current one.  The other caps that
    rest on a count (such as those of submissions, sessions and event chunks) are
    taken in the transaction's own database, and no theorem bounds those tables.
    The queue worker meets its writer only through the calls it makes of it: the
    background flushes during a turn are modelled in [WriteBehind] and fenced in
    [SessionFence], and are not effects of [QueueWorker].
    The summariser, assembler and other host components answer arbitrarily,
    within their Go types; where a theorem needs more of them it says so. *)
From stdpp Require Import gmap strings list fin_maps sorting.
From Stdlib Require Import ZArith Lia.

(** ** Results: a Go pair (value, error) *)

(** A fallible Go call returns [Ok v] or [Err e]; [e] is the constant part of
    the source's error text. *)
Inductive result (A : Type) : Type :=
| Ok (a : A)
| Err (e : string).
Arguments Ok {A} a.
Arguments Err {A} e.

Declare Scope go_scope.
Delimit Scope go_scope with go.
Open Scope go_scope.

Definition rbind {A B} (c : result A) (k : A → result B) : result B :=
  match c with Ok a => k a | Err e => Err e end.

(** [guard c msg k]: Go's [if c { return ..., fmt.Errorf(msg) }; k]. *)
Definition fail_if {A} (c : bool) (msg : string) (k : result A) : result A :=
  if c then Err msg else k.

Notation "'let!' x ':=' c 'in' k" := (rbind c (λ x, k))
  (at level 10, x pattern, c at level 100, k at level 200) : go_scope.
Notation "'fail_when' c 'with' m ';;' k" := (fail_if c m k)
  (at level 10, c at level 100, m at level 0, k at level 200) : go_scope.

Definition is_ok {A} (r : result A) : bool :=
  match r with Ok _ => true | Err _ => false end.

(** Go's [for _, x := range xs { if err := f(x); err != nil { return err } }]. *)
Fixpoint check_all {A} (f : A → result unit) (l : list A) : result unit :=
  match l with
  | [] => Ok tt
  | x :: l => let! _ := f x in check_all f l
  end.

(** A loop that threads an accumulator and may stop with an error. *)
Fixpoint rfold {A S} (f : S → A → result S) (s : S) (l : list A) : result S :=
  match l with
  | [] => Ok s
  | x :: l => let! s := f s x in rfold f s l
  end.

(** ** Tactics *)

(** Case analysis on the outermost [match]/[if] of a hypothesis or the goal,
    keeping the equation. *)
Ltac destruct_match_in H :=
  match type of H with
  | context [match ?x with _ => _ end] =>
      lazymatch x with context [match _ with _ => _ end] => fail | _ => destruct x eqn:? end
  end.

Ltac destruct_match_goal :=
  match goal with
  | |- context [match ?x with _ => _ end] =>
      lazymatch x with context [match _ with _ => _ end] => fail | _ => destruct x eqn:? end
  end.

(** Invert a chain of error checks that ended in [Ok]. *)
Ltac inv_ok H :=
  unfold rbind, fail_if in H;
  repeat (destruct_match_in H; simplify_eq; try discriminate H).

(** Turn boolean facts into propositions. *)
Ltac bool_to_prop :=
  repeat match goal with
  | H : _ && _ = true |- _ => apply andb_prop in H as [? ?]
  | H : _ || _ = false |- _ => apply orb_false_elim in H as [? ?]
  | H : negb _ = true |- _ => apply negb_true_iff in H
  | H : negb _ = false |- _ => apply negb_false_iff in H
  | H : bool_decide _ = true |- _ => apply bool_decide_eq_true in H
  | H : bool_decide _ = false |- _ => apply bool_decide_eq_false in H
  | H : (_ <? _)%Z = true |- _ => apply Z.ltb_lt in H
  | H : (_ <? _)%Z = false |- _ => apply Z.ltb_ge in H
  | H : (_ <=? _)%Z = true |- _ => apply Z.leb_le in H
  | H : (_ <=? _)%Z = false |- _ => apply Z.leb_gt in H
  | H : (_ =? _)%Z = true |- _ => apply Z.eqb_eq in H
  | H : (_ =? _)%Z = false |- _ => apply Z.eqb_neq in H
  end.

(** ** Generic lemmas *)

Lemma rbind_ok {A B} (c : result A) (k : A → result B) b :
  rbind c k = Ok b ↔ ∃ a, c = Ok a ∧ k a = Ok b.
Proof. destruct c; simpl; naive_solver. Qed.

Lemma fail_if_ok {A} c m (k : result A) a : fail_if c m k = Ok a ↔ c = false ∧ k = Ok a.
Proof. unfold fail_if. destruct c; naive_solver. Qed.

Lemma check_all_ok {A} (f : A → result unit) l :
  check_all f l = Ok tt ↔ Forall (λ x, f x = Ok tt) l.
Proof.
  induction l as [|x l IH]; simpl; [by split|].
  rewrite rbind_ok, Forall_cons. setoid_rewrite IH. split.
  - intros ([] & ? & ?); done.
  - intros [? ?]. by exists tt.
Qed.

Lemma rfold_app {A S} (f : S → A → result S) s l1 l2 :
  rfold f s (l1 ++ l2) = (let! s' := rfold f s l1 in rfold f s' l2).
Proof. revert s. induction l1 as [|x l1 IH]; intros s; simpl; [done|]. destruct (f s x); simpl; auto. Qed.

(** An invariant of every step is an invariant of the loop. *)
Lemma rfold_invariant {A S} (f : S → A → result S) (P : S → Prop) s l s' :
  P s → (∀ s x s', x ∈ l → P s → f s x = Ok s' → P s') → rfold f s l = Ok s' → P s'.
Proof.
  revert s. induction l as [|x l IH]; intros s Hs Hstep Hf; simpl in Hf; [by simplify_eq|].
  apply rbind_ok in Hf as (s1 & Hx & Hl).
  eapply IH; [eapply Hstep; [left|exact Hs|exact Hx]| |exact Hl].
  intros; eapply Hstep; [right|..]; eauto.
Qed.

Create Rewrite HintDb go_db.
#[export] Hint Rewrite @rbind_ok @fail_if_ok @check_all_ok : go_db.

Lemma elem_of_snoc {A} (x y : A) l : x ∈ l ++ [y] ↔ x ∈ l ∨ x = y.
Proof. set_solver. Qed.

(** Order-preserving removal of the first element satisfying [p]:
    Go's [append(l[:i], l[i+1:]...)] at the first match. *)
Fixpoint remove_first {A} (p : A → bool) (l : list A) : list A :=
  match l with
  | [] => []
  | x :: l => if p x then l else x :: remove_first p l
  end.

Lemma remove_first_none {A} (p : A → bool) l :
  Forall (λ x, p x = false) l → remove_first p l = l.
Proof. induction 1 as [|x l Hx _ IH]; simpl; [done|]. by rewrite Hx, IH. Qed.

Lemma remove_first_snoc {A} (p : A → bool) l x :
  Forall (λ x, p x = false) l → p x = true → remove_first p (l ++ [x]) = l.
Proof.
  induction 1 as [|y l Hy _ IH]; simpl; intros Hx; [by rewrite Hx|].
  by rewrite Hy, IH.
Qed.

Lemma remove_first_subset {A} (p : A → bool) l x : x ∈ remove_first p l → x ∈ l.
Proof. induction l as [|y l IH]; simpl; [done|]. destruct (p y); set_solver. Qed.

Lemma filter_all {A} (P : A → Prop) `{∀ x, Decision (P x)} l : Forall P l → filter P l = l.
Proof. induction 1 as [|x l Hx _ IH]; [done|]. rewrite filter_cons, decide_True by done. by rewrite IH. Qed.

Lemma Forall_filter_sub {A} (P Q : A → Prop) `{∀ x, Decision (P x)} l : Forall Q l → Forall Q (filter P l).
Proof. rewrite !Forall_forall. intros Hl x [_ Hx]%list_elem_of_filter. by apply Hl. Qed.
