(* ===== verification/Prog.v ===== *)
(** * Programs with outside effects

    Code that calls into parts the kernel does not own (hooks, approvers, rate
    limiters, databases, providers, models) is a [prog]: a finite tree whose
    nodes ask one effect and continue with its answer.  [runs] gives the traces
    of a program, [drive] evaluates it against a concrete environment, and the
    lemmas below let a proof follow the code. *)
From S2P Require Import Prelude.
From stdpp Require Import list.

Inductive prog (E : Type → Type) (A : Type) : Type :=
| Ret (a : A)
| Vis (B : Type) (e : E B) (k : B → prog E A).
Arguments Ret {E A} a.
Arguments Vis {E A B} e k.

Definition ask {E : Type → Type} {B} (e : E B) : prog E B := Vis e Ret.

Fixpoint pbind {E A B} (p : prog E A) (k : A → prog E B) : prog E B :=
  match p with
  | Ret a => k a
  | Vis e f => Vis e (λ b, pbind (f b) k)
  end.

Notation "'let*' x ':=' p 'in' k" := (pbind p (λ x, k))
  (at level 10, x pattern, p at level 100, k at level 200) : go_scope.

(** Renaming the effects. *)
Fixpoint pmap {E F : Type → Type} (f : ∀ B, E B → F B) {A} (p : prog E A) : prog F A :=
  match p with
  | Ret a => Ret a
  | Vis e k => Vis (f _ e) (λ b, pmap f (k b))
  end.

(** ** Traces *)

(** An effect with the answer it got. *)
Inductive event (E : Type → Type) : Type :=
| Ev (B : Type) (e : E B) (b : B).
Arguments Ev {E B} e b.

(** [runs p tr a]: the program can perform exactly [tr] and return [a]. *)
Fixpoint runs {E A} (p : prog E A) (tr : list (event E)) (a : A) : Prop :=
  match p with
  | Ret a' => tr = [] ∧ a = a'
  | Vis e k => ∃ b tr', tr = Ev e b :: tr' ∧ runs (k b) tr' a
  end.

(** Evaluation against an environment that answers every effect: the result,
    the environment's state and the trace. *)
Fixpoint drive {E S A} (h : ∀ B, E B → S → B * S) (p : prog E A) (s : S) : A * S * list (event E) :=
  match p with
  | Ret a => (a, s, [])
  | Vis e k =>
    let '(b, s) := h _ e s in
    let '(a, s, tr) := drive h (k b) s in (a, s, Ev e b :: tr)
  end.

Section Traces.
Context {E : Type → Type}.

Lemma runs_bind {A B} (p : prog E A) (k : A → prog E B) tr b :
  runs (pbind p k) tr b ↔ ∃ tr1 tr2 a, tr = tr1 ++ tr2 ∧ runs p tr1 a ∧ runs (k a) tr2 b.
Proof.
  revert tr. induction p as [a|C e f IH]; intros tr; cbn.
  - split; [intros H; by exists [], tr, a|]. by intros (tr1 & tr2 & a' & -> & [-> ->] & H).
  - split.
    + intros (c & tr' & -> & H). apply IH in H as (tr1 & tr2 & a & -> & H1 & H2).
      exists (Ev e c :: tr1), tr2, a. split; [done|]. split; [by exists c, tr1|done].
    + intros (tr1 & tr2 & a & -> & (c & tr' & -> & H1) & H2). exists c, (tr' ++ tr2). split; [done|]. apply IH. by exists tr', tr2, a.
Qed.

(** Programs with the same continuation have the same traces. *)
Lemma runs_bind_mono {A B} (p : prog E A) (f g : A → prog E B) tr b :
  (∀ a tr b, runs (f a) tr b → runs (g a) tr b) → runs (pbind p f) tr b → runs (pbind p g) tr b.
Proof. intros Hfg. rewrite !runs_bind. intros (tr1 & tr2 & a & -> & H1 & H2). exists tr1, tr2, a. auto. Qed.

Lemma runs_ask {B} (e : E B) tr b : runs (ask e) tr b ↔ tr = [Ev e b].
Proof. cbn. split; [by intros (b' & tr' & -> & -> & ->)|]. intros ->. by exists b, []. Qed.

Lemma runs_ret {A} (a : A) tr a' : runs (E := E) (Ret a) tr a' ↔ tr = [] ∧ a' = a.
Proof. done. Qed.

Lemma pbind_ret {A} (p : prog E A) : ∀ tr a, runs (pbind p Ret) tr a ↔ runs p tr a.
Proof.
  intros tr a. rewrite runs_bind. split.
  - intros (tr1 & tr2 & x & -> & H & [-> ->]). by rewrite app_nil_r.
  - intros H. exists tr, [], a. by rewrite app_nil_r.
Qed.

Lemma drive_runs {S A} (h : ∀ B, E B → S → B * S) (p : prog E A) : ∀ s a s' tr, drive h p s = (a, s', tr) → runs p tr a.
Proof.
  induction p as [a|B e f IH]; intros s a' s' tr H; cbn in *; [by injection H as -> _ ->|].
  destruct (h B e s) as [b s1]. destruct (drive h (f b) s1) as [[a1 s2] tr1] eqn:E1. injection H as -> -> <-. exists b, tr1. split; [done|]. by eapply IH.
Qed.

Lemma drive_trace {S A} (h : ∀ B, E B → S → B * S) (p : prog E A) s : runs p (drive h p s).2 (drive h p s).1.1.
Proof. destruct (drive h p s) as [[??] ?] eqn:Hd. by eapply drive_runs. Qed.

(** A property of every event a program can perform. *)
Fixpoint every {A} (P : ∀ B, E B → Prop) (p : prog E A) : Prop :=
  match p with Ret _ => True | Vis e k => P _ e ∧ ∀ b, every P (k b) end.

Lemma every_bind {A B} (P : ∀ B, E B → Prop) (p : prog E A) (k : A → prog E B) :
  every P p → (∀ a, every P (k a)) → every P (pbind p k).
Proof. intros Hp Hk. induction p as [a|C e f IH]; cbn in *; [apply Hk|]. destruct Hp as [? Hp]. split; [done|]. intros b. by apply IH. Qed.

End Traces.

(** Open one step of a trace. *)
Ltac open_runs H :=
  match type of H with
  | runs (pbind _ _) _ _ => apply runs_bind in H
  | runs (ask _) _ _ => apply runs_ask in H
  | runs (Ret _) _ _ => apply runs_ret in H
  end.
