(* ===== verification/GoString.v ===== *)
(** * Go strings

    A Go string is a sequence of bytes: here a Stdlib [string], whose [ascii]
    characters are the bytes.  This file models what the kernel uses of
    [unicode/utf8], [unicode], [strings] and [encoding/hex], and the string
    predicates of [src/pkg/core/identifier.go]. *)
From S2P Require Import Prelude.
From stdpp Require Import gmap strings list.
From Stdlib Require Import ZArith Lia Ascii Wf_nat.
Open Scope N_scope.

(** ** Bytes and runes *)

Notation bytes := String.list_ascii_of_string.
Notation of_bytes := String.string_of_list_ascii.

Definition byte_val (c : ascii) : N := N_of_ascii c.

Definition str_len (s : string) : Z := Z.of_nat (String.length s).

Definition in_range (lo hi x : N) : bool := (lo <=? x) && (x <=? hi).

Definition is_cont (c : ascii) : bool := in_range 0x80 0xBF (byte_val c).

(** The accepted range of the second byte of a multi-byte sequence. *)
Definition second_ok (b0 : N) (c : ascii) : bool :=
  let b := byte_val c in
  if b0 =? 0xE0 then in_range 0xA0 0xBF b
  else if b0 =? 0xED then in_range 0x80 0x9F b
  else if b0 =? 0xF0 then in_range 0x90 0xBF b
  else if b0 =? 0xF4 then in_range 0x80 0x8F b
  else in_range 0x80 0xBF b.

Definition low6 (c : ascii) : N := N.land (byte_val c) 0x3F.

(** One decoded unit of a byte string: a rune with its bytes, or an invalid
    byte (decoded by Go as [utf8.RuneError] of width one). *)
Inductive unit_dec := URune (r : N) (bs : list ascii) | UBad (c : ascii).

(** [for _, r := range s]: decode from the left. *)
Fixpoint decode_units (l : list ascii) : list unit_dec :=
  match l with
  | [] => []
  | c0 :: l1 =>
    let b0 := byte_val c0 in
    if b0 <? 0x80 then URune b0 [c0] :: decode_units l1
    else if in_range 0xC2 0xDF b0 then
      match l1 with
      | c1 :: l2 =>
        if is_cont c1
        then URune (N.lor (N.shiftl (N.land b0 0x1F) 6) (low6 c1)) [c0; c1] :: decode_units l2
        else UBad c0 :: decode_units l1
      | [] => UBad c0 :: decode_units l1
      end
    else if in_range 0xE0 0xEF b0 then
      match l1 with
      | c1 :: ((c2 :: l3) as l2) =>
        if second_ok b0 c1 && is_cont c2
        then URune (N.lor (N.shiftl (N.land b0 0x0F) 12)
                     (N.lor (N.shiftl (low6 c1) 6) (low6 c2))) [c0; c1; c2] :: decode_units l3
        else UBad c0 :: decode_units l1
      | _ => UBad c0 :: decode_units l1
      end
    else if in_range 0xF0 0xF4 b0 then
      match l1 with
      | c1 :: ((c2 :: ((c3 :: l4) as l3)) as l2) =>
        if second_ok b0 c1 && is_cont c2 && is_cont c3
        then URune (N.lor (N.shiftl (N.land b0 0x07) 18)
                     (N.lor (N.shiftl (low6 c1) 12)
                       (N.lor (N.shiftl (low6 c2) 6) (low6 c3)))) [c0; c1; c2; c3] :: decode_units l4
        else UBad c0 :: decode_units l1
      | _ => UBad c0 :: decode_units l1
      end
    else UBad c0 :: decode_units l1
  end.

Definition units (s : string) : list unit_dec := decode_units (bytes s).

Definition unit_rune (u : unit_dec) : N := match u with URune r _ => r | UBad _ => 0xFFFD end.
Definition unit_bytes (u : unit_dec) : list ascii := match u with URune _ bs => bs | UBad c => [c] end.
Definition unit_good (u : unit_dec) : bool := match u with URune _ _ => true | UBad _ => false end.

Definition runes (s : string) : list N := unit_rune <$> units s.

(** [utf8.ValidString]; also [strings.ToValidUTF8(s, "") == s]. *)
Definition valid_utf8 (s : string) : bool := forallb unit_good (units s).

(** The bytes of U+FFFD, written by [encoding/json] for an invalid byte. *)
Definition replacement : list ascii := ascii_of_N <$> [0xEF; 0xBF; 0xBD].

Definition coerce_utf8 (s : string) : string :=
  of_bytes (mjoin ((λ u, match u with URune _ bs => bs | UBad _ => replacement end) <$> units s)).

(** ** unicode.IsSpace, strings.TrimSpace, strings.ContainsAny *)

Definition is_space (r : N) : bool :=
  in_range 9 13 r || (r =? 32) || (r =? 0x85) || (r =? 0xA0) || (r =? 0x1680)
  || in_range 0x2000 0x200a r || (r =? 0x2028) || (r =? 0x2029) || (r =? 0x202f)
  || (r =? 0x205f) || (r =? 0x3000).

Fixpoint drop_space (l : list unit_dec) : list unit_dec :=
  match l with
  | [] => []
  | u :: l' => if unit_good u && is_space (unit_rune u) then drop_space l' else l
  end.

Definition trim_space (s : string) : string :=
  of_bytes (mjoin (unit_bytes <$> reverse (drop_space (reverse (drop_space (units s)))))).

(** [strings.TrimSpace(s) == ""]. *)
Definition blank (s : string) : bool := bool_decide (trim_space s = "").

Definition has_byte (p : N → bool) (s : string) : bool := existsb (λ c, p (byte_val c)) (bytes s).

(** [strings.ContainsAny(s, "\r\n\x00")]. *)
Definition contains_crlf_nul (s : string) : bool :=
  has_byte (λ b, (b =? 13) || (b =? 10) || (b =? 0)) s.

(** [containsControl]: the tested runes are below 0x80, so a byte scan and a
    rune scan agree. *)
Definition containsControl (value : string) : bool :=
  existsb (λ char, (char <? 0x20) || (char =? 0x7f)) (runes value).

(** [strings.ToLower] as far as it can produce an ASCII letter. *)
Definition lower_rune (r : N) : N :=
  (if in_range 65 90 r then r + 32 else if r =? 0x212a then 0x6b else if r =? 0x130 then 0x69 else r)%N.
Fixpoint is_prefix (w l : list N) : bool :=
  match w, l with [], _ => true | a :: w, b :: l => (a =? b)%N && is_prefix w l | _, [] => false end.

(** ** Identifier patterns *)

Definition is_digit (b : N) : bool := in_range 48 57 b.
Definition is_alnum (b : N) : bool := is_digit b || in_range 65 90 b || in_range 97 122 b.
Definition is_id_char (b : N) : bool :=
  is_alnum b || (b =? 46) || (b =? 95) || (b =? 58) || (b =? 45).
Definition is_lower_hex (b : N) : bool := is_digit b || in_range 97 102 b.
Definition is_hex (b : N) : bool := is_lower_hex b || in_range 65 70 b.

(** [^[A-Za-z0-9][A-Za-z0-9._:-]{0,127}$], shared by [namespacedIDPattern]
    and [runIDPattern]. *)
Definition safe_id (s : string) : bool :=
  match bytes s with
  | [] => false
  | c :: l => is_alnum (byte_val c) && forallb (λ c, is_id_char (byte_val c)) l
              && bool_decide (length l ≤ 127)%nat
  end.

(** [^apr_[a-f0-9]{32,64}$] *)
Definition approval_id_pattern (s : string) : bool :=
  match s with
  | String.String "a" (String.String "p" (String.String "r" (String.String "_" rest))) =>
      forallb (λ c, is_lower_hex (byte_val c)) (bytes rest)
      && bool_decide (32 ≤ String.length rest ≤ 64)%nat
  | _ => false
  end.

Definition ValidateNamespacedID (id : string) : result unit :=
  fail_when negb (safe_id id) || negb (has_byte (λ b, b =? 46) id)
  with "id must be a namespaced identifier of at most 128 safe characters" ;; Ok tt.

Definition ValidateApprovalID (id : string) : result unit :=
  fail_when negb (approval_id_pattern id)
  with "approval id must use apr_ followed by 32-64 lowercase hex characters" ;; Ok tt.

Definition ValidateRunID (runID : string) : result unit :=
  fail_when negb (safe_id runID) with "run id must be 1-128 safe characters" ;; Ok tt.

Definition ValidateSessionID (sessionID : string) : result unit :=
  fail_when negb (safe_id sessionID) with "session id must be 1-128 safe characters" ;; Ok tt.

Definition ValidateProfileID (id : string) : result unit :=
  fail_when negb (safe_id id) with "profile id must be a safe identifier" ;; Ok tt.

Definition validateCapabilityID (id : string) : result unit := ValidateNamespacedID id.

(** [validateToolCallID] of llm.go. *)
Definition validateToolCallID (id : string) : result unit :=
  fail_when blank id || (256 <? str_len id)%Z || contains_crlf_nul id
  with "invalid tool call id" ;; Ok tt.

(** [hex.DecodeString] succeeds. *)
Definition hex_decodable (s : string) : bool :=
  Nat.even (String.length s) && forallb (λ c, is_hex (byte_val c)) (bytes s).

(** ** Lemmas *)

Lemma bytes_app s t : bytes (s +:+ t) = (bytes s ++ bytes t)%list.
Proof. induction s as [|c s IH]; simpl; [done|]. by rewrite IH. Qed.

Lemma bytes_inj s t : bytes s = bytes t → s = t.
Proof.
  intros H. rewrite <- (String.string_of_list_ascii_of_string s),
    <- (String.string_of_list_ascii_of_string t). by rewrite H.
Qed.

Lemma has_byte_app p s t : has_byte p (s +:+ t) = has_byte p s || has_byte p t.
Proof. unfold has_byte. by rewrite bytes_app, existsb_app. Qed.

(** A safe identifier is printable ASCII. *)
Lemma safe_id_bytes s : safe_id s = true → Forall (λ c, is_id_char (byte_val c) = true) (bytes s).
Proof.
  unfold safe_id. destruct (bytes s) as [|c l]; [done|]. intros H. bool_to_prop.
  constructor.
  - unfold is_id_char. by rewrite H.
  - rewrite forallb_forall in H1. apply Forall_forall. intros x Hx. by apply H1, list_elem_of_In.
Qed.

Lemma safe_id_no_byte p s :
  (∀ b, p b = true → is_id_char b = false) → safe_id s = true → has_byte p s = false.
Proof.
  intros Hp Hs. apply not_true_iff_false. unfold has_byte. rewrite existsb_exists.
  intros (c & Hin%list_elem_of_In & Hc). apply safe_id_bytes in Hs.
  rewrite Forall_forall in Hs. apply Hs in Hin. by rewrite (Hp _ Hc) in Hin.
Qed.

Lemma decode_ascii l :
  Forall (λ c, byte_val c <? 0x80 = true) l → decode_units l = (λ c, URune (byte_val c) [c]) <$> l.
Proof. induction 1 as [|c l Hc _ IH]; [done|]. cbn -[N.ltb]. by rewrite Hc, IH. Qed.

Lemma id_char_ascii b : is_id_char b = true → b <? 0x80 = true.
Proof.
  unfold is_id_char, is_alnum, is_digit, in_range. intros H. apply N.ltb_lt.
  repeat match goal with
  | H : _ || _ = true |- _ => apply orb_prop in H as [?|?]
  | H : _ && _ = true |- _ => apply andb_prop in H as [? ?]
  end; repeat match goal with
  | H : (_ <=? _) = true |- _ => apply N.leb_le in H
  | H : (_ =? _) = true |- _ => apply N.eqb_eq in H
  end; lia.
Qed.

Lemma safe_id_valid_utf8 s : safe_id s = true → valid_utf8 s = true.
Proof.
  intros H. unfold valid_utf8, units. rewrite decode_ascii.
  - rewrite forallb_forall. intros u Hu%list_elem_of_In.
    apply list_elem_of_fmap in Hu as (c & -> & _). done.
  - eapply Forall_impl; [by apply safe_id_bytes|]. simpl. intros. by apply id_char_ascii.
Qed.

(** Decoding loses no byte. *)
Lemma decode_units_bytes l : mjoin (unit_bytes <$> decode_units l) = l.
Proof.
  induction l as [l IH] using (induction_ltof1 _ (@length _)). unfold ltof in IH.
  destruct l as [|c0 l1]; [done|]. cbn [decode_units].
  repeat (destruct_match_goal; subst);
    cbn [fmap list_fmap mjoin list_join unit_bytes]; rewrite IH by (simpl; lia); done.
Qed.

Lemma coerce_utf8_id s : valid_utf8 s = true → coerce_utf8 s = s.
Proof.
  unfold valid_utf8, coerce_utf8. intros H. apply bytes_inj.
  rewrite String.list_ascii_of_string_of_list_ascii. etransitivity; [|apply decode_units_bytes].
  fold (units s). f_equal. apply list_fmap_ext. intros i u Hu.
  rewrite forallb_forall in H. specialize (H u).
  destruct u; [done|]. discriminate H. apply list_elem_of_In, list_elem_of_lookup. eauto.
Qed.

(** Decoding a concatenation whose left part is valid. *)
Lemma decode_units_app l r :
  forallb unit_good (decode_units l) = true → decode_units (l ++ r) = (decode_units l ++ decode_units r)%list.
Proof.
  induction l as [l IH] using (induction_ltof1 _ (@length _)). unfold ltof in IH.
  destruct l as [|c0 l1]; [done|]. cbn [decode_units app].
  destruct (byte_val c0 <? 0x80). { cbn. intros H. by rewrite IH by (simpl; lia || done). }
  destruct (in_range 0xC2 0xDF (byte_val c0)).
  { destruct l1 as [|c1 l2]; cbn [app]; [done|]. destruct (is_cont c1); [|done]. cbn. intros H. by rewrite IH by (simpl; lia || done). }
  destruct (in_range 0xE0 0xEF (byte_val c0)).
  { destruct l1 as [|c1 [|c2 l3]]; cbn [app]; [done|done|]. destruct (second_ok _ c1 && is_cont c2); [|done].
    cbn. intros H. by rewrite IH by (simpl; lia || done). }
  destruct (in_range 0xF0 0xF4 (byte_val c0)); [|done].
  destruct l1 as [|c1 [|c2 [|c3 l4]]]; cbn [app]; [done|done|done|]. destruct (second_ok _ c1 && is_cont c2 && is_cont c3); [|done].
  cbn. intros H. by rewrite IH by (simpl; lia || done).
Qed.

Lemma valid_utf8_app s t : valid_utf8 s = true → valid_utf8 t = true → valid_utf8 (s +:+ t) = true.
Proof.
  unfold valid_utf8, units. intros Hs Ht. rewrite bytes_app, decode_units_app by done. by rewrite forallb_app, Hs, Ht.
Qed.

Lemma decode_units_nonempty l : Forall (λ u, (1 ≤ length (unit_bytes u))%nat) (decode_units l).
Proof.
  induction l as [l IH] using (induction_ltof1 _ (@length _)). unfold ltof in IH.
  destruct l as [|c0 l1]; [constructor|]. cbn [decode_units].
  repeat (destruct_match_goal; subst); (constructor; [cbn; lia|apply IH; simpl; lia]).
Qed.

Lemma drop_space_snoc l u :
  unit_good u && is_space (unit_rune u) = false → ∃ k, drop_space (l ++ [u]) = (k ++ [u])%list.
Proof.
  intros Hu. induction l as [|v l [k IH]]; cbn [app drop_space].
  - rewrite Hu. by exists [].
  - destruct (unit_good v && is_space (unit_rune v)); [exists k; exact IH|exists (v :: l); reflexivity].
Qed.

(** A text whose first character is not a space is not blank. *)
Lemma not_blank s u us :
  units s = u :: us → unit_good u && is_space (unit_rune u) = false → unit_bytes u ≠ [] → blank s = false.
Proof.
  intros Hs Hu Hb. apply bool_decide_eq_false_2. unfold trim_space. rewrite Hs. cbn [drop_space]. rewrite Hu.
  rewrite reverse_cons. destruct (drop_space_snoc (reverse us) u Hu) as [k ->]. rewrite reverse_app. cbn [reverse rev_append app].
  rewrite fmap_cons. intros H. apply (f_equal String.list_ascii_of_string) in H.
  rewrite String.list_ascii_of_string_of_list_ascii in H.
  apply (app_eq_nil (unit_bytes u)) in H as [H _]. done.
Qed.
