(* ===== verification/Json.v ===== *)
(** * encoding/json

    What the kernel uses of Go's [encoding/json]: the value tree of a JSON
    text, the text [json.Marshal] writes, and [json.Unmarshal] into structs,
    maps, slices, pointers and scalars.

    A number is kept as its literal.  A Go [any] holding a decoded value is the
    value tree itself, a [float64] being represented by the literal that
    [json.Marshal] writes for it. *)
From S2P Require Import Prelude GoString.
From stdpp Require Import gmap strings list sorting.
From Stdlib Require Import ZArith Lia Ascii DecimalString DecimalPos DecimalZ.

Unset Elimination Schemes.
Inductive json :=
| JNull
| JBool (b : bool)
| JNum (lit : string)
| JStr (s : string)
| JArr (l : list json)
| JObj (l : list (string * json)).
Set Elimination Schemes.

(** Induction through the nested lists. *)
Fixpoint json_ind (P : json → Prop)
    (Hnull : P JNull) (Hbool : ∀ b, P (JBool b)) (Hnum : ∀ s, P (JNum s)) (Hstr : ∀ s, P (JStr s))
    (Harr : ∀ l, Forall P l → P (JArr l))
    (Hobj : ∀ l, Forall (λ kv, P kv.2) l → P (JObj l)) (j : json) : P j :=
  let rec := json_ind P Hnull Hbool Hnum Hstr Harr Hobj in
  match j with
  | JNull => Hnull
  | JBool b => Hbool b
  | JNum s => Hnum s
  | JStr s => Hstr s
  | JArr l => Harr l ((fix go l : Forall P l :=
      match l with [] => Forall_nil_2 _ | x :: l => Forall_cons_2 _ _ _ (rec x) (go l) end) l)
  | JObj l => Hobj l ((fix go l : Forall (λ kv, P kv.2) l :=
      match l with [] => Forall_nil_2 _ | x :: l => Forall_cons_2 _ _ _ (rec x.2) (go l) end) l)
  end.

#[export] Instance json_eq_dec : EqDecision json.
Proof.
  unfold EqDecision, Decision. fix IH 1. intros [|b|s|s|l|l] [|b'|s'|s'|l'|l']; try (right; congruence).
  - by left.
  - destruct (decide (b = b')); [left|right]; congruence.
  - destruct (decide (s = s')); [left|right]; congruence.
  - destruct (decide (s = s')); [left|right]; congruence.
  - assert ({l = l'} + {l ≠ l'}) as [|]; [|left; congruence|right; congruence].
    revert l'. induction l as [|x l IHl]; intros [|y l']; [by left|by right|by right|].
    destruct (IH x y), (IHl l'); [left|right|right|right]; congruence.
  - assert ({l = l'} + {l ≠ l'}) as [|]; [|left; congruence|right; congruence].
    revert l'. induction l as [|[k x] l IHl]; intros [|[k' y] l']; [by left|by right|by right|].
    destruct (decide (k = k')), (IH x y), (IHl l'); [left|right..]; congruence.
Defined.

(** ** Numbers *)

(** [strconv.FormatInt(z, 10)] *)
Definition z_text (z : Z) : string := NilZero.string_of_int (Z.to_int z).

Definition max_int64 : Z := 9223372036854775807.
Definition min_int64 : Z := -9223372036854775808.
Definition in_int64 (z : Z) : bool := ((min_int64 <=? z) && (z <=? max_int64))%Z.

(** [strconv.ParseInt(s, 10, 64)] on the text of a JSON number: an optional
    minus sign and digits, in range. *)
Definition parse_int64 (s : string) : option Z :=
  match NilZero.int_of_string s with
  | Some i => let z := Z.of_int i in if in_int64 z then Some z else None
  | None => None
  end.

Lemma parse_int64_text z : in_int64 z = true → parse_int64 (z_text z) = Some z.
Proof.
  intros H. unfold parse_int64, z_text. rewrite NilZero.isi.
  - cbn. by rewrite DecimalZ.of_to, H.
  - destruct z as [|p|p]; simpl; [done| |done]. intros [=E]. by apply DecimalPos.Unsigned.to_uint_nonnil in E.
  - destruct z as [|p|p]; simpl; [done|done|]. intros [=E]. by apply DecimalPos.Unsigned.to_uint_nonnil in E.
Qed.

(** ** Marshal *)

Definition hex_digit (n : N) : ascii := ascii_of_N (if (n <? 10)%N then 48 + n else 87 + n)%N.

Definition u00 (n : N) : list ascii :=
  bytes "\u00" ++ [hex_digit (N.div n 16); hex_digit (N.modulo n 16)].

(** One unit of a string literal, with Go's default HTML escaping. *)
Definition escape_unit (u : unit_dec) : list ascii :=
  match u with
  | UBad _ => bytes "\ufffd"
  | URune r bs =>
    if (r =? 0x22)%N then bytes "\" ++ [ascii_of_N 0x22]
    else if (r =? 0x5c)%N then bytes "\\"
    else if (r =? 8)%N then bytes "\b" else if (r =? 12)%N then bytes "\f"
    else if (r =? 10)%N then bytes "\n" else if (r =? 13)%N then bytes "\r"
    else if (r =? 9)%N then bytes "\t"
    else if ((r <? 0x20) || (r =? 0x3c) || (r =? 0x3e) || (r =? 0x26))%N then u00 r
    else if (r =? 0x2028)%N then bytes "\u2028"
    else if (r =? 0x2029)%N then bytes "\u2029"
    else bs
  end.

Definition quoted (s : string) : list ascii :=
  ascii_of_N 0x22 :: mjoin (escape_unit <$> units s) ++ [ascii_of_N 0x22].

Fixpoint sep_by (sep : list ascii) (l : list (list ascii)) : list ascii :=
  match l with [] => [] | [x] => x | x :: l => x ++ sep ++ sep_by sep l end.

(** The compact text of a value tree. *)
Fixpoint json_bytes (j : json) : list ascii :=
  match j with
  | JNull => bytes "null"
  | JBool b => bytes (if b then "true" else "false")
  | JNum lit => bytes lit
  | JStr s => quoted s
  | JArr l => bytes "[" ++ sep_by (bytes ",") (json_bytes <$> l) ++ bytes "]"
  | JObj l => bytes "{" ++ sep_by (bytes ",")
                (map (λ '(k, v), quoted k ++ bytes ":" ++ json_bytes v) l) ++ bytes "}"
  end.

Definition json_text (j : json) : string := of_bytes (json_bytes j).
Definition json_len (j : json) : Z := Z.of_nat (length (json_bytes j)).

(** A stored payload ([json.RawMessage]): its length in bytes and the value its
    text denotes ([None] when the text is not valid JSON). *)
Record RawMessage := mk_raw { raw_len : Z; raw_value : option json }.

#[export] Instance RawMessage_eq_dec : EqDecision RawMessage.
Proof. solve_decision. Defined.

(** [json.Marshal] of a value tree. *)
Definition marshal (j : json) : RawMessage := mk_raw (json_len j) (Some j).

(** The nil or empty [json.RawMessage]. *)
Definition raw_nil : RawMessage := mk_raw 0 None.

(** ** Maps *)

Definition key_le {V} (a b : string * V) : Prop := String.le a.1 b.1.
#[export] Instance key_le_dec {V} : RelDecision (@key_le V).
Proof. intros a b. unfold key_le. apply _. Defined.

(** The entries of a map in the order [json.Marshal] writes them. *)
Definition sorted_entries {V} (m : gmap string V) : list (string * V) :=
  merge_sort key_le (map_to_list m).

(** Storing decoded entries one after the other, a later duplicate winning. *)
Definition put_entries {V} (m : gmap string V) (l : list (string * V)) : gmap string V :=
  foldl (λ m kv, <[kv.1 := kv.2]> m) m l.

(** A value decoded into a Go [any]: object keys unique and (for a canonical
    representation) sorted. *)
Fixpoint any_of_json (j : json) : json :=
  match j with
  | JArr l => JArr (any_of_json <$> l)
  | JObj l => JObj (sorted_entries (put_entries ∅ (map (λ '(k, v), (k, any_of_json v)) l)))
  | _ => j
  end.

(** The value tree [json.Marshal] writes for a Go [any]. *)
Fixpoint json_of_any (j : json) : json :=
  match j with
  | JStr s => JStr (coerce_utf8 s)
  | JArr l => JArr (json_of_any <$> l)
  | JObj l => JObj (sorted_entries (put_entries ∅ (map (λ '(k, v), (coerce_utf8 k, json_of_any v)) l)))
  | _ => j
  end.

(** Values that survive a Marshal/Unmarshal round trip unchanged. *)
Definition any_stable (j : json) : bool := bool_decide (any_of_json (json_of_any j) = j).

Definition json_of_str (s : string) : json := JStr (coerce_utf8 s).
Definition json_of_z (z : Z) : json := JNum (z_text z).
Definition json_of_any_map (m : gmap string json) : json :=
  JObj (sorted_entries (put_entries ∅ (map (λ '(k, v), (coerce_utf8 k, json_of_any v)) (map_to_list m)))).
Definition json_of_str_map (m : gmap string string) : json :=
  JObj (sorted_entries (put_entries ∅ (map (λ '(k, v), (coerce_utf8 k, json_of_str v)) (map_to_list m)))).

(** A field tagged [omitempty]. *)
Definition omit_if (c : bool) (k : string) (j : json) : list (string * json) :=
  if c then [] else [(k, j)].

(** ** Unmarshal *)

(** Decoding into a destination that holds [old]; [None] is an error. *)
Definition decoder (A : Type) := json → A → option A.

Definition dec_str : decoder string := λ j old,
  match j with JStr s => Some s | JNull => Some old | _ => None end.
Definition dec_bool : decoder bool := λ j old,
  match j with JBool b => Some b | JNull => Some old | _ => None end.
Definition dec_z : decoder Z := λ j old,
  match j with JNum lit => parse_int64 lit | JNull => Some old | _ => None end.

(** Pointers: [null] stores nil, anything else allocates when needed. *)
Definition dec_ptr {A} (zero : A) (d : decoder A) : decoder (option A) := λ j old,
  match j with JNull => Some None | _ => Some <$> d j (default zero old) end.

Definition dec_list {A} (zero : A) (d : decoder A) : decoder (list A) := λ j old,
  match j with
  | JNull => Some []
  | JArr l => mapM (λ x, d x zero) l
  | _ => None
  end.

Definition dec_any_map : decoder (gmap string json) := λ j old,
  match j with
  | JNull => Some ∅
  | JObj l => Some (put_entries old (map (λ '(k, v), (k, any_of_json v)) l))
  | _ => None
  end.

Definition dec_str_map : decoder (gmap string string) := λ j old,
  match j with
  | JNull => Some ∅
  | JObj l => put_entries old <$> mapM (λ '(k, v), (λ s, (k, s)) <$> dec_str v "") l
  | _ => None
  end.

(** Field names are matched exactly, or else up to Go's simple case folding
    (ASCII letters, the long s and the Kelvin sign). *)
Definition fold_rune (r : N) : N :=
  if in_range 97 122 r then (r - 32)%N
  else if (r =? 0x17f)%N then 83%N else if (r =? 0x212a)%N then 75%N else r.
Definition fold_name (s : string) : list N := fold_rune <$> runes s.

Definition fields (T : Type) := list (string * decoder T).

Fixpoint find_exact {T} (fs : fields T) (k : string) : option (decoder T) :=
  match fs with
  | [] => None
  | (n, d) :: fs => if bool_decide (n = k) then Some d else find_exact fs k
  end.
Fixpoint find_folded {T} (fs : fields T) (k : list N) : option (decoder T) :=
  match fs with
  | [] => None
  | (n, d) :: fs => if bool_decide (fold_name n = k) then Some d else find_folded fs k
  end.
Definition find_field {T} (fs : fields T) (k : string) : option (decoder T) :=
  match find_exact fs k with
  | Some d => Some d
  | None => find_folded fs (fold_name k)
  end.

(** A struct field: a decoder for its type, and how to read and store it. *)
Definition field {T A} (name : string) (d : decoder A) (get : T → A) (put : A → T → T) :
    string * decoder T :=
  (name, λ j t, (λ a, put a t) <$> d j (get t)).

Fixpoint decode_fields {T} (fs : fields T) (l : list (string * json)) (t : T) : option T :=
  match l with
  | [] => Some t
  | (k, v) :: l =>
    match find_field fs k with
    | None => decode_fields fs l t
    | Some d => match d v t with Some t' => decode_fields fs l t' | None => None end
    end
  end.

Definition dec_struct {T} (fs : fields T) : decoder T := λ j old,
  match j with JNull => Some old | JObj l => decode_fields fs l old | _ => None end.

(** [json.Unmarshal(raw, &zero)]. *)
Definition unmarshal {T} (d : decoder T) (zero : T) (raw : RawMessage) : option T :=
  match raw_value raw with Some j => d j zero | None => None end.

(** ** Lemmas *)

#[export] Instance key_le_trans {V} : Transitive (@key_le V).
Proof. intros a b c. unfold key_le. apply transitivity. Qed.
#[export] Instance key_le_total {V} : Total (@key_le V).
Proof. intros a b. unfold key_le. apply total. apply _. Qed.

Lemma sorted_entries_perm {V} (m : gmap string V) : sorted_entries m ≡ₚ map_to_list m.
Proof. apply merge_sort_Permutation. Qed.

Lemma put_entries_list_to_map {V} (l : list (string * V)) (m : gmap string V) :
  NoDup l.*1 → (∀ k, k ∈ l.*1 → m !! k = None) → put_entries m l = list_to_map l ∪ m.
Proof.
  unfold put_entries. revert m. induction l as [|[k v] l IH]; intros m Hnd Hm; simpl.
  - by rewrite (left_id_L ∅ (∪)).
  - cbn in Hnd. apply NoDup_cons in Hnd as [Hk Hnd]. rewrite IH; [|done|].
    + rewrite <- insert_union_l, insert_union_r; [done|]. by apply not_elem_of_list_to_map_1.
    + intros k' Hk'. rewrite lookup_insert_ne by (intros ->; done). apply Hm. by right.
Qed.

Lemma put_entries_sorted {V} (m : gmap string V) : put_entries ∅ (sorted_entries m) = m.
Proof.
  assert (Hnd : NoDup (sorted_entries m).*1).
  { rewrite (sorted_entries_perm m). apply NoDup_fst_map_to_list. }
  rewrite put_entries_list_to_map; [|done|intros; apply lookup_empty].
  rewrite (right_id_L ∅ (∪)). rewrite <- (list_to_map_to_list m) at 2.
  apply list_to_map_proper; [done|]. apply sorted_entries_perm.
Qed.

Lemma put_entries_to_list {V} (m : gmap string V) : put_entries ∅ (map_to_list m) = m.
Proof.
  rewrite put_entries_list_to_map.
  - by rewrite (right_id_L ∅ (∪)), list_to_map_to_list.
  - apply NoDup_fst_map_to_list.
  - intros. apply lookup_empty.
Qed.

(** Storing the entries of a map, each value passed through [f]. *)
Lemma put_entries_fmap {V W} (f : V → W) (m : gmap string V) l :
  l ≡ₚ map_to_list m → put_entries ∅ (map (λ '(k, v), (k, f v)) l) = f <$> m.
Proof.
  intros Hl.
  assert (Hnd : NoDup l.*1) by (rewrite Hl; apply NoDup_fst_map_to_list).
  assert (E : map (λ '(k, v), (k, f v)) l = prod_map id f <$> l).
  { apply map_ext. by intros [k v]. }
  rewrite E, put_entries_list_to_map.
  - rewrite (right_id_L ∅ (∪)), list_to_map_fmap. f_equal.
    rewrite <- (list_to_map_to_list m). by apply list_to_map_proper.
  - by rewrite <- list_fmap_compose.
  - intros. apply lookup_empty.
Qed.

(** Maps whose keys are valid UTF-8 and whose values are stable. *)
Definition any_map_stable (m : gmap string json) : bool :=
  bool_decide (map_Forall (λ k v, valid_utf8 k = true ∧ any_stable v = true) m).
Definition str_map_stable (m : gmap string string) : bool :=
  bool_decide (map_Forall (λ k v, valid_utf8 k = true ∧ valid_utf8 v = true) m).

Lemma map_coerce_keys {V W} (f : V → W) (m : gmap string V) :
  map_Forall (λ k _, valid_utf8 k = true) m →
  map (λ '(k, v), (coerce_utf8 k, f v)) (map_to_list m) = map (λ '(k, v), (k, f v)) (map_to_list m).
Proof.
  intros H. apply map_ext_in. intros [k v] Hin%list_elem_of_In%elem_of_map_to_list.
  by rewrite coerce_utf8_id by (eapply H; eauto).
Qed.

Lemma dec_any_map_round_trip (m : gmap string json) :
  any_map_stable m = true → dec_any_map (json_of_any_map m) ∅ = Some m.
Proof.
  unfold any_map_stable. rewrite bool_decide_eq_true. intros H.
  unfold json_of_any_map, dec_any_map. f_equal.
  rewrite map_coerce_keys by (by eapply map_Forall_impl; [exact H|]; simpl; intros ?? []).
  rewrite (put_entries_fmap _ m _ (reflexivity _)).
  rewrite (put_entries_fmap _ _ _ (sorted_entries_perm _)).
  rewrite <- map_fmap_compose. rewrite <- (map_fmap_id m) at 2.
  apply map_fmap_ext. intros k v Hk. destruct (H k v Hk) as [_ Hv].
  by apply bool_decide_eq_true in Hv.
Qed.

Lemma dec_str_map_round_trip (m : gmap string string) :
  str_map_stable m = true → dec_str_map (json_of_str_map m) ∅ = Some m.
Proof.
  unfold str_map_stable. rewrite bool_decide_eq_true. intros H.
  unfold json_of_str_map, dec_str_map.
  rewrite map_coerce_keys by (by eapply map_Forall_impl; [exact H|]; simpl; intros ?? []).
  rewrite (put_entries_fmap _ m _ (reflexivity _)).
  assert (E : ∀ l : list (string * json), (∀ k j, (k, j) ∈ l → ∃ s, j = JStr s) →
    mapM (λ '(k, v), (λ s, (k, s)) <$> dec_str v "") l
    = Some (map (λ '(k, v), (k, match v with JStr s => s | _ => "" end)) l)).
  { induction l as [|[k j] l IH]; intros Hl; [done|]. cbn.
    destruct (Hl k j) as [s ->]; [left|]. cbn. rewrite IH; [done|].
    intros k' j' ?. apply (Hl k' j'). by right. }
  rewrite E.
  - cbn. f_equal. rewrite (put_entries_fmap _ _ _ (sorted_entries_perm _)).
    rewrite <- map_fmap_compose. rewrite <- (map_fmap_id m) at 2.
    apply map_fmap_ext. intros k v Hk. cbn. rewrite coerce_utf8_id; [done|]. by destruct (H k v Hk).
  - intros k j. rewrite sorted_entries_perm, elem_of_map_to_list, lookup_fmap.
    destruct (m !! k); cbn; naive_solver.
Qed.

(** ** Round trips of struct codecs *)

Lemma decode_fields_hit {T} (fs : fields T) k v l t d t' :
  find_field fs k = Some d → d v t = Some t' →
  decode_fields fs ((k, v) :: l) t = decode_fields fs l t'.
Proof. intros Hf Hd. cbn [decode_fields]. by rewrite Hf, Hd. Qed.

Lemma dec_str_rt s old : valid_utf8 s = true → dec_str (json_of_str s) old = Some s.
Proof. intros H. unfold json_of_str. by rewrite coerce_utf8_id. Qed.

Lemma dec_z_rt z old : in_int64 z = true → dec_z (json_of_z z) old = Some z.
Proof. apply parse_int64_text. Qed.

Lemma dec_bool_rt b old : dec_bool (JBool b) old = Some b.
Proof. done. Qed.

Lemma dec_list_rt {A} (zero : A) (d : decoder A) (enc : A → json) l old :
  Forall (λ x, d (enc x) zero = Some x) l → dec_list zero d (JArr (enc <$> l)) old = Some l.
Proof. cbn [dec_list]. induction 1 as [|x l Hx _ IH]; [done|]. cbn. by rewrite Hx, IH. Qed.

Lemma dec_ptr_rt {A} (zero : A) (d : decoder A) (enc : A → json) x :
  d (enc x) zero = Some x → enc x ≠ JNull → dec_ptr zero d (enc x) None = Some (Some x).
Proof. intros Hd Hn. unfold dec_ptr. cbn. rewrite Hd. by destruct (enc x). Qed.

(** One step of decoding a struct: the field's decoder is found by computation
    and its value by the round-trip lemma of its type.  Later files extend
    [dec_hook] with the codecs they define. *)
Ltac dec_hook := fail.

Ltac dec_value :=
  first [ apply dec_bool_rt
        | apply dec_str_rt; assumption
        | apply dec_z_rt; assumption
        | apply dec_any_map_round_trip; assumption
        | apply dec_str_map_round_trip; assumption
        | dec_hook ].

Ltac decode_field :=
  erewrite decode_fields_hit;
  [ | reflexivity
    | cbv beta; rewrite fmap_Some; eexists; split; [ dec_value | cbn; reflexivity ] ].

(** Case analysis on the [omitempty] conditions: an omitted field is zero. *)
Ltac split_omit :=
  repeat match goal with
  | |- context [omit_if ?c _ _] =>
      lazymatch c with true => fail | false => fail | _ =>
        let E := fresh "E" in destruct c eqn:E; bool_to_prop
      end
  end;
  cbv beta iota delta [omit_if Datatypes.app].

Ltac decode_struct r :=
  split_omit; repeat decode_field;
  match goal with |- decode_fields _ [] _ = _ => idtac end;
  destruct r; cbn in *; subst; reflexivity.

Lemma escape_unit_length u : (1 ≤ length (unit_bytes u) → length (escape_unit u) ≤ 6 * length (unit_bytes u))%nat.
Proof.
  intros Hu. destruct u as [r bs|c]; [|cbn; lia]. cbn [unit_bytes] in *. unfold escape_unit.
  repeat (case_match; [cbn; lia|]). lia.
Qed.

(** A string literal is at most six times as long as its text, plus quotes. *)
Lemma quoted_length s : (length (quoted s) ≤ 6 * String.length s + 2)%nat.
Proof.
  unfold quoted. cbn [length]. rewrite length_app. cbn [length].
  assert (length (mjoin (escape_unit <$> units s)) ≤ 6 * length (mjoin (unit_bytes <$> units s)))%nat as H.
  { unfold units. induction (decode_units_nonempty (bytes s)) as [|u us Hu Hus IH]; [done|].
    assert (∀ (x : list ascii) l, mjoin (x :: l) = x ++ mjoin l) as Hj by done.
    rewrite !fmap_cons, !Hj, !length_app. apply escape_unit_length in Hu. lia. }
  unfold units in H at 2. rewrite decode_units_bytes in H.
  assert (length (bytes s) = String.length s) as Hl by (clear; induction s; cbn; congruence). rewrite Hl in H. lia.
Qed.
