(* ===== verification/Schema.v ===== *)
(** * The JSON Schema subset: [src/pkg/core/schema.go]

    [ValidateSchema] checks a schema when a capability is registered;
    [ValidateArgs] and [ValidateJSONValue] check a value against it.  Decoded
    JSON values are [json] trees whose numbers stand for the [float64] their
    literal denotes (correctly rounded, [float_of_literal]); the regular
    expression engine of the Go library is a parameter. *)
From S2P Require Import Prelude GoString Json.
From stdpp Require Import gmap strings list.
From Stdlib Require Import ZArith Lia Ascii SpecFloat.
Open Scope Z_scope.

(** ** Numbers *)

Fixpoint take_digits (l : list ascii) (acc : Z) (n : nat) : Z * nat * list ascii :=
  match l with
  | c :: l' => if is_digit (byte_val c) then take_digits l' (acc * 10 + (Z.of_N (byte_val c) - 48)) (S n) else (acc, n, l)
  | [] => (acc, n, [])
  end.

Definition is_char (c : string) (a : ascii) : bool := bool_decide (bytes c = [a]).

(** The decimal value of a JSON number literal: sign, digits, power of ten. *)
Definition parse_number (s : string) : option (bool * Z * Z) :=
  let '(neg, l) := match bytes s with c :: l => if is_char "-" c then (true, l) else (false, bytes s) | [] => (false, []) end in
  let '(int, n, l) := take_digits l 0 0 in
  if bool_decide (n = 0%nat) then None
  else
    let frac := match l with
                | c :: l' => if is_char "." c
                             then (let '(m, k, l'') := take_digits l' int 0 in if bool_decide (k = 0%nat) then None else Some (m, Z.of_nat k, l''))
                             else Some (int, 0, l)
                | [] => Some (int, 0, l) end in
    match frac with
    | None => None
    | Some (m, k, l) =>
      match l with
      | [] => Some (neg, m, - k)
      | c :: l' =>
        if is_char "e" c || is_char "E" c then
          let '(eneg, l') := match l' with
                             | c :: r => if is_char "-" c then (true, r) else if is_char "+" c then (false, r) else (false, l')
                             | [] => (false, []) end in
          let '(e, n, rest) := take_digits l' 0 0 in
          if bool_decide (n = 0%nat) || negb (bool_decide (rest = [])) then None else Some (neg, m, (if eneg : bool then - e else e) - k)
        else None
      end
    end.

(** The [float64] nearest to a decimal (ties to even). *)
Definition float_of_decimal (neg : bool) (m e : Z) : spec_float :=
  match m with
  | Z.pos p =>
    if 0 <=? e then binary_normalize 53 1024 (cond_Zopp neg (m * 10 ^ e)) 0 neg
    else match 10 ^ (- e) with
         | Z.pos d => let '(q, e', l) := SFdiv_core_binary 53 1024 (Z.pos p) 0 (Z.pos d) 0 in binary_round_aux 53 1024 neg q e' l
         | _ => S754_nan
         end
  | _ => S754_zero neg
  end.
Definition float_of_literal (s : string) : spec_float :=
  match parse_number s with Some (neg, m, e) => float_of_decimal neg m e | None => S754_nan end.
Definition float_of_nat (n : nat) : spec_float := float_of_decimal false (Z.of_nat n) 0.

(** [number == math.Trunc(number)] *)
Definition float_integral (f : spec_float) : bool :=
  match f with
  | S754_zero _ | S754_infinity _ => true
  | S754_finite _ m e => (0 <=? e) || (Z.pos m mod 2 ^ (- e) =? 0)
  | S754_nan => false
  end.

(** [numericValue] of a decoded value: the number and whether it is integral. *)
Definition numericValue (value : json) : option (spec_float * bool) :=
  match value with JNum lit => let f := float_of_literal lit in Some (f, float_integral f) | _ => None end.

(** The text of a number identifies the [float64] ([json.Marshal] writes equal
    floats alike and different ones, the two zeros included, differently). *)
Definition float_text (f : spec_float) : string :=
  match f with
  | S754_zero b => if b then "-0" else "0"
  | S754_infinity b => if b then "-inf" else "inf"
  | S754_nan => "nan"
  | S754_finite b m e => (if b then "-" else "") +:+ z_text (Z.pos m) +:+ "p" +:+ z_text e
  end.
Fixpoint canonical (j : json) : json :=
  match j with
  | JNum lit => JNum (float_text (float_of_literal lit))
  | JArr l => JArr (canonical <$> l)
  | JObj l => JObj (map (λ '(k, v), (k, canonical v)) l)
  | _ => j
  end.
(** [equalJSON]: equal encodings. *)
Definition equalJSON (left right : json) : bool := bool_decide (canonical (json_of_any left) = canonical (json_of_any right)).

(** ** Schemas *)

(** Lookup in a decoded map, as a combinator for nested recursion. *)
Section with_key.
Context {A : Type} (f : json → A) (absent : A) (key : string).
Fixpoint with_key (l : list (string * json)) : A :=
  match l with
  | [] => absent
  | (k, v) :: l => if bool_decide (k = key) then f v else with_key l
  end.
End with_key.
Section each.
Context {A : Type} (f : A → result unit).
Fixpoint each (l : list A) : result unit :=
  match l with [] => Ok tt | x :: l => let! _ := f x in each l end.
End each.

Definition get (key : string) (l : list (string * json)) : option json := with_key Some None key l.

Definition knownSchemaTypes : list string := ["string"; "number"; "integer"; "boolean"; "array"; "object"; "null"].

Definition schemaTypeName (j : json) : result string :=
  match j with
  | JStr name => fail_when negb (bool_decide (name ∈ knownSchemaTypes)) with "unknown schema type" ;; Ok name
  | _ => Err "type list contains a value that is not a string"
  end.
Fixpoint collect {A B} (f : A → result B) (l : list A) : result (list B) :=
  match l with [] => Ok [] | x :: l => let! y := f x in let! ys := collect f l in Ok (y :: ys) end.
Definition schemaTypeNames (raw : json) : result (list string) :=
  match raw with
  | JStr _ => let! name := schemaTypeName raw in Ok [name]
  | JArr items => collect schemaTypeName items
  | _ => Err "unexpected schema type"
  end.

(** [schemaNumber]: the number a keyword holds, if present. *)
Definition schemaNumber (l : list (string * json)) (key : string) : result (option spec_float) :=
  match get key l with
  | None => Ok None
  | Some raw => match numericValue raw with Some (f, _) => Ok (Some f) | None => Err "must be numeric" end
  end.
Definition check_pair (l : list (string * json)) (pair : string * string) : result unit :=
  let! minimum := schemaNumber l (fst pair) in
  let! maximum := schemaNumber l (snd pair) in
  match minimum, maximum with
  | Some lo, Some hi => fail_when SFltb hi lo with "minimum exceeds maximum" ;; Ok tt
  | _, _ => Ok tt
  end.
Definition bound_pairs : list (string * string) :=
  [("minLength", "maxLength"); ("minItems", "maxItems"); ("minimum", "maximum")].

Definition check_required (raw : json) : result unit :=
  match raw with
  | JArr items => check_all (λ i, match i with JStr _ => Ok tt | _ => Err "required entry must be a string" end) items
  | _ => Err "required must be an array"
  end.

Section Schema.
(** [regexp.Compile]: the matcher of a pattern, or nothing for an invalid one. *)
Context (regexp_Compile : string → option (string → bool)).

Definition check_pattern (raw : json) : result unit :=
  match raw with
  | JStr text => match regexp_Compile text with Some _ => Ok tt | None => Err "pattern is invalid" end
  | _ => Err "pattern must be a string"
  end.

(** [validateSchemaNode] *)
Fixpoint validateSchemaNode (schema : json) : result unit :=
  match schema with
  | JObj l =>
    if bool_decide (l = []) then Ok tt
    else
      let! _ := match get "type" l with Some raw => let! _ := schemaTypeNames raw in Ok tt | None => Ok tt end in
      let! _ := match get "enum" l with Some (JArr _) | None => Ok tt | Some _ => Err "enum must be an array" end in
      let! _ := match get "pattern" l with Some raw => check_pattern raw | None => Ok tt end in
      let! _ := check_all (check_pair l) bound_pairs in
      let! _ := with_key (λ v, match v with
                               | JBool _ => Ok tt
                               | JObj _ => validateSchemaNode v
                               | _ => Err "additionalProperties must be a boolean or schema object"
                               end) (Ok tt) "additionalProperties" l in
      let! _ := match get "required" l with Some raw => check_required raw | None => Ok tt end in
      let! _ := with_key (λ v, match v with
                               | JObj ps => each (λ kv, match kv with
                                                        | (_, JObj _ as c) => validateSchemaNode c
                                                        | _ => Err "property must be an object" end) ps
                               | _ => Err "properties must be an object"
                               end) (Ok tt) "properties" l in
      with_key (λ v, match v with JObj _ => validateSchemaNode v | _ => Err "items must be an object" end) (Ok tt) "items" l
  | _ => Err "schema must be an object"
  end.

(** ** Values *)

Definition matches_type (value : json) (name : string) : bool :=
  match value with
  | JStr _ => bool_decide (name = "string")
  | JNum _ => bool_decide (name = "number")
              || bool_decide (name = "integer") && match numericValue value with Some (_, i) => i | None => false end
  | JBool _ => bool_decide (name = "boolean")
  | JArr _ => bool_decide (name = "array")
  | JObj _ => bool_decide (name = "object")
  | JNull => bool_decide (name = "null")
  end.
Definition matchesType (expected : list string) (value : json) : bool := existsb (matches_type value) expected.

Definition containsValue (values : list json) (target : json) : bool := existsb (λ c, equalJSON c target) values.

(** [numberField]: the keyword when it is a number. *)
Definition numberField (l : list (string * json)) (key : string) : option spec_float :=
  match get key l with Some (JNum lit) => Some (float_of_literal lit) | _ => None end.

Definition below_min (l : list (string * json)) (key : string) (v : spec_float) : bool :=
  match numberField l key with Some lo => SFltb v lo | None => false end.
Definition above_max (l : list (string * json)) (key : string) (v : spec_float) : bool :=
  match numberField l key with Some hi => SFltb hi v | None => false end.

Definition ErrSchemaType := "invalid schema type".
Definition ErrSchemaPattern := "schema has invalid pattern".

Definition check_string (l : list (string * json)) (text : string) : result unit :=
  let n := float_of_nat (length (runes text)) in
  fail_when below_min l "minLength" n with "length is below minLength" ;;
  fail_when above_max l "maxLength" n with "length exceeds maxLength" ;;
  match get "pattern" l with
  | Some (JStr pattern) =>
    if bool_decide (pattern = "") then Ok tt
    else match regexp_Compile pattern with
         | None => Err ErrSchemaPattern
         | Some matches => fail_when negb (matches text) with "value does not match the required pattern" ;; Ok tt
         end
  | _ => Ok tt
  end.

Definition check_present (vs : list (string * json)) (item : json) : result unit :=
  match item with
  | JStr name => match get name vs with Some _ => Ok tt | None => Err "missing required property" end
  | _ => Ok tt
  end.

Definition declared (l : list (string * json)) (name : string) : bool :=
  match get "properties" l with Some (JObj ps) => match get name ps with Some _ => true | None => false end | _ => false end.

(** [validateValue], with [validateObject] and [validateArray] in place. *)
Fixpoint validateValue (schema value : json) {struct schema} : result unit :=
  match schema with
  | JObj l =>
    let! _ := match get "type" l with
              | Some raw =>
                match schemaTypeNames raw with
                | Err _ => Err ErrSchemaType
                | Ok expected => fail_when negb (matchesType expected value) with "unexpected type" ;; Ok tt
                end
              | None => Ok tt end in
    let! _ := match get "enum" l with
              | Some (JArr raw) => fail_when negb (bool_decide (raw = [])) && negb (containsValue raw value)
                                     with "value is not in the allowed set" ;; Ok tt
              | _ => Ok tt end in
    match value with
    | JObj vs =>
      let! _ := match get "required" l with Some (JArr items) => check_all (check_present vs) items | _ => Ok tt end in
      let! _ := with_key (λ v, match v with
                 | JBool false => check_all (λ kv, fail_when negb (declared l (fst kv)) with "unknown property" ;; Ok tt) vs
                 | JObj _ => check_all (λ kv, if declared l (fst kv) then Ok tt else validateValue v (snd kv)) vs
                 | _ => Ok tt end) (Ok tt) "additionalProperties" l in
      with_key (λ v, match v with
        | JObj ps => each (λ kv, match kv with
                                 | (name, JObj _ as sub) => match get name vs with Some child => validateValue sub child | None => Ok tt end
                                 | _ => Ok tt end) ps
        | _ => Ok tt end) (Ok tt) "properties" l
    | JArr items =>
      let n := float_of_nat (length items) in
      fail_when below_min l "minItems" n with "too few items" ;;
      fail_when above_max l "maxItems" n with "too many items" ;;
      with_key (λ v, match v with JObj _ => check_all (λ item, validateValue v item) items | _ => Ok tt end) (Ok tt) "items" l
    | JStr text => check_string l text
    | JNum lit =>
      let number := float_of_literal lit in
      fail_when below_min l "minimum" number with "value is below minimum" ;;
      fail_when above_max l "maximum" number with "value exceeds maximum" ;; Ok tt
    | _ => Ok tt
    end
  | _ => Ok tt
  end.

Definition schema_json (m : gmap string json) : json := JObj (sorted_entries m).

Definition ValidateSchema (schema : gmap string json) : result unit := validateSchemaNode (schema_json schema).
Definition ValidateArgs (schema args : gmap string json) : result unit :=
  if bool_decide (schema = ∅) then Ok tt
  else match validateValue (schema_json schema) (schema_json args) with Ok _ => Ok tt | Err e => Err ("invalid tool arguments: " +:+ e) end.
Definition ValidateJSONValue (schema : gmap string json) (value : json) : result unit :=
  if bool_decide (schema = ∅) then Ok tt else validateValue (schema_json schema) value.

(** ** A registered schema is usable *)

Lemma with_key_get {A} (f : json → A) d k l : with_key f d k l = match get k l with Some v => f v | None => d end.
Proof. unfold get. induction l as [|[k' v] l IH]; cbn; [done|]. by case_bool_decide. Qed.

Lemma each_check_all {A} (f : A → result unit) l : each f l = check_all f l.
Proof. induction l as [|x l IH]; cbn; [done|]. by rewrite IH. Qed.

Lemma check_all_err {A} (f : A → result unit) l e : check_all f l = Err e → ∃ x, x ∈ l ∧ f x = Err e.
Proof.
  induction l as [|x l IH]; cbn; [done|]. destruct (f x) as [u|e'] eqn:E; cbn.
  - intros H. destruct (IH H) as (y & Hy & Hf). exists y. split; [by right|done].
  - intros [= <-]. exists x. split; [by left|done].
Qed.

Lemma get_elem k l v : get k l = Some v → (k, v) ∈ l.
Proof.
  unfold get. induction l as [|[k' v'] l IH]; cbn; [done|]. case_bool_decide; [intros [= <-]; subst; by left|]. intros H'. right. by apply IH.
Qed.

(** The errors that speak about the schema, not about the value. *)
Definition schema_fault (e : string) : Prop := e = ErrSchemaType ∨ e = ErrSchemaPattern.

(** Every part of a valid schema node. *)
Lemma validateSchemaNode_ok l :
  validateSchemaNode (JObj l) = Ok tt →
  (∀ raw, get "type" l = Some raw → ∃ names, schemaTypeNames raw = Ok names)
  ∧ (∀ p, get "pattern" l = Some (JStr p) → is_Some (regexp_Compile p))
  ∧ (∀ m, get "additionalProperties" l = Some (JObj m) → validateSchemaNode (JObj m) = Ok tt)
  ∧ (∀ ps name m, get "properties" l = Some (JObj ps) → (name, JObj m) ∈ ps → validateSchemaNode (JObj m) = Ok tt)
  ∧ (∀ m, get "items" l = Some (JObj m) → validateSchemaNode (JObj m) = Ok tt).
Proof.
  cbn [validateSchemaNode]. case_bool_decide as Hnil; [subst l; intros _; cbn; by repeat split|].
  rewrite !with_key_get. intros H.
  apply rbind_ok in H as ([] & Hty & H). apply rbind_ok in H as (_ & _ & H). apply rbind_ok in H as ([] & Hpat & H).
  apply rbind_ok in H as (_ & _ & H). apply rbind_ok in H as ([] & Hadd & H). apply rbind_ok in H as (_ & _ & H).
  apply rbind_ok in H as ([] & Hprops & Hitems). split; [|split; [|split; [|split]]].
  - intros raw E. rewrite E in Hty. apply rbind_ok in Hty as (names & Hn & _). by exists names.
  - intros p E. rewrite E in Hpat. cbn in Hpat. destruct (regexp_Compile p); [by eexists|done].
  - intros m E. by rewrite E in Hadd.
  - intros ps name m E Hin. rewrite E in Hprops. rewrite each_check_all in Hprops. apply check_all_ok in Hprops. rewrite Forall_forall in Hprops. apply (Hprops (name, JObj m) Hin).
  - intros m E. by rewrite E in Hitems.
Qed.

(** Induction on a value that also reaches two levels down in objects. *)
Lemma json_ind2 (P : json → Prop) :
  P JNull → (∀ b, P (JBool b)) → (∀ s, P (JNum s)) → (∀ s, P (JStr s)) → (∀ l, P (JArr l)) →
  (∀ l, (∀ k v, (k, v) ∈ l → P v) → (∀ k ps k' v, (k, JObj ps) ∈ l → (k', v) ∈ ps → P v) → P (JObj l)) → ∀ j, P j.
Proof.
  intros H1 H2 H3 H4 H5 H6 j.
  cut (P j ∧ ∀ ps k v, j = JObj ps → (k, v) ∈ ps → P v); [by intros [? _]|].
  induction j as [| | | |ls _|l IH] using json_ind; try by split.
  rewrite Forall_forall in IH. assert (Hl : ∀ k v, (k, v) ∈ l → P v) by (intros k v Hin; apply (IH (k, v) Hin)).
  split.
  - apply H6; [done|]. intros k ps k' v Hin Hin'. destruct (IH (k, JObj ps) Hin) as [_ Hd]. by apply (Hd ps k' v).
  - intros ps k v [= <-] Hin. by apply (Hl k v).
Qed.

Lemma fail_if_err {A} c m (k : result A) e : fail_if c m k = Err e → e = m ∨ k = Err e.
Proof. unfold fail_if. destruct c; [intros [= <-]; by left|by right]. Qed.

Lemma rbind_err {A B} (c : result A) (k : A → result B) e :
  rbind c k = Err e → c = Err e ∨ ∃ a, c = Ok a ∧ k a = Err e.
Proof. destruct c; cbn; [right; eauto|intros [= ->]; by left]. Qed.

Lemma check_string_no_fault l text e :
  (∀ p, get "pattern" l = Some (JStr p) → is_Some (regexp_Compile p)) → check_string l text = Err e → ¬ schema_fault e.
Proof.
  unfold check_string, schema_fault. intros Hp H. apply fail_if_err in H as [->|H]; [by intros [?|?]|].
  apply fail_if_err in H as [->|H]; [by intros [?|?]|].
  destruct (get "pattern" l) as [[]|] eqn:E; try done. case_bool_decide; [done|].
  destruct (Hp _ eq_refl) as [m Hm]. rewrite Hm in H. apply fail_if_err in H as [->|H]; [by intros [?|?]|done].
Qed.

Lemma validateValue_no_fault schema : ∀ value e,
  validateSchemaNode schema = Ok tt → validateValue schema value = Err e → ¬ schema_fault e.
Proof.
  induction schema as [| | | |ls|l IH1 IH2] using json_ind2; intros value e Hok Hv; try done.
  apply validateSchemaNode_ok in Hok as (Hty & Hpat & Hadd & Hprops & Hitems).
  cbn [validateValue] in Hv. apply rbind_err in Hv as [Hv|(_ & _ & Hv)].
  { destruct (get "type" l) as [raw|]; [|done]. destruct (Hty raw eq_refl) as (names & Hn). rewrite Hn in Hv.
    apply fail_if_err in Hv as [->|Hv]; [by intros [?|?]|done]. }
  apply rbind_err in Hv as [Hv|(_ & _ & Hv)].
  { destruct (get "enum" l) as [[]|]; try done. apply fail_if_err in Hv as [->|Hv]; [by intros [?|?]|done]. }
  destruct value as [|b|lit|text|items|vs]; try done.
  - apply fail_if_err in Hv as [->|Hv]; [by intros [?|?]|]. apply fail_if_err in Hv as [->|Hv]; [by intros [?|?]|done].
  - by eapply check_string_no_fault.
  - apply fail_if_err in Hv as [->|Hv]; [by intros [?|?]|]. apply fail_if_err in Hv as [->|Hv]; [by intros [?|?]|].
    rewrite with_key_get in Hv. destruct (get "items" l) as [[]|] eqn:E; try done.
    apply check_all_err in Hv as (item & _ & Hv). apply get_elem in E. by apply (IH1 _ _ E item), Hv; apply Hitems.
  - rewrite !with_key_get in Hv. apply rbind_err in Hv as [Hv|(_ & _ & Hv)].
    { destruct (get "required" l) as [[]|]; try done. apply check_all_err in Hv as (item & _ & Hv).
      destruct item; try done. cbn in Hv. destruct (get _ vs); [done|]. injection Hv as <-. by intros [?|?]. }
    apply rbind_err in Hv as [Hv|(_ & _ & Hv)].
    + destruct (get "additionalProperties" l) as [[|[]| | | |m]|] eqn:E; try done; apply check_all_err in Hv as ([n c] & _ & Hv).
      * apply fail_if_err in Hv as [->|Hv]; [by intros [?|?]|done].
      * cbn [fst snd] in Hv. destruct (declared l n); [done|]. apply get_elem in E. apply (IH1 _ _ E c); [by apply Hadd|done].
    + destruct (get "properties" l) as [[| | | | |ps]|] eqn:E; try done. rewrite each_check_all in Hv.
      apply check_all_err in Hv as ([n sub] & Hin & Hv). destruct sub as [| | | | |m]; try done.
      destruct (get n vs) as [child|]; [|done]. pose proof E as E'. apply get_elem in E'.
      apply (IH2 _ _ _ _ E' Hin child); [by apply (Hprops ps n m)|done].
Qed.
End Schema.

(** A schema that registration accepts never fails at call time for a
    reason of its own: when [ValidateSchema] succeeds, every error of
    [ValidateArgs] and [ValidateJSONValue] is about the value (a wrong type, a
    missing property, a bound, ...), never a malformed type name or an invalid
    pattern in the schema, at any depth. *)
Theorem registered_schema_never_faults regexp_Compile schema :
  ValidateSchema regexp_Compile schema = Ok tt →
  (∀ args e, ValidateArgs regexp_Compile schema args = Err e → ∃ e', e = "invalid tool arguments: " +:+ e' ∧ ¬ schema_fault e')
  ∧ (∀ value e, ValidateJSONValue regexp_Compile schema value = Err e → ¬ schema_fault e).
Proof.
  unfold ValidateSchema, ValidateArgs, ValidateJSONValue. intros Hok. case_bool_decide; [by split|]. split.
  - intros args e H'. destruct (validateValue _ _ _) as [|e'] eqn:E; [done|]. simplify_eq. exists e'. split; [done|].
    by eapply validateValue_no_fault.
  - intros value e H'. by eapply validateValue_no_fault.
Qed.

(** ** Examples *)

Definition ex_regexp (p : string) : option (string → bool) := if bool_decide (p = "(") then None else Some (λ _, true).
Definition ex_schema : gmap string json :=
  put_entries ∅ [("type", JStr "object"); ("required", JArr [JStr "path"]); ("additionalProperties", JBool false);
    ("properties", JObj [("depth", JObj [("maximum", JNum "2.5"); ("type", JStr "integer")]);
                         ("path", JObj [("minLength", JNum "1"); ("pattern", JStr "^/"); ("type", JStr "string")])])].
Definition ex_args (l : list (string * json)) : gmap string json := put_entries ∅ l.

Example schema_examples :
  ValidateSchema ex_regexp ex_schema = Ok tt
  ∧ ValidateArgs ex_regexp ex_schema (ex_args [("path", JStr "/a"); ("depth", JNum "2.0")]) = Ok tt
  ∧ ValidateArgs ex_regexp ex_schema (ex_args [("path", JStr "/a"); ("depth", JNum "3e0")]) = Err "invalid tool arguments: value exceeds maximum"
  ∧ ValidateArgs ex_regexp ex_schema (ex_args [("path", JStr "")]) = Err "invalid tool arguments: length is below minLength"
  ∧ ValidateSchema ex_regexp (ex_args [("pattern", JStr "(")]) = Err "pattern is invalid"
  ∧ ValidateSchema ex_regexp (ex_args [("minimum", JNum "0.30000000000000001"); ("maximum", JNum "0.3")]) = Ok tt
  ∧ equalJSON (JNum "1.0") (JNum "1") = true ∧ equalJSON (JNum "0.1") (JNum "0.10000000000000001") = true
  ∧ equalJSON (JNum "-0") (JNum "0") = false.
Proof. by vm_compute. Qed.

Lemma registered_schema_never_faults_witness :
  ∃ e, ValidateArgs ex_regexp ex_schema ∅ = Err ("invalid tool arguments: " +:+ e) ∧ ¬ schema_fault e.
Proof.
  destruct (registered_schema_never_faults ex_regexp ex_schema) as [H _]; [vm_compute; reflexivity|].
  destruct (H ∅ "invalid tool arguments: missing required property") as (e & He & Hn); [vm_compute; reflexivity|].
  exists e. split; [|exact Hn]. rewrite <- He. vm_compute. reflexivity.
Defined.
