(* ===== verification/Scope.v ===== *)
(** * Ownership scopes: [src/pkg/core/scope.go]

    A [ScopePath] is a root-to-leaf list of (kind, id) segments.  The file
    shows that [NewScopePath] accepts exactly the well-formed paths, that
    [IsAncestorOf] is the prefix order and [Prefixes] enumerates it, that
    [String], the key of every scoped registry, is injective on well-formed
    paths, and that the JSON form round-trips. *)
From S2P Require Import Prelude GoString Json.
From stdpp Require Import gmap strings list sorting.
From Stdlib Require Import ZArith Lia Ascii.

(** ** Definitions *)

Record ScopeRef := mk_ref { Kind : string; ID : string }.
Record ScopePath := mk_path { segments : list ScopeRef }.

#[export] Instance ScopeRef_eq_dec : EqDecision ScopeRef.
Proof. solve_decision. Defined.
#[export] Instance ScopePath_eq_dec : EqDecision ScopePath.
Proof. solve_decision. Defined.

Definition ScopeGlobal := "global".
Definition ScopeDeployment := "deployment".
Definition ScopeProduct := "product".
Definition ScopeTenant := "tenant".
Definition ScopeWorkspace := "workspace".
Definition ScopeUser := "user".
Definition ScopeSession := "session".
Definition ScopeRun := "run".

Definition scopeRankTable : list (string * Z) :=
  [(ScopeGlobal, 0); (ScopeDeployment, 10); (ScopeProduct, 20); (ScopeTenant, 30);
   (ScopeWorkspace, 40); (ScopeUser, 50); (ScopeSession, 60); (ScopeRun, 70)]%Z.

(** Reading the Go map [scopeRanks]. *)
Definition scopeRanks (kind : string) : option Z :=
  snd <$> list_find (λ e, e.1 = kind) scopeRankTable ≫= λ r, Some r.2.

(** The validation loop of [NewScopePath]: [previous] is the rank of the
    segment before. *)
Fixpoint check_segments (previous : Z) (l : list ScopeRef) : result unit :=
  match l with
  | [] => Ok tt
  | segment :: l =>
    match scopeRanks (Kind segment) with
    | None => Err "scope segment has unknown kind"
    | Some rank =>
      fail_when blank (ID segment) with "scope segment has an empty id" ;;
      fail_when has_byte (λ b, (b =? 47) || (b =? 0))%N (ID segment)
        with "scope segment id contains a reserved delimiter" ;;
      fail_when (rank <=? previous)%Z with "scope kind is out of order" ;;
      check_segments rank l
    end
  end.

Definition NewScopePath (l : list ScopeRef) : result ScopePath :=
  match l with
  | [] => Err "scope path is empty"
  | _ => let! _ := check_segments (-1) l in Ok (mk_path l)
  end.

Definition Child (p : ScopePath) (ref : ScopeRef) : result ScopePath :=
  NewScopePath (segments p ++ [ref]).

Definition Depth (p : ScopePath) : Z := Z.of_nat (length (segments p)).

(** The comparison loop of [IsAncestorOf]. *)
Fixpoint segments_prefix (l k : list ScopeRef) : bool :=
  match l, k with
  | [], _ => true
  | _ :: _, [] => false
  | a :: l, b :: k => if bool_decide (a = b) then segments_prefix l k else false
  end.

Definition IsAncestorOf (p other : ScopePath) : bool :=
  if bool_decide (length (segments other) < length (segments p))%nat then false
  else segments_prefix (segments p) (segments other).

Definition Prefixes (p : ScopePath) : list ScopePath :=
  (λ i, mk_path (take (S i) (segments p))) <$> seq 0 (length (segments p)).

Definition Equal (p other : ScopePath) : bool :=
  IsAncestorOf p other && bool_decide (length (segments p) = length (segments other)).

Definition segment_string (s : ScopeRef) : string := Kind s +:+ ":" +:+ ID s.

(** [ScopePath.String] *)
Definition path_string (p : ScopePath) : string :=
  String.concat "/" (segment_string <$> segments p).

Definition zero_ref : ScopeRef := mk_ref "" "".
Definition ref_fields : fields ScopeRef :=
  [field "kind" dec_str Kind (λ k r, mk_ref k (ID r));
   field "id" dec_str ID (λ i r, mk_ref (Kind r) i)].

(** [MarshalJSON] (a nil segment slice is written as null). *)
Definition scope_to_json (p : ScopePath) : json :=
  match segments p with
  | [] => JNull
  | l => JArr ((λ r, JObj [("kind", json_of_str (Kind r)); ("id", json_of_str (ID r))]) <$> l)
  end.

(** [UnmarshalJSON] validates what it decoded. *)
Definition scope_of_json (j : json) : result ScopePath :=
  match dec_list zero_ref (dec_struct ref_fields) j [] with
  | None => Err "json: cannot unmarshal scope path"
  | Some l => NewScopePath l
  end.

(** ** Specification *)

Definition segment_ok (s : ScopeRef) : Prop :=
  is_Some (scopeRanks (Kind s)) ∧ blank (ID s) = false
  ∧ has_byte (λ b, (b =? 47) || (b =? 0))%N (ID s) = false.

Definition rank_of (s : ScopeRef) : Z := default (-1)%Z (scopeRanks (Kind s)).

(** A well-formed path: known kinds in strictly increasing rank, clean ids. *)
Definition valid_segments (l : list ScopeRef) : Prop :=
  Forall segment_ok l ∧ StronglySorted Z.lt (rank_of <$> l).
Definition valid_path (p : ScopePath) : Prop := segments p ≠ [] ∧ valid_segments (segments p).

(** ** Lemmas *)

Lemma scopeRanks_table k r : scopeRanks k = Some r → (k, r) ∈ scopeRankTable.
Proof.
  unfold scopeRanks. destruct (list_find _ _) as [[i [k' r']]|] eqn:E; [|done].
  apply list_find_Some in E as (Hl & Hk & _). cbn in *. intros [=->]. subst k'.
  apply list_elem_of_lookup. by exists i.
Qed.

Lemma rank_nonneg k r : scopeRanks k = Some r → (0 ≤ r)%Z.
Proof. intros H%scopeRanks_table. set_unfold. naive_solver lia. Qed.

Lemma check_segments_ok prev l :
  check_segments prev l = Ok tt ↔
  Forall segment_ok l ∧ StronglySorted Z.lt (rank_of <$> l) ∧ Forall (λ s, prev < rank_of s)%Z l.
Proof.
  revert prev. induction l as [|s l IH]; intros prev; simpl.
  - split; [intros _|done]. repeat constructor.
  - unfold rank_of at 1. unfold segment_ok.
    destruct (scopeRanks (Kind s)) as [r|] eqn:Hr; simpl.
    + rewrite !fail_if_ok, IH, Z.leb_gt, !Forall_cons, Hr.
      assert (Hrk : rank_of s = r) by (unfold rank_of; by rewrite Hr). rewrite Hrk. split.
      * intros (? & ? & ? & Hok & Hss & Hall). split_and!; eauto.
        -- constructor; [done|]. rewrite Forall_fmap. apply Hall.
        -- eapply Forall_impl; [exact Hall|]. cbn. lia.
      * intros ((( _ & ? & ?) & ?) & Hss & ? & _). inversion Hss as [|?? Hss' Hall]; subst.
        rewrite Forall_fmap in Hall. split_and!; auto.
    + rewrite Forall_cons, Hr. split; [done|]. intros (((Hn & _) & _) & _). by destruct Hn.
Qed.

Lemma check_segments_valid l : check_segments (-1) l = Ok tt ↔ valid_segments l.
Proof.
  rewrite check_segments_ok. unfold valid_segments. split; [tauto|]. intros [Hok Hs].
  split_and!; auto. eapply Forall_impl; [exact Hok|]. intros s ([r Hr] & _).
  unfold rank_of. rewrite Hr. cbn. apply rank_nonneg in Hr. lia.
Qed.

Lemma segments_prefix_spec l k : segments_prefix l k = true ↔ l `prefix_of` k.
Proof.
  revert k. induction l as [|a l IH]; intros k; simpl.
  - split; [|done]. intros _. apply prefix_nil.
  - destruct k as [|b k].
    + split; [done|]. intros H. by apply prefix_nil_not in H.
    + case_bool_decide as E; subst.
      * rewrite IH. split; [apply prefix_cons|]. apply prefix_cons_inv_2.
      * split; [done|]. intros H%prefix_cons_inv_1. done.
Qed.

Lemma IsAncestorOf_prefix p q : IsAncestorOf p q = true ↔ segments p `prefix_of` segments q.
Proof.
  unfold IsAncestorOf. rewrite <- segments_prefix_spec. case_bool_decide as H; [|done].
  split; [done|]. intros ?%segments_prefix_spec%prefix_length. lia.
Qed.

Lemma Equal_eq p q : Equal p q = true ↔ p = q.
Proof.
  unfold Equal. rewrite andb_true_iff, IsAncestorOf_prefix, bool_decide_eq_true. split.
  - intros [Hp Hl]. destruct p, q. cbn in *. f_equal. apply prefix_length_eq; [done|lia].
  - intros ->. done.
Qed.

#[export] Instance IsAncestorOf_preorder : PreOrder (λ p q, IsAncestorOf p q = true).
Proof.
  split.
  - intros p. by apply IsAncestorOf_prefix.
  - intros p q r. rewrite !IsAncestorOf_prefix. apply transitivity.
Qed.

Lemma IsAncestorOf_trans p q r :
  IsAncestorOf p q = true → IsAncestorOf q r = true → IsAncestorOf p r = true.
Proof. apply IsAncestorOf_preorder. Qed.

Lemma Prefixes_spec p q : q ∈ Prefixes p ↔ segments q ≠ [] ∧ IsAncestorOf q p = true.
Proof.
  unfold Prefixes. rewrite list_elem_of_fmap. setoid_rewrite elem_of_seq.
  rewrite IsAncestorOf_prefix. split.
  - intros (i & -> & Hi). cbn [segments]. split.
    + destruct (segments p); simpl in *; [lia|done].
    + apply prefix_take.
  - intros [Hne Hpre]. destruct q as [l]; cbn in *.
    exists (pred (length l)). destruct l as [|a l]; [done|]. cbn.
    pose proof (prefix_length _ _ Hpre) as Hlen. split; [|simpl in Hlen; lia].
    f_equal. destruct Hpre as [k ->]. cbn. by rewrite take_app_length.
Qed.

Lemma valid_segments_prefix l k : l `prefix_of` k → valid_segments k → valid_segments l.
Proof.
  intros [m ->] [Hok Hs]. apply Forall_app in Hok as [? _]. split; [done|].
  rewrite fmap_app in Hs. by apply StronglySorted_app in Hs as (_ & ? & _).
Qed.

Lemma valid_path_prefix p q : q ∈ Prefixes p → valid_path p → valid_path q.
Proof.
  rewrite Prefixes_spec, IsAncestorOf_prefix. intros [? ?] [_ ?].
  split; [done|]. by eapply valid_segments_prefix.
Qed.

(** Splitting a byte list at the first occurrence of a separator is unique. *)
Lemma app_sep_inj {A} (x : A) a b a' b' :
  x ∉ a → x ∉ a' → a ++ x :: b = a' ++ x :: b' → a = a' ∧ b = b'.
Proof.
  revert a'. induction a as [|y a IH]; intros [|y' a'] Ha Ha' E; cbn in E; simplify_eq; [done|set_solver..|].
  destruct (IH a') as [-> ->]; set_solver.
Qed.

Definition byte_free (b : ascii) (s : string) : Prop := b ∉ bytes s.

Lemma has_byte_free (p : N → bool) s c : has_byte p s = false → p (byte_val c) = true → byte_free c s.
Proof.
  unfold has_byte, byte_free. intros H Hc Hin. apply not_true_iff_false in H. apply H.
  apply existsb_exists. exists c. split; [by apply list_elem_of_In|done].
Qed.

Lemma kind_free k c : is_Some (scopeRanks k) → c = "/"%char ∨ c = ":"%char ∨ c = "000"%char → byte_free c k.
Proof.
  intros [r Hr%scopeRanks_table] Hc. unfold byte_free.
  repeat (apply elem_of_cons in Hr as [[= -> ->]|Hr]; [cbn; set_solver|]). by apply elem_of_nil in Hr.
Qed.

Lemma segment_string_free s c :
  segment_ok s → c = "/"%char ∨ c = "000"%char → byte_free c (segment_string s).
Proof.
  intros (Hk & _ & Hid) Hc. unfold byte_free, segment_string.
  rewrite !bytes_app, !elem_of_app. intros [H|[H|H]].
  - eapply kind_free in Hk; [by apply Hk in H|]. naive_solver.
  - cbn in H. set_solver.
  - eapply has_byte_free in Hid; [by apply Hid in H|]. by destruct Hc as [-> | ->].
Qed.

Lemma segment_string_inj s t :
  segment_ok s → segment_ok t → segment_string s = segment_string t → s = t.
Proof.
  intros (Hs & _) (Ht & _) E. apply (f_equal bytes) in E. unfold segment_string in E.
  rewrite !bytes_app in E. cbn in E.
  apply app_sep_inj in E as [Ek Ei]; [|by apply kind_free; auto|by apply kind_free; auto].
  destruct s, t. cbn in *. f_equal; by apply bytes_inj.
Qed.

Lemma concat_cons_bytes s l :
  bytes (String.concat "/" (s :: l))
  = bytes s ++ (match l with [] => [] | _ => "/"%char :: bytes (String.concat "/" l) end).
Proof. destruct l; cbn [String.concat]; [by rewrite app_nil_r|]. by rewrite !bytes_app. Qed.

Lemma concat_slash_inj (l k : list string) :
  Forall (byte_free "/"%char) l → Forall (byte_free "/"%char) k → l ≠ [] → k ≠ [] →
  String.concat "/" l = String.concat "/" k → l = k.
Proof.
  revert k. induction l as [|s l IH]; intros [|t k] Hl Hk Hln Hkn E; [done..|].
  apply Forall_cons in Hl as [Hs Hl], Hk as [Ht Hk].
  apply (f_equal bytes) in E. rewrite !concat_cons_bytes in E. unfold byte_free in *.
  destruct l as [|s' l], k as [|t' k].
  - rewrite !app_nil_r in E. by apply bytes_inj in E as ->.
  - rewrite app_nil_r in E. rewrite E in Hs. set_solver.
  - rewrite app_nil_r in E. rewrite <- E in Ht. set_solver.
  - apply app_sep_inj in E as [Es El]; [|done..]. apply bytes_inj in Es as ->.
    f_equal. apply IH; auto. by apply bytes_inj.
Qed.

Lemma path_string_injective p q :
  valid_path p → valid_path q → path_string p = path_string q → p = q.
Proof.
  intros [Hpn [Hp _]] [Hqn [Hq _]] E. destruct p as [l], q as [k]. cbn in *. f_equal.
  unfold path_string in E. cbn in E.
  assert (Hfree : ∀ l, Forall segment_ok l → Forall (byte_free "/"%char) (segment_string <$> l)).
  { intros l' Hl'. rewrite Forall_fmap. eapply Forall_impl; [exact Hl'|]. cbn. intros.
    apply segment_string_free; auto. }
  apply concat_slash_inj in E; auto.
  - clear Hpn Hqn. revert k Hq E. induction Hp as [|s l Hs _ IH]; intros [|t k] Hq E; cbn in E; [done..|].
    apply Forall_cons in Hq as [? ?]. simplify_eq. f_equal; [by apply segment_string_inj|by apply IH].
  - by intros ?%fmap_nil_inv.
  - by intros ?%fmap_nil_inv.
Qed.

Lemma path_string_free_nul p : valid_path p → byte_free "000"%char (path_string p).
Proof.
  intros [_ [Hp _]]. unfold path_string, byte_free. induction Hp as [|s l Hs Hl IH]; [cbn; set_solver|].
  cbn [fmap list_fmap]. rewrite concat_cons_bytes, elem_of_app. intros [H|H].
  - revert H. apply segment_string_free; auto.
  - destruct (segment_string <$> l); [set_solver|]. apply elem_of_cons in H as [H|H]; [done|]. by apply IH.
Qed.

Lemma NewScopePath_ok l p : NewScopePath l = Ok p ↔ p = mk_path l ∧ valid_path p.
Proof.
  unfold NewScopePath, valid_path. destruct l as [|s l]; [split; [done|]; by intros [-> [? _]]|].
  rewrite rbind_ok. split.
  - intros ([] & Hc & [=<-]). split; [done|]. split; [done|]. by apply check_segments_valid.
  - intros [-> [_ Hv]]. exists tt. split; [by apply check_segments_valid|done].
Qed.

Lemma dec_refs_round_trip l :
  Forall (λ s, valid_utf8 (Kind s) = true ∧ valid_utf8 (ID s) = true) l →
  mapM (λ x, dec_struct ref_fields x zero_ref)
    ((λ r, JObj [("kind", json_of_str (Kind r)); ("id", json_of_str (ID r))]) <$> l) = Some l.
Proof.
  induction 1 as [|s l [Hk Hi] _ IH]; [done|]. cbn [fmap list_fmap mapM]. rewrite IH.
  unfold json_of_str. rewrite !coerce_utf8_id by done. by destruct s.
Qed.

Lemma kind_valid_utf8 s : segment_ok s → valid_utf8 (Kind s) = true.
Proof.
  intros ([r Hr%scopeRanks_table] & _).
  repeat (apply elem_of_cons in Hr as [[= -> ->]|Hr]; [done|]). by apply elem_of_nil in Hr.
Qed.

(** A path visits each kind at most once. *)
Lemma valid_segments_length l : valid_segments l → (length l ≤ 8)%nat.
Proof.
  intros [Hok Hs].
  assert (Hnd : NoDup (rank_of <$> l)).
  { clear Hok. induction Hs as [|r rs _ IH Hlt]; constructor; [|done].
    intros Hin. rewrite Forall_forall in Hlt. apply Hlt in Hin. lia. }
  rewrite <- (length_fmap rank_of l).
  transitivity (length (scopeRankTable.*2)); [|done].
  apply submseteq_length, NoDup_submseteq; [done|].
  intros r (s & -> & Hin)%list_elem_of_fmap. rewrite Forall_forall in Hok.
  apply Hok in Hin as ([r Hr] & _). unfold rank_of. rewrite Hr. cbn [default from_option id].
  apply list_elem_of_fmap. exists (Kind s, r). split; [done|]. by apply scopeRanks_table.
Qed.

(** ** Properties *)

(** C38.  [NewScopePath] accepts a list of segments if and only if it is a
    well-formed path: non-empty, root to leaf, of known kinds in strictly
    increasing rank with clean ids.  What it accepts it returns unchanged, and
    on the well-formed paths [String] is injective: two scopes never share a
    registry key. *)
Theorem scope_paths_are_keys (l : list ScopeRef) :
  (∀ p, NewScopePath l = Ok p ↔ p = mk_path l ∧ l ≠ [] ∧ valid_segments l)
  ∧ ∀ p k q, NewScopePath l = Ok p → NewScopePath k = Ok q → (path_string p = path_string q ↔ l = k).
Proof.
  split; [intros p; rewrite NewScopePath_ok; unfold valid_path; split; intros (-> & ?); done|].
  intros p k q [-> Hp]%NewScopePath_ok [-> Hq]%NewScopePath_ok.
  split; [|by intros ->]. intros E. by apply path_string_injective in E as [=].
Qed.

(** On an accepted path, [Prefixes] enumerates exactly the non-empty
    ancestors, each of them once and each itself acceptable, from the root
    down, and there are at most eight. *)
Theorem prefixes_are_the_ancestors (l : list ScopeRef) (p : ScopePath) :
  NewScopePath l = Ok p →
  (∀ q, q ∈ Prefixes p ↔ NewScopePath (segments q) = Ok q ∧ IsAncestorOf q p = true)
  ∧ NoDup (Prefixes p) ∧ last (Prefixes p) = Some p ∧ (1 ≤ length (Prefixes p) ≤ 8)%nat.
Proof.
  intros [-> Hp]%NewScopePath_ok. split_and!.
  - intros q. split.
    + intros Hq. split; [|by apply Prefixes_spec in Hq as [_ ?]].
      apply NewScopePath_ok. split; [by destruct q|]. by eapply valid_path_prefix.
    + intros [[_ [Hq _]]%NewScopePath_ok ?]. by apply Prefixes_spec.
  - unfold Prefixes. apply NoDup_fmap_2_strong; [|apply NoDup_seq].
    intros i j Hi%elem_of_seq Hj%elem_of_seq [=E]. apply (f_equal length) in E.
    rewrite !length_take in E. cbn [segments] in *. lia.
  - destruct Hp as [Hne _]. unfold Prefixes. cbn [segments] in *.
    destruct l as [|s l _] using rev_ind; [done|].
    rewrite length_app, Nat.add_1_r, seq_S, fmap_app, list_fmap_singleton, last_snoc.
    rewrite take_ge; [done|]. rewrite length_app. cbn. lia.
  - unfold Prefixes. rewrite length_fmap, length_seq. destruct Hp as [Hne Hv].
    cbn in *. destruct l; [done|]. cbn. lia.
  - unfold Prefixes. rewrite length_fmap, length_seq. by apply valid_segments_length; destruct Hp.
Qed.

(** The JSON form of an accepted path whose ids are valid UTF-8 decodes
    back to the same path. *)
Theorem scope_json_round_trip (l : list ScopeRef) (p : ScopePath) :
  NewScopePath l = Ok p → Forall (λ s, valid_utf8 (ID s) = true) l →
  scope_of_json (scope_to_json p) = Ok p.
Proof.
  intros Hn Hu. pose proof Hn as [-> [Hne [Hok _]]]%NewScopePath_ok. cbn in Hne, Hok.
  unfold scope_to_json, scope_of_json. cbn [segments].
  destruct l as [|s l]; [done|]. cbn [dec_list]. rewrite dec_refs_round_trip; [done|].
  rewrite Forall_forall in *. eauto using kind_valid_utf8.
Qed.

(** ** Witnesses *)

Definition example_segments : list ScopeRef :=
  [mk_ref ScopeProduct "crypto"; mk_ref ScopeTenant "acme"; mk_ref ScopeSession "s-1"].

Lemma scope_paths_are_keys_witness :
  valid_segments example_segments
  ∧ (path_string (mk_path example_segments) = path_string (mk_path (take 2 example_segments))
     ↔ example_segments = take 2 example_segments).
Proof.
  split.
  - by apply (scope_paths_are_keys example_segments) with (mk_path example_segments).
  - by apply (scope_paths_are_keys example_segments).
Defined.

Lemma prefixes_are_the_ancestors_witness :
  NoDup (Prefixes (mk_path example_segments)) ∧ (length (Prefixes (mk_path example_segments)) ≤ 8)%nat.
Proof.
  destruct (prefixes_are_the_ancestors example_segments (mk_path example_segments)) as (_ & H & _ & _ & H');
    [vm_compute; reflexivity|]. split; assumption.
Defined.

Lemma scope_json_round_trip_witness :
  scope_of_json (scope_to_json (mk_path example_segments)) = Ok (mk_path example_segments).
Proof.
  apply (scope_json_round_trip example_segments); [vm_compute; reflexivity|].
  repeat constructor; vm_compute; reflexivity.
Defined.
