(* ===== verification/Registry.v ===== *)
(** * Scoped registries

    The capability, policy and profile registries of [src/pkg/core] share one
    shape: a Go map from a scope key to the contributions mounted there, in
    mount order, with a counter that numbers the mounts and a cap on their
    total.  The operations below are the bodies of [Mount] and of the unmount
    function it returns, after the contribution was validated.

    A registry operation runs under the registry's mutex, so it is one atomic
    step of the state; [reg_step] is any interleaving of such steps and
    [reg_inv] the invariant of every state it reaches. *)
From S2P Require Import Prelude GoString.
From stdpp Require Import gmap strings list sorting.
From Stdlib Require Import ZArith Lia.
Open Scope Z_scope.

(** What a contribution promises to a registry: its key. *)
Class Keyed (T : Type) := { key_of : T → string }.

(** ** Definitions *)

Record stored (T : Type) := mk_stored { st_val : T; st_order : Z }.
Arguments mk_stored {T} _ _.
Arguments st_val {T} _.
Arguments st_order {T} _.

Record Registry (T : Type) := mk_registry {
  reg_items : gmap string (list (stored T));
  reg_next : Z;
  reg_max : Z }.
Arguments mk_registry {T} _ _ _.
Arguments reg_items {T} _.
Arguments reg_next {T} _.
Arguments reg_max {T} _.

(** The unmount function returned by [Mount], with its [sync.Once]. *)
Record Handle := mk_handle { h_key : string; h_order : Z; h_done : bool }.

Definition MaxRegistryBindings : Z := 4096.

Definition registryCap (max : Z) : Z := if 0 <? max then max else MaxRegistryBindings.

Definition scopedBindingCount {T} (items : gmap string (list (stored T))) : Z :=
  map_fold (λ _ l n, n + Z.of_nat (length l)) 0 items.

Definition uint64 (z : Z) : Z := z `mod` 2 ^ 64.

(** Reading a Go map of slices: a missing key gives the nil slice. *)
Definition reg_at {T} (r : Registry T) (key : string) : list (stored T) :=
  default [] (reg_items r !! key).

Definition empty_registry {T} : Registry T := mk_registry ∅ 0 0.

Section operations.
Context {T : Type} `{Keyed T}.

Definition reg_mount (x : T) (r : Registry T) : result (Registry T * Handle) :=
  fail_when registryCap (reg_max r) <=? scopedBindingCount (reg_items r)
    with "registry bindings exceed maximum" ;;
  let order := uint64 (reg_next r + 1) in
  let key := key_of x in
  Ok (mk_registry (<[key := reg_at r key ++ [mk_stored x order]]> (reg_items r)) order (reg_max r),
      mk_handle key order false).

Definition reg_unmount (h : Handle) (r : Registry T) : Registry T * Handle :=
  if h_done h then (r, h)
  else (mk_registry
          (<[h_key h := remove_first (λ s, st_order s =? h_order h) (reg_at r (h_key h))]> (reg_items r))
          (reg_next r) (reg_max r),
        mk_handle (h_key h) (h_order h) true).

(** [sort.SliceStable] by mount order over a copy of the slice. *)
Definition order_le (a b : stored T) : Prop := st_order a ≤ st_order b.
#[export] Instance order_le_dec : RelDecision order_le.
Proof. intros a b. unfold order_le. apply _. Defined.

Definition reg_sorted (r : Registry T) (key : string) : list (stored T) :=
  merge_sort order_le (reg_at r key).

(** ** Interleavings *)

(** A registry together with the unmount functions handed out. *)
Inductive reg_step : Registry T * list Handle → Registry T * list Handle → Prop :=
| step_mount r hs x r' h : reg_mount x r = Ok (r', h) → reg_step (r, hs) (r', hs ++ [h])
| step_unmount r hs i h r' h' :
    hs !! i = Some h → reg_unmount h r = (r', h') → reg_step (r, hs) (r', <[i := h']> hs).

Inductive reg_reach : Registry T * list Handle → Prop :=
| reach_init max : reg_reach (mk_registry ∅ 0 max, [])
| reach_step s s' : reg_reach s → reg_step s s' → reg_next s'.1 < 2 ^ 64 - 1 → reg_reach s'.

(** ** Invariant *)

Definition slice_ok (next : Z) (key : string) (l : list (stored T)) : Prop :=
  StronglySorted Z.lt (st_order <$> l)
  ∧ Forall (λ s, 0 < st_order s ≤ next ∧ key_of (st_val s) = key) l.

Definition reg_inv (r : Registry T) : Prop :=
  (∀ key, slice_ok (reg_next r) key (reg_at r key))
  ∧ 0 ≤ reg_next r < 2 ^ 64 - 1
  ∧ scopedBindingCount (reg_items r) ≤ registryCap (reg_max r).

(** ** Lemmas *)

#[export] Instance order_le_trans : Transitive order_le.
Proof. intros a b c. unfold order_le. lia. Qed.
#[export] Instance order_le_total : Total order_le.
Proof. intros a b. unfold order_le. lia. Qed.

Lemma count_insert (m : gmap string (list (stored T))) k l :
  scopedBindingCount (<[k := l]> m)
  = scopedBindingCount m - Z.of_nat (length (default [] (m !! k))) + Z.of_nat (length l).
Proof.
  unfold scopedBindingCount.
  assert (Hins : ∀ (m' : gmap string (list (stored T))) l', m' !! k = None →
    map_fold (λ _ l n, n + Z.of_nat (length l)) 0 (<[k := l']> m')
    = map_fold (λ _ l n, n + Z.of_nat (length l)) 0 m' + Z.of_nat (length l')).
  { intros m' l' Hm. rewrite map_fold_insert_L; [done| |done]. intros; cbn; lia. }
  rewrite <- insert_delete_eq, Hins by apply lookup_delete_eq.
  destruct (m !! k) as [l0|] eqn:E; cbn.
  - rewrite <- (insert_id m k l0) at 2 by done. rewrite <- insert_delete_eq, Hins by apply lookup_delete_eq. lia.
  - rewrite delete_id by done. lia.
Qed.

Lemma reg_at_insert (m : gmap string (list (stored T))) n mx k l k' :
  reg_at (mk_registry (<[k := l]> m) n mx) k' = if decide (k = k') then l else default [] (m !! k').
Proof. unfold reg_at. cbn. rewrite lookup_insert. by case_decide. Qed.

Lemma remove_first_length {A} (p : A → bool) l : (length (remove_first p l) ≤ length l)%nat.
Proof. induction l as [|x l IH]; simpl; [lia|]. destruct (p x); simpl; lia. Qed.

Lemma slice_ok_weaken next next' key l : next ≤ next' → slice_ok next key l → slice_ok next' key l.
Proof. intros Hle [? Hf]. split; [done|]. eapply Forall_impl; [exact Hf|]. cbn. naive_solver lia. Qed.

Lemma slice_ok_snoc next key l x :
  slice_ok next key l → 0 ≤ next → key_of x = key →
  slice_ok (next + 1) key (l ++ [mk_stored x (next + 1)]).
Proof.
  intros [Hs Hf] Hn Hk. split.
  - rewrite fmap_app. apply StronglySorted_app_2.
    + intros a b Ha Hb. cbn in Hb. apply list_elem_of_singleton in Hb as ->.
      apply list_elem_of_fmap in Ha as (s & -> & Hin). rewrite Forall_forall in Hf.
      apply Hf in Hin. lia.
    + done.
    + repeat constructor.
  - apply Forall_app. split.
    + eapply Forall_impl; [exact Hf|]. cbn. naive_solver lia.
    + repeat constructor; cbn; [lia..|done].
Qed.

(** The element numbered [order] is the only one removed. *)
Lemma remove_first_filter key next order l :
  slice_ok next key l →
  remove_first (λ s, st_order s =? order) l = filter (λ s, st_order s ≠ order) l.
Proof.
  intros [Hs _]. induction l as [|s l IH]; [done|]. cbn in Hs.
  inversion Hs as [|?? Hs' Hlt]; subst. cbn [remove_first]. rewrite filter_cons.
  destruct (st_order s =? order) eqn:E; bool_to_prop.
  - rewrite decide_False by (by intros []). symmetry. apply filter_all.
    rewrite Forall_fmap in Hlt. eapply Forall_impl; [exact Hlt|]. cbn. intros; lia.
  - rewrite decide_True by done. f_equal. by apply IH.
Qed.

Lemma slice_ok_filter next key l (P : stored T → Prop) `{∀ s, Decision (P s)} :
  slice_ok next key l → slice_ok next key (filter P l).
Proof.
  intros [Hs Hf]. split; [|by apply Forall_filter_sub].
  clear Hf. induction l as [|s l IH]; [done|]. cbn in Hs. inversion Hs as [|?? Hs' Hlt]; subst.
  rewrite filter_cons. case_decide; [|by apply IH]. cbn. constructor; [by apply IH|].
  rewrite Forall_fmap in *. by apply Forall_filter_sub.
Qed.

Lemma reg_mount_inv x r r' h :
  reg_inv r → reg_mount x r = Ok (r', h) → reg_next r' < 2 ^ 64 - 1 →
  reg_inv r' ∧ reg_next r' = reg_next r + 1 ∧ h = mk_handle (key_of x) (reg_next r + 1) false
  ∧ ∀ k, reg_at r' k = reg_at r k ++ (if decide (key_of x = k) then [mk_stored x (reg_next r + 1)] else []).
Proof.
  intros (Hsl & Hn & Hc) Hm Hn'. unfold reg_mount in Hm. apply fail_if_ok in Hm as [Hcap Hm].
  bool_to_prop. injection Hm as <- <-. cbn [reg_next] in *.
  assert (Hu : uint64 (reg_next r + 1) = reg_next r + 1).
  { unfold uint64. apply Z.mod_small. lia. }
  rewrite Hu in *.
  assert (Hat : ∀ k, reg_at (mk_registry (<[key_of x := reg_at r (key_of x) ++ [mk_stored x (reg_next r + 1)]]>
      (reg_items r)) (reg_next r + 1) (reg_max r)) k
      = reg_at r k ++ (if decide (key_of x = k) then [mk_stored x (reg_next r + 1)] else [])).
  { intros k. rewrite reg_at_insert. case_decide; subst; [done|]. by rewrite app_nil_r. }
  split_and!; auto. split_and!.
  - intros k. rewrite Hat. cbn. case_decide as E.
    + apply slice_ok_snoc; auto; lia.
    + rewrite app_nil_r. eapply slice_ok_weaken; [|apply Hsl]. cbn. lia.
  - cbn. lia.
  - cbn. lia.
  - cbn [reg_items reg_max]. rewrite count_insert, length_app. unfold reg_at. cbn [length]. lia.
Qed.

Lemma reg_unmount_inv h r r' h' :
  reg_inv r → reg_unmount h r = (r', h') →
  reg_inv r' ∧ reg_next r' = reg_next r
  ∧ ∀ k, reg_at r' k = if h_done h then reg_at r k
         else if decide (h_key h = k) then filter (λ s, st_order s ≠ h_order h) (reg_at r k) else reg_at r k.
Proof.
  intros Hinv Hu. pose proof Hinv as (Hsl & Hn & Hc). unfold reg_unmount in Hu.
  destruct (h_done h); injection Hu as <- <-; [done|]. cbn [reg_next].
  assert (Hat : ∀ k, reg_at (mk_registry (<[h_key h := remove_first (λ s, st_order s =? h_order h)
      (reg_at r (h_key h))]> (reg_items r)) (reg_next r) (reg_max r)) k
      = if decide (h_key h = k) then filter (λ s, st_order s ≠ h_order h) (reg_at r k) else reg_at r k).
  { intros k. rewrite reg_at_insert. case_decide; subst; [|done]. eapply remove_first_filter, Hsl. }
  split_and!; auto. split_and!; cbn; [|lia..|].
  - intros k. rewrite Hat. case_decide; [|apply Hsl]. apply slice_ok_filter, Hsl.
  - rewrite count_insert. unfold reg_at.
    pose proof (remove_first_length (λ s, st_order s =? h_order h) (default [] (reg_items r !! h_key h))). lia.
Qed.

Lemma reg_reach_inv s : reg_reach s → reg_inv s.1.
Proof.
  induction 1 as [max|s s' _ IH Hstep Hn].
  - split_and!; cbn; [|lia..|].
    + intros key. unfold reg_at. cbn. rewrite lookup_empty. split; constructor.
    + unfold scopedBindingCount. rewrite map_fold_empty. unfold registryCap.
      destruct (0 <? max) eqn:E; bool_to_prop; unfold MaxRegistryBindings; lia.
  - destruct Hstep as [r hs x r' h Hm|r hs i h r' h' _ Hu]; cbn in *.
    + by eapply reg_mount_inv in Hm as [? _].
    + by eapply reg_unmount_inv in Hu as [? _].
Qed.

(** Sorting by mount order changes nothing: the slice is already sorted. *)
Lemma reg_sorted_id r key : reg_inv r → reg_sorted r key = reg_at r key.
Proof.
  intros (Hsl & _). destruct (Hsl key) as [Hs _]. unfold reg_sorted.
  assert (Hperm : merge_sort order_le (reg_at r key) ≡ₚ reg_at r key) by apply merge_sort_Permutation.
  assert (HS : StronglySorted order_le (merge_sort order_le (reg_at r key))).
  { apply Sorted_StronglySorted; [apply _|]. apply (Sorted_merge_sort _). }
  set (l := reg_at r key) in *. set (k := merge_sort order_le l) in *. clearbody k l.
  clear Hsl. revert k Hperm HS. induction l as [|s l IH]; intros k Hperm HS.
  { by apply Permutation_nil_r in Hperm. }
  cbn in Hs. inversion Hs as [|?? Hs' Hlt]; subst. rewrite Forall_fmap in Hlt.
  destruct k as [|t k]; [by apply Permutation_nil_l in Hperm|].
  inversion HS as [|?? HS' Hle]; subst.
  assert (t = s) as ->.
  { assert (s ∈ t :: k) as Hin by (rewrite Hperm; left).
    apply elem_of_cons in Hin as [->|Hin]; [done|].
    assert (t ∈ s :: l) as Hin' by (rewrite <- Hperm; left).
    apply elem_of_cons in Hin' as [->|Hin']; [done|].
    rewrite Forall_forall in Hlt, Hle. apply Hlt in Hin'. apply Hle in Hin. unfold order_le in Hin.
    cbn in Hin'. lia. }
  f_equal. apply IH; auto. by apply Permutation_cons_inv in Hperm.
Qed.

(** Unmounting right after the mount restores every slice. *)
Lemma reg_mount_unmount x r r1 h r2 h2 :
  reg_inv r → reg_mount x r = Ok (r1, h) → reg_next r1 < 2 ^ 64 - 1 → reg_unmount h r1 = (r2, h2) →
  (∀ k, reg_at r2 k = reg_at r k) ∧ h_done h2 = true.
Proof.
  intros Hi Hm Hn Hu. pose proof Hm as Hm'.
  apply reg_mount_inv in Hm' as (Hi1 & _ & Hh & Hat); [|done..].
  pose proof Hu as Hu'. apply reg_unmount_inv in Hu' as (_ & _ & Hat2); [|done]. subst h. cbn in Hat2.
  split; [|by unfold reg_unmount in Hu; cbn in Hu; simplify_eq].
  intros k. rewrite Hat2, !Hat. destruct (decide (key_of x = k)); [|by rewrite app_nil_r].
  rewrite filter_app, filter_cons, decide_False by (cbn; naive_solver).
  rewrite app_nil_r. apply filter_all. destruct Hi as (Hsl & _). destruct (Hsl k) as [_ Hf].
  eapply Forall_impl; [exact Hf|]. cbn. naive_solver lia.
Qed.

End operations.
