(* ===== verification/Principal.v ===== *)
(** * Permissions and principals: [src/pkg/core/types.go]

    A [PermissionSet] is a Go [map[Permission]bool]: a permission is granted
    when it is present {i and} true.  The file also models [clonePrincipal] of
    capability.go and [samePrincipal] of model_gate.go. *)
From S2P Require Import Prelude GoString Json Scope.
From stdpp Require Import gmap strings list fin_maps.
From Stdlib Require Import ZArith Lia.

Notation Permission := string (only parsing).
Notation PermissionSet := (gmap string bool) (only parsing).

(** Reading the map: a missing key reads as false. *)
Definition perm_get (s : PermissionSet) (p : Permission) : bool := default false (s !! p).

Definition NewPermissionSet (grants : list Permission) : PermissionSet :=
  foldl (λ out grant, <[grant := true]> out) ∅ grants.

(** [PermissionSet.Clone] keeps the entries that are true. *)
Definition perm_clone (s : PermissionSet) : PermissionSet := filter (λ kv, kv.2 = true) s.

(** [PermissionSet.Allows] *)
Fixpoint Allows (s : PermissionSet) (required : list Permission) : bool :=
  match required with
  | [] => true
  | p :: required => if perm_get s p then Allows s required else false
  end.

(** [PermissionSet.Intersect] *)
Definition Intersect (s other : PermissionSet) : PermissionSet :=
  filter (λ kv, kv.2 = true ∧ perm_get other kv.1 = true) s.

Record Principal := mk_principal {
  SubjectID : string;
  TenantID : string;
  p_Scope : ScopePath;
  Grants : PermissionSet;
  Attributes : gmap string string }.

#[export] Instance Principal_eq_dec : EqDecision Principal.
Proof. solve_decision. Defined.

Definition clonePrincipal (p : Principal) : Principal :=
  mk_principal (SubjectID p) (TenantID p) (p_Scope p) (perm_clone (Grants p)) (Attributes p).

(** [samePrincipal]: equal sizes and every entry of the left map read in the
    right one (a missing key reads as the zero value). *)
Definition samePrincipal (l r : Principal) : bool :=
  bool_decide (SubjectID l = SubjectID r) && bool_decide (TenantID l = TenantID r)
  && Equal (p_Scope l) (p_Scope r)
  && bool_decide (size (Grants l) = size (Grants r))
  && bool_decide (size (Attributes l) = size (Attributes r))
  && bool_decide (map_Forall (λ p allowed, perm_get (Grants r) p = allowed) (Grants l))
  && bool_decide (map_Forall (λ k v, default "" (Attributes r !! k) = v) (Attributes l)).

(** ** Lemmas *)

Lemma perm_get_insert s p q b : perm_get (<[p := b]> s) q = if decide (p = q) then b else perm_get s q.
Proof. unfold perm_get. rewrite lookup_insert. by case_decide. Qed.

Lemma perm_get_delete s p q : perm_get (delete p s) q = if decide (p = q) then false else perm_get s q.
Proof. unfold perm_get. rewrite lookup_delete. by case_decide. Qed.

Lemma perm_get_clone s p : perm_get (perm_clone s) p = perm_get s p.
Proof.
  unfold perm_get, perm_clone. rewrite map_lookup_filter. destruct (s !! p) as [[]|]; cbn; [|done..].
  by rewrite option_guard_True.
Qed.

Lemma perm_get_new grants p : perm_get (NewPermissionSet grants) p = bool_decide (p ∈ grants).
Proof.
  unfold NewPermissionSet.
  assert (∀ s, perm_get (foldl (λ out grant, <[grant := true]> out) s grants) p
               = bool_decide (p ∈ grants) || perm_get s p) as ->.
  { induction grants as [|q grants IH]; intros s; cbn [foldl].
    - by rewrite bool_decide_eq_false_2 by set_solver.
    - rewrite IH, perm_get_insert. destruct (decide (q = p)) as [E|E].
      + rewrite (bool_decide_eq_true_2 (p ∈ q :: grants)) by set_solver. by rewrite orb_true_r.
      + f_equal. apply bool_decide_ext. set_solver. }
  by rewrite orb_false_r.
Qed.

Lemma perm_get_intersect s o p : perm_get (Intersect s o) p = perm_get s p && perm_get o p.
Proof.
  unfold perm_get at 1, Intersect. rewrite map_lookup_filter.
  change (perm_get s p) with (default false (s !! p)).
  destruct (s !! p) as [b|]; cbn; [|done]. destruct b; cbn.
  - destruct (perm_get o p) eqn:E.
    + by rewrite option_guard_True.
    + rewrite option_guard_False; [done|]. by intros [_ ?].
  - rewrite option_guard_False; [done|]. by intros [? _].
Qed.

Lemma Allows_spec s required : Allows s required = true ↔ Forall (λ p, perm_get s p = true) required.
Proof.
  induction required as [|p l IH]; simpl; [by split|]. rewrite Forall_cons.
  destruct (perm_get s p); naive_solver.
Qed.
