(* ===== verification/Policy.v ===== *)
(** * Layered policy: [src/pkg/core/policy.go]

    A [PolicyRegistry] holds the policy layers mounted at each scope; [Resolve]
    intersects, from the root to the target, every layer mounted at an
    ancestor of the target.  The theorems give the resolved policy as an
    order-free intersection, and show that descending the hierarchy or
    mounting a layer only narrows it. *)
From S2P Require Import Prelude GoString Json Scope Principal Registry.
From stdpp Require Import gmap strings list fin_maps sorting.
From Stdlib Require Import ZArith Lia.
Open Scope Z_scope.

(** ** Definitions *)

Definition HardMaxSteps : Z := 128.
Definition HardMaxToolCalls : Z := 1024.

Record PolicyLayer := mk_layer {
  pl_Scope : ScopePath;
  AllowPermissions : list Permission;
  DenyPermissions : list Permission;
  pl_MaxSteps : option Z;
  pl_MaxToolCalls : option Z }.

#[export] Instance PolicyLayer_keyed : Keyed PolicyLayer := {| key_of l := path_string (pl_Scope l) |}.

Notation PolicyRegistry := (Registry PolicyLayer).

Definition cap_out_of_range (cap : option Z) (hard : Z) : bool :=
  match cap with Some v => (v <=? 0) || (hard <? v) | None => false end.

(** The guards of [Mount], before the registry is locked. *)
Definition validatePolicyLayer (layer : PolicyLayer) : result unit :=
  fail_when Depth (pl_Scope layer) =? 0 with "policy layer has an empty scope" ;;
  fail_when cap_out_of_range (pl_MaxSteps layer) HardMaxSteps
    with "policy layer max steps must be between 1 and 128" ;;
  fail_when cap_out_of_range (pl_MaxToolCalls layer) HardMaxToolCalls
    with "policy layer max tool calls must be between 1 and 1024" ;;
  check_all ValidateNamespacedID (AllowPermissions layer ++ DenyPermissions layer).

(** [PolicyRegistry.Mount] (and [Bind], which drops the unmount function). *)
Definition policy_Mount (layer : PolicyLayer) (r : PolicyRegistry) : result (PolicyRegistry * Handle) :=
  let! _ := validatePolicyLayer layer in reg_mount layer r.

Record ResolvedPolicy := mk_resolved {
  Permissions : PermissionSet;
  rp_MaxSteps : option Z;
  rp_MaxToolCalls : option Z }.

(** Keep the stricter of the current cap and the layer's. *)
Definition tighten (current layer : option Z) : option Z :=
  match layer with
  | None => current
  | Some v =>
    match current with
    | None => Some v
    | Some c => if v <? c then Some v else current
    end
  end.

(** One iteration of the inner loop of [Resolve]. *)
Definition apply_layer (resolved : ResolvedPolicy) (layer : PolicyLayer) : ResolvedPolicy :=
  let allowed :=
    match AllowPermissions layer with
    | [] => Permissions resolved
    | l => Intersect (Permissions resolved) (NewPermissionSet l)
    end in
  mk_resolved (foldl (λ s denied, delete denied s) allowed (DenyPermissions layer))
    (tighten (rp_MaxSteps resolved) (pl_MaxSteps layer))
    (tighten (rp_MaxToolCalls resolved) (pl_MaxToolCalls layer)).

Definition policy_Resolve (r : PolicyRegistry) (principal : Principal) (target : ScopePath) :
    result ResolvedPolicy :=
  fail_when negb (IsAncestorOf (p_Scope principal) target)
    with "principal scope does not own policy target" ;;
  Ok (foldl
        (λ resolved prefix,
           foldl (λ acc s, apply_layer acc (st_val s)) resolved (reg_sorted r (path_string prefix)))
        (mk_resolved (perm_clone (Grants principal)) None None)
        (Prefixes target)).

Record PolicyLayerView := mk_view {
  v_Scope : ScopePath;
  AllowPerms : list Permission;
  DenyPerms : list Permission;
  v_MaxSteps : option Z;
  v_MaxToolCalls : option Z }.

Definition view_of (l : PolicyLayer) : PolicyLayerView :=
  mk_view (pl_Scope l) (AllowPermissions l) (DenyPermissions l) (pl_MaxSteps l) (pl_MaxToolCalls l).

(** [PolicyRegistry.List]: the audit view, root first. *)
Definition policy_List (r : PolicyRegistry) (target : ScopePath) : result (list PolicyLayerView) :=
  fail_when Depth target =? 0 with "target scope is empty" ;;
  Ok (mjoin ((λ prefix, (λ s, view_of (st_val s)) <$> reg_sorted r (path_string prefix)) <$> Prefixes target)).

(** ** Specification *)

(** The layers that govern a target: those mounted at its prefixes. *)
Definition governing (r : PolicyRegistry) (target : ScopePath) : list PolicyLayer :=
  mjoin ((λ prefix, st_val <$> reg_sorted r (path_string prefix)) <$> Prefixes target).

Definition layer_permits (l : PolicyLayer) (p : Permission) : Prop :=
  (AllowPermissions l = [] ∨ p ∈ AllowPermissions l) ∧ p ∉ DenyPermissions l.

(** [m] is the least of the caps [f] declared by [ls]. *)
Definition least_cap (f : PolicyLayer → option Z) (ls : list PolicyLayer) (m : option Z) : Prop :=
  match m with
  | None => Forall (λ l, f l = None) ls
  | Some v => Exists (λ l, f l = Some v) ls ∧ Forall (λ l, ∀ w, f l = Some w → v ≤ w) ls
  end.

(** A registry reached by validated mounts, at well-formed scopes, and
    unmounts in any interleaving. *)
Inductive policy_reach : PolicyRegistry * list Handle → Prop :=
| policy_init max : policy_reach (mk_registry ∅ 0 max, [])
| policy_mount r hs x r' h :
    policy_reach (r, hs) → valid_path (pl_Scope x) → policy_Mount x r = Ok (r', h) →
    reg_next r' < 2 ^ 64 - 1 → policy_reach (r', hs ++ [h])
| policy_unmount r hs i h r' h' :
    policy_reach (r, hs) → hs !! i = Some h → reg_unmount h r = (r', h') →
    policy_reach (r', <[i := h']> hs).

(** ** Lemmas *)

Lemma policy_reach_inv s : policy_reach s → reg_inv s.1 ∧
  ∀ k, Forall (λ l, validatePolicyLayer (st_val l) = Ok tt ∧ valid_path (pl_Scope (st_val l))) (reg_at s.1 k).
Proof.
  induction 1 as [max|r hs x r' h _ [IHi IHv] Hx Hm Hn|r hs i h r' h' _ [IHi IHv] _ Hu]; cbn in *.
  - split.
    + apply (reg_reach_inv (mk_registry ∅ 0 max, [])). constructor.
    + intros k. unfold reg_at. cbn. by rewrite lookup_empty.
  - apply rbind_ok in Hm as ([] & Hval & Hm).
    eapply reg_mount_inv in Hm as (Hi & _ & _ & Hat); [|done..].
    split; [done|]. intros k. rewrite Hat. apply Forall_app. split; [done|].
    case_decide; [by apply Forall_singleton|by apply Forall_nil].
  - eapply reg_unmount_inv in Hu as (Hi & _ & Hat); [|done].
    split; [done|]. intros k. rewrite Hat. destruct (h_done h); [done|].
    case_decide; [by apply Forall_filter_sub|done].
Qed.

(** The two nested loops are one fold over the governing layers. *)
Lemma resolve_fold (r : PolicyRegistry) (acc : ResolvedPolicy) (ps : list ScopePath) :
  foldl (λ resolved prefix,
           foldl (λ acc s, apply_layer acc (st_val s)) resolved (reg_sorted r (path_string prefix))) acc ps
  = foldl apply_layer acc (mjoin ((λ prefix, st_val <$> reg_sorted r (path_string prefix)) <$> ps)).
Proof.
  revert acc. induction ps as [|p ps IH]; intros acc; [done|]. cbn [foldl fmap list_fmap mjoin list_join].
  rewrite foldl_app, <- IH. f_equal.
  generalize (reg_sorted r (path_string p)) as l. intros l. revert acc.
  induction l as [|s l IHl]; intros acc; [done|]. cbn. apply IHl.
Qed.

Lemma perm_get_deny s denied p :
  perm_get (foldl (λ s d, delete d s) s denied) p = perm_get s p && negb (bool_decide (p ∈ denied)).
Proof.
  revert s. induction denied as [|d denied IH]; intros s; cbn [foldl].
  - rewrite bool_decide_eq_false_2 by set_solver. by rewrite andb_true_r.
  - rewrite IH, perm_get_delete. destruct (decide (d = p)) as [E|E].
    + rewrite (bool_decide_eq_true_2 (_ ∈ _ :: denied)) by set_solver. by rewrite andb_false_r.
    + do 2 f_equal. apply bool_decide_ext. set_solver.
Qed.

Lemma apply_layer_perm acc l p :
  perm_get (Permissions (apply_layer acc l)) p = true
  ↔ perm_get (Permissions acc) p = true ∧ layer_permits l p.
Proof.
  unfold apply_layer, layer_permits. cbn [Permissions]. rewrite perm_get_deny, andb_true_iff, negb_true_iff, bool_decide_eq_false.
  destruct (AllowPermissions l) as [|a al].
  - split; [naive_solver|]. naive_solver.
  - rewrite perm_get_intersect, perm_get_new, andb_true_iff, bool_decide_eq_true. naive_solver.
Qed.

Lemma resolve_perm acc ls p :
  perm_get (Permissions (foldl apply_layer acc ls)) p = true
  ↔ perm_get (Permissions acc) p = true ∧ Forall (λ l, layer_permits l p) ls.
Proof.
  revert acc. induction ls as [|l ls IH]; intros acc; cbn [foldl].
  - by split; [intros; split|intros []].
  - rewrite IH, apply_layer_perm, Forall_cons. tauto.
Qed.

Lemma least_cap_app f ls l m :
  least_cap f ls m → least_cap f (ls ++ [l]) (tighten m (f l)).
Proof.
  intros H. unfold tighten. destruct (f l) as [v|] eqn:Hv, m as [c|]; cbn in *.
  - destruct H as [He Hf]. destruct (v <? c) eqn:Hlt; bool_to_prop; split.
    + apply Exists_app. right. by constructor.
    + apply Forall_app. split; [|repeat constructor; naive_solver lia].
      eapply Forall_impl; [exact Hf|]. cbn. intros l' Hl' w Hw. apply Hl' in Hw. lia.
    + apply Exists_app. by left.
    + apply Forall_app. split; [done|]. repeat constructor. naive_solver lia.
  - split.
    + apply Exists_app. right. by constructor.
    + apply Forall_app. split; [|repeat constructor; naive_solver lia].
      eapply Forall_impl; [exact H|]. cbn. naive_solver.
  - destruct H as [He Hf]. split.
    + apply Exists_app. by left.
    + apply Forall_app. split; [done|]. repeat constructor. naive_solver.
  - apply Forall_app. split; [done|]. by repeat constructor.
Qed.

Lemma resolve_least f g ls acc :
  (∀ a l, g (apply_layer a l) = tighten (g a) (f l)) → g acc = None →
  least_cap f ls (g (foldl apply_layer acc ls)).
Proof.
  intros Hg Hacc. induction ls as [|l ls IH] using rev_ind; cbn; [by rewrite Hacc; constructor|].
  rewrite foldl_snoc, Hg. by apply least_cap_app.
Qed.

Lemma least_cap_mono f ls ls' m m' v :
  ls ⊆ ls' → least_cap f ls m → least_cap f ls' m' → m = Some v → ∃ w, m' = Some w ∧ w ≤ v.
Proof.
  intros Hsub Hm Hm' ->. destruct Hm as [He _]. apply Exists_exists in He as (l & Hl & Hf).
  apply Hsub in Hl. destruct m' as [w|]; cbn in Hm'.
  - exists w. split; [done|]. destruct Hm' as [_ Hall]. rewrite Forall_forall in Hall. eauto.
  - rewrite Forall_forall in Hm'. apply Hm' in Hl. congruence.
Qed.

Lemma governing_mono r t t' : IsAncestorOf t t' = true → governing r t ⊆ governing r t'.
Proof.
  intros Hanc l. unfold governing. rewrite !list_elem_of_join. setoid_rewrite list_elem_of_fmap.
  intros (k & Hin & p & -> & Hp). exists (st_val <$> reg_sorted r (path_string p)).
  split; [done|]. exists p. split; [done|]. rewrite Prefixes_spec in *. destruct Hp as [? Hp].
  split; [done|]. by eapply IsAncestorOf_trans.
Qed.

(** The governing layers are exactly those mounted at an ancestor scope. *)
Lemma governing_spec r t hs l :
  policy_reach (r, hs) → valid_path t →
  l ∈ governing r t ↔ IsAncestorOf (pl_Scope l) t = true ∧ ∃ k o, mk_stored l o ∈ reg_at r k.
Proof.
  intros Hr Ht. apply policy_reach_inv in Hr as [Hi Hv]. cbn in *.
  unfold governing. rewrite list_elem_of_join. setoid_rewrite list_elem_of_fmap. split.
  - intros (ls & Hin & p & -> & Hp). apply list_elem_of_fmap in Hin as ([l' o] & -> & Hin). cbn.
    rewrite reg_sorted_id in Hin by done. split; [|eauto].
    pose proof Hi as (Hsl & _). destruct (Hsl (path_string p)) as [_ Hf].
    rewrite Forall_forall in Hf. apply Hf in Hin as Hk. destruct Hk as [_ Hk]. cbn in Hk.
    specialize (Hv (path_string p)). rewrite Forall_forall in Hv. apply Hv in Hin as [_ Hvalid].
    apply path_string_injective in Hk as ->; [|done|by eapply valid_path_prefix].
    by apply Prefixes_spec in Hp as [_ ?].
  - intros (Hanc & k & o & Hin). exists (st_val <$> reg_sorted r (path_string (pl_Scope l))). split.
    + rewrite reg_sorted_id by done. apply list_elem_of_fmap. exists (mk_stored l o). split; [done|].
      destruct Hi as (Hsl & _). destruct (Hsl k) as [_ Hf]. rewrite Forall_forall in Hf.
      pose proof Hin as Hin'. apply Hf in Hin' as [_ Hk]. cbn in Hk. by rewrite Hk.
    + exists (pl_Scope l). split; [done|]. apply Prefixes_spec. split; [|done].
      specialize (Hv k). rewrite Forall_forall in Hv. apply Hv in Hin as [_ [? _]]. done.
Qed.

Lemma policy_Resolve_ok r principal t rp :
  policy_Resolve r principal t = Ok rp →
  IsAncestorOf (p_Scope principal) t = true
  ∧ rp = foldl apply_layer (mk_resolved (perm_clone (Grants principal)) None None) (governing r t).
Proof.
  unfold policy_Resolve. rewrite fail_if_ok, negb_false_iff, resolve_fold. by intros [? [=<-]].
Qed.

Lemma policy_Resolve_perm r principal t rp p :
  policy_Resolve r principal t = Ok rp →
  perm_get (Permissions rp) p = true
  ↔ perm_get (Grants principal) p = true ∧ Forall (λ l, layer_permits l p) (governing r t).
Proof. intros [_ ->]%policy_Resolve_ok. rewrite resolve_perm. cbn [Permissions]. by rewrite perm_get_clone. Qed.

Lemma policy_Resolve_caps r principal t rp :
  policy_Resolve r principal t = Ok rp →
  least_cap pl_MaxSteps (governing r t) (rp_MaxSteps rp)
  ∧ least_cap pl_MaxToolCalls (governing r t) (rp_MaxToolCalls rp).
Proof. intros [_ ->]%policy_Resolve_ok. split; by apply resolve_least. Qed.

Lemma cap_in_range cap hard v : cap_out_of_range cap hard = false → cap = Some v → 1 ≤ v ≤ hard.
Proof. intros H ->. cbn in H. bool_to_prop. lia. Qed.

Lemma validated_caps l :
  validatePolicyLayer l = Ok tt →
  (∀ v, pl_MaxSteps l = Some v → 1 ≤ v ≤ HardMaxSteps)
  ∧ (∀ v, pl_MaxToolCalls l = Some v → 1 ≤ v ≤ HardMaxToolCalls).
Proof.
  unfold validatePolicyLayer. rewrite !fail_if_ok. intros (_ & Hs & Ht & _).
  split; intros v Hv; eapply cap_in_range; eauto.
Qed.

(** A layer currently mounted somewhere in the registry. *)
Definition mounted (r : PolicyRegistry) (l : PolicyLayer) : Prop := ∃ k o, mk_stored l o ∈ reg_at r k.

(** The layers that bind a target: those mounted at one of its ancestors. *)
Definition binds (r : PolicyRegistry) (target : ScopePath) (l : PolicyLayer) : Prop := mounted r l ∧ IsAncestorOf (pl_Scope l) target = true.

(** [m] is the least cap [f] that a binding layer declares, absent exactly when
    none declares one. *)
Definition least_declared (r : PolicyRegistry) (target : ScopePath) (f : PolicyLayer → option Z) (m : option Z) : Prop :=
  match m with
  | None => ∀ l, binds r target l → f l = None
  | Some v => (∃ l, binds r target l ∧ f l = Some v) ∧ ∀ l w, binds r target l → f l = Some w → v ≤ w
  end.

Lemma least_cap_declared r target f m :
  (∀ l, l ∈ governing r target ↔ binds r target l) → least_cap f (governing r target) m → least_declared r target f m.
Proof.
  intros Hg. destruct m as [v|]; cbn; rewrite ?Exists_exists, Forall_forall; setoid_rewrite Hg; [naive_solver|done].
Qed.

(** ** Properties *)

(** C34.  In every reachable registry state the resolved policy is the
    order-free intersection of what the ancestors of the target impose.  Only a
    principal whose scope is an ancestor of the target gets one; a permission
    survives exactly when the principal holds it and every layer mounted at an
    ancestor scope allows it and none denies it; each cap is the least one that
    such a layer declares, absent exactly when no such layer declares it, and
    within the hard limits. *)
Theorem policy_is_the_intersection (r : PolicyRegistry) (hs : list Handle) (principal : Principal)
    (target : ScopePath) (rp : ResolvedPolicy) :
  policy_reach (r, hs) → valid_path target → policy_Resolve r principal target = Ok rp →
  IsAncestorOf (p_Scope principal) target = true
  ∧ (∀ p, perm_get (Permissions rp) p = true ↔ perm_get (Grants principal) p = true ∧ ∀ l, binds r target l → layer_permits l p)
  ∧ least_declared r target pl_MaxSteps (rp_MaxSteps rp)
  ∧ least_declared r target pl_MaxToolCalls (rp_MaxToolCalls rp)
  ∧ (∀ v, rp_MaxSteps rp = Some v → 1 ≤ v ≤ HardMaxSteps)
  ∧ (∀ v, rp_MaxToolCalls rp = Some v → 1 ≤ v ≤ HardMaxToolCalls).
Proof.
  intros Hr Ht Hres.
  assert (Hgov : ∀ l, l ∈ governing r target ↔ binds r target l).
  { intros l. rewrite (governing_spec r target hs) by done. unfold binds, mounted. tauto. }
  assert (Hcap : ∀ l, binds r target l → validatePolicyLayer l = Ok tt).
  { intros l ((k & o & Hin) & _). apply policy_reach_inv in Hr as [_ Hv]. specialize (Hv k). rewrite Forall_forall in Hv. by apply Hv in Hin as [? _]. }
  destruct (policy_Resolve_caps _ _ _ _ Hres) as [Hs%least_cap_declared Hc%least_cap_declared]; [|done..].
  split_and!; [by eapply policy_Resolve_ok| |done|done| |].
  - intros p. rewrite (policy_Resolve_perm _ _ _ _ _ Hres), Forall_forall. by setoid_rewrite Hgov.
  - intros v Hv. rewrite Hv in Hs. destruct Hs as [(l & Hl & Hlv) _]. by apply (validated_caps l (Hcap l Hl)).
  - intros v Hv. rewrite Hv in Hc. destruct Hc as [(l & Hl & Hlv) _]. by apply (validated_caps l (Hcap l Hl)).
Qed.

(** Children only narrow: descending from a target to one of its
    descendants never adds a permission and never loosens or drops a cap. *)
Theorem policy_children_only_narrow (r : PolicyRegistry) (principal : Principal) (t t' : ScopePath)
    (rp rp' : ResolvedPolicy) :
  IsAncestorOf t t' = true → policy_Resolve r principal t = Ok rp → policy_Resolve r principal t' = Ok rp' →
  (∀ required, Allows (Permissions rp') required = true → Allows (Permissions rp) required = true)
  ∧ (∀ v, rp_MaxSteps rp = Some v → ∃ w, rp_MaxSteps rp' = Some w ∧ w ≤ v)
  ∧ (∀ v, rp_MaxToolCalls rp = Some v → ∃ w, rp_MaxToolCalls rp' = Some w ∧ w ≤ v).
Proof.
  intros Ha Hr Hr'. pose proof (governing_mono r _ _ Ha) as Hsub.
  destruct (policy_Resolve_caps _ _ _ _ Hr) as [Hs Hc], (policy_Resolve_caps _ _ _ _ Hr') as [Hs' Hc'].
  split_and!; [|intros v; by eapply least_cap_mono; eauto..].
  intros required. rewrite !Allows_spec. intros Hreq. eapply Forall_impl; [exact Hreq|]. cbn. intros p.
  rewrite (policy_Resolve_perm _ _ _ _ _ Hr), (policy_Resolve_perm _ _ _ _ _ Hr').
  intros [? Hf]. split; [done|]. rewrite Forall_forall in *. auto.
Qed.

(** A mount is reversible: in a reachable registry, calling the returned
    unmount function gives back every resolution the registry had before the
    mount, for every principal and target, and calling it again changes
    nothing. *)
Theorem policy_mount_is_reversible (r r1 r2 : PolicyRegistry) (hs : list Handle) (x : PolicyLayer) (h h2 : Handle) :
  policy_reach (r, hs) → policy_Mount x r = Ok (r1, h) → reg_next r1 < 2 ^ 64 - 1 →
  reg_unmount h r1 = (r2, h2) →
  (∀ principal target, policy_Resolve r2 principal target = policy_Resolve r principal target)
  ∧ reg_unmount h2 r2 = (r2, h2).
Proof.
  intros Hr Hm Hn Hu. apply policy_reach_inv in Hr as [Hi _]. cbn in Hi.
  apply rbind_ok in Hm as ([] & _ & Hm).
  destruct (reg_mount_unmount _ _ _ _ _ _ Hi Hm Hn Hu) as [Hat Hd]. split.
  - intros principal target. unfold policy_Resolve. f_equal. f_equal.
    assert (Hs : ∀ k, reg_sorted r2 k = reg_sorted r k) by (intros k; unfold reg_sorted; by rewrite Hat).
    rewrite !resolve_fold. f_equal. f_equal. apply list_fmap_ext. intros _ p _. by rewrite Hs.
  - unfold reg_unmount. by rewrite Hd.
Qed.

(** ** Witnesses *)

Definition ex_tenant : ScopePath := mk_path [mk_ref ScopeTenant "acme"].
Definition ex_user : ScopePath := mk_path [mk_ref ScopeTenant "acme"; mk_ref ScopeUser "ann"].
Definition ex_layer : PolicyLayer := mk_layer ex_tenant ["data.read"; "data.write"] ["data.write"] (Some 5) None.
Definition ex_principal : Principal :=
  mk_principal "ann" "acme" ex_tenant (NewPermissionSet ["data.read"; "data.write"]) ∅.
Definition ex_registry : PolicyRegistry :=
  match policy_Mount ex_layer empty_registry with Ok (r, _) => r | Err _ => empty_registry end.
Definition ex_handle : Handle := mk_handle (path_string ex_tenant) 1 false.

Lemma ex_tenant_valid : valid_path ex_tenant.
Proof. apply (NewScopePath_ok [mk_ref ScopeTenant "acme"]). vm_compute. reflexivity. Qed.
Lemma ex_user_valid : valid_path ex_user.
Proof. apply (NewScopePath_ok [mk_ref ScopeTenant "acme"; mk_ref ScopeUser "ann"]). vm_compute. reflexivity. Qed.
Lemma ex_mount : policy_Mount ex_layer empty_registry = Ok (ex_registry, ex_handle).
Proof. vm_compute. reflexivity. Qed.
Lemma ex_reach : policy_reach (ex_registry, [ex_handle]).
Proof.
  apply (policy_mount empty_registry [] ex_layer); [constructor|apply ex_tenant_valid|apply ex_mount|].
  vm_compute. reflexivity.
Qed.

Lemma policy_is_the_intersection_witness :
  ∃ rp, policy_Resolve ex_registry ex_principal ex_user = Ok rp
  ∧ perm_get (Permissions rp) "data.read" = true ∧ perm_get (Permissions rp) "data.write" = false
  ∧ rp_MaxSteps rp = Some 5 ∧ rp_MaxToolCalls rp = None
  ∧ least_declared ex_registry ex_user pl_MaxSteps (rp_MaxSteps rp) ∧ least_declared ex_registry ex_user pl_MaxToolCalls (rp_MaxToolCalls rp).
Proof.
  eexists. split; [vm_compute; reflexivity|]. do 4 (split; [vm_compute; reflexivity|]).
  edestruct (policy_is_the_intersection ex_registry [ex_handle] ex_principal ex_user) as (_ & _ & H1 & H2 & _);
    [exact ex_reach|exact ex_user_valid|vm_compute; reflexivity|]. split; [exact H1|exact H2].
Defined.

Lemma policy_children_only_narrow_witness :
  ∃ rp rp', policy_Resolve ex_registry ex_principal ex_tenant = Ok rp
  ∧ policy_Resolve ex_registry ex_principal ex_user = Ok rp'
  ∧ ∀ required, Allows (Permissions rp') required = true → Allows (Permissions rp) required = true.
Proof.
  eexists _, _. split; [vm_compute; reflexivity|]. split; [vm_compute; reflexivity|].
  edestruct (policy_children_only_narrow ex_registry ex_principal ex_tenant ex_user) as (H & _);
    [vm_compute; reflexivity..|]. exact H.
Defined.

Lemma policy_mount_is_reversible_witness :
  policy_Resolve (fst (reg_unmount ex_handle ex_registry)) ex_principal ex_user
  = policy_Resolve empty_registry ex_principal ex_user.
Proof.
  edestruct (policy_mount_is_reversible empty_registry ex_registry) as [H _];
    [apply (policy_init 0)|exact ex_mount|vm_compute; reflexivity|apply surjective_pairing|]. apply H.
Defined.
