(* ===== verification/Sha256.v ===== *)
(** * SHA-256 and hexadecimal text

    The digest the kernel takes of composition records and tool arguments:
    [sha256.Sum256] followed by [hex.EncodeToString].  Words are [Z] values
    modulo 2^32. *)
From S2P Require Import Prelude GoString.
From stdpp Require Import list strings.
From Stdlib Require Import ZArith Lia Ascii.
Open Scope Z_scope.

Definition w32 (z : Z) : Z := z `mod` 2 ^ 32.
Definition rotr (n x : Z) : Z := Z.lor (Z.shiftr x n) (w32 (Z.shiftl x (32 - n))).

(** The constants of the standard: the first 32 bits of the fractional parts of
    the cube roots (round constants) and square roots (initial hash) of the
    first primes. *)
Definition is_prime (n : Z) : bool :=
  (1 <? n) && forallb (λ d, negb (n `mod` Z.of_nat d =? 0)) (seq 2 (Z.to_nat n - 2)).
Definition primes : list Z := Eval vm_compute in (filter (λ n, is_prime n = true) (Z.of_nat <$> seq 0 312)).
(** The greatest [r] below 2^36 with [r ^ k <= n], bit by bit. *)
Definition int_root (k n : Z) : Z :=
  foldl (λ r b, if (r + 2 ^ Z.of_nat b) ^ k <=? n then r + 2 ^ Z.of_nat b else r) 0 (reverse (seq 0 36)).
Definition round_constants : list Z := Eval vm_compute in ((λ p, w32 (int_root 3 (p * 2 ^ 96))) <$> primes).
Definition initial_hash : list Z := Eval vm_compute in ((λ p, w32 (int_root 2 (p * 2 ^ 64))) <$> take 8 primes).

Example constants_of_the_standard :
  length round_constants = 64%nat ∧ head round_constants = Some 0x428a2f98 ∧ last round_constants = Some 0xc67178f2
  ∧ head initial_hash = Some 0x6a09e667 ∧ last initial_hash = Some 0x5be0cd19.
Proof. vm_compute. split_and!; reflexivity. Qed.

(** Message schedule: the last sixteen words, newest first, extended [n] times. *)
Fixpoint schedule (n : nat) (recent : list Z) : list Z :=
  match n with
  | O => []
  | S n =>
    let at_ i := nth i recent 0 in
    let s0 := let x := at_ 14%nat in Z.lxor (Z.lxor (rotr 7 x) (rotr 18 x)) (Z.shiftr x 3) in
    let s1 := let x := at_ 1%nat in Z.lxor (Z.lxor (rotr 17 x) (rotr 19 x)) (Z.shiftr x 10) in
    let w := w32 (at_ 15%nat + s0 + at_ 6%nat + s1) in
    w :: schedule n (w :: take 15 recent)
  end.

Definition compress_round (st : list Z) (kw : Z * Z) : list Z :=
  match st with
  | [a; b; c; d; e; f; g; h] =>
    let S1 := Z.lxor (Z.lxor (rotr 6 e) (rotr 11 e)) (rotr 25 e) in
    let ch := Z.lxor (Z.land e f) (Z.land (Z.lxor e 0xffffffff) g) in
    let t1 := w32 (h + S1 + ch + kw.1 + kw.2) in
    let S0 := Z.lxor (Z.lxor (rotr 2 a) (rotr 13 a)) (rotr 22 a) in
    let maj := Z.lxor (Z.lxor (Z.land a b) (Z.land a c)) (Z.land b c) in
    [w32 (t1 + w32 (S0 + maj)); a; b; c; w32 (d + t1); e; f; g]
  | _ => st
  end.

Definition compress_block (st block : list Z) : list Z :=
  let ws := block ++ schedule 48 (reverse block) in
  zip_with (λ x y, w32 (x + y)) st (foldl compress_round st (zip round_constants ws)).

Definition be_word (l : list Z) : Z := foldl (λ acc b, acc * 256 + b) 0 l.

Fixpoint words_of (n : nat) (l : list Z) : list Z :=
  match n with O => [] | S n => be_word (take 4 l) :: words_of n (drop 4 l) end.

Fixpoint blocks (n : nat) (st : list Z) (l : list Z) : list Z :=
  match n with O => st | S n => blocks n (compress_block st (words_of 16 (take 64 l))) (drop 64 l) end.

Definition be_bytes (n : nat) (z : Z) : list Z :=
  (λ i, (z / 256 ^ Z.of_nat (n - 1 - i)) `mod` 256) <$> seq 0 n.

Definition pad (l : list Z) : list Z :=
  let len := length l in
  let zeros := ((119 - len `mod` 64) `mod` 64)%nat in
  l ++ [128] ++ replicate zeros 0 ++ be_bytes 8 (8 * Z.of_nat len).

Definition sha256_bytes (l : list Z) : list Z :=
  let p := pad l in
  blocks (length p / 64) initial_hash p ≫= be_bytes 4.

Definition hex_char (z : Z) : ascii := ascii_of_N (Z.to_N (if z <? 10 then 48 + z else 87 + z)).
Definition hex_encode (l : list Z) : list ascii := l ≫= λ b, [hex_char (b / 16); hex_char (b `mod` 16)].

(** [hex.EncodeToString(sha256.Sum256([]byte(s))[:])] *)
Definition sha256_hex (s : string) : string :=
  of_bytes (hex_encode (sha256_bytes ((λ c, Z.of_N (byte_val c)) <$> bytes s))).

(** The published test vectors. *)
Example sha256_empty : sha256_hex "" = "e3b0c44298fc1c149afbf4c8996fb92427ae41e4649b934ca495991b7852b855".
Proof. vm_compute. reflexivity. Qed.
Example sha256_abc : sha256_hex "abc" = "ba7816bf8f01cfea414140de5dae2223b00361a396177a9cb410ff61f20015ad".
Proof. vm_compute. reflexivity. Qed.
Example sha256_two_blocks :
  sha256_hex "abcdbcdecdefdefgefghfghighijhijkijkljklmklmnlmnomnopnopq"
  = "248d6a61d20638b8e5c026930c3e6039a33ce45964ff2167f6ecedd419db06c1".
Proof. vm_compute. reflexivity. Qed.

(** ** A digest is 64 lowercase hexadecimal characters *)

Lemma compress_round_length st kw : length st = 8%nat → length (compress_round st kw) = 8%nat.
Proof. intros H. do 8 (destruct st as [|? st]; [done|]). by destruct st. Qed.

Lemma rounds_length l st : length st = 8%nat → length (foldl compress_round st l) = 8%nat.
Proof. revert st. induction l as [|x l IH]; intros st H; cbn; [done|]. by apply IH, compress_round_length. Qed.

Lemma compress_block_length st b : length st = 8%nat → length (compress_block st b) = 8%nat.
Proof. intros H. unfold compress_block. rewrite length_zip_with, rounds_length by done. lia. Qed.

Lemma blocks_length n st l : length st = 8%nat → length (blocks n st l) = 8%nat.
Proof. revert st l. induction n as [|n IH]; intros st l H; cbn -[compress_block]; [done|]. by apply IH, compress_block_length. Qed.

Lemma be_bytes_spec n z : length (be_bytes n z) = n ∧ Forall (λ b, 0 ≤ b < 256) (be_bytes n z).
Proof.
  unfold be_bytes. rewrite length_fmap, length_seq. split; [done|].
  rewrite Forall_fmap. apply Forall_forall. intros i _. cbn. apply Z.mod_pos_bound. lia.
Qed.

Lemma sha256_bytes_spec l : length (sha256_bytes l) = 32%nat ∧ Forall (λ b, 0 ≤ b < 256) (sha256_bytes l).
Proof.
  unfold sha256_bytes. pose proof (blocks_length (length (pad l) / 64) initial_hash (pad l) eq_refl) as Hl.
  set (st := blocks _ _ _) in *. clearbody st. split.
  - do 8 (destruct st as [|? st]; [done|]). by destruct st.
  - clear Hl. induction st as [|w st IH]; [constructor|]. cbn -[be_bytes]. apply Forall_app. split; [|done]. apply be_bytes_spec.
Qed.

Lemma hex_encode_length l : length (hex_encode l) = (2 * length l)%nat.
Proof. induction l as [|b l IH]; [done|]. change (S (S (length (hex_encode l))) = (2 * S (length l))%nat). lia. Qed.

Lemma hex_char_hex z : 0 ≤ z < 16 → is_lower_hex (byte_val (hex_char z)) = true.
Proof.
  intros H. assert (z ∈ seqZ 0 16) as Hin by (apply elem_of_seqZ; lia).
  repeat (apply elem_of_cons in Hin as [->|Hin]; [done|]). by apply elem_of_nil in Hin.
Qed.

Lemma sha256_hex_spec s :
  String.length (sha256_hex s) = 64%nat
  ∧ forallb (λ c, is_lower_hex (byte_val c)) (bytes (sha256_hex s)) = true.
Proof.
  unfold sha256_hex. set (l := (λ c, Z.of_N (byte_val c)) <$> bytes s).
  destruct (sha256_bytes_spec l) as [Hl Hf]. set (d := sha256_bytes l) in *. clearbody d. split.
  - assert (Hlen : ∀ k, String.length (of_bytes k) = length k) by (induction k; cbn; congruence).
    rewrite Hlen, hex_encode_length, Hl. done.
  - rewrite String.list_ascii_of_string_of_list_ascii. apply forallb_forall. intros c Hc%list_elem_of_In.
    unfold hex_encode in Hc. apply list_elem_of_bind in Hc as (b & Hc & Hb).
    rewrite Forall_forall in Hf. apply Hf in Hb.
    repeat (apply elem_of_cons in Hc as [->|Hc]; [apply hex_char_hex|]); [..|by apply elem_of_nil in Hc].
    + split; [apply Z.div_pos; lia|apply Z.div_lt_upper_bound; lia].
    + apply Z.mod_pos_bound. lia.
Qed.
