(* ===== verification/GoTime.v ===== *)
(** * Timestamps

    A [time.Time] is kept as the RFC 3339 text that [encoding/json] writes and
    reads for it; [parse_time] is the strict parser of [Time.UnmarshalJSON],
    giving the seconds since the zero time 0001-01-01T00:00:00Z and whether
    there is a non-zero fraction. *)
From S2P Require Import Prelude GoString Json.
From stdpp Require Import list strings.
From Stdlib Require Import ZArith Lia Ascii.
Open Scope Z_scope.

Fixpoint take_digits (n : nat) (acc : Z) (l : list ascii) : option (Z * list ascii) :=
  match n with
  | O => Some (acc, l)
  | S n =>
    match l with
    | c :: l => if is_digit (byte_val c) then take_digits n (acc * 10 + (Z.of_N (byte_val c) - 48)) l else None
    | [] => None
    end
  end.

Definition expect (c : ascii) (l : list ascii) : option (list ascii) :=
  match l with c' :: l => if bool_decide (c = c') then Some l else None | [] => None end.

(** The fraction: consumed digits, with a flag telling whether one is not 0. *)
Fixpoint skip_fraction (nonzero : bool) (l : list ascii) : bool * list ascii :=
  match l with
  | c :: l' => if is_digit (byte_val c) then skip_fraction (nonzero || negb (byte_val c =? 48)%N) l' else (nonzero, l)
  | [] => (nonzero, [])
  end.

Definition is_leap (y : Z) : bool := (y `mod` 4 =? 0) && (negb (y `mod` 100 =? 0) || (y `mod` 400 =? 0)).
Definition days_in (y m : Z) : Z :=
  if m =? 2 then (if is_leap y then 29 else 28)
  else if (m =? 4) || (m =? 6) || (m =? 9) || (m =? 11) then 30 else 31.

(** Days from 0001-01-01 to the given day. *)
Definition days_from_zero (y m d : Z) : Z :=
  let y' := y - 1 in
  y' * 365 + y' / 4 - y' / 100 + y' / 400
  + foldl (λ acc i, acc + days_in y i) 0 (seqZ 1 (m - 1)) + (d - 1).

Definition parse_offset (l : list ascii) : option Z :=
  match l with
  | [c] => if bool_decide (c = "Z"%char) then Some 0 else None
  | c :: l =>
    sign ← (if bool_decide (c = "+"%char) then Some 1 else if bool_decide (c = "-"%char) then Some (-1) else None);
    '(h, l) ← take_digits 2 0 l; l ← expect ":"%char l; '(m, l) ← take_digits 2 0 l;
    if (h <=? 23) && (m <=? 59) && bool_decide (l = []) then Some (sign * (h * 60 + m)) else None
  | [] => None
  end.

Definition parse_time (s : string) : option (Z * bool) :=
  '(y, l) ← take_digits 4 0 (bytes s); l ← expect "-"%char l;
  '(mo, l) ← take_digits 2 0 l; l ← expect "-"%char l;
  '(d, l) ← take_digits 2 0 l; l ← expect "T"%char l;
  '(h, l) ← take_digits 2 0 l; l ← expect ":"%char l;
  '(mi, l) ← take_digits 2 0 l; l ← expect ":"%char l;
  '(sec, l) ← take_digits 2 0 l;
  let '(frac, l) :=
    match l with
    | dot :: ((c :: _) as l') =>
      if bool_decide (dot = "."%char) && is_digit (byte_val c) then skip_fraction false l' else (false, l)
    | _ => (false, l)
    end in
  off ← parse_offset l;
  if (1 <=? mo) && (mo <=? 12) && (1 <=? d) && (d <=? days_in y mo)
     && (h <=? 23) && (mi <=? 59) && (sec <=? 59)
  then Some (((days_from_zero y mo d * 24 + h) * 60 + mi - off) * 60 + sec, frac) else None.

Definition zero_time : string := "0001-01-01T00:00:00Z".

(** [Time.IsZero] *)
Definition time_is_zero (t : string) : bool := bool_decide (parse_time t = Some (0, false)).

(** A value this model can hold: a parsable text, in valid UTF-8. *)
Definition time_ok (t : string) : bool := bool_decide (is_Some (parse_time t)) && valid_utf8 t.

(** [Time.MarshalJSON] and [Time.UnmarshalJSON]. *)
Definition json_of_time (t : string) : json := json_of_str t.
Definition dec_time : decoder string := λ j old,
  match j with
  | JNull => Some old
  | JStr s => if bool_decide (is_Some (parse_time s)) then Some s else None
  | _ => None
  end.

Lemma dec_time_round_trip t old : time_ok t = true → dec_time (json_of_time t) old = Some t.
Proof.
  unfold time_ok. intros H. bool_to_prop. unfold json_of_time, json_of_str. rewrite coerce_utf8_id by done.
  cbn. by rewrite bool_decide_eq_true_2.
Qed.

Example zero_time_is_zero : time_is_zero zero_time = true ∧ time_is_zero "0001-01-01T01:00:00+01:00" = true.
Proof. by vm_compute. Qed.
Example parse_time_examples :
  parse_time "2024-02-29T12:00:00.5Z" = Some (63844804800, true) ∧ parse_time "2023-02-29T12:00:00Z" = None
  ∧ parse_time "2024-01-01 00:00:00Z" = None.
Proof. by vm_compute. Qed.
