(* ===== verification/Payload.v ===== *)
(** * Session event payloads: [src/pkg/core/session.go], [types.go], [profile.go]

    The event vocabulary of a session log: the payload structs with their JSON
    codecs, and the round trip Unmarshal (Marshal d) = d of each.

    A payload handed to [Append] as a Go [any] is an [EventData]: one
    constructor per payload struct (a struct and a non-nil pointer to it are
    treated alike by [canonicalEventValue]), [DOther] for any other value,
    given by its JSON form, and [DNil]. *)
From S2P Require Import Prelude GoString Json Scope Sha256 GoTime Principal.
From stdpp Require Import gmap strings list.
From Stdlib Require Import ZArith Lia Ascii.
Open Scope Z_scope.

Definition MaxSessionEventDataBytes : Z := 16 * 2 ^ 20.
Definition MaxRuntimeErrorMessageBytes : Z := 16 * 2 ^ 10.
Definition maxRunUsageInvocationIDBytes : Z := 96.
Definition MaxRunCompositionMetadataItems : Z := 32.
Definition MaxRunCompositionMetadataKeyBytes : Z := 128.
Definition MaxRunCompositionMetadataValueBytes : Z := 1024.
Definition MaxRunCompositionMetadataBytes : Z := 16 * 2 ^ 10.
Definition MaxReportedTokensPerCall : Z := 1000000000000.
Definition MaxReportedTokensPerRun : Z := 10000000000000.
Definition MaxCapabilityMetadataBytes : Z := 256 * 2 ^ 10.

(** ** Event and status vocabularies *)

Inductive SessionEventType :=
| EvRunStart | EvRunResume | EvRunEnd | EvRunError | EvRunUsage | EvStepStart | EvStepEnd
| EvStepError | EvUserMessage | EvAssistantMessage | EvAssistantChunk | EvToolCall | EvToolResult
| EvApprovalRequested | EvApprovalResolved | EvContextSummary
| EvUnknown (name : string).

#[export] Instance SessionEventType_eq_dec : EqDecision SessionEventType.
Proof. solve_decision. Defined.

Definition RunCompleted := "completed".
Definition RunLimited := "limited".
Definition RunFailed := "failed".
Definition RunCancelled := "cancelled".
Definition RunWaitingApproval := "waiting_approval".

Definition ApprovalApproved := "approved".
Definition ApprovalDenied := "denied".
Definition ApprovalPending := "pending".
Definition ApprovalExpired := "expired".

(** ** Payload structs *)

Record ToolCall := mk_call { tc_ID : string; tc_Name : string; tc_Args : gmap string json; Continuation : string }.

Record ModelSelection := mk_model { Provider : string; Model : string }.

Record ResolvedPromptFragment := mk_fragment {
  pf_ID : string; Section : string; Content : string; Priority : Z; Source : ScopePath }.

Record AgentProfileSnapshot := mk_profile {
  ps_ID : string; ps_ProfileID : string; CreatedAt : string; ps_Scope : ScopePath; Name : string;
  Description : string; ps_Model : ModelSelection; ps_MaxSteps : Z; ps_MaxToolCalls : Z;
  Capabilities : list string; Fragments : list ResolvedPromptFragment; ps_Metadata : gmap string string }.

(** A capability selection of a run composition; its manifest is kept as the
    JSON object recorded for it. *)
Record SnapshotCapability := mk_snapcap { sc_Manifest : json; sc_Source : ScopePath; ProviderRevision : string }.

Record RunCompositionData := mk_composition {
  rc_Profile : AgentProfileSnapshot; rc_Capabilities : list SnapshotCapability;
  EffectivePermissions : PermissionSet; rc_Model : ModelSelection; ResolvedProvider : string;
  ModelRevision : string; rc_MaxSteps : Z; rc_MaxToolCalls : Z; rc_Metadata : gmap string string }.

(** [RunStartData] and [RunResumeData] have the same fields. *)
Record RunStartData := mk_start {
  ProfileSnapshotID : string; CapabilitySnapshotID : string; rs_CompositionRevision : string;
  AssignmentRevision : string; Composition : option RunCompositionData }.

Record RunEndData := mk_end { Status : string }.
Record RuntimeErrorData := mk_error { Code : string; Message : string; Retryable : bool }.
Record StepData := mk_step { Index : Z }.
Record UserMessageData := mk_user { um_Text : string }.
Record AssistantMessageData := mk_assistant { am_Text : string; am_ToolCall : option ToolCall; am_ToolCalls : list ToolCall }.
Record AssistantChunkData := mk_chunk { ac_Text : string }.
Record RunUsageData := mk_usage { InputTokens : Z; OutputTokens : Z; InvocationID : string }.
Record ContextSummaryData := mk_summary { Op : string; cs_Start : Z; cs_End : Z; Summary : string }.
Record ToolCallData := mk_tcall { cd_CallID : string; cd_Name : string; cd_Args : gmap string json }.
Record ToolResultData := mk_tresult { tr_CallID : string; tr_Content : string; tr_OK : bool; tr_Metadata : gmap string json }.
Record ApprovalRequestedData := mk_areq {
  ar_ApprovalID : string; ar_ToolCall : ToolCall; ResumeCall : ToolCall; RemainingCalls : list ToolCall;
  Step : Z; Fast : bool; ExpiresAt : string }.
Record ApprovalResolvedData := mk_ares {
  av_ApprovalID : string; av_CallID : string; Decision_ : string; ResolvedAt : string; ResolvedBy : string }.

Inductive EventData :=
| DRunStart (d : RunStartData) | DRunResume (d : RunStartData) | DRunEnd (d : RunEndData)
| DRuntimeError (d : RuntimeErrorData) | DRunUsage (d : RunUsageData) | DStep (d : StepData)
| DUserMessage (d : UserMessageData) | DAssistantMessage (d : AssistantMessageData)
| DAssistantChunk (d : AssistantChunkData) | DToolCall (d : ToolCallData) | DToolResult (d : ToolResultData)
| DApprovalRequested (d : ApprovalRequestedData) | DApprovalResolved (d : ApprovalResolvedData)
| DContextSummary (d : ContextSummaryData)
| DOther (j : json) | DNil.

(** ** JSON codecs, in the order and with the tags of the struct fields *)

Definition is_empty (s : string) : bool := bool_decide (s = "").

Definition zero_call : ToolCall := mk_call "" "" ∅ "".
Definition call_to_json (c : ToolCall) : json :=
  JObj ([("id", json_of_str (tc_ID c)); ("name", json_of_str (tc_Name c))]
        ++ omit_if (bool_decide (tc_Args c = ∅)) "args" (json_of_any_map (tc_Args c))
        ++ omit_if (is_empty (Continuation c)) "continuation" (json_of_str (Continuation c))).
Definition call_fields : fields ToolCall :=
  [field "id" dec_str tc_ID (λ x c, mk_call x (tc_Name c) (tc_Args c) (Continuation c));
   field "name" dec_str tc_Name (λ x c, mk_call (tc_ID c) x (tc_Args c) (Continuation c));
   field "args" dec_any_map tc_Args (λ x c, mk_call (tc_ID c) (tc_Name c) x (Continuation c));
   field "continuation" dec_str Continuation (λ x c, mk_call (tc_ID c) (tc_Name c) (tc_Args c) x)].
Definition dec_call : decoder ToolCall := dec_struct call_fields.

Definition zero_model : ModelSelection := mk_model "" "".
Definition model_to_json (m : ModelSelection) : json :=
  JObj [("provider", json_of_str (Provider m)); ("model", json_of_str (Model m))].
Definition model_fields : fields ModelSelection :=
  [field "provider" dec_str Provider (λ x m, mk_model x (Model m));
   field "model" dec_str Model (λ x m, mk_model (Provider m) x)].

(** [ScopePath] fields go through [ScopePath.UnmarshalJSON], for null as well. *)
Definition dec_scope : decoder ScopePath := λ j _,
  match scope_of_json j with Ok p => Some p | Err _ => None end.

Definition zero_fragment : ResolvedPromptFragment := mk_fragment "" "" "" 0 (mk_path []).
Definition fragment_to_json (f : ResolvedPromptFragment) : json :=
  JObj ([("id", json_of_str (pf_ID f)); ("section", json_of_str (Section f)); ("content", json_of_str (Content f))]
        ++ omit_if (Priority f =? 0) "priority" (json_of_z (Priority f))
        ++ [("source", scope_to_json (Source f))]).
Definition fragment_fields : fields ResolvedPromptFragment :=
  [field "id" dec_str pf_ID (λ x f, mk_fragment x (Section f) (Content f) (Priority f) (Source f));
   field "section" dec_str Section (λ x f, mk_fragment (pf_ID f) x (Content f) (Priority f) (Source f));
   field "content" dec_str Content (λ x f, mk_fragment (pf_ID f) (Section f) x (Priority f) (Source f));
   field "priority" dec_z Priority (λ x f, mk_fragment (pf_ID f) (Section f) (Content f) x (Source f));
   field "source" dec_scope Source (λ x f, mk_fragment (pf_ID f) (Section f) (Content f) (Priority f) x)].

(** A nil slice is written as null. *)
Definition nil_or (l : list json) : json := match l with [] => JNull | _ => JArr l end.

Definition zero_profile : AgentProfileSnapshot :=
  mk_profile "" "" zero_time (mk_path []) "" "" zero_model 0 0 [] [] ∅.
Definition profile_to_json (p : AgentProfileSnapshot) : json :=
  JObj ([("id", json_of_str (ps_ID p)); ("profile_id", json_of_str (ps_ProfileID p));
         ("created_at", json_of_time (CreatedAt p)); ("scope", scope_to_json (ps_Scope p));
         ("name", json_of_str (Name p))]
        ++ omit_if (is_empty (Description p)) "description" (json_of_str (Description p))
        ++ [("model", model_to_json (ps_Model p)); ("max_steps", json_of_z (ps_MaxSteps p))]
        ++ omit_if (ps_MaxToolCalls p =? 0) "max_tool_calls" (json_of_z (ps_MaxToolCalls p))
        ++ [("capabilities", nil_or (json_of_str <$> Capabilities p));
            ("fragments", nil_or (fragment_to_json <$> Fragments p))]
        ++ omit_if (bool_decide (ps_Metadata p = ∅)) "metadata" (json_of_str_map (ps_Metadata p))).
Definition profile_fields : fields AgentProfileSnapshot :=
  [field "id" dec_str ps_ID (λ x p, mk_profile x (ps_ProfileID p) (CreatedAt p) (ps_Scope p) (Name p) (Description p) (ps_Model p) (ps_MaxSteps p) (ps_MaxToolCalls p) (Capabilities p) (Fragments p) (ps_Metadata p));
   field "profile_id" dec_str ps_ProfileID (λ x p, mk_profile (ps_ID p) x (CreatedAt p) (ps_Scope p) (Name p) (Description p) (ps_Model p) (ps_MaxSteps p) (ps_MaxToolCalls p) (Capabilities p) (Fragments p) (ps_Metadata p));
   field "created_at" dec_time CreatedAt (λ x p, mk_profile (ps_ID p) (ps_ProfileID p) x (ps_Scope p) (Name p) (Description p) (ps_Model p) (ps_MaxSteps p) (ps_MaxToolCalls p) (Capabilities p) (Fragments p) (ps_Metadata p));
   field "scope" dec_scope ps_Scope (λ x p, mk_profile (ps_ID p) (ps_ProfileID p) (CreatedAt p) x (Name p) (Description p) (ps_Model p) (ps_MaxSteps p) (ps_MaxToolCalls p) (Capabilities p) (Fragments p) (ps_Metadata p));
   field "name" dec_str Name (λ x p, mk_profile (ps_ID p) (ps_ProfileID p) (CreatedAt p) (ps_Scope p) x (Description p) (ps_Model p) (ps_MaxSteps p) (ps_MaxToolCalls p) (Capabilities p) (Fragments p) (ps_Metadata p));
   field "description" dec_str Description (λ x p, mk_profile (ps_ID p) (ps_ProfileID p) (CreatedAt p) (ps_Scope p) (Name p) x (ps_Model p) (ps_MaxSteps p) (ps_MaxToolCalls p) (Capabilities p) (Fragments p) (ps_Metadata p));
   field "model" (dec_struct model_fields) ps_Model (λ x p, mk_profile (ps_ID p) (ps_ProfileID p) (CreatedAt p) (ps_Scope p) (Name p) (Description p) x (ps_MaxSteps p) (ps_MaxToolCalls p) (Capabilities p) (Fragments p) (ps_Metadata p));
   field "max_steps" dec_z ps_MaxSteps (λ x p, mk_profile (ps_ID p) (ps_ProfileID p) (CreatedAt p) (ps_Scope p) (Name p) (Description p) (ps_Model p) x (ps_MaxToolCalls p) (Capabilities p) (Fragments p) (ps_Metadata p));
   field "max_tool_calls" dec_z ps_MaxToolCalls (λ x p, mk_profile (ps_ID p) (ps_ProfileID p) (CreatedAt p) (ps_Scope p) (Name p) (Description p) (ps_Model p) (ps_MaxSteps p) x (Capabilities p) (Fragments p) (ps_Metadata p));
   field "capabilities" (dec_list "" dec_str) Capabilities (λ x p, mk_profile (ps_ID p) (ps_ProfileID p) (CreatedAt p) (ps_Scope p) (Name p) (Description p) (ps_Model p) (ps_MaxSteps p) (ps_MaxToolCalls p) x (Fragments p) (ps_Metadata p));
   field "fragments" (dec_list zero_fragment (dec_struct fragment_fields)) Fragments (λ x p, mk_profile (ps_ID p) (ps_ProfileID p) (CreatedAt p) (ps_Scope p) (Name p) (Description p) (ps_Model p) (ps_MaxSteps p) (ps_MaxToolCalls p) (Capabilities p) x (ps_Metadata p));
   field "metadata" dec_str_map ps_Metadata (λ x p, mk_profile (ps_ID p) (ps_ProfileID p) (CreatedAt p) (ps_Scope p) (Name p) (Description p) (ps_Model p) (ps_MaxSteps p) (ps_MaxToolCalls p) (Capabilities p) (Fragments p) x)].

Definition zero_snapcap : SnapshotCapability := mk_snapcap JNull (mk_path []) "".
Definition snapcap_to_json (c : SnapshotCapability) : json :=
  JObj ([("manifest", json_of_any (sc_Manifest c)); ("source", scope_to_json (sc_Source c))]
        ++ omit_if (is_empty (ProviderRevision c)) "provider_revision" (json_of_str (ProviderRevision c))).
(** The manifest must be an object (or null, which leaves it unset). *)
Definition dec_manifest : decoder json := λ j old,
  match j with JNull => Some old | JObj _ => Some (any_of_json j) | _ => None end.
Definition snapcap_fields : fields SnapshotCapability :=
  [field "manifest" dec_manifest sc_Manifest (λ x t, mk_snapcap x (sc_Source t) (ProviderRevision t));
   field "source" dec_scope sc_Source (λ x t, mk_snapcap (sc_Manifest t) x (ProviderRevision t));
   field "provider_revision" dec_str ProviderRevision (λ x t, mk_snapcap (sc_Manifest t) (sc_Source t) x)].

Definition json_of_perms (s : PermissionSet) : json :=
  JObj (sorted_entries (put_entries ∅ (map (λ '(k, v), (coerce_utf8 k, JBool v)) (map_to_list s)))).
Definition dec_perms : decoder PermissionSet := λ j old,
  match j with
  | JNull => Some ∅
  | JObj l => put_entries old <$> mapM (λ '(k, v), (λ b, (k, b)) <$> dec_bool v false) l
  | _ => None
  end.

Definition zero_composition : RunCompositionData := mk_composition zero_profile [] ∅ zero_model "" "" 0 0 ∅.
Definition composition_to_json (c : RunCompositionData) : json :=
  JObj ([("profile", profile_to_json (rc_Profile c)); ("capabilities", JArr (snapcap_to_json <$> rc_Capabilities c))]
        ++ omit_if (bool_decide (EffectivePermissions c = ∅)) "effective_permissions" (json_of_perms (EffectivePermissions c))
        ++ [("model", model_to_json (rc_Model c))]
        ++ omit_if (is_empty (ResolvedProvider c)) "resolved_provider" (json_of_str (ResolvedProvider c))
        ++ omit_if (is_empty (ModelRevision c)) "model_revision" (json_of_str (ModelRevision c))
        ++ [("max_steps", json_of_z (rc_MaxSteps c)); ("max_tool_calls", json_of_z (rc_MaxToolCalls c))]
        ++ omit_if (bool_decide (rc_Metadata c = ∅)) "metadata" (json_of_str_map (rc_Metadata c))).
Definition composition_fields : fields RunCompositionData :=
  [field "profile" (dec_struct profile_fields) rc_Profile (λ x t, mk_composition x (rc_Capabilities t) (EffectivePermissions t) (rc_Model t) (ResolvedProvider t) (ModelRevision t) (rc_MaxSteps t) (rc_MaxToolCalls t) (rc_Metadata t));
   field "capabilities" (dec_list zero_snapcap (dec_struct snapcap_fields)) rc_Capabilities (λ x t, mk_composition (rc_Profile t) x (EffectivePermissions t) (rc_Model t) (ResolvedProvider t) (ModelRevision t) (rc_MaxSteps t) (rc_MaxToolCalls t) (rc_Metadata t));
   field "effective_permissions" dec_perms EffectivePermissions (λ x t, mk_composition (rc_Profile t) (rc_Capabilities t) x (rc_Model t) (ResolvedProvider t) (ModelRevision t) (rc_MaxSteps t) (rc_MaxToolCalls t) (rc_Metadata t));
   field "model" (dec_struct model_fields) rc_Model (λ x t, mk_composition (rc_Profile t) (rc_Capabilities t) (EffectivePermissions t) x (ResolvedProvider t) (ModelRevision t) (rc_MaxSteps t) (rc_MaxToolCalls t) (rc_Metadata t));
   field "resolved_provider" dec_str ResolvedProvider (λ x t, mk_composition (rc_Profile t) (rc_Capabilities t) (EffectivePermissions t) (rc_Model t) x (ModelRevision t) (rc_MaxSteps t) (rc_MaxToolCalls t) (rc_Metadata t));
   field "model_revision" dec_str ModelRevision (λ x t, mk_composition (rc_Profile t) (rc_Capabilities t) (EffectivePermissions t) (rc_Model t) (ResolvedProvider t) x (rc_MaxSteps t) (rc_MaxToolCalls t) (rc_Metadata t));
   field "max_steps" dec_z rc_MaxSteps (λ x t, mk_composition (rc_Profile t) (rc_Capabilities t) (EffectivePermissions t) (rc_Model t) (ResolvedProvider t) (ModelRevision t) x (rc_MaxToolCalls t) (rc_Metadata t));
   field "max_tool_calls" dec_z rc_MaxToolCalls (λ x t, mk_composition (rc_Profile t) (rc_Capabilities t) (EffectivePermissions t) (rc_Model t) (ResolvedProvider t) (ModelRevision t) (rc_MaxSteps t) x (rc_Metadata t));
   field "metadata" dec_str_map rc_Metadata (λ x t, mk_composition (rc_Profile t) (rc_Capabilities t) (EffectivePermissions t) (rc_Model t) (ResolvedProvider t) (ModelRevision t) (rc_MaxSteps t) (rc_MaxToolCalls t) x)].

Definition zero_start : RunStartData := mk_start "" "" "" "" None.
Definition start_to_json (d : RunStartData) : json :=
  JObj (omit_if (is_empty (ProfileSnapshotID d)) "profile_snapshot_id" (json_of_str (ProfileSnapshotID d))
        ++ omit_if (is_empty (CapabilitySnapshotID d)) "capability_snapshot_id" (json_of_str (CapabilitySnapshotID d))
        ++ omit_if (is_empty (rs_CompositionRevision d)) "composition_revision" (json_of_str (rs_CompositionRevision d))
        ++ omit_if (is_empty (AssignmentRevision d)) "assignment_revision" (json_of_str (AssignmentRevision d))
        ++ match Composition d with None => [] | Some c => [("composition", composition_to_json c)] end).
Definition start_fields : fields RunStartData :=
  [field "profile_snapshot_id" dec_str ProfileSnapshotID (λ x t, mk_start x (CapabilitySnapshotID t) (rs_CompositionRevision t) (AssignmentRevision t) (Composition t));
   field "capability_snapshot_id" dec_str CapabilitySnapshotID (λ x t, mk_start (ProfileSnapshotID t) x (rs_CompositionRevision t) (AssignmentRevision t) (Composition t));
   field "composition_revision" dec_str rs_CompositionRevision (λ x t, mk_start (ProfileSnapshotID t) (CapabilitySnapshotID t) x (AssignmentRevision t) (Composition t));
   field "assignment_revision" dec_str AssignmentRevision (λ x t, mk_start (ProfileSnapshotID t) (CapabilitySnapshotID t) (rs_CompositionRevision t) x (Composition t));
   field "composition" (dec_ptr zero_composition (dec_struct composition_fields)) Composition (λ x t, mk_start (ProfileSnapshotID t) (CapabilitySnapshotID t) (rs_CompositionRevision t) (AssignmentRevision t) x)].

Definition end_to_json (d : RunEndData) : json := JObj [("status", json_of_str (Status d))].
Definition end_fields : fields RunEndData :=
  [field "status" dec_str Status (λ x t, mk_end x)].

Definition error_to_json (d : RuntimeErrorData) : json :=
  JObj [("code", json_of_str (Code d)); ("message", json_of_str (Message d)); ("retryable", JBool (Retryable d))].
Definition error_fields : fields RuntimeErrorData :=
  [field "code" dec_str Code (λ x t, mk_error x (Message t) (Retryable t));
   field "message" dec_str Message (λ x t, mk_error (Code t) x (Retryable t));
   field "retryable" dec_bool Retryable (λ x t, mk_error (Code t) (Message t) x)].

Definition step_to_json (d : StepData) : json := JObj [("index", json_of_z (Index d))].
Definition step_fields : fields StepData :=
  [field "index" dec_z Index (λ x t, mk_step x)].

Definition user_to_json (d : UserMessageData) : json := JObj [("text", json_of_str (um_Text d))].
Definition user_fields : fields UserMessageData :=
  [field "text" dec_str um_Text (λ x t, mk_user x)].

Definition assistant_to_json (d : AssistantMessageData) : json :=
  JObj ([("text", json_of_str (am_Text d))]
        ++ match am_ToolCall d with None => [] | Some c => [("tool_call", call_to_json c)] end
        ++ omit_if (bool_decide (am_ToolCalls d = [])) "tool_calls" (JArr (call_to_json <$> am_ToolCalls d))).
Definition assistant_fields : fields AssistantMessageData :=
  [field "text" dec_str am_Text (λ x t, mk_assistant x (am_ToolCall t) (am_ToolCalls t));
   field "tool_call" (dec_ptr zero_call dec_call) am_ToolCall (λ x t, mk_assistant (am_Text t) x (am_ToolCalls t));
   field "tool_calls" (dec_list zero_call dec_call) am_ToolCalls (λ x t, mk_assistant (am_Text t) (am_ToolCall t) x)].

Definition chunk_to_json (d : AssistantChunkData) : json := JObj [("text", json_of_str (ac_Text d))].
Definition chunk_fields : fields AssistantChunkData :=
  [field "text" dec_str ac_Text (λ x t, mk_chunk x)].

Definition usage_to_json (d : RunUsageData) : json :=
  JObj ([("input_tokens", json_of_z (InputTokens d)); ("output_tokens", json_of_z (OutputTokens d))]
        ++ omit_if (is_empty (InvocationID d)) "invocation_id" (json_of_str (InvocationID d))).
Definition usage_fields : fields RunUsageData :=
  [field "input_tokens" dec_z InputTokens (λ x t, mk_usage x (OutputTokens t) (InvocationID t));
   field "output_tokens" dec_z OutputTokens (λ x t, mk_usage (InputTokens t) x (InvocationID t));
   field "invocation_id" dec_str InvocationID (λ x t, mk_usage (InputTokens t) (OutputTokens t) x)].

Definition summary_to_json (d : ContextSummaryData) : json :=
  JObj [("op", json_of_str (Op d)); ("start", json_of_z (cs_Start d)); ("end", json_of_z (cs_End d));
        ("summary", json_of_str (Summary d))].
Definition summary_fields : fields ContextSummaryData :=
  [field "op" dec_str Op (λ x t, mk_summary x (cs_Start t) (cs_End t) (Summary t));
   field "start" dec_z cs_Start (λ x t, mk_summary (Op t) x (cs_End t) (Summary t));
   field "end" dec_z cs_End (λ x t, mk_summary (Op t) (cs_Start t) x (Summary t));
   field "summary" dec_str Summary (λ x t, mk_summary (Op t) (cs_Start t) (cs_End t) x)].

Definition tcall_to_json (d : ToolCallData) : json :=
  JObj ([("call_id", json_of_str (cd_CallID d)); ("name", json_of_str (cd_Name d))]
        ++ omit_if (bool_decide (cd_Args d = ∅)) "args" (json_of_any_map (cd_Args d))).
Definition tcall_fields : fields ToolCallData :=
  [field "call_id" dec_str cd_CallID (λ x t, mk_tcall x (cd_Name t) (cd_Args t));
   field "name" dec_str cd_Name (λ x t, mk_tcall (cd_CallID t) x (cd_Args t));
   field "args" dec_any_map cd_Args (λ x t, mk_tcall (cd_CallID t) (cd_Name t) x)].

Definition tresult_to_json (d : ToolResultData) : json :=
  JObj ([("call_id", json_of_str (tr_CallID d)); ("content", json_of_str (tr_Content d)); ("ok", JBool (tr_OK d))]
        ++ omit_if (bool_decide (tr_Metadata d = ∅)) "metadata" (json_of_any_map (tr_Metadata d))).
Definition tresult_fields : fields ToolResultData :=
  [field "call_id" dec_str tr_CallID (λ x t, mk_tresult x (tr_Content t) (tr_OK t) (tr_Metadata t));
   field "content" dec_str tr_Content (λ x t, mk_tresult (tr_CallID t) x (tr_OK t) (tr_Metadata t));
   field "ok" dec_bool tr_OK (λ x t, mk_tresult (tr_CallID t) (tr_Content t) x (tr_Metadata t));
   field "metadata" dec_any_map tr_Metadata (λ x t, mk_tresult (tr_CallID t) (tr_Content t) (tr_OK t) x)].

(** [omitempty] has no effect on a struct such as [time.Time]. *)
Definition areq_to_json (d : ApprovalRequestedData) : json :=
  JObj ([("approval_id", json_of_str (ar_ApprovalID d)); ("tool_call", call_to_json (ar_ToolCall d));
         ("resume_call", call_to_json (ResumeCall d))]
        ++ omit_if (bool_decide (RemainingCalls d = [])) "remaining_calls" (JArr (call_to_json <$> RemainingCalls d))
        ++ [("step", json_of_z (Step d))]
        ++ omit_if (negb (Fast d)) "fast" (JBool (Fast d))
        ++ [("expires_at", json_of_time (ExpiresAt d))]).
Definition areq_fields : fields ApprovalRequestedData :=
  [field "approval_id" dec_str ar_ApprovalID (λ x t, mk_areq x (ar_ToolCall t) (ResumeCall t) (RemainingCalls t) (Step t) (Fast t) (ExpiresAt t));
   field "tool_call" dec_call ar_ToolCall (λ x t, mk_areq (ar_ApprovalID t) x (ResumeCall t) (RemainingCalls t) (Step t) (Fast t) (ExpiresAt t));
   field "resume_call" dec_call ResumeCall (λ x t, mk_areq (ar_ApprovalID t) (ar_ToolCall t) x (RemainingCalls t) (Step t) (Fast t) (ExpiresAt t));
   field "remaining_calls" (dec_list zero_call dec_call) RemainingCalls (λ x t, mk_areq (ar_ApprovalID t) (ar_ToolCall t) (ResumeCall t) x (Step t) (Fast t) (ExpiresAt t));
   field "step" dec_z Step (λ x t, mk_areq (ar_ApprovalID t) (ar_ToolCall t) (ResumeCall t) (RemainingCalls t) x (Fast t) (ExpiresAt t));
   field "fast" dec_bool Fast (λ x t, mk_areq (ar_ApprovalID t) (ar_ToolCall t) (ResumeCall t) (RemainingCalls t) (Step t) x (ExpiresAt t));
   field "expires_at" dec_time ExpiresAt (λ x t, mk_areq (ar_ApprovalID t) (ar_ToolCall t) (ResumeCall t) (RemainingCalls t) (Step t) (Fast t) x)].

Definition ares_to_json (d : ApprovalResolvedData) : json :=
  JObj ([("approval_id", json_of_str (av_ApprovalID d)); ("call_id", json_of_str (av_CallID d));
         ("decision", json_of_str (Decision_ d)); ("resolved_at", json_of_time (ResolvedAt d))]
        ++ omit_if (is_empty (ResolvedBy d)) "resolved_by" (json_of_str (ResolvedBy d))).
Definition ares_fields : fields ApprovalResolvedData :=
  [field "approval_id" dec_str av_ApprovalID (λ x t, mk_ares x (av_CallID t) (Decision_ t) (ResolvedAt t) (ResolvedBy t));
   field "call_id" dec_str av_CallID (λ x t, mk_ares (av_ApprovalID t) x (Decision_ t) (ResolvedAt t) (ResolvedBy t));
   field "decision" dec_str Decision_ (λ x t, mk_ares (av_ApprovalID t) (av_CallID t) x (ResolvedAt t) (ResolvedBy t));
   field "resolved_at" dec_time ResolvedAt (λ x t, mk_ares (av_ApprovalID t) (av_CallID t) (Decision_ t) x (ResolvedBy t));
   field "resolved_by" dec_str ResolvedBy (λ x t, mk_ares (av_ApprovalID t) (av_CallID t) (Decision_ t) (ResolvedAt t) x)].

(** ** Stability: the values that survive a round trip

    Strings are valid UTF-8, integers fit [int64], times parse, maps and
    nested values are stable. *)

Definition call_stable (c : ToolCall) : bool :=
  valid_utf8 (tc_ID c) && valid_utf8 (tc_Name c) && any_map_stable (tc_Args c) && valid_utf8 (Continuation c).
Definition model_stable (m : ModelSelection) : bool := valid_utf8 (Provider m) && valid_utf8 (Model m).
Definition scope_stable (p : ScopePath) : bool :=
  is_ok (NewScopePath (segments p)) && forallb (λ s, valid_utf8 (ID s)) (segments p).
Definition fragment_stable (f : ResolvedPromptFragment) : bool :=
  valid_utf8 (pf_ID f) && valid_utf8 (Section f) && valid_utf8 (Content f) && in_int64 (Priority f)
  && scope_stable (Source f).
Definition profile_stable (p : AgentProfileSnapshot) : bool :=
  valid_utf8 (ps_ID p) && valid_utf8 (ps_ProfileID p) && time_ok (CreatedAt p) && scope_stable (ps_Scope p)
  && valid_utf8 (Name p) && valid_utf8 (Description p) && model_stable (ps_Model p) && in_int64 (ps_MaxSteps p)
  && in_int64 (ps_MaxToolCalls p) && forallb valid_utf8 (Capabilities p) && forallb fragment_stable (Fragments p)
  && str_map_stable (ps_Metadata p).
Definition manifest_stable (j : json) : bool := match j with JObj _ => any_stable j | _ => false end.
Definition snapcap_stable (c : SnapshotCapability) : bool :=
  manifest_stable (sc_Manifest c) && scope_stable (sc_Source c) && valid_utf8 (ProviderRevision c).
Definition perms_stable (s : PermissionSet) : bool := bool_decide (map_Forall (λ k _, valid_utf8 k = true) s).
Definition composition_stable (c : RunCompositionData) : bool :=
  profile_stable (rc_Profile c) && forallb snapcap_stable (rc_Capabilities c) && perms_stable (EffectivePermissions c)
  && model_stable (rc_Model c) && valid_utf8 (ResolvedProvider c) && valid_utf8 (ModelRevision c)
  && in_int64 (rc_MaxSteps c) && in_int64 (rc_MaxToolCalls c) && str_map_stable (rc_Metadata c).
Definition start_stable (d : RunStartData) : bool :=
  valid_utf8 (ProfileSnapshotID d) && valid_utf8 (CapabilitySnapshotID d) && valid_utf8 (rs_CompositionRevision d)
  && valid_utf8 (AssignmentRevision d) && match Composition d with None => true | Some c => composition_stable c end.
Definition usage_stable (d : RunUsageData) : bool :=
  in_int64 (InputTokens d) && in_int64 (OutputTokens d) && valid_utf8 (InvocationID d).
Definition summary_stable (d : ContextSummaryData) : bool :=
  valid_utf8 (Op d) && in_int64 (cs_Start d) && in_int64 (cs_End d) && valid_utf8 (Summary d).
Definition assistant_stable (d : AssistantMessageData) : bool :=
  valid_utf8 (am_Text d) && match am_ToolCall d with None => true | Some c => call_stable c end
  && forallb call_stable (am_ToolCalls d).
Definition tcall_stable (d : ToolCallData) : bool :=
  valid_utf8 (cd_CallID d) && valid_utf8 (cd_Name d) && any_map_stable (cd_Args d).
Definition tresult_stable (d : ToolResultData) : bool :=
  valid_utf8 (tr_CallID d) && valid_utf8 (tr_Content d) && any_map_stable (tr_Metadata d).
Definition areq_stable (d : ApprovalRequestedData) : bool :=
  valid_utf8 (ar_ApprovalID d) && call_stable (ar_ToolCall d) && call_stable (ResumeCall d)
  && forallb call_stable (RemainingCalls d) && in_int64 (Step d) && time_ok (ExpiresAt d).
Definition ares_stable (d : ApprovalResolvedData) : bool :=
  valid_utf8 (av_ApprovalID d) && valid_utf8 (av_CallID d) && valid_utf8 (Decision_ d)
  && time_ok (ResolvedAt d) && valid_utf8 (ResolvedBy d).

(** ** Round trips *)

Lemma call_rt c : call_stable c = true → dec_call (call_to_json c) zero_call = Some c.
Proof.
  unfold call_stable, dec_call, call_to_json, dec_struct, is_empty.
  intros H. bool_to_prop. decode_struct c.
Qed.

Lemma calls_rt l old : forallb call_stable l = true → dec_list zero_call dec_call (JArr (call_to_json <$> l)) old = Some l.
Proof.
  intros H. apply dec_list_rt. rewrite forallb_forall in H. apply Forall_forall.
  intros c Hc%list_elem_of_In. by apply call_rt, H.
Qed.

Lemma call_ptr_rt c : call_stable c = true → dec_ptr zero_call dec_call (call_to_json c) None = Some (Some c).
Proof. intros H. apply (dec_ptr_rt _ _ call_to_json); [by apply call_rt|done]. Qed.

Lemma scope_rt p old : scope_stable p = true → dec_scope (scope_to_json p) old = Some p.
Proof.
  unfold scope_stable. intros H. bool_to_prop. unfold dec_scope.
  destruct (NewScopePath (segments p)) as [q|] eqn:E; [|done].
  pose proof E as [-> Hq]%NewScopePath_ok. destruct p as [l]. cbn [segments] in *.
  assert (Forall (λ s, valid_utf8 (ID s) = true) l).
  { apply Forall_forall. intros s Hs%list_elem_of_In. rewrite forallb_forall in H0. auto. }
  unfold scope_of_json, scope_to_json. cbn [segments].
  destruct Hq as [Hne [Hok _]]. cbn in Hne, Hok. destruct l as [|s l]; [done|]. cbn [dec_list].
  rewrite dec_refs_round_trip; [by rewrite E|]. rewrite Forall_forall in *. eauto using kind_valid_utf8.
Qed.

Lemma time_rt t old : time_ok t = true → dec_time (json_of_time t) old = Some t.
Proof. apply dec_time_round_trip. Qed.

Lemma strs_rt l : forallb valid_utf8 l = true → dec_list "" dec_str (nil_or (json_of_str <$> l)) [] = Some l.
Proof.
  intros H. destruct l as [|x l]; [done|]. apply (dec_list_rt _ _ json_of_str).
  rewrite forallb_forall in H. apply Forall_forall. intros c Hc%list_elem_of_In. by apply dec_str_rt, H.
Qed.

Lemma perms_rt m : perms_stable m = true → dec_perms (json_of_perms m) ∅ = Some m.
Proof.
  unfold perms_stable. rewrite bool_decide_eq_true. intros H. unfold json_of_perms, dec_perms.
  rewrite map_coerce_keys by done. rewrite (put_entries_fmap _ m _ (reflexivity _)).
  assert (E : ∀ l : list (string * json), (∀ k j, (k, j) ∈ l → ∃ b, j = JBool b) →
    mapM (λ '(k, v), (λ b, (k, b)) <$> dec_bool v false) l
    = Some (map (λ '(k, v), (k, match v with JBool b => b | _ => false end)) l)).
  { induction l as [|[k j] l IH]; intros Hl; [done|]. cbn.
    destruct (Hl k j) as [b ->]; [left|]. cbn. rewrite IH; [done|].
    intros k' j' ?. apply (Hl k' j'). by right. }
  rewrite E.
  - cbn. f_equal. rewrite (put_entries_fmap _ _ _ (sorted_entries_perm _)).
    rewrite <- map_fmap_compose. rewrite <- (map_fmap_id m) at 2. by apply map_fmap_ext.
  - intros k j. rewrite sorted_entries_perm, elem_of_map_to_list, lookup_fmap.
    destruct (m !! k); cbn; naive_solver.
Qed.

Lemma manifest_rt j : manifest_stable j = true → dec_manifest (json_of_any j) JNull = Some j.
Proof.
  destruct j as [| | | | |l]; try done. cbn [manifest_stable]. unfold any_stable. rewrite bool_decide_eq_true.
  intros H. rewrite <- H at 2. done.
Qed.

Ltac dec_hook ::=
  first [ apply time_rt; assumption | apply scope_rt; assumption | apply strs_rt; assumption
        | apply perms_rt; assumption | apply manifest_rt; assumption
        | apply call_rt; assumption | apply calls_rt; assumption | apply call_ptr_rt; assumption ].

Lemma model_rt m old : model_stable m = true → dec_struct model_fields (model_to_json m) old = Some m.
Proof. unfold model_stable, model_to_json, dec_struct. intros H. bool_to_prop. destruct old. decode_struct m. Qed.

Lemma fragment_rt f : fragment_stable f = true → dec_struct fragment_fields (fragment_to_json f) zero_fragment = Some f.
Proof. unfold fragment_stable, fragment_to_json, dec_struct. intros H. bool_to_prop. decode_struct f. Qed.

Lemma fragments_rt l : forallb fragment_stable l = true →
  dec_list zero_fragment (dec_struct fragment_fields) (nil_or (fragment_to_json <$> l)) [] = Some l.
Proof.
  intros H. destruct l as [|x l]; [done|]. apply (dec_list_rt _ _ fragment_to_json).
  rewrite forallb_forall in H. apply Forall_forall. intros c Hc%list_elem_of_In. by apply fragment_rt, H.
Qed.

Ltac dec_hook ::=
  first [ apply time_rt; assumption | apply scope_rt; assumption | apply strs_rt; assumption
        | apply perms_rt; assumption | apply manifest_rt; assumption
        | apply model_rt; assumption | apply fragments_rt; assumption
        | apply call_rt; assumption | apply calls_rt; assumption | apply call_ptr_rt; assumption ].

Lemma profile_rt p : profile_stable p = true → dec_struct profile_fields (profile_to_json p) zero_profile = Some p.
Proof. unfold profile_stable, profile_to_json, dec_struct, is_empty. intros H. bool_to_prop. decode_struct p. Qed.

Lemma snapcap_rt c : snapcap_stable c = true → dec_struct snapcap_fields (snapcap_to_json c) zero_snapcap = Some c.
Proof. unfold snapcap_stable, snapcap_to_json, dec_struct, is_empty. intros H. bool_to_prop. decode_struct c. Qed.

Lemma snapcaps_rt l : forallb snapcap_stable l = true →
  dec_list zero_snapcap (dec_struct snapcap_fields) (JArr (snapcap_to_json <$> l)) [] = Some l.
Proof.
  intros H. apply dec_list_rt. rewrite forallb_forall in H. apply Forall_forall.
  intros c Hc%list_elem_of_In. by apply snapcap_rt, H.
Qed.

Ltac dec_hook ::=
  first [ apply time_rt; assumption | apply strs_rt; assumption
        | apply perms_rt; assumption | apply profile_rt; assumption | apply snapcaps_rt; assumption
        | apply model_rt; assumption
        | apply call_rt; assumption | apply calls_rt; assumption | apply call_ptr_rt; assumption ].

Lemma composition_rt c : composition_stable c = true →
  dec_struct composition_fields (composition_to_json c) zero_composition = Some c.
Proof. unfold composition_stable, composition_to_json, dec_struct, is_empty. intros H. bool_to_prop. decode_struct c. Qed.

Lemma composition_ptr_rt c : composition_stable c = true →
  dec_ptr zero_composition (dec_struct composition_fields) (composition_to_json c) None = Some (Some c).
Proof. intros H. apply (dec_ptr_rt _ _ composition_to_json); [by apply composition_rt|done]. Qed.

Ltac dec_hook ::=
  first [ apply time_rt; assumption | apply composition_ptr_rt; assumption
        | apply call_rt; assumption | apply calls_rt; assumption | apply call_ptr_rt; assumption ].

Lemma start_rt d : start_stable d = true → dec_struct start_fields (start_to_json d) zero_start = Some d.
Proof.
  unfold start_stable, start_to_json, dec_struct, is_empty. intros H. bool_to_prop.
  destruct (Composition d) as [c|] eqn:Ec; decode_struct d.
Qed.

Lemma end_rt d : valid_utf8 (Status d) = true → dec_struct end_fields (end_to_json d) (mk_end "") = Some d.
Proof. unfold end_to_json, dec_struct. intros H. decode_struct d. Qed.

Lemma error_rt d : valid_utf8 (Code d) && valid_utf8 (Message d) = true →
  dec_struct error_fields (error_to_json d) (mk_error "" "" false) = Some d.
Proof. unfold error_to_json, dec_struct. intros H. bool_to_prop. decode_struct d. Qed.

Lemma step_rt d : in_int64 (Index d) = true → dec_struct step_fields (step_to_json d) (mk_step 0) = Some d.
Proof. unfold step_to_json, dec_struct. intros H. decode_struct d. Qed.

Lemma user_rt d : valid_utf8 (um_Text d) = true → dec_struct user_fields (user_to_json d) (mk_user "") = Some d.
Proof. unfold user_to_json, dec_struct. intros H. decode_struct d. Qed.

Lemma chunk_rt d : valid_utf8 (ac_Text d) = true → dec_struct chunk_fields (chunk_to_json d) (mk_chunk "") = Some d.
Proof. unfold chunk_to_json, dec_struct. intros H. decode_struct d. Qed.

Lemma assistant_rt d : assistant_stable d = true →
  dec_struct assistant_fields (assistant_to_json d) (mk_assistant "" None []) = Some d.
Proof.
  unfold assistant_stable, assistant_to_json, dec_struct. intros H. bool_to_prop.
  destruct (am_ToolCall d) as [c|] eqn:Ec; decode_struct d.
Qed.

Lemma usage_rt d : usage_stable d = true → dec_struct usage_fields (usage_to_json d) (mk_usage 0 0 "") = Some d.
Proof. unfold usage_stable, usage_to_json, dec_struct, is_empty. intros H. bool_to_prop. decode_struct d. Qed.

Lemma summary_rt d : summary_stable d = true → dec_struct summary_fields (summary_to_json d) (mk_summary "" 0 0 "") = Some d.
Proof. unfold summary_stable, summary_to_json, dec_struct. intros H. bool_to_prop. decode_struct d. Qed.

Lemma tcall_rt d : tcall_stable d = true → dec_struct tcall_fields (tcall_to_json d) (mk_tcall "" "" ∅) = Some d.
Proof. unfold tcall_stable, tcall_to_json, dec_struct. intros H. bool_to_prop. decode_struct d. Qed.

Lemma tresult_rt d : tresult_stable d = true → dec_struct tresult_fields (tresult_to_json d) (mk_tresult "" "" false ∅) = Some d.
Proof. unfold tresult_stable, tresult_to_json, dec_struct. intros H. bool_to_prop. decode_struct d. Qed.

Lemma areq_rt d : areq_stable d = true →
  dec_struct areq_fields (areq_to_json d) (mk_areq "" zero_call zero_call [] 0 false zero_time) = Some d.
Proof. unfold areq_stable, areq_to_json, dec_struct. intros H. bool_to_prop. decode_struct d. Qed.

Lemma ares_rt d : ares_stable d = true → dec_struct ares_fields (ares_to_json d) (mk_ares "" "" "" zero_time "") = Some d.
Proof. unfold ares_stable, ares_to_json, dec_struct, is_empty. intros H. bool_to_prop. decode_struct d. Qed.
