(* ===== verification/Events.v ===== *)
(** * Session event validation: [src/pkg/core/session.go]

    The per-event validators, [validateSessionEvent] for a stored payload and
    [validateSessionEventValue] for a typed one, and the composition revisions
    recorded in run/start and run/resume.  [decode_validates_typed] relates the
    two paths: what is accepted typed is accepted again after a round trip
    through its JSON text. *)
From S2P Require Import Prelude GoString Json Scope Sha256 GoTime Principal Payload.
From stdpp Require Import gmap strings list.
From Stdlib Require Import ZArith Lia Ascii.
Open Scope Z_scope.

(** ** Tool calls and result metadata *)

(** [validateToolCall] of llm.go *)
Definition validateToolCall (call : ToolCall) : result unit :=
  fail_when (64 * 2 ^ 10 <? str_len (Continuation call)) || negb (valid_utf8 (Continuation call))
    with "model tool continuation is invalid or exceeds 64 KiB" ;;
  let! _ := validateToolCallID (tc_ID call) in
  validateCapabilityID (tc_Name call).

(** [validateResultMetadata] of capability.go *)
Definition validateResultMetadata (metadata : gmap string json) : result unit :=
  fail_when negb (bool_decide (metadata = ∅)) && (MaxCapabilityMetadataBytes <? json_len (json_of_any_map metadata))
    with "result metadata exceeds 262144 bytes" ;; Ok tt.

(** ** Run composition *)

Definition metadata_entry_ok (key value : string) : result unit :=
  fail_when blank key || (MaxRunCompositionMetadataKeyBytes <? str_len key) || containsControl key
    with "run composition metadata key is empty, too long, or contains control characters" ;;
  fail_when (MaxRunCompositionMetadataValueBytes <? str_len value) || containsControl value
    with "run composition metadata value is too long or contains control characters" ;;
  Ok tt.

(** The loop ranges over a Go map; only whether some entry fails is kept. *)
Definition ValidateRunCompositionMetadata (metadata : gmap string string) : result unit :=
  fail_when MaxRunCompositionMetadataItems <? Z.of_nat (size metadata)
    with "run composition metadata exceeds 32 items" ;;
  let! _ := check_all (λ kv, metadata_entry_ok kv.1 kv.2) (sorted_entries metadata) in
  fail_when MaxRunCompositionMetadataBytes <? json_len (json_of_str_map metadata)
    with "run composition metadata exceeds 16384 bytes" ;; Ok tt.

Definition CompositionMetadataRevision (metadata : gmap string string) : result string :=
  if bool_decide (metadata = ∅) then Ok ""
  else let! _ := ValidateRunCompositionMetadata metadata in
       Ok (sha256_hex (json_text (json_of_str_map metadata))).

(** [copyOf.Profile.CreatedAt = time.Time{}], and the permissions cloned. *)
Definition without_created_at (c : RunCompositionData) : RunCompositionData :=
  let p := rc_Profile c in
  mk_composition
    (mk_profile (ps_ID p) (ps_ProfileID p) zero_time (ps_Scope p) (Name p) (Description p) (ps_Model p)
       (ps_MaxSteps p) (ps_MaxToolCalls p) (Capabilities p) (Fragments p) (ps_Metadata p))
    (rc_Capabilities c) (perm_clone (EffectivePermissions c)) (rc_Model c) (ResolvedProvider c) (ModelRevision c)
    (rc_MaxSteps c) (rc_MaxToolCalls c) (rc_Metadata c).

Definition CompositionRevision (composition : option RunCompositionData) : result string :=
  match composition with
  | None => Ok ""
  | Some c =>
    let! _ := ValidateRunCompositionMetadata (rc_Metadata c) in
    Ok (sha256_hex (json_text (composition_to_json (without_created_at c))))
  end.

Definition validateRunComposition (composition : option RunCompositionData) : result unit :=
  match composition with None => Ok tt | Some c => ValidateRunCompositionMetadata (rc_Metadata c) end.

Definition validateRevision (value : string) : result unit :=
  if is_empty value then Ok tt
  else fail_when negb (str_len value =? 64) with "revision must be a SHA-256 digest" ;;
       fail_when negb (hex_decodable value) with "revision is not hexadecimal" ;; Ok tt.

Definition validateRunCompositionEvidence (composition : option RunCompositionData)
    (compositionRevision assignmentRevision : string) : result unit :=
  let! _ := validateRunComposition composition in
  let! _ := validateRevision compositionRevision in
  let! _ := validateRevision assignmentRevision in
  match composition with
  | None =>
    fail_when negb (is_empty compositionRevision) || negb (is_empty assignmentRevision)
      with "composition revisions require a composition" ;; Ok tt
  | Some c =>
    let! calculatedComposition := CompositionRevision composition in
    fail_when negb (is_empty compositionRevision) && negb (bool_decide (compositionRevision = calculatedComposition))
      with "composition revision does not match composition" ;;
    let! calculatedAssignment := CompositionMetadataRevision (rc_Metadata c) in
    fail_when negb (is_empty assignmentRevision) && negb (bool_decide (assignmentRevision = calculatedAssignment))
      with "assignment revision does not match composition metadata" ;; Ok tt
  end.

(** ** Usage accounting *)

Fixpoint split_on (sep : ascii) (l : list ascii) : list (list ascii) :=
  match l with
  | [] => [[]]
  | c :: l =>
    match split_on sep l with
    | part :: parts => if bool_decide (c = sep) then [] :: part :: parts else (c :: part) :: parts
    | [] => [[c]]
    end
  end.

(** A canonical decimal part of an invocation id. *)
Definition canonical_decimal (part : list ascii) : option Z :=
  match part with
  | [] => None
  | c :: rest =>
    if (bool_decide (rest ≠ []) && bool_decide (c = "0"%char)) || negb (forallb (λ c, is_digit (byte_val c)) part)
    then None else parse_int64 (of_bytes part)
  end.

Definition validRunUsageInvocationID (value : string) : bool :=
  match split_on ":"%char (bytes value) with
  | kind :: rest =>
    if bool_decide (kind = bytes "summary") then
      match rest with
      | [a; b; c] =>
        match canonical_decimal a, canonical_decimal b, canonical_decimal c with
        | Some start, Some end_, Some _ => start <=? end_
        | _, _, _ => false
        end
      | _ => false
      end
    else if bool_decide (kind = bytes "model") then
      match rest with [a] => bool_decide (is_Some (canonical_decimal a)) | _ => false end
    else false
  | [] => false
  end.

Definition validateRunUsageData (data : RunUsageData) : result unit :=
  fail_when (InputTokens data <? 0) || (OutputTokens data <? 0) with "run/usage contains negative token counts" ;;
  if is_empty (InvocationID data) then Ok tt
  else
    fail_when (maxRunUsageInvocationIDBytes <? str_len (InvocationID data))
              || negb (validRunUsageInvocationID (InvocationID data)) with "run/usage has an invalid invocation id" ;;
    fail_when (MaxReportedTokensPerCall <? InputTokens data) || (MaxReportedTokensPerCall <? OutputTokens data)
      with "run/usage invocation exceeds the per-call limit" ;; Ok tt.

Record TokenUsage := mk_tokens { tu_Input : Z; tu_Output : Z }.
Definition zero_tokens : TokenUsage := mk_tokens 0 0.

(** [addUsageTotal]: checked addition on [int64]. *)
Definition addUsageTotal (total : TokenUsage) (input output : Z) : result TokenUsage :=
  fail_when (input <? 0) || (output <? 0) || (max_int64 - tu_Input total <? input)
            || (max_int64 - tu_Output total <? output) with "run token usage overflows" ;;
  Ok (mk_tokens (tu_Input total + input) (tu_Output total + output)).

(** ** Validators *)

Definition validRunStatus (s : string) : bool :=
  bool_decide (s = RunCompleted) || bool_decide (s = RunLimited) || bool_decide (s = RunFailed)
  || bool_decide (s = RunCancelled).

(** [validateToolCallList]: valid calls and, when asked, pairwise distinct ids. *)
Fixpoint validateToolCallList (seen : list string) (rejectDuplicate : bool) (calls : list ToolCall) : result unit :=
  match calls with
  | [] => Ok tt
  | call :: calls =>
    let! _ := validateToolCall call in
    fail_when rejectDuplicate && bool_decide (tc_ID call ∈ seen) with "assistant/message repeats tool call id" ;;
    validateToolCallList (tc_ID call :: seen) rejectDuplicate calls
  end.

(** The calls an assistant message makes. *)
Definition assistant_calls (data : AssistantMessageData) : list ToolCall :=
  match am_ToolCalls data, am_ToolCall data with
  | [], Some c => [c]
  | calls, _ => calls
  end.

Definition validateAssistantMessageData (data : AssistantMessageData) : result unit :=
  fail_when match am_ToolCall data, am_ToolCalls data with
            | Some c, first :: _ => negb (bool_decide (tc_ID first = tc_ID c)) || negb (bool_decide (tc_Name first = tc_Name c))
            | _, _ => false
            end with "assistant/message tool_call does not match tool_calls[0]" ;;
  let! _ := validateToolCallList [] true (assistant_calls data) in
  fail_when is_empty (am_Text data) && bool_decide (assistant_calls data = [])
    with "assistant/message has neither text nor tool calls" ;; Ok tt.

Definition validateApprovalRequestedData (data : ApprovalRequestedData) : result unit :=
  let! _ := ValidateApprovalID (ar_ApprovalID data) in
  let! _ := validateToolCall (ar_ToolCall data) in
  let! _ := validateToolCall (ResumeCall data) in
  let! _ := validateToolCallList [] false (RemainingCalls data) in
  fail_when Step data <? 0 with "approval request has invalid step" ;; Ok tt.

Definition validateApprovalResolvedData (data : ApprovalResolvedData) : result unit :=
  let! _ := ValidateApprovalID (av_ApprovalID data) in
  let! _ := validateToolCallID (av_CallID data) in
  fail_when time_is_zero (ResolvedAt data) with "approval resolution time is zero" ;;
  fail_when negb (bool_decide (Decision_ data = ApprovalApproved)) && negb (bool_decide (Decision_ data = ApprovalDenied))
            && negb (bool_decide (Decision_ data = ApprovalExpired)) with "approval resolution has invalid decision" ;; Ok tt.

Definition validateContextSummaryData (data : ContextSummaryData) : result unit :=
  fail_when negb (bool_decide (Op data = "replace")) || (cs_Start data <? 0) || (cs_End data <? cs_Start data)
            || blank (Summary data)
    with "context/summary has an invalid replacement range or empty summary" ;; Ok tt.

(** The validator of each payload struct. *)
Definition validate_data (d : EventData) : result unit :=
  match d with
  | DRunStart d | DRunResume d =>
      validateRunCompositionEvidence (Composition d) (rs_CompositionRevision d) (AssignmentRevision d)
  | DRunEnd d => fail_when negb (validRunStatus (Status d)) with "run/end has invalid status" ;; Ok tt
  | DRuntimeError d => fail_when blank (Code d) || blank (Message d) with "error requires code and message" ;; Ok tt
  | DRunUsage d => validateRunUsageData d
  | DStep d => fail_when Index d <? -1 with "invalid step index" ;; Ok tt
  | DUserMessage _ => Ok tt
  | DAssistantMessage d => validateAssistantMessageData d
  | DAssistantChunk d => fail_when is_empty (ac_Text d) with "assistant/chunk text is empty" ;; Ok tt
  | DToolCall d => validateToolCall (mk_call (cd_CallID d) (cd_Name d) (cd_Args d) "")
  | DToolResult d => let! _ := validateToolCallID (tr_CallID d) in validateResultMetadata (tr_Metadata d)
  | DApprovalRequested d => validateApprovalRequestedData d
  | DApprovalResolved d => validateApprovalResolvedData d
  | DContextSummary d => validateContextSummaryData d
  | DOther _ | DNil => Ok tt
  end.

(** The table [sessionEventValidators]: which payload struct an event type
    carries; [canonicalEventValue] succeeds exactly on that struct. *)
Definition kind_matches (t : SessionEventType) (d : EventData) : bool :=
  match t, d with
  | EvRunStart, DRunStart _ | EvRunResume, DRunResume _ | EvRunEnd, DRunEnd _ | EvRunError, DRuntimeError _
  | EvStepError, DRuntimeError _ | EvRunUsage, DRunUsage _ | EvStepStart, DStep _ | EvStepEnd, DStep _
  | EvUserMessage, DUserMessage _ | EvAssistantMessage, DAssistantMessage _ | EvAssistantChunk, DAssistantChunk _
  | EvToolCall, DToolCall _ | EvToolResult, DToolResult _ | EvApprovalRequested, DApprovalRequested _
  | EvApprovalResolved, DApprovalResolved _ | EvContextSummary, DContextSummary _ => true
  | _, _ => false
  end.

Definition known_type (t : SessionEventType) : bool := match t with EvUnknown _ => false | _ => true end.

(** [json.Unmarshal] into the payload struct of an event type. *)
Definition decode_payload (t : SessionEventType) (raw : RawMessage) : option EventData :=
  match t with
  | EvRunStart => DRunStart <$> unmarshal (dec_struct start_fields) zero_start raw
  | EvRunResume => DRunResume <$> unmarshal (dec_struct start_fields) zero_start raw
  | EvRunEnd => DRunEnd <$> unmarshal (dec_struct end_fields) (mk_end "") raw
  | EvRunError | EvStepError => DRuntimeError <$> unmarshal (dec_struct error_fields) (mk_error "" "" false) raw
  | EvRunUsage => DRunUsage <$> unmarshal (dec_struct usage_fields) (mk_usage 0 0 "") raw
  | EvStepStart | EvStepEnd => DStep <$> unmarshal (dec_struct step_fields) (mk_step 0) raw
  | EvUserMessage => DUserMessage <$> unmarshal (dec_struct user_fields) (mk_user "") raw
  | EvAssistantMessage => DAssistantMessage <$> unmarshal (dec_struct assistant_fields) (mk_assistant "" None []) raw
  | EvAssistantChunk => DAssistantChunk <$> unmarshal (dec_struct chunk_fields) (mk_chunk "") raw
  | EvToolCall => DToolCall <$> unmarshal (dec_struct tcall_fields) (mk_tcall "" "" ∅) raw
  | EvToolResult => DToolResult <$> unmarshal (dec_struct tresult_fields) (mk_tresult "" "" false ∅) raw
  | EvApprovalRequested =>
      DApprovalRequested <$> unmarshal (dec_struct areq_fields) (mk_areq "" zero_call zero_call [] 0 false zero_time) raw
  | EvApprovalResolved => DApprovalResolved <$> unmarshal (dec_struct ares_fields) (mk_ares "" "" "" zero_time "") raw
  | EvContextSummary => DContextSummary <$> unmarshal (dec_struct summary_fields) (mk_summary "" 0 0 "") raw
  | EvUnknown _ => None
  end.

(** [eventData[T]]: the typed value when it is of the right struct, else the
    decoded payload. *)
Definition eventData (t : SessionEventType) (typed : EventData) (raw : RawMessage) : option EventData :=
  if kind_matches t typed then Some typed else decode_payload t raw.

(** [json.Marshal] of the value handed to [Append]. *)
Definition payload_json (d : EventData) : option json :=
  match d with
  | DRunStart d | DRunResume d => Some (start_to_json d)
  | DRunEnd d => Some (end_to_json d)
  | DRuntimeError d => Some (error_to_json d)
  | DRunUsage d => Some (usage_to_json d)
  | DStep d => Some (step_to_json d)
  | DUserMessage d => Some (user_to_json d)
  | DAssistantMessage d => Some (assistant_to_json d)
  | DAssistantChunk d => Some (chunk_to_json d)
  | DToolCall d => Some (tcall_to_json d)
  | DToolResult d => Some (tresult_to_json d)
  | DApprovalRequested d => Some (areq_to_json d)
  | DApprovalResolved d => Some (ares_to_json d)
  | DContextSummary d => Some (summary_to_json d)
  | DOther j => Some j
  | DNil => None
  end.

(** [validateSessionEventValue]: whether the value was typed, and the verdict. *)
Definition validateSessionEventValue (t : SessionEventType) (d : EventData) : bool * result unit :=
  if kind_matches t d then (true, validate_data d) else (false, Ok tt).

(** [validateSessionEvent] *)
Definition validateSessionEvent (runID : string) (t : SessionEventType) (raw : RawMessage) : result unit :=
  let! _ := ValidateRunID runID in
  fail_when MaxSessionEventDataBytes <? raw_len raw with "event payload exceeds 16777216 bytes" ;;
  fail_when negb (known_type t) with "unknown session event type" ;;
  fail_when raw_len raw =? 0 with "event has no data" ;;
  match decode_payload t raw with
  | None => Err "decode event"
  | Some d => validate_data d
  end.

Definition data_stable (d : EventData) : bool :=
  match d with
  | DRunStart d | DRunResume d => start_stable d
  | DRunEnd d => valid_utf8 (Status d)
  | DRuntimeError d => valid_utf8 (Code d) && valid_utf8 (Message d)
  | DRunUsage d => usage_stable d
  | DStep d => in_int64 (Index d)
  | DUserMessage d => valid_utf8 (um_Text d)
  | DAssistantMessage d => assistant_stable d
  | DAssistantChunk d => valid_utf8 (ac_Text d)
  | DToolCall d => tcall_stable d
  | DToolResult d => tresult_stable d
  | DApprovalRequested d => areq_stable d
  | DApprovalResolved d => ares_stable d
  | DContextSummary d => summary_stable d
  | DOther _ | DNil => true
  end.

(** [RunCompositionEvidence] and [ExtractRunCompositionEvidence] work on stored
    events; see Session.v. *)

(** ** Lemmas *)

(** Marshal then Unmarshal gives the payload back. *)
Lemma decode_payload_round_trip t d j :
  kind_matches t d = true → data_stable d = true → payload_json d = Some j →
  decode_payload t (marshal j) = Some d.
Proof.
  intros Hk Hs Hj.
  destruct t, d; try discriminate Hk; cbn in Hs; injection Hj as <-; cbn [decode_payload];
    unfold unmarshal, marshal; cbn [raw_value];
    first [ rewrite start_rt | rewrite end_rt | rewrite error_rt | rewrite usage_rt | rewrite step_rt
          | rewrite user_rt | rewrite assistant_rt | rewrite chunk_rt | rewrite tcall_rt | rewrite tresult_rt
          | rewrite areq_rt | rewrite ares_rt | rewrite summary_rt ]; done.
Qed.

Lemma payload_json_len t d j : kind_matches t d = true → payload_json d = Some j → 0 < json_len j.
Proof.
  assert (H : ∀ l, 0 < json_len (JObj l)).
  { intros l. unfold json_len. cbn [json_bytes]. rewrite !length_app. cbn. lia. }
  intros Hk Hj. destruct t, d; try discriminate Hk; injection Hj as <-; apply H.
Qed.

(** What the typed path accepts, the stored path accepts. *)
Lemma decode_validates_typed runID t d j :
  kind_matches t d = true → data_stable d = true → payload_json d = Some j →
  ValidateRunID runID = Ok tt → json_len j ≤ MaxSessionEventDataBytes → validate_data d = Ok tt →
  validateSessionEvent runID t (marshal j) = Ok tt.
Proof.
  intros Hk Hs Hj Hr Hl Hv. unfold validateSessionEvent. rewrite Hr. cbn [rbind].
  pose proof (payload_json_len _ _ _ Hk Hj). unfold fail_if, marshal at 1 2. cbn [raw_len].
  assert (MaxSessionEventDataBytes <? json_len j = false) as -> by (apply Z.ltb_ge; lia).
  assert (negb (known_type t) = false) as -> by (by destruct t, d).
  assert (json_len j =? 0 = false) as -> by (apply Z.eqb_neq; lia).
  by rewrite (decode_payload_round_trip _ _ _ Hk Hs Hj).
Qed.

Lemma decode_payload_kind t raw d : decode_payload t raw = Some d → kind_matches t d = true.
Proof. destruct t; cbn; try done; rewrite fmap_Some; by intros (x & _ & ->). Qed.

Example usage_id_examples :
  validRunUsageInvocationID "model:12" = true ∧ validRunUsageInvocationID "summary:3:9:40" = true
  ∧ validRunUsageInvocationID "summary:9:3:40" = false ∧ validRunUsageInvocationID "model:012" = false
  ∧ validRunUsageInvocationID "model:9223372036854775808" = false ∧ validRunUsageInvocationID "model" = false.
Proof. by vm_compute. Qed.
