(* ===== verification/Message.v ===== *)
(** * Chat messages projected from events: [src/pkg/core/session.go], [types.go]

    [projectEvent] reads a stored event, [projectCommittedData] the typed value
    just appended; [projections_agree] shows that they build the same message
    for a stable payload. *)
From S2P Require Import Prelude GoString Json Scope Sha256 GoTime Principal Payload Events.
From stdpp Require Import gmap strings list.
From Stdlib Require Import ZArith Lia Ascii.
Open Scope Z_scope.

Record ContextProvenance := mk_prov { pv_Kind : string; SourceStart : Z; SourceEnd : Z; Revision : string }.

Definition RoleUser := "user".
Definition RoleAssistant := "assistant".
Definition RoleTool := "tool".

Record ChatMessage := mk_msg {
  Role : string; m_Content : string; m_ToolCall : option ToolCall; m_ToolCalls : list ToolCall;
  ToolCallID : string; SourceSeq : Z; Provenance : option ContextProvenance }.

Record SessionEvent := mk_event {
  Seq : Z; ev_Time : string; RunID : string; ev_Type : SessionEventType; ev_Data : RawMessage }.

(** [cloneMap]: a copy equal to the JSON round trip (nil when that fails). *)
Definition cloneMap (m : gmap string json) : gmap string json := default ∅ (dec_any_map (json_of_any_map m) ∅).
Definition cloneToolCall (c : ToolCall) : ToolCall := mk_call (tc_ID c) (tc_Name c) (cloneMap (tc_Args c)) (Continuation c).
Definition cloneToolCalls (l : list ToolCall) : list ToolCall := cloneToolCall <$> l.
Definition cloneChatMessage (m : ChatMessage) : ChatMessage :=
  mk_msg (Role m) (m_Content m) (cloneToolCall <$> m_ToolCall m) (cloneToolCalls (m_ToolCalls m))
    (ToolCallID m) (SourceSeq m) (Provenance m).
Definition cloneChatMessages (l : list ChatMessage) : list ChatMessage := cloneChatMessage <$> l.

Definition modelVisibleEvent (t : SessionEventType) : bool :=
  match t with EvUserMessage | EvAssistantMessage | EvToolResult => true | _ => false end.

Definition user_message (d : UserMessageData) (seq : Z) : ChatMessage :=
  mk_msg RoleUser (um_Text d) None [] "" seq None.
Definition tool_message (d : ToolResultData) (seq : Z) : ChatMessage :=
  mk_msg RoleTool (tr_Content d) None [] (tr_CallID d) seq None.

(** [projectEvent]: the message of a stored event, if it is model-visible and
    its payload decodes. *)
Definition projectEvent (e : SessionEvent) : option ChatMessage :=
  match ev_Type e with
  | EvUserMessage =>
    match decode_payload EvUserMessage (ev_Data e) with
    | Some (DUserMessage d) => Some (user_message d (Seq e)) | _ => None end
  | EvAssistantMessage =>
    match decode_payload EvAssistantMessage (ev_Data e) with
    | Some (DAssistantMessage d) =>
      Some (mk_msg RoleAssistant (am_Text d) (am_ToolCall d) (assistant_calls d) "" (Seq e) None)
    | _ => None end
  | EvToolResult =>
    match decode_payload EvToolResult (ev_Data e) with
    | Some (DToolResult d) => Some (tool_message d (Seq e)) | _ => None end
  | _ => None
  end.

(** [projectCommittedData]: the message (if any) and whether the event type is
    model-visible at all. *)
Definition projectCommittedData (t : SessionEventType) (d : EventData) (seq : Z) : option ChatMessage * bool :=
  match t with
  | EvUserMessage => (match d with DUserMessage d => Some (user_message d seq) | _ => None end, true)
  | EvAssistantMessage =>
    (match d with
     | DAssistantMessage d =>
       let calls := cloneToolCalls (am_ToolCalls d) in
       let first := cloneToolCall <$> am_ToolCall d in
       Some (mk_msg RoleAssistant (am_Text d) first
               (match calls, first with [], Some c => [c] | _, _ => calls end) "" seq None)
     | _ => None end, true)
  | EvToolResult => (match d with DToolResult d => Some (tool_message d seq) | _ => None end, true)
  | _ => (None, false)
  end.

(** ** Lemmas *)

Lemma cloneMap_stable m : any_map_stable m = true → cloneMap m = m.
Proof. intros H. unfold cloneMap. by rewrite dec_any_map_round_trip. Qed.

Lemma cloneToolCall_stable c : call_stable c = true → cloneToolCall c = c.
Proof. unfold call_stable, cloneToolCall. intros H. bool_to_prop. rewrite cloneMap_stable by done. by destruct c. Qed.

Lemma cloneToolCalls_stable l : forallb call_stable l = true → cloneToolCalls l = l.
Proof.
  unfold cloneToolCalls. induction l as [|c l IH]; [done|]. cbn. intros H. bool_to_prop.
  by rewrite cloneToolCall_stable, IH.
Qed.

(** The cached projection of a typed value is the projection of its stored
    event. *)
Lemma projections_agree t d j seq tm runID :
  kind_matches t d = true → data_stable d = true → payload_json d = Some j →
  fst (projectCommittedData t d seq) = projectEvent (mk_event seq tm runID t (marshal j)).
Proof.
  intros Hk Hs Hj. unfold projectEvent. cbn [ev_Type ev_Data Seq].
  pose proof (decode_payload_round_trip _ _ _ Hk Hs Hj) as Hd.
  destruct t, d; try discriminate Hk; cbn [projectCommittedData fst]; try done; rewrite Hd; try done.
  cbn in Hs. unfold assistant_stable in Hs. bool_to_prop. unfold assistant_calls.
  rewrite cloneToolCalls_stable by done. do 2 f_equal.
  - destruct (am_ToolCall d) as [c|]; [|done]. cbn. by rewrite cloneToolCall_stable.
  - destruct (am_ToolCall d) as [c|]; [|by destruct (am_ToolCalls d)]. cbn.
    rewrite cloneToolCall_stable by done. by destruct (am_ToolCalls d).
Qed.

Lemma projectCommittedData_applicable t d seq :
  kind_matches t d = true → snd (projectCommittedData t d seq) = true → is_Some (fst (projectCommittedData t d seq)).
Proof. destruct t, d; cbn; try done; eauto. Qed.
