(* ===== verification/Session.v ===== *)
(** * The session log: [src/pkg/core/session.go]

    A session is immutable ownership metadata and an append-only event log with
    a per-run index.  [appendBatch] prepares and validates a whole batch before
    it commits any event; [RestoreSession] rebuilds a session from stored
    events, validating each; [Clone] restores a session from its own log.

    The clock is an argument: [clock seq] is the time stamped on event [seq].
    [Append] and [appendBatch] hold the session's mutex while they validate and
    commit, so each call is one atomic step. *)
From S2P Require Import Prelude GoString Json Scope Sha256 GoTime Principal Payload Events Message.
From stdpp Require Import gmap strings list sorting.
From Stdlib Require Import ZArith Lia Ascii.
Open Scope Z_scope.

Definition MaxSessionEvents : Z := 16384.

(** ** State *)

Record runIndexEntry := mk_entry {
  started : bool; ri_status : string; ended : bool;
  pending : gmap string Z; toolCalls : gmap string Z; toolResults : gmap string Z;
  usage : TokenUsage; usageIDs : gset string }.

Definition new_entry : runIndexEntry := mk_entry false "" false ∅ ∅ ∅ zero_tokens ∅.

Record Session := mk_session {
  s_id : string; s_profileID : string; s_principal : Principal; s_scope : ScopePath; s_metadata : gmap string string;
  s_events : list SessionEvent; s_runStarts : gset string; s_runIndex : gmap string runIndexEntry;
  s_maxEvents : Z; s_summaryEvents : Z;
  s_projCount : Z; s_projSummaries : Z; s_projCache : list ChatMessage; s_projValid : bool }.

Record SessionOptions := mk_options {
  o_ID : string; o_ProfileID : string; o_Principal : Principal; o_Scope : ScopePath; o_Metadata : gmap string string }.

Record sessionAppendEntry := mk_append {
  ae_runID : string; ae_kind : SessionEventType; ae_data : EventData; ae_raw : RawMessage }.

(** An entry handed to [appendBatch], before its payload is encoded. *)
Definition append_entry (runID : string) (kind : SessionEventType) (data : EventData) : sessionAppendEntry :=
  mk_append runID kind data raw_nil.

Definition s_len (s : Session) : Z := Z.of_nat (length (s_events s)).
Definition Version (s : Session) : Z := s_len s.

Definition eventCap (s : Session) : Z := if 0 <? s_maxEvents s then s_maxEvents s else MaxSessionEvents.

(** ** NewSession *)

Definition NewSession (options : SessionOptions) : result Session :=
  let! _ := ValidateSessionID (o_ID options) in
  let! _ := ValidateProfileID (o_ProfileID options) in
  match last (segments (o_Scope options)) with
  | None => Err "session has an empty scope"
  | Some last_ =>
    fail_when negb (bool_decide (Kind last_ = ScopeSession)) || negb (bool_decide (ID last_ = o_ID options))
      with "session scope must end with session:id" ;;
    fail_when blank (SubjectID (o_Principal options)) || blank (TenantID (o_Principal options))
      with "session principal identity is incomplete" ;;
    fail_when negb (IsAncestorOf (p_Scope (o_Principal options)) (o_Scope options))
      with "principal scope does not own session scope" ;;
    Ok (mk_session (o_ID options) (o_ProfileID options) (clonePrincipal (o_Principal options)) (o_Scope options)
          (o_Metadata options) [] ∅ ∅ 0 0 0 0 [] true)
  end.

(** ** The run index *)

(** Two's-complement wrap-around of an [int64] addition. *)
Definition wrap_int64 (z : Z) : Z := (z + 2 ^ 63) `mod` 2 ^ 64 - 2 ^ 63.

(** [indexEvent] on the entry of the event's run, with the payload already
    read by [eventData]. *)
Definition index_entry (entry : runIndexEntry) (t : SessionEventType) (seq : Z) (data : option EventData) : runIndexEntry :=
  match t, data with
  | EvRunStart, _ =>
      mk_entry true "" (ended entry) (pending entry) (toolCalls entry) (toolResults entry) (usage entry) (usageIDs entry)
  | EvRunEnd, Some (DRunEnd d) =>
      if ended entry then entry
      else mk_entry (started entry) (Status d) true (pending entry) (toolCalls entry) (toolResults entry) (usage entry) (usageIDs entry)
  | EvApprovalRequested, Some (DApprovalRequested d) =>
      mk_entry (started entry) (ri_status entry) (ended entry) (<[ar_ApprovalID d := seq]> (pending entry))
        (toolCalls entry) (toolResults entry) (usage entry) (usageIDs entry)
  | EvApprovalResolved, Some (DApprovalResolved d) =>
      mk_entry (started entry) (ri_status entry) (ended entry) (delete (av_ApprovalID d) (pending entry))
        (toolCalls entry) (toolResults entry) (usage entry) (usageIDs entry)
  | EvToolCall, Some (DToolCall d) =>
      mk_entry (started entry) (ri_status entry) (ended entry) (pending entry) (<[cd_CallID d := seq]> (toolCalls entry))
        (toolResults entry) (usage entry) (usageIDs entry)
  | EvToolResult, Some (DToolResult d) =>
      mk_entry (started entry) (ri_status entry) (ended entry) (pending entry) (toolCalls entry)
        (match toolResults entry !! tr_CallID d with
         | Some _ => toolResults entry
         | None => <[tr_CallID d := seq]> (toolResults entry) end)
        (usage entry) (usageIDs entry)
  | EvRunUsage, Some (DRunUsage d) =>
      mk_entry (started entry) (ri_status entry) (ended entry) (pending entry) (toolCalls entry) (toolResults entry)
        (mk_tokens (wrap_int64 (tu_Input (usage entry) + InputTokens d)) (wrap_int64 (tu_Output (usage entry) + OutputTokens d)))
        (if is_empty (InvocationID d) then usageIDs entry else {[ InvocationID d ]} ∪ usageIDs entry)
  | _, _ => entry
  end.

Definition entry_at (index : gmap string runIndexEntry) (runID : string) : runIndexEntry :=
  default new_entry (index !! runID).

Definition indexEvent (index : gmap string runIndexEntry) (e : SessionEvent) (typed : EventData) : gmap string runIndexEntry :=
  <[RunID e := index_entry (entry_at index (RunID e)) (ev_Type e) (Seq e) (eventData (ev_Type e) typed (ev_Data e))]> index.

(** ** Validation under the lock *)

(** The usage seen so far in the batch, per run: running total and ids. *)
Notation usage_pending := (gmap string (TokenUsage * gset string)).

Definition validateRunUsageLocked (index : gmap string runIndexEntry) (runID : string) (data : RunUsageData)
    (pend : usage_pending) : result usage_pending :=
  let state :=
    match pend !! runID with
    | Some st => st
    | None => match index !! runID with Some entry => (usage entry, ∅) | None => (zero_tokens, ∅) end
    end in
  let! ids :=
    if is_empty (InvocationID data) then Ok (snd state)
    else
      fail_when match index !! runID with Some entry => bool_decide (InvocationID data ∈ usageIDs entry) | None => false end
        with "run repeats usage invocation" ;;
      fail_when bool_decide (InvocationID data ∈ snd state) with "run repeats usage invocation" ;;
      Ok ({[ InvocationID data ]} ∪ snd state) in
  let! total := addUsageTotal (fst state) (InputTokens data) (OutputTokens data) in
  Ok (<[runID := (total, ids)]> pend).

Definition validate_entry (s : Session) (acc : gset string * usage_pending) (event : sessionAppendEntry) :
    result (gset string * usage_pending) :=
  let '(starts, pend) := acc in
  let! starts :=
    match ae_kind event with
    | EvRunStart =>
      fail_when bool_decide (ae_runID event ∈ s_runStarts s) || bool_decide (ae_runID event ∈ starts)
        with "run id already exists in session" ;;
      Ok ({[ ae_runID event ]} ∪ starts)
    | EvRunResume =>
      fail_when negb (bool_decide (ae_runID event ∈ s_runStarts s)) && negb (bool_decide (ae_runID event ∈ starts))
        with "run id has not started in session" ;; Ok starts
    | _ => Ok starts
    end in
  match ae_kind event with
  | EvRunUsage =>
    match eventData EvRunUsage (ae_data event) (ae_raw event) with
    | Some (DRunUsage data) =>
      let! pend := validateRunUsageLocked (s_runIndex s) (ae_runID event) data pend in Ok (starts, pend)
    | _ => Err "decode run/usage event"
    end
  | _ => Ok (starts, pend)
  end.

Definition validateAppendLocked (s : Session) (events : list sessionAppendEntry) : result unit :=
  fail_when eventCap s <? s_len s + Z.of_nat (length events) with "session exceeds maximum events" ;;
  let! _ := rfold (validate_entry s) (∅, ∅) events in Ok tt.

(** ** Append *)

(** The preparation loop: encode, bound and validate one entry. *)
Definition prepare_entry (entry : sessionAppendEntry) : result sessionAppendEntry :=
  let! _ := ValidateRunID (ae_runID entry) in
  let raw := match payload_json (ae_data entry) with Some j => marshal j | None => raw_nil end in
  fail_when MaxSessionEventDataBytes <? raw_len raw with "payload exceeds 16777216 bytes" ;;
  let '(typed, verdict) := validateSessionEventValue (ae_kind entry) (ae_data entry) in
  let! _ := if typed then verdict else validateSessionEvent (ae_runID entry) (ae_kind entry) raw in
  Ok (mk_append (ae_runID entry) (ae_kind entry) (ae_data entry) raw).

Fixpoint prepare_all (entries : list sessionAppendEntry) : result (list sessionAppendEntry) :=
  match entries with
  | [] => Ok []
  | e :: entries => let! p := prepare_entry e in let! ps := prepare_all entries in Ok (p :: ps)
  end.

(** The commit loop: append the event, index it and maintain the projection
    cache. *)
Definition commit_entry (clock : Z → string) (s : Session) (p : sessionAppendEntry) : Session :=
  let event := mk_event (s_len s) (clock (s_len s)) (ae_runID p) (ae_kind p) (ae_raw p) in
  let runStarts := match ae_kind p with EvRunStart => {[ ae_runID p ]} ∪ s_runStarts s | _ => s_runStarts s end in
  let events := s_events s ++ [event] in
  let index := indexEvent (s_runIndex s) event (ae_data p) in
  let '(summaries, valid, cache, count) :=
    match ae_kind p with
    | EvContextSummary => (s_summaryEvents s + 1, false, [], 0)
    | _ =>
      if s_projValid s then
        match projectCommittedData (ae_kind p) (ae_data p) (Seq event) with
        | (Some message, _) => (s_summaryEvents s, true, s_projCache s ++ [message], Z.of_nat (length events))
        | (None, true) => (s_summaryEvents s, false, [], Z.of_nat (length events))
        | (None, false) => (s_summaryEvents s, true, s_projCache s, Z.of_nat (length events))
        end
      else (s_summaryEvents s, s_projValid s, s_projCache s, s_projCount s)
    end in
  mk_session (s_id s) (s_profileID s) (s_principal s) (s_scope s) (s_metadata s) events runStarts index
    (s_maxEvents s) summaries count (s_projSummaries s) cache valid.

(** The session after the batch and the events it appended. *)
Definition appendBatch (clock : Z → string) (s : Session) (entries : list sessionAppendEntry) :
    result (Session * list SessionEvent) :=
  fail_when bool_decide (entries = []) with "session append batch is empty" ;;
  let! prepared := prepare_all entries in
  let! _ := validateAppendLocked s prepared in
  let s' := foldl (commit_entry clock) s prepared in
  Ok (s', drop (length (s_events s)) (s_events s')).

Definition Append (clock : Z → string) (s : Session) (runID : string) (kind : SessionEventType) (data : EventData) :
    result (Session * SessionEvent) :=
  let! (s', events) := appendBatch clock s [append_entry runID kind data] in
  match events with
  | event :: _ => Ok (s', event)
  | [] => Err "index out of range"
  end.

(** ** Restore and Clone *)

Definition restore_event (s : Session) (event : SessionEvent) : result Session :=
  fail_when negb (Seq event =? s_len s) with "session event sequence is discontinuous" ;;
  let! _ := validateSessionEvent (RunID event) (ev_Type event) (ev_Data event) in
  let! _ := validateAppendLocked s [mk_append (RunID event) (ev_Type event) DNil (ev_Data event)] in
  let events := s_events s ++ [event] in
  let index := indexEvent (s_runIndex s) event DNil in
  let summaries := match ev_Type event with EvContextSummary => s_summaryEvents s + 1 | _ => s_summaryEvents s end in
  let! runStarts :=
    match ev_Type event with
    | EvRunStart => fail_when bool_decide (RunID event ∈ s_runStarts s) with "session has duplicate run start" ;;
                    Ok ({[ RunID event ]} ∪ s_runStarts s)
    | EvRunResume => fail_when negb (bool_decide (RunID event ∈ s_runStarts s)) with "session resumes run before its start" ;;
                     Ok (s_runStarts s)
    | _ => Ok (s_runStarts s)
    end in
  Ok (mk_session (s_id s) (s_profileID s) (s_principal s) (s_scope s) (s_metadata s) events runStarts index
        (s_maxEvents s) summaries (s_projCount s) (s_projSummaries s) (s_projCache s) (s_projValid s)).

Definition RestoreSession (options : SessionOptions) (events : list SessionEvent) : result Session :=
  let! s := NewSession options in
  fail_when eventCap s <? Z.of_nat (length events) with "session exceeds maximum events" ;;
  rfold restore_event
    (mk_session (s_id s) (s_profileID s) (s_principal s) (s_scope s) (s_metadata s) [] ∅ ∅ (s_maxEvents s) 0 0 0 []
       (bool_decide (events = []))) events.

Definition options_of (s : Session) : SessionOptions :=
  mk_options (s_id s) (s_profileID s) (s_principal s) (s_scope s) (s_metadata s).

Definition Clone (s : Session) : result Session := RestoreSession (options_of s) (s_events s).

(** ** Queries *)

Definition EventsFrom (s : Session) (version : Z) : list SessionEvent :=
  if (version <? 0) || (s_len s <? version) then [] else drop (Z.to_nat version) (s_events s).

(** [RunStatus]: (status, found). *)
Definition RunStatus (s : Session) (runID : string) : string * bool :=
  if negb (is_ok (ValidateRunID runID)) then ("", false)
  else match s_runIndex s !! runID with
       | None => ("", false)
       | Some entry =>
         if ended entry then (ri_status entry, true)
         else if bool_decide (pending entry = ∅) then ("", started entry) else (RunWaitingApproval, true)
       end.

(** The maximum of the pending sequence numbers, starting from -1. *)
Definition latest_pending (m : gmap string Z) : Z := map_fold (λ _ seq latest, if latest <? seq then seq else latest) (-1) m.

Definition clone_request (d : ApprovalRequestedData) : ApprovalRequestedData :=
  mk_areq (ar_ApprovalID d) (cloneToolCall (ar_ToolCall d)) (cloneToolCall (ResumeCall d))
    (cloneToolCalls (RemainingCalls d)) (Step d) (Fast d) (ExpiresAt d).

Definition PendingApproval (s : Session) (runID : string) : result (option ApprovalRequestedData) :=
  let! _ := ValidateRunID runID in
  match s_runIndex s !! runID with
  | None => Ok None
  | Some entry =>
    if bool_decide (pending entry = ∅) then Ok None
    else
      let latest := latest_pending (pending entry) in
      fail_when (latest <? 0) || (s_len s <=? latest) with "pending approval index is corrupt" ;;
      match s_events s !! Z.to_nat latest with
      | Some e =>
        match decode_payload EvApprovalRequested (ev_Data e) with
        | Some (DApprovalRequested d) => Ok (Some (clone_request d))
        | _ => Err "decode pending approval"
        end
      | None => Err "pending approval index is corrupt"
      end
  end.

Definition HasToolCall (s : Session) (runID callID : string) : result bool :=
  let! _ := ValidateRunID runID in
  let! _ := validateToolCallID callID in
  Ok (match s_runIndex s !! runID with Some entry => bool_decide (is_Some (toolCalls entry !! callID)) | None => false end).

Record CapabilityResult := mk_result { r_Content : string; r_OK : bool; r_Metadata : gmap string json }.

Definition cloneCapabilityResult (r : CapabilityResult) : CapabilityResult :=
  mk_result (r_Content r) (r_OK r) (cloneMap (r_Metadata r)).

Definition ToolResult (s : Session) (runID callID : string) : result (option CapabilityResult) :=
  let! _ := ValidateRunID runID in
  let! _ := validateToolCallID callID in
  match s_runIndex s !! runID with
  | None => Ok None
  | Some entry =>
    match toolResults entry !! callID with
    | None => Ok None
    | Some seq =>
      if (seq <? 0) || (s_len s <=? seq) then Ok None
      else match s_events s !! Z.to_nat seq with
           | Some e =>
             match decode_payload EvToolResult (ev_Data e) with
             | Some (DToolResult d) => Ok (Some (cloneCapabilityResult (mk_result (tr_Content d) (tr_OK d) (tr_Metadata d))))
             | _ => Err "decode tool result"
             end
           | None => Ok None
           end
    end
  end.

(** [LastAssistantText]: the last non-empty assistant text of a run. *)
Definition assistant_text (runID : string) (e : SessionEvent) : option string :=
  if bool_decide (RunID e = runID) && bool_decide (ev_Type e = EvAssistantMessage) then
    match decode_payload EvAssistantMessage (ev_Data e) with
    | Some (DAssistantMessage d) => if is_empty (am_Text d) then None else Some (am_Text d)
    | _ => None
    end
  else None.
Definition LastAssistantText (s : Session) (runID : string) : string :=
  default "" (head (omap (assistant_text runID) (reverse (s_events s)))).

Definition runUsageTotal (s : Session) (runID : string) : TokenUsage := usage (entry_at (s_runIndex s) runID).
