(* ===== verification/Projection.v ===== *)
(** * The message projection: [Session.DeriveMessages] of [src/pkg/core/session.go]

    The model-visible conversation is derived from the log: user messages,
    assistant messages and tool results in log order, where each context
    summary stands for the range of events it replaces.  The source sorts the
    ranges, merges them into disjoint intervals, and looks a sequence number up
    by binary search ([sort.Search]); a cache makes later calls incremental. *)
From S2P Require Import Prelude GoString Json Payload Events Message Session.
From stdpp Require Import gmap strings list sorting.
From Stdlib Require Import ZArith Lia.
Open Scope Z_scope.

Record summaryRange := mk_range { sr_start : Z; sr_end : Z; sr_seq : Z; sr_data : ContextSummaryData }.

(** The ranges of the log, in log order; an undecodable summary is an error. *)
Fixpoint collect_ranges (events : list SessionEvent) : result (list summaryRange) :=
  match events with
  | [] => Ok []
  | e :: events =>
    match ev_Type e with
    | EvContextSummary =>
      match decode_payload EvContextSummary (ev_Data e) with
      | Some (DContextSummary d) =>
        let! rest := collect_ranges events in Ok (mk_range (cs_Start d) (cs_End d) (Seq e) d :: rest)
      | _ => Err "decode context summary"
      end
    | _ => collect_ranges events
    end
  end.

(** The order of [sort.Slice]: by start, then by sequence number. *)
Definition range_le (a b : summaryRange) : Prop :=
  sr_start a < sr_start b ∨ (sr_start a = sr_start b ∧ sr_seq a ≤ sr_seq b).
#[export] Instance range_le_dec a b : Decision (range_le a b).
Proof. unfold range_le. apply _. Defined.

(** One step of the interval merge.  [last.end+1] is only computed when it
    cannot overflow. *)
Definition add_interval (intervals : list (Z * Z)) (r : summaryRange) : list (Z * Z) :=
  match last intervals with
  | None => intervals ++ [(sr_start r, sr_end r)]
  | Some (lstart, lend) =>
    let adjacent := negb (lend =? max_int64) && (sr_start r =? lend + 1) in
    if (lend <? sr_start r) && negb adjacent then intervals ++ [(sr_start r, sr_end r)]
    else if lend <? sr_end r then <[(length intervals - 1)%nat := (lstart, sr_end r)]> intervals
    else intervals
  end.

Definition merge_ranges (ranges : list summaryRange) : list (Z * Z) := foldl add_interval [] ranges.

(** Go's [sort.Search]: bisection of [i, j); [j - i] shrinks at each step. *)
Fixpoint search_loop (fuel : nat) (f : nat → bool) (i j : nat) : nat :=
  match fuel with
  | O => i
  | S fuel =>
    if (i <? j)%nat then
      let h := ((i + j) / 2)%nat in
      if negb (f h) then search_loop fuel f (h + 1)%nat j else search_loop fuel f i h
    else i
  end.
Definition sort_Search (n : nat) (f : nat → bool) : nat := search_loop n f 0%nat n.

Definition isShadowed (intervals : list (Z * Z)) (seq : Z) : bool :=
  let index := sort_Search (length intervals)
                 (λ i, match intervals !! i with Some (_, e) => seq <=? e | None => false end) in
  match intervals !! index with Some (start, _) => start <=? seq | None => false end.

Definition summary_message (r : summaryRange) : ChatMessage :=
  mk_msg RoleUser
    ("[conversation summary of events " +:+ z_text (cs_Start (sr_data r)) +:+ "–" +:+ z_text (cs_End (sr_data r)) +:+ "]" +:+
     String (Ascii.ascii_of_nat 10) (Summary (sr_data r)))
    None [] "" (sr_seq r)
    (Some (mk_prov "summary" (cs_Start (sr_data r)) (cs_End (sr_data r)) (z_text (sr_seq r)))).

(** [emitSummariesBefore]: the messages emitted and the summaries left. *)
Fixpoint emitSummariesBefore (shadowed : Z → bool) (seq : Z) (ranges : list summaryRange) : list ChatMessage * list summaryRange :=
  match ranges with
  | [] => ([], [])
  | r :: rest =>
    if sr_start r <=? seq then
      let '(out, pend) := emitSummariesBefore shadowed seq rest in
      (if shadowed (sr_seq r) then out else summary_message r :: out, pend)
    else ([], ranges)
  end.

Fixpoint project_loop (shadowed : Z → bool) (ranges : list summaryRange) (events : list SessionEvent) : list ChatMessage :=
  match events with
  | [] => omap (λ r, if shadowed (sr_seq r) then None else Some (summary_message r)) ranges
  | e :: events =>
    let '(out, rest) := emitSummariesBefore shadowed (Seq e) ranges in
    out ++ (if shadowed (Seq e) then [] else option_list (projectEvent e)) ++ project_loop shadowed rest events
  end.

(** The derivation from scratch. *)
Definition full_projection (events : list SessionEvent) : result (list ChatMessage) :=
  let! ranges := collect_ranges events in
  let ranges := merge_sort range_le ranges in
  Ok (project_loop (isShadowed (merge_ranges ranges)) ranges events).

Definition with_projection (s : Session) (count summaries : Z) (cache : list ChatMessage) (valid : bool) : Session :=
  mk_session (s_id s) (s_profileID s) (s_principal s) (s_scope s) (s_metadata s) (s_events s) (s_runStarts s) (s_runIndex s)
    (s_maxEvents s) (s_summaryEvents s) count summaries cache valid.

(** The messages and the session with its cache refreshed. *)
Definition DeriveMessages (s : Session) : result (list ChatMessage) * Session :=
  if s_projValid s && (s_projCount s =? s_len s) && (s_projSummaries s =? s_summaryEvents s) then
    (Ok (cloneChatMessages (s_projCache s)), s)
  else if s_projValid s && (s_projSummaries s =? s_summaryEvents s) && (0 <? s_projCount s) && (s_projCount s <? s_len s) then
    let out := s_projCache s ++ omap projectEvent (drop (Z.to_nat (s_projCount s)) (s_events s)) in
    (Ok (cloneChatMessages out), with_projection s (s_len s) (s_projSummaries s) out (s_projValid s))
  else
    match full_projection (s_events s) with
    | Err e => (Err e, s)
    | Ok out => (Ok (cloneChatMessages out), with_projection s (s_len s) (s_summaryEvents s) out true)
    end.
