(* ===== verification/SessionLog.v ===== *)
(** * Correctness of the session log

    Every session the package can build, by [NewSession], [RestoreSession],
    [appendBatch] and [DeriveMessages], is the one [RestoreSession] rebuilds
    from its own events ([reach_log_built]): the index kept incrementally, with
    a batch validated before it is committed, is the index of the log.  The
    properties of the log and of the queries follow by induction on the
    events ([log_inv]). *)
From S2P Require Import Prelude GoString Json Scope Sha256 GoTime Principal Payload Events Message Session Projection.
From stdpp Require Import gmap strings list sorting.
From Stdlib Require Import ZArith Lia Ascii.
Open Scope Z_scope.

(** ** Reachable sessions *)

(** The typed payloads are restricted to what [encoding/json] carries unchanged
    (UTF-8 strings, representable numbers and times). *)
Definition entry_stable (e : sessionAppendEntry) : bool := data_stable (ae_data e).

Inductive reach : Session → Prop :=
| reach_new o s : NewSession o = Ok s → reach s
| reach_restore o events s : RestoreSession o events = Ok s → reach s
| reach_append clock s entries s' events :
    reach s → forallb entry_stable entries = true → appendBatch clock s entries = Ok (s', events) → reach s'
| reach_derive s : reach s → reach (snd (DeriveMessages s)).

(** The session without its projection cache. *)
Definition strip (s : Session) : Session := with_projection s 0 0 [] false.

Definition empty_of (s : Session) : Session :=
  mk_session (s_id s) (s_profileID s) (s_principal s) (s_scope s) (s_metadata s) [] ∅ ∅ (s_maxEvents s) 0 0 0 [] false.

(** The session is what restoring its own events gives. *)
Definition log_built (s : Session) : Prop :=
  (∃ s0, NewSession (options_of s) = Ok s0 ∧ options_of s0 = options_of s) ∧ s_maxEvents s = 0
  ∧ rfold restore_event (empty_of s) (s_events s) = Ok (strip s).

(** ** Facts about one event *)

Lemma entry_at_index index e typed run :
  entry_at (indexEvent index e typed) run =
  if decide (run = RunID e) then index_entry (entry_at index run) (ev_Type e) (Seq e) (eventData (ev_Type e) typed (ev_Data e))
  else entry_at index run.
Proof.
  unfold indexEvent, entry_at at 1. destruct (decide (run = RunID e)) as [->|Hne].
  - by rewrite lookup_insert_eq.
  - by rewrite lookup_insert_ne.
Qed.

Lemma decode_DNil t raw : eventData t DNil raw = decode_payload t raw.
Proof. by destruct t. Qed.

(** Preparation keeps the entry's run, type and value, and what it accepts is
    a valid stored event that reads back as the typed value. *)
Lemma prepare_entry_spec e p :
  prepare_entry e = Ok p → entry_stable e = true →
  validateSessionEvent (ae_runID p) (ae_kind p) (ae_raw p) = Ok tt
  ∧ eventData (ae_kind p) (ae_data p) (ae_raw p) = decode_payload (ae_kind p) (ae_raw p).
Proof.
  unfold prepare_entry, entry_stable, validateSessionEventValue. intros Hp Hs.
  apply rbind_ok in Hp as ([] & Hr & Hp). apply fail_if_ok in Hp as [Hl Hp].
  destruct (kind_matches (ae_kind e) (ae_data e)) eqn:Hk.
  - apply rbind_ok in Hp as ([] & Hv & Hp). simplify_eq. cbn [ae_runID ae_kind ae_data ae_raw] in *.
    assert (∃ j, payload_json (ae_data e) = Some j) as (j & Hj)
      by (destruct (ae_kind e), (ae_data e); try discriminate Hk; eexists; reflexivity).
    rewrite Hj in Hl |- *. cbn [raw_len marshal] in Hl. bool_to_prop. split.
    + by apply decode_validates_typed with (ae_data e).
    + unfold eventData. rewrite Hk. symmetry. by apply decode_payload_round_trip.
  - apply rbind_ok in Hp as ([] & Hv & Hp). simplify_eq. cbn [ae_runID ae_kind ae_data ae_raw]. split; [done|].
    unfold eventData. by rewrite Hk.
Qed.

Lemma prepare_entry_same e p :
  prepare_entry e = Ok p → ae_runID p = ae_runID e ∧ ae_kind p = ae_kind e ∧ ae_data p = ae_data e.
Proof.
  unfold prepare_entry. intros Hp. destruct (validateSessionEventValue _ _) as [ty v].
  apply rbind_ok in Hp as ([] & _ & Hp). apply fail_if_ok in Hp as [_ Hp]. apply rbind_ok in Hp as ([] & _ & Hp).
  by simplify_eq.
Qed.

Lemma validate_entry_decoded s acc run kind data raw :
  eventData kind data raw = decode_payload kind raw →
  validate_entry s acc (mk_append run kind data raw) = validate_entry s acc (mk_append run kind DNil raw).
Proof.
  intros H. destruct acc as [st pe]. unfold validate_entry. cbn [ae_runID ae_kind ae_data ae_raw].
  destruct kind; try done. by rewrite H, decode_DNil.
Qed.

(** How indexing an event changes the usage ledger of its run. *)
Definition usage_data (d : option EventData) : option RunUsageData :=
  match d with Some (DRunUsage u) => Some u | _ => None end.

Lemma index_entry_usage en t seq d :
  usage (index_entry en t seq d) =
    match t, usage_data d with
    | EvRunUsage, Some u => mk_tokens (wrap_int64 (tu_Input (usage en) + InputTokens u)) (wrap_int64 (tu_Output (usage en) + OutputTokens u))
    | _, _ => usage en end
  ∧ usageIDs (index_entry en t seq d) =
    match t, usage_data d with
    | EvRunUsage, Some u => if is_empty (InvocationID u) then usageIDs en else {[ InvocationID u ]} ∪ usageIDs en
    | _, _ => usageIDs en end.
Proof. destruct t; destruct d as [[]|]; cbn; try done; by destruct (ended en). Qed.

Lemma wrap_int64_id z : 0 ≤ z ≤ max_int64 → wrap_int64 z = z.
Proof. unfold wrap_int64, max_int64. intros. rewrite Z.mod_small; lia. Qed.

(** ** A batch is its events one after the other *)

Definition usage_bounded (u : TokenUsage) : Prop := 0 ≤ tu_Input u ≤ max_int64 ∧ 0 ≤ tu_Output u ≤ max_int64.

(** What the accumulators of [validateAppendLocked] hold, relative to the
    session before the batch and the one after the entries seen so far. *)
Record batch_sim (s sk : Session) (acc : gset string * gmap string (TokenUsage * gset string)) : Prop := {
  bs_starts : s_runStarts sk = s_runStarts s ∪ fst acc;
  bs_usage run : usage (entry_at (s_runIndex sk) run) =
    match snd acc !! run with Some st => fst st | None => usage (entry_at (s_runIndex s) run) end;
  bs_ids run : usageIDs (entry_at (s_runIndex sk) run) =
    usageIDs (entry_at (s_runIndex s) run) ∪ match snd acc !! run with Some st => snd st | None => ∅ end;
  bs_bounded run : usage_bounded (usage (entry_at (s_runIndex sk) run)) }.

Lemma batch_sim_refl s :
  (∀ run, usage_bounded (usage (entry_at (s_runIndex s) run))) → batch_sim s s (∅, ∅).
Proof. intros H. split; intros; cbn; rewrite ?lookup_empty; try done; set_solver. Qed.

Lemma addUsageTotal_ok t i o t' :
  addUsageTotal t i o = Ok t' ↔
  0 ≤ i ≤ max_int64 - tu_Input t ∧ 0 ≤ o ≤ max_int64 - tu_Output t ∧ t' = mk_tokens (tu_Input t + i) (tu_Output t + o).
Proof.
  unfold addUsageTotal. rewrite fail_if_ok, !orb_false_iff, !Z.ltb_ge.
  split; [intros [? [= <-]]; repeat split; lia|intros (? & ? & ->); repeat split; lia].
Qed.

(** The ids of a usage record after one more, when it does not repeat one. *)
Definition add_id (d : RunUsageData) (ids : gset string) : gset string :=
  if is_empty (InvocationID d) then ids else {[ InvocationID d ]} ∪ ids.

(** [validateRunUsageLocked] in terms of the entry of the run. *)
Lemma validateRunUsageLocked_ok index run d pend pend' :
  let base := match pend !! run with Some st => fst st | None => usage (entry_at index run) end in
  let ids := match pend !! run with Some st => snd st | None => ∅ end in
  validateRunUsageLocked index run d pend = Ok pend' ↔
  (InvocationID d = "" ∨ InvocationID d ∉ usageIDs (entry_at index run) ∪ ids)
  ∧ 0 ≤ InputTokens d ≤ max_int64 - tu_Input base ∧ 0 ≤ OutputTokens d ≤ max_int64 - tu_Output base
  ∧ pend' = <[run := (mk_tokens (tu_Input base + InputTokens d) (tu_Output base + OutputTokens d), add_id d ids)]> pend.
Proof.
  intros base ids. unfold validateRunUsageLocked.
  set (st := match pend !! run with Some st => st | None => _ end).
  assert (fst st = base) as -> by (unfold st, base, entry_at; destruct (pend !! run), (index !! run); done).
  assert (snd st = ids) as -> by (unfold st, ids; destruct (pend !! run), (index !! run); done).
  clearbody base ids. clear st.
  rewrite rbind_ok. setoid_rewrite rbind_ok. setoid_rewrite addUsageTotal_ok.
  assert (∀ ids', (if is_empty (InvocationID d) then Ok ids
     else fail_if match index !! run with Some entry => bool_decide (InvocationID d ∈ usageIDs entry) | None => false end
            "run repeats usage invocation"
            (fail_if (bool_decide (InvocationID d ∈ ids)) "run repeats usage invocation" (Ok ({[InvocationID d]} ∪ ids)))) = Ok ids'
     ↔ (InvocationID d = "" ∨ InvocationID d ∉ usageIDs (entry_at index run) ∪ ids) ∧ ids' = add_id d ids) as Hids.
  { intros ids'. unfold add_id, entry_at. destruct (InvocationID d) as [|c i] eqn:E; [change (is_empty "") with true|change (is_empty (String c i)) with false]; cbn iota.
    - naive_solver.
    - rewrite !fail_if_ok, bool_decide_eq_false.
      assert (match index !! run with Some entry => bool_decide (String c i ∈ usageIDs entry) | None => false end = false
              ↔ String c i ∉ usageIDs (default new_entry (index !! run))) as ->
        by (destruct (index !! run); cbn; [by rewrite bool_decide_eq_false|set_solver]).
      rewrite not_elem_of_union. naive_solver. }
  setoid_rewrite Hids. naive_solver.
Qed.

Definition is_start (t : SessionEventType) : bool := match t with EvRunStart => true | _ => false end.
Definition is_resume (t : SessionEventType) : bool := match t with EvRunResume => true | _ => false end.

Lemma validate_entry_ok s st pe p acc' :
  validate_entry s (st, pe) p = Ok acc' ↔
  (is_start (ae_kind p) = true → ae_runID p ∉ s_runStarts s ∪ st)
  ∧ (is_resume (ae_kind p) = true → ae_runID p ∈ s_runStarts s ∪ st)
  ∧ fst acc' = (if is_start (ae_kind p) then {[ ae_runID p ]} ∪ st else st)
  ∧ match ae_kind p with
    | EvRunUsage =>
      match usage_data (eventData EvRunUsage (ae_data p) (ae_raw p)) with
      | Some d => validateRunUsageLocked (s_runIndex s) (ae_runID p) d pe = Ok (snd acc')
      | None => False end
    | _ => snd acc' = pe end.
Proof.
  destruct acc' as [st' pe']. unfold validate_entry. destruct (ae_kind p); cbn [is_start is_resume fst snd];
    try (cbn; naive_solver).
  - rewrite not_elem_of_union. repeat case_bool_decide; cbn; naive_solver.
  - rewrite elem_of_union. repeat case_bool_decide; cbn; naive_solver.
  - cbn [rbind]. destruct (eventData _ _ _) as [[]|]; cbn [usage_data]; try naive_solver.
    rewrite rbind_ok. naive_solver.
Qed.

Lemma commit_runStarts clock s p :
  s_runStarts (commit_entry clock s p) = (if is_start (ae_kind p) then {[ ae_runID p ]} else ∅) ∪ s_runStarts s.
Proof.
  unfold commit_entry. destruct (match ae_kind p with EvContextSummary => _ | _ => _ end) as [[[? ?] ?] ?].
  cbn [s_runStarts]. destruct (ae_kind p); cbn; set_solver.
Qed.

Definition commit_event (clock : Z → string) (s : Session) (p : sessionAppendEntry) : SessionEvent :=
  mk_event (s_len s) (clock (s_len s)) (ae_runID p) (ae_kind p) (ae_raw p).

Lemma commit_runIndex clock s p :
  s_runIndex (commit_entry clock s p) = indexEvent (s_runIndex s) (commit_event clock s p) (ae_data p).
Proof. unfold commit_entry. by destruct (match ae_kind p with EvContextSummary => _ | _ => _ end) as [[[? ?] ?] ?]. Qed.

Lemma commit_events clock s p : s_events (commit_entry clock s p) = s_events s ++ [commit_event clock s p].
Proof. unfold commit_entry. by destruct (match ae_kind p with EvContextSummary => _ | _ => _ end) as [[[? ?] ?] ?]. Qed.

(** The commit of one entry is, up to the cache, one step of [RestoreSession]. *)
Lemma commit_restores clock s p :
  validateSessionEvent (ae_runID p) (ae_kind p) (ae_raw p) = Ok tt →
  eventData (ae_kind p) (ae_data p) (ae_raw p) = decode_payload (ae_kind p) (ae_raw p) →
  s_len s + 1 ≤ eventCap s → is_ok (validate_entry s (∅, ∅) p) = true →
  restore_event (strip s) (commit_event clock s p) = Ok (strip (commit_entry clock s p)).
Proof.
  intros Hv Hd Hc Hval. destruct p as [run kind data raw]. cbn [ae_runID ae_kind ae_data ae_raw] in *.
  unfold restore_event. cbn [commit_event Seq RunID ev_Type ev_Data ae_runID ae_kind ae_raw ae_data].
  change (s_len (strip s)) with (s_len s). rewrite Z.eqb_refl. cbn [negb fail_if]. rewrite Hv. cbn [rbind].
  destruct (validate_entry s (∅, ∅) (mk_append run kind data raw)) as [acc'|] eqn:Hval'; [|done].
  rewrite validate_entry_decoded in Hval' by done.
  unfold validateAppendLocked. change (eventCap (strip s)) with (eventCap s). change (s_len (strip s)) with (s_len s).
  assert (eventCap s <? s_len s + Z.of_nat (length [mk_append run kind DNil raw]) = false) as -> by (apply Z.ltb_ge; cbn; lia).
  cbn [fail_if rfold]. change (validate_entry (strip s)) with (validate_entry s). rewrite Hval'. cbn [rbind].
  apply validate_entry_ok in Hval' as (Hst & Hre & _ & _). cbn [ae_kind ae_runID] in Hst, Hre.
  assert (indexEvent (s_runIndex s) (commit_event clock s (mk_append run kind data raw)) DNil
          = indexEvent (s_runIndex s) (commit_event clock s (mk_append run kind data raw)) data) as Hi.
  { unfold indexEvent. cbn [commit_event ev_Type ev_Data ae_kind ae_raw]. by rewrite decode_DNil, Hd. }
  change (s_runIndex (strip s)) with (s_runIndex s). change (s_runStarts (strip s)) with (s_runStarts s).
  unfold commit_event in Hi |- *. cbn [ae_runID ae_kind ae_raw] in *.
  rewrite Hi. clear Hi. unfold commit_entry, strip, with_projection.
  cbn [ae_runID ae_kind ae_raw ae_data Seq].
  destruct kind; cbn [rbind is_start is_resume] in *;
    rewrite ?bool_decide_eq_false_2 by set_solver; rewrite ?bool_decide_eq_true_2 by set_solver; cbn [fail_if negb rbind];
    repeat (destruct_match_goal; cbn [s_id s_profileID s_principal s_scope s_metadata s_events s_runStarts s_runIndex s_maxEvents s_summaryEvents] in * ); simplify_eq; try reflexivity.
Qed.

(** The entry of a run after a commit, for the usage ledger. *)
Lemma commit_usage clock s p run :
  let en := entry_at (s_runIndex s) run in
  let en' := entry_at (s_runIndex (commit_entry clock s p)) run in
  match ae_kind p, usage_data (eventData (ae_kind p) (ae_data p) (ae_raw p)), decide (run = ae_runID p) with
  | EvRunUsage, Some u, left _ =>
      usage en' = mk_tokens (wrap_int64 (tu_Input (usage en) + InputTokens u)) (wrap_int64 (tu_Output (usage en) + OutputTokens u))
      ∧ usageIDs en' = add_id u (usageIDs en)
  | _, _, _ => usage en' = usage en ∧ usageIDs en' = usageIDs en
  end.
Proof.
  cbn zeta. rewrite commit_runIndex, entry_at_index. cbn [commit_event RunID ev_Type ev_Data].
  destruct (decide (run = ae_runID p)) as [->|].
  - destruct (index_entry_usage (entry_at (s_runIndex s) (ae_runID p)) (ae_kind p) (Seq (commit_event clock s p))
                (eventData (ae_kind p) (ae_data p) (ae_raw p))) as [-> ->].
    destruct (ae_kind p); try done. by destruct (usage_data _).
  - destruct (ae_kind p); try done; by destruct (usage_data _).
Qed.

(** A usage record the batch validator accepts fits the ledger built so far. *)
Lemma batch_sim_usage s sk st pe run d pe' :
  batch_sim s sk (st, pe) → validateRunUsageLocked (s_runIndex s) run d pe = Ok pe' →
  let u := usage (entry_at (s_runIndex sk) run) in
  is_ok (validateRunUsageLocked (s_runIndex sk) run d ∅) = true
  ∧ wrap_int64 (tu_Input u + InputTokens d) = tu_Input u + InputTokens d
  ∧ wrap_int64 (tu_Output u + OutputTokens d) = tu_Output u + OutputTokens d.
Proof.
  intros [_ H2 H3 H4] Hu. cbn zeta. apply validateRunUsageLocked_ok in Hu as (Hid & Hin & Hout & _). cbn [fst snd] in *.
  specialize (H2 run); specialize (H3 run); destruct (H4 run) as [Hb1 Hb2]. rewrite <- H2 in Hin, Hout. split.
  - destruct (validateRunUsageLocked (s_runIndex sk) run d ∅) eqn:E; [done|]. exfalso.
    assert (∃ pend', validateRunUsageLocked (s_runIndex sk) run d ∅ = Ok pend') as [? ?]; [|congruence].
    eexists. apply validateRunUsageLocked_ok. rewrite lookup_empty. split; [|split; [exact Hin|split; [exact Hout|reflexivity]]].
    rewrite H3. destruct Hid; [by left|right; set_solver].
  - split; apply wrap_int64_id; lia.
Qed.

(** An entry the batch validator accepts is accepted alone by the session that
    has the entries before it. *)
Lemma batch_sim_validate s sk acc p acc' :
  batch_sim s sk acc → validate_entry s acc p = Ok acc' → is_ok (validate_entry sk (∅, ∅) p) = true.
Proof.
  intros Hsim Hv. destruct acc as [st pe]. pose proof (bs_starts _ _ _ Hsim) as H1. cbn [fst] in H1.
  apply validate_entry_ok in Hv as (Hs & Hr & _ & Hu).
  destruct (validate_entry sk (∅, ∅) p) as [r|] eqn:E; [done|]. exfalso.
  assert (∃ r, validate_entry sk (∅, ∅) p = Ok r) as [? ?]; [|congruence]. setoid_rewrite validate_entry_ok. rewrite H1.
  destruct (ae_kind p); cbn [is_start is_resume] in *;
    try (exists (∅, ∅); split; [discriminate|split; [discriminate|split; reflexivity]]).
  - exists ({[ae_runID p]} ∪ ∅, ∅). cbn. specialize (Hs eq_refl). split; [set_solver|]. done.
  - exists (∅, ∅). cbn. specialize (Hr eq_refl). split; [done|]. split; [set_solver|]. done.
  - destruct (usage_data _) as [d|]; [|done]. destruct (batch_sim_usage _ _ _ _ _ _ _ Hsim Hu) as [Hok _].
    destruct (validateRunUsageLocked (s_runIndex sk) (ae_runID p) d ∅) as [pe1|]; [|done].
    by exists (∅, pe1).
Qed.

Lemma batch_sim_step clock s sk acc p acc' :
  batch_sim s sk acc → validate_entry s acc p = Ok acc' → batch_sim s (commit_entry clock sk p) acc'.
Proof.
  intros Hsim Hv. destruct acc as [st pe], acc' as [st' pe']. pose proof Hsim as [H1 H2 H3 H4]. cbn [fst snd] in *.
  apply validate_entry_ok in Hv as (_ & _ & Hst & Hu). cbn [fst snd] in *. subst st'.
  assert (∀ run, (usage (entry_at (s_runIndex (commit_entry clock sk p)) run) =
      match pe' !! run with Some st0 => fst st0 | None => usage (entry_at (s_runIndex s) run) end
    ∧ usageIDs (entry_at (s_runIndex (commit_entry clock sk p)) run) =
      usageIDs (entry_at (s_runIndex s) run) ∪ match pe' !! run with Some st0 => snd st0 | None => ∅ end)
    ∧ usage_bounded (usage (entry_at (s_runIndex (commit_entry clock sk p)) run))) as Hrun.
  { intros run. pose proof (commit_usage clock sk p run) as Hc. cbn zeta in Hc. specialize (H2 run); specialize (H3 run); specialize (H4 run).
    destruct (ae_kind p); try (subst pe'; destruct Hc as [-> ->]; by rewrite <- H2).
    destruct (usage_data _) as [d|]; [|done]. destruct (batch_sim_usage _ _ _ _ _ _ _ Hsim Hu) as (_ & Hw1 & Hw2).
    apply validateRunUsageLocked_ok in Hu as (_ & Hin & Hout & ->).
    destruct (decide (run = ae_runID p)) as [->|Hne].
    - rewrite lookup_insert_eq. cbn [fst snd]. rewrite <- H2 in Hin, Hout |- *. destruct Hc as [-> ->]. rewrite Hw1, Hw2, H3.
      split; [split; [done|unfold add_id; destruct (is_empty _); set_solver]|].
      destruct H4. split; cbn; lia.
    - rewrite lookup_insert_ne by done. destruct Hc as [-> ->]. by rewrite <- H2. }
  split; cbn [fst snd]; [|by apply Hrun..]. rewrite commit_runStarts, H1. destruct (is_start _); set_solver.
Qed.

(** The events of a batch. *)
Fixpoint batch_events (clock : Z → string) (n : Z) (ps : list sessionAppendEntry) : list SessionEvent :=
  match ps with
  | [] => []
  | p :: ps => mk_event n (clock n) (ae_runID p) (ae_kind p) (ae_raw p) :: batch_events clock (n + 1) ps
  end.

Lemma s_len_commit clock s p : s_len (commit_entry clock s p) = s_len s + 1.
Proof. unfold s_len. rewrite commit_events, length_app. cbn. lia. Qed.

Lemma commit_all_events clock ps s :
  s_events (foldl (commit_entry clock) s ps) = s_events s ++ batch_events clock (s_len s) ps.
Proof.
  revert s. induction ps as [|p ps IH]; intros s; cbn; [by rewrite app_nil_r|].
  by rewrite IH, commit_events, s_len_commit, <- app_assoc.
Qed.

Definition same_owner (s s' : Session) : Prop := options_of s' = options_of s ∧ s_maxEvents s' = s_maxEvents s.

Lemma commit_owner clock s p : same_owner s (commit_entry clock s p).
Proof. unfold commit_entry. by destruct (match ae_kind p with EvContextSummary => _ | _ => _ end) as [[[? ?] ?] ?]. Qed.

Lemma commit_all_owner clock ps s : same_owner s (foldl (commit_entry clock) s ps).
Proof.
  revert s. induction ps as [|p ps IH]; intros s; cbn; [done|]. destruct (IH (commit_entry clock s p)) as [H1 H2], (commit_owner clock s p). split; congruence.
Qed.

Definition readable (p : sessionAppendEntry) : Prop :=
  validateSessionEvent (ae_runID p) (ae_kind p) (ae_raw p) = Ok tt
  ∧ eventData (ae_kind p) (ae_data p) (ae_raw p) = decode_payload (ae_kind p) (ae_raw p).

(** Committing a validated batch is restoring its events one after the other. *)
Lemma batch_restores clock s ps : ∀ sk acc acc',
  batch_sim s sk acc → Forall readable ps → rfold (validate_entry s) acc ps = Ok acc' →
  s_len sk + Z.of_nat (length ps) ≤ eventCap sk →
  rfold restore_event (strip sk) (batch_events clock (s_len sk) ps) = Ok (strip (foldl (commit_entry clock) sk ps))
  ∧ batch_sim s (foldl (commit_entry clock) sk ps) acc'.
Proof.
  induction ps as [|p ps IH]; intros sk acc acc' Hsim Hall Hv Hc; cbn in Hv |- *; [by simplify_eq|].
  apply Forall_cons in Hall as [[Hp1 Hp2] Hall]. apply rbind_ok in Hv as (acc1 & Hp & Hv). cbn [length] in Hc.
  pose proof (batch_sim_validate _ _ _ _ _ Hsim Hp) as Hok.
  pose proof (commit_restores clock sk p Hp1 Hp2 ltac:(lia) Hok) as Hr. unfold commit_event in Hr. rewrite Hr.
  cbn [rbind]. rewrite <- s_len_commit with clock _ p. eapply IH; eauto using batch_sim_step.
  rewrite s_len_commit. destruct (commit_owner clock sk p) as [_ Hm]. unfold eventCap in *. rewrite Hm. lia.
Qed.

(** ** The log invariant *)

Definition start_of (e : SessionEvent) : option string := if is_start (ev_Type e) then Some (RunID e) else None.
Definition starts_of (events : list SessionEvent) : list string := omap start_of events.

(** The usage records of a run, in log order. *)
Definition usage_of (run : string) (e : SessionEvent) : option RunUsageData :=
  if bool_decide (RunID e = run) then
    match ev_Type e with EvRunUsage => usage_data (decode_payload EvRunUsage (ev_Data e)) | _ => None end
  else None.
Definition usages_of (run : string) (events : list SessionEvent) : list RunUsageData := omap (usage_of run) events.
Definition invocation_of (d : RunUsageData) : option string := if is_empty (InvocationID d) then None else Some (InvocationID d).
Definition invocations_of (run : string) (events : list SessionEvent) : list string := omap invocation_of (usages_of run events).
Definition sum_z (l : list Z) : Z := foldr Z.add 0 l.
Definition index_of (events : list SessionEvent) : gmap string runIndexEntry :=
  foldl (λ index e, indexEvent index e DNil) ∅ events.
Definition is_summary (e : SessionEvent) : bool := match ev_Type e with EvContextSummary => true | _ => false end.

Record log_inv (s : Session) : Prop := {
  li_seq i e : s_events s !! i = Some e → Seq e = Z.of_nat i;
  li_valid e : e ∈ s_events s → validateSessionEvent (RunID e) (ev_Type e) (ev_Data e) = Ok tt;
  li_cap : s_len s ≤ eventCap s;
  li_starts : s_runStarts s = list_to_set (starts_of (s_events s));
  li_starts_once : NoDup (starts_of (s_events s));
  li_resumes i e : s_events s !! i = Some e → is_resume (ev_Type e) = true → RunID e ∈ starts_of (take i (s_events s));
  li_index : s_runIndex s = index_of (s_events s);
  li_usage run : usage (entry_at (s_runIndex s) run) =
    mk_tokens (sum_z (InputTokens <$> usages_of run (s_events s))) (sum_z (OutputTokens <$> usages_of run (s_events s)));
  li_bounded run : usage_bounded (usage (entry_at (s_runIndex s) run));
  li_ids run : usageIDs (entry_at (s_runIndex s) run) = list_to_set (invocations_of run (s_events s));
  li_ids_once run : NoDup (invocations_of run (s_events s));
  li_summaries : s_summaryEvents s = Z.of_nat (length (List.filter is_summary (s_events s))) }.

Record restored (s : Session) (e : SessionEvent) (s' : Session) : Prop := {
  re_seq : Seq e = s_len s;
  re_valid : validateSessionEvent (RunID e) (ev_Type e) (ev_Data e) = Ok tt;
  re_cap : s_len s + 1 ≤ eventCap s;
  re_entry : is_ok (validate_entry s (∅, ∅) (mk_append (RunID e) (ev_Type e) DNil (ev_Data e))) = true;
  re_events : s_events s' = s_events s ++ [e];
  re_runStarts : s_runStarts s' = (if is_start (ev_Type e) then {[ RunID e ]} else ∅) ∪ s_runStarts s;
  re_runIndex : s_runIndex s' = indexEvent (s_runIndex s) e DNil;
  re_summaries : s_summaryEvents s' = s_summaryEvents s + (if is_summary e then 1 else 0);
  re_owner : same_owner s s' }.

Lemma restore_event_ok s e s' : restore_event s e = Ok s' → restored s e s'.
Proof.
  unfold restore_event. intros H. apply fail_if_ok in H as [Hq H]. apply rbind_ok in H as ([] & Hv & H).
  apply rbind_ok in H as ([] & Ha & H). apply rbind_ok in H as (st & Hst & H). injection H as <-.
  unfold validateAppendLocked in Ha. apply fail_if_ok in Ha as [Hc Ha]. apply rbind_ok in Ha as (acc & Ha & _).
  cbn [rfold] in Ha. apply rbind_ok in Ha as (acc1 & Ha & _). bool_to_prop. cbn [length] in Hc.
  split; try done; try lia.
  - by rewrite Ha.
  - cbn [s_runStarts]. unfold fail_if in Hst. destruct (ev_Type e); cbn [is_start];
      repeat case_bool_decide; cbn in Hst; simplify_eq; set_solver.
  - cbn [s_summaryEvents]. unfold is_summary. destruct (ev_Type e); lia.
Qed.

Lemma sum_z_app l k : sum_z (l ++ k) = sum_z l + sum_z k.
Proof. induction l as [|x l IH]; cbn; [done|]. fold (sum_z (l ++ k)). rewrite IH. unfold sum_z. lia. Qed.

Lemma s_len_snoc s e s' : s_events s' = s_events s ++ [e] → s_len s' = s_len s + 1.
Proof. unfold s_len. intros ->. rewrite length_app. cbn. lia. Qed.

(** The part of the invariant about the order of events. *)
Lemma log_inv_order s e s' :
  log_inv s → restored s e s' →
  NoDup (starts_of (s_events s'))
  ∧ (∀ i e', s_events s' !! i = Some e' → is_resume (ev_Type e') = true → RunID e' ∈ starts_of (take i (s_events s'))).
Proof.
  intros Hi Hr. pose proof (re_entry _ _ _ Hr) as Hok. destruct (validate_entry s (∅, ∅) _) as [acc|] eqn:Hv; [|done].
  apply validate_entry_ok in Hv as (Hs & Hre & _). cbn [ae_kind ae_runID] in *.
  rewrite (li_starts _ Hi) in Hs, Hre. rewrite (re_events _ _ _ Hr). unfold starts_of in *. split.
  - rewrite omap_app. cbn. unfold start_of at 2. destruct (is_start (ev_Type e)).
    + apply NoDup_app. split; [apply (li_starts_once _ Hi)|]. specialize (Hs eq_refl). split; [|apply NoDup_singleton]. set_solver.
    + rewrite app_nil_r. apply (li_starts_once _ Hi).
  - intros i e' He' Hres. apply lookup_app_Some in He' as [He'|[Hle He']].
    + rewrite take_app_le by (apply lookup_lt_Some in He'; lia). by apply (li_resumes _ Hi).
    + destruct (i - length (s_events s))%nat as [|k] eqn:Hk; cbn in He'; [|by destruct k]. simplify_eq.
      rewrite take_app_ge, Hk by lia. cbn [take]. rewrite app_nil_r. specialize (Hre Hres). set_solver.
Qed.

(** The part about the usage ledger of one run. *)
Lemma log_inv_ledger s e s' run :
  log_inv s → restored s e s' →
  let en := entry_at (s_runIndex s') run in
  usage en = mk_tokens (sum_z (InputTokens <$> usages_of run (s_events s'))) (sum_z (OutputTokens <$> usages_of run (s_events s')))
  ∧ usage_bounded (usage en) ∧ usageIDs en = list_to_set (invocations_of run (s_events s'))
  ∧ NoDup (invocations_of run (s_events s')).
Proof.
  intros Hi Hr. cbn zeta. pose proof (re_entry _ _ _ Hr) as Hok. destruct (validate_entry s (∅, ∅) _) as [acc|] eqn:Hv; [|done].
  apply validate_entry_ok in Hv as (_ & _ & _ & Hu). cbn [ae_kind ae_runID ae_data ae_raw] in *.
  rewrite (re_runIndex _ _ _ Hr), (re_events _ _ _ Hr), entry_at_index, decode_DNil.
  unfold invocations_of, usages_of. rewrite !omap_app. cbn [omap list_omap]. unfold usage_of at 2 4 6 8. 
  pose proof (li_usage _ Hi run) as H1. pose proof (li_bounded _ Hi run) as H2. pose proof (li_ids _ Hi run) as H3.
  pose proof (li_ids_once _ Hi run) as H4. fold (usages_of run (s_events s)). fold (invocations_of run (s_events s)).
  destruct (decide (run = RunID e)) as [->|Hne].
  2: { rewrite bool_decide_eq_false_2 by done. by rewrite !app_nil_r. }
  rewrite bool_decide_eq_true_2 by done.
  destruct (index_entry_usage (entry_at (s_runIndex s) (RunID e)) (ev_Type e) (Seq e) (decode_payload (ev_Type e) (ev_Data e))) as [-> ->].
  destruct (ev_Type e) eqn:Et; try by rewrite !app_nil_r.
  rewrite decode_DNil in Hu. destruct (usage_data _) as [d|]; [|done].
  apply validateRunUsageLocked_ok in Hu as (Hid & Hin & Hout & _). rewrite lookup_empty in *.
  rewrite !fmap_app, !sum_z_app. destruct H2 as [H2 H2'].
  rewrite !wrap_int64_id by lia. rewrite H1 in *. cbn [tu_Input tu_Output] in *. rewrite H3 in *.
  split; [cbn; f_equal; lia|]. split; [split; cbn; lia|]. cbn. unfold invocation_of.
  destruct (InvocationID d) as [|c i] eqn:Ei; [cbn; by rewrite app_nil_r|].
  change (is_empty (String c i)) with false. cbn iota. split; [set_solver|].
  apply NoDup_app. split; [done|]. destruct Hid as [|Hid]; [done|]. split; [set_solver|apply NoDup_singleton].
Qed.

Lemma index_of_snoc events e : index_of (events ++ [e]) = indexEvent (index_of events) e DNil.
Proof. unfold index_of. by rewrite foldl_app. Qed.

Lemma log_inv_step s e s' : log_inv s → restored s e s' → log_inv s'.
Proof.
  intros Hi Hr. destruct (log_inv_order _ _ _ Hi Hr) as [Ho1 Ho2]. pose proof (λ run, log_inv_ledger _ _ _ run Hi Hr) as Hl. cbn zeta in Hl.
  pose proof (re_events _ _ _ Hr) as He.
  split; try done; try (intros run; by destruct (Hl run) as (? & ? & ? & ?)).
  - intros i e'. rewrite He. intros [H|[Hle H]]%lookup_app_Some; [by apply (li_seq _ Hi)|].
    destruct (i - length (s_events s))%nat as [|k] eqn:Hk; cbn in H; [|by destruct k]. simplify_eq.
    rewrite (re_seq _ _ _ Hr). unfold s_len. lia.
  - intros e'. rewrite He. intros [H| ->]%elem_of_snoc; [by apply (li_valid _ Hi)|apply Hr].
  - rewrite (s_len_snoc _ _ _ He). destruct (re_owner _ _ _ Hr) as [_ Hm]. unfold eventCap. rewrite Hm. apply Hr.
  - rewrite (re_runStarts _ _ _ Hr), He, (li_starts _ Hi). unfold starts_of. rewrite omap_app, list_to_set_app_L. cbn. unfold start_of at 3.
    destruct (is_start (ev_Type e)); cbn; set_solver.
  - by rewrite (re_runIndex _ _ _ Hr), He, index_of_snoc, (li_index _ Hi).
  - rewrite (re_summaries _ _ _ Hr), He, (li_summaries _ Hi), List.filter_app, length_app. cbn. destruct (is_summary e); cbn; lia.
Qed.

Lemma log_inv_empty s : s_events s = [] → s_runStarts s = ∅ → s_runIndex s = ∅ → s_summaryEvents s = 0 → log_inv s.
Proof.
  intros He Hs Hx Hm. assert (Hen : ∀ run, entry_at ∅ run = new_entry) by (intros; unfold entry_at; by rewrite lookup_empty).
  split; rewrite ?He, ?Hs, ?Hx, ?Hm; try done; try (intros run; rewrite Hen; split; cbn; unfold max_int64; lia);
    try (intros run; by rewrite Hen); try (intros; apply NoDup_nil_2); try apply NoDup_nil_2.
  - set_solver.
  - unfold s_len, eventCap. rewrite He. destruct (0 <? s_maxEvents s) eqn:E; bool_to_prop; cbn; unfold MaxSessionEvents; lia.
Qed.

(** ** Every reachable session is built by its log *)

Lemma perm_clone_idem g : perm_clone (perm_clone g) = perm_clone g.
Proof. unfold perm_clone. rewrite map_filter_filter. apply map_filter_ext. naive_solver. Qed.

Lemma NewSession_state o s :
  NewSession o = Ok s →
  s = mk_session (o_ID o) (o_ProfileID o) (clonePrincipal (o_Principal o)) (o_Scope o) (o_Metadata o) [] ∅ ∅ 0 0 0 0 [] true.
Proof.
  unfold NewSession. intros H. apply rbind_ok in H as (_ & _ & H). apply rbind_ok in H as (_ & _ & H).
  destruct (last _); [|done]. apply fail_if_ok in H as [_ H]. apply fail_if_ok in H as [_ H]. apply fail_if_ok in H as [_ H]. by simplify_eq.
Qed.

Lemma NewSession_again o s : NewSession o = Ok s → NewSession (options_of s) = Ok s.
Proof.
  intros H. pose proof (NewSession_state _ _ H) as Hs. subst s. revert H. unfold NewSession, options_of.
  cbn [s_id s_profileID s_principal s_scope s_metadata o_ID o_ProfileID o_Principal o_Scope o_Metadata].
  assert (clonePrincipal (clonePrincipal (o_Principal o)) = clonePrincipal (o_Principal o)) as ->
    by (unfold clonePrincipal; cbn [SubjectID TenantID p_Scope Grants Attributes]; by rewrite perm_clone_idem).
  done.
Qed.

Lemma restore_strip s e s' : restore_event s e = Ok s' → restore_event (strip s) e = Ok (strip s').
Proof.
  unfold restore_event. change (validateAppendLocked (strip s)) with (validateAppendLocked s).
  change (s_len (strip s)) with (s_len s). change (s_runStarts (strip s)) with (s_runStarts s).
  intros H. apply fail_if_ok in H as [-> H]. apply rbind_ok in H as (? & -> & H). apply rbind_ok in H as (? & -> & H).
  apply rbind_ok in H as (st & -> & H). by simplify_eq.
Qed.

Lemma restore_all_strip events : ∀ s s', rfold restore_event s events = Ok s' → rfold restore_event (strip s) events = Ok (strip s').
Proof.
  induction events as [|e events IH]; intros s s' H; cbn in H |- *; [by simplify_eq|].
  apply rbind_ok in H as (s1 & H1 & H2). rewrite (restore_strip _ _ _ H1). by apply IH.
Qed.

Lemma restore_all_events events : ∀ s s', rfold restore_event s events = Ok s' → s_events s' = s_events s ++ events ∧ same_owner s s'.
Proof.
  induction events as [|e events IH]; intros s s' H; cbn in H; [simplify_eq; by rewrite app_nil_r|].
  apply rbind_ok in H as (s1 & H1 & H2). destruct (IH _ _ H2) as [-> [? ?]].
  apply restore_event_ok in H1 as [? ? ? ? -> ? ? ? [? ?]]. rewrite <- app_assoc. split; [done|]. split; congruence.
Qed.

Lemma empty_of_owner s s' : same_owner s s' → empty_of s' = empty_of s.
Proof. unfold same_owner, options_of, empty_of. intros [H ?]. simplify_eq. congruence. Qed.

Lemma restore_log_built o events s : RestoreSession o events = Ok s → log_built s ∧ s_events s = events.
Proof.
  unfold RestoreSession. intros H. apply rbind_ok in H as (s0 & H0 & H). apply fail_if_ok in H as [_ H].
  pose proof (restore_all_events _ _ _ H) as [He Ho]. cbn in He. split; [|done].
  pose proof (NewSession_again _ _ H0) as Hn. pose proof (NewSession_state _ _ H0) as Hs0.
  pose proof (empty_of_owner _ _ Ho) as Hem. destruct Ho as [Ho Hm]. split; [|split].
  - exists s0. rewrite Ho. by split.
  - rewrite Hm. by subst s0.
  - rewrite Hem, He. apply restore_all_strip in H. exact H.
Qed.

Lemma log_built_inv s : log_built s → log_inv s.
Proof.
  intros (_ & _ & H). assert (log_inv (strip s)) as Hi.
  { eapply rfold_invariant; [|clear H; intros s1 e s2 _ Hi He|exact H].
    - by apply log_inv_empty.
    - eapply log_inv_step; [exact Hi|by apply restore_event_ok]. }
  destruct Hi. by split.
Qed.

Lemma prepare_all_spec entries ps :
  prepare_all entries = Ok ps → forallb entry_stable entries = true → Forall readable ps.
Proof.
  revert ps. induction entries as [|e entries IH]; intros ps H Hs; cbn in *; [by simplify_eq|].
  apply rbind_ok in H as (p & Hp & H). apply rbind_ok in H as (ps' & Hps & H). simplify_eq. bool_to_prop.
  constructor; [by apply prepare_entry_spec with e|by apply IH].
Qed.

Lemma append_log_built clock s entries s' events :
  log_built s → forallb entry_stable entries = true → appendBatch clock s entries = Ok (s', events) → log_built s'.
Proof.
  intros Hb Hs H. pose proof (log_built_inv _ Hb) as Hi. destruct Hb as (Hn & Hm & Hr).
  unfold appendBatch in H. apply fail_if_ok in H as [_ H]. apply rbind_ok in H as (ps & Hp & H).
  apply rbind_ok in H as ([] & Hv & H). simplify_eq. apply prepare_all_spec in Hp; [|done].
  unfold validateAppendLocked in Hv. apply fail_if_ok in Hv as [Hc Hv]. apply rbind_ok in Hv as (acc & Hv & _). bool_to_prop.
  pose proof (commit_all_owner clock ps s) as Ho. pose proof (empty_of_owner _ _ Ho) as Hem. destruct Ho as [Ho Hm'].
  destruct (batch_restores clock s ps s (∅, ∅) acc (batch_sim_refl s (li_bounded _ Hi)) Hp Hv Hc) as [Hb _].
  split; [by rewrite Ho|]. split; [by rewrite Hm'|].
  rewrite commit_all_events, Hem, rfold_app, Hr. cbn [rbind]. exact Hb.
Qed.

Lemma reach_log_built s : reach s → log_built s.
Proof.
  induction 1 as [o s H|o events s H|clock s entries s' events _ IH Hs H|s _ IH].
  - pose proof (NewSession_again _ _ H) as Hn. apply NewSession_state in H as ->. split; [eexists; split; [exact Hn|done]|done].
  - by apply restore_log_built in H as [H _].
  - by eapply append_log_built.
  - unfold DeriveMessages. repeat case_match; try done; exact IH.
Qed.

Lemma reach_log_inv s : reach s → log_inv s.
Proof. intros H. by apply log_built_inv, reach_log_built. Qed.

(** ** Clone *)

Lemma restore_event_proj s e s1 :
  restore_event (strip s) e = Ok s1 → ∃ s', restore_event s e = Ok s' ∧ s1 = strip s'.
Proof.
  unfold restore_event. change (validateAppendLocked (strip s)) with (validateAppendLocked s).
  change (s_len (strip s)) with (s_len s). change (s_runStarts (strip s)) with (s_runStarts s).
  intros H. apply fail_if_ok in H as [-> H]. apply rbind_ok in H as (? & -> & H). apply rbind_ok in H as (? & -> & H).
  apply rbind_ok in H as (st & -> & H). simplify_eq. by eexists.
Qed.

Lemma restore_all_proj events : ∀ s s1,
  rfold restore_event (strip s) events = Ok s1 → ∃ s', rfold restore_event s events = Ok s' ∧ s1 = strip s'.
Proof.
  induction events as [|e events IH]; intros s s1 H; cbn in H |- *; [simplify_eq; by exists s|].
  apply rbind_ok in H as (s2 & H1 & H2). apply restore_event_proj in H1 as (s' & -> & ->). by apply IH.
Qed.

Lemma log_built_clone s : log_built s → ∃ s', Clone s = Ok s' ∧ strip s' = strip s.
Proof.
  intros Hb. pose proof (li_cap _ (log_built_inv _ Hb)) as Hcap. destruct Hb as ((s0 & Hn & Ho) & Hm & Hr).
  unfold Clone, RestoreSession. rewrite Hn. cbn [rbind].
  assert (s_maxEvents s0 = 0) as Hm0 by (by rewrite (NewSession_state _ _ Hn)).
  assert (eventCap s0 <? Z.of_nat (length (s_events s)) = false) as ->.
  { apply Z.ltb_ge. unfold eventCap in Hcap |- *. rewrite Hm in Hcap. rewrite Hm0. exact Hcap. }
  cbn [fail_if]. set (base := mk_session _ _ _ _ _ _ _ _ _ _ _ _ _ _).
  assert (empty_of s = strip base) as Heq.
  { change (strip base) with (empty_of s0). symmetry. apply empty_of_owner. split; [done|]. congruence. }
  rewrite Heq in Hr. destruct (restore_all_proj _ _ _ Hr) as (s' & -> & Hs'). by exists s'.
Qed.
