(* ===== verification/SessionClaims.v ===== *)
(** * What the session log guarantees

    The properties of [src/pkg/core/session.go] that its callers rely on:
    atomic append-only batches, one start per run id, an exact usage ledger
    that cannot overflow, and a log from which the session is rebuilt. *)
From S2P Require Import Prelude GoString Json Scope Sha256 GoTime Principal Payload Events Message Session Projection SessionLog.
From stdpp Require Import gmap strings list sorting.
From Stdlib Require Import ZArith Lia Ascii.
Open Scope Z_scope.

(** ** Example session, used by the witnesses *)

Definition ex_scope : ScopePath := mk_path [mk_ref ScopeTenant "acme"; mk_ref ScopeSession "s1"].
Definition ex_options : SessionOptions :=
  mk_options "s1" "default" (mk_principal "ann" "acme" (mk_path [mk_ref ScopeTenant "acme"]) ∅ ∅) ex_scope ∅.
Definition ex_now : string := "2026-01-02T03:04:05Z".
Definition ex_clock : Z → string := λ _, ex_now.
Definition ex_call : ToolCall := mk_call "call-1" "files.read" ∅ "".
Definition ex_request : ApprovalRequestedData := mk_areq "apr_0123456789abcdef0123456789abcdef" ex_call ex_call [] 0 false ex_now.
Definition ex_entries : list sessionAppendEntry :=
  [append_entry "r1" EvRunStart (DRunStart zero_start);
   append_entry "r1" EvUserMessage (DUserMessage (mk_user "hello"));
   append_entry "r1" EvRunUsage (DRunUsage (mk_usage 7 3 "model:2"));
   append_entry "r1" EvAssistantMessage (DAssistantMessage (mk_assistant "calling" (Some ex_call) [ex_call]));
   append_entry "r1" EvToolCall (DToolCall (mk_tcall "call-1" "files.read" ∅));
   append_entry "r1" EvToolResult (DToolResult (mk_tresult "call-1" "first" true ∅));
   append_entry "r1" EvRunUsage (DRunUsage (mk_usage 5 1 "model:6"));
   append_entry "r1" EvApprovalRequested (DApprovalRequested ex_request)].
Definition ex_new : Session :=
  mk_session "s1" "default" (mk_principal "ann" "acme" (mk_path [mk_ref ScopeTenant "acme"]) ∅ ∅) ex_scope ∅ [] ∅ ∅ 0 0 0 0 [] true.
Definition ex_session : Session :=
  match appendBatch ex_clock ex_new ex_entries with Ok (s, _) => s | Err _ => ex_new end.
Definition ex_events : list SessionEvent := s_events ex_session.

Lemma ex_new_reach : reach ex_new.
Proof. apply (reach_new ex_options). vm_compute. reflexivity. Qed.
Lemma ex_append : appendBatch ex_clock ex_new ex_entries = Ok (ex_session, ex_events).
Proof. vm_compute. reflexivity. Qed.
Lemma ex_session_reach : reach ex_session.
Proof. eapply reach_append; [apply ex_new_reach| |apply ex_append]. vm_compute. reflexivity. Qed.

(** ** Append *)

Lemma prepare_all_lookup entries ps i entry :
  prepare_all entries = Ok ps → entries !! i = Some entry →
  ∃ p, ps !! i = Some p ∧ prepare_entry entry = Ok p.
Proof.
  revert ps i. induction entries as [|e entries IH]; intros ps i H Hi; cbn in H; [done|].
  apply rbind_ok in H as (p & Hp & H). apply rbind_ok in H as (ps' & Hps & H). simplify_eq.
  destruct i as [|i]; cbn in *; [simplify_eq; eauto|]. by apply IH.
Qed.

Lemma prepare_all_length entries ps : prepare_all entries = Ok ps → length ps = length entries.
Proof.
  revert ps. induction entries as [|e entries IH]; intros ps H; cbn in H; [by simplify_eq|].
  apply rbind_ok in H as (p & Hp & H). apply rbind_ok in H as (ps' & Hps & H). simplify_eq. cbn. by rewrite (IH ps').
Qed.

Lemma batch_events_length clock ps n : length (batch_events clock n ps) = length ps.
Proof. revert n. induction ps as [|p ps IH]; intros n; cbn; [done|]. by rewrite IH. Qed.

Lemma batch_events_lookup clock ps n i p :
  ps !! i = Some p →
  batch_events clock n ps !! i =
    Some (mk_event (n + Z.of_nat i) (clock (n + Z.of_nat i)) (ae_runID p) (ae_kind p) (ae_raw p)).
Proof.
  revert n i. induction ps as [|q ps IH]; intros n i H; [done|].
  destruct i as [|i]; [cbn in H |- *; simplify_eq; by rewrite Z.add_0_r|].
  etrans; [apply (IH (n + 1) i H)|]. by replace (n + 1 + Z.of_nat i) with (n + Z.of_nat (S i)) by lia.
Qed.

Lemma appendBatch_ok clock s entries s' events :
  appendBatch clock s entries = Ok (s', events) →
  ∃ ps, prepare_all entries = Ok ps ∧ validateAppendLocked s ps = Ok tt
  ∧ s' = foldl (commit_entry clock) s ps ∧ events = batch_events clock (s_len s) ps
  ∧ s_events s' = s_events s ++ events.
Proof.
  unfold appendBatch. intros H. apply fail_if_ok in H as [_ H]. apply rbind_ok in H as (ps & Hp & H).
  apply rbind_ok in H as ([] & Hv & H). simplify_eq. exists ps.
  rewrite commit_all_events, drop_app_length. done.
Qed.

(** [appendBatch] is all-or-nothing and append-only: when it succeeds the
    old events are a prefix of the new log, the batch contributes exactly one
    event per entry, in order, numbered consecutively from the old version and
    stamped by the clock, each carrying the entry's run, type and (read back
    from its JSON) typed payload and passing the validation of a stored event;
    the version grows by the batch length and stays within the event cap, and
    the session's identity is untouched.  (On an error no session is
    returned: the caller keeps the old one.) *)
Theorem append_is_atomic clock s entries s' events :
  reach s → forallb entry_stable entries = true → appendBatch clock s entries = Ok (s', events) →
  s_events s' = s_events s ++ events
  ∧ Version s' = Version s + Z.of_nat (length entries) ∧ Version s' ≤ eventCap s ∧ options_of s' = options_of s
  ∧ (∀ i entry, entries !! i = Some entry →
      ∃ e, events !! i = Some e ∧ Seq e = Version s + Z.of_nat i ∧ ev_Time e = clock (Seq e)
      ∧ RunID e = ae_runID entry ∧ ev_Type e = ae_kind entry
      ∧ validateSessionEvent (RunID e) (ev_Type e) (ev_Data e) = Ok tt
      ∧ (kind_matches (ae_kind entry) (ae_data entry) = true → decode_payload (ev_Type e) (ev_Data e) = Some (ae_data entry))).
Proof.
  intros Hr Hs H. pose proof (reach_log_inv _ (reach_append _ _ _ _ _ Hr Hs H)) as Hi.
  apply appendBatch_ok in H as (ps & Hp & Hv & -> & -> & He).
  destruct (commit_all_owner clock ps s) as [Ho Hm].
  pose proof (li_cap _ Hi) as Hcap. unfold eventCap in Hcap |- *. rewrite Hm in Hcap.
  split; [exact He|]. split.
  { unfold Version, s_len. rewrite He, length_app, batch_events_length, (prepare_all_length _ _ Hp). lia. }
  split; [exact Hcap|]. split; [exact Ho|]. intros i entry Hent.
  destruct (prepare_all_lookup _ _ _ _ Hp Hent) as (p & Hpi & Hpe).
  pose proof (batch_events_lookup clock ps (s_len s) i p Hpi) as Hbe.
  assert (entry_stable entry = true) as Hst by (eapply forallb_forall in Hs; [exact Hs|]; apply list_elem_of_In; by eapply list_elem_of_lookup_2).
  destruct (prepare_entry_spec _ _ Hpe Hst) as [Hval Hdat]. destruct (prepare_entry_same _ _ Hpe) as (Hr1 & Hk & Hd).
  eexists. split; [exact Hbe|]. cbn [Seq ev_Time RunID ev_Type ev_Data]. repeat split; try done.
  intros Hkm. rewrite <- Hdat. unfold eventData. rewrite Hk, Hd. by rewrite Hkm.
Qed.

(** A run id starts at most once in a session and is resumed only after
    its start. *)
Theorem runs_start_once s :
  reach s →
  (∀ i j ei ej, s_events s !! i = Some ei → s_events s !! j = Some ej →
     ev_Type ei = EvRunStart → ev_Type ej = EvRunStart → RunID ei = RunID ej → i = j)
  ∧ (∀ i e, s_events s !! i = Some e → ev_Type e = EvRunResume →
     ∃ j ej, (j < i)%nat ∧ s_events s !! j = Some ej ∧ ev_Type ej = EvRunStart ∧ RunID ej = RunID e).
Proof.
  intros Hr. pose proof (reach_log_inv _ Hr) as Hi. split.
  - intros i j ei ej H1 H2 T1 T2 Heq. pose proof (li_starts_once _ Hi) as Hn. revert Hn.
    generalize (s_events s) as l, H1, H2. clear - T1 T2 Heq. intros l H1 H2 Hn.
    revert i j H1 H2. induction l as [|x l IH]; intros i j H1 H2; [done|].
    assert (∀ k e, l !! k = Some e → ev_Type e = EvRunStart → RunID e ∈ starts_of l) as Hmem.
    { intros k e Hk Ht. apply list_elem_of_omap. exists e. split; [by eapply list_elem_of_lookup_2|]. unfold start_of. by rewrite Ht. }
    unfold starts_of in Hn, IH. cbn in Hn. unfold start_of in Hn at 1.
    destruct i as [|i], j as [|j]; cbn in H1, H2; [done|..]; simplify_eq.
    + rewrite T1 in Hn. cbn in Hn. apply NoDup_cons in Hn as [Hn _]. destruct Hn. rewrite Heq. by eapply Hmem.
    + rewrite T2 in Hn. cbn in Hn. apply NoDup_cons in Hn as [Hn _]. destruct Hn. rewrite <- Heq. by eapply Hmem.
    + f_equal. apply IH; [|done..]. destruct (is_start _); [by apply NoDup_cons in Hn as [_ Hn]|done].
  - intros i e He Ht. pose proof (li_resumes _ Hi i e He) as Hres. rewrite Ht in Hres. specialize (Hres eq_refl).
    apply list_elem_of_omap in Hres as (ej & Hej & Hs). apply list_elem_of_lookup in Hej as (j & Hj).
    apply lookup_take_Some in Hj as [Hj Hlt]. unfold start_of in Hs. destruct (is_start (ev_Type ej)) eqn:Hst; [|done].
    exists j, ej. split; [done|]. split; [done|]. split; [by destruct (ev_Type ej)|]. by simplify_eq.
Qed.

(** C29. The usage ledger of a run is exact: [runUsageTotal] is the sum of the
    run's usage events, its [int64] totals never overflow, and no two usage
    events of a run carry the same invocation id, so no model call is billed
    twice. *)
Theorem usage_is_exact s run :
  reach s →
  runUsageTotal s run = mk_tokens (sum_z (InputTokens <$> usages_of run (s_events s))) (sum_z (OutputTokens <$> usages_of run (s_events s)))
  ∧ 0 ≤ tu_Input (runUsageTotal s run) ≤ max_int64 ∧ 0 ≤ tu_Output (runUsageTotal s run) ≤ max_int64
  ∧ NoDup (invocations_of run (s_events s)).
Proof.
  intros Hr. pose proof (reach_log_inv _ Hr) as Hi. unfold runUsageTotal.
  split; [apply (li_usage _ Hi)|]. destruct (li_bounded _ Hi run). split; [done|]. split; [done|]. apply (li_ids_once _ Hi).
Qed.

(** The log is the whole state: cloning a reachable session, which
    restores and re-validates its events from their stored JSON, succeeds and
    gives the same identity, events, run starts, run index and summary count
    (everything but the message cache). *)
Theorem clone_rebuilds_the_session s :
  reach s → ∃ s', Clone s = Ok s' ∧ strip s' = strip s ∧ reach s'.
Proof.
  intros Hr. destruct (log_built_clone _ (reach_log_built _ Hr)) as (s' & H & Heq).
  exists s'. split; [done|]. split; [done|]. by apply (reach_restore (options_of s) (s_events s)).
Qed.

(** ** Witnesses *)

Lemma append_is_atomic_witness :
  ∃ e, ex_events !! 5%nat = Some e ∧ Seq e = 5
  ∧ decode_payload (ev_Type e) (ev_Data e) = Some (DToolResult (mk_tresult "call-1" "first" true ∅)).
Proof.
  destruct (append_is_atomic ex_clock ex_new ex_entries ex_session ex_events) as (_ & _ & _ & _ & H);
    [exact ex_new_reach|vm_compute; reflexivity|exact ex_append|].
  destruct (H 5%nat _ eq_refl) as (e & He & Hq & _ & _ & _ & _ & Hd). exists e.
  split; [exact He|]. split; [exact Hq|apply Hd; reflexivity].
Defined.

Definition ex_resumed : Session :=
  match Append ex_clock ex_session "r1" EvRunResume (DRunResume zero_start) with Ok (s, _) => s | Err _ => ex_session end.

Lemma runs_start_once_witness :
  ∃ j ej, (j < 8)%nat ∧ s_events ex_resumed !! j = Some ej ∧ ev_Type ej = EvRunStart ∧ RunID ej = "r1".
Proof.
  destruct (runs_start_once ex_resumed) as [_ H].
  - eapply (reach_append ex_clock ex_session [append_entry "r1" EvRunResume (DRunResume zero_start)]);
      [exact ex_session_reach|vm_compute; reflexivity|vm_compute; reflexivity].
  - apply (H 8%nat (mk_event 8 ex_now "r1" EvRunResume (marshal (start_to_json zero_start)))); vm_compute; reflexivity.
Defined.

Lemma usage_is_exact_witness : runUsageTotal ex_session "r1" = mk_tokens 12 4.
Proof.
  destruct (usage_is_exact ex_session "r1" ex_session_reach) as (H & _). rewrite H. vm_compute. reflexivity.
Defined.

Lemma clone_rebuilds_the_session_witness : ∃ s', Clone ex_session = Ok s' ∧ strip s' = strip ex_session.
Proof.
  destruct (clone_rebuilds_the_session ex_session ex_session_reach) as (s' & H & Hs & _). exists s'. split; [exact H|exact Hs].
Defined.
