(* ===== verification/SessionQueries.v ===== *)
(** * What the session queries answer

    [RunStatus], [PendingApproval] and [ToolResult] of
    [src/pkg/core/session.go] read the incremental run index; here each answer
    is characterised on the event log alone. *)
From S2P Require Import Prelude GoString Json Scope Sha256 GoTime Principal Payload Events Message Session Projection SessionLog SessionClaims.
From stdpp Require Import gmap strings list sorting.
From Stdlib Require Import ZArith Lia Ascii.
Open Scope Z_scope.

(** ** What one event says about a run *)

Definition of_run {A} (run : string) (f : SessionEventType → option EventData → option A) (e : SessionEvent) : option A :=
  if decide (run = RunID e) then f (ev_Type e) (decode_payload (ev_Type e) (ev_Data e)) else None.

(** The approval an event requests or resolves, the status an event ends the
    run with, and the tool result it records. *)
Definition requests (run : string) : SessionEvent → option string :=
  of_run run (λ t d, match t, d with EvApprovalRequested, Some (DApprovalRequested d) => Some (ar_ApprovalID d) | _, _ => None end).
Definition resolves (run : string) : SessionEvent → option string :=
  of_run run (λ t d, match t, d with EvApprovalResolved, Some (DApprovalResolved d) => Some (av_ApprovalID d) | _, _ => None end).
Definition ends (run : string) : SessionEvent → option string :=
  of_run run (λ t d, match t, d with EvRunEnd, Some (DRunEnd d) => Some (Status d) | _, _ => None end).
Definition records (run : string) : SessionEvent → option ToolResultData :=
  of_run run (λ t d, match t, d with EvToolResult, Some (DToolResult d) => Some d | _, _ => None end).
Definition starts (run : string) : SessionEvent → bool := λ e, bool_decide (start_of e = Some run).

(** An approval is open when it is requested and neither requested again nor
    resolved later; [seq] is the position of the request. *)
Definition open_at (run : string) (events : list SessionEvent) (id : string) (seq : nat) : Prop :=
  ∃ e, events !! seq = Some e ∧ requests run e = Some id
  ∧ ∀ j e', (seq < j)%nat → events !! j = Some e' → requests run e' ≠ Some id ∧ resolves run e' ≠ Some id.

(** The status a run ended with: the first run/end counts; a run/start recorded
    after it clears the text (the log validation does not require the start to
    come first). *)
Fixpoint end_status (run : string) (events : list SessionEvent) : option string :=
  match events with
  | [] => None
  | e :: events =>
    match ends run e with
    | Some st => Some (if existsb (starts run) events then "" else st)
    | None => end_status run events
    end
  end.

(** ** One indexing step, seen from a run *)

Lemma indexed_fields index e run :
  let en := entry_at index run in
  let en' := entry_at (indexEvent index e DNil) run in
  pending en' = match requests run e, resolves run e with
                | Some id, _ => <[id := Seq e]> (pending en) | None, Some id => delete id (pending en) | None, None => pending en end
  ∧ ended en' = ended en || bool_decide (is_Some (ends run e))
  ∧ ri_status en' = (if starts run e then "" else
                     match ends run e with Some st => if ended en then ri_status en else st | None => ri_status en end)
  ∧ started en' = started en || starts run e
  ∧ toolResults en' = match records run e with
                      | Some d => match toolResults en !! tr_CallID d with
                                  | Some _ => toolResults en | None => <[tr_CallID d := Seq e]> (toolResults en) end
                      | None => toolResults en end.
Proof.
  cbn zeta. rewrite entry_at_index, decode_DNil. unfold requests, resolves, ends, records, starts, of_run, start_of.
  destruct (decide (run = RunID e)) as [->|Hne].
  2: { assert (bool_decide ((if is_start (ev_Type e) then Some (RunID e) else None) = Some run) = false) as ->
         by (apply bool_decide_eq_false_2; destruct (is_start (ev_Type e)); congruence).
       cbn. by rewrite !orb_false_r. }
  destruct (ev_Type e) eqn:Et; cbn [is_start];
    rewrite ?(bool_decide_eq_true_2 (Some (RunID e) = Some (RunID e)) eq_refl), ?orb_true_r, ?orb_false_r;
    destruct (decode_payload _ _) as [[]|]; cbn; rewrite ?orb_false_r; repeat split; try done;
    destruct (ended (entry_at index (RunID e))) eqn:Ee; cbn; rewrite ?Ee; done.
Qed.

(** Every event of a reachable log that has a payload kind decodes to it. *)
Lemma reach_decodes s e : log_inv s → e ∈ s_events s → is_Some (decode_payload (ev_Type e) (ev_Data e)).
Proof.
  intros Hi He. pose proof (li_valid _ Hi e He) as Hv. unfold validateSessionEvent in Hv.
  apply rbind_ok in Hv as (_ & _ & Hv). do 3 apply fail_if_ok in Hv as [_ Hv].
  destruct (decode_payload _ _); [by eexists|done].
Qed.

(** Induction over the log with its index and numbering. *)
Definition numbered (events : list SessionEvent) : Prop := ∀ i e, events !! i = Some e → Seq e = Z.of_nat i.

Lemma numbered_snoc events e : numbered (events ++ [e]) → numbered events ∧ Seq e = Z.of_nat (length events).
Proof.
  intros H. split.
  - intros i x Hx. apply H. by apply lookup_app_l_Some.
  - apply H. rewrite lookup_app_r, Nat.sub_diag by lia. done.
Qed.

Lemma lookup_last_Some {A} (l : list A) x i y :
  (l ++ [x]) !! i = Some y ↔ l !! i = Some y ∨ (i = length l ∧ y = x).
Proof.
  rewrite lookup_app_Some. split.
  - intros [H|[Hle H]]; [by left|]. right. destruct (i - length l)%nat as [|k] eqn:Hk; cbn in H; [|by destruct k].
    simplify_eq. split; [lia|done].
  - intros [H|[-> ->]]; [by left|]. right. split; [lia|]. by rewrite Nat.sub_diag.
Qed.

Lemma requests_not_resolves run e id : requests run e = Some id → resolves run e = None.
Proof. unfold requests, resolves, of_run. case_decide; [|done]. destruct (ev_Type e); cbv beta iota; try done; by destruct (decode_payload _ _) as [[]|]. Qed.

(** The pending map holds exactly the open approvals, at their positions. *)
Lemma pending_spec run id seq events :
  numbered events →
  pending (entry_at (index_of events) run) !! id = Some seq ↔ ∃ n, seq = Z.of_nat n ∧ open_at run events id n.
Proof.
  revert seq. induction events as [|e events IH] using rev_ind; intros seq Hn.
  { unfold index_of, entry_at; cbn. rewrite lookup_empty. cbn. split; [by rewrite lookup_empty|]. by intros (n & _ & e & ? & _). }
  apply numbered_snoc in Hn as [Hn Hseq]. specialize (λ seq, IH seq Hn).
  rewrite index_of_snoc. destruct (indexed_fields (index_of events) e run) as [-> _].
  assert (Hnew : ∀ n, open_at run (events ++ [e]) id n ↔
            (n = length events ∧ requests run e = Some id)
            ∨ (requests run e ≠ Some id ∧ resolves run e ≠ Some id ∧ open_at run events id n)).
  { intros n. unfold open_at. setoid_rewrite lookup_last_Some. split.
    - intros (x & [Hx|[-> ->]] & Hrq & Hlater); [right|by left].
      pose proof (lookup_lt_Some _ _ _ Hx) as Hlt.
      destruct (Hlater (length events) e ltac:(lia) (or_intror (conj eq_refl eq_refl))) as [? ?].
      split; [done|]. split; [done|]. exists x. split; [done|]. split; [done|]. intros j e' ? ?. eapply Hlater; [done|by left].
    - intros [[-> Hrq]|(Hnr & Hns & x & Hx & Hrq & Hlater)].
      + exists e. split; [by right|]. split; [done|]. intros j e' Hj [Hl|[-> _]]; [|lia]. apply lookup_lt_Some in Hl. lia.
      + exists x. split; [by left|]. split; [done|]. intros j e' Hj [Hl|[-> ->]]; [by eapply Hlater|done]. }
  setoid_rewrite Hnew. destruct (requests run e) as [id'|] eqn:Erq.
  - rewrite (requests_not_resolves _ _ _ Erq). rewrite lookup_insert. destruct (decide (id' = id)) as [->|Hne].
    + split; [intros [= <-]; exists (length events); by rewrite Hseq; eauto|].
      intros (n & -> & [[-> _]|(? & _)]); [by rewrite Hseq|done].
    + rewrite IH. split; [intros (n & -> & Ho); exists n; split; [done|right; naive_solver]|].
      intros (n & -> & [[_ ?]|(_ & _ & Ho)]); [naive_solver|by exists n].
  - destruct (resolves run e) as [id'|] eqn:Ers.
    + destruct (decide (id' = id)) as [->|Hne].
      * rewrite lookup_delete_eq. split; [done|]. intros (n & _ & [[_ ?]|(_ & ? & _)]); done.
      * rewrite lookup_delete_ne, IH by done. split; [intros (n & -> & Ho); exists n; split; [done|right; naive_solver]|].
        intros (n & -> & [[_ ?]|(_ & _ & Ho)]); [naive_solver|by exists n].
    + rewrite IH. split; [intros (n & -> & Ho); exists n; split; [done|right; naive_solver]|].
      intros (n & -> & [[_ ?]|(_ & _ & Ho)]); [naive_solver|by exists n].
Qed.

(** [first_at]: the position of the first event recording a result of a call. *)
Definition first_at (run : string) (events : list SessionEvent) (call : string) (n : nat) : Prop :=
  ∃ e d, events !! n = Some e ∧ records run e = Some d ∧ tr_CallID d = call
  ∧ ∀ j e' d', (j < n)%nat → events !! j = Some e' → records run e' = Some d' → tr_CallID d' ≠ call.

Lemma first_at_snoc run events e call n :
  first_at run (events ++ [e]) call n ↔
  first_at run events call n
  ∨ (n = length events ∧ (∃ d, records run e = Some d ∧ tr_CallID d = call) ∧ ∀ m, ¬ first_at run events call m).
Proof.
  assert (Hex : (∀ m, ¬ first_at run events call m) → ∀ j e' d', events !! j = Some e' → records run e' = Some d' → tr_CallID d' ≠ call).
  { intros Hno j. induction j as [j IHj] using lt_wf_ind. intros e' d' Hj Hr Heq. apply (Hno j). exists e', d'.
    split; [done|]. split; [done|]. split; [done|]. intros k e2 d2 Hk. by apply IHj. }
  unfold first_at at 1. setoid_rewrite lookup_last_Some. split.
  - intros (x & d & [Hx|[-> ->]] & Hr & Hc & Hbefore).
    + left. exists x, d. naive_solver.
    + right. split; [done|]. split; [by exists d|]. intros m (x & d' & Hx & Hr' & Hc' & _).
      eapply Hbefore; [|by left|done|done]. by eapply lookup_lt_Some.
  - intros [(x & d & Hx & Hr & Hc & Hbefore)|(-> & (d & Hr & Hc) & Hno)].
    + exists x, d. split; [by left|]. split; [done|]. split; [done|]. intros j e' d' Hj [Hl|[-> _]]; [by eapply Hbefore|].
      apply lookup_lt_Some in Hx. lia.
    + exists e, d. split; [by right|]. split; [done|]. split; [done|]. intros j e' d' Hj [Hl|[-> _]]; [by eapply Hex|lia].
Qed.

Lemma toolResults_spec run call seq events :
  numbered events →
  toolResults (entry_at (index_of events) run) !! call = Some seq ↔ ∃ n, seq = Z.of_nat n ∧ first_at run events call n.
Proof.
  revert seq. induction events as [|e events IH] using rev_ind; intros seq Hn.
  { unfold index_of, entry_at; cbn. rewrite lookup_empty. cbn. split; [by rewrite lookup_empty|]. by intros (n & _ & e & d & ? & _). }
  apply numbered_snoc in Hn as [Hn Hseq]. specialize (λ seq, IH seq Hn).
  rewrite index_of_snoc. destruct (indexed_fields (index_of events) e run) as (_ & _ & _ & _ & ->).
  setoid_rewrite first_at_snoc.
  destruct (records run e) as [d|] eqn:Er; [|rewrite IH; split; [naive_solver|naive_solver]].
  destruct (decide (tr_CallID d = call)) as [<-|Hne].
  - destruct (toolResults _ !! tr_CallID d) as [old|] eqn:Eo.
    + rewrite Eo. pose proof (proj1 (IH old) eq_refl) as (m & Hm & Hfm). split.
      * intros [= <-]. exists m. split; [done|by left].
      * intros (n & -> & [Hf|(_ & _ & Hno)]); [|by destruct (Hno m)]. apply IH. by exists n.
    + rewrite lookup_insert_eq. split.
      * intros [= <-]. exists (length events). split; [done|]. right. split; [done|]. split; [by exists d|].
        intros m Hf. assert (None = Some (Z.of_nat m)) as ?; [|done]. apply IH. by exists m.
      * intros (n & -> & [Hf|(-> & _ & _)]); [|by rewrite Hseq].
        assert (None = Some (Z.of_nat n)) as ?; [|done]. apply IH. by exists n.
  - assert (∀ n, (n = length events ∧ (∃ d0, Some d = Some d0 ∧ tr_CallID d0 = call) ∧ (∀ m, ¬ first_at run events call m)) → False) as Hx by naive_solver.
    destruct (toolResults _ !! tr_CallID d) as [old|]; [|rewrite lookup_insert_ne by done]; rewrite IH; naive_solver.
Qed.

Lemma end_status_snoc run events e :
  end_status run (events ++ [e]) =
  match end_status run events with
  | Some st => Some (if starts run e then "" else st)
  | None => ends run e
  end.
Proof.
  induction events as [|x events IH]; cbn.
  - by destruct (ends run e).
  - destruct (ends run x); [|done]. rewrite existsb_app. cbn. rewrite orb_false_r.
    destruct (existsb (starts run) events), (starts run e); done.
Qed.

Lemma ends_not_starts run e st : ends run e = Some st → starts run e = false.
Proof.
  unfold ends, starts, of_run, start_of. case_decide; [|done]. destruct (ev_Type e); cbn; done.
Qed.

Lemma status_spec run events :
  let en := entry_at (index_of events) run in
  ended en = bool_decide (is_Some (end_status run events))
  ∧ (∀ st, end_status run events = Some st → ri_status en = st)
  ∧ started en = existsb (starts run) events.
Proof.
  induction events as [|e events (IH1 & IH2 & IH3)] using rev_ind; cbn zeta.
  { unfold index_of, entry_at; cbn. rewrite lookup_empty. done. }
  rewrite index_of_snoc. destruct (indexed_fields (index_of events) e run) as (_ & -> & -> & -> & _).
  rewrite end_status_snoc, IH1, IH3, existsb_app. cbn. rewrite orb_false_r.
  destruct (end_status run events) as [st0|] eqn:E.
  - rewrite bool_decide_eq_true_2 by done. split; [symmetry; by apply bool_decide_eq_true_2|]. split; [|done].
    intros st [= <-]. destruct (starts run e); [done|]. rewrite (IH2 _ eq_refl). by destruct (ends run e).
  - split; [done|]. split; [|done]. intros st Hst. by rewrite Hst, (ends_not_starts _ _ _ Hst).
Qed.

Lemma latest_pending_spec (m : gmap string Z) :
  (∀ id seq, m !! id = Some seq → seq ≤ latest_pending m) ∧ -1 ≤ latest_pending m
  ∧ (latest_pending m = -1 ∨ ∃ id, m !! id = Some (latest_pending m)).
Proof.
  unfold latest_pending. apply (map_fold_weak_ind (λ b m, (∀ id seq, m !! id = Some seq → seq ≤ b) ∧ -1 ≤ b
                                                ∧ (b = -1 ∨ ∃ id, m !! id = Some b))).
  - split; [intros id seq; by rewrite lookup_empty|]. split; [lia|by left].
  - clear m. intros id seq m b Hid (Hub & Hlb & Hex). destruct (b <? seq) eqn:E; bool_to_prop.
    + split; [|split; [lia|right; exists id; by rewrite lookup_insert_eq]].
      intros id' seq'. rewrite lookup_insert. case_decide; [intros [= <-]; lia|]. intros H'. specialize (Hub _ _ H'). lia.
    + split; [|split; [lia|]].
      * intros id' seq'. rewrite lookup_insert. case_decide; [by intros [= <-]|]. apply Hub.
      * destruct Hex as [|(id' & H')]; [by left|]. right. exists id'. rewrite lookup_insert_ne; [done|congruence].
Qed.

Lemma reach_numbered s : log_inv s → numbered (s_events s).
Proof. intros Hi i e. apply (li_seq _ Hi). Qed.

Lemma entry_present s run :
  s_runIndex s !! run = None → entry_at (s_runIndex s) run = new_entry.
Proof. unfold entry_at. by intros ->. Qed.

Lemma records_decode run e d : records run e = Some d → decode_payload EvToolResult (ev_Data e) = Some (DToolResult d).
Proof.
  unfold records, of_run. case_decide; [|done]. destruct (ev_Type e); try done. destruct (decode_payload _ _) as [[]|]; naive_solver.
Qed.

Lemma requests_decode run e id :
  requests run e = Some id → ∃ d, decode_payload EvApprovalRequested (ev_Data e) = Some (DApprovalRequested d) ∧ ar_ApprovalID d = id.
Proof.
  unfold requests, of_run. case_decide; [|done]. destruct (ev_Type e); try done. destruct (decode_payload _ _) as [[]|]; naive_solver.
Qed.

(** [RunStatus] reads off the log: a run with a run/end has that status
    (the first one; a later run/start of the same id blanks it), a run without
    one is waiting for approval exactly while some approval it requested is
    open, and otherwise is known exactly when it was started. *)
Theorem run_status_is_the_log s run :
  reach s → ValidateRunID run = Ok tt →
  match end_status run (s_events s) with
  | Some st => RunStatus s run = (st, true)
  | None =>
      ((∃ id n, open_at run (s_events s) id n) → RunStatus s run = (RunWaitingApproval, true))
      ∧ ((∀ id n, ¬ open_at run (s_events s) id n) → RunStatus s run = ("", bool_decide (run ∈ starts_of (s_events s))))
  end.
Proof.
  intros Hr Hv. pose proof (reach_log_inv _ Hr) as Hi. destruct (status_spec run (s_events s)) as (He & Hst & Hsd).
  rewrite <- (li_index _ Hi) in *. pose proof (reach_numbered _ Hi) as Hn.
  pose proof (λ id seq, pending_spec run id seq (s_events s) Hn) as Hp. rewrite <- (li_index _ Hi) in Hp.
  assert (existsb (starts run) (s_events s) = bool_decide (run ∈ starts_of (s_events s))) as Hex.
  { apply eq_bool_prop_intro. rewrite bool_decide_spec. unfold starts_of. rewrite list_elem_of_omap, Is_true_true, existsb_exists.
    unfold starts. setoid_rewrite bool_decide_eq_true. by setoid_rewrite list_elem_of_In. }
  rewrite Hex in Hsd. unfold RunStatus. rewrite Hv. cbn [is_ok negb]. cbv zeta in *.
  destruct (s_runIndex s !! run) as [en|] eqn:Ei.
  - assert (entry_at (s_runIndex s) run = en) as Hen by (unfold entry_at; by rewrite Ei). rewrite Hen in *. rewrite He, Hsd.
    destruct (end_status run (s_events s)) as [st|]; [cbn; by rewrite (Hst st)|]. cbn. split.
    + intros (id & n & Ho). rewrite bool_decide_eq_false_2; [done|]. intros Hem.
      assert (Some (Z.of_nat n) = None) as ?; [|done]. rewrite <- (lookup_empty id), <- Hem. symmetry. apply Hp. by exists n.
    + intros Hno. rewrite bool_decide_eq_true_2; [done|]. apply map_eq. intros id. rewrite lookup_empty.
      destruct (pending en !! id) as [seq|] eqn:E; [|done]. apply Hp in E as (n & -> & Ho). by destruct (Hno id n).
  - rewrite (entry_present _ _ Ei) in *. cbn in He, Hsd. destruct (end_status run (s_events s)); [done|]. split; [|by rewrite <- Hsd].
    intros (id & n & Ho). assert (Some (Z.of_nat n) = None) as ?; [|done]. rewrite <- (lookup_empty id). symmetry. apply Hp. by exists n.
Qed.

(** [PendingApproval] never fails on a valid run id and answers for the
    log: nothing exactly when no approval of the run is open, and otherwise the
    request, as stored, of the most recent open one. *)
Theorem pending_approval_is_the_latest_open s run :
  reach s → ValidateRunID run = Ok tt →
  match PendingApproval s run with
  | Err _ => False
  | Ok None => ∀ id n, ¬ open_at run (s_events s) id n
  | Ok (Some d') =>
      ∃ n e d, open_at run (s_events s) (ar_ApprovalID d) n ∧ s_events s !! n = Some e
      ∧ decode_payload EvApprovalRequested (ev_Data e) = Some (DApprovalRequested d) ∧ d' = clone_request d
      ∧ ∀ id m, open_at run (s_events s) id m → (m ≤ n)%nat
  end.
Proof.
  intros Hr Hv. pose proof (reach_log_inv _ Hr) as Hi. pose proof (reach_numbered _ Hi) as Hn.
  pose proof (λ id seq, pending_spec run id seq (s_events s) Hn) as Hp. rewrite <- (li_index _ Hi) in Hp.
  unfold PendingApproval. rewrite Hv. cbn [rbind]. unfold entry_at in Hp.
  assert (Hempty : pending (default new_entry (s_runIndex s !! run)) = ∅ → ∀ id n, ¬ open_at run (s_events s) id n).
  { intros Hem id n Ho. assert (Some (Z.of_nat n) = None) as ?; [|done]. rewrite <- (lookup_empty id), <- Hem. symmetry. apply Hp. by exists n. }
  destruct (s_runIndex s !! run) as [en|]; cbn in Hp, Hempty; [|by apply Hempty].
  case_bool_decide as Hem; [by apply Hempty|].
  destruct (latest_pending_spec (pending en)) as (Hub & Hlb & Hex).
  destruct Hex as [Hex|(id & Hex)].
  { exfalso. apply Hem, map_eq. intros id. rewrite lookup_empty. destruct (pending en !! id) as [seq|] eqn:E; [|done].
    pose proof (Hub _ _ E). apply Hp in E as (n & -> & _). lia. }
  pose proof (proj1 (Hp _ _) Hex) as (n & Hl & Ho). destruct Ho as (e & He & Hq & Hlater). rewrite Hl.
  pose proof (lookup_lt_Some _ _ _ He) as Hlt.
  assert ((Z.of_nat n <? 0) || (s_len s <=? Z.of_nat n) = false) as -> by (unfold s_len; apply orb_false_iff; rewrite Z.ltb_ge, Z.leb_gt; lia).
  cbn [fail_if]. rewrite Nat2Z.id, He. destruct (requests_decode _ _ _ Hq) as (d & Hd & Hid). rewrite Hd.
  exists n, e, d. split; [exists e; by rewrite Hid|]. split; [done|]. split; [done|]. split; [done|].
  intros id' m Ho. specialize (Hub id' (Z.of_nat m)). rewrite Hl in Hub. cut (Z.of_nat m ≤ Z.of_nat n); [lia|].
  apply Hub, Hp. by exists m.
Qed.

(** [ToolResult] never fails on valid ids and returns the first result the
    log records for the call of the run (a repeated result never replaces it),
    or nothing when there is none. *)
Theorem tool_result_is_the_first s run call :
  reach s → ValidateRunID run = Ok tt → validateToolCallID call = Ok tt →
  match ToolResult s run call with
  | Err _ => False
  | Ok None => ∀ n, ¬ first_at run (s_events s) call n
  | Ok (Some r) =>
      ∃ n e d, first_at run (s_events s) call n ∧ s_events s !! n = Some e ∧ records run e = Some d
      ∧ r = cloneCapabilityResult (mk_result (tr_Content d) (tr_OK d) (tr_Metadata d))
  end.
Proof.
  intros Hr Hv Hc. pose proof (reach_log_inv _ Hr) as Hi. pose proof (reach_numbered _ Hi) as Hn.
  pose proof (λ seq, toolResults_spec run call seq (s_events s) Hn) as Hp. rewrite <- (li_index _ Hi) in Hp.
  unfold ToolResult. rewrite Hv, Hc. cbn [rbind]. unfold entry_at in Hp.
  assert (Hnone : toolResults (default new_entry (s_runIndex s !! run)) !! call = None → ∀ n, ¬ first_at run (s_events s) call n).
  { intros Hno n Hf. rewrite Hno in Hp. assert (None = Some (Z.of_nat n)) as ?; [|done]. apply Hp. by exists n. }
  destruct (s_runIndex s !! run) as [en|]; cbn in Hp, Hnone; [|by apply Hnone].
  destruct (toolResults en !! call) as [seq|] eqn:E; [|by apply Hnone].
  pose proof (proj1 (Hp seq) eq_refl) as (n & -> & Hf). pose proof Hf as (e & d & He & Hrec & _).
  pose proof (lookup_lt_Some _ _ _ He) as Hlt.
  assert ((Z.of_nat n <? 0) || (s_len s <=? Z.of_nat n) = false) as -> by (unfold s_len; apply orb_false_iff; rewrite Z.ltb_ge, Z.leb_gt; lia).
  rewrite Nat2Z.id, He, (records_decode _ _ _ Hrec). by exists n, e, d.
Qed.

(** ** Witnesses *)

Lemma run_status_is_the_log_witness : RunStatus ex_session "r1" = (RunWaitingApproval, true).
Proof.
  pose proof (run_status_is_the_log ex_session "r1" ex_session_reach ltac:(reflexivity)) as H.
  assert (end_status "r1" (s_events ex_session) = None) as E by (vm_compute; reflexivity). rewrite E in H.
  apply H. exists "apr_0123456789abcdef0123456789abcdef", 7%nat. eexists. split; [vm_compute; reflexivity|].
  split; [vm_compute; reflexivity|]. intros j e' Hj Hl. exfalso.
  assert (length (s_events ex_session) = 8%nat) as Hlen by (vm_compute; reflexivity).
  apply lookup_lt_Some in Hl. lia.
Defined.

Lemma pending_approval_is_the_latest_open_witness :
  ∃ n d, open_at "r1" (s_events ex_session) (ar_ApprovalID d) n ∧ clone_request ex_request = clone_request d.
Proof.
  pose proof (pending_approval_is_the_latest_open ex_session "r1" ex_session_reach ltac:(reflexivity)) as H.
  assert (PendingApproval ex_session "r1" = Ok (Some (clone_request ex_request))) as E by (vm_compute; reflexivity).
  rewrite E in H. destruct H as (n & e & d & Ho & _ & _ & Hd & _). exists n, d. split; [exact Ho|exact Hd].
Defined.

Lemma tool_result_is_the_first_witness : ∃ n, first_at "r1" (s_events ex_session) "call-1" n.
Proof.
  pose proof (tool_result_is_the_first ex_session "r1" "call-1" ex_session_reach ltac:(reflexivity) ltac:(reflexivity)) as H.
  assert (ToolResult ex_session "r1" "call-1" = Ok (Some (mk_result "first" true ∅))) as E by (vm_compute; reflexivity).
  rewrite E in H. destruct H as (n & e & d & Hf & _). exists n. exact Hf.
Defined.
