(* ===== verification/ProjectionFacts.v ===== *)
(** * Correctness of the message projection

    The merged intervals and the binary search answer whether some summary
    covers an event; the derived conversation holds exactly the uncovered
    messages and the uncovered summaries, in order; the cache never changes the
    answer as long as no summary covers its own or a later position. *)
From S2P Require Import Prelude GoString Json Scope Sha256 GoTime Principal Payload Events Message Session Projection SessionLog SessionClaims SessionQueries.
From stdpp Require Import gmap strings list sorting.
From Stdlib Require Import ZArith Lia Ascii.
Open Scope Z_scope.

(** ** The binary search *)

Lemma search_loop_spec f n : ∀ fuel i j,
  (j - i ≤ fuel)%nat → (i ≤ j ≤ n)%nat →
  (∀ k, (k < i)%nat → f k = false) → (∀ k, (j ≤ k < n)%nat → f k = true) →
  (∀ k l, (k ≤ l < n)%nat → f k = true → f l = true) →
  let r := search_loop fuel f i j in
  (r ≤ n)%nat ∧ (∀ k, (k < r)%nat → f k = false) ∧ (∀ k, (r ≤ k < n)%nat → f k = true).
Proof.
  induction fuel as [|fuel IH]; intros i j Hf Hij Hlo Hhi Hmono; cbn [search_loop]; cbv zeta.
  { split; [lia|]. split; [done|]. intros k Hk. apply Hhi. lia. }
  destruct (i <? j)%nat eqn:Hlt; [apply Nat.ltb_lt in Hlt|apply Nat.ltb_ge in Hlt].
  2: { split; [lia|]. split; [done|]. intros k Hk. apply Hhi. lia. }
  assert (i ≤ (i + j) / 2 < j)%nat as Hh.
  { split; [apply Nat.div_le_lower_bound; lia|apply Nat.Div0.div_lt_upper_bound; lia]. }
  generalize dependent ((i + j) / 2)%nat. intros h Hh.
  destruct (f h) eqn:Hfh; cbn [negb].
  - apply IH; try lia; try done. intros k Hk. apply (Hmono h); [lia|done].
  - apply IH; try lia; try done. intros k Hk. destruct (f k) eqn:Hfk; [|done].
    rewrite (Hmono k h) in Hfh; [done|lia|done].
Qed.

(** [sort.Search] returns the first index at which a monotone test holds. *)
Lemma sort_Search_spec n f :
  (∀ k l, (k ≤ l < n)%nat → f k = true → f l = true) →
  let r := sort_Search n f in
  (r ≤ n)%nat ∧ (∀ k, (k < r)%nat → f k = false) ∧ (∀ k, (r ≤ k < n)%nat → f k = true).
Proof. intros H. apply search_loop_spec; try lia; try done; intros; lia. Qed.

(** ** Intervals *)

Definition covers (i : Z * Z) (seq : Z) : Prop := fst i ≤ seq ≤ snd i.
Definition range_covers (seq : Z) (r : summaryRange) : bool := (sr_start r <=? seq) && (seq <=? sr_end r).

(** Disjoint intervals in increasing order. *)
Inductive ordered : list (Z * Z) → Prop :=
| ordered_nil : ordered []
| ordered_one a b : a ≤ b → ordered [(a, b)]
| ordered_snoc l a b c d : ordered (l ++ [(a, b)]) → b < c → c ≤ d → ordered ((l ++ [(a, b)]) ++ [(c, d)]).

Lemma ordered_last l a b : ordered (l ++ [(a, b)]) → a ≤ b.
Proof.
  intros H. remember (l ++ [(a, b)]) as k eqn:Hk. destruct H as [|c d Hcd|k c d c' d' Hl Hlt Hle].
  - by destruct l.
  - destruct l as [|? [|]]; cbn in Hk; by simplify_eq.
  - apply app_inj_tail in Hk as [_ ?]. by simplify_eq.
Qed.

Lemma ordered_lookup l : ordered l → ∀ i j x y, (i < j)%nat → l !! i = Some x → l !! j = Some y → snd x < fst y ∧ fst y ≤ snd y.
Proof.
  induction 1 as [|a b Hab|l a b c d Hl IH Hbc Hcd]; intros i j x y Hij Hx Hy; [done|destruct i, j; cbn in *; try lia; by destruct j|].
  apply lookup_last_Some in Hy as [Hy|[-> ->]].
  - apply lookup_last_Some in Hx as [Hx|[-> ->]]; [by eapply IH|]. apply lookup_lt_Some in Hy. lia.
  - apply lookup_last_Some in Hx as [Hx|[-> ->]]; [|lia]. pose proof Hx as Hx'. apply lookup_last_Some in Hx as [Hx|[-> ->]].
    + destruct (IH i (length l) x (a, b)) as (? & ?); [by eapply lookup_lt_Some|done|apply lookup_last_Some; by right|]. cbn in *. lia.
    + cbn. lia.
Qed.

Definition ends_after (l : list (Z * Z)) (seq : Z) (i : nat) : bool :=
  match l !! i with Some (_, e) => seq <=? e | None => false end.

Lemma ends_after_mono l seq : ordered l →
  ∀ k m, (k ≤ m < length l)%nat → ends_after l seq k = true → ends_after l seq m = true.
Proof.
  intros Ho k m Hkm Hk. unfold ends_after in *. destruct (lookup_lt_is_Some_2 l m) as [[a b] Hm]; [lia|]. rewrite Hm.
  destruct (decide (k = m)) as [->|]; [by rewrite Hm in Hk|]. destruct (l !! k) as [[a' b']|] eqn:Ek; [|done].
  destruct (ordered_lookup _ Ho k m _ _ ltac:(lia) Ek Hm) as (? & ?). cbn in *. apply Z.leb_le in Hk. apply Z.leb_le. lia.
Qed.

(** The search finds the interval that covers a position, when there is one. *)
Lemma isShadowed_ordered l seq : ordered l → isShadowed l seq = true ↔ ∃ x, x ∈ l ∧ covers x seq.
Proof.
  intros Ho. unfold isShadowed. fold (ends_after l seq).
  destruct (sort_Search_spec (length l) (ends_after l seq) (ends_after_mono l seq Ho)) as (Hr & Hlo & Hhi).
  set (r := sort_Search (length l) (ends_after l seq)) in *. clearbody r. unfold covers. split.
  - intros H. destruct (l !! r) as [[a b]|] eqn:Er; [|done].
    exists (a, b). split; [by eapply list_elem_of_lookup_2|]. pose proof (lookup_lt_Some _ _ _ Er).
    assert (ends_after l seq r = true) as Hf by (apply Hhi; lia). unfold ends_after in Hf. rewrite Er in Hf.
    apply Z.leb_le in H, Hf. by split.
  - intros ([c d] & Hx & Hc). apply list_elem_of_lookup in Hx as (i & Hx). cbn in Hc.
    pose proof (lookup_lt_Some _ _ _ Hx) as Hi.
    assert (ends_after l seq i = true) as Hfi by (unfold ends_after; rewrite Hx; apply Z.leb_le; lia).
    destruct (decide (i < r)%nat) as [Hlt|Hge]; [by rewrite Hlo in Hfi|].
    assert (ends_after l seq r = true) as Hfr by (apply Hhi; lia). unfold ends_after in Hfr.
    destruct (l !! r) as [[a b]|] eqn:Er; [|done]. apply Z.leb_le in Hfr. apply Z.leb_le.
    destruct (decide (r = i)) as [->|Hne]; [rewrite Hx in Er; simplify_eq; lia|].
    destruct (ordered_lookup _ Ho r i _ _ ltac:(lia) Er Hx) as (? & ?). cbn in *. lia.
Qed.

(** ** The merge *)

Definition range_ok (r : summaryRange) : Prop := sr_start r ≤ sr_end r.

(** One merge step on intervals that end before or around the next range. *)
Lemma add_interval_spec l r :
  ordered l → range_ok r → (∀ a b, last l = Some (a, b) → a ≤ sr_start r) →
  ordered (add_interval l r)
  ∧ (∀ a b, last (add_interval l r) = Some (a, b) → a ≤ sr_start r)
  ∧ ∀ seq, (∃ x, x ∈ add_interval l r ∧ covers x seq) ↔ (∃ x, x ∈ l ∧ covers x seq) ∨ range_covers seq r = true.
Proof.
  unfold range_ok, add_interval, covers, range_covers. intros Ho Hr Hlast.
  assert (Hc : ∀ seq, (sr_start r <=? seq) && (seq <=? sr_end r) = true ↔ sr_start r ≤ seq ≤ sr_end r)
    by (intros; rewrite andb_true_iff, !Z.leb_le; done).
  destruct l as [|[a b] l _] using rev_ind.
  { cbn. split; [by constructor|]. split; [intros a b [= <- <-]; lia|]. intros seq. rewrite Hc.
    setoid_rewrite list_elem_of_singleton. split; [intros (x & -> & ?); by right|intros [(x & Hx & _)|?]; [by apply elem_of_nil in Hx|eexists; done]]. }
  rewrite last_snoc in *. specialize (Hlast a b eq_refl). pose proof (ordered_last _ _ _ Ho) as Hab.
  destruct ((b <? sr_start r) && negb (negb (b =? max_int64) && (sr_start r =? b + 1))) eqn:E1.
  - bool_to_prop. split; [by constructor|]. rewrite last_snoc. split; [intros ? ? [= <- <-]; lia|].
    intros seq. rewrite Hc. setoid_rewrite elem_of_snoc at 1. split.
    + intros (x & [Hx| ->] & ?); [left; by exists x|by right].
    + intros [(x & Hx & ?)|?]; [exists x; by split; [left|]|eexists; split; [by right|done]].
  - assert (sr_start r ≤ b + 1) as Hnear.
    { apply andb_false_iff in E1 as [E1|E1]; bool_to_prop; [lia|]. lia. }
    destruct (b <? sr_end r) eqn:E2; bool_to_prop.
    + replace (length (l ++ [(a, b)]) - 1)%nat with (length l + 0)%nat by (rewrite length_app; cbn; lia).
      rewrite insert_app_r. cbn [insert list_insert]. split; [|split].
      * clear - Ho Hab E2 Hlast Hr. remember (l ++ [(a, b)]) as k eqn:Hk. destruct Ho as [|c d Hcd|k c d c' d' Hl Hlt Hle].
        -- by destruct l.
        -- destruct l as [|? [|]]; cbn in Hk; simplify_eq. cbn. constructor. lia.
        -- apply app_inj_tail in Hk as [<- ?]. simplify_eq. constructor; [done..|lia].
      * rewrite last_snoc. intros ? ? [= <- <-]. done.
      * intros seq. rewrite Hc. setoid_rewrite elem_of_snoc. split.
        -- intros (x & [Hx| ->] & Hs); [left; exists x; by split; [left|]|]. cbn in Hs.
           destruct (decide (seq ≤ b)); [left; exists (a, b); split; [by right|cbn; lia]|right; lia].
        -- intros [(x & [Hx| ->] & Hs)|Hs].
           ++ exists x. by split; [left|].
           ++ eexists. split; [by right|]. cbn in *. lia.
           ++ eexists. split; [by right|]. cbn. lia.
    + split; [done|]. rewrite last_snoc. split; [by intros ? ? [= <- <-]|]. intros seq. rewrite Hc. split; [by left|].
      intros [Hx|Hs]; [done|]. exists (a, b). split; [set_solver|cbn; lia].
Qed.

Lemma merge_ranges_from rs : ∀ l,
  StronglySorted range_le rs → Forall range_ok rs → ordered l →
  (∀ a b, last l = Some (a, b) → Forall (λ r, a ≤ sr_start r) rs) →
  ordered (foldl add_interval l rs)
  ∧ ∀ seq, (∃ x, x ∈ foldl add_interval l rs ∧ covers x seq) ↔
           (∃ x, x ∈ l ∧ covers x seq) ∨ existsb (range_covers seq) rs = true.
Proof.
  induction rs as [|r rs IH]; intros l Hs Hok Ho Hl; cbn.
  { split; [done|]. intros seq. naive_solver. }
  apply StronglySorted_inv in Hs as [Hs Hr]. apply Forall_cons in Hok as [Hrok Hok].
  destruct (add_interval_spec l r Ho Hrok) as (Ho' & Hl' & Hc').
  { intros a b Hab. by apply Hl, Forall_cons in Hab as [? _]. }
  destruct (IH (add_interval l r) Hs Hok Ho') as [Ho2 Hc2].
  { intros a b Hab. apply Hl' in Hab. eapply Forall_impl; [exact Hr|]. intros x [Hx|[Hx _]]; lia. }
  split; [done|]. intros seq. rewrite Hc2, Hc', orb_true_iff. naive_solver.
Qed.

#[export] Instance range_le_total : Total range_le.
Proof. intros a b. unfold range_le. lia. Qed.
#[export] Instance range_le_trans : Transitive range_le.
Proof. intros a b c. unfold range_le. lia. Qed.

(** Whether some summary of the log covers a position. *)
Definition covered (ranges : list summaryRange) (seq : Z) : bool := existsb (range_covers seq) ranges.

Lemma existsb_perm {A} (f : A → bool) l k : l ≡ₚ k → existsb f l = existsb f k.
Proof. induction 1; cbn; [done|congruence|destruct (f x), (f y); done|congruence]. Qed.

(** Merging and searching decide coverage by any of the ranges. *)
Lemma isShadowed_spec ranges seq :
  Forall range_ok ranges → isShadowed (merge_ranges (merge_sort range_le ranges)) seq = covered ranges seq.
Proof.
  intros Hok. destruct (merge_ranges_from (merge_sort range_le ranges) []) as [Ho Hc].
  - apply (StronglySorted_merge_sort range_le).
  - by rewrite merge_sort_Permutation.
  - constructor.
  - done.
  - apply eq_bool_prop_intro. rewrite !Is_true_true. unfold merge_ranges. rewrite isShadowed_ordered by done.
    rewrite Hc, (existsb_perm _ _ _ (merge_sort_Permutation range_le ranges)). fold (covered ranges seq). set_solver.
Qed.

(** ** The emission loop *)

Lemma emit_spec sh seq rs :
  let '(out, rest) := emitSummariesBefore sh seq rs in
  ∃ pre, rs = pre ++ rest ∧ Forall (λ r, sr_start r ≤ seq) pre
  ∧ out = omap (λ r, if sh (sr_seq r) then None else Some (summary_message r)) pre
  ∧ (StronglySorted range_le rs → Forall (λ r, seq < sr_start r) rest).
Proof.
  induction rs as [|r rs IH]; cbn; [by exists []|].
  destruct (sr_start r <=? seq) eqn:E; bool_to_prop.
  - destruct (emitSummariesBefore sh seq rs) as [out rest]. destruct IH as (pre & -> & Hpre & -> & Hs).
    exists (r :: pre). split; [done|]. split; [by constructor|]. split; [cbn; by destruct (sh (sr_seq r))|].
    intros Hss. apply StronglySorted_inv in Hss as [Hss _]. by apply Hs.
  - exists []. split; [done|]. split; [done|]. split; [done|]. intros Hss. apply StronglySorted_inv in Hss as [_ Hr].
    constructor; [done|]. eapply Forall_impl; [exact Hr|]. intros x [?|[? _]]; lia.
Qed.

(** The contents of the derived conversation. *)
Lemma project_loop_elem sh events : ∀ rs m,
  m ∈ project_loop sh rs events ↔
  (∃ r, r ∈ rs ∧ sh (sr_seq r) = false ∧ m = summary_message r)
  ∨ (∃ e, e ∈ events ∧ sh (Seq e) = false ∧ projectEvent e = Some m).
Proof.
  assert (Hom : ∀ (rs : list summaryRange) m, m ∈ omap (λ r, if sh (sr_seq r) then None else Some (summary_message r)) rs
                        ↔ ∃ r, r ∈ rs ∧ sh (sr_seq r) = false ∧ m = summary_message r).
  { intros rs m. rewrite list_elem_of_omap. split; intros (r & Hr & H).
    - exists r. destruct (sh (sr_seq r)); [done|]. by simplify_eq.
    - exists r. destruct H as [-> ->]. done. }
  induction events as [|e events IH]; intros rs m; cbn [project_loop].
  { rewrite Hom. split; [by left|]. intros [?|(e & He & _)]; [done|]. by apply elem_of_nil in He. }
  pose proof (emit_spec sh (Seq e) rs) as Hemit. destruct (emitSummariesBefore sh (Seq e) rs) as [out rest].
  destruct Hemit as (pre & -> & _ & -> & _). rewrite !elem_of_app, Hom, IH.
  assert (m ∈ (if sh (Seq e) then [] else option_list (projectEvent e)) ↔ sh (Seq e) = false ∧ projectEvent e = Some m) as ->.
  { destruct (sh (Seq e)); [set_solver|]. destruct (projectEvent e); cbn; set_solver. }
  setoid_rewrite elem_of_app. setoid_rewrite elem_of_cons. naive_solver.
Qed.

(** The position of a message in the conversation: a summary stands at the
    start of its range, just before the event there. *)
Definition msg_key (m : ChatMessage) : Z * Z * Z :=
  match Provenance m with Some p => (SourceStart p, 0, SourceSeq m) | None => (SourceSeq m, 1, 0) end.
Definition key_lt (a b : Z * Z * Z) : Prop :=
  let '(a1, a2, a3) := a in let '(b1, b2, b3) := b in a1 < b1 ∨ (a1 = b1 ∧ (a2 < b2 ∨ (a2 = b2 ∧ a3 < b3))).
Definition msg_lt (m m' : ChatMessage) : Prop := key_lt (msg_key m) (msg_key m').

Lemma projectEvent_key e m : projectEvent e = Some m → msg_key m = (Seq e, 1, 0).
Proof.
  unfold projectEvent. destruct (ev_Type e); try done; destruct (decode_payload _ _) as [[]|]; try done; intros [= <-]; done.
Qed.

Lemma summary_key r : cs_Start (sr_data r) = sr_start r → msg_key (summary_message r) = (sr_start r, 0, sr_seq r).
Proof. intros H. unfold msg_key. cbn. by rewrite H. Qed.

Definition range_lt (a b : summaryRange) : Prop :=
  sr_start a < sr_start b ∨ (sr_start a = sr_start b ∧ sr_seq a < sr_seq b).
Definition range_faithful (r : summaryRange) : Prop := cs_Start (sr_data r) = sr_start r ∧ cs_End (sr_data r) = sr_end r.

Lemma emitted_sorted (sh : Z → bool) (rs : list summaryRange) :
  StronglySorted range_lt rs → Forall range_faithful rs →
  StronglySorted msg_lt (omap (λ r : summaryRange, if sh (sr_seq r) then None else Some (summary_message r)) rs).
Proof.
  induction 1 as [|r rs Hs IH Hr]; intros Hf; [constructor|]. apply Forall_cons in Hf as [[Hf _] Hfs]. cbn.
  destruct (sh (sr_seq r)); [by apply IH|]. constructor; [by apply IH|]. apply Forall_forall. intros m Hm.
  apply list_elem_of_omap in Hm as (r' & Hr' & Hm). destruct (sh (sr_seq r')); [done|]. simplify_eq.
  rewrite Forall_forall in Hr. rewrite Forall_forall in Hfs. specialize (Hr r' Hr'). destruct (Hfs r' Hr') as [Hf' _].
  unfold msg_lt. rewrite !summary_key by done. cbn. unfold range_lt in Hr. lia.
Qed.

Lemma project_loop_sorted sh events : ∀ rs,
  StronglySorted range_lt rs → Forall range_faithful rs → StronglySorted (λ a b, Seq a < Seq b) events →
  StronglySorted msg_lt (project_loop sh rs events).
Proof.
  induction events as [|e events IH]; intros rs Hs Hf He; cbn [project_loop]; [by apply emitted_sorted|].
  pose proof (emit_spec sh (Seq e) rs) as Hemit. destruct (emitSummariesBefore sh (Seq e) rs) as [out rest].
  destruct Hemit as (pre & -> & Hpre & -> & Hrest).
  apply StronglySorted_inv in He as [He Hafter]. apply Forall_app in Hf as [Hf1 Hf2].
  assert (Hrest' : Forall (λ r, Seq e < sr_start r) rest).
  { apply Hrest. clear - Hs. induction Hs as [|r l Hs IH Hr]; constructor; [done|]. eapply Forall_impl; [exact Hr|].
    intros x [?|[? ?]]; [by left|right; lia]. }
  apply StronglySorted_app in Hs as (Hcross & Hs1 & Hs2).
  assert (Hlater : ∀ m, m ∈ project_loop sh rest events → ∃ k j p, msg_key m = (k, j, p) ∧ Seq e < k).
  { intros m Hm. rewrite Forall_forall in Hafter. rewrite Forall_forall in Hrest'. rewrite Forall_forall in Hf2.
    apply project_loop_elem in Hm as [(r & Hr & _ & ->)|(e' & He' & _ & Hm)].
    - destruct (Hf2 r Hr) as [Hfr _]. rewrite summary_key by done. eexists _, _, _. split; [done|]. by apply Hrest'.
    - rewrite (projectEvent_key _ _ Hm). eexists _, _, _. split; [done|]. by apply Hafter. }
  assert (Hearly : ∀ m, m ∈ omap (λ r : summaryRange, if sh (sr_seq r) then None else Some (summary_message r)) pre →
                   ∃ k p, msg_key m = (k, 0, p) ∧ k ≤ Seq e).
  { intros m Hm. apply list_elem_of_omap in Hm as (r & Hr & Hm). destruct (sh (sr_seq r)); [done|]. simplify_eq.
    rewrite Forall_forall in Hpre. rewrite Forall_forall in Hf1. destruct (Hf1 r Hr) as [Hfr _]. rewrite summary_key by done.
    eexists _, _. split; [done|]. by apply Hpre. }
  assert (Hmid : ∀ m, m ∈ (if sh (Seq e) then [] else option_list (projectEvent e)) → msg_key m = (Seq e, 1, 0)).
  { intros m. destruct (sh (Seq e)); [set_solver|]. destruct (projectEvent e) as [m'|] eqn:E; cbn; [|set_solver].
    intros ->%list_elem_of_singleton. by apply projectEvent_key. }
  apply StronglySorted_app_2; [|by apply emitted_sorted|apply StronglySorted_app_2; [| |by apply IH]].
  - intros m m' Hm [Hm'|Hm']%elem_of_app; destruct (Hearly m Hm) as (k & p & Hk & Hle); unfold msg_lt; rewrite Hk.
    + rewrite (Hmid m' Hm'). cbn. lia.
    + destruct (Hlater m' Hm') as (k' & j & p' & -> & ?). cbn. lia.
  - intros m m' Hm Hm'. unfold msg_lt. rewrite (Hmid m Hm). destruct (Hlater m' Hm') as (k' & j & p' & -> & ?). cbn. lia.
  - destruct (sh (Seq e)); [constructor|]. destruct (projectEvent e); repeat constructor.
Qed.

(** ** The summaries of a log *)

Definition summary_of (e : SessionEvent) : option summaryRange :=
  match ev_Type e, decode_payload EvContextSummary (ev_Data e) with
  | EvContextSummary, Some (DContextSummary d) => Some (mk_range (cs_Start d) (cs_End d) (Seq e) d)
  | _, _ => None
  end.
Definition log_ranges (events : list SessionEvent) : list summaryRange := omap summary_of events.

(** A stored summary that passed validation has a non-empty range. *)
Definition event_valid (e : SessionEvent) : Prop := validateSessionEvent (RunID e) (ev_Type e) (ev_Data e) = Ok tt.

Lemma valid_summary e : event_valid e → ev_Type e = EvContextSummary →
  ∃ d, decode_payload EvContextSummary (ev_Data e) = Some (DContextSummary d) ∧ 0 ≤ cs_Start d ≤ cs_End d.
Proof.
  unfold event_valid, validateSessionEvent. intros Hv Ht. rewrite Ht in Hv.
  apply rbind_ok in Hv as (_ & _ & Hv). do 3 apply fail_if_ok in Hv as [_ Hv].
  destruct (decode_payload EvContextSummary (ev_Data e)) as [d|] eqn:E; [|done].
  pose proof (decode_payload_kind _ _ _ E) as Hk. destruct d; try done. exists d. split; [done|].
  cbn in Hv. unfold validateContextSummaryData in Hv. apply fail_if_ok in Hv as [Hv _]. bool_to_prop. lia.
Qed.

Lemma collect_ranges_ok events : Forall event_valid events → collect_ranges events = Ok (log_ranges events).
Proof.
  induction 1 as [|e events He Hes IH]; [done|]. unfold log_ranges in *. cbn [collect_ranges omap list_omap]. unfold summary_of at 1.
  destruct (ev_Type e) eqn:Et; try exact IH. destruct (valid_summary e He Et) as (d & Hd & _). rewrite Hd, IH. done.
Qed.

Lemma log_ranges_elem events r :
  Forall event_valid events → r ∈ log_ranges events →
  range_ok r ∧ range_faithful r ∧ ∃ e, e ∈ events ∧ ev_Type e = EvContextSummary ∧ Seq e = sr_seq r ∧ summary_of e = Some r.
Proof.
  intros Hv Hr. apply list_elem_of_omap in Hr as (e & He & Hs). rewrite Forall_forall in Hv. specialize (Hv e He).
  pose proof Hs as Hs'. unfold summary_of in Hs. destruct (ev_Type e) eqn:Et; try done.
  destruct (valid_summary e Hv Et) as (d & Hd & Hle). rewrite Hd in Hs. simplify_eq. cbn.
  split; [unfold range_ok; cbn; lia|]. split; [done|]. by exists e.
Qed.

Lemma log_ranges_seq events : StronglySorted (λ a b, Seq a < Seq b) events → NoDup (sr_seq <$> log_ranges events).
Proof.
  induction 1 as [|e events Hs IH He]; cbn; [constructor|]. destruct (summary_of e) as [r|] eqn:E; cbn; [|done].
  constructor; [|done]. intros Hin. apply list_elem_of_fmap in Hin as (r' & Heq & Hr'). apply list_elem_of_omap in Hr' as (e' & He' & E').
  rewrite Forall_forall in He. specialize (He e' He'). unfold summary_of in E, E'.
  destruct (ev_Type e); try done. destruct (decode_payload _ _) as [[]|] in E; try done.
  destruct (ev_Type e'); try done. destruct (decode_payload _ _) as [[]|] in E'; try done. simplify_eq. cbn in Heq. lia.
Qed.

Lemma sorted_ranges_strict ranges :
  NoDup (sr_seq <$> ranges) → StronglySorted range_lt (merge_sort range_le ranges).
Proof.
  intros Hn. assert (NoDup (sr_seq <$> merge_sort range_le ranges)) as Hn' by (by rewrite merge_sort_Permutation).
  pose proof (StronglySorted_merge_sort range_le ranges) as Hs. revert Hn'. clear Hn.
  induction Hs as [|r l Hs IH Hr]; cbn; [constructor|]. intros Hn. apply NoDup_cons in Hn as [Hnin Hn].
  constructor; [by apply IH|]. rewrite Forall_forall in Hr |- *. intros x Hx. destruct (Hr x Hx) as [?|[? ?]]; [by left|right].
  split; [done|]. assert (sr_seq r ≠ sr_seq x); [|lia]. intros Heq. apply Hnin. rewrite Heq. apply list_elem_of_fmap_2, Hx.
Qed.

Lemma log_inv_sorted s : log_inv s → StronglySorted (λ a b, Seq a < Seq b) (s_events s).
Proof.
  intros Hi. pose proof (reach_numbered _ Hi) as Hn. clear Hi. induction (s_events s) as [|e l IH] using rev_ind; [constructor|].
  apply numbered_snoc in Hn as [Hn He]. apply StronglySorted_app_2; [|by apply IH|repeat constructor].
  intros x y Hx ->%list_elem_of_singleton. apply list_elem_of_lookup in Hx as (i & Hx). rewrite (Hn i x Hx), He.
  apply lookup_lt_Some in Hx. lia.
Qed.

Lemma log_inv_valid s : log_inv s → Forall event_valid (s_events s).
Proof. intros Hi. apply Forall_forall. apply (li_valid _ Hi). Qed.

(** The conversation a log stands for. *)
Lemma full_projection_spec events :
  Forall event_valid events → StronglySorted (λ a b, Seq a < Seq b) events →
  ∃ out, full_projection events = Ok out ∧ StronglySorted msg_lt out
  ∧ ∀ m, m ∈ out ↔
      (∃ r, r ∈ log_ranges events ∧ covered (log_ranges events) (sr_seq r) = false ∧ m = summary_message r)
      ∨ (∃ e, e ∈ events ∧ covered (log_ranges events) (Seq e) = false ∧ projectEvent e = Some m).
Proof.
  intros Hv Hs. unfold full_projection. rewrite collect_ranges_ok by done. cbn [rbind].
  assert (Forall range_ok (log_ranges events) ∧ Forall range_faithful (log_ranges events)) as [Hok Hfa].
  { split; apply Forall_forall; intros r Hr; by destruct (log_ranges_elem events r Hv Hr) as (? & ? & _). }
  eexists. split; [done|]. split.
  - apply project_loop_sorted; [by apply sorted_ranges_strict, log_ranges_seq|by rewrite merge_sort_Permutation|done].
  - intros m. rewrite project_loop_elem. setoid_rewrite isShadowed_spec; [|done|done].
    by setoid_rewrite (merge_sort_Permutation range_le (log_ranges events)).
Qed.

(** ** The cache *)

(** Every summary covers only positions before its own. *)
Definition looks_back (events : list SessionEvent) : Prop :=
  ∀ e d, e ∈ events → ev_Type e = EvContextSummary →
    decode_payload EvContextSummary (ev_Data e) = Some (DContextSummary d) → cs_End d < Seq e.

Lemma project_loop_snoc sh events e : ∀ rs,
  StronglySorted range_le rs → Forall (λ r, ∃ x, x ∈ events ∧ sr_start r ≤ Seq x) rs →
  project_loop sh rs (events ++ [e]) =
  project_loop sh rs events ++ (if sh (Seq e) then [] else option_list (projectEvent e)).
Proof.
  induction events as [|x events IH]; intros rs Hs Hrs; cbn [project_loop app].
  - destruct rs as [|r rs]; [cbn; by rewrite app_nil_r|]. apply Forall_cons in Hrs as [(y & Hy & _) _]. by apply elem_of_nil in Hy.
  - pose proof (emit_spec sh (Seq x) rs) as Hemit. destruct (emitSummariesBefore sh (Seq x) rs) as [out rest].
    destruct Hemit as (pre & -> & _ & -> & Hrest). specialize (Hrest Hs). apply StronglySorted_app in Hs as (_ & _ & Hs2).
    apply Forall_app in Hrs as [_ Hrs]. rewrite IH, !app_assoc; [done|done|].
    rewrite Forall_forall in Hrs. rewrite Forall_forall in Hrest. apply Forall_forall. intros r Hr.
    destruct (Hrs r Hr) as (y & Hy & Hle). exists y. split; [|done]. apply elem_of_cons in Hy as [->|Hy]; [|done].
    specialize (Hrest r Hr). lia.
Qed.

(** Appending an event that is not a summary appends its message. *)
Lemma full_projection_snoc events e out :
  Forall event_valid (events ++ [e]) → StronglySorted (λ a b, Seq a < Seq b) (events ++ [e]) →
  looks_back (events ++ [e]) → ev_Type e ≠ EvContextSummary → full_projection events = Ok out →
  full_projection (events ++ [e]) = Ok (out ++ option_list (projectEvent e)).
Proof.
  intros Hv Hs Hb Hne Hout. unfold full_projection in *. pose proof Hv as Hv'. apply Forall_app in Hv' as [Hve _].
  rewrite collect_ranges_ok in * by done. cbn [rbind] in *. simplify_eq.
  assert (log_ranges (events ++ [e]) = log_ranges events) as Hr.
  { unfold log_ranges. rewrite omap_app. cbn. unfold summary_of at 2. destruct (ev_Type e); cbn; by rewrite ?app_nil_r. }
  assert (Forall range_ok (log_ranges events)) as Hok.
  { apply Forall_forall. intros r Hin. by destruct (log_ranges_elem events r Hve Hin) as (? & _). }
  apply StronglySorted_app in Hs as (Hcross & _ & _).
  assert (Hback : ∀ r, r ∈ log_ranges events → ∃ x, x ∈ events ∧ sr_end r < Seq x).
  { intros r Hin. destruct (log_ranges_elem events r Hve Hin) as (_ & _ & x & Hx & Ht & _ & Hsum). exists x. split; [done|].
    unfold summary_of in Hsum. rewrite Ht in Hsum. destruct (decode_payload _ _) as [[]|] eqn:E in Hsum; try done. simplify_eq. cbn.
    apply (Hb x d); [set_solver|done|done]. }
  rewrite Hr, project_loop_snoc, isShadowed_spec by first [done|apply (StronglySorted_merge_sort range_le)|
    (rewrite merge_sort_Permutation; apply Forall_forall; intros r Hin; destruct (Hback r Hin) as (x & Hx & Hlt); exists x; split; [done|];
     rewrite Forall_forall in Hok; specialize (Hok r Hin); unfold range_ok in Hok; lia)].
  assert (covered (log_ranges events) (Seq e) = false) as ->; [|done].
  unfold covered. destruct (existsb _ _) eqn:E; [|done]. apply existsb_exists in E as (r & Hin & Hc). apply list_elem_of_In in Hin.
  destruct (Hback r Hin) as (x & Hx & Hlt). unfold range_covers in Hc. bool_to_prop.
  specialize (Hcross x e Hx (proj2 (list_elem_of_singleton _ _) eq_refl)). cbn in Hcross. lia.
Qed.

(** A valid cache is the projection of the whole log. *)
Definition cache_ok (s : Session) : Prop :=
  s_projValid s = true →
  s_projCount s = s_len s ∧ s_projSummaries s = s_summaryEvents s ∧ full_projection (s_events s) = Ok (s_projCache s).

(** The typed and the stored projection of a readable entry agree. *)
Definition projects_alike (p : sessionAppendEntry) : Prop :=
  ∀ seq tm, match projectCommittedData (ae_kind p) (ae_data p) seq with
            | (Some m, _) => projectEvent (mk_event seq tm (ae_runID p) (ae_kind p) (ae_raw p)) = Some m
            | (None, true) => True
            | (None, false) => projectEvent (mk_event seq tm (ae_runID p) (ae_kind p) (ae_raw p)) = None
            end.

Lemma prepare_projects_alike e p : prepare_entry e = Ok p → entry_stable e = true → projects_alike p.
Proof.
  intros Hp Hs seq tm. destruct (prepare_entry_same _ _ Hp) as (Hr & Hk & Hd). unfold entry_stable in Hs.
  destruct (kind_matches (ae_kind e) (ae_data e)) eqn:Hkm.
  - assert (∃ j, payload_json (ae_data e) = Some j) as (j & Hj)
      by (destruct (ae_kind e), (ae_data e); try discriminate Hkm; eexists; reflexivity).
    assert (ae_raw p = marshal j) as Hraw.
    { unfold prepare_entry in Hp. rewrite Hj in Hp. destruct (validateSessionEventValue _ _).
      apply rbind_ok in Hp as (_ & _ & Hp). apply fail_if_ok in Hp as [_ Hp]. apply rbind_ok in Hp as (_ & _ & Hp). by simplify_eq. }
    rewrite Hk, Hd, Hraw. pose proof (projections_agree _ _ j seq tm (ae_runID p) Hkm Hs Hj) as Hag.
    pose proof (projectCommittedData_applicable (ae_kind e) (ae_data e) seq Hkm) as Happ.
    destruct (projectCommittedData _ _ _) as [[m|] b]; cbn in *; [done|]. destruct b; [done|done].
  - rewrite Hk, Hd. destruct (ae_kind e), (ae_data e); cbn in *; try done.
Qed.

(** The cache after a commit that leaves it valid. *)
Lemma commit_projection clock s p :
  let s' := commit_entry clock s p in
  let committed := projectCommittedData (ae_kind p) (ae_data p) (s_len s) in
  s_projValid s' = true →
  s_projValid s = true ∧ ae_kind p ≠ EvContextSummary
  ∧ s_projCount s' = s_len s' ∧ s_projSummaries s' = s_projSummaries s ∧ s_summaryEvents s' = s_summaryEvents s
  ∧ s_projCache s' = s_projCache s ++ option_list (fst committed) ∧ (fst committed = None → snd committed = false).
Proof.
  cbn zeta. rewrite s_len_commit. unfold s_len at 1. unfold commit_entry at 1 2 3 4 5. cbn [Seq].
  assert (Hl : ∀ e, Z.of_nat (length (s_events s ++ [e])) = Z.of_nat (length (s_events s)) + 1)
    by (intros; rewrite length_app; cbn; lia).
  destruct (decide (ae_kind p = EvContextSummary)) as [->|Hne]; [done|].
  assert (∀ A (a b : A), match ae_kind p with EvContextSummary => a | _ => b end = b) as Hk by (intros; by destruct (ae_kind p)).
  rewrite Hk. destruct (s_projValid s) eqn:Ev; [|done].
  destruct (projectCommittedData _ _ _) as [[m|] []]; cbn [fst snd option_list s_projValid s_projCount s_projSummaries s_summaryEvents s_projCache];
    rewrite ?Hl, ?app_nil_r; done.
Qed.

Lemma commit_cache clock s p :
  cache_ok s → projects_alike p →
  Forall event_valid (s_events (commit_entry clock s p)) →
  StronglySorted (λ a b, Seq a < Seq b) (s_events (commit_entry clock s p)) →
  looks_back (s_events (commit_entry clock s p)) → cache_ok (commit_entry clock s p).
Proof.
  intros Hc Hp Hv Hs Hb Hvalid. destruct (commit_projection clock s p Hvalid) as (H1 & Hk & H2 & H3 & H4 & H5 & H6).
  destruct (Hc H1) as (_ & Hsum & Hf). split; [done|]. split; [congruence|]. rewrite commit_events in *. rewrite H5.
  specialize (Hp (s_len s) (clock (s_len s))). fold (commit_event clock s p) in Hp.
  rewrite (full_projection_snoc (s_events s) _ (s_projCache s)) by done. do 2 f_equal.
  destruct (projectCommittedData _ _ _) as [[m|] b]; cbn in *; [by rewrite Hp|]. rewrite (H6 eq_refl) in Hp. by rewrite Hp.
Qed.

Lemma looks_back_app l k : looks_back (l ++ k) → looks_back l.
Proof. intros H e d He. apply H. set_solver. Qed.

Lemma commit_all_cache clock ps : ∀ s,
  cache_ok s → Forall projects_alike ps →
  Forall event_valid (s_events s ++ batch_events clock (s_len s) ps) →
  StronglySorted (λ a b, Seq a < Seq b) (s_events s ++ batch_events clock (s_len s) ps) →
  looks_back (s_events s ++ batch_events clock (s_len s) ps) → cache_ok (foldl (commit_entry clock) s ps).
Proof.
  induction ps as [|p ps IH]; intros s Hc Hp Hv Hs Hb; cbn in *; [done|]. apply Forall_cons in Hp as [Hp Hps].
  fold (commit_event clock s p) in Hv, Hs, Hb. rewrite cons_middle, app_assoc, <- commit_events, <- s_len_commit with clock s p in Hv, Hs, Hb.
  apply IH; try done. apply Forall_app in Hv as [Hv _]. apply StronglySorted_app in Hs as (_ & Hs & _). apply looks_back_app in Hb.
  by apply commit_cache.
Qed.

Lemma prepare_all_alike entries ps :
  prepare_all entries = Ok ps → forallb entry_stable entries = true → Forall projects_alike ps.
Proof.
  revert ps. induction entries as [|e entries IH]; intros ps H Hs; cbn in *; [by simplify_eq|].
  apply rbind_ok in H as (p & Hp & H). apply rbind_ok in H as (ps' & Hps & H). simplify_eq. bool_to_prop.
  constructor; [by apply prepare_projects_alike with e|by apply IH].
Qed.

Lemma reach_cache s : reach s → looks_back (s_events s) → cache_ok s.
Proof.
  induction 1 as [o s H|o events s H|clock s entries s' events Hr IH Hs H|s Hr IH]; intros Hb.
  - apply NewSession_state in H as ->. done.
  - unfold RestoreSession in H. apply rbind_ok in H as (s0 & _ & H). apply fail_if_ok in H as [_ H].
    destruct events as [|e events]; [cbn in H; by simplify_eq|].
    assert (s_projValid s = false) as Hf; [|intros Hv; congruence].
    apply (rfold_invariant restore_event (λ s, s_projValid s = false)) in H; [done|done|]. clear.
    intros s x s' _ Hs H. unfold restore_event in H. apply fail_if_ok in H as [_ H].
    apply rbind_ok in H as (_ & _ & H). apply rbind_ok in H as (_ & _ & H). apply rbind_ok in H as (? & _ & H). by simplify_eq.
  - pose proof (reach_log_inv _ (reach_append _ _ _ _ _ Hr Hs H)) as Hi.
    pose proof (log_inv_valid _ Hi) as Hv. pose proof (log_inv_sorted _ Hi) as Hsort.
    apply appendBatch_ok in H as (ps & Hp & _ & -> & -> & He). rewrite He in *.
    apply commit_all_cache; try done; [|by apply prepare_all_alike with entries]. apply IH. by eapply looks_back_app.
  - revert Hb. unfold DeriveMessages. destruct (s_projValid s && (s_projCount s =? s_len s) && _) eqn:E1; [exact IH|].
    destruct (s_projValid s && (s_projSummaries s =? s_summaryEvents s) && _ && _) eqn:E2.
    + intros Hb Hv. cbn in Hb, Hv. destruct (IH Hb Hv) as (H1 & _ & _). bool_to_prop. lia.
    + destruct (full_projection (s_events s)) as [out|] eqn:Ef; [|exact IH]. intros Hb Hv. by cbn.
Qed.

Lemma derive_is_full s :
  reach s → looks_back (s_events s) → ∃ out, full_projection (s_events s) = Ok out ∧ fst (DeriveMessages s) = Ok (cloneChatMessages out).
Proof.
  intros Hr Hb. pose proof (reach_cache _ Hr Hb) as Hc. pose proof (reach_log_inv _ Hr) as Hi.
  destruct (full_projection_spec (s_events s) (log_inv_valid _ Hi) (log_inv_sorted _ Hi)) as (out & Hout & _).
  exists out. split; [done|]. unfold DeriveMessages.
  destruct (s_projValid s && (s_projCount s =? s_len s) && _) eqn:E1.
  { bool_to_prop. destruct Hc as (_ & _ & Hf); [done|]. cbn. congruence. }
  destruct (s_projValid s && (s_projSummaries s =? s_summaryEvents s) && _ && _) eqn:E2; [|by rewrite Hout].
  bool_to_prop. destruct Hc as (Hcnt & _ & _); [done|]. lia.
Qed.

(** Deriving the conversation of any reachable log from scratch succeeds,
    and the result holds exactly the model-visible events that no summary
    covers and the summaries that no summary covers, in strictly increasing
    position, a summary standing at the start of the range it replaces. *)
Theorem conversation_is_the_uncovered_log s :
  reach s →
  ∃ out, full_projection (s_events s) = Ok out ∧ StronglySorted msg_lt out
  ∧ ∀ m, m ∈ out ↔
      (∃ r, r ∈ log_ranges (s_events s) ∧ covered (log_ranges (s_events s)) (sr_seq r) = false ∧ m = summary_message r)
      ∨ (∃ e, e ∈ s_events s ∧ covered (log_ranges (s_events s)) (Seq e) = false ∧ projectEvent e = Some m).
Proof.
  intros Hr. pose proof (reach_log_inv _ Hr) as Hi.
  apply full_projection_spec; [by apply log_inv_valid|by apply log_inv_sorted].
Qed.

(** The projection cache is invisible: whatever appends, restores and
    earlier derivations led to a session, [DeriveMessages] returns what a
    derivation of its log from scratch returns, provided each summary in the
    log covers only positions before its own. *)
Theorem derive_ignores_the_cache s s' :
  reach s → looks_back (s_events s) → Clone s = Ok s' →
  ∃ out, full_projection (s_events s) = Ok out
  ∧ fst (DeriveMessages s) = Ok (cloneChatMessages out) ∧ fst (DeriveMessages s') = Ok (cloneChatMessages out).
Proof.
  intros Hr Hb Hc. destruct (derive_is_full s Hr Hb) as (out & Hf & Hd). exists out. split; [done|]. split; [done|].
  pose proof (reach_restore (options_of s) (s_events s) s' Hc) as Hr'.
  assert (s_events s' = s_events s) as He by (by apply restore_log_built in Hc as [_ Hc]).
  destruct (derive_is_full s' Hr') as (out' & Hf' & Hd'); [by rewrite He|]. rewrite He in Hf'. congruence.
Qed.

(** ** Examples *)

Definition ex_summary (start end_ : Z) : sessionAppendEntry :=
  append_entry "r1" EvContextSummary (DContextSummary (mk_summary "replace" start end_ "they greeted")).
Definition extend (s : Session) (entries : list sessionAppendEntry) : Session :=
  match appendBatch ex_clock s entries with Ok (s', _) => s' | Err _ => s end.
(** Events 1 to 5 are summarised at 8, then the user writes again. *)
Definition ex_compacted : Session :=
  extend (extend ex_session [ex_summary 1 5]) [append_entry "r1" EvUserMessage (DUserMessage (mk_user "again"))].

Lemma extend_reach s entries :
  reach s → forallb entry_stable entries = true → is_ok (appendBatch ex_clock s entries) = true → reach (extend s entries).
Proof.
  intros Hr Hs Hok. unfold extend. destruct (appendBatch ex_clock s entries) as [[s' evs]|] eqn:E; [|done].
  by apply (reach_append ex_clock s entries s' evs).
Qed.

Lemma ex_compacted_reach : reach ex_compacted.
Proof.
  apply extend_reach; [apply extend_reach; [exact ex_session_reach|vm_compute; reflexivity|vm_compute; reflexivity]|
    vm_compute; reflexivity|vm_compute; reflexivity].
Qed.

Definition looks_back_b (events : list SessionEvent) : bool :=
  forallb (λ e, match summary_of e with Some r => sr_end r <? Seq e | None => true end) events.
Lemma looks_back_dec events : looks_back_b events = true → looks_back events.
Proof.
  unfold looks_back_b. rewrite forallb_forall. intros H e d He Ht Hd. apply list_elem_of_In in He. specialize (H e He).
  unfold summary_of in H. rewrite Ht, Hd in H. cbn in H. by bool_to_prop.
Qed.

Lemma conversation_is_the_uncovered_log_witness :
  ∃ out, full_projection (s_events ex_compacted) = Ok out ∧ StronglySorted msg_lt out ∧ (m_Content <$> drop 1 out) = ["again"].
Proof.
  destruct (conversation_is_the_uncovered_log ex_compacted ex_compacted_reach) as (out & H & Hs & _).
  exists out. split; [exact H|]. split; [exact Hs|]. vm_compute in H. injection H as <-. vm_compute. reflexivity.
Defined.

Lemma derive_ignores_the_cache_witness :
  ∃ s' out, Clone ex_compacted = Ok s' ∧ fst (DeriveMessages ex_compacted) = Ok out ∧ fst (DeriveMessages s') = Ok out ∧ length out = 2%nat.
Proof.
  assert (∃ s', Clone ex_compacted = Ok s') as (s' & Hc) by (eexists; vm_compute; reflexivity).
  destruct (derive_ignores_the_cache ex_compacted s' ex_compacted_reach) as (out & Hf & H1 & H2);
    [apply looks_back_dec; vm_compute; reflexivity|exact Hc|].
  exists s', (cloneChatMessages out). split; [exact Hc|]. split; [exact H1|]. split; [exact H2|].
  vm_compute in Hf. injection Hf as <-. vm_compute. reflexivity.
Defined.

(** A summary whose range reaches past its own position: derived, then
    followed by a user message. *)
Definition ex_forward : Session :=
  extend (snd (DeriveMessages (extend ex_session [ex_summary 1 20]))) [append_entry "r1" EvUserMessage (DUserMessage (mk_user "again"))].

(** The append validation accepts a summary whose range reaches past its
    own position; then the live session shows a later message that the same
    log, once restored, hides. *)
Theorem forward_summary_diverges :
  reach ex_forward
  ∧ ∃ s' live restored, Clone ex_forward = Ok s' ∧ fst (DeriveMessages ex_forward) = Ok live
    ∧ fst (DeriveMessages s') = Ok restored ∧ "again" ∈ (m_Content <$> live) ∧ "again" ∉ (m_Content <$> restored).
Proof.
  split.
  - apply extend_reach; [apply reach_derive, extend_reach; [exact ex_session_reach|vm_compute; reflexivity|vm_compute; reflexivity]|
      vm_compute; reflexivity|vm_compute; reflexivity].
  - assert (∃ s', Clone ex_forward = Ok s') as (s' & Hc) by (eexists; vm_compute; reflexivity).
    exists s'. assert (∃ live, fst (DeriveMessages ex_forward) = Ok live) as (live & Hl) by (eexists; vm_compute; reflexivity).
    pose proof Hc as Hc'. vm_compute in Hc'. injection Hc' as <-.
    eexists live, _. split; [exact Hc|]. split; [exact Hl|]. split; [vm_compute; reflexivity|].
    vm_compute in Hl. injection Hl as <-. split.
    + apply (bool_decide_unpack _). vm_compute. exact I.
    + apply (bool_decide_unpack _). vm_compute. exact I.
Qed.
