(* ===== verification/Compactor.v ===== *)
(** * Context compaction: [src/pkg/core/context.go] and
      [Session.deriveRecentCompactedMessages] of [src/pkg/core/session.go]

    [RecentTurnsCompactor.Compact] prunes stale tool results and drops whole
    turns from the front of the history.  The session has a fused fast path that
    computes the compacted history straight from the log; the theorems say when
    the two agree, and that they do not always. *)
From S2P Require Import Prelude GoString Json Scope Sha256 GoTime Principal Payload Events Message Session Projection SessionLog SessionClaims ProjectionFacts.
From stdpp Require Import gmap strings list sorting.
From Stdlib Require Import ZArith Lia Ascii.
Open Scope Z_scope.

Record RecentTurnsCompactor := mk_compactor { MaxMessages : Z; MaxToolResultChars : Z }.

Definition ElidedToolResultMarker := "[earlier tool result elided".

Definition elidedToolResult (c : RecentTurnsCompactor) (content : string) : option string :=
  if (MaxToolResultChars c <=? 0) || (str_len content <=? MaxToolResultChars c) then None
  else
    let chars := Z.of_nat (length (units content)) in
    if chars <=? MaxToolResultChars c then None
    else Some (ElidedToolResultMarker +:+ ": " +:+ z_text chars +:+ " chars]").

Definition is_role (r : string) (m : ChatMessage) : bool := bool_decide (Role m = r).

(** [lastUserIndex], and the same loop in [pruneOldToolResults]. *)
Fixpoint last_user_from (i : Z) (messages : list ChatMessage) (result : Z) : Z :=
  match messages with
  | [] => result
  | m :: messages => last_user_from (i + 1) messages (if is_role RoleUser m then i else result)
  end.
Definition lastUserIndex (messages : list ChatMessage) : Z := last_user_from 0 messages (-1).

Definition set_content (content : string) (m : ChatMessage) : ChatMessage :=
  mk_msg (Role m) content (m_ToolCall m) (m_ToolCalls m) (ToolCallID m) (SourceSeq m) (Provenance m).

Definition prunable (c : RecentTurnsCompactor) (m : ChatMessage) : bool :=
  is_role RoleTool m && bool_decide (is_Some (elidedToolResult c (m_Content m))).

Definition elide (c : RecentTurnsCompactor) (m : ChatMessage) : ChatMessage :=
  if is_role RoleTool m then match elidedToolResult c (m_Content m) with Some content => set_content content m | None => m end else m.

(** The messages at the indices [i, j) elided. *)
Definition elide_range (c : RecentTurnsCompactor) (i j : nat) (messages : list ChatMessage) : list ChatMessage :=
  take i messages ++ (elide c <$> take (j - i) (drop i messages)) ++ drop (i + (j - i)) messages.

Definition pruneOldToolResults (c : RecentTurnsCompactor) (messages : list ChatMessage) : list ChatMessage :=
  let lastUser := lastUserIndex messages in
  if lastUser <=? 0 then messages
  else match list_find (λ m, prunable c m = true) (take (Z.to_nat lastUser) messages) with
       | None => messages
       | Some (firstPrunable, _) => elide_range c firstPrunable (Z.to_nat lastUser) messages
       end.

(** The loop of [windowTurns]: the earliest fitting and the last turn boundary. *)
Fixpoint window_loop (max total i : Z) (messages : list ChatMessage) (firstFitting lastBoundary : Z) : Z * Z :=
  match messages with
  | [] => (firstFitting, lastBoundary)
  | m :: messages =>
    if is_role RoleUser m && (0 <? i) then
      window_loop max total (i + 1) messages (if (firstFitting =? 0) && (total - i <=? max) then i else firstFitting) i
    else window_loop max total (i + 1) messages firstFitting lastBoundary
  end.

Definition windowTurns (c : RecentTurnsCompactor) (messages : list ChatMessage) : list ChatMessage :=
  let total := Z.of_nat (length messages) in
  if total <=? MaxMessages c then messages
  else
    let '(firstFitting, lastBoundary) := window_loop (MaxMessages c) total 0 messages 0 0 in
    let keep := if firstFitting =? 0 then lastBoundary else firstFitting in
    if keep =? 0 then messages else drop (Z.to_nat keep) messages.

Definition Compact (c : RecentTurnsCompactor) (messages : list ChatMessage) : list ChatMessage :=
  let out := if 0 <? MaxToolResultChars c then pruneOldToolResults c messages else messages in
  if 0 <? MaxMessages c then windowTurns c out else out.

(** ** The fused path *)

(** The backward scan for the first event to keep: the latest turn boundary, the
    candidate, and whether the window was exceeded; nothing when a summary is
    met. *)
Fixpoint window_scan (max : Z) (events : list SessionEvent) (index seen latest candidate : Z) : option (Z * Z * bool) :=
  match events with
  | [] => Some (latest, candidate, false)
  | e :: events =>
    match ev_Type e with
    | EvContextSummary => None
    | t =>
      if negb (modelVisibleEvent t) then window_scan max events (index - 1) seen latest candidate
      else
        let boundary := bool_decide (t = EvUserMessage) && (0 <? seen) in
        let latest := if boundary && (latest <? 0) then index else latest in
        if boundary && negb (seen + 1 <=? max) then Some (latest, candidate, true)
        else
          let candidate := if boundary then index else candidate in
          if (max <? seen + 1) && (0 <=? latest) then Some (latest, candidate, true)
          else window_scan max events (index - 1) (seen + 1) latest candidate
    end
  end.

(** The projection of a suffix of the log, nothing when it has a summary. *)
Fixpoint project_suffix (events : list SessionEvent) : option (list ChatMessage) :=
  match events with
  | [] => Some []
  | e :: events =>
    match ev_Type e with
    | EvContextSummary => None
    | _ => rest ← project_suffix events; Some (option_list (cloneChatMessage <$> projectEvent e) ++ rest)
    end
  end.

(** Stale tool results of the kept messages elided. *)
Definition elide_stale (c : RecentTurnsCompactor) (messages : list ChatMessage) : list ChatMessage :=
  elide_range c 0 (Z.to_nat (lastUserIndex messages)) messages.

Definition first_event (c : RecentTurnsCompactor) (s : Session) : option Z :=
  if 0 <? MaxMessages c then
    match window_scan (MaxMessages c) (reverse (s_events s)) (s_len s - 1) 0 (-1) (-1) with
    | None => None
    | Some (latest, candidate, exceeded) =>
      Some (if exceeded && (0 <=? candidate) then candidate else if exceeded && (0 <=? latest) then latest else 0)
    end
  else Some 0.

Definition deriveRecentCompactedMessages (c : RecentTurnsCompactor) (s : Session) : option (list ChatMessage) :=
  if negb (s_summaryEvents s =? 0) then None
  else
    firstEvent ← first_event c s;
    if s_projValid s && (s_projCount s =? s_len s) && (s_projSummaries s =? 0) then
      let startSeq := match s_events s !! Z.to_nat firstEvent with Some e => Seq e | None => -1 end in
      Some (elide_stale c (cloneChatMessage <$> List.filter (λ m, (startSeq <? 0) || (startSeq <=? SourceSeq m)) (s_projCache s)))
    else
      out ← project_suffix (drop (Z.to_nat firstEvent) (s_events s));
      Some (elide_stale c out).

(** ** Elision *)

Lemma elide_role c m : Role (elide c m) = Role m.
Proof. unfold elide. destruct (is_role _ _); [|done]. by destruct (elidedToolResult _ _). Qed.

Lemma elide_none c m : prunable c m = false → elide c m = m.
Proof.
  unfold prunable, elide. destruct (is_role _ _); [|done]. cbn. intros H. bool_to_prop.
  destruct (elidedToolResult c (m_Content m)); [|done]. exfalso. eauto.
Qed.

(** A loop over [i, j) is a loop over [0, j) when nothing changes before [i]. *)
Definition elide_upto (c : RecentTurnsCompactor) (n : nat) (messages : list ChatMessage) : list ChatMessage :=
  (elide c <$> take n messages) ++ drop n messages.

Lemma elide_range_upto c i j ms : (i ≤ j)%nat → Forall (λ m, prunable c m = false) (take i ms) → elide_range c i j ms = elide_upto c j ms.
Proof.
  intros Hij Hnone. unfold elide_range, elide_upto. replace (i + (j - i))%nat with j by lia.
  assert (take j ms = take i ms ++ take (j - i) (drop i ms)) as -> by (rewrite take_take_drop; f_equal; lia).
  rewrite app_assoc, fmap_app. do 2 f_equal.
  induction Hnone as [|m l Hm _ IH]; [done|]. cbn. by rewrite (elide_none c m Hm), <- IH.
Qed.

Lemma pruneOldToolResults_upto c ms :
  pruneOldToolResults c ms = if lastUserIndex ms <=? 0 then ms else elide_upto c (Z.to_nat (lastUserIndex ms)) ms.
Proof.
  unfold pruneOldToolResults. destruct (lastUserIndex ms <=? 0); [done|]. set (n := Z.to_nat (lastUserIndex ms)).
  destruct (list_find _ _) as [[i m]|] eqn:E.
  - apply list_find_Some in E as (Hi & Hp & Hbefore). apply lookup_take_Some in Hi as [Hi Hlt]. apply elide_range_upto; [lia|].
    apply Forall_lookup. intros j x Hx. apply lookup_take_Some in Hx as [Hx Hj]. apply not_true_iff_false.
    intros Hp'. refine (Hbefore j x _ Hj Hp'). rewrite lookup_take_lt by lia; done.
  - apply list_find_None in E. unfold elide_upto. rewrite <- (take_drop n ms) at 1. f_equal.
    induction E as [|m l Hm _ IH]; [done|]. cbn. rewrite <- IH, elide_none; [done|by apply not_true_is_false].
Qed.

Lemma elide_upto_length c n ms : length (elide_upto c n ms) = length ms.
Proof. unfold elide_upto. rewrite length_app, length_fmap, length_take, length_drop. lia. Qed.

Lemma drop_elide_upto c n k ms : drop k (elide_upto c n ms) = elide_upto c (n - k) (drop k ms).
Proof.
  unfold elide_upto. rewrite drop_app, <- fmap_drop, skipn_firstn_comm, length_fmap, length_take, !drop_drop. f_equal.
  destruct (decide (n ≤ length ms)%nat); [f_equal; lia|]. rewrite !drop_ge by lia. done.
Qed.

(** ** The last user message *)

Lemma last_user_from_spec ms : ∀ i r,
  (last_user_from i ms r = r ∧ Forall (λ m, is_role RoleUser m = false) ms)
  ∨ ∃ p m, ms !! p = Some m ∧ is_role RoleUser m = true ∧ last_user_from i ms r = i + Z.of_nat p
      ∧ Forall (λ m, is_role RoleUser m = false) (drop (S p) ms).
Proof.
  induction ms as [|m ms IH]; intros i r; cbn; [left; split; [done|constructor]|].
  destruct (IH (i + 1) (if is_role RoleUser m then i else r)) as [[-> Hall]|(p & x & Hp & Hx & -> & Hall)].
  - destruct (is_role RoleUser m) eqn:E; [right; exists O, m; split_and!; try done; lia|left; split; [done|by constructor]].
  - right. exists (S p), x. split_and!; try done. lia.
Qed.

(** Nothing, or the position of the last user message. *)
Lemma lastUserIndex_spec ms :
  (lastUserIndex ms = -1 ∧ Forall (λ m, is_role RoleUser m = false) ms)
  ∨ ∃ p m, ms !! p = Some m ∧ is_role RoleUser m = true ∧ lastUserIndex ms = Z.of_nat p
      ∧ Forall (λ m, is_role RoleUser m = false) (drop (S p) ms).
Proof. unfold lastUserIndex. destruct (last_user_from_spec ms 0 (-1)) as [?|(p & m & ? & ? & -> & ?)]; [by left|right; exists p, m]. split_and!; done. Qed.

Lemma lastUserIndex_roles ms ms' : Role <$> ms = Role <$> ms' → lastUserIndex ms = lastUserIndex ms'.
Proof.
  unfold lastUserIndex. generalize 0 (-1). revert ms'.
  induction ms as [|m ms IH]; intros [|m' ms'] i r H; try done. cbn in *. injection H as Hr H.
  assert (is_role RoleUser m = is_role RoleUser m') as -> by (unfold is_role; by rewrite Hr). by apply IH.
Qed.

Lemma lastUserIndex_drop k ms : Z.of_nat k ≤ lastUserIndex ms → lastUserIndex (drop k ms) = lastUserIndex ms - Z.of_nat k.
Proof.
  intros Hk. destruct (lastUserIndex_spec ms) as [[Hl _]|(p & m & Hp & Hm & Hl & Hafter)]; [lia|]. rewrite Hl in *.
  assert (drop k ms !! (p - k)%nat = Some m) as Hp' by (rewrite lookup_drop; replace (k + (p - k))%nat with p by lia; done).
  destruct (lastUserIndex_spec (drop k ms)) as [[_ Hnone]|(q & x & Hq & Hx & -> & Hq')].
  - rewrite Forall_lookup in Hnone. specialize (Hnone _ _ Hp'). cbn in Hnone. congruence.
  - rewrite lookup_drop in Hq. rewrite Forall_lookup in Hafter, Hq'. destruct (Nat.lt_trichotomy p (k + q)) as [Hlt|[Heq|Hgt]]; [|lia|].
    + specialize (Hafter (k + q - S p)%nat x). rewrite lookup_drop in Hafter. replace (S p + (k + q - S p))%nat with (k + q)%nat in Hafter by lia.
      specialize (Hafter Hq). cbn in Hafter. congruence.
    + specialize (Hq' (p - k - S q)%nat m). rewrite lookup_drop, lookup_drop in Hq'.
      replace (k + (S q + (p - k - S q)))%nat with p in Hq' by lia. specialize (Hq' Hp). cbn in Hq'. congruence.
Qed.

Lemma elide_upto_roles c n ms : Role <$> elide_upto c n ms = Role <$> ms.
Proof.
  unfold elide_upto. rewrite fmap_app, <- list_fmap_compose. rewrite <- (take_drop n ms) at 3. rewrite fmap_app. f_equal.
  apply list_fmap_ext. intros i m _. apply elide_role.
Qed.

(** ** Windows *)

(** The index from which [windowTurns] keeps the messages. *)
Definition keep_index (c : RecentTurnsCompactor) (ms : list ChatMessage) : Z :=
  let total := Z.of_nat (length ms) in
  if total <=? MaxMessages c then 0
  else let '(firstFitting, lastBoundary) := window_loop (MaxMessages c) total 0 ms 0 0 in if firstFitting =? 0 then lastBoundary else firstFitting.

Lemma windowTurns_keep c ms : windowTurns c ms = drop (Z.to_nat (keep_index c ms)) ms.
Proof.
  unfold windowTurns, keep_index. destruct (_ <=? _); [done|]. destruct (window_loop _ _ _ _ _ _) as [f l].
  destruct (if f =? 0 then l else f) eqn:E; [done|..]; by destruct (_ =? _).
Qed.

Lemma window_loop_roles max total ms ms' : Role <$> ms = Role <$> ms' → ∀ i f l, window_loop max total i ms f l = window_loop max total i ms' f l.
Proof.
  revert ms'. induction ms as [|m ms IH]; intros [|m' ms'] H i f l; try done. cbn in *. injection H as Hr H. unfold is_role. rewrite Hr.
  destruct (_ && _); by apply IH.
Qed.

Lemma keep_index_roles c ms ms' : Role <$> ms = Role <$> ms' → keep_index c ms = keep_index c ms'.
Proof.
  intros H. assert (length ms = length ms') as Hl by (apply (f_equal length) in H; by rewrite !length_fmap in H).
  unfold keep_index. rewrite Hl. destruct (_ <=? _); [done|]. by rewrite (window_loop_roles _ _ ms ms' H).
Qed.

Definition user_at (ms : list ChatMessage) (i : Z) : Prop := 0 ≤ i ∧ ∃ m, ms !! Z.to_nat i = Some m ∧ is_role RoleUser m = true.

Lemma user_at_cons m ms k : user_at (m :: ms) k ↔ (k = 0 ∧ is_role RoleUser m = true) ∨ (0 < k ∧ user_at ms (k - 1)).
Proof.
  unfold user_at. destruct (decide (k = 0)) as [->|Hk]; [cbn; split|split].
  - intros (_ & x & [= ->] & H). by left.
  - intros [[_ H]|[? _]]; [|lia]. split; [lia|]. by exists m.
  - intros (Hp & x & Hx & H). right. split; [lia|]. split; [lia|]. exists x. split; [|done].
    replace (Z.to_nat k) with (S (Z.to_nat (k - 1))) in Hx by lia. done.
  - intros [[? _]|(_ & Hp & x & Hx & H)]; [done|]. split; [lia|]. exists x. split; [|done].
    replace (Z.to_nat k) with (S (Z.to_nat (k - 1))) by lia. done.
Qed.

(** What the loop finds among the positions after the first: [Q j] holds of the
    user messages not yet passed. *)
Lemma window_loop_spec max total ms : ∀ i f l f' l', 0 ≤ i → 0 ≤ f → window_loop max total i ms f l = (f', l') →
  let Q j := i ≤ j ∧ 0 < j ∧ user_at ms (j - i) in
  ((0 < f ∧ f' = f) ∨ (f = 0 ∧ f' = 0 ∧ ∀ j, Q j → max < total - j)
   ∨ (f = 0 ∧ Q f' ∧ total - f' ≤ max ∧ ∀ j, Q j → total - j ≤ max → f' ≤ j))
  ∧ ((l' = l ∧ ∀ j, ¬ Q j) ∨ (Q l' ∧ ∀ j, Q j → j ≤ l')).
Proof.
  induction ms as [|m ms IH]; intros i f l f' l' Hi Hf H; cbn in H.
  { injection H as <- <-. assert (∀ k, ¬ user_at [] k) as Hno by (intros k (_ & x & Hx & _); by rewrite lookup_nil in Hx).
    split; [|left; split; [done|]; intros j (_ & _ & ?); by eapply Hno].
    destruct (decide (f = 0)); [right; left|left; lia]. split_and!; [done..|]. intros j (_ & _ & Hu). by apply Hno in Hu. }
  assert (∀ j, (i ≤ j ∧ 0 < j ∧ user_at (m :: ms) (j - i)) ↔ (j = i ∧ 0 < i ∧ is_role RoleUser m = true) ∨ (i + 1 ≤ j ∧ 0 < j ∧ user_at ms (j - (i + 1)))) as HQ.
  { intros j. rewrite user_at_cons. replace (j - i - 1) with (j - (i + 1)) by lia. split.
    - intros (? & ? & [[? ?]|[? ?]]); [left; split_and!; [lia..|done]|right; split_and!; [lia..|done]].
    - intros [(-> & ? & ?)|(? & ? & ?)]; (split; [lia|]; split; [lia|]); [left|right]; (split; [lia|done]). }
  cbn zeta. setoid_rewrite HQ. destruct (is_role RoleUser m && (0 <? i)) eqn:E.
  - bool_to_prop. destruct ((f =? 0) && (total - i <=? max)) eqn:Efit; bool_to_prop.
    + subst f. apply IH in H as [Hfirst Hlast]; [|lia..]. split.
      * destruct Hfirst as [[? ->]|[(-> & ? & ?)|(-> & _)]]; [|lia..]. right. right. split; [done|]. split; [by left|]. split; [lia|].
        intros j [(-> & _)|(? & _)]; lia.
      * right. destruct Hlast as [[-> Hno]|[HQl Hmax]]; [split; [by left|]; intros j [(-> & _)|Hj]; [lia|by apply Hno in Hj]|].
        split; [by right|]. intros j [(-> & _)|Hj]; [destruct HQl; lia|by apply Hmax].
    + apply andb_false_iff in Efit. apply IH in H as [Hfirst Hlast]; [|lia..]. split.
      * destruct Hfirst as [[? ->]|[(-> & -> & Hno)|(-> & HQf & Hle & Hmin)]]; [by left|right; left|right; right].
        -- split_and!; [done..|]. intros j [(-> & _)|Hj]; [destruct Efit; bool_to_prop; lia|by apply Hno].
        -- split; [done|]. split; [by right|]. split; [done|]. intros j [(-> & _)|Hj] Hfit; [destruct Efit; bool_to_prop; lia|by apply Hmin].
      * right. destruct Hlast as [[-> Hno]|[HQl Hmax]]; [split; [by left|]; intros j [(-> & _)|Hj]; [lia|by apply Hno in Hj]|].
        split; [by right|]. intros j [(-> & _)|Hj]; [destruct HQl; lia|by apply Hmax].
  - assert (¬ (0 < i ∧ is_role RoleUser m = true)) as Hno.
    { intros [Hi0 Hu]. rewrite Hu in E. cbn in E. bool_to_prop. lia. }
    apply IH in H as [Hfirst Hlast]; [|lia..]. split.
    + destruct Hfirst as [?|[(-> & -> & Hx)|(-> & HQf & Hle & Hmin)]]; [by left|right; left|right; right].
      * split_and!; [done..|]. intros j [(_ & ? & ?)|Hj]; [tauto|by apply Hx].
      * split; [done|]. split; [by right|]. split; [done|]. intros j [(_ & ? & ?)|Hj]; [tauto|by apply Hmin].
    + destruct Hlast as [[-> Hx]|[HQl Hmax]]; [left|right].
      * split; [done|]. intros j [(_ & ? & ?)|Hj]; [tauto|by apply Hx in Hj].
      * split; [by right|]. intros j [(_ & ? & ?)|Hj]; [tauto|by apply Hmax].
Qed.

Lemma keep_index_spec c ms k :
  0 < MaxMessages c → keep_index c ms = k → 0 ≤ k ∧
  (let n := Z.of_nat (length ms) in
   let Q j := 0 < j ∧ user_at ms j in
   (n ≤ MaxMessages c ∧ k = 0)
   ∨ (MaxMessages c < n ∧ Q k ∧ n - k ≤ MaxMessages c ∧ ∀ j, Q j → n - j ≤ MaxMessages c → k ≤ j)
   ∨ (MaxMessages c < n ∧ (∀ j, Q j → MaxMessages c < n - j) ∧ ((k = 0 ∧ ∀ j, ¬ Q j) ∨ (Q k ∧ ∀ j, Q j → j ≤ k)))).
Proof.
  intros HM. unfold keep_index. destruct (_ <=? _) eqn:E; bool_to_prop; [intros <-; split; [lia|by left]|].
  destruct (window_loop _ _ _ _ _ _) as [f l] eqn:Ew. intros <-. cbn zeta.
  assert (∀ j, (0 < j ∧ user_at ms j) ↔ (0 ≤ j ∧ 0 < j ∧ user_at ms (j - 0))) as HQ.
  { intros j. rewrite Z.sub_0_r. split; [intros [? ?]; split_and!; [lia|done..]|by intros (_ & ? & ?)]. }
  apply window_loop_spec in Ew as [Hfirst Hlast]; [|lia..]. setoid_rewrite HQ.
  destruct Hfirst as [[? _]|[(_ & -> & Hno)|(_ & HQf & Hle & Hmin)]]; [lia| |].
  - cbn. split; [destruct Hlast as [[-> _]|[(? & ? & _) _]]; lia|]. right. right. split; [done|]. split; [done|].
    destruct Hlast as [[-> ?]|[? ?]]; [by left|by right].
  - rewrite (proj2 (Z.eqb_neq f 0)) by lia. split; [lia|]. right. left. done.
Qed.

Lemma elide_off c n ms : MaxToolResultChars c ≤ 0 → elide_upto c n ms = ms.
Proof.
  intros H. unfold elide_upto. rewrite <- (take_drop n ms) at 3. f_equal. rewrite <- (list_fmap_id (take n ms)) at 2.
  apply list_fmap_ext. intros i m _. apply elide_none. unfold prunable, elidedToolResult.
  rewrite (proj2 (Z.leb_le _ _) H). cbn. by rewrite andb_false_r.
Qed.

Lemma elide_stale_upto c ms : elide_stale c ms = elide_upto c (Z.to_nat (lastUserIndex ms)) ms.
Proof. apply elide_range_upto; [lia|]. rewrite take_0. constructor. Qed.

Lemma elide_upto_0 c ms : elide_upto c 0 ms = ms.
Proof. unfold elide_upto. by rewrite take_0, drop_0. Qed.

Lemma user_at_last ms k : user_at ms k → k ≤ lastUserIndex ms.
Proof.
  intros (Hk & m & Hm & Hu). destruct (lastUserIndex_spec ms) as [[-> Hno]|(p & x & _ & _ & -> & Hafter)].
  - rewrite Forall_lookup in Hno. specialize (Hno _ _ Hm). cbn in Hno. congruence.
  - destruct (decide (k ≤ Z.of_nat p)); [done|]. rewrite Forall_lookup in Hafter. specialize (Hafter (Z.to_nat k - S p)%nat m).
    rewrite lookup_drop in Hafter. replace (S p + (Z.to_nat k - S p))%nat with (Z.to_nat k) in Hafter by lia. specialize (Hafter Hm). cbn in Hafter. congruence.
Qed.

(** Pruning and windowing is: keep a suffix, then elide what is stale in it. *)
Lemma Compact_suffix c ms :
  Compact c ms = elide_stale c (drop (Z.to_nat (if 0 <? MaxMessages c then keep_index c ms else 0)) ms).
Proof.
  set (k := if 0 <? MaxMessages c then keep_index c ms else 0).
  assert (k ≤ 0 ∨ k ≤ lastUserIndex ms) as Hk.
  { subst k. destruct (0 <? _) eqn:E; [|left; lia]. bool_to_prop.
    destruct (keep_index_spec c ms _ E eq_refl) as [? [[_ ->]|[(_ & [_ ?] & _)|(_ & _ & [[-> _]|[[_ ?] _]])]]]; [by left|..];
      first [by left|right; by apply user_at_last]. }
  assert (∀ out, Role <$> out = Role <$> ms → (if 0 <? MaxMessages c then windowTurns c out else out) = drop (Z.to_nat k) out) as Hwin.
  { intros out Hr. subst k. destruct (0 <? _); [|done]. by rewrite windowTurns_keep, (keep_index_roles c out ms Hr). }
  unfold Compact. destruct (0 <? MaxToolResultChars c) eqn:Et; bool_to_prop.
  - rewrite pruneOldToolResults_upto, elide_stale_upto. destruct (lastUserIndex ms <=? 0) eqn:El; bool_to_prop.
    + rewrite Hwin by done. destruct Hk as [Hk|Hk]; (replace (Z.to_nat k) with 0%nat by lia); rewrite drop_0;
        replace (Z.to_nat (lastUserIndex ms)) with 0%nat by lia; by rewrite elide_upto_0.
    + rewrite Hwin by apply elide_upto_roles. rewrite drop_elide_upto, lastUserIndex_drop by lia. f_equal. lia.
  - rewrite Hwin by done. rewrite elide_stale_upto, elide_off by lia. done.
Qed.

(** A window never drops everything. *)
Lemma keep_nonempty c ms : drop (Z.to_nat (if 0 <? MaxMessages c then keep_index c ms else 0)) ms = [] → ms = [].
Proof.
  destruct (0 <? MaxMessages c) eqn:E; [|done]. bool_to_prop. intros Hd. apply (f_equal length) in Hd. rewrite length_drop in Hd. cbn in Hd.
  assert (∀ k, user_at ms k → (Z.to_nat k < length ms)%nat) as Hlt by (intros k (_ & m & Hm & _); by eapply lookup_lt_Some).
  destruct (keep_index_spec c ms _ E eq_refl) as [_ [[_ Hk]|[(_ & [_ Hk] & _)|(_ & _ & [[Hk _]|[[_ Hk] _]])]]];
    try (apply Hlt in Hk; lia); rewrite Hk in Hd; destruct ms; [done|cbn in Hd; lia|done|cbn in Hd; lia].
Qed.

(** ** The backward scan *)

(** The model-visible events with their index, and whether they are user
    messages. *)
Fixpoint entries (k : Z) (events : list SessionEvent) : list (Z * bool) :=
  match events with
  | [] => []
  | e :: events =>
    (if modelVisibleEvent (ev_Type e) then [(k, bool_decide (ev_Type e = EvUserMessage))] else []) ++ entries (k + 1) events
  end.

(** The scan over those entries. *)
Fixpoint entry_scan (max : Z) (l : list (Z * bool)) (seen latest candidate : Z) : Z * Z * bool :=
  match l with
  | [] => (latest, candidate, false)
  | (index, user) :: l =>
    let boundary := user && (0 <? seen) in
    let latest := if boundary && (latest <? 0) then index else latest in
    if boundary && negb (seen + 1 <=? max) then (latest, candidate, true)
    else
      let candidate := if boundary then index else candidate in
      if (max <? seen + 1) && (0 <=? latest) then (latest, candidate, true)
      else entry_scan max l (seen + 1) latest candidate
  end.

Lemma entries_snoc events e : ∀ k,
  entries k (events ++ [e]) =
  entries k events ++ (if modelVisibleEvent (ev_Type e) then [(k + Z.of_nat (length events), bool_decide (ev_Type e = EvUserMessage))] else []).
Proof.
  induction events as [|x events IH]; intros k; cbn [app entries length].
  - rewrite app_nil_r. by rewrite Z.add_0_r.
  - rewrite IH, app_assoc. replace (k + 1 + Z.of_nat (length events)) with (k + Z.of_nat (S (length events))) by lia. done.
Qed.

Lemma window_scan_entries max events : ∀ seen latest candidate,
  Forall (λ e, ev_Type e ≠ EvContextSummary) events →
  window_scan max (reverse events) (Z.of_nat (length events) - 1) seen latest candidate
  = Some (entry_scan max (reverse (entries 0 events)) seen latest candidate).
Proof.
  induction events as [|e events IH] using rev_ind; intros seen latest candidate Hno; [done|].
  apply Forall_app in Hno as [Hno He]. rewrite Forall_singleton in He.
  rewrite reverse_snoc, entries_snoc, reverse_app, length_app, Z.add_0_l. cbn [length].
  replace (Z.of_nat (length events + 1) - 1) with (Z.of_nat (length events)) by lia. cbn [window_scan].
  destruct (ev_Type e) eqn:Et; try done; cbn [modelVisibleEvent negb]; try (by apply IH);
    match goal with |- context [reverse [?a] ++ ?l] => change (reverse [a] ++ l) with (a :: l) end; cbn [entry_scan]; rewrite IH by done;
    by repeat (destruct (_ && _)).
Qed.

(** A boundary at position [p] of the entries not yet scanned. *)
Definition bound (l : list (Z * bool)) (seen : Z) (p : nat) (k : Z) : Prop := l !! p = Some (k, true) ∧ 0 < seen + Z.of_nat p.

Lemma bound_cons k0 u l seen p k :
  bound ((k0, u) :: l) seen p k ↔ (p = O ∧ k = k0 ∧ u = true ∧ 0 < seen) ∨ ∃ q, p = S q ∧ bound l (seen + 1) q k.
Proof.
  unfold bound. destruct p as [|p]; cbn.
  - rewrite Z.add_0_r. split; [intros [[= -> ->] ?]; by left|]. intros [(_ & -> & -> & ?)|(q & Hq & _)]; [by split|discriminate Hq].
  - replace (seen + Z.pos (Pos.of_succ_nat p)) with (seen + 1 + Z.of_nat p) by lia. split; [intros [? ?]; right; exists p; split_and!; [done..|lia]|].
    intros [(Hp & _)|(q & [= ->] & ? & ?)]; [discriminate Hp|split; [done|lia]].
Qed.

Lemma entry_scan_spec max l : ∀ seen latest cand l' c' ex,
  0 ≤ seen → Forall (λ x, 0 ≤ x.1) l → ¬ (max < seen ∧ 0 ≤ latest) → entry_scan max l seen latest cand = (l', c', ex) →
  ((0 ≤ latest ∧ l' = latest) ∨ (latest < 0 ∧ l' = latest ∧ ∀ p k, ¬ bound l seen p k)
   ∨ (latest < 0 ∧ ∃ p, bound l seen p l' ∧ ∀ q k, bound l seen q k → (p ≤ q)%nat))
  ∧ ((c' = cand ∧ ∀ p k, bound l seen p k → max < seen + Z.of_nat p + 1)
     ∨ ∃ p, bound l seen p c' ∧ seen + Z.of_nat p + 1 ≤ max ∧ ∀ q k, bound l seen q k → seen + Z.of_nat q + 1 ≤ max → (q ≤ p)%nat)
  ∧ (ex = true ↔ max < seen + Z.of_nat (length l) ∧ 0 ≤ l').
Proof.
  induction l as [|[k0 u] l IH]; intros seen latest cand l' c' ex Hseen Hpos Hinv H; cbn in H.
  { injection H as <- <- <-. assert (∀ p k, ¬ bound [] seen p k) as Hno by (intros p k [Hp _]; by rewrite lookup_nil in Hp).
    split; [destruct (decide (0 ≤ latest)); [by left|right; left; split; [lia|done]]|].
    split; [left; split; [done|]; intros p k Hb; by apply Hno in Hb|]. cbn. split; [done|]. intros. exfalso. apply Hinv. lia. }
  apply Forall_cons in Hpos as [Hk0 Hpos]. cbn in Hk0.
  assert (∀ p k, bound l (seen + 1) p k → bound ((k0, u) :: l) seen (S p) k) as Hup by (intros p k ?; apply bound_cons; right; by exists p).
  cbn [length]. destruct (u && (0 <? seen)) eqn:Eb; cbn [andb negb] in H.
  - bool_to_prop. subst u. assert (bound ((k0, true) :: l) seen 0 k0) as H0 by (apply bound_cons; by left).
    set (latest1 := if latest <? 0 then k0 else latest) in *.
    assert (0 ≤ latest1 ∧ (0 ≤ latest → latest1 = latest) ∧ (latest < 0 → latest1 = k0)) as (Hl1 & Hl2 & Hl3).
    { subst latest1. destruct (latest <? 0) eqn:El; bool_to_prop; split_and!; lia. }
    assert ((0 ≤ latest ∧ latest1 = latest) ∨ (latest < 0 ∧ latest1 = latest ∧ ∀ p k, ¬ bound ((k0, true) :: l) seen p k)
      ∨ (latest < 0 ∧ ∃ p, bound ((k0, true) :: l) seen p latest1 ∧ ∀ q k, bound ((k0, true) :: l) seen q k → (p ≤ q)%nat)) as Hlatest.
    { destruct (decide (0 ≤ latest)); [left; split; [done|by apply Hl2]|right; right]. split; [lia|]. exists O. rewrite Hl3 by lia. split; [done|lia]. }
    destruct (seen + 1 <=? max) eqn:Efit; cbn in H; bool_to_prop.
    + rewrite (proj2 (Z.ltb_ge max (seen + 1))) in H by lia. cbn [andb] in H.
      apply IH in H as (Hl & Hc & Hex); [|lia|done|lia]. destruct Hl as [[_ ->]|[(? & _)|(? & _)]]; [|lia..]. split; [done|]. split; [right|].
      * destruct Hc as [[-> Hno]|(p & Hb & Hle & Hmax)].
        -- exists O. split; [done|]. split; [lia|]. intros q k Hq Hfit. apply bound_cons in Hq as [(-> & _)|(q' & -> & Hq)]; [lia|]. apply Hno in Hq. lia.
        -- exists (S p). split; [by apply Hup|]. split; [lia|]. intros q k Hq Hfit. apply bound_cons in Hq as [(-> & _)|(q' & -> & Hq)]; [lia|].
           specialize (Hmax _ _ Hq). lia.
      * rewrite Hex. split; intros [? ?]; (split; [lia|done]).
    + injection H as <- <- <-. split; [done|]. split; [left; split; [done|]; intros p k Hb; lia|]. split; [|done]. intros _. split; [lia|done].
  - assert (∀ p k, bound ((k0, u) :: l) seen p k → ∃ q, p = S q ∧ bound l (seen + 1) q k) as Hdown.
    { intros p k Hb. apply bound_cons in Hb as [(_ & _ & -> & Hs)|?]; [|done]. rewrite (proj2 (Z.ltb_lt 0 seen) Hs) in Eb. done. }
    destruct ((max <? seen + 1) && (0 <=? latest)) eqn:Eex.
    + bool_to_prop. injection H as <- <- <-. split; [by left|]. split; [left; split; [done|]|].
      * intros p k Hb. apply Hdown in Hb as (q & -> & _). lia.
      * split; [|done]. intros _. split; [lia|done].
    + assert (¬ (max < seen + 1 ∧ 0 ≤ latest)) as Hinv' by (intros [H1 H2]; apply Z.ltb_lt in H1; apply Z.leb_le in H2; by rewrite H1, H2 in Eex).
      apply IH in H as (Hl & Hc & Hex); [|lia|done|done]. split; [|split].
      * destruct Hl as [?|[(? & -> & Hno)|(? & p & Hb & Hmin)]]; [by left|right; left|right; right].
        -- split_and!; [done..|]. intros p k Hb. apply Hdown in Hb as (q & -> & Hb). by apply Hno in Hb.
        -- split; [done|]. exists (S p). split; [by apply Hup|]. intros q k Hq. apply Hdown in Hq as (q' & -> & Hq). apply Hmin in Hq. lia.
      * destruct Hc as [[-> Hno]|(p & Hb & Hle & Hmax)]; [left|right].
        -- split; [done|]. intros p k Hb. apply Hdown in Hb as (q & -> & Hb). apply Hno in Hb. lia.
        -- exists (S p). split; [by apply Hup|]. split; [lia|]. intros q k Hq Hfit. apply Hdown in Hq as (q' & -> & Hq). specialize (Hmax _ _ Hq). lia.
      * rewrite Hex. split; intros [? ?]; (split; [lia|done]).
Qed.

(** ** Entries and messages *)

Lemma valid_projects e :
  event_valid e → modelVisibleEvent (ev_Type e) = true →
  ∃ m, projectEvent e = Some m ∧ is_role RoleUser m = bool_decide (ev_Type e = EvUserMessage) ∧ SourceSeq m = Seq e.
Proof.
  unfold event_valid, validateSessionEvent. intros Hv Ht. apply rbind_ok in Hv as (_ & _ & Hv). do 3 apply fail_if_ok in Hv as [_ Hv].
  unfold projectEvent. destruct (ev_Type e) eqn:Et; try done;
    (destruct (decode_payload _ (ev_Data e)) as [d|] eqn:E; [|done]; pose proof (decode_payload_kind _ _ _ E) as Hk; destruct d; try done; by eexists).
Qed.

Lemma hidden_projects e : modelVisibleEvent (ev_Type e) = false → projectEvent e = None.
Proof. unfold projectEvent. by destruct (ev_Type e). Qed.

Lemma omap_cons_list {A B} (f : A → option B) x l : omap f (x :: l) = option_list (f x) ++ omap f l.
Proof. change (omap f (x :: l)) with (match f x with Some y => y :: omap f l | None => omap f l end). by destruct (f x). Qed.

Lemma entries_length events : Forall event_valid events → ∀ k, length (entries k events) = length (omap projectEvent events).
Proof.
  induction 1 as [|e events He _ IH]; intros k; [done|]. cbn [entries]. rewrite length_app, IH.
  rewrite omap_cons_list, length_app.
  destruct (modelVisibleEvent (ev_Type e)) eqn:Ev; [|by rewrite (hidden_projects e Ev)].
  destruct (valid_projects e He Ev) as (m & -> & _). done.
Qed.

Lemma entries_lookup events : Forall event_valid events → ∀ k0 i k u, entries k0 events !! i = Some (k, u) →
  k0 ≤ k ∧ omap projectEvent (drop (Z.to_nat (k - k0)) events) = drop i (omap projectEvent events)
  ∧ ∃ m, omap projectEvent events !! i = Some m ∧ is_role RoleUser m = u.
Proof.
  induction 1 as [|e events He _ IH]; intros k0 i k u Hi; [done|]. cbn [entries] in Hi.
  assert (omap projectEvent (e :: events) = option_list (projectEvent e) ++ omap projectEvent events) as Hom by apply omap_cons_list.
  destruct (modelVisibleEvent (ev_Type e)) eqn:Ev.
  - destruct (valid_projects e He Ev) as (m & Hm & Hu & _). rewrite Hm in Hom. cbn [option_list app] in Hom. destruct i as [|i]; cbn in Hi.
    + injection Hi as <- <-. rewrite Z.sub_diag, drop_0. split; [lia|]. split; [done|]. exists m. by rewrite Hom.
    + apply IH in Hi as (Hk & Hd & x & Hx & Hu'). rewrite Hom. split; [lia|]. split; [|by exists x].
      replace (Z.to_nat (k - k0)) with (S (Z.to_nat (k - (k0 + 1)))) by lia. exact Hd.
  - rewrite (hidden_projects e Ev) in Hom. cbn [option_list app] in Hom. cbn in Hi. apply IH in Hi as (Hk & Hd & x & Hx & Hu). rewrite Hom. split; [lia|]. split; [|by exists x].
    replace (Z.to_nat (k - k0)) with (S (Z.to_nat (k - (k0 + 1)))) by lia. exact Hd.
Qed.

Lemma entries_nonneg events : ∀ k, 0 ≤ k → Forall (λ x : Z * bool, 0 ≤ x.1) (entries k events).
Proof. induction events as [|e events IH]; intros k Hk; cbn; [constructor|]. apply Forall_app. split; [destruct (modelVisibleEvent _); repeat constructor; cbn; lia|apply IH; lia]. Qed.

Lemma entries_users events i :
  Forall event_valid events → 0 ≤ i → user_at (cloneChatMessages (omap projectEvent events)) i → ∃ k, entries 0 events !! Z.to_nat i = Some (k, true).
Proof.
  intros Hv Hi (_ & m & Hm & Hu). unfold cloneChatMessages in Hm. apply list_lookup_fmap_Some in Hm as (x & -> & Hx).
  destruct (lookup_lt_is_Some_2 (entries 0 events) (Z.to_nat i)) as [[k u] Hk]; [rewrite entries_length by done; by eapply lookup_lt_Some|].
  destruct (entries_lookup events Hv _ _ _ _ Hk) as (_ & _ & y & Hy & Hr). rewrite Hx in Hy. injection Hy as <-. unfold is_role in *. cbn in Hu. exists k. congruence.
Qed.

(** ** The fused path *)

(** The kept suffix of the projected messages starts at message [keep]. *)
Definition starts_at (events : list SessionEvent) (first : Z) (ms : list ChatMessage) (keep : Z) : Prop :=
  cloneChatMessages (omap projectEvent (drop (Z.to_nat first) events)) = drop (Z.to_nat keep) ms.

(** The condition under which the scan sees every turn boundary it needs: the
    history ends inside a turn, fits, or its last complete turn fits. *)
Definition window_regular (c : RecentTurnsCompactor) (ms : list ChatMessage) : Prop :=
  let n := Z.of_nat (length ms) in
  MaxMessages c ≤ 0 ∨ n ≤ MaxMessages c ∨ ¬ user_at ms (n - 1) ∨ ∃ i, 0 < i < n - 1 ∧ user_at ms i ∧ n - i ≤ MaxMessages c.

Section Fused.
Context (s : Session) (c : RecentTurnsCompactor).
Hypothesis valid : Forall event_valid (s_events s).
Hypothesis no_summary : Forall (λ e, ev_Type e ≠ EvContextSummary) (s_events s).
Let ms := cloneChatMessages (omap projectEvent (s_events s)).
Let n := Z.of_nat (length ms).

Lemma ms_length : n = Z.of_nat (length (entries 0 (s_events s))).
Proof. subst n ms. unfold cloneChatMessages. by rewrite length_fmap, entries_length. Qed.

(** Positions counted from the end and from the start. *)
Lemma bound_user p k :
  bound (reverse (entries 0 (s_events s))) 0 p k →
  0 < Z.of_nat p < n ∧ 0 ≤ k ∧ user_at ms (n - 1 - Z.of_nat p) ∧ starts_at (s_events s) k ms (n - 1 - Z.of_nat p).
Proof.
  intros [Hp Hlt]. pose proof (lookup_lt_Some _ _ _ Hp) as Hl. rewrite length_reverse in Hl. pose proof ms_length as Hn.
  apply reverse_lookup_Some in Hp as [Hp _].
  destruct (entries_lookup _ valid _ _ _ _ Hp) as (Hk & Hd & m & Hm & Hr).
  replace (length (entries 0 (s_events s)) - S p)%nat with (Z.to_nat (n - 1 - Z.of_nat p)) in * by lia.
  rewrite Z.sub_0_r in Hd. split; [lia|]. split; [lia|]. split.
  - split; [lia|]. exists (cloneChatMessage m). subst ms. unfold cloneChatMessages. rewrite list_lookup_fmap, Hm. done.
  - unfold starts_at. rewrite Hd. subst ms. unfold cloneChatMessages. by rewrite fmap_drop.
Qed.

Lemma user_bound i : 0 ≤ i < n - 1 → user_at ms i → ∃ k, bound (reverse (entries 0 (s_events s))) 0 (Z.to_nat (n - 1 - i)) k.
Proof.
  intros Hi Hu. destruct (entries_users (s_events s) i valid) as [k Hk]; [lia|done|]. exists k. pose proof ms_length as Hn.
  split; [|lia]. apply reverse_lookup_Some. split; [|lia]. replace (length (entries 0 (s_events s)) - S (Z.to_nat (n - 1 - i)))%nat with (Z.to_nat i) by lia. done.
Qed.

Lemma first_event_keep :
  window_regular c ms → ∃ first, first_event c s = Some first ∧ 0 ≤ first ∧ starts_at (s_events s) first ms (if 0 <? MaxMessages c then keep_index c ms else 0).
Proof.
  intros Hreg. unfold first_event. destruct (0 <? MaxMessages c) eqn:EM; bool_to_prop.
  2:{ exists 0. split; [done|]. split; [lia|done]. }
  assert (starts_at (s_events s) 0 ms 0) as Hzero by done.
  destruct (keep_index_spec c ms _ EM eq_refl) as [Hk0 Hkeep]. cbn zeta in Hkeep. fold n in Hkeep. unfold s_len. rewrite window_scan_entries by done.
  destruct (entry_scan _ _ _ _ _) as [[latest cand] ex] eqn:Escan.
  apply entry_scan_spec in Escan as (Hlatest & Hcand & Hex); [|lia|apply Forall_reverse, entries_nonneg; lia|lia].
  rewrite length_reverse in Hex. rewrite <- ms_length in Hex. eexists. split; [done|].
  assert (∀ k, user_at ms k → k < n) as Hlt by (intros k (? & m & Hm & _); apply lookup_lt_Some in Hm; lia).
  assert (∀ k, 0 ≤ k → k ≠ n - 1 → user_at ms k → ∃ e, bound (reverse (entries 0 (s_events s))) 0 (Z.to_nat (n - 1 - k)) e) as Hub.
  { intros k Hk Hne Hu. apply user_bound; [|done]. specialize (Hlt k Hu). lia. }
  destruct (decide (n ≤ MaxMessages c)) as [Hfit|Hbig].
  { destruct ex; [destruct (proj1 Hex eq_refl); lia|]. cbn. split; [lia|].
    destruct Hkeep as [[_ ->]|[(? & _)|(? & _)]]; [done|lia..]. }
  destruct Hkeep as [[? _]|Hkeep]; [lia|].
  assert (0 < MaxMessages c) as HM by done. unfold window_regular in Hreg. fold n in Hreg.
  destruct Hlatest as [[? _]|[(_ & -> & Hno)|(_ & p & Hbp & Hmin)]]; [lia| |].
  - destruct ex; [destruct (proj1 Hex eq_refl); lia|]. cbn. split; [lia|].
    assert (∀ k, 0 ≤ k → user_at ms k → k = n - 1) as Honly.
    { intros k Hk Hu. destruct (decide (k = n - 1)) as [|Hne]; [done|]. destruct (Hub k Hk Hne Hu) as [e He]. by apply Hno in He. }
    destruct Hkeep as [(_ & [? Hu] & _)|(_ & Hbig' & [[-> _]|[[? Hu] _]])]; [|done|].
    + pose proof (Honly _ Hk0 Hu) as Heq. destruct Hreg as [?|[?|[Hl|(i & ? & Hi & _)]]]; [lia..|by rewrite Heq in Hu|]. specialize (Honly i ltac:(lia) Hi). lia.
    + pose proof (Honly _ Hk0 Hu) as Heq. specialize (Hbig' (n - 1)). rewrite Heq in Hu. assert (MaxMessages c < n - (n - 1)); [apply Hbig'; split; [lia|done]|lia].
  - destruct (bound_user _ _ Hbp) as (Hpn & Hl0 & Hlu & Hls). destruct ex; [|exfalso; assert (false = true) by (apply Hex; lia); done]. cbn [andb].
    destruct Hcand as [[-> Hnofit]|(pc & Hbc & Hcfit & Hcmax)].
    + cbn. rewrite (proj2 (Z.leb_le 0 latest)) by done. split; [done|].
      assert (∀ k, 0 ≤ k → k ≠ n - 1 → user_at ms k → MaxMessages c < n - k) as Hbig'.
      { intros k Hk Hne Hu. destruct (Hub k Hk Hne Hu) as [e He]. apply Hnofit in He. lia. }
      assert (¬ user_at ms (n - 1)) as Hlast.
      { destruct Hreg as [?|[?|[Hl|(i & Hi & Hu & ?)]]]; [lia..|done|]. specialize (Hbig' i ltac:(lia) ltac:(lia) Hu). lia. }
      destruct Hkeep as [(_ & [? Hu] & ? & _)|(_ & _ & Hk)].
      { exfalso. assert (keep_index c ms ≠ n - 1) as Hne by (intros E; by rewrite E in Hu). specialize (Hbig' _ Hk0 Hne Hu). lia. }
      assert (keep_index c ms = n - 1 - Z.of_nat p) as ->; [|done].
      destruct Hk as [[-> Hnone]|[[Hpos Hu] Hmax]].
      * destruct (decide (0 < n - 1 - Z.of_nat p)); [|lia]. exfalso. by apply (Hnone (n - 1 - Z.of_nat p)).
      * assert (keep_index c ms ≠ n - 1) as Hne by (intros E; by rewrite E in Hu).
        destruct (Hub _ Hk0 Hne Hu) as [e He]. apply Hmin in He. specialize (Hlt _ Hu).
        destruct (decide (0 < n - 1 - Z.of_nat p)); [|lia]. specialize (Hmax (n - 1 - Z.of_nat p)). assert (n - 1 - Z.of_nat p ≤ keep_index c ms) by (by apply Hmax). lia.
    + destruct (bound_user _ _ Hbc) as (Hcn & Hc0 & Hcu & Hcs). rewrite (proj2 (Z.leb_le 0 cand)) by done. split; [done|].
      assert (keep_index c ms = n - 1 - Z.of_nat pc) as ->; [|done].
      destruct Hkeep as [(_ & [? Hu] & Hkfit & Hkmin)|(_ & Hbig' & _)].
      * assert (keep_index c ms ≤ n - 1 - Z.of_nat pc) by (apply Hkmin; [split; [lia|done]|lia]).
        destruct (Hub _ Hk0 ltac:(lia) Hu) as [e He]. apply Hcmax in He; lia.
      * specialize (Hbig' (n - 1 - Z.of_nat pc)). assert (MaxMessages c < n - (n - 1 - Z.of_nat pc)); [apply Hbig'; split; [lia|done]|lia].
Qed.
End Fused.

Lemma project_suffix_ok events : Forall (λ e, ev_Type e ≠ EvContextSummary) events → project_suffix events = Some (cloneChatMessages (omap projectEvent events)).
Proof.
  induction 1 as [|e events He _ IH]; [done|]. rewrite omap_cons_list. unfold cloneChatMessages in *. rewrite fmap_app. cbn [project_suffix]. rewrite IH.
  destruct (ev_Type e); try done; cbn; by destruct (projectEvent e).
Qed.

(** Without summaries a derivation from scratch is the projection, event by
    event. *)
Lemma full_projection_plain events :
  Forall (λ e, ev_Type e ≠ EvContextSummary) events → full_projection events = Ok (omap projectEvent events).
Proof.
  intros Hno. assert (collect_ranges events = Ok []) as Hr.
  { induction Hno as [|e events He _ IH]; [done|]. cbn. by destruct (ev_Type e). }
  unfold full_projection. rewrite Hr. cbn [rbind]. f_equal. clear Hr. induction Hno as [|e events _ _ IH]; [done|].
  rewrite omap_cons_list. cbn. by rewrite <- IH.
Qed.

Lemma no_summaries s : log_inv s → s_summaryEvents s = 0 → Forall (λ e, ev_Type e ≠ EvContextSummary) (s_events s).
Proof.
  intros Hi H. rewrite (li_summaries _ Hi) in H. apply Forall_forall. intros e He Ht.
  assert (In e (List.filter is_summary (s_events s))) as Hin by (apply filter_In; split; [by apply list_elem_of_In|unfold is_summary; by rewrite Ht]).
  destruct (List.filter is_summary (s_events s)); [done|]. cbn in H. lia.
Qed.

Lemma List_filter_none {A} (p : A → bool) l : (∀ x, x ∈ l → p x = false) → List.filter p l = [].
Proof. induction l as [|x l IH]; intros H; [done|]. cbn. rewrite H by left. apply IH. intros y Hy. apply H. by right. Qed.
Lemma List_filter_all {A} (p : A → bool) l : (∀ x, x ∈ l → p x = true) → List.filter p l = l.
Proof. induction l as [|x l IH]; intros H; [done|]. cbn. rewrite H by left. f_equal. apply IH. intros y Hy. apply H. by right. Qed.

(** Selecting the cached messages by sequence number is projecting a suffix of
    the log. *)
Lemma filter_suffix events first :
  Forall event_valid events → (∀ i e, events !! i = Some e → Seq e = Z.of_nat i) → (first < length events)%nat →
  List.filter (λ m, (Z.of_nat first <? 0) || (Z.of_nat first <=? SourceSeq m)) (omap projectEvent events) = omap projectEvent (drop first events).
Proof.
  intros Hv Hseq Hlt. rewrite <- (take_drop first events) at 1. rewrite omap_app, List.filter_app.
  rewrite (proj2 (Z.ltb_ge (Z.of_nat first) 0)) by lia. cbn [orb].
  assert (∀ l (k : nat), (∀ i e, l !! i = Some e → Seq e = Z.of_nat (k + i)) → Forall event_valid l →
    ∀ m, m ∈ omap projectEvent l → Z.of_nat k ≤ SourceSeq m < Z.of_nat (k + length l)) as Hrange.
  { intros l k Hl Hvl m Hm. apply list_elem_of_omap in Hm as (e & He & Hp). rewrite Forall_forall in Hvl. specialize (Hvl e He).
    apply list_elem_of_lookup in He as [i He]. specialize (Hl i e He). apply lookup_lt_Some in He.
    destruct (modelVisibleEvent (ev_Type e)) eqn:Ev; [|rewrite (hidden_projects e Ev) in Hp; done].
    destruct (valid_projects e Hvl Ev) as (x & Hx & _ & Hs). rewrite Hp in Hx. injection Hx as <-. lia. }
  rewrite <- (take_drop first events) in Hv. apply Forall_app in Hv as [Hv1 Hv2].
  assert (List.filter (λ m, Z.of_nat first <=? SourceSeq m) (omap projectEvent (take first events)) = []) as ->.
  { apply List_filter_none. intros m Hm. apply Z.leb_gt. apply (Hrange _ 0%nat) in Hm; [|intros i e He; apply lookup_take_Some in He as [He _]; by apply Hseq|done].
    rewrite length_take in Hm. lia. }
  cbn [app]. apply List_filter_all. intros m Hm. apply Z.leb_le. apply (Hrange _ first) in Hm; [lia| |done].
  intros i e He. rewrite lookup_drop in He. apply Hseq in He. lia.
Qed.

(** ** Properties *)

(** The fused path is compaction.  For every reachable session without
    summaries, [deriveRecentCompactedMessages] returns exactly what deriving the
    messages and then compacting them returns - whatever the state of the
    projection cache - provided the window is regular: compaction keeps
    everything, or the history does not end with a user message, or some turn
    before the last message fits the window. *)
Theorem fused_path_is_compaction s c ms :
  reach s → s_summaryEvents s = 0 → fst (DeriveMessages s) = Ok ms → window_regular c ms →
  deriveRecentCompactedMessages c s = Some (Compact c ms).
Proof.
  intros Hr Hsum Hms Hreg. pose proof (reach_log_inv _ Hr) as Hi. pose proof (log_inv_valid _ Hi) as Hv.
  pose proof (no_summaries _ Hi Hsum) as Hno. pose proof (full_projection_plain _ Hno) as Hfull.
  assert (looks_back (s_events s)) as Hback.
  { intros e d He Ht. rewrite Forall_forall in Hno. by apply Hno in He. }
  destruct (derive_is_full s Hr Hback) as (out & Hout & Hd). rewrite Hfull in Hout. injection Hout as <-. rewrite Hd in Hms. injection Hms as <-.
  destruct (first_event_keep s c Hv Hno Hreg) as (first & Hfirst & Hpos & Hstart).
  unfold deriveRecentCompactedMessages. rewrite Hsum, Hfirst, Compact_suffix, <- Hstart. cbn [Z.eqb negb mbind option_bind].
  destruct (s_projValid s && _ && _) eqn:Ecache.
  - bool_to_prop. destruct (reach_cache _ Hr Hback) as (_ & _ & Hcache); [done|]. rewrite Hfull in Hcache. injection Hcache as <-. do 2 f_equal.
    unfold cloneChatMessages. f_equal. destruct (s_events s !! Z.to_nat first) as [e|] eqn:Ee.
    + rewrite (li_seq _ Hi _ _ Ee). apply filter_suffix; [done|apply (li_seq _ Hi)|by eapply lookup_lt_Some].
    + apply lookup_ge_None in Ee. rewrite drop_ge by done. cbn. rewrite List_filter_all by done.
      unfold starts_at in Hstart. rewrite drop_ge in Hstart by done. symmetry in Hstart. apply keep_nonempty in Hstart. by apply fmap_nil_inv in Hstart.
  - rewrite project_suffix_ok; [done|]. apply Forall_drop, Hno.
Qed.

(** ** Examples *)

Definition ex_turns : Session :=
  extend ex_session [append_entry "r1" EvUserMessage (DUserMessage (mk_user "again"));
                     append_entry "r1" EvAssistantMessage (DAssistantMessage (mk_assistant "done" None []))].

Lemma ex_turns_reach : reach ex_turns.
Proof. apply extend_reach; [exact ex_session_reach|vm_compute; reflexivity|vm_compute; reflexivity]. Qed.

Lemma fused_path_is_compaction_witness :
  ∃ ms, fst (DeriveMessages ex_turns) = Ok ms ∧ length ms = 5%nat
  ∧ deriveRecentCompactedMessages (mk_compactor 2 4) ex_turns = Some (Compact (mk_compactor 2 4) ms)
  ∧ (m_Content <$> Compact (mk_compactor 2 4) ms) = ["again"; "done"].
Proof.
  assert (∃ ms, fst (DeriveMessages ex_turns) = Ok ms) as (ms & Hms) by (eexists; vm_compute; reflexivity).
  exists ms. split; [exact Hms|]. pose proof Hms as Hms'. vm_compute in Hms'. injection Hms' as <-.
  split; [reflexivity|]. split; [|vm_compute; reflexivity].
  apply (fused_path_is_compaction ex_turns (mk_compactor 2 4) _ ex_turns_reach); [vm_compute; reflexivity|exact Hms|].
  right. right. left. intros (_ & m & Hm & Hu). vm_compute in Hm. injection Hm as <-. vm_compute in Hu. discriminate Hu.
Defined.

(** A second turn has just begun: the last message is the user's. *)
Definition ex_new_turn : Session :=
  extend ex_new [append_entry "r1" EvRunStart (DRunStart zero_start);
                 append_entry "r1" EvUserMessage (DUserMessage (mk_user "hello"));
                 append_entry "r1" EvAssistantMessage (DAssistantMessage (mk_assistant "hi" None []));
                 append_entry "r1" EvUserMessage (DUserMessage (mk_user "again"))].

(** The window is not always kept.  When the history ends with a user
    message - the first step of every turn - the fused path can return more
    messages than [MaxMessages] although a fitting turn exists, and compaction
    of the same conversation keeps only that turn. *)
Theorem fused_path_exceeds_the_window :
  reach ex_new_turn
  ∧ ∃ ms out, fst (DeriveMessages ex_new_turn) = Ok ms ∧ deriveRecentCompactedMessages (mk_compactor 2 0) ex_new_turn = Some out
    ∧ (m_Content <$> out) = ["hello"; "hi"; "again"] ∧ (m_Content <$> Compact (mk_compactor 2 0) ms) = ["again"].
Proof.
  split; [apply extend_reach; [exact ex_new_reach|vm_compute; reflexivity|vm_compute; reflexivity]|].
  eexists _, _. split; [vm_compute; reflexivity|]. split; [vm_compute; reflexivity|]. split; vm_compute; reflexivity.
Qed.
