(* ===== verification/Repair.v ===== *)
(** * Interrupted runs: [src/pkg/core/repair.go]

    [RepairInterrupted] scans a loaded log for a run that never reached run/end
    and returns the synthetic events that close it; [AppendRepair] commits
    them. *)
From S2P Require Import Prelude GoString Json Scope Sha256 GoTime Principal Payload Events Message Session Projection SessionLog SessionClaims SessionQueries ProjectionFacts.
From stdpp Require Import gmap strings list sorting.
From Stdlib Require Import ZArith Lia Ascii.
Open Scope Z_scope.

Definition CodeRunInterrupted := "run_interrupted".
Definition CodeToolOutcomeUnknown := "tool_outcome_unknown".
Definition CodeToolNotStarted := "tool_not_started".

(** ** The scan *)

(** The state of the most recent, still-open run; [sc_run] is empty when there
    is none. *)
Record scan := mk_scan {
  sc_run : string; stepOpen : bool; expected : gset string; inFlight : gset string; approvals : gset string }.

Definition scan_reset (id : string) : scan := mk_scan id false ∅ ∅ ∅.

Definition scan_event (st : scan) (e : SessionEvent) : scan :=
  match ev_Type e with
  | EvRunStart => scan_reset (RunID e)
  | EvRunEnd => scan_reset ""
  | t =>
    if is_empty (sc_run st) then st
    else
      match t, decode_payload t (ev_Data e) with
      | EvStepStart, _ => mk_scan (sc_run st) true (expected st) (inFlight st) (approvals st)
      | EvStepEnd, _ | EvStepError, _ => mk_scan (sc_run st) false (expected st) (inFlight st) (approvals st)
      | EvAssistantMessage, Some (DAssistantMessage d) =>
          mk_scan (sc_run st) (stepOpen st) (list_to_set (tc_ID <$> assistant_calls d) ∪ expected st) (inFlight st) (approvals st)
      | EvToolCall, Some (DToolCall d) =>
          mk_scan (sc_run st) (stepOpen st) (expected st ∖ {[ cd_CallID d ]}) ({[ cd_CallID d ]} ∪ inFlight st) (approvals st)
      | EvToolResult, Some (DToolResult d) =>
          mk_scan (sc_run st) (stepOpen st) (expected st ∖ {[ tr_CallID d ]}) (inFlight st ∖ {[ tr_CallID d ]}) (approvals st)
      | EvApprovalRequested, Some (DApprovalRequested d) =>
          mk_scan (sc_run st) (stepOpen st) (expected st) (inFlight st) ({[ ar_ApprovalID d ]} ∪ approvals st)
      | EvApprovalResolved, Some (DApprovalResolved d) =>
          mk_scan (sc_run st) (stepOpen st) (expected st) (inFlight st) (approvals st ∖ {[ av_ApprovalID d ]})
      | _, _ => st
      end
  end.

Definition scan_log (events : list SessionEvent) : scan := foldl scan_event (scan_reset "") events.

(** [sort.Strings] of the keys of a set. *)
Definition sorted_ids (ids : gset string) : list string := merge_sort String.le (elements ids).

(** ** The synthetic events *)

Definition synthetic_event (runID : string) (t : SessionEventType) (j : json) : SessionEvent :=
  mk_event 0 zero_time runID t (marshal j).

Definition lost_result (code id : string) : ToolResultData :=
  mk_tresult id ("tool outcome lost: the run was interrupted before " +:+ id +:+ " completed") false
    (<["code" := JStr code]> (<["repaired" := JBool true]> ∅)).

Definition interrupted_error (runID : string) : RuntimeErrorData :=
  mk_error CodeRunInterrupted
    ("run " +:+ runID +:+ " was interrupted before reaching a terminal state; synthetic closers were appended on load") true.

Definition RepairInterrupted (events : list SessionEvent) : list SessionEvent :=
  let st := scan_log events in
  if is_empty (sc_run st) then []
  else if negb (bool_decide (approvals st = ∅)) then []
  else
    let results code ids := (λ id, synthetic_event (sc_run st) EvToolResult (tresult_to_json (lost_result code id))) <$> sorted_ids ids in
    results CodeToolNotStarted (expected st) ++ results CodeToolOutcomeUnknown (inFlight st)
    ++ (if stepOpen st then [synthetic_event (sc_run st) EvStepEnd (step_to_json (mk_step (-1)))] else [])
    ++ [synthetic_event (sc_run st) EvRunError (error_to_json (interrupted_error (sc_run st)));
        synthetic_event (sc_run st) EvRunEnd (end_to_json (mk_end RunFailed))].

(** ** Committing the repair *)

(** A step/end is decoded into a [map[string]int], other types without a
    payload struct of their own into a [map[string]any]; what is appended is
    the map encoded again. *)
Definition dec_int_map : decoder (gmap string Z) := λ j old,
  match j with
  | JNull => Some ∅
  | JObj l => put_entries old <$> mapM (λ '(k, v), (λ z, (k, z)) <$> dec_z v 0) l
  | _ => None
  end.
Definition json_of_int_map (m : gmap string Z) : json :=
  JObj (sorted_entries (put_entries ∅ (map (λ '(k, v), (coerce_utf8 k, json_of_z v)) (map_to_list m)))).

Definition repair_data (e : SessionEvent) : option EventData :=
  match ev_Type e with
  | EvToolResult | EvRunError | EvRunEnd => decode_payload (ev_Type e) (ev_Data e)
  | EvStepEnd =>
    match raw_value (ev_Data e) with
    | Some JNull => Some (DOther JNull)
    | _ => (λ m, DOther (json_of_int_map m)) <$> unmarshal dec_int_map ∅ (ev_Data e)
    end
  | _ =>
    match raw_value (ev_Data e) with
    | Some JNull => Some (DOther JNull)
    | _ => (λ m, DOther (json_of_any_map m)) <$> unmarshal dec_any_map ∅ (ev_Data e)
    end
  end.

(** The session after the events committed so far, the events emitted, and the
    error that stopped it. *)
Fixpoint AppendRepair (clock : Z → string) (s : Session) (synthetic : list SessionEvent) :
    Session * list SessionEvent * result unit :=
  match synthetic with
  | [] => (s, [], Ok tt)
  | e :: synthetic =>
    match repair_data e with
    | None => (s, [], Err "decode synthetic event")
    | Some data =>
      match Append clock s (RunID e) (ev_Type e) data with
      | Err err => (s, [], Err err)
      | Ok (s', appended) =>
        let '(s2, emitted, verdict) := AppendRepair clock s' synthetic in (s2, appended :: emitted, verdict)
      end
    end
  end.

(** ** What the scan knows *)

Definition boundary (e : SessionEvent) : bool := match ev_Type e with EvRunStart | EvRunEnd => true | _ => false end.

(** Run [r] is open: its start is in the log and [segment], all that follows,
    holds no start and no end. *)
Definition open_run (events : list SessionEvent) (r : string) (segment : list SessionEvent) : Prop :=
  ∃ pre st, events = pre ++ st :: segment ∧ ev_Type st = EvRunStart ∧ RunID st = r
  ∧ Forall (λ e, boundary e = false) segment.

(** The tool calls an event asks for, and the one it answers. *)
Definition asks (e : SessionEvent) : list string :=
  match ev_Type e, decode_payload (ev_Type e) (ev_Data e) with
  | EvAssistantMessage, Some (DAssistantMessage d) => tc_ID <$> assistant_calls d
  | EvToolCall, Some (DToolCall d) => [cd_CallID d]
  | _, _ => []
  end.
Definition answers (e : SessionEvent) : option string :=
  match ev_Type e, decode_payload (ev_Type e) (ev_Data e) with
  | EvToolResult, Some (DToolResult d) => Some (tr_CallID d)
  | _, _ => None
  end.

(** A call of the segment asked for and not answered since. *)
Definition unanswered (segment : list SessionEvent) (id : string) : Prop :=
  ∃ i e, segment !! i = Some e ∧ id ∈ asks e ∧ ∀ j e', (i < j)%nat → segment !! j = Some e' → answers e' ≠ Some id.

Definition asks_approval (e : SessionEvent) : option string :=
  match ev_Type e, decode_payload (ev_Type e) (ev_Data e) with
  | EvApprovalRequested, Some (DApprovalRequested d) => Some (ar_ApprovalID d) | _, _ => None end.
Definition settles_approval (e : SessionEvent) : option string :=
  match ev_Type e, decode_payload (ev_Type e) (ev_Data e) with
  | EvApprovalResolved, Some (DApprovalResolved d) => Some (av_ApprovalID d) | _, _ => None end.

(** The segment is suspended on an approval it asked for and that is not
    settled since. *)
Definition suspended (segment : list SessionEvent) (id : string) : Prop :=
  ∃ i e, segment !! i = Some e ∧ asks_approval e = Some id ∧ ∀ j e', (i < j)%nat → segment !! j = Some e' → settles_approval e' ≠ Some id.

Lemma scan_log_snoc events e : scan_log (events ++ [e]) = scan_event (scan_log events) e.
Proof. unfold scan_log. by rewrite foldl_app. Qed.

Lemma scan_open events r segment : open_run events r segment → scan_log events = foldl scan_event (scan_reset r) segment.
Proof.
  intros (pre & st & -> & Ht & <- & _). unfold scan_log. rewrite foldl_app. cbn. unfold scan_event at 2. by rewrite Ht.
Qed.

Lemma scan_event_run st e : boundary e = false → sc_run (scan_event st e) = sc_run st.
Proof.
  unfold boundary, scan_event. destruct (ev_Type e); try done; intros _; destruct (is_empty (sc_run st)); try done;
    by destruct (decode_payload _ _) as [[]|].
Qed.

Lemma scan_found events : sc_run (scan_log events) ≠ "" → ∃ r segment, open_run events r segment.
Proof.
  induction events as [|e events IH] using rev_ind; [done|]. rewrite scan_log_snoc. destruct (boundary e) eqn:Hb.
  - unfold scan_event, boundary in *. destruct (ev_Type e) eqn:Et; try done. intros _. exists (RunID e), []. by exists events, e.
  - rewrite scan_event_run by done. intros H. destruct (IH H) as (r & seg & pre & st & -> & Ht & Hr & Hseg).
    exists r, (seg ++ [e]), pre, st. rewrite <- app_assoc. split; [done|]. split; [done|]. split; [done|].
    by apply Forall_app_2; [|constructor].
Qed.

(** "Asked for and not answered since", for any notion of asking and answering. *)
Definition outstanding (ask : SessionEvent → list string) (ans : SessionEvent → option string) (l : list SessionEvent) (id : string) : Prop :=
  ∃ i e, l !! i = Some e ∧ id ∈ ask e ∧ ∀ j e', (i < j)%nat → l !! j = Some e' → ans e' ≠ Some id.

Lemma outstanding_snoc ask ans l e id :
  (∀ id, id ∈ ask e → ans e ≠ Some id) →
  outstanding ask ans (l ++ [e]) id ↔ id ∈ ask e ∨ (outstanding ask ans l id ∧ ans e ≠ Some id).
Proof.
  intros Hex. unfold outstanding. setoid_rewrite lookup_last_Some. split.
  - intros (i & x & [Hx|[-> ->]] & Ha & Hl); [right|by left]. pose proof (lookup_lt_Some _ _ _ Hx). split.
    + exists i, x. split; [done|]. split; [done|]. intros j e' Hj He'. eapply Hl; [done|by left].
    + apply (Hl (length l) e); [lia|by right].
  - intros [Ha|[(i & x & Hx & Ha & Hl) He]].
    + exists (length l), e. split; [by right|]. split; [done|]. intros j e' Hj [Hj'|[-> _]]; [apply lookup_lt_Some in Hj'; lia|lia].
    + exists i, x. split; [by left|]. split; [done|]. intros j e' Hj [Hj'|[-> ->]]; [by eapply Hl|done].
Qed.

Lemma outstanding_nil ask ans id : ¬ outstanding ask ans [] id.
Proof. by intros (i & e & ? & _). Qed.

(** The scan of an open segment. *)
Lemma scan_segment r segment :
  r ≠ "" → Forall (λ e, boundary e = false) segment →
  let st := foldl scan_event (scan_reset r) segment in
  sc_run st = r
  ∧ (∀ id, id ∈ expected st ∪ inFlight st ↔ unanswered segment id)
  ∧ (∀ id, id ∈ approvals st ↔ suspended segment id).
Proof.
  intros Hr. induction segment as [|e segment IH] using rev_ind; cbn zeta; intros Hb.
  { cbn. split; [done|]. split; intros id; (split; [set_solver|by intros (i & e & ? & _)]). }
  apply Forall_app in Hb as [Hb He]. apply Forall_cons in He as [He _].
  destruct (IH Hb) as (IH1 & IH2 & IH3). clear IH. rewrite foldl_app. cbn [foldl].
  set (st := foldl scan_event (scan_reset r) segment) in *.
  assert (Hun : ∀ id, unanswered (segment ++ [e]) id ↔ id ∈ asks e ∨ (unanswered segment id ∧ answers e ≠ Some id)).
  { intros id. apply (outstanding_snoc asks answers). intros id'. unfold asks, answers.
    destruct (ev_Type e); try set_solver. }
  assert (Hsu : ∀ id, suspended (segment ++ [e]) id ↔ asks_approval e = Some id ∨ (suspended segment id ∧ settles_approval e ≠ Some id)).
  { intros id. assert (∀ l, suspended l id ↔ outstanding (λ e, option_list (asks_approval e)) settles_approval l id) as Heq.
    { intros l. unfold suspended, outstanding. assert (∀ e, id ∈ option_list (asks_approval e) ↔ asks_approval e = Some id) as Hol
        by (intros x; destruct (asks_approval x); cbn; set_solver).
      by setoid_rewrite Hol. }
    rewrite !Heq, outstanding_snoc.
    - destruct (asks_approval e); cbn; set_solver.
    - intros id'. unfold asks_approval, settles_approval. destruct (ev_Type e); cbn; try set_solver. }
  setoid_rewrite Hun. setoid_rewrite Hsu. clear Hun Hsu. setoid_rewrite <- IH2. setoid_rewrite <- IH3.
  unfold scan_event, asks, answers, asks_approval, settles_approval. rewrite IH1.
  assert (is_empty r = false) as -> by (by destruct r). clear IH2 IH3 Hr Hb. clearbody st.
  assert (Hkeep : ∀ (X : gset string) id, id ∈ X ↔ id ∈ ([] : list string) ∨ (id ∈ X ∧ (None : option string) ≠ Some id)).
  { intros X id. split; [by right|]. intros [Hn|[? _]]; [by apply elem_of_nil in Hn|done]. }
  assert (Hkeep' : ∀ (X : gset string) id, id ∈ X ↔ None = Some id ∨ (id ∈ X ∧ (None : option string) ≠ Some id)) by naive_solver.
  unfold boundary in He. destruct (ev_Type e); try discriminate He;
    try (destruct (decode_payload _ _) as [[]|]); cbn [sc_run expected inFlight approvals stepOpen]; rewrite ?IH1;
    (split; [done|]; split; [try apply Hkeep|try apply Hkeep']); clear; intros id; try set_solver.
  destruct (decide (id = cd_CallID d)); set_solver.
Qed.

(** ** The synthetic events are accepted *)

(** [e] decodes to data that [Append] accepts and stores as the same payload. *)
Definition commits (e : SessionEvent) : Prop :=
  ∃ d, repair_data e = Some d ∧ data_stable d = true
  ∧ prepare_entry (append_entry (RunID e) (ev_Type e) d) = Ok (mk_append (RunID e) (ev_Type e) d (ev_Data e))
  ∧ match ev_Type e with EvToolResult | EvStepEnd | EvRunError | EvRunEnd => True | _ => False end.

Lemma typed_commits e d j :
  ValidateRunID (RunID e) = Ok tt → repair_data e = decode_payload (ev_Type e) (ev_Data e) →
  kind_matches (ev_Type e) d = true → data_stable d = true → validate_data d = Ok tt →
  payload_json d = Some j → ev_Data e = marshal j → json_len j ≤ MaxSessionEventDataBytes →
  match ev_Type e with EvToolResult | EvStepEnd | EvRunError | EvRunEnd => True | _ => False end → commits e.
Proof.
  intros Hr Hrd Hk Hs Hv Hj Hd Hl Ht. exists d. rewrite Hrd, Hd, (decode_payload_round_trip _ _ _ Hk Hs Hj).
  split; [done|]. split; [done|]. split; [|done]. unfold prepare_entry, append_entry, validateSessionEventValue.
  cbn [ae_runID ae_kind ae_data]. rewrite Hr, Hj, Hk. cbn [rbind].
  change (raw_len (marshal j)) with (json_len j). rewrite (proj2 (Z.ltb_ge _ _) Hl). cbn [fail_if]. by rewrite Hv.
Qed.

Lemma json_bytes_str s : valid_utf8 s = true → (length (json_bytes (json_of_str s)) ≤ 6 * String.length s + 2)%nat.
Proof. intros H. unfold json_of_str. rewrite coerce_utf8_id by done. cbn [json_bytes]. apply quoted_length. Qed.

Lemma string_app_length s t : String.length (s +:+ t) = (String.length s + String.length t)%nat.
Proof. induction s as [|c s IH]; simpl; [done|]. by rewrite IH. Qed.

Definition obj_bound (l : list (string * json)) : nat :=
  foldr (λ kv n, length (quoted (fst kv)) + length (json_bytes (snd kv)) + 2 + n)%nat 2%nat l.

Lemma json_obj_length l : (length (json_bytes (JObj l)) ≤ obj_bound l)%nat.
Proof.
  cbn [json_bytes]. rewrite !length_app. cbn [length bytes].
  assert (length (sep_by (bytes ",") (map (λ '(k, v), quoted k ++ bytes ":" ++ json_bytes v) l)) + 2 ≤ obj_bound l)%nat; [|cbn in *; lia].
  induction l as [|[k v] l IH]; [done|]. cbn [map]. unfold obj_bound in *. cbn [foldr fst snd].
  destruct l as [|kv l].
  - cbn [map sep_by foldr]. rewrite !length_app. cbn. lia.
  - cbn [map] in IH |- *. destruct kv as [k' v']. cbn [sep_by] in IH |- *. rewrite !length_app in *. cbn [length bytes] in *. lia.
Qed.

Lemma lost_result_commits run code id :
  ValidateRunID run = Ok tt → validateToolCallID id = Ok tt → valid_utf8 id = true →
  code = CodeToolNotStarted ∨ code = CodeToolOutcomeUnknown →
  commits (synthetic_event run EvToolResult (tresult_to_json (lost_result code id))).
Proof.
  intros Hr Hid Hu Hc.
  assert (any_map_stable (tr_Metadata (lost_result code id)) = true
          ∧ validateResultMetadata (tr_Metadata (lost_result code id)) = Ok tt
          ∧ bool_decide (tr_Metadata (lost_result code id) = ∅) = false
          ∧ (length (json_bytes (json_of_any_map (tr_Metadata (lost_result code id)))) ≤ 64)%nat) as (Hm & Hvm & Hne & Hml).
  { destruct Hc as [-> | ->]; cbn [lost_result tr_Metadata]; repeat split; try (vm_compute; reflexivity); vm_compute; lia. }
  assert (valid_utf8 (tr_Content (lost_result code id)) = true) as Hcu by (cbn; repeat apply valid_utf8_app; done).
  apply (typed_commits _ (DToolResult (lost_result code id)) (tresult_to_json (lost_result code id)));
    [exact Hr|reflexivity|reflexivity| | |reflexivity|reflexivity| |exact I].
  - cbn [data_stable]. unfold tresult_stable. change (tr_CallID (lost_result code id)) with id. by rewrite Hm, Hcu, Hu.
  - cbn [validate_data]. cbn [lost_result tr_CallID]. by rewrite Hid.
  - unfold json_len, tresult_to_json. rewrite Hne. cbn [omit_if app].
    pose proof (json_bytes_str _ Hu) as H1. pose proof (json_bytes_str _ Hcu) as H2.
    assert (String.length id ≤ 256)%nat as Hlen.
    { unfold validateToolCallID in Hid. apply fail_if_ok in Hid as [Hid _]. bool_to_prop. unfold str_len in *. lia. }
    cbn [lost_result tr_CallID tr_Content] in H1, H2 |- *. rewrite !string_app_length in H2. cbn [String.length] in H2.
    etransitivity; [apply inj_le, json_obj_length|]. unfold obj_bound. cbn [foldr fst snd].
    change (length (quoted "call_id")) with 9%nat. change (length (quoted "content")) with 9%nat.
    change (length (quoted "ok")) with 4%nat. change (length (quoted "metadata")) with 10%nat.
    change (length (json_bytes (JBool (tr_OK (lost_result code id))))) with 5%nat. unfold MaxSessionEventDataBytes. lia.
Qed.

Lemma run_id_text run : ValidateRunID run = Ok tt → valid_utf8 run = true ∧ (String.length run ≤ 128)%nat ∧ run ≠ "".
Proof.
  unfold ValidateRunID. intros H. apply fail_if_ok in H as [H _]. bool_to_prop.
  split; [by apply safe_id_valid_utf8|]. unfold safe_id in H. destruct run as [|c run]; [done|]. cbn in H. split; [|done].
  bool_to_prop. assert (length (bytes run) = String.length run) as Hl by (clear; induction run; cbn; congruence). cbn. lia.
Qed.

Lemma closers_commit run :
  ValidateRunID run = Ok tt →
  commits (synthetic_event run EvRunError (error_to_json (interrupted_error run)))
  ∧ commits (synthetic_event run EvRunEnd (end_to_json (mk_end RunFailed)))
  ∧ commits (synthetic_event run EvStepEnd (step_to_json (mk_step (-1)))).
Proof.
  intros Hr. destruct (run_id_text run Hr) as (Hu & Hl & _).
  assert (valid_utf8 (Message (interrupted_error run)) = true) as Hm by (cbn; repeat apply valid_utf8_app; done).
  split; [|split].
  - apply (typed_commits _ (DRuntimeError (interrupted_error run)) (error_to_json (interrupted_error run)));
      [exact Hr|reflexivity|reflexivity| | |reflexivity|reflexivity| |exact I].
    + cbn [data_stable]. by rewrite Hm.
    + cbn [validate_data]. unfold interrupted_error. cbn [Code Message].
      assert (blank ("run " +:+ run +:+ " was interrupted before reaching a terminal state; synthetic closers were appended on load") = false) as ->; [|done].
      eapply not_blank; [reflexivity|reflexivity|done].
    + unfold json_len, error_to_json. pose proof (json_bytes_str _ Hm) as H2. unfold interrupted_error in *. cbn [Code Message Retryable] in *.
      rewrite !string_app_length in H2. cbn [String.length] in H2. etransitivity; [apply inj_le, json_obj_length|]. unfold obj_bound. cbn [foldr fst snd].
      change (length (quoted "code")) with 6%nat. change (length (quoted "message")) with 9%nat. change (length (quoted "retryable")) with 11%nat.
      change (length (json_bytes (JBool true))) with 4%nat. change (length (json_bytes (json_of_str CodeRunInterrupted))) with 17%nat.
      unfold MaxSessionEventDataBytes. lia.
  - apply (typed_commits _ (DRunEnd (mk_end RunFailed)) (end_to_json (mk_end RunFailed)));
      [exact Hr|reflexivity|reflexivity|vm_compute; reflexivity|vm_compute; reflexivity|reflexivity|reflexivity|vm_compute; discriminate|exact I].
  - exists (DOther (step_to_json (mk_step (-1)))). split; [vm_compute; reflexivity|]. split; [done|]. split; [|exact I].
    unfold prepare_entry, append_entry. cbn [ae_runID ae_kind ae_data synthetic_event RunID ev_Type ev_Data]. rewrite Hr. cbn [rbind payload_json].
    unfold validateSessionEventValue. cbn [kind_matches]. unfold validateSessionEvent. rewrite Hr. vm_compute. reflexivity.
Qed.

Definition same_content (e x : SessionEvent) : Prop := RunID x = RunID e ∧ ev_Type x = ev_Type e ∧ ev_Data x = ev_Data e.

Lemma commits_append clock s e :
  reach s → commits e → s_len s + 1 ≤ eventCap s →
  ∃ d s' x, repair_data e = Some d ∧ Append clock s (RunID e) (ev_Type e) d = Ok (s', x)
  ∧ reach s' ∧ s_events s' = s_events s ++ [x] ∧ same_content e x ∧ eventCap s' = eventCap s.
Proof.
  intros Hr (d & Hd & Hs & Hp & Ht) Hc. set (p := mk_append (RunID e) (ev_Type e) d (ev_Data e)) in *.
  assert (appendBatch clock s [append_entry (RunID e) (ev_Type e) d] = Ok (commit_entry clock s p, [commit_event clock s p])) as Hb.
  { unfold appendBatch. cbn [bool_decide decide_rel]. rewrite bool_decide_eq_false_2 by done. cbn [fail_if prepare_all]. rewrite Hp.
    cbn [rbind]. unfold validateAppendLocked. assert (eventCap s <? s_len s + Z.of_nat (length [p]) = false) as -> by (apply Z.ltb_ge; cbn; lia).
    cbn [fail_if rfold]. assert (validate_entry s (∅, ∅) p = Ok (∅, ∅)) as ->
      by (unfold validate_entry, p; cbn [ae_kind]; by destruct (ev_Type e)).
    cbn [rbind foldl]. by rewrite commit_events, drop_app_length. }
  exists d, (commit_entry clock s p), (commit_event clock s p). split; [done|]. split.
  { unfold Append. by rewrite Hb. }
  split; [eapply reach_append; [exact Hr| |exact Hb]; cbn; unfold entry_stable; cbn [append_entry ae_data]; by rewrite Hs|].
  split; [apply commit_events|]. split; [done|]. destruct (commit_owner clock s p) as [_ Hm]. unfold eventCap. by rewrite Hm.
Qed.

Lemma append_repair_all clock synthetic : ∀ s,
  reach s → Forall commits synthetic → s_len s + Z.of_nat (length synthetic) ≤ eventCap s →
  ∃ s' emitted, AppendRepair clock s synthetic = (s', emitted, Ok tt) ∧ reach s'
  ∧ s_events s' = s_events s ++ emitted ∧ Forall2 same_content synthetic emitted.
Proof.
  induction synthetic as [|e synthetic IH]; intros s Hr Hall Hc; cbn [AppendRepair].
  { exists s, []. rewrite app_nil_r. by repeat constructor. }
  apply Forall_cons in Hall as [He Hall]. cbn [length] in Hc.
  destruct (commits_append clock s e Hr He ltac:(lia)) as (d & s1 & x & Hd & Ha & Hr1 & He1 & Hsame & Hcap).
  rewrite Hd, Ha. assert (s_len s1 = s_len s + 1) as Hl by (by apply s_len_snoc with x).
  destruct (IH s1 Hr1 Hall ltac:(lia)) as (s' & emitted & -> & Hr' & He' & Hf).
  exists s', (x :: emitted). split; [done|]. split; [done|]. split; [|by constructor].
  rewrite He', He1, <- app_assoc. done.
Qed.

(** The ids of a validated segment are valid tool call ids. *)
Lemma asked_ids_valid e id : event_valid e → id ∈ asks e → validateToolCallID id = Ok tt.
Proof.
  unfold event_valid, validateSessionEvent, asks. intros Hv Hin.
  apply rbind_ok in Hv as (_ & _ & Hv). do 3 apply fail_if_ok in Hv as [_ Hv].
  destruct (decode_payload (ev_Type e) (ev_Data e)) as [d|] eqn:E; [|done].
  assert (Hcall : ∀ c, validateToolCall c = Ok tt → validateToolCallID (tc_ID c) = Ok tt).
  { intros c Hc. unfold validateToolCall in Hc. apply fail_if_ok in Hc as [_ Hc]. by apply rbind_ok in Hc as ([] & Hc & _). }
  destruct (ev_Type e), d; try (by apply elem_of_nil in Hin).
  - cbn in Hv. unfold validateAssistantMessageData in Hv. apply fail_if_ok in Hv as [_ Hv]. apply rbind_ok in Hv as ([] & Hv & _).
    apply list_elem_of_fmap in Hin as (c & -> & Hc). apply Hcall. revert Hv Hc. generalize (assistant_calls d) as calls, ([] : list string) as seen.
    induction calls as [|c' calls IH]; intros seen Hv Hc; [by apply elem_of_nil in Hc|].
    cbn in Hv. apply rbind_ok in Hv as ([] & H1 & Hv). apply fail_if_ok in Hv as [_ Hv].
    apply elem_of_cons in Hc as [->|Hc]; [done|by eapply IH].
  - cbn in Hv. apply list_elem_of_singleton in Hin as ->. by apply (Hcall (mk_call (cd_CallID d) (cd_Name d) (cd_Args d) "")).
Qed.

(** ** The properties *)

Lemma open_run_valid s r segment :
  log_inv s → open_run (s_events s) r segment → ValidateRunID r = Ok tt ∧ Forall event_valid segment.
Proof.
  intros Hi (pre & st & He & Ht & <- & _). pose proof (log_inv_valid _ Hi) as Hv. rewrite He in Hv.
  apply Forall_app in Hv as [_ Hv]. apply Forall_cons in Hv as [Hst Hv]. split; [|done].
  unfold event_valid, validateSessionEvent in Hst. by apply rbind_ok in Hst as ([] & Hst & _).
Qed.

Lemma repair_of_open s r segment :
  log_inv s → open_run (s_events s) r segment →
  let st := foldl scan_event (scan_reset r) segment in
  scan_log (s_events s) = st ∧ r ≠ "" ∧ sc_run st = r
  ∧ (∀ id, id ∈ expected st ∪ inFlight st ↔ unanswered segment id)
  ∧ (∀ id, id ∈ approvals st ↔ suspended segment id).
Proof.
  intros Hi Ho. cbn zeta. destruct (open_run_valid s r segment Hi Ho) as [Hr _]. destruct (run_id_text r Hr) as (_ & _ & Hne).
  split; [by apply scan_open|]. split; [done|]. apply scan_segment; [done|]. by destruct Ho as (? & ? & _ & _ & _ & ?).
Qed.

(** A repair is proposed exactly for an interrupted run: [RepairInterrupted]
    returns nothing if and only if no run is open at the end of the log, or the
    open run is suspended on an approval that is not settled (a deliberate
    suspension is never closed). *)
Theorem repair_only_when_interrupted s :
  reach s →
  RepairInterrupted (s_events s) = [] ↔
  (∀ r segment, ¬ open_run (s_events s) r segment)
  ∨ (∃ r segment id, open_run (s_events s) r segment ∧ suspended segment id).
Proof.
  intros Hr. pose proof (reach_log_inv _ Hr) as Hi. unfold RepairInterrupted. split.
  - intros Hnil. destruct (decide (sc_run (scan_log (s_events s)) = "")) as [Hrun|Hrun].
    + left. intros r seg Ho. destruct (repair_of_open s r seg Hi Ho) as (Hst & Hne & Hrun' & _). congruence.
    + right. destruct (scan_found _ Hrun) as (r & seg & Ho). exists r, seg.
      destruct (repair_of_open s r seg Hi Ho) as (Hst & Hne & Hrun' & _ & Hsu). rewrite Hst in *.
      assert (is_empty (sc_run (foldl scan_event (scan_reset r) seg)) = false) as He by (rewrite Hrun'; by destruct r).
      rewrite He in Hnil. case_bool_decide as Hap; cbn [negb] in Hnil.
      * apply app_eq_nil in Hnil as [_ Hnil]. apply app_eq_nil in Hnil as [_ Hnil]. apply app_eq_nil in Hnil as [_ Hnil]. done.
      * apply set_choose_L in Hap as (id & Hid). exists id. split; [done|by apply Hsu].
  - intros [Hno|(r & seg & id & Ho & Hs)].
    + assert (sc_run (scan_log (s_events s)) = "") as ->; [|done].
      destruct (decide (sc_run (scan_log (s_events s)) = "")) as [|Hrun]; [done|].
      destruct (scan_found _ Hrun) as (r & seg & Ho). by destruct (Hno r seg).
    + destruct (repair_of_open s r seg Hi Ho) as (-> & Hne & -> & _ & Hsu).
      assert (is_empty r = false) as -> by (by destruct r).
      rewrite bool_decide_eq_false_2; [done|]. intros Hem. apply Hsu in Hs. rewrite Hem in Hs. set_solver.
Qed.

Lemma sorted_ids_elem ids id : id ∈ sorted_ids ids ↔ id ∈ ids.
Proof. unfold sorted_ids. by rewrite merge_sort_Permutation, elem_of_elements. Qed.

Lemma Forall2_elem_l {A B} (R : A → B → Prop) l k x : Forall2 R l k → x ∈ l → ∃ y, y ∈ k ∧ R x y.
Proof.
  intros HF Hx. apply list_elem_of_lookup in Hx as (i & Hi). destruct (Forall2_lookup_l _ _ _ _ _ HF Hi) as (y & Hy & Hxy).
  exists y. split; [by eapply list_elem_of_lookup_2|done].
Qed.

(** The shape of a proposed repair. *)
Lemma repair_shape s r segment :
  log_inv s → open_run (s_events s) r segment → (∀ id, ¬ suspended segment id) →
  ∃ results closers,
    RepairInterrupted (s_events s) = (results ++ closers) ++ [synthetic_event r EvRunEnd (end_to_json (mk_end RunFailed))]
    ∧ (∀ e, e ∈ results ↔ ∃ code id, (id ∈ expected (scan_log (s_events s)) ∧ code = CodeToolNotStarted
                                     ∨ id ∈ inFlight (scan_log (s_events s)) ∧ code = CodeToolOutcomeUnknown)
                                     ∧ e = synthetic_event r EvToolResult (tresult_to_json (lost_result code id)))
    ∧ (∀ e, e ∈ closers → e = synthetic_event r EvStepEnd (step_to_json (mk_step (-1)))
                          ∨ e = synthetic_event r EvRunError (error_to_json (interrupted_error r))).
Proof.
  intros Hi Ho Hns. destruct (repair_of_open s r segment Hi Ho) as (Hst & Hne & Hrun & _ & Hsu). unfold RepairInterrupted.
  rewrite Hst, Hrun. assert (is_empty r = false) as -> by (by destruct r).
  rewrite bool_decide_eq_true_2 by (apply set_eq; intros id; rewrite Hsu; set_solver). cbn [negb].
  set (st := foldl scan_event (scan_reset r) segment).
  exists (((λ id, synthetic_event r EvToolResult (tresult_to_json (lost_result CodeToolNotStarted id))) <$> sorted_ids (expected st))
          ++ ((λ id, synthetic_event r EvToolResult (tresult_to_json (lost_result CodeToolOutcomeUnknown id))) <$> sorted_ids (inFlight st))).
  exists ((if stepOpen st then [synthetic_event r EvStepEnd (step_to_json (mk_step (-1)))] else [])
          ++ [synthetic_event r EvRunError (error_to_json (interrupted_error r))]).
  split; [by rewrite <- !app_assoc|]. split.
  - intros e. rewrite elem_of_app, !list_elem_of_fmap. setoid_rewrite sorted_ids_elem. split.
    + intros [(id & -> & Hid)|(id & -> & Hid)]; eexists _, id; (split; [by (left + right); split|reflexivity]).
    + intros (code & id & [[Hid ->]|[Hid ->]] & ->); [left|right]; by exists id.
  - intros e [He|He]%elem_of_app; [|right; by apply list_elem_of_singleton in He].
    destruct (stepOpen st); [left; by apply list_elem_of_singleton in He|by apply elem_of_nil in He].
Qed.

Lemma repair_commits s r segment :
  log_inv s → open_run (s_events s) r segment → (∀ id, ¬ suspended segment id) →
  (∀ id, unanswered segment id → valid_utf8 id = true) → Forall commits (RepairInterrupted (s_events s)).
Proof.
  intros Hi Ho Hns Hutf. destruct (open_run_valid s r segment Hi Ho) as [Hr Hval].
  destruct (closers_commit r Hr) as (Herr & Hend & Hstep).
  destruct (repair_of_open s r segment Hi Ho) as (Hst & _ & _ & Hun & _).
  destruct (repair_shape s r segment Hi Ho Hns) as (results & closers & -> & Hres & Hclo). apply Forall_forall.
  intros e [[He|He]%elem_of_app|He]%elem_of_app.
  - apply Hres in He as (code & id & Hid & ->). rewrite Hst in Hid.
    assert (unanswered segment id) as Hu by (apply Hun, elem_of_union; naive_solver).
    apply lost_result_commits; [done| |by apply Hutf|naive_solver].
    destruct Hu as (i & x & Hx & Hask & _). eapply asked_ids_valid; [|exact Hask].
    rewrite Forall_forall in Hval. apply Hval. by eapply list_elem_of_lookup_2.
  - by apply Hclo in He as [-> | ->].
  - by apply list_elem_of_singleton in He as ->.
Qed.

(** C37. Committing the proposed repair of an interrupted run succeeds whenever
    it fits the event cap, and closes the run: every call of the open run that
    was asked for and not answered gets a failed result, the log ends with a
    run/end of that run with status failed, and no further repair is proposed.
    (Go's JSON decoder yields valid UTF-8; the premise states it for the call
    ids.) *)
Theorem repair_closes_the_run clock s r segment :
  reach s → open_run (s_events s) r segment → (∀ id, ¬ suspended segment id) →
  (∀ id, unanswered segment id → valid_utf8 id = true) →
  s_len s + Z.of_nat (length (RepairInterrupted (s_events s))) ≤ eventCap s →
  ∃ s' emitted, AppendRepair clock s (RepairInterrupted (s_events s)) = (s', emitted, Ok tt)
  ∧ reach s' ∧ s_events s' = s_events s ++ emitted
  ∧ RepairInterrupted (s_events s') = []
  ∧ (∃ e, last emitted = Some e ∧ ends r e = Some RunFailed)
  ∧ ∀ id, unanswered segment id → ∃ e d, e ∈ emitted ∧ records r e = Some d ∧ tr_CallID d = id ∧ tr_OK d = false.
Proof.
  intros Hr Ho Hns Hutf Hcap. pose proof (reach_log_inv _ Hr) as Hi.
  pose proof (repair_commits s r segment Hi Ho Hns Hutf) as Hcom.
  destruct (append_repair_all clock _ s Hr Hcom Hcap) as (s' & emitted & Ha & Hr' & He' & Hf).
  exists s', emitted. split; [done|]. split; [done|]. split; [done|].
  destruct (repair_of_open s r segment Hi Ho) as (Hst & _ & _ & Hun & _).
  destruct (repair_shape s r segment Hi Ho Hns) as (results & closers & Heq & Hres & _). rewrite Heq in Hf.
  apply Forall2_app_inv_l in Hf as (em1 & em2 & Hf1 & Hf2 & ->). apply Forall2_cons_inv_l in Hf2 as (x & em3 & Hx & Hf3 & ->).
  apply Forall2_nil_inv_l in Hf3 as ->. destruct Hx as (Hx1 & Hx2 & Hx3). cbn [synthetic_event RunID ev_Type ev_Data] in Hx1, Hx2, Hx3.
  split; [|split].
  - unfold RepairInterrupted. rewrite He', app_assoc, scan_log_snoc. unfold scan_event. by rewrite Hx2.
  - exists x. rewrite last_snoc. split; [done|]. unfold ends, of_run. rewrite Hx1, Hx2, Hx3, decide_True by done. vm_compute. reflexivity.
  - intros id Hid. pose proof Hid as Hid'. apply Hun, elem_of_union in Hid. rewrite <- Hst in Hid.
    assert (∃ code, synthetic_event r EvToolResult (tresult_to_json (lost_result code id)) ∈ results
                    ∧ (code = CodeToolNotStarted ∨ code = CodeToolOutcomeUnknown)) as (code & Hin & Hc).
    { destruct Hid as [Hid|Hid]; [exists CodeToolNotStarted|exists CodeToolOutcomeUnknown]; (split; [|by (left + right)]);
        apply Hres; eexists _, id; (split; [by (left + right); split|reflexivity]). }
    destruct (Forall2_elem_l _ _ _ _ Hf1 (proj2 (elem_of_app _ _ _) (or_introl Hin))) as (y & Hy & Hy1 & Hy2 & Hy3).
    cbn [synthetic_event RunID ev_Type ev_Data] in Hy1, Hy2, Hy3.
    exists y, (lost_result code id). split; [apply elem_of_app; by left|]. split; [|done].
    unfold records, of_run. rewrite Hy1, Hy2, Hy3, decide_True by done.
    rewrite (decode_payload_round_trip EvToolResult (DToolResult (lost_result code id)) _ eq_refl); [done| |reflexivity].
    cbn [data_stable]. unfold tresult_stable. change (tr_CallID (lost_result code id)) with id. rewrite (Hutf id Hid').
    assert (valid_utf8 (tr_Content (lost_result code id)) = true) as -> by (cbn; repeat apply valid_utf8_app; try done; by apply Hutf).
    destruct Hc as [-> | ->]; vm_compute; reflexivity.
Qed.

(** ** Witnesses *)

(** The example run, interrupted while its tool call is in flight. *)
Definition ex_cut : Session := extend ex_new (take 5 ex_entries).
Definition ex_segment : list SessionEvent := drop 1 (s_events ex_cut).

Lemma ex_cut_reach : reach ex_cut.
Proof. apply extend_reach; [exact ex_new_reach|vm_compute; reflexivity|vm_compute; reflexivity]. Qed.

Lemma ex_cut_open : open_run (s_events ex_cut) "r1" ex_segment.
Proof.
  exists [], (mk_event 0 ex_now "r1" EvRunStart (marshal (start_to_json zero_start))).
  split; [vm_compute; reflexivity|]. split; [done|]. split; [done|].
  apply Forall_forall. intros e He. assert (forallb (λ e, negb (boundary e)) ex_segment = true) as H by (vm_compute; reflexivity).
  rewrite forallb_forall in H. apply list_elem_of_In in He. by apply negb_true_iff, H.
Qed.

Lemma ex_cut_asks : omap asks_approval ex_segment = [] ∧ mjoin (asks <$> ex_segment) = ["call-1"; "call-1"].
Proof. by vm_compute. Qed.

Lemma asked_in_list (l : list SessionEvent) i e id : l !! i = Some e → id ∈ asks e → id ∈ mjoin (asks <$> l).
Proof.
  intros Hi Ha. apply list_elem_of_join. exists (asks e). split; [done|]. apply list_elem_of_fmap_2. by eapply list_elem_of_lookup_2.
Qed.
Lemma asked_approval_in_list (l : list SessionEvent) i e id : l !! i = Some e → asks_approval e = Some id → id ∈ omap asks_approval l.
Proof. intros Hi Ha. apply list_elem_of_omap. exists e. split; [by eapply list_elem_of_lookup_2|done]. Qed.

Lemma ex_cut_not_suspended id : ¬ suspended ex_segment id.
Proof.
  intros (i & e & Hi & Ha & _). destruct ex_cut_asks as [H _]. pose proof (asked_approval_in_list _ _ _ _ Hi Ha) as Hin.
  rewrite H in Hin. by apply elem_of_nil in Hin.
Qed.

Lemma ex_cut_ids id : unanswered ex_segment id → valid_utf8 id = true.
Proof.
  intros (i & e & Hi & Ha & _). destruct ex_cut_asks as [_ H]. pose proof (asked_in_list _ _ _ _ Hi Ha) as Hin. rewrite H in Hin.
  clear - Hin. assert (id = "call-1") as -> by set_solver. vm_compute. reflexivity.
Qed.

Lemma repair_only_when_interrupted_witness : RepairInterrupted (s_events ex_session) = [].
Proof.
  apply (repair_only_when_interrupted ex_session ex_session_reach). right.
  exists "r1", (drop 1 (s_events ex_session)), "apr_0123456789abcdef0123456789abcdef". split.
  - exists [], (mk_event 0 ex_now "r1" EvRunStart (marshal (start_to_json zero_start))).
    split; [vm_compute; reflexivity|]. split; [reflexivity|]. split; [reflexivity|].
    apply Forall_forall. intros e He. assert (forallb (λ e, negb (boundary e)) (drop 1 (s_events ex_session)) = true) as H by (vm_compute; reflexivity).
    rewrite forallb_forall in H. apply list_elem_of_In in He. apply negb_true_iff, H, He.
  - exists 6%nat. eexists. split; [vm_compute; reflexivity|]. split; [vm_compute; reflexivity|].
    intros j e' Hj Hl. apply lookup_lt_Some in Hl. assert (length (drop 1 (s_events ex_session)) = 7%nat) as Hn by (vm_compute; reflexivity). lia.
Defined.

Lemma repair_closes_the_run_witness :
  ∃ s' emitted, AppendRepair ex_clock ex_cut (RepairInterrupted (s_events ex_cut)) = (s', emitted, Ok tt)
  ∧ RepairInterrupted (s_events s') = [].
Proof.
  destruct (repair_closes_the_run ex_clock ex_cut "r1" ex_segment) as (s' & emitted & H & _ & _ & H2 & _);
    [exact ex_cut_reach|exact ex_cut_open|exact ex_cut_not_suspended|exact ex_cut_ids|vm_compute; discriminate|].
  exists s', emitted. split; [exact H|exact H2].
Defined.
