(* ===== verification/SessionStore.v ===== *)
(** * The in-memory session store: [src/pkg/core/session_store.go]

    [MemorySessionStore] keeps one private copy per session id.  [Create] and
    [Save] store a clone and [Load] returns a clone, so the caller's session
    and the stored one never share state; [Save] compares the stored version
    with the one the caller expects.  The store's mutex makes each operation
    one atomic step. *)
From S2P Require Import Prelude GoString Json Scope Principal Payload Events Message Session Projection SessionLog SessionClaims.
From stdpp Require Import gmap strings list.
From Stdlib Require Import ZArith Lia.
Open Scope Z_scope.

Definition MaxMemorySessions : Z := 4096.

Definition ErrSessionNotFound := "session not found".
Definition ErrSessionConflict := "session version conflict".

Record MemorySessionStore := mk_store { sessions : gmap string Session; maxSessions : Z }.

Definition NewMemorySessionStore : MemorySessionStore := mk_store ∅ 0.

Definition sessionCap (st : MemorySessionStore) : Z :=
  if 0 <? maxSessions st then maxSessions st else MaxMemorySessions.

Definition store_Create (st : MemorySessionStore) (session : Session) : result MemorySessionStore :=
  let! copyOf := Clone session in
  fail_when bool_decide (is_Some (sessions st !! s_id session)) with ErrSessionConflict ;;
  fail_when sessionCap st <=? Z.of_nat (size (sessions st)) with "memory sessions exceed maximum" ;;
  Ok (mk_store (<[s_id session := copyOf]> (sessions st)) (maxSessions st)).

Definition store_Load (st : MemorySessionStore) (id : string) : result Session :=
  match sessions st !! id with
  | None => Err ErrSessionNotFound
  | Some stored => Clone stored
  end.

Definition store_Save (st : MemorySessionStore) (session : Session) (expectedVersion : Z) : result MemorySessionStore :=
  let! copyOf := Clone session in
  match sessions st !! s_id session with
  | None => Err ErrSessionNotFound
  | Some stored =>
    fail_when negb (Version stored =? expectedVersion) with ErrSessionConflict ;;
    Ok (mk_store (<[s_id session := copyOf]> (sessions st)) (maxSessions st))
  end.

(** ** Reachable stores *)

Inductive store_reach : MemorySessionStore → Prop :=
| store_new : store_reach NewMemorySessionStore
| store_create st s st' : store_reach st → reach s → store_Create st s = Ok st' → store_reach st'
| store_save st s v st' : store_reach st → reach s → store_Save st s v = Ok st' → store_reach st'.

Record store_inv (st : MemorySessionStore) : Prop := {
  si_reach id s : sessions st !! id = Some s → reach s ∧ s_id s = id;
  si_cap : Z.of_nat (size (sessions st)) ≤ sessionCap st }.

Lemma clone_facts s s' : reach s → Clone s = Ok s' → strip s' = strip s ∧ reach s' ∧ s_id s' = s_id s ∧ Version s' = Version s.
Proof.
  intros Hr Hc. destruct (log_built_clone _ (reach_log_built _ Hr)) as (s2 & H & Heq). rewrite Hc in H. injection H as <-.
  split; [exact Heq|]. split; [by apply (reach_restore (options_of s) (s_events s))|].
  assert (s_id (strip s') = s_id (strip s) ∧ s_events (strip s') = s_events (strip s)) as [H1 H2] by (by rewrite Heq).
  split; [exact H1|]. unfold Version, s_len. cbn in H2. by rewrite H2.
Qed.

Lemma clone_total s : reach s → ∃ s', Clone s = Ok s' ∧ strip s' = strip s.
Proof. intros Hr. apply (log_built_clone _ (reach_log_built _ Hr)). Qed.

Lemma store_reach_inv st : store_reach st → store_inv st.
Proof.
  induction 1 as [|st s st' Hst [IH1 IH2] Hs H|st s v st' Hst [IH1 IH2] Hs H].
  - split; cbn; [intros id s; by rewrite lookup_empty|]. rewrite map_size_empty. done.
  - unfold store_Create in H. apply rbind_ok in H as (c & Hc & H). apply fail_if_ok in H as [Hn H]. apply fail_if_ok in H as [Hl H].
    bool_to_prop. simplify_eq. destruct (clone_facts _ _ Hs Hc) as (_ & Hr & Hid & _).
    apply eq_None_not_Some in Hn. split; cbn.
    + intros id x. rewrite lookup_insert. case_decide; [intros; by simplify_eq|apply IH1].
    + rewrite map_size_insert_None by done. unfold sessionCap in *. cbn. lia.
  - unfold store_Save in H. apply rbind_ok in H as (c & Hc & H). destruct (sessions st !! s_id s) as [old|] eqn:E; [|done].
    apply fail_if_ok in H as [_ H]. simplify_eq. destruct (clone_facts _ _ Hs Hc) as (_ & Hr & Hid & _). split; cbn.
    + intros id x. rewrite lookup_insert. case_decide; [intros; by simplify_eq|apply IH1].
    + rewrite map_size_insert_Some by done. exact IH2.
Qed.

(** Optimistic concurrency loses no update: [Save] succeeds exactly when
    the stored version is the expected one, then a load returns the saved
    session (all of it but its message cache); and once one writer has saved
    from a version, a second writer that read the same version is refused. *)
Theorem save_loses_no_update st s expected :
  store_reach st → reach s →
  (is_ok (store_Save st s expected) = true ↔ ∃ stored, sessions st !! s_id s = Some stored ∧ Version stored = expected)
  ∧ ∀ st', store_Save st s expected = Ok st' →
      (∃ s', store_Load st' (s_id s) = Ok s' ∧ strip s' = strip s)
      ∧ (∀ id, id ≠ s_id s → store_Load st' id = store_Load st id)
      ∧ (Version s ≠ expected → ∀ other, reach other → s_id other = s_id s → store_Save st' other expected = Err ErrSessionConflict).
Proof.
  intros Hst Hs. destruct (clone_total s Hs) as (c & Hc & Hstrip). destruct (clone_facts _ _ Hs Hc) as (_ & Hcr & Hid & Hver). split.
  - unfold store_Save. rewrite Hc. cbn [rbind]. destruct (sessions st !! s_id s) as [stored|]; [|cbn; naive_solver].
    unfold fail_if. destruct (Version stored =? expected) eqn:E; bool_to_prop; cbn; naive_solver.
  - intros st' H. unfold store_Save in H. rewrite Hc in H. cbn [rbind] in H. destruct (sessions st !! s_id s) as [stored|] eqn:E; [|done].
    apply fail_if_ok in H as [_ H]. injection H as <-. split; [|split].
    + unfold store_Load. cbn. rewrite lookup_insert_eq. destruct (clone_total c Hcr) as (c' & -> & Hc'). exists c'. split; [done|congruence].
    + intros id Hne. unfold store_Load. cbn. by rewrite lookup_insert_ne.
    + intros Hv other Ho Heq. unfold store_Save. destruct (clone_total other Ho) as (o' & -> & _). cbn. rewrite Heq, lookup_insert_eq.
      unfold fail_if. assert (Version c =? expected = false) as ->; [|done]. apply Z.eqb_neq. congruence.
Qed.

(** [Create] stores a new session once: it succeeds exactly when the id is
    free and the store below its cap (4096 by default), and the session is then
    loaded back unchanged; the number of stored sessions never exceeds the
    cap. *)
Theorem create_then_load st s :
  store_reach st → reach s →
  (is_ok (store_Create st s) = true ↔ sessions st !! s_id s = None ∧ Z.of_nat (size (sessions st)) < sessionCap st)
  ∧ ∀ st', store_Create st s = Ok st' →
      (∃ s', store_Load st' (s_id s) = Ok s' ∧ strip s' = strip s) ∧ Z.of_nat (size (sessions st')) ≤ sessionCap st'
      ∧ is_ok (store_Create st' s) = false.
Proof.
  intros Hst Hs. destruct (clone_total s Hs) as (c & Hc & Hstrip). destruct (clone_facts _ _ Hs Hc) as (_ & Hcr & _ & _). split.
  - unfold store_Create. rewrite Hc. cbn [rbind]. unfold fail_if. case_bool_decide as Hsome; cbn.
    + split; [done|]. intros [Hn _]. rewrite Hn in Hsome. by destruct Hsome.
    + apply eq_None_not_Some in Hsome. destruct (sessionCap st <=? Z.of_nat (size (sessions st))) eqn:E; bool_to_prop; cbn; naive_solver lia.
  - intros st' H. pose proof (si_cap _ (store_reach_inv _ (store_create _ _ _ Hst Hs H))) as Hcap.
    unfold store_Create in H. rewrite Hc in H. cbn [rbind] in H. apply fail_if_ok in H as [_ H]. apply fail_if_ok in H as [_ H]. injection H as <-.
    split; [|split; [done|]].
    + unfold store_Load. cbn. rewrite lookup_insert_eq. destruct (clone_total c Hcr) as (c' & -> & Hc'). exists c'. split; [done|congruence].
    + unfold store_Create. rewrite Hc. cbn. rewrite lookup_insert_eq. unfold fail_if. by rewrite bool_decide_eq_true_2 by done.
Qed.

(** ** Witnesses *)

Definition ex_store : MemorySessionStore :=
  match store_Create NewMemorySessionStore ex_new with Ok st => st | Err _ => NewMemorySessionStore end.

Lemma ex_store_reach : store_reach ex_store.
Proof. apply (store_create NewMemorySessionStore ex_new); [constructor|exact ex_new_reach|vm_compute; reflexivity]. Qed.

Lemma save_loses_no_update_witness :
  ∃ st', store_Save ex_store ex_session 0 = Ok st' ∧ store_Save st' ex_session 0 = Err ErrSessionConflict.
Proof.
  assert (∃ st', store_Save ex_store ex_session 0 = Ok st') as (st' & H) by (eexists; vm_compute; reflexivity).
  destruct (save_loses_no_update ex_store ex_session 0 ex_store_reach ex_session_reach) as [_ Hs].
  destruct (Hs st' H) as (_ & _ & Hc). exists st'. split; [exact H|].
  apply Hc; [vm_compute; discriminate|exact ex_session_reach|reflexivity].
Defined.

Lemma create_then_load_witness : is_ok (store_Create NewMemorySessionStore ex_session) = true.
Proof.
  apply (create_then_load NewMemorySessionStore ex_session store_new ex_session_reach).
  split; [apply lookup_empty|vm_compute; reflexivity].
Defined.
