(* ===== verification/RateLimit.v ===== *)
(** * Backtest cutoffs and the call rate limiter: [src/pkg/core/ratelimit.go] *)
From S2P Require Import Prelude GoString Json Payload Events Message Session Projection.
From stdpp Require Import gmap strings list sorting.
From Stdlib Require Import ZArith Lia.
Open Scope Z_scope.

(** ** AdjustBacktestCutoff *)

Definition summary_start (e : SessionEvent) : option Z :=
  match ev_Type e with
  | EvContextSummary =>
    match decode_payload EvContextSummary (ev_Data e) with Some (DContextSummary d) => Some (cs_Start d) | _ => None end
  | _ => None
  end.

(** One pass of the inner loop over the events: the cutoff and whether it
    changed. *)
Definition cutoff_event (st : Z * bool) (e : SessionEvent) : Z * bool :=
  let '(newCutoff, changed) := st in
  if Seq e <? newCutoff then st
  else match summary_start e with
       | Some start => if start <? newCutoff then (start, true) else st
       | None => st
       end.
Definition cutoff_pass (events : list SessionEvent) (newCutoff : Z) : Z * bool :=
  foldl cutoff_event (newCutoff, false) events.

(** The outer loop.  Each pass that changes the cutoff moves it to the start
    of some event's range, below the previous one, so one pass more than there
    are events is enough ([cutoff_loop_spec]). *)
Fixpoint cutoff_loop (fuel : nat) (events : list SessionEvent) (newCutoff : Z) : option Z :=
  match fuel with
  | O => None
  | S fuel =>
    let '(c, changed) := cutoff_pass events newCutoff in
    if changed then cutoff_loop fuel events c else Some c
  end.

Definition AdjustBacktestCutoff (events : list SessionEvent) (cutoff : Z) : option (result Z) :=
  if (cutoff <=? 0) || (Z.of_nat (length events) <? cutoff) then Some (Ok (Z.of_nat (length events)))
  else
    (λ c, if c <=? 0 then Err "cutoff would strip the summarized context prefix" else Ok c)
    <$> cutoff_loop (S (length events)) events cutoff.

(** A cutoff is consistent when no summary outside the copied prefix covers
    events inside it. *)
Definition consistent (events : list SessionEvent) (c : Z) : Prop :=
  ∀ e start, e ∈ events → summary_start e = Some start → c ≤ Seq e → c ≤ start.

Lemma cutoff_pass_from events : ∀ c ch c' ch',
  foldl cutoff_event (c, ch) events = (c', ch') →
  c' ≤ c ∧ (c' < c → ch' = true) ∧ (ch = true → ch' = true)
  ∧ (c' < c → ∃ e, e ∈ events ∧ summary_start e = Some c')
  ∧ (∀ k, k ≤ c → consistent events k → k ≤ c')
  ∧ (ch' = false → ∀ e start, e ∈ events → summary_start e = Some start → c' ≤ Seq e → c' ≤ start)
  ∧ (ch = false → ch' = true → c' < c).
Proof.
  induction events as [|e events IH]; intros c ch c' ch' H; cbn [foldl] in H.
  { simplify_eq. split_and!; try lia; try done; try (intros; lia). all: intros; by match goal with H : _ ∈ [] |- _ => apply elem_of_nil in H | H1 : ?b = false, H2 : ?b = true |- _ => congruence end. }
  assert (Hsub : ∀ k, consistent (e :: events) k → consistent events k) by (intros k Hk x st Hx; apply Hk; by right).
  unfold cutoff_event at 2 in H. destruct (Seq e <? c) eqn:Hseq; [|destruct (summary_start e) as [st|] eqn:Est; [destruct (st <? c) eqn:Hst|]]; bool_to_prop.
  - destruct (IH _ _ _ _ H) as (H1 & H2 & H3 & H4 & H5 & H6 & H7). split; [done|]. split; [done|]. split; [done|].
    split; [intros Hlt; destruct (H4 Hlt) as (x & Hx & Hs); exists x; split; [by right|done]|].
    split; [intros k Hk Hc; apply H5; [done|by apply Hsub]|]. split; [|done].
    intros Hf x start Hx Hs Hle. apply elem_of_cons in Hx as [->|Hx]; [|by eapply H6]. exfalso.
    destruct (decide (c' < c)) as [Hlt|]; [by rewrite (H2 Hlt) in Hf|lia].
  - destruct (IH _ _ _ _ H) as (H1 & H2 & H3 & H4 & H5 & H6 & H7). specialize (H3 eq_refl).
    split; [lia|]. split; [done|]. split; [done|]. split.
    { intros _. destruct (decide (c' < st)) as [Hlt|]; [destruct (H4 Hlt) as (x & Hx & Hs); exists x; split; [by right|done]|].
      exists e. split; [by left|]. rewrite Est. f_equal. lia. }
    split; [intros k Hk Hc; apply H5; [apply (Hc e st); [by left|done|lia]|by apply Hsub]|]. split; [intros; congruence|]. intros _ _. lia.
  - destruct (IH _ _ _ _ H) as (H1 & H2 & H3 & H4 & H5 & H6 & H7). split; [done|]. split; [done|]. split; [done|].
    split; [intros Hlt; destruct (H4 Hlt) as (x & Hx & Hs); exists x; split; [by right|done]|].
    split; [intros k Hk Hc; apply H5; [done|by apply Hsub]|]. split; [|done].
    intros Hf x start Hx Hs Hle. apply elem_of_cons in Hx as [->|Hx]; [|by eapply H6]. simplify_eq. lia.
  - destruct (IH _ _ _ _ H) as (H1 & H2 & H3 & H4 & H5 & H6 & H7). split; [done|]. split; [done|]. split; [done|].
    split; [intros Hlt; destruct (H4 Hlt) as (x & Hx & Hs); exists x; split; [by right|done]|].
    split; [intros k Hk Hc; apply H5; [done|by apply Hsub]|]. split; [|done].
    intros Hf x start Hx Hs Hle. apply elem_of_cons in Hx as [->|Hx]; [congruence|by eapply H6].
Qed.

(** How many summaries start below a cutoff: the measure of the outer loop. *)
Definition below (events : list SessionEvent) (c : Z) : nat :=
  length (List.filter (λ e, match summary_start e with Some st => st <? c | None => false end) events).

Lemma below_le events c c' : c' ≤ c → (below events c' ≤ below events c)%nat.
Proof.
  intros Hle. unfold below. induction events as [|e events IH]; [done|]. cbn.
  destruct (summary_start e) as [st|]; cbn; [|done].
  destruct (st <? c') eqn:E1, (st <? c) eqn:E2; bool_to_prop; cbn; lia.
Qed.

Lemma below_lt events c c' e : c' < c → e ∈ events → summary_start e = Some c' → (below events c' < below events c)%nat.
Proof.
  intros Hlt He Hs. induction events as [|x events IH]; [by apply elem_of_nil in He|].
  unfold below in *. cbn. apply elem_of_cons in He as [->|He].
  - rewrite Hs. rewrite Z.ltb_irrefl, (proj2 (Z.ltb_lt c' c) Hlt). cbn. pose proof (below_le events c c' ltac:(lia)). unfold below in *. lia.
  - specialize (IH He). destruct (summary_start x) as [st|]; cbn; [|done].
    destruct (st <? c') eqn:E1, (st <? c) eqn:E2; bool_to_prop; cbn; lia.
Qed.

Lemma cutoff_loop_spec events : ∀ fuel c,
  (below events c < fuel)%nat →
  ∃ c', cutoff_loop fuel events c = Some c' ∧ c' ≤ c ∧ consistent events c' ∧ ∀ k, k ≤ c → consistent events k → k ≤ c'.
Proof.
  induction fuel as [|fuel IH]; intros c Hf; [lia|]. cbn. destruct (cutoff_pass events c) as [c1 ch] eqn:Hp. unfold cutoff_pass in Hp.
  destruct (cutoff_pass_from _ _ _ _ _ Hp) as (H1 & H2 & _ & H4 & H5 & H6 & H7). destruct ch.
  - specialize (H7 eq_refl eq_refl). destruct (H4 H7) as (e & He & Hs). pose proof (below_lt _ _ _ _ H7 He Hs).
    destruct (IH c1 ltac:(lia)) as (c' & Hc' & Hle & Hcon & Hmax). exists c'. split; [done|]. split; [lia|]. split; [done|].
    intros k Hk Hck. apply Hmax; [by apply H5|done].
  - exists c1. split; [done|]. split; [done|]. split; [|done]. intros e start He Hs Hle. by eapply (H6 eq_refl).
Qed.

Lemma below_length events c : (below events c < S (length events))%nat.
Proof. unfold below. pose proof (filter_length_le (λ e, match summary_start e with Some st => st <? c | None => false end) events). lia. Qed.

(** [AdjustBacktestCutoff] terminates with the greatest consistent cutoff:
    for a cutoff inside the log the result is at most the requested one, no
    summary left out of the copy covers events in it, and every consistent
    cutoff up to the requested one is at most the result; it fails exactly when
    that greatest cutoff leaves nothing to copy. *)
Theorem backtest_cutoff_is_greatest events cutoff :
  0 < cutoff ≤ Z.of_nat (length events) →
  ∃ c, c ≤ cutoff ∧ consistent events c ∧ (∀ k, k ≤ cutoff → consistent events k → k ≤ c)
  ∧ AdjustBacktestCutoff events cutoff =
      Some (if c <=? 0 then Err "cutoff would strip the summarized context prefix" else Ok c).
Proof.
  intros Hc. destruct (cutoff_loop_spec events (S (length events)) cutoff (below_length _ _)) as (c & Hl & Hle & Hcon & Hmax).
  exists c. split; [done|]. split; [done|]. split; [done|]. unfold AdjustBacktestCutoff.
  assert ((cutoff <=? 0) || (Z.of_nat (length events) <? cutoff) = false) as -> by (apply orb_false_iff; rewrite Z.leb_gt, Z.ltb_ge; lia).
  by rewrite Hl.
Qed.

(** ** WindowRateLimiter *)

Definition maxWindowRateLimiterBuckets : Z := 4096.

Record rateBucket := mk_bucket { slots : gmap Z Z; bk_last : Z }.
Record WindowRateLimiter := mk_limiter { perMinute : Z; maxBuckets : Z; buckets : gmap string rateBucket }.

Definition NewWindowRateLimiter (n : Z) : WindowRateLimiter :=
  mk_limiter (if n <=? 0 then 1 else n) maxWindowRateLimiterBuckets ∅.

Definition evictStaleLocked (w : WindowRateLimiter) (slot : Z) : WindowRateLimiter :=
  mk_limiter (perMinute w) (maxBuckets w) (filter (λ kb, ¬ bk_last kb.2 < slot - 1) (buckets w)).

Definition bucket_key (tenantID capabilityID : string) : string := tenantID +:+ String (Ascii.ascii_of_nat 0) capabilityID.

(** [AllowCall] at Unix time [now]: the limiter after the call and the answer. *)
Definition AllowCall (w : WindowRateLimiter) (now : Z) (tenantID capabilityID : string) : WindowRateLimiter * bool :=
  let slot := now `quot` 60 in
  let key := bucket_key tenantID capabilityID in
  let w := if maxBuckets w <=? 0 then mk_limiter (perMinute w) maxWindowRateLimiterBuckets (buckets w) else w in
  let w := evictStaleLocked w slot in
  match buckets w !! key with
  | None =>
    if maxBuckets w <=? Z.of_nat (size (buckets w)) then (w, false)
    else
      let bucket := mk_bucket ∅ 0 in
      if perMinute w <=? 0 then (mk_limiter (perMinute w) (maxBuckets w) (<[key := bucket]> (buckets w)), false)
      else (mk_limiter (perMinute w) (maxBuckets w) (<[key := mk_bucket {[ slot := 1 ]} slot]> (buckets w)), true)
  | Some bucket =>
    let live := filter (λ sc, ¬ sc.1 < slot - 1) (slots bucket) in
    let count := default 0 (live !! slot) in
    if perMinute w <=? count then (mk_limiter (perMinute w) (maxBuckets w) (<[key := mk_bucket live (bk_last bucket)]> (buckets w)), false)
    else (mk_limiter (perMinute w) (maxBuckets w) (<[key := mk_bucket (<[slot := count + 1]> live) slot]> (buckets w)), true)
  end.

(** A history of calls, newest first: time, key, allowed. *)
Record call_log := mk_log { cl_time : Z; cl_key : string; cl_ok : bool }.

Inductive limiter_reach (n : Z) : WindowRateLimiter → list call_log → Prop :=
| limiter_new : limiter_reach n (NewWindowRateLimiter n) []
| limiter_call w hist now tenant cap w' ok :
    limiter_reach n w hist → (∀ c, c ∈ hist → cl_time c ≤ now) → 0 ≤ now → AllowCall w now tenant cap = (w', ok) →
    limiter_reach n w' (mk_log now (bucket_key tenant cap) ok :: hist).

Definition granted (key : string) (slot : Z) (c : call_log) : bool :=
  cl_ok c && bool_decide (cl_key c = key) && (cl_time c `quot` 60 =? slot).
Definition grants (hist : list call_log) (key : string) (slot : Z) : Z := Z.of_nat (length (List.filter (granted key slot) hist)).

(** The state relative to the current slot [cur]: the buckets count the grants
    of the current and later slots. *)
Record limiter_inv (n cur : Z) (w : WindowRateLimiter) (hist : list call_log) : Prop := {
  wi_rate : perMinute w = Z.max 1 n;
  wi_max : maxBuckets w = maxWindowRateLimiterBuckets;
  wi_size : Z.of_nat (size (buckets w)) ≤ maxWindowRateLimiterBuckets;
  wi_bound key slot : grants hist key slot ≤ Z.max 1 n;
  wi_future key slot : cur < slot → grants hist key slot = 0;
  wi_absent key slot : cur ≤ slot → buckets w !! key = None → grants hist key slot = 0;
  wi_count key slot b : cur ≤ slot → buckets w !! key = Some b →
    default 0 (slots b !! slot) = grants hist key slot ∧ (0 < grants hist key slot → bk_last b = slot) }.

Lemma grants_cons c hist key slot : grants (c :: hist) key slot = grants hist key slot + (if granted key slot c then 1 else 0).
Proof. unfold grants. cbn. destruct (granted key slot c); cbn; lia. Qed.

Lemma grants_nonneg hist key slot : 0 ≤ grants hist key slot.
Proof. unfold grants. lia. Qed.

Lemma limiter_inv_later n cur cur' w hist : cur ≤ cur' → limiter_inv n cur w hist → limiter_inv n cur' w hist.
Proof. intros Hle [H1 H2 H3 H4 H0 H5 H6]. split; try done; intros; [apply H0|apply H5|apply H6]; (done || lia). Qed.

(** An eviction removes only buckets without a grant in the current slot. *)
Lemma evict_inv n cur w hist : limiter_inv n cur w hist → limiter_inv n cur (evictStaleLocked w cur) hist.
Proof.
  intros [H1 H2 H3 H4 H0 H5 H6]. split; try done; cbn.
  - assert (size (filter (λ kb : string * rateBucket, ¬ (bk_last kb.2 < cur - 1)%Z) (buckets w)) <= size (buckets w))%nat; [|lia].
    apply map_subseteq_size, map_filter_subseteq.
  - intros key slot Hle Hnone. destruct (buckets w !! key) as [b|] eqn:E; [|by apply H5].
    destruct (H6 key slot b Hle E) as [_ Hlast]. pose proof (grants_nonneg hist key slot).
    destruct (decide (0 < grants hist key slot)) as [Hpos|]; [|lia]. specialize (Hlast Hpos).
    apply map_lookup_filter_None in Hnone as [Hn|Hn]; [congruence|]. exfalso. apply (Hn b E). cbn. lia.
  - intros key slot b Hle Hb. apply map_lookup_filter_Some in Hb as [Hb _]. by apply H6.
Qed.

(** Replacing the bucket of one key. *)
Lemma limiter_inv_put n cur w hist key b (ok : bool) now :
  limiter_inv n cur w hist → now `quot` 60 = cur →
  (Z.of_nat (size (<[key := b]> (buckets w))) ≤ maxWindowRateLimiterBuckets) →
  grants hist key cur + (if ok then 1 else 0) ≤ Z.max 1 n →
  (∀ slot, cur ≤ slot → default 0 (slots b !! slot) = grants hist key slot + (if ok && (cur =? slot) then 1 else 0)) →
  (∀ slot, cur ≤ slot → 0 < grants hist key slot + (if ok && (cur =? slot) then 1 else 0) → bk_last b = slot) →
  limiter_inv n cur (mk_limiter (perMinute w) (maxBuckets w) (<[key := b]> (buckets w))) (mk_log now key ok :: hist).
Proof.
  intros [H1 H2 H3 H4 H0 H5 H6] Hnow Hsize Hlim Hslots Hlast.
  assert (Hg : ∀ k slot, granted k slot (mk_log now key ok) = ok && bool_decide (key = k) && (cur =? slot))
    by (intros; unfold granted; cbn; by rewrite Hnow).
  split; cbn; try done.
  - intros k slot. rewrite grants_cons, Hg. specialize (H4 k slot). destruct ok; cbn; [|lia]. case_bool_decide as Hk; cbn; [|lia].
    subst k. destruct (cur =? slot) eqn:E; bool_to_prop; subst; lia.
  - intros k slot Hlt. rewrite grants_cons, Hg, (H0 k slot Hlt). rewrite (proj2 (Z.eqb_neq cur slot)) by lia. by rewrite andb_false_r.
  - intros k slot Hle Hn. apply lookup_insert_None in Hn as [Hn Hne]. rewrite grants_cons, Hg, bool_decide_eq_false_2 by done.
    rewrite andb_false_r. cbn. rewrite (H5 k slot Hle Hn). lia.
  - intros k slot b' Hle Hb. rewrite grants_cons, Hg. apply lookup_insert_Some in Hb as [[<- <-]|[Hne Hb]].
    + rewrite bool_decide_eq_true_2 by done. rewrite andb_true_r. split; [by apply Hslots|by apply Hlast].
    + rewrite bool_decide_eq_false_2 by done. rewrite andb_false_r. cbn. rewrite Z.add_0_r. by apply H6.
Qed.

Lemma AllowCall_inv n w hist now tenant cap w' ok :
  limiter_inv n (now `quot` 60) w hist → AllowCall w now tenant cap = (w', ok) →
  limiter_inv n (now `quot` 60) w' (mk_log now (bucket_key tenant cap) ok :: hist).
Proof.
  intros Hi H. unfold AllowCall in H.
  assert (maxBuckets w <=? 0 = false) as Hmb by (rewrite (wi_max _ _ _ _ Hi); reflexivity). rewrite Hmb in H. cbv zeta iota in H.
  pose proof (evict_inv _ _ _ _ Hi) as He. set (key := bucket_key tenant cap) in *. set (cur := now `quot` 60) in *.
  set (w1 := evictStaleLocked w cur) in *.
  assert (perMinute w1 <=? 0 = false) as Hpos by (rewrite (wi_rate _ _ _ _ He); apply Z.leb_gt; lia).
  destruct (buckets w1 !! key) as [b|] eqn:Eb.
  - assert (Hsize : ∀ b', Z.of_nat (size (<[key := b']> (buckets w1))) ≤ maxWindowRateLimiterBuckets)
      by (intros; rewrite map_size_insert_Some by done; apply He).
    assert (Hlive : ∀ slot, cur ≤ slot → filter (λ sc : Z * Z, ¬ sc.1 < cur - 1) (slots b) !! slot = slots b !! slot).
    { intros slot Hle. rewrite map_lookup_filter. destruct (slots b !! slot); cbn; [|done]. rewrite option_guard_True; [done|lia]. }
    destruct (perMinute w1 <=? _) eqn:Hlim; simplify_eq.
    + apply limiter_inv_put; try done; cbn.
      * pose proof (wi_bound _ _ _ _ He key cur). lia.
      * intros slot Hle. rewrite Hlive by done. destruct (wi_count _ _ _ _ He key slot b Hle Eb) as [-> _]. lia.
      * intros slot Hle. rewrite Z.add_0_r. by destruct (wi_count _ _ _ _ He key slot b Hle Eb) as [_ ?].
    + rewrite Hlive in * by lia. destruct (wi_count _ _ _ _ He key cur b (Z.le_refl _) Eb) as [Hc _]. rewrite Hc in *.
      bool_to_prop. rewrite (wi_rate _ _ _ _ He) in Hlim. apply limiter_inv_put; try done; cbn.
      * lia.
      * intros slot Hle. rewrite lookup_insert. destruct (cur =? slot) eqn:E; bool_to_prop.
        -- subst slot. rewrite decide_True by done. done.
        -- rewrite decide_False by done. rewrite Hlive by done. destruct (wi_count _ _ _ _ He key slot b Hle Eb) as [-> _]. lia.
      * intros slot Hle Hp. destruct (cur =? slot) eqn:E; bool_to_prop; [done|]. rewrite (wi_future _ _ _ _ He) in Hp by lia. lia.
  - rewrite Hpos, (wi_max _ _ _ _ He) in H.
    destruct (maxWindowRateLimiterBuckets <=? Z.of_nat (size (buckets w1))) eqn:Hfull; simplify_eq; bool_to_prop.
    + assert (Hg : ∀ k slot, granted k slot (mk_log now key false) = false) by done.
      destruct He as [H1 H2 H3 H4 H0 H5 H6].
      split; try done; setoid_rewrite grants_cons; setoid_rewrite Hg; setoid_rewrite Z.add_0_r; done.
    + rewrite <- (wi_max _ _ _ _ He). apply limiter_inv_put; try done; cbn [slots bk_last andb].
      * rewrite map_size_insert_None by done. lia.
      * rewrite (wi_absent _ _ _ _ He key cur) by done. lia.
      * intros slot Hle. rewrite (wi_absent _ _ _ _ He key slot) by done. rewrite lookup_singleton.
        destruct (cur =? slot) eqn:E; bool_to_prop; [by rewrite decide_True|by rewrite decide_False].
      * intros slot Hle. rewrite (wi_absent _ _ _ _ He key slot) by done. destruct (cur =? slot) eqn:E; bool_to_prop; lia.
Qed.

Lemma limiter_reach_inv n w hist :
  limiter_reach n w hist → ∀ cur, (∀ c, c ∈ hist → cl_time c `quot` 60 ≤ cur) → limiter_inv n cur w hist.
Proof.
  induction 1 as [|w hist now tenant cap w' ok Hr IH Hmono Hnow H]; intros cur Hcur.
  - split; try done; cbn.
    + destruct (n <=? 0) eqn:E; bool_to_prop; lia.
    + intros. unfold grants. cbn. lia.
  - apply (limiter_inv_later n (now `quot` 60)); [apply (Hcur (mk_log now (bucket_key tenant cap) ok)); by left|]. eapply AllowCall_inv; [|exact H]. apply IH.
    intros c Hc. apply Z.quot_le_mono; [lia|by apply Hmono].
Qed.

(** With a clock that does not run backwards, the limiter grants at most
    [perMinute] calls (at least one) per tenant and capability in each calendar
    minute, and never tracks more than 4096 pairs. *)
Theorem rate_limit_per_minute n w hist key minute :
  limiter_reach n w hist →
  grants hist key minute ≤ Z.max 1 n ∧ Z.of_nat (size (buckets w)) ≤ maxWindowRateLimiterBuckets.
Proof.
  intros Hr. assert (∃ cur, ∀ c, c ∈ hist → cl_time c `quot` 60 ≤ cur) as (cur & Hcur).
  { clear. induction hist as [|c hist (cur & IH)]; [exists 0; intros c Hc; by apply elem_of_nil in Hc|].
    exists (Z.max cur (cl_time c `quot` 60)). intros c' [->|Hc']%elem_of_cons; [lia|]. specialize (IH c' Hc'). lia. }
  pose proof (limiter_reach_inv _ _ _ Hr cur Hcur) as Hi. split; [apply Hi|apply Hi].
Qed.

(** Every call of a list of times, for one tenant and capability. *)
Fixpoint run_calls (w : WindowRateLimiter) (hist : list call_log) (times : list Z) : WindowRateLimiter * list call_log :=
  match times with
  | [] => (w, hist)
  | t :: times => let '(w', ok) := AllowCall w t "acme" "files.read" in run_calls w' (mk_log t (bucket_key "acme" "files.read") ok :: hist) times
  end.

Lemma run_calls_reach n times : ∀ w hist,
  limiter_reach n w hist → (∀ c t, c ∈ hist → t ∈ times → cl_time c ≤ t) → StronglySorted Z.le times → Forall (λ t, 0 ≤ t) times →
  limiter_reach n (fst (run_calls w hist times)) (snd (run_calls w hist times)).
Proof.
  induction times as [|t times IH]; intros w hist Hr Hm Hs Hp; cbn; [done|].
  destruct (AllowCall w t "acme" "files.read") as [w' ok] eqn:E. apply StronglySorted_inv in Hs as [Hs Ht]. apply Forall_cons in Hp as [Hp Hps].
  apply IH; try done.
  - apply (limiter_call n w hist t "acme" "files.read"); try done. intros c Hc. apply Hm; [done|by left].
  - intros c t' [->|Hc]%elem_of_cons Ht'; [rewrite Forall_forall in Ht; by apply Ht|]. apply Hm; [done|by right].
Qed.

Definition ex_times : list Z := [59; 59; 59; 60; 60].
Definition ex_hist : list call_log := snd (run_calls (NewWindowRateLimiter 2) [] ex_times).

Lemma ex_limiter_reach : limiter_reach 2 (fst (run_calls (NewWindowRateLimiter 2) [] ex_times)) ex_hist.
Proof.
  apply run_calls_reach; [constructor|intros c t Hc; by apply elem_of_nil in Hc| |repeat constructor; lia].
  repeat (constructor; [|repeat constructor; lia]). constructor.
Qed.

Lemma rate_limit_per_minute_witness : grants ex_hist (bucket_key "acme" "files.read") 0 ≤ 2.
Proof. apply (rate_limit_per_minute 2 _ ex_hist (bucket_key "acme" "files.read") 0 ex_limiter_reach). Defined.

(** The window of the limiter is the calendar minute, not a sliding one:
    with a limit of two calls per minute, four calls are granted within two
    seconds around a minute boundary. *)
Theorem rate_limit_doubles_at_the_boundary :
  limiter_reach 2 (fst (run_calls (NewWindowRateLimiter 2) [] ex_times)) ex_hist
  ∧ length (List.filter (λ c, cl_ok c && (59 <=? cl_time c) && (cl_time c <=? 60)) ex_hist) = 4%nat.
Proof. split; [exact ex_limiter_reach|vm_compute; reflexivity]. Qed.

(** *** A log with two nested summaries *)

Definition ex_log : list SessionEvent :=
  let summary seq a b := mk_event seq "" "r1" EvContextSummary (marshal (summary_to_json (mk_summary "replace" a b "text"))) in
  let user seq := mk_event seq "" "r1" EvUserMessage (marshal (user_to_json (mk_user "hi"))) in
  [user 0; user 1; user 2; summary 3 1 2; user 4; summary 5 2 4].

Lemma backtest_cutoff_is_greatest_witness :
  ∃ c, c ≤ 5 ∧ consistent ex_log c ∧ AdjustBacktestCutoff ex_log 5 = Some (Ok c).
Proof.
  destruct (backtest_cutoff_is_greatest ex_log 5) as (c & H1 & H2 & _ & H4); [vm_compute; split; [reflexivity|discriminate]|].
  exists c. split; [exact H1|]. split; [exact H2|]. pose proof H4 as H5. vm_compute in H5. destruct (c <=? 0); [discriminate|exact H4].
Defined.
