(* ===== verification/Capability.v ===== *)
(** * Capabilities: [src/pkg/core/capability.go] and the snapshot filters of
    [src/pkg/core/profile.go]

    Scopes contribute provide, replace and disable bindings to a registry;
    resolving a target scope walks its ancestors and fixes one snapshot for a
    run.  Providers are external code: a [Provider] records what the kernel can
    observe of one (whether it executes tools, its revision label); running it
    is a parameter.  The regular expression engine and the JSON text parser of
    the Go library are parameters too. *)
From S2P Require Import Prelude GoString Json Schema Scope Registry Principal Policy Sha256 Payload Events Message Session.
From stdpp Require Import gmap strings list sorting.
From Stdlib Require Import ZArith Lia Ascii.
Open Scope Z_scope.

Definition MaxCapabilityTimeoutMs : Z := 24 * 60 * 60 * 1000.
Definition MaxCapabilityManifestBytes : Z := 256 * 2 ^ 10.
Definition MaxCapabilitySnapshotBytes : Z := 8 * 2 ^ 20.
Definition DefaultMaxCapabilityOutputBytes : Z := 2 ^ 20.
Definition HardMaxCapabilityOutputBytes : Z := 16 * 2 ^ 20.
Definition MaxToolArgumentBytes : Z := 2 ^ 20.

(** ** Data *)

Definition SandboxReadOnly := "read-only".
Definition SandboxWorkspaceWrite := "workspace-write".
Definition SandboxDangerFullAccess := "danger-full-access".

Record ExecutionSpec := mk_exec {
  Runtime_ : string; Entrypoint : string; Workdir : string; SandboxMode : string; Writes : bool;
  Method : string; Headers : gmap string string }.

(** [Parameters] distinguishes nil from an empty map. *)
Record ToolExposure := mk_tool { te_Description : string; Parameters : option (gmap string json) }.

Record CapabilityManifest := mk_manifest {
  m_ID : string; m_Version : string; m_Name : string; m_Description : string; m_Kind : string; Contract : string;
  RequiredPermissions : list string; RequiredCredentials : list string;
  InputSchema : gmap string json; OutputSchema : gmap string json;
  MaxOutputBytes : Z; PerTurnBudget : Z; TimeoutMs : Z; Idempotent : bool; RequiresApproval : bool;
  Tool : option ToolExposure; Execution : option ExecutionSpec; m_Metadata : gmap string string }.

(** What the kernel observes of a provider: its identity, whether it implements
    [ToolProvider], and the label of its [ArtifactRevisioner] when it has one
    (nothing when asking panics). *)
Record Provider := mk_provider { pv_Name : string; is_ToolProvider : bool; revision_label : option string }.

Inductive BindingMode := BindingProvide | BindingReplace | BindingDisable | BindingOther (s : string).

(** The empty mode means provide. *)
Definition binding_mode (s : string) : BindingMode :=
  if bool_decide (s = "") || bool_decide (s = "provide") then BindingProvide
  else if bool_decide (s = "replace") then BindingReplace
  else if bool_decide (s = "disable") then BindingDisable else BindingOther s.

Record CapabilityBinding := mk_binding {
  cb_Scope : ScopePath; cb_Mode : BindingMode; cb_Manifest : CapabilityManifest; cb_Provider : option Provider; Protected : bool }.

#[export] Instance binding_keyed : Keyed CapabilityBinding := { key_of b := path_string (cb_Scope b) }.
Notation CapabilityRegistry := (Registry CapabilityBinding).

(** ** JSON form of a manifest *)

Definition json_of_strs (l : list string) : json := JArr (json_of_str <$> l).
Definition exec_to_json (e : ExecutionSpec) : json :=
  JObj ([("runtime", json_of_str (Runtime_ e)); ("entrypoint", json_of_str (Entrypoint e))]
        ++ omit_if (is_empty (Workdir e)) "workdir" (json_of_str (Workdir e))
        ++ [("sandbox", JObj [("Mode", json_of_str (SandboxMode e))])]
        ++ omit_if (negb (Writes e)) "writes" (JBool true)
        ++ omit_if (is_empty (Method e)) "method" (json_of_str (Method e))
        ++ omit_if (bool_decide (Headers e = ∅)) "headers" (json_of_str_map (Headers e))).
Definition tool_to_json (t : ToolExposure) : json :=
  JObj (omit_if (is_empty (te_Description t)) "description" (json_of_str (te_Description t))
        ++ omit_if (bool_decide (default ∅ (Parameters t) = ∅)) "parameters" (json_of_any_map (default ∅ (Parameters t)))).
Definition manifest_to_json (m : CapabilityManifest) : json :=
  JObj ([("id", json_of_str (m_ID m)); ("version", json_of_str (m_Version m)); ("name", json_of_str (m_Name m))]
        ++ omit_if (is_empty (m_Description m)) "description" (json_of_str (m_Description m))
        ++ [("kind", json_of_str (m_Kind m))]
        ++ omit_if (is_empty (Contract m)) "contract" (json_of_str (Contract m))
        ++ omit_if (bool_decide (RequiredPermissions m = [])) "required_permissions" (json_of_strs (RequiredPermissions m))
        ++ omit_if (bool_decide (RequiredCredentials m = [])) "required_credentials" (json_of_strs (RequiredCredentials m))
        ++ omit_if (bool_decide (InputSchema m = ∅)) "input_schema" (json_of_any_map (InputSchema m))
        ++ omit_if (bool_decide (OutputSchema m = ∅)) "output_schema" (json_of_any_map (OutputSchema m))
        ++ omit_if (MaxOutputBytes m =? 0) "max_output_bytes" (json_of_z (MaxOutputBytes m))
        ++ omit_if (PerTurnBudget m =? 0) "per_turn_budget" (json_of_z (PerTurnBudget m))
        ++ omit_if (TimeoutMs m =? 0) "timeout_ms" (json_of_z (TimeoutMs m))
        ++ omit_if (negb (Idempotent m)) "idempotent" (JBool true)
        ++ omit_if (negb (RequiresApproval m)) "requires_approval" (JBool true)
        ++ match Tool m with Some t => [("tool", tool_to_json t)] | None => [] end
        ++ match Execution m with Some e => [("execution", exec_to_json e)] | None => [] end
        ++ omit_if (bool_decide (m_Metadata m = ∅)) "metadata" (json_of_str_map (m_Metadata m))).

(** ** cloneManifest, publicManifest *)

Definition cloneManifest (m : CapabilityManifest) : CapabilityManifest :=
  mk_manifest (m_ID m) (m_Version m) (m_Name m) (m_Description m) (m_Kind m) (Contract m)
    (RequiredPermissions m) (RequiredCredentials m) (cloneMap (InputSchema m)) (cloneMap (OutputSchema m))
    (MaxOutputBytes m) (PerTurnBudget m) (TimeoutMs m) (Idempotent m) (RequiresApproval m)
    ((λ t, mk_tool (te_Description t) (cloneMap <$> Parameters t)) <$> Tool m) (Execution m) (m_Metadata m).

Fixpoint contains_word (w l : list N) : bool :=
  is_prefix w l || match l with [] => false | _ :: l => contains_word w l end.
Definition sensitive_words : list string := ["secret"; "password"; "token"; "api_key"; "credential"; "authorization"].
Definition sensitive_key (key : string) : bool :=
  existsb (λ w, contains_word (runes w) (lower_rune <$> runes key)) sensitive_words.

Definition redactStringMetadata (m : gmap string string) : gmap string string :=
  map_imap (λ k v, Some (if sensitive_key k then "[redacted]" else v)) m.

Definition redact_header (v : string) : string := if String.prefix "$credential:" v then v else "[redacted]".

Definition publicManifest (m : CapabilityManifest) : CapabilityManifest :=
  let out := cloneManifest m in
  mk_manifest (m_ID out) (m_Version out) (m_Name out) (m_Description out) (m_Kind out) (Contract out)
    (RequiredPermissions out) (RequiredCredentials out) (InputSchema out) (OutputSchema out)
    (MaxOutputBytes out) (PerTurnBudget out) (TimeoutMs out) (Idempotent out) (RequiresApproval out) (Tool out)
    ((λ e, mk_exec (Runtime_ e) (Entrypoint e) (Workdir e) (SandboxMode e) (Writes e) (Method e) (redact_header <$> Headers e)) <$> Execution out)
    (redactStringMetadata (m_Metadata out)).

(** [artifactRevisionLabel]: trimmed and cut to 4096 bytes. *)
Definition artifactRevisionLabel (p : option Provider) : string :=
  match p with
  | Some p => match revision_label p with
              | Some label => let t := trim_space label in of_bytes (take 4096 (bytes t))
              | None => "" end
  | None => ""
  end.

(** ** Mount *)

(** Valid identifiers without repetition. *)
Fixpoint check_unique (seen : list string) (l : list string) : result unit :=
  match l with
  | [] => Ok tt
  | x :: l =>
    let! _ := ValidateNamespacedID x in
    fail_when bool_decide (x ∈ seen) with "capability repeats a requirement" ;;
    check_unique (x :: seen) l
  end.

Section Capability.
Context (regexp_Compile : string → option (string → bool)).

Definition validateCapabilityManifest (m : CapabilityManifest) : result unit :=
  fail_when blank (m_Kind m) with "capability has an empty kind" ;;
  fail_when (PerTurnBudget m <? 0) || (HardMaxToolCalls <? PerTurnBudget m) with "capability per-turn budget out of range" ;;
  fail_when (MaxOutputBytes m <? 0) || (HardMaxCapabilityOutputBytes <? MaxOutputBytes m) with "capability max output bytes out of range" ;;
  fail_when (TimeoutMs m <? 0) || (MaxCapabilityTimeoutMs <? TimeoutMs m) with "capability timeout out of range" ;;
  let! _ := check_unique [] (RequiredPermissions m) in
  let! _ := check_unique [] (RequiredCredentials m) in
  let! _ := ValidateSchema regexp_Compile (InputSchema m) in
  let! _ := ValidateSchema regexp_Compile (OutputSchema m) in
  let! _ := match Tool m with Some t => ValidateSchema regexp_Compile (default ∅ (Parameters t)) | None => Ok tt end in
  match Execution m with
  | Some e =>
    fail_when negb (bool_decide (SandboxMode e ∈ [""; SandboxReadOnly; SandboxWorkspaceWrite; SandboxDangerFullAccess]))
      with "capability has unknown sandbox mode" ;; Ok tt
  | None => Ok tt
  end.

(** The checks of [Mount]; the binding as stored. *)
Definition check_binding (b : CapabilityBinding) : result CapabilityBinding :=
  fail_when bool_decide (segments (cb_Scope b) = []) with "capability binding has an empty scope" ;;
  let! _ := validateCapabilityID (m_ID (cb_Manifest b)) in
  fail_when is_empty (m_Version (cb_Manifest b)) with "capability has an empty version" ;;
  match cb_Mode b with
  | BindingProvide | BindingReplace =>
    let! _ := validateCapabilityManifest (cb_Manifest b) in
    fail_when MaxCapabilityManifestBytes <? json_len (manifest_to_json (cb_Manifest b)) with "capability manifest exceeds 262144 bytes" ;;
    match cb_Provider b with
    | None => Err "capability has no provider"
    | Some p =>
      fail_when match Tool (cb_Manifest b) with Some _ => negb (is_ToolProvider p) | None => false end
        with "capability is exposed as a tool but its provider does not implement ToolProvider" ;;
      Ok (mk_binding (cb_Scope b) (cb_Mode b) (cloneManifest (cb_Manifest b)) (Some p) (Protected b))
    end
  | BindingDisable => Ok (mk_binding (cb_Scope b) BindingDisable (cloneManifest (cb_Manifest b)) None (Protected b))
  | BindingOther _ => Err "capability has unknown binding mode"
  end.

Definition cap_Mount (b : CapabilityBinding) (r : CapabilityRegistry) : result (CapabilityRegistry * Handle) :=
  let! stored := check_binding b in reg_mount stored r.

(** [Register]: [manifest] is what the capability's own method returns, nothing
    when it panics. *)
Definition cap_Register (scope : ScopePath) (manifest : option CapabilityManifest) (p : Provider) (r : CapabilityRegistry) :
    result (CapabilityRegistry * Handle) :=
  match manifest with
  | None => Err "capability manifest panicked"
  | Some m => cap_Mount (mk_binding scope BindingProvide m (Some p) false) r
  end.

(** [ExecutorProvider.ArtifactRevision] of an executor with that runtime and,
    when it has one, that revision label. *)
Definition ExecutorProvider_ArtifactRevision (runtime : string) (label : option string) : string :=
  let revision := artifactRevisionLabel (Some (mk_provider runtime true label)) in
  if is_empty revision then "executor/" +:+ runtime else revision.

Definition cap_RegisterExecutor (scope : ScopePath) (m : CapabilityManifest) (executor : option (string * option string)) (r : CapabilityRegistry) :
    result (CapabilityRegistry * Handle) :=
  match Execution m with
  | None => Err "capability has no execution spec"
  | Some spec =>
    match executor with
    | None => Err "capability requires runtime"
    | Some (runtime, label) =>
      fail_when negb (bool_decide (runtime = Runtime_ spec)) with "capability requires runtime" ;;
      cap_Mount (mk_binding scope BindingProvide m
                   (Some (mk_provider ("executor/" +:+ runtime) true (Some (ExecutorProvider_ArtifactRevision runtime label)))) false) r
    end
  end.
End Capability.

(** ** Resolution *)

Record resolvedEntry := mk_resolved_entry {
  re_manifest : CapabilityManifest; re_provider : option Provider; re_scope : ScopePath; re_protected : bool; re_order : Z }.

Definition entry_of (b : CapabilityBinding) (order : Z) : resolvedEntry :=
  mk_resolved_entry (cb_Manifest b) (cb_Provider b) (cb_Scope b) (Protected b) order.

(** One binding applied to the effective set. *)
Definition apply_binding (effective : gmap string resolvedEntry) (s : stored CapabilityBinding) : result (gmap string resolvedEntry) :=
  let b := st_val s in
  let id := m_ID (cb_Manifest b) in
  match cb_Mode b with
  | BindingProvide =>
    fail_when bool_decide (is_Some (effective !! id)) with "capability is already provided; use replace explicitly" ;;
    Ok (<[id := entry_of b (st_order s)]> effective)
  | BindingReplace =>
    match effective !! id with
    | None => Err "capability cannot replace a missing capability"
    | Some current =>
      fail_when re_protected current && negb (Equal (re_scope current) (cb_Scope b)) with "capability is protected by scope" ;;
      Ok (<[id := entry_of b (st_order s)]> effective)
    end
  | BindingDisable =>
    match effective !! id with
    | None => Ok effective
    | Some current =>
      fail_when re_protected current && negb (Equal (re_scope current) (cb_Scope b)) with "capability is protected by scope" ;;
      Ok (delete id effective)
    end
  | BindingOther _ => Ok effective
  end.

Definition apply_prefix (r : CapabilityRegistry) (effective : gmap string resolvedEntry) (prefix : ScopePath) : result (gmap string resolvedEntry) :=
  rfold apply_binding effective (reg_sorted r (path_string prefix)).

Definition resolveEntriesLocked (r : CapabilityRegistry) (target : ScopePath) : result (gmap string resolvedEntry) :=
  rfold (apply_prefix r) ∅ (Prefixes target).

(** ** Snapshots *)

Record SnapshotEntry := mk_snapentry { se_Manifest : CapabilityManifest; se_Source : ScopePath; se_Revision : string }.

Record CapabilitySnapshot := mk_snapshot {
  cs_ID : string; cs_CreatedAt : string; cs_Scope : ScopePath; capabilities : list SnapshotEntry;
  providers : gmap string (option Provider); cs_principal : Principal }.

Definition artifactRevision (p : option Provider) : string :=
  let label := artifactRevisionLabel p in if is_empty label then "" else "sha256:" +:+ sha256_hex label.

Definition snapentry_to_json (e : SnapshotEntry) : json :=
  JObj ([("manifest", manifest_to_json (se_Manifest e)); ("source", scope_to_json (se_Source e))]
        ++ omit_if (is_empty (se_Revision e)) "provider_revision" (json_of_str (se_Revision e))).

Definition snapshotDigest (scope : ScopePath) (principal : Principal) (entries : list SnapshotEntry) : result string :=
  let j := JObj [("Scope", scope_to_json scope); ("Subject", json_of_str (SubjectID principal));
                 ("Capabilities", JArr (snapentry_to_json <$> entries))] in
  fail_when MaxCapabilitySnapshotBytes <? json_len j with "capability snapshot exceeds 8388608 bytes" ;;
  Ok (sha256_hex (json_text j)).

(** The entries in the order of [sort.Slice] by capability id (the keys of the
    effective map, which are the ids). *)
Definition snapshot_entries (effective : gmap string resolvedEntry) : list SnapshotEntry :=
  (λ kv, mk_snapentry (cloneManifest (re_manifest (snd kv))) (re_scope (snd kv)) (artifactRevision (re_provider (snd kv)))) <$> sorted_entries effective.

(** [CapabilityResolver.resolve] *)
Definition cap_resolve (clock : string) (r : CapabilityRegistry) (principal : Principal) (target : ScopePath) (filterPermissions : bool) :
    result CapabilitySnapshot :=
  fail_when negb (IsAncestorOf (p_Scope principal) target) with "principal scope does not own target scope" ;;
  let! effective := resolveEntriesLocked r target in
  let kept := if filterPermissions then filter (λ kv, Allows (Grants principal) (RequiredPermissions (re_manifest kv.2)) = true) effective else effective in
  let entries := snapshot_entries kept in
  let! digest := snapshotDigest target principal entries in
  Ok (mk_snapshot digest clock target entries (re_provider <$> kept) (clonePrincipal principal)).

Definition cap_Resolve (clock : string) (r : CapabilityRegistry) (principal : Principal) (target : ScopePath) : result CapabilitySnapshot :=
  cap_resolve clock r principal target true.

(** [Entries]: the catalog view of a target scope. *)
Definition cap_Entries (r : CapabilityRegistry) (target : ScopePath) : result (list SnapshotEntry) :=
  fail_when bool_decide (segments target = []) with "target scope is empty" ;;
  let! effective := resolveEntriesLocked r target in
  Ok ((λ kv, mk_snapentry (publicManifest (re_manifest (snd kv))) (re_scope (snd kv)) (artifactRevision (re_provider (snd kv)))) <$> sorted_entries effective).

(** ** Snapshot queries *)

Definition executable (s : CapabilitySnapshot) (id : string) : bool :=
  match providers s !! id with Some (Some p) => is_ToolProvider p | _ => false end.

Definition Capabilities_ (s : CapabilitySnapshot) : list SnapshotEntry :=
  (λ e, mk_snapentry (publicManifest (se_Manifest e)) (se_Source e) (se_Revision e)) <$> capabilities s.

Record ToolSchema := mk_toolschema { ts_Name : string; ts_Description : string; ts_Parameters : gmap string json }.

Definition Schemas (s : CapabilitySnapshot) : list ToolSchema :=
  omap (λ e, let m := se_Manifest e in
    match Tool m with
    | None => None
    | Some tool =>
      if executable s (m_ID m) then
        let description := if negb (is_empty (te_Description tool)) then te_Description tool
                           else if negb (is_empty (m_Description m)) then m_Description m else m_Name m in
        Some (mk_toolschema (m_ID m) description
                (match cloneMap <$> Parameters tool with Some p => p | None => cloneMap (InputSchema m) end))
      else None
    end) (capabilities s).

Definition Authorized (s : CapabilitySnapshot) (name : string) : bool := executable s name.

Definition MaxCallBudget (s : CapabilitySnapshot) : Z :=
  foldl (λ budget e, let m := se_Manifest e in
    if executable s (m_ID m) && (0 <? PerTurnBudget m) && (PerTurnBudget m <? budget) then PerTurnBudget m else budget) 16 (capabilities s).

Definition manifestInternal (s : CapabilitySnapshot) (id : string) : option CapabilityManifest :=
  cloneManifest <$> (se_Manifest <$> List.find (λ e, bool_decide (m_ID (se_Manifest e) = id)) (capabilities s)).

Definition BudgetFor (s : CapabilitySnapshot) (name : string) : Z :=
  match manifestInternal s name with
  | None => 0
  | Some m => if executable s name then PerTurnBudget m else 0
  end.

Definition ManifestFor (s : CapabilitySnapshot) (id : string) : option CapabilityManifest := publicManifest <$> manifestInternal s id.

(** [Provider]: the provider of a capability that is not a tool. *)
Definition Provider_ (s : CapabilitySnapshot) (name : string) : option (option Provider) :=
  match providers s !! name with
  | None => None
  | Some p => if executable s name then None else Some p
  end.

Definition Select (s : CapabilitySnapshot) (kind contract : string) : list SnapshotEntry :=
  omap (λ e, let m := se_Manifest e in
    if negb (bool_decide (m_Kind m = kind)) then None
    else if negb (is_empty contract) && negb (bool_decide (Contract m = contract)) then None
    else Some (mk_snapentry (publicManifest m) (se_Source e) (se_Revision e))) (capabilities s).

(** ** Filters *)

Definition rebuild (clock : string) (s : CapabilitySnapshot) (entries : list SnapshotEntry) (provs : gmap string (option Provider)) : CapabilitySnapshot :=
  match snapshotDigest (cs_Scope s) (cs_principal s) entries with
  | Ok digest => mk_snapshot digest clock (cs_Scope s) entries provs (clonePrincipal (cs_principal s))
  | Err _ => mk_snapshot "" clock (cs_Scope s) [] ∅ (clonePrincipal (cs_principal s))
  end.

(** The entries that pass a test, and their providers (a missing key reads as
    the nil provider). *)
Definition keep_entries (s : CapabilitySnapshot) (p : CapabilityManifest → bool) : list SnapshotEntry * gmap string (option Provider) :=
  let entries := List.filter (λ e, p (se_Manifest e)) (capabilities s) in
  (entries, list_to_map ((λ e, (m_ID (se_Manifest e), default None (providers s !! m_ID (se_Manifest e)))) <$> entries)).

Definition snap_Filter (clock : string) (s : CapabilitySnapshot) (ids : list string) : result CapabilitySnapshot :=
  let '(entries, provs) := keep_entries s (λ m, bool_decide (m_ID m ∈ ids)) in
  fail_when negb (forallb (λ id, bool_decide (is_Some (provs !! id))) ids) with "agent profile selects unavailable capability" ;;
  Ok (rebuild clock s entries provs).

Definition FilterByPermissions (clock : string) (s : CapabilitySnapshot) (permissions : PermissionSet) : CapabilitySnapshot :=
  let '(entries, provs) := keep_entries s (λ m, Allows permissions (RequiredPermissions m)) in rebuild clock s entries provs.

(** [filter] answers on the public manifest; a panic ([None]) denies. *)
Definition FilterByPredicate (clock : string) (s : CapabilitySnapshot) (filter : option (CapabilityManifest → option bool)) : CapabilitySnapshot :=
  match filter with
  | None => s
  | Some f => let '(entries, provs) := keep_entries s (λ m, default false (f (publicManifest m))) in rebuild clock s entries provs
  end.

(** ** Execution *)

Definition code_metadata (code : string) : gmap string json := {[ "code" := JStr code ]}.

Definition invalidCapabilityOutput (name message : string) : CapabilityResult :=
  mk_result ("capability " +:+ name +:+ " returned invalid output: " +:+ message) false (code_metadata "invalid_capability_output").

Definition cloneCallArgs (args : gmap string json) : result (gmap string json) :=
  fail_when MaxToolArgumentBytes <? json_len (json_of_any_map args) with "tool arguments exceed 1048576 bytes" ;;
  Ok (cloneMap args).

Definition ValidateCapabilityResult (r : CapabilityResult) : result unit :=
  fail_when HardMaxCapabilityOutputBytes <? str_len (r_Content r) with "capability result exceeds hard output limit" ;;
  validateResultMetadata (r_Metadata r).

(** What a provider is asked: the call, the identity it runs under and the
    credentials resolved for it.  (What the guard puts in the Go context - the
    invocation, the remaining budget, the composition revision, the invoker -
    belongs to [Guard].) *)
Record CapabilityRequest := mk_request {
  rq_CallID : string; IdempotencyKey : string; rq_Args : gmap string json; rq_Principal : Principal; rq_Scope : ScopePath;
  rq_CapabilityID : string; rq_SandboxMode : string; rq_Credentials : list (string * string) }.

(** The outcome of running a provider: a result with an optional error of type
    [X], or a panic. *)
Inductive ProviderOutcome (X : Type) := Returned (r : CapabilityResult) (err : option X) | Panicked.
Arguments Returned {X} r err.
Arguments Panicked {X}.

Section Execute.
Context {X : Type}.
Context (regexp_Compile : string → option (string → bool)) (parse_json : string → option json).
Context (resolve_credential : Principal → ScopePath → string → option string).

(** [resolveCallCredentials]: every reference resolves, or the call fails. *)
Fixpoint resolveCallCredentials (principal : Principal) (target : ScopePath) (refs : list string) : option (list (string * string)) :=
  match refs with
  | [] => Some []
  | ref :: refs =>
    match resolve_credential principal target ref, resolveCallCredentials principal target refs with
    | Some v, Some vs => Some ((ref, v) :: vs)
    | _, _ => None
    end
  end.

(** [safeToolProviderExecute] *)
Definition safe_outcome (o : ProviderOutcome X) : CapabilityResult * option X :=
  match o with
  | Returned r err => (r, err)
  | Panicked => (mk_result "capability provider panicked" false (code_metadata "capability_provider_panic"), None)
  end.

(** The checks on what the provider returned. *)
Definition check_output (name : string) (m : CapabilityManifest) (result : CapabilityResult) (err : option X) : CapabilityResult * option X :=
  let outputLimit := if MaxOutputBytes m =? 0 then DefaultMaxCapabilityOutputBytes else MaxOutputBytes m in
  if outputLimit <? str_len (r_Content result) then
    (mk_result ("capability " +:+ name +:+ " output exceeded " +:+ z_text outputLimit +:+ " bytes") false (code_metadata "capability_output_too_large"), None)
  else match validateResultMetadata (r_Metadata result) with
  | Err message => (invalidCapabilityOutput name message, None)
  | Ok _ =>
    if bool_decide (is_Some err) || negb (r_OK result) || bool_decide (OutputSchema m = ∅) then (result, err)
    else match parse_json (r_Content result) with
         | None => (invalidCapabilityOutput name "result is not valid JSON", None)
         | Some output =>
           match ValidateJSONValue regexp_Compile (OutputSchema m) (any_of_json output) with
           | Err message => (invalidCapabilityOutput name message, None)
           | Ok _ => (result, None)
           end
         end
  end.

(** [executeProtected], up to the provider: the refusal, or the request and the
    checks its outcome must pass. *)
Definition prepare_execution (s : CapabilitySnapshot) (call : ToolCall) : CapabilityResult + (Provider * CapabilityManifest * CapabilityRequest) :=
  match validateToolCall call with
  | Err e => inl (mk_result e false (code_metadata "invalid_tool_call"))
  | Ok _ =>
    match providers s !! tc_Name call with
    | None => inl (mk_result "capability is not available in this run" false ∅)
    | Some None => inl (mk_result "capability is not executable as a tool" false ∅)
    | Some (Some p) =>
      if negb (is_ToolProvider p) then inl (mk_result "capability is not executable as a tool" false ∅)
      else match manifestInternal s (tc_Name call) with
      | None => inl (mk_result "capability manifest is missing" false ∅)
      | Some m =>
        match resolveCallCredentials (cs_principal s) (cs_Scope s) (RequiredCredentials m) with
        | None => inl (mk_result "required credential is unavailable" false (code_metadata "credential_unavailable"))
        | Some credentials =>
          match cloneCallArgs (tc_Args call) with
          | Err e => inl (mk_result e false (code_metadata "invalid_tool_args"))
          | Ok args =>
            inr (p, m, mk_request (tc_ID call) (if Idempotent m then tc_ID call else "") args (clonePrincipal (cs_principal s)) (cs_Scope s)
                         (tc_Name call) (match Execution m with Some e => SandboxMode e | None => SandboxReadOnly end) credentials)
          end
        end
      end
    end
  end.

Definition executeProtected (run : Provider → CapabilityRequest → ProviderOutcome X) (s : CapabilitySnapshot) (call : ToolCall) : CapabilityResult * option X :=
  match prepare_execution s call with
  | inl refusal => (refusal, None)
  | inr (p, m, request) => let '(result, err) := safe_outcome (run p request) in check_output (tc_Name call) m result err
  end.
End Execute.
