(* ===== verification/ModelCall.v ===== *)
(** * Model calls: [src/pkg/core/llm.go], [src/pkg/core/model_gate.go] and
      [src/pkg/core/model_context.go]

    The vocabulary of a model call, the identity a gate authorises, the checks
    around the context assembler, and the stream protocol: an adapter emits
    chunks, [consumeModelStream] validates their order and content and returns
    one normalised result.

    An adapter is what it emits and the error it returns; it is told about a
    protocol violation only through the cancelled context, so what it emits is
    taken as a whole.  Errors have a type [X] with [fail] for the kernel's own. *)
From S2P Require Import Prelude Prog GoString Json Scope Principal GoTime Policy Payload Events Message Session Capability.
From stdpp Require Import gmap strings list.
From Stdlib Require Import ZArith Lia Ascii.
Open Scope Z_scope.

(** ** The model gate *)

Definition MaxModelCallPrincipalMapItems : Z := 64.

Record ModelCallBudget := mk_budget { MaxInputTokens : Z; mb_MaxOutputTokens : Z }.

#[export] Instance ModelCallBudget_eq_dec : EqDecision ModelCallBudget.
Proof. solve_decision. Defined.

Record ModelCallRequest := mk_model_request {
  mq_Principal : Principal; mq_Scope : ScopePath; mq_SessionID : string; mq_RunID : string; mq_Step : Z;
  mq_Provider : string; mq_Model : string; mq_Deadline : string; mq_Budget : ModelCallBudget }.

(** [unicode.IsControl]: the two control blocks. *)
Definition containsUnicodeControl (value : string) : bool :=
  existsb (λ r, (r <? 0x20)%N || ((0x7f <=? r) && (r <? 0xa0))%N) (runes value).

Definition invalidModelCallClaimKey (value : string) : bool :=
  blank value || (MaxRunCompositionMetadataKeyBytes <? str_len value) || negb (valid_utf8 value) || containsUnicodeControl value.

(** The loops range over Go maps; only whether some entry fails is kept. *)
Definition validateModelCallPrincipalClaims (p : Principal) : result unit :=
  fail_when MaxModelCallPrincipalMapItems <? Z.of_nat (size (Grants p)) with "model call principal grants exceed 64 items" ;;
  fail_when MaxModelCallPrincipalMapItems <? Z.of_nat (size (Attributes p)) with "model call principal attributes exceed 64 items" ;;
  let! _ := check_all (λ kv, fail_when invalidModelCallClaimKey kv.1
                               with "model call principal grant is empty, too long, or contains control characters" ;; Ok tt) (sorted_entries (Grants p)) in
  let! _ := check_all (λ kv, fail_when invalidModelCallClaimKey kv.1
                               with "model call principal attribute key is empty, too long, or contains control characters" ;;
                             fail_when (MaxRunCompositionMetadataValueBytes <? str_len kv.2) || negb (valid_utf8 kv.2) || containsUnicodeControl kv.2
                               with "model call principal attribute value is too long or contains control characters" ;; Ok tt)
                      (sorted_entries (Attributes p)) in
  fail_when MaxRunCompositionMetadataBytes <? json_len (JObj (("grants", json_of_perms (Grants p)) ::
              omit_if (bool_decide (Attributes p = ∅)) "attributes" (json_of_str_map (Attributes p))))
    with "model call principal claims exceed 16384 bytes" ;; Ok tt.

Definition label_ok (limit : Z) (value : string) : bool := negb (blank value || (limit <? str_len value) || contains_crlf_nul value).

Definition request_Validate (q : ModelCallRequest) : result unit :=
  fail_when bool_decide (segments (mq_Scope q) = []) with "model call scope is empty" ;;
  let! _ := ValidateSessionID (mq_SessionID q) in
  let! _ := ValidateRunID (mq_RunID q) in
  fail_when (mq_Step q <? 0) || (HardMaxSteps <? mq_Step q) with "model call step must be between 0 and 128" ;;
  fail_when negb (label_ok 256 (mq_Provider q)) || negb (label_ok 256 (mq_Model q))
    with "model call provider or model is empty, too long, or contains control characters" ;;
  fail_when (MaxInputTokens (mq_Budget q) <? 0) || (mb_MaxOutputTokens (mq_Budget q) <? 0) with "model call budget cannot be negative" ;;
  fail_when negb (label_ok 512 (TenantID (mq_Principal q))) || negb (label_ok 512 (SubjectID (mq_Principal q)))
    with "model call principal identity is empty, too long, or contains control characters" ;;
  let! _ := validateModelCallPrincipalClaims (mq_Principal q) in
  fail_when negb (IsAncestorOf (p_Scope (mq_Principal q)) (mq_Scope q)) with "model call scope is outside principal scope" ;; Ok tt.

Definition cloneModelCallRequest (q : ModelCallRequest) : ModelCallRequest :=
  mk_model_request (clonePrincipal (mq_Principal q)) (mq_Scope q) (mq_SessionID q) (mq_RunID q) (mq_Step q)
    (mq_Provider q) (mq_Model q) (mq_Deadline q) (mq_Budget q).

Definition sameModelCallRequest (l r : ModelCallRequest) : bool :=
  bool_decide (mq_SessionID l = mq_SessionID r) && bool_decide (mq_RunID l = mq_RunID r) && (mq_Step l =? mq_Step r)
  && bool_decide (mq_Provider l = mq_Provider r) && bool_decide (mq_Model l = mq_Model r) && Equal (mq_Scope l) (mq_Scope r)
  && samePrincipal (mq_Principal l) (mq_Principal r) && bool_decide (mq_Deadline l = mq_Deadline r) && bool_decide (mq_Budget l = mq_Budget r).

(** ** Generation *)

(** [AcceptedCall] holds the authorised request, or nothing for the unsealed
    zero value. *)
Record GenerateOptions := mk_generate {
  go_Provider : string; go_Model : string; go_System : string; go_Messages : list ChatMessage; go_Tools : list ToolSchema;
  ModelCall : ModelCallRequest; AcceptedCall : option ModelCallRequest }.

Definition mintAcceptedModelCall (q : ModelCallRequest) : option ModelCallRequest := Some (cloneModelCallRequest q).

Definition RequireAcceptedModelCall (o : GenerateOptions) : result unit :=
  match AcceptedCall o with
  | None => Err "accepted model call is required"
  | Some accepted =>
    fail_when negb (is_ok (request_Validate (ModelCall o))) with "accepted model call is required: expected request is invalid" ;;
    fail_when negb (bool_decide (go_Provider o = mq_Provider (ModelCall o))) || negb (bool_decide (go_Model o = mq_Model (ModelCall o)))
      with "accepted model call is required: adapter binding mismatch" ;;
    fail_when negb (sameModelCallRequest accepted (ModelCall o)) with "accepted model call is required: model call identity mismatch" ;;
    Ok tt
  end.

(** ** The context assembler *)

Definition conservativeContextWindowTokens : Z := 32768.
Definition conservativeMaxOutputTokens : Z := 4096.

(** [mc_Messages] distinguishes nil. *)
Record ModelContext := mk_model_context {
  mc_System : string; mc_Messages : option (list ChatMessage); mc_Tools : list ToolSchema; ContextWindowTokens : Z; MaxOutputTokens : Z;
  InputBytes : Z; mc_InputTokens : Z; DroppedGroups : Z }.

(** What the adapter reports, when it reports limits. *)
Definition modelContextLimits (reported : option (Z * Z)) : Z * Z :=
  match reported with
  | Some (window, output) =>
    if (0 <? window) && (0 <? output) && (output <? window) then (window, output) else (conservativeContextWindowTokens, conservativeMaxOutputTokens)
  | None => (conservativeContextWindowTokens, conservativeMaxOutputTokens)
  end.

Definition cloneToolSchemas (l : list ToolSchema) : list ToolSchema :=
  (λ t, mk_toolschema (ts_Name t) (ts_Description t) (cloneMap (ts_Parameters t))) <$> l.

(** The checks on what the assembler returned. *)
Definition assembled_ok (request r : ModelContext) : bool :=
  negb (negb (bool_decide (mc_System r = mc_System request)) || negb (ContextWindowTokens r =? ContextWindowTokens request)
        || negb (MaxOutputTokens r =? MaxOutputTokens request) || bool_decide (mc_Messages r = None)
        || (InputBytes r <? 0) || (MaxSessionEventDataBytes <? InputBytes r)
        || (mc_InputTokens r <? 0) || (MaxSessionEventDataBytes <? mc_InputTokens r)
        || (DroppedGroups r <? 0) || (Z.of_nat (length (default [] (mc_Messages request))) <? DroppedGroups r)).

Definition request_limits_ok (request : ModelContext) : bool :=
  negb ((ContextWindowTokens request <=? 0) || (MaxOutputTokens request <=? 0) || (ContextWindowTokens request <=? MaxOutputTokens request)
        || (MaxSessionEventDataBytes <? str_len (mc_System request))).

(** ** The stream protocol *)

Definition StreamKindAssistant := "assistant".
Definition StreamKindFinish := "finish".
Definition FinishStop := "stop".
Definition FinishToolCalls := "tool-calls".

Definition maxModelTextBytes : Z := 8 * 2 ^ 20.
Definition maxModelToolCalls : Z := 128.

Record StreamChunk := mk_stream_chunk {
  ch_Kind : string; ch_Text : string; ch_ToolCall : option ToolCall; ch_ToolCalls : list ToolCall; ch_Usage : option TokenUsage; ch_FinishKind : string }.

Record modelStreamResult := mk_stream {
  usageReported : bool; sm_Text : string; sm_ToolCalls : list ToolCall; sm_Usage : TokenUsage; sm_FinishKind : string }.

Definition containsCall (calls : list ToolCall) (call : ToolCall) : bool :=
  existsb (λ existing, bool_decide (tc_ID existing = tc_ID call) && bool_decide (tc_Name existing = tc_Name call)) calls.

Section Stream.
Context {X : Type} (fail : string → X).

(** The variables of the closure [emit]; [ss_usage] is set once usage has been
    reported. *)
Record streamState := mk_stream_state {
  ss_text : string; ss_calls : list ToolCall; ss_finished : option string; ss_usage : option TokenUsage; ss_err : option X }.

Definition stream_start : streamState := mk_stream_state "" [] None None None.
Definition set_err (e : X) (st : streamState) : streamState := mk_stream_state (ss_text st) (ss_calls st) (ss_finished st) (ss_usage st) (Some e).

(** [appendStreamCalls]: stops at the limit. *)
Fixpoint appendStreamCalls (st : streamState) (items : list ToolCall) : streamState :=
  match items with
  | [] => st
  | call :: items =>
    if containsCall (ss_calls st) call then appendStreamCalls st items
    else if maxModelToolCalls <=? Z.of_nat (length (ss_calls st)) then set_err (fail "model stream exceeded the 128 tool-call limit") st
    else appendStreamCalls (mk_stream_state (ss_text st) (ss_calls st ++ [call]) (ss_finished st) (ss_usage st) (ss_err st)) items
  end.

(** The usage report of a chunk; [None] when it is refused. *)
Definition report_usage (st : streamState) (chunk : StreamChunk) : streamState * bool :=
  match ch_Usage chunk with
  | None => (st, true)
  | Some u =>
    if bool_decide (is_Some (ss_usage st)) then (set_err (fail "model stream reported usage more than once") st, false)
    else if (tu_Input u <? 0) || (tu_Output u <? 0) then (set_err (fail "model stream reported negative token usage") st, false)
    else if (MaxReportedTokensPerCall <? tu_Input u) || (MaxReportedTokensPerCall <? tu_Output u)
    then (set_err (fail "model stream token usage exceeds the per-call limit") st, false)
    else (mk_stream_state (ss_text st) (ss_calls st) (ss_finished st) (Some u) (ss_err st), true)
  end.

Section Consume.
Context {E : Type → Type} {S : Type} (onAssistant : S → StreamChunk → prog E (option X * S)).

(** [emit] *)
Definition emit (st : streamState) (s : S) (chunk : StreamChunk) : prog E (streamState * S) :=
  match ss_err st with
  | Some _ => Ret (st, s)
  | None =>
    if bool_decide (is_Some (ss_finished st)) then Ret (set_err (fail "model stream emitted a chunk after finish") st, s)
    else
      let '(st, ok) := report_usage st chunk in
      if negb ok then Ret (st, s)
      else if bool_decide (ch_Kind chunk = StreamKindAssistant) then
        if negb (is_empty (ch_FinishKind chunk)) then Ret (set_err (fail "assistant chunk carries finish kind") st, s)
        else if maxModelTextBytes <? str_len (ss_text st) + str_len (ch_Text chunk) then Ret (set_err (fail "model stream exceeded the text limit") st, s)
        else
          let st := match ch_ToolCall chunk with Some c => appendStreamCalls st [c] | None => st end in
          let st := appendStreamCalls st (ch_ToolCalls chunk) in
          let* (callbackErr, s) := onAssistant s chunk in
          match callbackErr with
          | Some e => Ret (set_err e st, s)
          | None => Ret (mk_stream_state (ss_text st +:+ ch_Text chunk) (ss_calls st) (ss_finished st) (ss_usage st) (ss_err st), s)
          end
      else if bool_decide (ch_Kind chunk = StreamKindFinish) then
        if negb (is_empty (ch_Text chunk)) || bool_decide (is_Some (ch_ToolCall chunk)) || negb (bool_decide (ch_ToolCalls chunk = []))
        then Ret (set_err (fail "finish chunk carries assistant content") st, s)
        else if bool_decide (ch_FinishKind chunk = FinishStop) || bool_decide (ch_FinishKind chunk = FinishToolCalls)
        then Ret (mk_stream_state (ss_text st) (ss_calls st) (Some (ch_FinishKind chunk)) (ss_usage st) (ss_err st), s)
        else Ret (set_err (fail "model stream has invalid finish kind") st, s)
      else Ret (set_err (fail "model stream has unknown chunk kind") st, s)
  end.

Fixpoint emit_chunks (st : streamState) (s : S) (chunks : list StreamChunk) : prog E (streamState * S) :=
  match chunks with
  | [] => Ret (st, s)
  | chunk :: chunks => let* (st, s) := emit st s chunk in emit_chunks st s chunks
  end.

Fixpoint check_calls (seen : gset string) (calls : list ToolCall) : option X :=
  match calls with
  | [] => None
  | call :: calls =>
    match validateToolCall call with
    | Err e => Some (fail e)
    | Ok _ => if bool_decide (tc_ID call ∈ seen) then Some (fail "model stream returned duplicate tool call id")
              else check_calls ({[tc_ID call]} ∪ seen) calls
    end
  end.

(** What is returned beside an error: the usage and the finish kind, without
    text or calls. *)
Definition partial_result (st : streamState) : modelStreamResult :=
  mk_stream (bool_decide (is_Some (ss_usage st))) "" [] (default (mk_tokens 0 0) (ss_usage st)) (default "" (ss_finished st)).

(** The verdict once the stream has ended and the context is live. *)
Definition stream_verdict (st : streamState) : modelStreamResult * option X :=
  let r := partial_result st in
  match ss_finished st with
  | None => (r, Some (fail "model stream ended without a finish chunk"))
  | Some kind =>
    match check_calls ∅ (ss_calls st) with
    | Some e => (r, Some e)
    | None =>
      if bool_decide (kind = FinishToolCalls) && bool_decide (ss_calls st = []) then (r, Some (fail "model stream finished with tool-calls but returned no calls"))
      else if bool_decide (kind = FinishStop) && negb (bool_decide (ss_calls st = [])) then (r, Some (fail "model stream finished with stop while returning tool calls"))
      else if is_empty (ss_text st) && bool_decide (ss_calls st = []) then (r, Some (fail "model stream returned neither text nor tool calls"))
      else (mk_stream (usageReported r) (ss_text st) (ss_calls st) (sm_Usage r) kind, None)
    end
  end.

Definition consumeModelStream (stream : prog E (list StreamChunk * option X)) (ctxErr : prog E (option X)) (s : S) :
    prog E (modelStreamResult * option X * S) :=
  let* (chunks, streamErr) := stream in
  let* (st, s) := emit_chunks stream_start s chunks in
  match streamErr, ss_err st with
  | Some e, _ => Ret ((partial_result st, Some e), s)
  | None, Some e => Ret ((partial_result st, Some e), s)
  | None, None =>
    let* cancelled := ctxErr in
    match cancelled with
    | Some e => Ret ((partial_result st, Some e), s)
    | None => Ret (stream_verdict st, s)
    end
  end.
End Consume.
End Stream.
