(* ===== verification/Journal.v ===== *)
(** * The tool invocation journal: [src/pkg/core/tool_journal.go] and
      [src/pkg/storage/tool_journal.go]

    Before a guarded provider runs, its call is recorded under the key
    (session, run, call); the journal decides whether the caller may execute,
    must replay the recorded result, or must fail closed.

    The kernel sees the interface [ToolInvocationJournal]; the SQL journal
    implements it on one table.  Each SQL statement, and the transaction of
    [CompleteToolInvocation], is one atomic effect on the table that may also
    fail, before or after it took place ([sql_step]).  Retention, which deletes
    completed rows of old runs, is not part of the interface. *)
From S2P Require Import Prelude Prog GoString Json Scope Principal Sha256 Payload Events Message Session Capability.
From stdpp Require Import gmap strings list sorting.
From Stdlib Require Import ZArith Lia Ascii.
Open Scope Z_scope.

(** ** Identities *)

Record RunInfo := mk_info { in_RunID : string; in_SessionID : string; in_ProfileID : string; in_Step : Z; in_Principal : Principal }.

Record ToolInvocation := mk_invocation {
  ti_TenantID : string; ti_SubjectID : string; ti_SessionID : string; ti_RunID : string; ti_CallID : string;
  ti_CapabilityID : string; ArgsDigest : string; ti_Idempotent : bool }.

#[export] Instance ToolInvocation_eq_dec : EqDecision ToolInvocation.
Proof. solve_decision. Defined.

Inductive ToolInvocationState := ToolInvocationStarted | ToolInvocationCompleted | ToolInvocationUncertain | ToolInvocationOther (s : string).
Inductive ToolInvocationDecision :=
| ToolInvocationExecuteNew | ToolInvocationExecuteRetry | ToolInvocationReplay | ToolInvocationUnknown | ToolInvocationConflict
| ToolInvocationDecisionOther (s : string).

#[export] Instance ToolInvocationState_eq_dec : EqDecision ToolInvocationState.
Proof. solve_decision. Defined.

Record ToolInvocationRecord := mk_record {
  rec_inv : ToolInvocation; rec_State : ToolInvocationState; rec_Result : option CapabilityResult; rec_ErrorCode : string;
  rec_StartedAt : Z; rec_UpdatedAt : Z; rec_CompletedAt : Z }.

Definition identity_ok (value : string) : bool := negb (blank value || (512 <? str_len value) || contains_crlf_nul value).

Definition ValidateToolInvocation (i : ToolInvocation) : result unit :=
  let! _ := ValidateSessionID (ti_SessionID i) in
  let! _ := ValidateRunID (ti_RunID i) in
  let! _ := validateToolCallID (ti_CallID i) in
  let! _ := validateCapabilityID (ti_CapabilityID i) in
  fail_when negb (identity_ok (ti_TenantID i)) || negb (identity_ok (ti_SubjectID i))
    with "tool invocation identity is empty, too long, or contains control characters" ;;
  fail_when negb (str_len (ArgsDigest i) =? 64) with "tool invocation args digest is not SHA-256" ;;
  fail_when negb (hex_decodable (ArgsDigest i)) with "tool invocation args digest is invalid" ;; Ok tt.

(** A nil argument map is digested as the empty one. *)
Definition NewToolInvocation (info : RunInfo) (call : ToolCall) (idempotent : bool) : result ToolInvocation :=
  let i := mk_invocation (TenantID (in_Principal info)) (SubjectID (in_Principal info)) (in_SessionID info) (in_RunID info)
             (tc_ID call) (tc_Name call) (sha256_hex (json_text (json_of_any_map (tc_Args call)))) idempotent in
  let! _ := ValidateToolInvocation i in Ok i.

Definition CloneToolInvocationRecord (r : ToolInvocationRecord) : ToolInvocationRecord :=
  mk_record (rec_inv r) (rec_State r) (cloneCapabilityResult <$> rec_Result r) (rec_ErrorCode r) (rec_StartedAt r) (rec_UpdatedAt r) (rec_CompletedAt r).

(** The key of the durable record. *)
Definition journal_key (i : ToolInvocation) : string * string * string := (ti_SessionID i, ti_RunID i, ti_CallID i).

(** ** The interface *)

(** [J] is what the implementation asks of its store. *)
Class ToolInvocationJournal (J : Type → Type) := {
  BeginToolInvocation : ToolInvocation → prog J (result (ToolInvocationRecord * ToolInvocationDecision));
  CompleteToolInvocation : ToolInvocation → CapabilityResult → prog J (result ToolInvocationRecord);
  MarkToolInvocationUncertain : ToolInvocation → string → prog J (result unit) }.

(** ** The SQL table *)

(** [row_result] is the [result_json] column: nothing for the empty text. *)
Record toolRow := mk_row {
  row_inv : ToolInvocation; row_state : ToolInvocationState; row_result : option json; row_error : string;
  row_started : Z; row_updated : Z; row_completed : Z }.

Notation toolTable := (gmap (string * string * string) toolRow).

Definition MaxToolInvocations : Z := 8192.

Definition result_to_json (r : CapabilityResult) : json :=
  JObj ([("content", json_of_str (r_Content r)); ("ok", JBool (r_OK r))]
        ++ omit_if (bool_decide (r_Metadata r = ∅)) "metadata" (json_of_any_map (r_Metadata r))).
Definition result_fields : fields CapabilityResult :=
  [field "content" dec_str r_Content (λ x t, mk_result x (r_OK t) (r_Metadata t));
   field "ok" dec_bool r_OK (λ x t, mk_result (r_Content t) x (r_Metadata t));
   field "metadata" dec_any_map r_Metadata (λ x t, mk_result (r_Content t) (r_OK t) x)].

(** The result column decoded and validated. *)
Definition scan_result (j : json) : result CapabilityResult :=
  match j with
  | JNull => Err "decode tool invocation result: null is not a capability result"
  | _ =>
    match dec_struct result_fields j (mk_result "" false ∅) with
    | None => Err "decode tool invocation result"
    | Some r => let! _ := ValidateCapabilityResult r in Ok r
    end
  end.

Definition scanToolInvocation (r : toolRow) : result ToolInvocationRecord :=
  let! _ := ValidateToolInvocation (row_inv r) in
  fail_when (row_started r <=? 0) || (row_updated r <=? 0) with "tool invocation has invalid timestamps" ;;
  let! _ := match row_state r with
            | ToolInvocationStarted | ToolInvocationUncertain =>
              fail_when bool_decide (is_Some (row_result r)) || negb (row_completed r =? 0) with "non-completed tool invocation has a durable result" ;; Ok tt
            | ToolInvocationCompleted =>
              fail_when negb (bool_decide (is_Some (row_result r))) || (row_completed r <=? 0) with "completed tool invocation has no durable result" ;; Ok tt
            | ToolInvocationOther _ => Err "unknown tool invocation state"
            end in
  let! decoded := match row_result r with None => Ok None | Some j => let! x := scan_result j in Ok (Some x) end in
  Ok (CloneToolInvocationRecord (mk_record (row_inv r) (row_state r) decoded (row_error r) (row_started r) (row_updated r) (row_completed r))).

Definition sameToolInvocation (left right : ToolInvocation) : bool :=
  bool_decide (ti_TenantID left = ti_TenantID right) && bool_decide (ti_SubjectID left = ti_SubjectID right)
  && bool_decide (ti_SessionID left = ti_SessionID right) && bool_decide (ti_RunID left = ti_RunID right)
  && bool_decide (ti_CallID left = ti_CallID right) && bool_decide (ti_CapabilityID left = ti_CapabilityID right)
  && bool_decide (ArgsDigest left = ArgsDigest right) && bool_decide (ti_Idempotent left = ti_Idempotent right).

(** ** Statements *)

(** [INSERT ... VALUES (..., 'started', '', '', now, now, 0)]: refused by the
    primary key when the row exists. *)
Definition insert_row (i : ToolInvocation) (now : Z) (t : toolTable) : bool * toolTable :=
  match t !! journal_key i with
  | Some _ => (false, t)
  | None => (true, <[journal_key i := mk_row i ToolInvocationStarted None "" now now 0]> t)
  end.

(** [UPDATE ... SET state = 'completed' ... WHERE key and identity AND state IN
    ('started', 'uncertain')] *)
Definition complete_row (i : ToolInvocation) (encoded : json) (now : Z) (t : toolTable) : toolTable :=
  match t !! journal_key i with
  | Some r =>
    if sameToolInvocation (row_inv r) i && (bool_decide (row_state r = ToolInvocationStarted) || bool_decide (row_state r = ToolInvocationUncertain))
    then <[journal_key i := mk_row (row_inv r) ToolInvocationCompleted (Some encoded) "" (row_started r) now now]> t else t
  | None => t
  end.

(** [UPDATE ... SET state = 'uncertain' ... AND state <> 'completed']: the rows
    affected. *)
Definition uncertain_row (i : ToolInvocation) (code : string) (now : Z) (t : toolTable) : Z * toolTable :=
  match t !! journal_key i with
  | Some r =>
    if sameToolInvocation (row_inv r) i && negb (bool_decide (row_state r = ToolInvocationCompleted))
    then (1, <[journal_key i := mk_row (row_inv r) ToolInvocationUncertain (row_result r) code (row_started r) now (row_completed r)]> t) else (0, t)
  | None => (0, t)
  end.

(** The transaction of [CompleteToolInvocation], rolled back when a check
    fails. *)
Definition complete_tx (i : ToolInvocation) (encoded : json) (now : Z) (t : toolTable) : result ToolInvocationRecord * toolTable :=
  let t' := complete_row i encoded now t in
  let checked :=
    match t' !! journal_key i with
    | None => Err "tool invocation not found"
    | Some r =>
      let! record := scanToolInvocation r in
      fail_when negb (sameToolInvocation (rec_inv record) i) with "tool invocation identity conflicts with the durable journal" ;;
      fail_when negb (bool_decide (rec_State record = ToolInvocationCompleted)) || negb (bool_decide (is_Some (rec_Result record)))
        with "tool invocation did not reach completed state" ;;
      Ok record
    end in
  (checked, if is_ok checked then t' else t).

(** The statements the journal issues; each answers an error when it fails. *)
Inductive sqlE : Type → Type :=
| Now : sqlE Z
| SCount : sqlE (result Z)
| SInsert (i : ToolInvocation) (now : Z) : sqlE (result bool)
| SSelect (key : string * string * string) : sqlE (result (option toolRow))
| SSelectExact (i : ToolInvocation) : sqlE (result (option toolRow))
| SComplete (i : ToolInvocation) (encoded : json) (now : Z) : sqlE (result ToolInvocationRecord)
| SUncertain (i : ToolInvocation) (code : string) (now : Z) : sqlE (result Z).

(** What a statement does when it succeeds ([clock] answers [Now]). *)
Definition sql_exec (clock : Z) {B} (e : sqlE B) : toolTable → B * toolTable :=
  match e in sqlE B return toolTable → B * toolTable with
  | Now => λ t, (clock, t)
  | SCount => λ t, (Ok (Z.of_nat (size t)), t)
  | SInsert i now => λ t, let '(b, t') := insert_row i now t in (Ok b, t')
  | SSelect key => λ t, (Ok (t !! key), t)
  | SSelectExact i => λ t, (Ok (match t !! journal_key i with
                                 | Some r => if sameToolInvocation (row_inv r) i then Some r else None
                                 | None => None end), t)
  | SComplete i encoded now => λ t, complete_tx i encoded now t
  | SUncertain i code now => λ t, let '(n, t') := uncertain_row i code now t in (Ok n, t')
  end.

(** The error a statement may answer instead (the clock cannot fail). *)
Definition sql_error (msg : string) {B} (e : sqlE B) : option B :=
  match e in sqlE B return option B with
  | Now => None
  | SCount => Some (Err msg) | SInsert _ _ => Some (Err msg) | SSelect _ => Some (Err msg) | SSelectExact _ => Some (Err msg)
  | SComplete _ _ _ => Some (Err msg) | SUncertain _ _ _ => Some (Err msg)
  end.

(** One statement against the table: it succeeds, or it fails having taken
    place or not. *)
Definition sql_step {B} (e : sqlE B) (t : toolTable) (b : B) (t' : toolTable) : Prop :=
  (∃ clock, sql_exec clock e t = (b, t'))
  ∨ ∃ msg, sql_error msg e = Some b ∧ (t' = t ∨ ∃ clock b', sql_exec clock e t = (b', t')).

(** ** The SQL journal *)

Definition invocationCap (maxInvocations : Z) : Z := if 0 <? maxInvocations then maxInvocations else MaxToolInvocations.

Definition existingToolInvocationDecision (record : ToolInvocationRecord) (i : ToolInvocation) :
    result (ToolInvocationRecord * ToolInvocationDecision) :=
  if negb (sameToolInvocation (rec_inv record) i) then Ok (record, ToolInvocationConflict)
  else match rec_State record with
  | ToolInvocationCompleted =>
    match rec_Result record with
    | None => Err "completed tool invocation has no result"
    | Some _ => Ok (record, ToolInvocationReplay)
    end
  | ToolInvocationStarted | ToolInvocationUncertain =>
    if ti_Idempotent i then Ok (record, ToolInvocationExecuteRetry) else Ok (record, ToolInvocationUnknown)
  | ToolInvocationOther _ => Err "unknown tool invocation state"
  end.

Definition errToolInvocationNotFound := "tool invocation not found".

(** [getToolInvocation] *)
Definition getToolInvocation (key : string * string * string) : prog sqlE (result ToolInvocationRecord) :=
  let* row := ask (SSelect key) in
  Ret (match row with
       | Err e => Err e
       | Ok None => Err errToolInvocationNotFound
       | Ok (Some r) => scanToolInvocation r
       end).

Definition sql_Begin (maxInvocations : Z) (i : ToolInvocation) : prog sqlE (result (ToolInvocationRecord * ToolInvocationDecision)) :=
  match ValidateToolInvocation i with
  | Err e => Ret (Err e)
  | Ok _ =>
    let* stored := ask SCount in
    match stored with
    | Err e => Ret (Err e)
    | Ok stored =>
      if invocationCap maxInvocations <=? stored then
        let* record := getToolInvocation (journal_key i) in
        Ret (match record with
             | Ok record => existingToolInvocationDecision record i
             | Err e => if bool_decide (e = errToolInvocationNotFound) then Err "tool invocations exceed maximum" else Err e
             end)
      else
        let* now := ask Now in
        let* inserted := ask (SInsert i now) in
        match inserted with
        | Err e => Ret (Err e)
        | Ok true => Ret (Ok (mk_record i ToolInvocationStarted None "" now now 0, ToolInvocationExecuteNew))
        | Ok false =>
          let* record := getToolInvocation (journal_key i) in
          Ret (let! record := record in existingToolInvocationDecision record i)
        end
    end
  end.

Definition sql_Complete (i : ToolInvocation) (r : CapabilityResult) : prog sqlE (result ToolInvocationRecord) :=
  match ValidateToolInvocation i with
  | Err e => Ret (Err e)
  | Ok _ =>
    match ValidateCapabilityResult r with
    | Err e => Ret (Err e)
    | Ok _ =>
      let* now := ask Now in
      let* record := ask (SComplete i (result_to_json r) now) in
      Ret (let! record := record in Ok (CloneToolInvocationRecord record))
    end
  end.

Definition sql_MarkUncertain (i : ToolInvocation) (errorCode : string) : prog sqlE (result unit) :=
  match ValidateToolInvocation i with
  | Err e => Ret (Err e)
  | Ok _ =>
    let errorCode := of_bytes (take 128 (bytes errorCode)) in
    let* now := ask Now in
    let* affected := ask (SUncertain i errorCode now) in
    match affected with
    | Err e => Ret (Err e)
    | Ok n =>
      if 0 <? n then Ret (Ok tt)
      else
        let* record := getToolInvocation (journal_key i) in
        Ret (let! record := record in
             fail_when negb (sameToolInvocation (rec_inv record) i) with "tool invocation identity conflicts with the durable journal" ;;
             fail_when negb (bool_decide (rec_State record = ToolInvocationCompleted)) with "tool invocation could not be marked uncertain" ;;
             Ok tt)
    end
  end.

(** [GetToolInvocation]: an exact read; a missing or different identity is not
    found. *)
Definition sql_Get (i : ToolInvocation) : prog sqlE (result (option ToolInvocationRecord)) :=
  match ValidateToolInvocation i with
  | Err e => Ret (Err e)
  | Ok _ =>
    let* row := ask (SSelectExact i) in
    Ret (match row with
         | Err e => Err e
         | Ok None => Ok None
         | Ok (Some r) => let! record := scanToolInvocation r in Ok (Some (CloneToolInvocationRecord record))
         end)
  end.

Definition SQLToolInvocationJournal (maxInvocations : Z) : ToolInvocationJournal sqlE := {|
  BeginToolInvocation := sql_Begin maxInvocations;
  CompleteToolInvocation := sql_Complete;
  MarkToolInvocationUncertain := sql_MarkUncertain |}.
