(* ===== verification/Guard.v ===== *)
(** * The guard funnel: [src/pkg/core/agent_tool_guard.go],
      [src/pkg/core/agent_guard_support.go] and the approval types of
      [src/pkg/core/hooks.go]

    Every tool call of a run goes through [Execute]: argument validation, the
    host's hook, budgets, the rate limit, approval and the journal, in that
    order, before the provider sees it.  The runtime guarded is the capability
    snapshot of the run.

    What the host supplies (hooks, limiter, approver, clock, event consumer, the
    journal's store, the providers) is reached through the effects [agentE];
    answers already account for the recovery wrappers ([safeCall...]: a panic is
    an error, a refusal or nothing).  A provider is itself a tree of nested tool
    invocations that ends in an outcome, so composite capabilities are covered. *)
From S2P Require Import Prelude Prog GoString Json Schema Scope Principal Policy Payload Events Message Session Capability ModelCall Journal.
From stdpp Require Import gmap strings list sorting.
From Stdlib Require Import ZArith Lia.
Open Scope Z_scope.

(** ** Approval *)

Record ApprovalResolution := mk_resolution {
  rs_ApprovalID : string; rs_Decision : string; rs_RequestedAt : string; rs_ExpiresAt : string; rs_DecidedAt : string; rs_DecidedBy : string }.
Record ApprovalRequest := mk_approval {
  aq_RunID : string; aq_SessionID : string; aq_Principal : Principal; aq_ToolCall : ToolCall; aq_Manifest : CapabilityManifest }.


(** ** Errors *)

(** Go errors as far as the kernel distinguishes them: a durable approval
    suspension, a cancelled or expired context, and any other failure with its
    [Retryable] answer. *)
Inductive go_error :=
| ApprovalPendingError (request : ApprovalRequest) (resolution : ApprovalResolution)
| ContextError (text : string)
| Failure (text : string) (retryable : bool).

Definition IsApprovalPending (err : option go_error) : option (ApprovalRequest * ApprovalResolution) :=
  match err with Some (ApprovalPendingError q r) => Some (q, r) | _ => None end.
Definition error_text (e : go_error) : string :=
  match e with
  | ApprovalPendingError q r => "approval " +:+ rs_ApprovalID r +:+ " is pending for tool " +:+ tc_Name (aq_ToolCall q)
  | ContextError t => t
  | Failure t _ => t
  end.

Definition CodeApprovalDenied := "approval_denied".
Definition CodeApprovalUnavailable := "approval_unavailable".
Definition CodeApprovalFailed := "approval_failed".
Definition CodeInvalidArgs := "invalid_tool_args".
Definition CodeBudgetExceeded := "capability_budget_exceeded".
Definition CodeHookDenied := "hook_denied".
Definition CodeRateLimited := "capability_rate_limited".
Definition CodeToolJournalUnavailable := "tool_journal_unavailable".
Definition CodeToolIdempotencyConflict := "tool_idempotency_conflict".
Definition CodeToolOutcomeUnknown := "tool_outcome_unknown".

Definition deniedResult (code message : string) : CapabilityResult := mk_result message false (code_metadata code).

Definition approvalDeniedFor (code : string) (call : ToolCall) : CapabilityResult :=
  if bool_decide (code = CodeApprovalUnavailable)
  then deniedResult code ("tool " +:+ tc_Name call +:+ " requires approval but no approver is configured")
  else if bool_decide (code = CodeApprovalFailed)
  then deniedResult code ("tool " +:+ tc_Name call +:+ " approval could not be completed")
  else deniedResult code ("tool " +:+ tc_Name call +:+ " was not approved").

(** ** Effects *)

Definition tool_outcome : Type := CapabilityResult * option go_error.

(** A running provider: it invokes other tools and finally returns. *)
Inductive ptree :=
| PDone (o : ProviderOutcome go_error)
| PInvoke (call : ToolCall) (k : tool_outcome → ptree).

(** What the kernel asks of its host.  [OnBeforeTool] and the other guarding
    hooks answer the refusal; the summariser answers the batches it appended to
    the session and the messages to use; [StreamModel] answers what the adapter
    emitted and returned. *)
Inductive agentE (J : Type → Type) : Type → Type :=
| OnBeforeTool (info : RunInfo) (call : ToolCall) : agentE J (option string)
| OnAfterTool (info : RunInfo) (call : ToolCall) (r : CapabilityResult) : agentE J unit
| LimitCall (tenant name : string) : agentE J bool
| Approve (q : ApprovalRequest) : agentE J (result string)
| RequestApproval (q : ApprovalRequest) : agentE J (result ApprovalResolution)
| StoreE (B : Type) (s : J B) : agentE J B
| CtxErr : agentE J (option string)
| StartProvider (p : Provider) (rq : CapabilityRequest) (accepted : option ToolInvocation) (remaining : Z) : agentE J ptree
| AskClock : agentE J (Z → string)
| OnEvent (e : SessionEvent) : agentE J bool
| OnRunStart (info : RunInfo) : agentE J (option string)
| OnBeforeStep (info : RunInfo) : agentE J (option string)
| OnAfterStep (info : RunInfo) : agentE J unit
| OnRunEnd (info : RunInfo) (status : string) : agentE J unit
| EnsureSummarized (runID : string) (messages : list ChatMessage) : agentE J (list (list sessionAppendEntry) * (list ChatMessage + go_error))
| CompactMessages (messages : list ChatMessage) : agentE J (option (list ChatMessage))
| AssembleContext (request : ModelContext) : agentE J (ModelContext + go_error)
| AuthorizeModelCall (request : ModelCallRequest) : agentE J (option go_error)
| StreamModel (opts : GenerateOptions) : agentE J (list StreamChunk * option go_error)
| CtxDeadline : agentE J (option string)
| NewID (prefix : string) : agentE J (result string).
Arguments OnBeforeTool {J} info call.
Arguments OnAfterTool {J} info call r.
Arguments LimitCall {J} tenant name.
Arguments Approve {J} q.
Arguments RequestApproval {J} q.
Arguments StoreE {J B} s.
Arguments CtxErr {J}.
Arguments StartProvider {J} p rq accepted remaining.
Arguments AskClock {J}.
Arguments OnEvent {J} e.
Arguments OnRunStart {J} info.
Arguments OnBeforeStep {J} info.
Arguments OnAfterStep {J} info.
Arguments OnRunEnd {J} info status.
Arguments EnsureSummarized {J} runID messages.
Arguments CompactMessages {J} messages.
Arguments AssembleContext {J} request.
Arguments AuthorizeModelCall {J} request.
Arguments StreamModel {J} opts.
Arguments CtxDeadline {J}.
Arguments NewID {J} prefix.

(** ** State and options *)

Inductive ApproverKind := NoApprover | ImmediateApprover | DurableApprover.

(** The options the funnel reads; [ToolJournal] says whether one is configured. *)
Record GuardOptions := mk_guard_options {
  g_MaxToolCalls : Z; g_Hooks : bool; g_RateLimiter : bool; g_Approver : ApproverKind; g_ToolJournal : bool; g_OnEvent : bool;
  g_Tools : CapabilitySnapshot }.

Record agentState := mk_agent {
  ag_session : Session; ag_runID : string; ag_counts : gmap string Z; ag_toolCalls : Z;
  ag_approvalResolutions : gmap string ApprovalResolution; ag_resumeCallIDs : gset string; ag_compositionRevision : string }.

Definition count_of (a : agentState) (name : string) : Z := default 0 (ag_counts a !! name).

Definition set_session (s : Session) (a : agentState) : agentState :=
  mk_agent s (ag_runID a) (ag_counts a) (ag_toolCalls a) (ag_approvalResolutions a) (ag_resumeCallIDs a) (ag_compositionRevision a).
Definition set_resume (ids : gset string) (a : agentState) : agentState :=
  mk_agent (ag_session a) (ag_runID a) (ag_counts a) (ag_toolCalls a) (ag_approvalResolutions a) ids (ag_compositionRevision a).
Definition add_call (a : agentState) : agentState :=
  mk_agent (ag_session a) (ag_runID a) (ag_counts a) (ag_toolCalls a + 1) (ag_approvalResolutions a) (ag_resumeCallIDs a) (ag_compositionRevision a).
Definition add_count (name : string) (a : agentState) : agentState :=
  mk_agent (ag_session a) (ag_runID a) (<[name := count_of a name + 1]> (ag_counts a)) (ag_toolCalls a) (ag_approvalResolutions a) (ag_resumeCallIDs a) (ag_compositionRevision a).
Definition add_resolution (r : ApprovalResolution) (a : agentState) : agentState :=
  mk_agent (ag_session a) (ag_runID a) (ag_counts a) (ag_toolCalls a) (<[rs_ApprovalID r := r]> (ag_approvalResolutions a)) (ag_resumeCallIDs a) (ag_compositionRevision a).

Section Guard.
Context {J : Type → Type} `{!ToolInvocationJournal J}.
Context (regexp_Compile : string → option (string → bool)) (parse_json : string → option json).
Context (resolve_credential : Principal → ScopePath → string → option string).
Context (opts : GuardOptions).

Notation M A := (prog (agentE J) (A * agentState)).

(** ** Appending events *)

(** [Agent.appendBatch]: the events are committed, then handed to the event
    consumer, whose first failure is reported. *)
Fixpoint emit_all (events : list SessionEvent) (first : option go_error) : prog (agentE J) (option go_error) :=
  match events with
  | [] => Ret first
  | e :: events =>
    let* ok := ask (OnEvent e) in
    emit_all events (match first with Some _ => first | None => if (ok : bool) then None else Some (Failure "event callback panicked" false) end)
  end.

Definition agent_appendBatch (a : agentState) (entries : list sessionAppendEntry) : M (option go_error) :=
  let* clock := ask AskClock in
  match appendBatch clock (ag_session a) entries with
  | Err e => Ret (Some (Failure e false), a)
  | Ok (s, events) =>
    let a := set_session s a in
    if g_OnEvent opts then (let* first := emit_all events None in Ret (first, a)) else Ret (None, a)
  end.

Definition agent_append (a : agentState) (runID : string) (kind : SessionEventType) (data : EventData) : M (option go_error) :=
  agent_appendBatch a [append_entry runID kind data].

(** ** Approval *)

(** [requestApproval]: the result shown when the call is refused, whether it is
    approved, and the suspension. *)
Definition requestApproval (a : agentState) (info : RunInfo) (call : ToolCall) (m : CapabilityManifest) : M (CapabilityResult * bool * option go_error) :=
  let empty := mk_result "" false ∅ in
  let request := mk_approval (in_RunID info) (in_SessionID info) (in_Principal info) call m in
  match g_Approver opts with
  | NoApprover => Ret ((approvalDeniedFor CodeApprovalUnavailable call, false, None), a)
  | DurableApprover =>
    let* answer := ask (RequestApproval request) in
    match answer with
    | Err _ => Ret ((approvalDeniedFor CodeApprovalFailed call, false, None), a)
    | Ok resolution =>
      match ValidateApprovalID (rs_ApprovalID resolution) with
      | Err _ => Ret ((approvalDeniedFor CodeApprovalFailed call, false, None), a)
      | Ok _ =>
        if bool_decide (rs_Decision resolution = ApprovalPending) then Ret ((empty, false, Some (ApprovalPendingError request resolution)), a)
        else if bool_decide (rs_Decision resolution = ApprovalApproved) then Ret ((empty, true, None), add_resolution resolution a)
        else if bool_decide (rs_Decision resolution = ApprovalDenied) || bool_decide (rs_Decision resolution = ApprovalExpired)
        then Ret ((approvalDeniedFor CodeApprovalDenied call, false, None), add_resolution resolution a)
        else Ret ((approvalDeniedFor CodeApprovalUnavailable call, false, None), a)
      end
    end
  | ImmediateApprover =>
    let* answer := ask (Approve request) in
    match answer with
    | Err _ => Ret ((approvalDeniedFor CodeApprovalFailed call, false, None), a)
    | Ok decision =>
      if bool_decide (decision = ApprovalApproved) then Ret ((empty, true, None), a)
      else if bool_decide (decision = ApprovalDenied) then Ret ((approvalDeniedFor CodeApprovalDenied call, false, None), a)
      else Ret ((approvalDeniedFor CodeApprovalUnavailable call, false, None), a)
    end
  end.

(** ** Replay *)

Definition journalReplayResult (record : ToolInvocationRecord) (i : ToolInvocation) (manifest : option CapabilityManifest) : result CapabilityResult :=
  fail_when negb (bool_decide (rec_inv record = i)) with "tool invocation journal returned a result for a different identity" ;;
  match rec_State record, rec_Result record with
  | ToolInvocationCompleted, Some recorded =>
    let r := cloneCapabilityResult recorded in
    let! _ := ValidateCapabilityResult r in
    let limit := match manifest with Some m => if 0 <? MaxOutputBytes m then MaxOutputBytes m else DefaultMaxCapabilityOutputBytes
                                   | None => DefaultMaxCapabilityOutputBytes end in
    fail_when limit <? str_len (r_Content r) with "journaled tool result exceeds its limit" ;;
    match manifest with
    | Some m =>
      if r_OK r && negb (bool_decide (OutputSchema m = ∅)) then
        match parse_json (r_Content r) with
        | None => Err "journaled tool result is not valid JSON"
        | Some output => let! _ := ValidateJSONValue regexp_Compile (OutputSchema m) (any_of_json output) in Ok r
        end
      else Ok r
    | None => Ok r
    end
  | _, _ => Err "tool invocation journal returned a replay without a completed result"
  end.

(** ** The funnel *)

Definition store {A} (p : prog J A) : prog (agentE J) A := pmap (λ _ s, StoreE s) p.

Definition after_tool (info : RunInfo) (call : ToolCall) (r : CapabilityResult) : prog (agentE J) unit :=
  if g_Hooks opts then ask (OnAfterTool info call r) else Ret tt.

(** A refusal: a result, not a failure, and the observing hook is told. *)
Definition refuse (a : agentState) (info : RunInfo) (call : ToolCall) (r : CapabilityResult) : M tool_outcome :=
  let* _ := after_tool info call r in Ret ((r, None), a).

(** The provider's tree, its nested calls going through [invoke]. *)
Fixpoint run_provider (invoke : agentState → ToolCall → M tool_outcome) (t : ptree) (a : agentState) : M (ProviderOutcome go_error) :=
  match t with
  | PDone o => Ret (o, a)
  | PInvoke call k => let* (o, a) := invoke a call in run_provider invoke (k o) a
  end.

(** [safeProtectedExecute]: the snapshot's [executeProtected] with the provider
    run through the funnel's invoker. *)
Definition execute_inner (invoke : agentState → ToolCall → M tool_outcome) (a : agentState) (call : ToolCall) (accepted : option ToolInvocation) : M tool_outcome :=
  match prepare_execution resolve_credential (g_Tools opts) call with
  | inl refusal => Ret ((refusal, None), a)
  | inr (p, m, rq) =>
    let* tree := ask (StartProvider p rq accepted (Z.max 0 (g_MaxToolCalls opts - ag_toolCalls a))) in
    let* (o, a) := run_provider invoke tree a in
    let '(r, err) := safe_outcome o in
    Ret (check_output regexp_Compile parse_json (tc_Name call) m r err, a)
  end.

(** The journal's decision before execution: an answer that ends the call, or
    the identity under which it may execute. *)
Definition journal_begin (info : RunInfo) (call : ToolCall) (manifest : option CapabilityManifest) : prog (agentE J) ((CapabilityResult + go_error) + ToolInvocation) :=
  let idempotent := match manifest with Some m => Idempotent m | None => false end in
  match NewToolInvocation info call idempotent with
  | Err e => Ret (inl (inl (deniedResult CodeInvalidArgs e)))
  | Ok i =>
    let* answer := store (BeginToolInvocation i) in
    match answer with
    | Err e =>
      let* cancelled := ask CtxErr in
      match cancelled with
      | Some text => Ret (inl (inr (ContextError text)))
      | None => Ret (inl (inl (deniedResult CodeToolJournalUnavailable "tool invocation journal is unavailable")))
      end
    | Ok (record, ToolInvocationReplay) =>
      Ret (inl (inl (match journalReplayResult record i manifest with
                     | Ok r => r
                     | Err e => deniedResult CodeToolJournalUnavailable e end)))
    | Ok (_, ToolInvocationUnknown) =>
      Ret (inl (inl (deniedResult CodeToolOutcomeUnknown ("tool " +:+ tc_Name call +:+ " may already have executed; automatic replay is unsafe"))))
    | Ok (_, ToolInvocationConflict) =>
      Ret (inl (inl (deniedResult CodeToolIdempotencyConflict
        ("tool call identity " +:+ tc_ID call +:+ " was reused with different capability or arguments"))))
    | Ok (_, ToolInvocationExecuteNew) => Ret (inr i)
    | Ok (_, ToolInvocationExecuteRetry) =>
      if ti_Idempotent i then Ret (inr i)
      else Ret (inl (inl (deniedResult CodeToolJournalUnavailable "journal requested an unsafe non-idempotent retry")))
    | Ok (_, ToolInvocationDecisionOther _) =>
      Ret (inl (inl (deniedResult CodeToolJournalUnavailable "journal returned an invalid tool invocation decision")))
    end
  end.

(** Recording the outcome: nothing for a suspension, otherwise the result to
    return. *)
Definition journal_end (call : ToolCall) (manifest : option CapabilityManifest) (i : ToolInvocation) (o : tool_outcome) : prog (agentE J) (option tool_outcome) :=
  let '(r, err) := o in
  match err with
  | Some e =>
    match IsApprovalPending err with
    | Some _ => Ret None
    | None => let* _ := store (MarkToolInvocationUncertain i "provider_error") in Ret (Some (r, err))
    end
  | None =>
    let* completed := store (CompleteToolInvocation i r) in
    match completed with
    | Err _ =>
      let* _ := store (MarkToolInvocationUncertain i CodeToolJournalUnavailable) in
      Ret (Some (deniedResult CodeToolOutcomeUnknown ("tool " +:+ tc_Name call +:+ " completed but its durable outcome could not be recorded"), None))
    | Ok record =>
      Ret (Some (match journalReplayResult record i manifest with
                 | Ok canonical => canonical
                 | Err e => deniedResult CodeToolJournalUnavailable e end, None))
    end
  end.

(** After every gate: journal, provider, journal. *)
Definition execute_admitted (invoke : agentState → ToolCall → M tool_outcome) (a : agentState) (info : RunInfo) (call : ToolCall) (manifest : option CapabilityManifest) : M tool_outcome :=
  if g_ToolJournal opts then
    let* decision := journal_begin info call manifest in
    match decision with
    | inl (inl r) => refuse a info call r
    | inl (inr e) => Ret ((mk_result "" false ∅, Some e), a)
    | inr i =>
      let* (o, a) := execute_inner invoke a call (Some i) in
      let* recorded := journal_end call manifest i o in
      match recorded with
      | None => Ret ((mk_result "" false ∅, o.2), a)
      | Some o => let* _ := after_tool info call o.1 in Ret (o, a)
      end
    end
  else
    let* (o, a) := execute_inner invoke a call None in
    let* _ := after_tool info call o.1 in Ret (o, a).

Definition run_info (a : agentState) : RunInfo :=
  mk_info (ag_runID a) (s_id (ag_session a)) (s_profileID (ag_session a)) 0 (clonePrincipal (s_principal (ag_session a))).

(** The gates that read the manifest: per-capability budget, rate limit,
    approval.  [inl] is the refusal or suspension, [inr] the admitted state. *)
Definition manifest_gates (a : agentState) (info : RunInfo) (call : ToolCall) (m : CapabilityManifest) (resuming : bool) :
    M (unit + (CapabilityResult + go_error)) :=
  let limit := BudgetFor (g_Tools opts) (tc_Name call) in
  if negb resuming && (0 <? limit) && (limit <=? count_of a (tc_Name call)) then
    Ret (inr (inl (deniedResult CodeBudgetExceeded ("tool " +:+ tc_Name call +:+ " reached its per-run budget of " +:+ z_text limit +:+ " calls"))), a)
  else
    let* allowed := if negb resuming && g_RateLimiter opts then ask (LimitCall (TenantID (in_Principal info)) (tc_Name call)) else Ret true in
    if negb allowed then
      Ret (inr (inl (deniedResult CodeRateLimited ("tool " +:+ tc_Name call +:+ " exceeded its cross-run rate limit for this tenant"))), a)
    else if RequiresApproval m then
      let* (answer, a) := requestApproval a info call m in
      let '(r, approved, err) := answer in
      match err with
      | Some e => Ret (inr (inr e), a)
      | None => if approved : bool then Ret (inl tt, a) else Ret (inr (inl r), a)
      end
    else Ret (inl tt, a).

(** One entry into the funnel, nested calls going through [invoke]. *)
Definition execute_guarded (invoke : agentState → ToolCall → M tool_outcome) (a : agentState) (call : ToolCall) : M tool_outcome :=
  let resuming := bool_decide (tc_ID call ∈ ag_resumeCallIDs a) in
  let a := if resuming then set_resume (ag_resumeCallIDs a ∖ {[tc_ID call]}) a else a in
  let info := run_info a in
  if negb resuming && (g_MaxToolCalls opts <=? ag_toolCalls a) then
    refuse a info call (deniedResult CodeBudgetExceeded ("run reached its maximum of " +:+ z_text (g_MaxToolCalls opts) +:+ " tool calls"))
  else
    let a := if resuming then a else add_call a in
    let manifest := ManifestFor (g_Tools opts) (tc_Name call) in
    let checked := match manifest with
                   | Some m => ValidateArgs regexp_Compile (match Tool m with Some tool => default (InputSchema m) (Parameters tool) | None => InputSchema m end) (tc_Args call)
                   | None => Ok tt end in
    match checked with
    | Err e => refuse a info call (deniedResult CodeInvalidArgs e)
    | Ok _ =>
      let* denied := if g_Hooks opts then ask (OnBeforeTool info call) else Ret None in
      match denied with
      | Some e => refuse a info call (deniedResult CodeHookDenied e)
      | None =>
        let* (gate, a) := match manifest with Some m => manifest_gates a info call m resuming | None => Ret (inl tt, a) end in
        match gate with
        | inr (inl r) => refuse a info call r
        | inr (inr e) => Ret ((mk_result "" false ∅, Some e), a)
        | inl _ =>
          let a := if resuming then a else add_count (tc_Name call) a in
          execute_admitted invoke a info call manifest
        end
      end
    end.

(** [nestedToolInvoker.InvokeTool] *)
Definition InvokeTool (execute : agentState → ToolCall → M tool_outcome) (a : agentState) (call : ToolCall) : M tool_outcome :=
  let failed e := Ret ((mk_result "" false ∅, Some e), a) in
  match ToolResult (ag_session a) (ag_runID a) (tc_ID call) with
  | Err e => failed (Failure e false)
  | Ok (Some r) => Ret ((r, None), a)
  | Ok None =>
    match HasToolCall (ag_session a) (ag_runID a) (tc_ID call) with
    | Err e => failed (Failure e false)
    | Ok logged =>
      let* (err, a) := if logged : bool then Ret (None, a)
                       else agent_append a (ag_runID a) EvToolCall (DToolCall (mk_tcall (tc_ID call) (tc_Name call) (tc_Args call))) in
      match err with
      | Some e => Ret ((mk_result "" false ∅, Some e), a)
      | None =>
        let* (o, a) := execute a call in
        match IsApprovalPending o.2 with
        | Some _ => Ret ((mk_result "" false ∅, o.2), a)
        | None =>
          let shown := match o.2 with Some e => mk_result (error_text e) false ∅ | None => o.1 end in
          let* (err, a) := agent_append a (ag_runID a) EvToolResult (DToolResult (mk_tresult (tc_ID call) (r_Content shown) (r_OK shown) (r_Metadata shown))) in
          match err with
          | Some e => Ret ((mk_result "" false ∅, Some e), a)
          | None => Ret (o, a)
          end
        end
      end
    end
  end.

(** Nested invocations recurse; every entry that reaches a provider has used
    one call of the run's budget or one resumed call. *)
Fixpoint Execute (fuel : nat) (a : agentState) (call : ToolCall) : M tool_outcome :=
  match fuel with
  | O => Ret ((mk_result "" false ∅, Some (Failure "tool nesting is out of fuel" false)), a)
  | S fuel => execute_guarded (InvokeTool (Execute fuel)) a call
  end.

Definition execute_fuel (a : agentState) : nat :=
  S (Z.to_nat (g_MaxToolCalls opts - ag_toolCalls a) + size (ag_resumeCallIDs a)).

Definition guarded_Execute (a : agentState) (call : ToolCall) : M tool_outcome := Execute (execute_fuel a) a call.

End Guard.
