(* ===== verification/Fence.v ===== *)
(** * Theorems on the journal and the at-most-once fence

    What the kernel relies on is stated as an interface, [FencingJournal]: some
    answers of the store claim a key, a key is claimed at most once, and a
    journal says "execute" only after it claimed the key.  The SQL journal
    satisfies it.  Against the interface alone, the guard funnel never starts a
    provider for a non-idempotent call without a claim of its key. *)
From S2P Require Import Prelude Prog GoString Json Scope Principal Payload Events Session Capability Journal Guard.
From stdpp Require Import gmap strings list sorting.
From Stdlib Require Import ZArith Lia.
Open Scope Z_scope.

Notation jkey := (string * string * string)%type.

(** ** The interface *)

Section Claims.
Context {J : Type → Type} (claims : ∀ B, J B → B → option jkey).

(** [counting k c p Q]: when the answers along a path of [p] claim [k] in total
    [n] times, the result satisfies [Q] at [c + n]. *)
Fixpoint counting {A} (k : jkey) (c : nat) (p : prog J A) (Q : A → nat → Prop) : Prop :=
  match p with
  | Ret a => Q a c
  | Vis e f => ∀ b, counting k (if decide (claims _ e b = Some k) then S c else c) (f b) Q
  end.

Lemma counting_bind {A B} k c (p : prog J A) (f : A → prog J B) Q :
  counting k c p (λ a n, counting k n (f a) Q) → counting k c (pbind p f) Q.
Proof. revert c. induction p as [a|C e g IH]; intros c H; cbn in *; [done|]. intros b. by apply IH. Qed.

Lemma counting_mono {A} k c (p : prog J A) (Q R : A → nat → Prop) :
  (∀ a n, (c ≤ n)%nat → Q a n → R a n) → counting k c p Q → counting k c p R.
Proof.
  revert c. induction p as [a|C e g IH]; intros c HQR H; cbn in *; [by apply HQR|]. intros b. specialize (H b).
  eapply IH; [|exact H]. intros a n Hn. apply HQR. case_decide; lia.
Qed.
End Claims.

Class FencingJournal (J : Type → Type) `{!ToolInvocationJournal J} := {
  fj_store : Type;
  fj_step : ∀ B, J B → fj_store → B → fj_store → Prop;
  fj_taken : fj_store → jkey → Prop;
  fj_claims : ∀ B, J B → B → option jkey;
  fj_keeps B (e : J B) s b s' k : fj_step B e s b s' → fj_taken s k → fj_taken s' k;
  fj_claim B (e : J B) s b s' k : fj_step B e s b s' → fj_claims B e b = Some k → ¬ fj_taken s k ∧ fj_taken s' k;
  fj_begin i : counting fj_claims (journal_key i) 0 (BeginToolInvocation i) (λ r n, ∀ record, r = Ok (record, ToolInvocationExecuteNew) → (1 ≤ n)%nat) }.

(** ** The SQL journal is fencing *)

Definition sql_claims (B : Type) (e : sqlE B) : B → option jkey :=
  match e in sqlE B return B → option jkey with
  | SInsert i _ => λ b, match b with Ok true => Some (journal_key i) | _ => None end
  | _ => λ _, None
  end.

(** What a statement can do to the row of a key. *)
Lemma complete_row_lookup i encoded now t k :
  complete_row i encoded now t !! k = t !! k
  ∨ ∃ r, t !! k = Some r ∧ row_state r ≠ ToolInvocationCompleted ∧ k = journal_key i ∧ row_inv r = i
      ∧ complete_row i encoded now t !! k = Some (mk_row (row_inv r) ToolInvocationCompleted (Some encoded) "" (row_started r) now now).
Proof.
  unfold complete_row. destruct (t !! journal_key i) as [r|] eqn:E; [|by left].
  destruct (_ && _) eqn:C; [|by left]. bool_to_prop. destruct (decide (k = journal_key i)) as [->|Hk]; [|left; by rewrite lookup_insert_ne].
  right. exists r. rewrite lookup_insert_eq. apply orb_prop in H0. split_and!; try done.
  - destruct H0; bool_to_prop; congruence.
  - unfold sameToolInvocation in H. bool_to_prop. destruct (row_inv r), i. cbn in *. congruence.
Qed.

Lemma uncertain_row_lookup i code now t k :
  (uncertain_row i code now t).2 !! k = t !! k
  ∨ ∃ r, t !! k = Some r ∧ row_state r ≠ ToolInvocationCompleted ∧ k = journal_key i
      ∧ (uncertain_row i code now t).2 !! k = Some (mk_row (row_inv r) ToolInvocationUncertain (row_result r) code (row_started r) now (row_completed r)).
Proof.
  unfold uncertain_row. destruct (t !! journal_key i) as [r|] eqn:E; [|by left].
  destruct (_ && _) eqn:C; cbn; [|by left]. bool_to_prop. destruct (decide (k = journal_key i)) as [->|Hk]; [|left; by rewrite lookup_insert_ne].
  right. exists r. by rewrite lookup_insert_eq.
Qed.

(** Rows never disappear, keep their identity, and once completed never
    change. *)
Lemma sql_exec_row clock B (e : sqlE B) t b t' k r :
  sql_exec clock e t = (b, t') → t !! k = Some r →
  ∃ r', t' !! k = Some r' ∧ row_inv r' = row_inv r ∧ (row_state r = ToolInvocationCompleted → r' = r).
Proof.
  intros H Hk. destruct e; cbn in H; try (injection H as <- <-; by exists r).
  - unfold insert_row in H. destruct (t !! journal_key i) eqn:E; injection H as <- <-; [by exists r|].
    exists r. rewrite lookup_insert_ne; [done|]. intros <-. congruence.
  - unfold complete_tx in H. injection H as _ <-. destruct (is_ok _); [|by exists r].
    destruct (complete_row_lookup i encoded now t k) as [->|(r0 & H0 & Hs & -> & Hi & ->)]; [by exists r|].
    rewrite Hk in H0. injection H0 as <-. eexists. split; [done|]. split; [done|]. done.
  - destruct (uncertain_row i code now t) as [n t1] eqn:E. injection H as <- <-.
    pose proof (uncertain_row_lookup i code now t k) as Hu. rewrite E in Hu. cbn in Hu.
    destruct Hu as [->|(r0 & H0 & Hs & -> & ->)]; [by exists r|].
    rewrite Hk in H0. injection H0 as <-. eexists. split; [done|]. split; [done|]. done.
Qed.

Lemma sql_step_row B (e : sqlE B) t b t' k r :
  sql_step e t b t' → t !! k = Some r →
  ∃ r', t' !! k = Some r' ∧ row_inv r' = row_inv r ∧ (row_state r = ToolInvocationCompleted → r' = r).
Proof.
  intros [(clock & H)|(msg & _ & [->|(clock & b' & H)])] Hk; [by eapply sql_exec_row|by exists r|by eapply sql_exec_row].
Qed.

Lemma sql_step_claim B (e : sqlE B) t b t' k :
  sql_step e t b t' → sql_claims B e b = Some k → t !! k = None ∧ is_Some (t' !! k).
Proof.
  intros Hstep Hc. destruct e; try done. cbn in Hc. destruct b as [[]|]; try done. injection Hc as <-.
  destruct Hstep as [(clock & H)|(msg & H & _)]; [|done]. cbn in H. unfold insert_row in H.
  destruct (t !! journal_key i) eqn:E; injection H; [done|]. intros <-. split; [done|]. rewrite lookup_insert_eq. by eexists.
Qed.

Lemma existing_not_new record i r : existingToolInvocationDecision record i = Ok r → r.2 ≠ ToolInvocationExecuteNew.
Proof.
  unfold existingToolInvocationDecision. destruct (negb _); [by intros [=<-]|].
  destruct (rec_State record), (rec_Result record), (ti_Idempotent i); try done; by intros [=<-].
Qed.

Lemma sql_begin_counts max i :
  counting sql_claims (journal_key i) 0 (sql_Begin max i) (λ r n, ∀ record, r = Ok (record, ToolInvocationExecuteNew) → (1 ≤ n)%nat).
Proof.
  unfold sql_Begin. destruct (ValidateToolInvocation i) as [[]|]; [|done]. cbn. intros [stored|]; [|done].
  destruct (_ <=? stored); cbn.
  - intros [[row|]|e].
    + intros record H. destruct (scanToolInvocation row); [by apply existing_not_new in H|]. by case_bool_decide.
    + intros record H. by rewrite bool_decide_eq_true_2 in H.
    + intros record H. by case_bool_decide.
  - intros now [[]|]; cbn; [rewrite decide_True by done; lia| |done].
    intros [[row|]|e] record H; cbn in H; [|done..]. destruct (scanToolInvocation row); cbn in H; [by apply existing_not_new in H|done].
Qed.

#[export] Instance SQL_fencing (max : Z) : @FencingJournal sqlE (SQLToolInvocationJournal max).
Proof.
  refine (@Build_FencingJournal sqlE (SQLToolInvocationJournal max) toolTable (λ B e t b t', sql_step e t b t') (λ t k, is_Some (t !! k)) sql_claims _ _ _).
  - intros B e t b t' k H [r Hr]. destruct (sql_step_row _ _ _ _ _ _ _ H Hr) as (r' & ? & _). by exists r'.
  - intros B e t b t' k H Hc. destruct (sql_step_claim _ _ _ _ _ _ H Hc) as [Hn ?]. split; [|done]. rewrite Hn. by intros [].
  - apply (sql_begin_counts max).
Defined.

(** ** Tokens *)

(** A claim of [k] gives a token; starting a provider for a non-idempotent call
    with key [k] costs one. *)
Section Tokens.
Context {J : Type → Type} `{!ToolInvocationJournal J, !FencingJournal J}.

Definition gain (k : jkey) {B} (e : agentE J B) : B → nat :=
  match e in agentE _ B return B → nat with
  | StoreE s => λ b, if decide (fj_claims _ s b = Some k) then 1%nat else 0%nat
  | _ => λ _, 0%nat
  end.

Definition spends (k : jkey) {B} (e : agentE J B) : bool :=
  match e with
  | StartProvider _ _ (Some i) _ => negb (ti_Idempotent i) && bool_decide (journal_key i = k)
  | _ => false
  end.

(** From [n] tokens the program never starts a provider without one; at the end
    [Q] holds of what is left. *)
Fixpoint held {A} (k : jkey) (n : nat) (p : prog (agentE J) A) (Q : A → nat → Prop) : Prop :=
  match p with
  | Ret a => Q a n
  | Vis e f =>
    if spends k e then match n with O => False | S m => ∀ b, held k m (f b) Q end
    else ∀ b, held k (n + gain k e b) (f b) Q
  end.

Definition safe {A} (k : jkey) (p : prog (agentE J) A) : Prop := ∀ n, held k n p (λ _ _, True).

Lemma held_bind {A B} k n (p : prog (agentE J) A) (f : A → prog (agentE J) B) Q :
  held k n p (λ a m, held k m (f a) Q) → held k n (pbind p f) Q.
Proof.
  revert n. induction p as [a|C e g IH]; intros n H; cbn in *; [done|].
  destruct (spends k e); [destruct n; [done|]|]; intros b; by apply IH.
Qed.

Lemma held_mono {A} k n (p : prog (agentE J) A) (Q R : A → nat → Prop) :
  (∀ a m, Q a m → R a m) → held k n p Q → held k n p R.
Proof.
  intros HQR. revert n. induction p as [a|C e g IH]; intros n H; cbn in *; [by apply HQR|].
  destruct (spends k e); [destruct n; [done|]|]; intros b; by apply IH.
Qed.

Lemma safe_bind {A B} k (p : prog (agentE J) A) (f : A → prog (agentE J) B) :
  safe k p → (∀ a, safe k (f a)) → safe k (pbind p f).
Proof. intros Hp Hf n. apply held_bind. eapply held_mono; [|apply Hp]. intros a m _. apply Hf. Qed.

Lemma safe_ret {A} k (a : A) : safe k (Ret a).
Proof. done. Qed.

Lemma safe_ask {B} k (e : agentE J B) : spends k e = false → safe k (ask e).
Proof. intros H n. cbn. by rewrite H. Qed.

Lemma counting_shift {A} k c (p : prog J A) Q :
  ∀ d, counting fj_claims k d p Q → counting fj_claims k (c + d) p (λ a n, ∃ m, n = (c + m)%nat ∧ Q a m).
Proof.
  induction p as [a|C e g IH]; intros d H; cbn in *; [by exists d|]. intros b. specialize (H b).
  case_decide; [rewrite plus_n_Sm|]; by apply IH.
Qed.

Lemma held_store {A} k n (p : prog J A) Q : counting fj_claims k n p Q → held k n (store p) Q.
Proof.
  revert n. induction p as [a|C e g IH]; intros n H; cbn in *; [done|]. intros b. specialize (H b).
  case_decide; apply IH; [by rewrite Nat.add_1_r|by rewrite Nat.add_0_r].
Qed.

Lemma safe_store {A} k (p : prog J A) : safe k (store p).
Proof.
  intros n. apply held_store. revert n. induction p as [a|C e g IH]; intros n; cbn; [done|]. intros b. apply IH.
Qed.

End Tokens.

Create HintDb fence discriminated.
#[export] Hint Resolve safe_bind safe_ret safe_store : fence.
#[export] Hint Extern 1 (safe _ (ask _)) => apply safe_ask; reflexivity : fence.
#[export] Hint Extern 2 (safe _ (if ?c then _ else _)) => destruct c : fence.
#[export] Hint Extern 2 (safe _ (match ?c with _ => _ end)) => destruct c : fence.
#[export] Hint Extern 3 (safe _ _) => progress cbn beta : fence.
#[export] Hint Extern 1 (∀ _, safe _ _) => intros ? : fence.

(** ** The funnel is safe *)

Section Funnel.
Context {J : Type → Type} `{!ToolInvocationJournal J, !FencingJournal J}.
Context (regexp_Compile : string → option (string → bool)) (parse_json : string → option json).
Context (resolve_credential : Principal → ScopePath → string → option string).
Context (opts : GuardOptions) (k : jkey).

Lemma safe_emit events first : safe (J := J) k (emit_all events first).
Proof. revert first. induction events as [|e events IH]; intros first; cbn; eauto with fence. intros n. cbn. intros b. apply IH. Qed.

Lemma safe_append a entries : safe (J := J) k (agent_appendBatch opts a entries).
Proof. unfold agent_appendBatch. pose proof safe_emit. eauto 10 with fence. Qed.

Lemma safe_approval a info call m : safe (J := J) k (requestApproval opts a info call m).
Proof. unfold requestApproval. eauto 15 with fence. Qed.

Lemma safe_gates a info call m resuming : safe (J := J) k (manifest_gates opts a info call m resuming).
Proof. unfold manifest_gates. pose proof safe_approval. eauto 15 with fence. Qed.

Lemma safe_refuse a info call r : safe (J := J) k (refuse opts a info call r).
Proof. unfold refuse, after_tool. eauto with fence. Qed.

Lemma safe_after {A} info call r (x : A) : safe (J := J) k (let* _ := after_tool opts info call r in Ret x).
Proof. unfold after_tool. eauto with fence. Qed.

(** A journal's permission to execute is backed by a token, unless the call is
    idempotent. *)
Lemma held_journal_begin info call manifest n :
  held (J := J) k n (journal_begin regexp_Compile parse_json info call manifest)
    (λ d m, ∀ i, d = inr i → ti_Idempotent i = false → journal_key i = k → (1 ≤ m)%nat).
Proof.
  unfold journal_begin. destruct (NewToolInvocation _ _ _) as [i|]; [|done]. apply held_bind.
  destruct (decide (journal_key i = k)) as [Hk|Hk].
  - apply held_store. rewrite <- (Nat.add_0_r n), <- Hk.
    eapply counting_mono; [|apply counting_shift, fj_begin]. cbn. intros [[record d]|e] c _ (m & -> & Hm).
    + destruct d; try done; [intros j _ _ _; specialize (Hm _ eq_refl); lia|]. destruct (ti_Idempotent i) eqn:E; [|done]. intros j [= <-]. congruence.
    + cbn. by intros [].
  - eapply held_mono; [|apply safe_store]. cbn. intros [[record d]|e] m _; [|cbn; by intros []].
    destruct d; try done; [by intros j [= <-]|]. destruct (ti_Idempotent i) eqn:E; [by intros j [= <-]|done].
Qed.

Lemma safe_journal_end call manifest i o : safe (J := J) k (journal_end regexp_Compile parse_json call manifest i o).
Proof. unfold journal_end. eauto 15 with fence. Qed.

Section Step.
Context (invoke : agentState → ToolCall → prog (agentE J) (tool_outcome * agentState)).
Hypothesis invoke_safe : ∀ a call, safe k (invoke a call).

Lemma safe_run_provider t : ∀ a, safe k (run_provider invoke t a).
Proof. induction t as [o|call f IH]; intros a; cbn; [done|]. apply safe_bind; [done|]. intros [o a']. apply IH. Qed.

Lemma held_inner a call accepted n :
  (∀ i, accepted = Some i → ti_Idempotent i = false → journal_key i = k → (1 ≤ n)%nat) →
  held k n (execute_inner regexp_Compile parse_json resolve_credential opts invoke a call accepted) (λ _ _, True).
Proof.
  intros Hn. unfold execute_inner. destruct (prepare_execution _ _ _) as [r|[[p m] rq]]; [done|].
  assert (∀ c tree, held k c (let* (o, a) := run_provider invoke tree a in
    let '(r, err) := safe_outcome o in Ret (check_output regexp_Compile parse_json (tc_Name call) m r err, a)) (λ _ _, True)) as Htree.
  { intros c tree. apply safe_bind; [apply safe_run_provider|]. intros [o a']. by destruct (safe_outcome o). }
  cbn. destruct accepted as [i|]; cbn; [|intros tree; apply Htree].
  destruct (negb _ && _) eqn:E; [|intros tree; apply Htree]. bool_to_prop.
  destruct n as [|n]; [|intros tree; apply Htree].
  destruct (ti_Idempotent i) eqn:Ei; [done|]. assert (1 ≤ 0)%nat; [by apply (Hn i)|lia].
Qed.

Lemma safe_admitted a info call manifest :
  safe k (execute_admitted regexp_Compile parse_json resolve_credential opts invoke a info call manifest).
Proof.
  intros n. unfold execute_admitted. destruct (g_ToolJournal opts).
  - apply held_bind. eapply held_mono; [|apply held_journal_begin]. cbn. intros [[r|e]|i] m Hm; [apply safe_refuse|done|].
    apply held_bind. eapply held_mono; [|apply held_inner; intros ? [= <-] Hi Hk; by apply (Hm i)]. cbn. intros [o a'] c _.
    apply safe_bind; [apply safe_journal_end|]. intros [o'|]; [|done]. apply safe_after.
  - apply held_bind. eapply held_mono; [|by apply held_inner]. cbn. intros [o a'] c _. apply safe_after.
Qed.

Lemma safe_guarded a call : safe k (execute_guarded regexp_Compile parse_json resolve_credential opts invoke a call).
Proof.
  unfold execute_guarded. destruct (negb _ && _); [apply safe_refuse|].
  destruct (match ManifestFor _ _ with Some m => _ | None => _ end); [|apply safe_refuse].
  apply safe_bind; [eauto with fence|]. intros [e|]; [apply safe_refuse|].
  apply safe_bind; [destruct (ManifestFor _ _); [apply safe_gates|done]|].
  intros [[u|[r|e]] a']; [apply safe_admitted|apply safe_refuse|done].
Qed.

Lemma safe_invoke a call : safe k (InvokeTool opts invoke a call).
Proof.
  unfold InvokeTool, agent_append. pose proof safe_append as Happend.
  destruct (ToolResult _ _ _) as [[r|]|]; [done| |done]. destruct (HasToolCall _ _ _) as [logged|]; [|done].
  apply safe_bind; [destruct logged; [done|apply Happend]|]. intros [[e|] a1]; [done|].
  apply safe_bind; [done|]. intros [o a2]. destruct (IsApprovalPending _); [done|].
  apply safe_bind; [apply Happend|]. by intros [[] ?].
Qed.
End Step.

Lemma safe_Execute fuel : ∀ a call, safe k (Execute regexp_Compile parse_json resolve_credential opts fuel a call).
Proof. induction fuel as [|fuel IH]; intros a call; [done|]. apply safe_guarded, safe_invoke, IH. Qed.

End Funnel.
