(* ===== verification/CapabilityClaims.v ===== *)
(** * Theorems on capabilities

    Every registry reached by validated mounts and unmounts stores, under a
    scope's key, only bindings of that scope; from this the file derives that a
    protected capability is final for every descendant scope, that a snapshot
    holds exactly the granted part of the effective set, that the two ways the
    runtime obtains it agree, that filters only narrow, that the public views
    carry no secret, and that a result handed back by the execution path is the
    provider's own within the declared limits, or a refusal. *)
From S2P Require Import Prelude GoString Json Schema Scope Registry Principal Policy Sha256 Payload Events Message Session Capability.
From stdpp Require Import gmap strings list sorting.
From Stdlib Require Import ZArith Lia.
Open Scope Z_scope.

(** ** Reachable registries *)

Section Reach.
Context (regexp_Compile : string → option (string → bool)).

(** Mounts at well-formed scopes and unmounts, in any interleaving. *)
Inductive cap_reach : CapabilityRegistry * list Handle → Prop :=
| cap_init max : cap_reach (mk_registry ∅ 0 max, [])
| cap_mount r hs x r' h :
    cap_reach (r, hs) → valid_path (cb_Scope x) → cap_Mount regexp_Compile x r = Ok (r', h) →
    reg_next r' < 2 ^ 64 - 1 → cap_reach (r', hs ++ [h])
| cap_unmount r hs i h r' h' :
    cap_reach (r, hs) → hs !! i = Some h → reg_unmount h r = (r', h') → cap_reach (r', <[i := h']> hs).

(** What [Mount] establishes of a stored binding. *)
Definition binding_ok (b : CapabilityBinding) : Prop :=
  valid_path (cb_Scope b) ∧ validateCapabilityID (m_ID (cb_Manifest b)) = Ok tt
  ∧ match cb_Mode b with
    | BindingProvide | BindingReplace =>
      is_Some (cb_Provider b) ∧ (is_Some (Tool (cb_Manifest b)) → ∃ p, cb_Provider b = Some p ∧ is_ToolProvider p = true)
      ∧ 0 ≤ MaxOutputBytes (cb_Manifest b) ≤ HardMaxCapabilityOutputBytes
    | BindingDisable => cb_Provider b = None
    | BindingOther _ => False
    end.

Lemma validateCapabilityManifest_limit m :
  validateCapabilityManifest regexp_Compile m = Ok tt → 0 ≤ MaxOutputBytes m ≤ HardMaxCapabilityOutputBytes.
Proof. unfold validateCapabilityManifest. rewrite !fail_if_ok. intros (_ & _ & H & _). bool_to_prop. lia. Qed.

Lemma check_binding_ok b b' : valid_path (cb_Scope b) → check_binding regexp_Compile b = Ok b' → cb_Scope b' = cb_Scope b ∧ binding_ok b'.
Proof.
  intros Hv. unfold check_binding, binding_ok. rewrite fail_if_ok, rbind_ok. intros (_ & [] & Hid & H).
  apply fail_if_ok in H as [_ H]. destruct (cb_Mode b) eqn:Hm; [| |injection H as <-; done|done];
    (apply rbind_ok in H as ([] & Hval & H); apply fail_if_ok in H as [_ H];
     destruct (cb_Provider b) as [p|]; [|done]; apply fail_if_ok in H as [Ht H]; injection H as <-; cbn [cb_Scope cb_Manifest cb_Provider cb_Mode];
     split; [done|]; split; [done|]; split; [exact Hid|]; split; [by eexists|];
     split; [|apply (validateCapabilityManifest_limit _ Hval)];
     cbn [Tool cloneManifest]; intros [t Htool]; exists p; split; [done|];
     destruct (Tool (cb_Manifest b)); [by apply negb_false_iff in Ht|done]).
Qed.

Lemma cap_reach_inv s : cap_reach s → reg_inv s.1 ∧ ∀ k, Forall (λ b, binding_ok (st_val b)) (reg_at s.1 k).
Proof.
  induction 1 as [max|r hs x r' h _ [IHi IHv] Hx Hm Hn|r hs i h r' h' _ [IHi IHv] _ Hu]; cbn in *.
  - split.
    + apply (reg_reach_inv (mk_registry ∅ 0 max, [])). constructor.
    + intros k. unfold reg_at. cbn. by rewrite lookup_empty.
  - apply rbind_ok in Hm as (x' & Hc & Hm). apply check_binding_ok in Hc as [_ Hok]; [|done].
    eapply reg_mount_inv in Hm as (Hi & _ & _ & Hat); [|done..].
    split; [done|]. intros k. rewrite Hat. apply Forall_app. split; [done|].
    case_decide; [by apply Forall_singleton|by apply Forall_nil].
  - eapply reg_unmount_inv in Hu as (Hi & _ & Hat); [|done].
    split; [done|]. intros k. rewrite Hat. destruct (h_done h); [done|].
    case_decide; [by apply Forall_filter_sub|done].
Qed.

(** Under a scope's key there are bindings of that scope only. *)
Lemma cap_at_scope r hs p b :
  cap_reach (r, hs) → valid_path p → b ∈ reg_sorted r (path_string p) → cb_Scope (st_val b) = p ∧ binding_ok (st_val b).
Proof.
  intros [Hi Hv]%cap_reach_inv Hp Hb. cbn in *. rewrite reg_sorted_id in Hb by done.
  specialize (Hv (path_string p)). rewrite Forall_forall in Hv. apply Hv in Hb as Hok. split; [|done].
  destruct Hi as (Hsl & _). destruct (Hsl (path_string p)) as [_ Hf]. rewrite Forall_forall in Hf.
  apply Hf in Hb as [_ Hk]. cbn in Hk. apply path_string_injective in Hk; [done|by destruct Hok|done].
Qed.

(** ** The effective set *)

(** An entry stands for its key, comes from one of the scopes walked, and is
    backed by a provider. *)
Definition entry_ok (ps : list ScopePath) (id : string) (e : resolvedEntry) : Prop :=
  m_ID (re_manifest e) = id ∧ re_scope e ∈ ps ∧ is_Some (re_provider e)
  ∧ (is_Some (Tool (re_manifest e)) → ∃ p, re_provider e = Some p ∧ is_ToolProvider p = true)
  ∧ 0 ≤ MaxOutputBytes (re_manifest e) ≤ HardMaxCapabilityOutputBytes.

Lemma apply_binding_ok ps eff eff' s :
  binding_ok (st_val s) → cb_Scope (st_val s) ∈ ps →
  map_Forall (entry_ok ps) eff → apply_binding eff s = Ok eff' → map_Forall (entry_ok ps) eff'.
Proof.
  intros (_ & _ & Hb) Hin He. unfold apply_binding.
  assert (Hnew : cb_Mode (st_val s) = BindingProvide ∨ cb_Mode (st_val s) = BindingReplace →
    entry_ok ps (m_ID (cb_Manifest (st_val s))) (entry_of (st_val s) (st_order s))).
  { intros Hm. unfold entry_ok. cbn. destruct Hm as [Hm|Hm]; rewrite Hm in Hb; tauto. }
  destruct (cb_Mode (st_val s)); intros H.
  - apply fail_if_ok in H as [_ [=<-]]. apply map_Forall_insert_2; [|done]. apply Hnew. by left.
  - destruct (eff !! _); [|done]. apply fail_if_ok in H as [_ [=<-]]. apply map_Forall_insert_2; [|done]. apply Hnew. by right.
  - destruct (eff !! _); [|by injection H as <-]. apply fail_if_ok in H as [_ [=<-]]. by apply map_Forall_delete.
  - by injection H as <-.
Qed.

Lemma resolve_entries_ok r hs ps eff eff' :
  cap_reach (r, hs) → Forall valid_path ps → map_Forall (entry_ok ps) eff →
  rfold (apply_prefix r) eff ps = Ok eff' → map_Forall (entry_ok ps) eff'.
Proof.
  intros Hr Hv He H. rewrite Forall_forall in Hv.
  apply (rfold_invariant _ (map_Forall (entry_ok ps)) _ _ _ He) in H; [done|].
  intros e1 p e2 Hp He1 H1. apply (rfold_invariant _ (map_Forall (entry_ok ps)) _ _ _ He1) in H1; [done|].
  intros e3 s e4 Hs He3 H3. destruct (cap_at_scope r hs p s Hr (Hv p Hp) Hs) as [Hsc Hok].
  eapply apply_binding_ok; [exact Hok| |exact He3|exact H3]. by rewrite Hsc.
Qed.

Lemma valid_prefixes t : valid_path t → Forall valid_path (Prefixes t).
Proof. intros Ht. apply Forall_forall. intros p Hp. by eapply valid_path_prefix. Qed.

Lemma resolveEntriesLocked_ok r hs t eff :
  cap_reach (r, hs) → valid_path t → resolveEntriesLocked r t = Ok eff → map_Forall (entry_ok (Prefixes t)) eff.
Proof.
  intros Hr Ht H. eapply resolve_entries_ok; [done|by apply valid_prefixes| |exact H]. apply map_Forall_empty.
Qed.

(** A binding of another scope leaves a protected entry as it is, or fails. *)
Lemma apply_binding_protected eff eff' s id e :
  eff !! id = Some e → re_protected e = true → cb_Scope (st_val s) ≠ re_scope e →
  apply_binding eff s = Ok eff' → eff' !! id = Some e.
Proof.
  intros Hl Hp Hne. unfold apply_binding.
  assert (Heq : Equal (re_scope e) (cb_Scope (st_val s)) = false).
  { apply not_true_iff_false. rewrite Equal_eq. congruence. }
  destruct (decide (m_ID (cb_Manifest (st_val s)) = id)) as [->|Hid].
  - rewrite Hl, Hp, Heq. destruct (cb_Mode (st_val s)); cbn; try done. by intros [=<-].
  - destruct (cb_Mode (st_val s)); intros H.
    + apply fail_if_ok in H as [_ [=<-]]. by rewrite lookup_insert_ne.
    + destruct (eff !! m_ID _); [|done]. apply fail_if_ok in H as [_ [=<-]]. by rewrite lookup_insert_ne.
    + destruct (eff !! m_ID _); [|by injection H as <-]. apply fail_if_ok in H as [_ [=<-]]. by rewrite lookup_delete_ne.
    + by injection H as <-.
Qed.

(** Descending from [s] to [t] walks the prefixes of [s] first. *)
Lemma Prefixes_split s t :
  IsAncestorOf s t = true → ∃ rest, Prefixes t = Prefixes s ++ rest ∧ Forall (λ p, (length (segments s) < length (segments p))%nat) rest.
Proof.
  rewrite IsAncestorOf_prefix. intros [k Hk]. unfold Prefixes. rewrite Hk, length_app, seq_app, fmap_app. eexists. split.
  - f_equal. apply list_fmap_ext. intros i x Hx. apply lookup_seq in Hx as [-> Hx]. f_equal. rewrite take_app_le by lia. done.
  - rewrite Forall_fmap. apply Forall_forall. intros i Hi%elem_of_seq. cbn. rewrite length_take, length_app. lia.
Qed.

Lemma protected_final r hs s t eff eff' id e :
  cap_reach (r, hs) → valid_path s → valid_path t → IsAncestorOf s t = true →
  resolveEntriesLocked r s = Ok eff → eff !! id = Some e → re_protected e = true →
  resolveEntriesLocked r t = Ok eff' → eff' !! id = Some e.
Proof.
  intros Hr Hs Ht Hanc Hres Hl Hp Hres'.
  pose proof (resolveEntriesLocked_ok _ _ _ _ Hr Hs Hres id e Hl) as (_ & Hsc & _).
  apply Prefixes_spec in Hsc as [_ Hsc%IsAncestorOf_prefix%prefix_length].
  pose proof (valid_prefixes t Ht) as Hv.
  unfold resolveEntriesLocked in *. destruct (Prefixes_split s t Hanc) as (rest & Hpre & Hrest).
  rewrite Hpre in Hres', Hv. rewrite rfold_app, Hres in Hres'. cbn in Hres'. apply Forall_app in Hv as [_ Hv].
  rewrite Forall_forall in Hv. rewrite Forall_forall in Hrest.
  apply (rfold_invariant _ (λ m, m !! id = Some e) _ _ _ Hl) in Hres'; [done|].
  intros e1 p e2 Hin H1 Hf. apply (rfold_invariant _ (λ m, m !! id = Some e) _ _ _ H1) in Hf; [done|].
  intros e3 b e4 Hb H3 Hb'. eapply apply_binding_protected; [exact H3|exact Hp| |exact Hb'].
  destruct (cap_at_scope r hs p b Hr (Hv p Hin) Hb) as [-> _]. intros Heq. subst p.
  apply Hrest in Hin. lia.
Qed.

End Reach.

(** ** Snapshots *)

Lemma sorted_entries_elem {V} (m : gmap string V) k v : (k, v) ∈ sorted_entries m ↔ m !! k = Some v.
Proof. rewrite (sorted_entries_perm m). apply elem_of_map_to_list. Qed.

Lemma sorted_entries_nodup {V} (m : gmap string V) : NoDup (sorted_entries m).*1.
Proof. rewrite (sorted_entries_perm m). apply NoDup_fst_map_to_list. Qed.

Lemma sorted_entries_sorted {V} (m : gmap string V) : StronglySorted key_le (sorted_entries m).
Proof. apply (StronglySorted_merge_sort _). Qed.

Lemma sorted_keys {V} (l : list (string * V)) : StronglySorted key_le l → StronglySorted String.le l.*1.
Proof.
  induction 1 as [|kv l _ IH Hall]; cbn; constructor; [done|]. rewrite Forall_fmap.
  eapply Forall_impl; [exact Hall|]. done.
Qed.

Lemma StronglySorted_filter {A} (R : A → A → Prop) (P : A → Prop) `{∀ x, Decision (P x)} l :
  StronglySorted R l → StronglySorted R (filter P l).
Proof.
  induction 1 as [|x l _ IH Hall]; [constructor|]. rewrite filter_cons. case_decide; [|done].
  constructor; [done|]. by apply Forall_filter_sub.
Qed.

(** Filtering before or after sorting is the same. *)
Lemma sorted_entries_filter {V} (P : string * V → Prop) `{∀ x, Decision (P x)} (m : gmap string V) :
  sorted_entries (filter P m) = filter P (sorted_entries m).
Proof.
  apply (StronglySorted_unique_strong key_le).
  - intros [k1 v1] [k2 v2] H1 H2 Hle Hle'. unfold key_le in *. cbn in *.
    assert (k1 = k2) as -> by (by apply (anti_symm String.le)).
    apply sorted_entries_elem in H1. rewrite map_lookup_filter_Some in H1. destruct H1 as [H1 _].
    rewrite list_elem_of_filter, sorted_entries_elem in H2. destruct H2 as [_ H2]. congruence.
  - apply sorted_entries_sorted.
  - apply StronglySorted_filter, sorted_entries_sorted.
  - rewrite !sorted_entries_perm, map_filter_alt, map_to_list_to_map; [done|].
    apply (sublist_NoDup _ (map_to_list m).*1); [apply NoDup_fst_map_to_list|]. apply fmap_sublist, sublist_filter.
Qed.

Lemma snapshot_entries_ids ps (eff : gmap string resolvedEntry) :
  map_Forall (entry_ok ps) eff → (λ e, m_ID (se_Manifest e)) <$> snapshot_entries eff = (sorted_entries eff).*1.
Proof.
  intros He. unfold snapshot_entries. rewrite <- list_fmap_compose. apply list_fmap_ext.
  intros i [k e] Hk. cbn. apply list_elem_of_lookup_2, sorted_entries_elem in Hk. by destruct (He k e Hk).
Qed.

Lemma map_Forall_filtered {V} (Q : string → V → Prop) (P : string * V → Prop) `{∀ x, Decision (P x)} (m : gmap string V) :
  map_Forall Q m → map_Forall Q (filter P m).
Proof. intros Hm k v. rewrite map_lookup_filter_Some. intros [Hk _]. by apply Hm. Qed.

(** The part of the effective set a principal may use. *)
Definition granted (principal : Principal) (eff : gmap string resolvedEntry) : gmap string resolvedEntry :=
  filter (λ kv, Allows (Grants principal) (RequiredPermissions (re_manifest kv.2)) = true) eff.

Lemma cap_resolve_ok clock r principal t perms snap :
  cap_resolve clock r principal t perms = Ok snap →
  ∃ eff digest, resolveEntriesLocked r t = Ok eff ∧ IsAncestorOf (p_Scope principal) t = true
  ∧ snapshotDigest t principal (snapshot_entries (if perms then granted principal eff else eff)) = Ok digest
  ∧ snap = mk_snapshot digest clock t (snapshot_entries (if perms then granted principal eff else eff))
             (re_provider <$> (if perms then granted principal eff else eff)) (clonePrincipal principal).
Proof.
  unfold cap_resolve. rewrite fail_if_ok, negb_false_iff, rbind_ok. intros (Ha & eff & He & H).
  apply rbind_ok in H as (digest & Hd & [=<-]). by exists eff, digest.
Qed.

Lemma granted_lookup principal eff id e :
  granted principal eff !! id = Some e ↔ eff !! id = Some e ∧ Allows (Grants principal) (RequiredPermissions (re_manifest e)) = true.
Proof. apply map_lookup_filter_Some. Qed.

Lemma snapshot_entries_elem eff x :
  x ∈ snapshot_entries eff ↔ ∃ id e, eff !! id = Some e
    ∧ x = mk_snapentry (cloneManifest (re_manifest e)) (re_scope e) (artifactRevision (re_provider e)).
Proof.
  unfold snapshot_entries. rewrite list_elem_of_fmap. split.
  - intros ([id e] & -> & H%sorted_entries_elem). by exists id, e.
  - intros (id & e & H & ->). exists (id, e). split; [done|]. by apply sorted_entries_elem.
Qed.

(** ** Filters *)

Lemma clonePrincipal_idem p : clonePrincipal (clonePrincipal p) = clonePrincipal p.
Proof.
  unfold clonePrincipal. cbn. f_equal. unfold perm_clone. rewrite map_filter_filter.
  apply map_filter_ext. cbn. tauto.
Qed.

Lemma keep_entries_providers s f id pv :
  (keep_entries s f).2 !! id = Some (Some pv) → providers s !! id = Some (Some pv)
  ∧ ∃ e, e ∈ (keep_entries s f).1 ∧ m_ID (se_Manifest e) = id.
Proof.
  cbn. intros H. apply elem_of_list_to_map_2, list_elem_of_fmap in H as (e & [=-> Hp] & Hin).
  split; [|by exists e]. by destruct (providers s !! m_ID (se_Manifest e)) as [[]|]; cbn in Hp; simplify_eq.
Qed.

Lemma list_filter_bool {A} (f : A → bool) (l : list A) : List.filter f l = filter (λ x, f x = true) l.
Proof. induction l as [|x l IH]; [done|]. rewrite filter_cons. cbn [List.filter]. rewrite IH. by destruct (f x). Qed.

Lemma Ok_inj {A} (a b : A) : Ok a = Ok b → a = b.
Proof. by intros [=]. Qed.

Lemma filter_fmap_test {A B} (f : A → B) (g : B → bool) (P : A → Prop) `{∀ x, Decision (P x)} (l : list A) :
  (∀ x, g (f x) = true ↔ P x) → filter (λ y, g y = true) (f <$> l) = f <$> filter P l.
Proof.
  intros Hg. induction l as [|x l IH]; [done|]. cbn [fmap list_fmap]. rewrite !filter_cons, IH.
  destruct (decide (P x)) as [Hx|Hx].
  - by rewrite decide_True by by apply Hg.
  - by rewrite decide_False by by rewrite Hg.
Qed.

(** [s'] offers nothing [s] does not. *)
Definition narrows (s s' : CapabilitySnapshot) : Prop :=
  capabilities s' `sublist_of` capabilities s
  ∧ (∀ id p, providers s' !! id = Some (Some p) → providers s !! id = Some (Some p))
  ∧ cs_Scope s' = cs_Scope s ∧ SubjectID (cs_principal s') = SubjectID (cs_principal s)
  ∧ (∀ perm, perm_get (Grants (cs_principal s')) perm = perm_get (Grants (cs_principal s)) perm).

Lemma rebuild_narrows clock s f : narrows s (rebuild clock s (keep_entries s f).1 (keep_entries s f).2).
Proof.
  unfold rebuild. destruct (snapshotDigest _ _ _); unfold narrows; cbn [capabilities providers cs_Scope cs_principal SubjectID clonePrincipal Grants].
  - split; [unfold keep_entries; cbn [fst]; rewrite list_filter_bool; apply sublist_filter|]. split; [|split_and!; try done; apply perm_get_clone].
    intros id p H. by apply keep_entries_providers in H as [? _].
  - split; [apply sublist_nil_l|]. split_and!; [done..|apply perm_get_clone].
Qed.

Lemma narrows_refl s : narrows s s.
Proof. by split_and!. Qed.

Lemma rebuild_kept clock s f : Forall (λ e, f (se_Manifest e) = true) (capabilities (rebuild clock s (keep_entries s f).1 (keep_entries s f).2)).
Proof.
  unfold rebuild. destruct (snapshotDigest _ _ _); [|constructor].
  unfold keep_entries. cbn [fst capabilities]. rewrite list_filter_bool. apply Forall_forall. by intros x [? _]%list_elem_of_filter.
Qed.

(** ** Redaction *)

(** A manifest that shows no secret. *)
Definition redacted (m : CapabilityManifest) : Prop :=
  (∀ k v, m_Metadata m !! k = Some v → sensitive_key k = true → v = "[redacted]")
  ∧ ∀ e k v, Execution m = Some e → Headers e !! k = Some v → v = "[redacted]" ∨ String.prefix "$credential:" v = true.

Lemma publicManifest_redacted m : redacted (publicManifest m).
Proof.
  split.
  - intros k v. cbn [m_Metadata publicManifest]. unfold redactStringMetadata. rewrite map_lookup_imap.
    intros (v0 & _ & [=Hv])%bind_Some Hs. by rewrite Hs in Hv.
  - intros e k v. cbn [Execution publicManifest cloneManifest]. destruct (Execution m) as [e0|]; [|done].
    cbn. intros [=<-]. cbn [Headers]. rewrite lookup_fmap. intros (v0 & <- & _)%fmap_Some_1 || intros (v0 & _ & ->)%fmap_Some_1.
    unfold redact_header. destruct (String.prefix "$credential:" v0) eqn:E; [by right|by left].
Qed.

(** ** Execution *)

Section Execution.
Context {X : Type}.
Context (regexp_Compile : string → option (string → bool)) (parse_json : string → option json).
Context (resolve_credential : Principal → ScopePath → string → option string).

Lemma resolveCallCredentials_all principal target refs cs :
  resolveCallCredentials resolve_credential principal target refs = Some cs →
  Forall2 (λ ref c, c.1 = ref ∧ resolve_credential principal target ref = Some c.2) refs cs.
Proof.
  revert cs. induction refs as [|ref refs IH]; intros cs H; cbn in H; [by simplify_eq|].
  destruct (resolve_credential _ _ ref) eqn:E; [|done].
  destruct (resolveCallCredentials _ _ _ refs); [|done]. injection H as <-. constructor; [done|]. by apply IH.
Qed.

(** What a request handed to a provider promises. *)
Definition request_ok (s : CapabilitySnapshot) (call : ToolCall) (p : Provider) (m : CapabilityManifest) (rq : CapabilityRequest) : Prop :=
  providers s !! tc_Name call = Some (Some p) ∧ is_ToolProvider p = true ∧ manifestInternal s (tc_Name call) = Some m
  ∧ rq_CallID rq = tc_ID call ∧ rq_CapabilityID rq = tc_Name call ∧ rq_Scope rq = cs_Scope s
  ∧ rq_Principal rq = clonePrincipal (cs_principal s)
  ∧ IdempotencyKey rq = (if Idempotent m then tc_ID call else "")
  ∧ Forall2 (λ ref c, c.1 = ref ∧ resolve_credential (cs_principal s) (cs_Scope s) ref = Some c.2) (RequiredCredentials m) (rq_Credentials rq).

Lemma prepare_ok s call p m rq :
  prepare_execution resolve_credential s call = inr (p, m, rq) → request_ok s call p m rq.
Proof.
  unfold prepare_execution. destruct (validateToolCall call); [|done].
  destruct (providers s !! tc_Name call) as [[pv|]|] eqn:Hp; [|done..].
  destruct (is_ToolProvider pv) eqn:Ht; [|done]. cbn [negb].
  destruct (manifestInternal s (tc_Name call)) as [mf|] eqn:Hm; [|done].
  destruct (resolveCallCredentials _ _ _ _) as [cs|] eqn:Hc; [|done].
  destruct (cloneCallArgs _) as [args|]; [|done]. intros H. injection H as <- <- <-.
  unfold request_ok. cbn. split_and!; try done. by apply resolveCallCredentials_all.
Qed.

Lemma prepare_refusal s call r : prepare_execution resolve_credential s call = inl r → r_OK r = false.
Proof.
  unfold prepare_execution. intros H.
  repeat (destruct_match_in H; try discriminate H); by injection H as <-.
Qed.

(** The result is within the limits the manifest declares. *)
Definition within_limits (m : CapabilityManifest) (r : CapabilityResult) : Prop :=
  str_len (r_Content r) ≤ (if MaxOutputBytes m =? 0 then DefaultMaxCapabilityOutputBytes else MaxOutputBytes m)
  ∧ validateResultMetadata (r_Metadata r) = Ok tt.

Definition output_conforms (m : CapabilityManifest) (r : CapabilityResult) : Prop :=
  OutputSchema m = ∅ ∨ ∃ output, parse_json (r_Content r) = Some output
                         ∧ ValidateJSONValue regexp_Compile (OutputSchema m) (any_of_json output) = Ok tt.

Lemma check_output_cases name m r (err : option X) res err' :
  check_output regexp_Compile parse_json name m r err = (res, err') →
  (r_OK res = false ∧ err' = None)
  ∨ (res = r ∧ err' = err ∧ within_limits m r ∧ (r_OK r = true → err = None → output_conforms m r)).
Proof.
  unfold check_output, within_limits, output_conforms. intros H.
  destruct (_ <? str_len (r_Content r)) eqn:Hlim; [injection H as <- <-; by left|].
  apply Z.ltb_ge in Hlim.
  destruct (validateResultMetadata (r_Metadata r)) as [[]|] eqn:Hmeta; [|injection H as <- <-; by left].
  destruct (_ || _ || _) eqn:Hc.
  - injection H as <- <-. right. split_and!; try done. intros Hok ->. left.
    rewrite Hok in Hc. cbn in Hc. by bool_to_prop.
  - bool_to_prop. destruct (parse_json (r_Content r)) as [o|]; [|injection H as <- <-; by left].
    destruct (ValidateJSONValue _ _ _) as [[]|] eqn:Hv; [|injection H as <- <-; by left].
    injection H as <- <-. right. split_and!; try done.
    + destruct err; [|done]. exfalso. eauto.
    + intros. right. by exists o.
Qed.

End Execution.

(** ** Properties *)

(** A protected capability is final.  If it is effective at a scope, then
    at every descendant scope whose resolution succeeds the same entry - the
    same manifest, provider and source - is effective: no binding below can
    replace it, disable it or provide it again. *)
Theorem protected_capability_is_final rc (r : CapabilityRegistry) hs (scope target : ScopePath) eff eff' id e :
  cap_reach rc (r, hs) → valid_path scope → valid_path target → IsAncestorOf scope target = true →
  resolveEntriesLocked r scope = Ok eff → eff !! id = Some e → re_protected e = true →
  resolveEntriesLocked r target = Ok eff' → eff' !! id = Some e.
Proof. apply protected_final. Qed.

(** A resolved snapshot is exactly the granted part of the effective set:
    one entry per capability the principal's grants allow, sorted by id and
    without repetition, each contributed by an ancestor of the target, each
    with its effective provider, and every entry exposed as a tool can be
    executed. *)
Theorem snapshot_is_the_granted_catalog rc clock (r : CapabilityRegistry) hs (principal : Principal) (target : ScopePath) snap :
  cap_reach rc (r, hs) → valid_path target → cap_Resolve clock r principal target = Ok snap →
  ∃ eff, resolveEntriesLocked r target = Ok eff ∧ IsAncestorOf (p_Scope principal) target = true
  ∧ NoDup ((λ x, m_ID (se_Manifest x)) <$> capabilities snap)
  ∧ StronglySorted String.le ((λ x, m_ID (se_Manifest x)) <$> capabilities snap)
  ∧ (∀ x, x ∈ capabilities snap ↔ ∃ id e, eff !! id = Some e
       ∧ Allows (Grants principal) (RequiredPermissions (re_manifest e)) = true
       ∧ x = mk_snapentry (cloneManifest (re_manifest e)) (re_scope e) (artifactRevision (re_provider e)))
  ∧ (∀ id p, providers snap !! id = Some p ↔ ∃ e, eff !! id = Some e
       ∧ Allows (Grants principal) (RequiredPermissions (re_manifest e)) = true ∧ re_provider e = p)
  ∧ ∀ x, x ∈ capabilities snap → se_Source x ∈ Prefixes target
       ∧ (is_Some (Tool (se_Manifest x)) → Authorized snap (m_ID (se_Manifest x)) = true).
Proof.
  intros Hr Ht Hs. apply cap_resolve_ok in Hs as (eff & digest & He & Ha & _ & ->). cbn [capabilities providers].
  pose proof (resolveEntriesLocked_ok _ _ _ _ _ Hr Ht He) as Hok.
  assert (Hk : map_Forall (entry_ok (Prefixes target)) (granted principal eff)) by (by apply map_Forall_filtered).
  exists eff. split; [done|]. split; [done|]. rewrite (snapshot_entries_ids _ _ Hk).
  split; [apply sorted_entries_nodup|]. split; [apply sorted_keys, sorted_entries_sorted|]. split_and!.
  - intros x. rewrite snapshot_entries_elem. setoid_rewrite granted_lookup. naive_solver.
  - intros id p. rewrite lookup_fmap, fmap_Some. setoid_rewrite granted_lookup. naive_solver.
  - intros x (id & e & Hl & ->)%snapshot_entries_elem. cbn [se_Source se_Manifest].
    destruct (Hk id e Hl) as (Hid & Hsc & _ & Htool & _). split; [done|]. cbn [Tool cloneManifest m_ID].
    intros [t Hte]. unfold Authorized, executable. cbn [providers]. rewrite Hid, lookup_fmap, Hl. cbn.
    destruct Htool as (p & -> & Hp); [by destruct (Tool (re_manifest e))|done].
Qed.

(** The two ways of obtaining a permission-filtered snapshot agree:
    resolving everything and filtering by the principal's grants afterwards
    (the path the runtime takes for a profile) gives the snapshot the public
    [Resolve] gives, digest included. *)
Theorem profile_path_agrees_with_resolve rc clock (r : CapabilityRegistry) hs (principal : Principal) (target : ScopePath) all snap :
  cap_reach rc (r, hs) → valid_path target →
  cap_resolve clock r principal target false = Ok all → cap_Resolve clock r principal target = Ok snap →
  FilterByPermissions clock all (Grants principal) = snap.
Proof.
  intros Hr Ht Hall Hs. apply cap_resolve_ok in Hall as (eff & d0 & He & Ha & _ & ->).
  apply cap_resolve_ok in Hs as (eff' & d & He' & _ & Hd & ->). rewrite He in He'. injection He' as <-.
  pose proof (resolveEntriesLocked_ok _ _ _ _ _ Hr Ht He) as Hok. cbv iota in *.
  assert (Hent : (keep_entries (mk_snapshot d0 clock target (snapshot_entries eff) (re_provider <$> eff) (clonePrincipal principal))
                   (λ m, Allows (Grants principal) (RequiredPermissions m))).1 = snapshot_entries (granted principal eff)).
  { unfold keep_entries. cbn [fst capabilities]. unfold snapshot_entries, granted. rewrite sorted_entries_filter, list_filter_bool.
    apply filter_fmap_test. by intros [k e]. }
  assert (Hpr : (keep_entries (mk_snapshot d0 clock target (snapshot_entries eff) (re_provider <$> eff) (clonePrincipal principal))
                   (λ m, Allows (Grants principal) (RequiredPermissions m))).2 = re_provider <$> granted principal eff).
  { revert Hent. unfold keep_entries. cbn [fst snd capabilities providers]. intros ->.
    assert (Hl : (λ e, (m_ID (se_Manifest e), default None ((re_provider <$> eff) !! m_ID (se_Manifest e)))) <$> snapshot_entries (granted principal eff)
                 = prod_map id re_provider <$> sorted_entries (granted principal eff)).
    { unfold snapshot_entries. rewrite <- list_fmap_compose. apply list_fmap_ext. intros i [k e] Hk. cbn.
      apply list_elem_of_lookup_2, sorted_entries_elem, granted_lookup in Hk as [Hk _].
      destruct (Hok k e Hk) as (-> & _). by rewrite lookup_fmap, Hk. }
    rewrite Hl, list_to_map_fmap. f_equal. rewrite <- (list_to_map_to_list (granted principal eff)) at 2.
    apply list_to_map_proper; [apply sorted_entries_nodup|apply sorted_entries_perm]. }
  unfold FilterByPermissions. rewrite (surjective_pairing (keep_entries _ _)), Hent, Hpr. unfold rebuild.
  cbn [cs_Scope cs_principal]. rewrite clonePrincipal_idem. unfold snapshotDigest in *. cbn [SubjectID clonePrincipal]. by rewrite Hd.
Qed.

(** Filtering a snapshot - by a profile's selection, by permissions or by
    a host predicate, even one that panics - only narrows it: its entries are a
    subsequence, its providers are a subset, its scope and identity are kept;
    after a permission filter every entry left is allowed by the permissions,
    and after a selection every entry left was selected. *)
Theorem filters_only_narrow clock (s : CapabilitySnapshot) :
  (∀ permissions, narrows s (FilterByPermissions clock s permissions)
     ∧ Forall (λ x, Allows permissions (RequiredPermissions (se_Manifest x)) = true) (capabilities (FilterByPermissions clock s permissions)))
  ∧ (∀ f, narrows s (FilterByPredicate clock s f))
  ∧ (∀ ids s', snap_Filter clock s ids = Ok s' → narrows s s' ∧ Forall (λ x, m_ID (se_Manifest x) ∈ ids) (capabilities s')).
Proof.
  split_and!.
  - intros permissions. unfold FilterByPermissions. rewrite (surjective_pairing (keep_entries _ _)).
    split; [apply rebuild_narrows|]. apply (rebuild_kept clock s (λ m, Allows permissions (RequiredPermissions m))).
  - intros [f|]; [|apply narrows_refl]. unfold FilterByPredicate. rewrite (surjective_pairing (keep_entries _ _)). apply rebuild_narrows.
  - intros ids s'. unfold snap_Filter. rewrite (surjective_pairing (keep_entries _ _)), fail_if_ok. intros [_ H].
    apply Ok_inj in H as <-. split; [apply (rebuild_narrows clock s (λ m, bool_decide (m_ID m ∈ ids)))|].
    pose proof (rebuild_kept clock s (λ m, bool_decide (m_ID m ∈ ids))) as Hk.
    eapply Forall_impl; [exact Hk|]. intros x Hx. by apply bool_decide_eq_true in Hx.
Qed.

(** No public view leaks a secret: in every manifest returned by
    [Entries], [Capabilities], [Select] and [ManifestFor], the value of each
    metadata key that names a secret is redacted and each request header is
    redacted or a credential reference. *)
Theorem public_views_are_redacted (r : CapabilityRegistry) (s : CapabilitySnapshot) :
  (∀ target l, cap_Entries r target = Ok l → Forall (λ x, redacted (se_Manifest x)) l)
  ∧ Forall (λ x, redacted (se_Manifest x)) (Capabilities_ s)
  ∧ (∀ kind contract, Forall (λ x, redacted (se_Manifest x)) (Select s kind contract))
  ∧ (∀ id m, ManifestFor s id = Some m → redacted m).
Proof.
  split_and!.
  - intros target l. unfold cap_Entries. rewrite fail_if_ok, rbind_ok. intros (_ & eff & _ & [=<-]).
    rewrite Forall_fmap. apply Forall_true. intros. apply publicManifest_redacted.
  - unfold Capabilities_. rewrite Forall_fmap. apply Forall_true. intros. apply publicManifest_redacted.
  - intros kind contract. unfold Select. apply Forall_forall. intros x (e & _ & H)%list_elem_of_omap.
    destruct (negb _); [done|]. destruct (_ && _); [done|]. injection H as <-. apply publicManifest_redacted.
  - intros id m. unfold ManifestFor. destruct (manifestInternal s id); [|done]. intros [=<-]. apply publicManifest_redacted.
Qed.

(** What the execution path of a snapshot hands back is either a refusal
    (not OK, no error) or the provider's own answer to a request made under
    the snapshot's identity and scope with every required credential resolved;
    in that case the provider is the snapshot's, the answer is within the
    declared output and metadata limits, and a successful answer satisfies the
    declared output schema. *)
Theorem execution_is_contained {X : Type} rc parse_json resolve_credential (run : Provider → CapabilityRequest → ProviderOutcome X) (s : CapabilitySnapshot) (call : ToolCall) :
  let '(res, err) := executeProtected rc parse_json resolve_credential run s call in
  (r_OK res = false ∧ err = None)
  ∨ ∃ p m rq, request_ok resolve_credential s call p m rq ∧ run p rq = Returned res err
      ∧ within_limits m res ∧ (r_OK res = true → err = None → output_conforms rc parse_json m res).
Proof.
  destruct (executeProtected _ _ _ _ _ _) as [res err] eqn:E. unfold executeProtected in E.
  destruct (prepare_execution resolve_credential s call) as [r|[[p m] rq]] eqn:Hp.
  - injection E as <- <-. left. split; [by apply prepare_refusal in Hp|done].
  - apply prepare_ok in Hp. destruct (run p rq) as [r e|] eqn:Hrun; cbn [safe_outcome] in E.
    + apply check_output_cases in E as [?|(-> & -> & Hlim & Hout)]; [by left|]. right. by exists p, m, rq.
    + apply check_output_cases in E as [?|(-> & -> & _)]; by left.
Qed.

(** ** Witnesses *)

Definition no_regexp : string → option (string → bool) := λ _, None.
Definition ex_manifest : CapabilityManifest :=
  mk_manifest "data.lookup" "1.0.0" "Lookup" "" "tool" "" ["data.read"] [] ∅ ∅ 0 0 0 true false
    (Some (mk_tool "look a record up" None)) None {[ "api_token" := "s3cret" ]}.
Definition ex_provider : Provider := mk_provider "lookup" true None.
Definition ex_binding : CapabilityBinding := mk_binding ex_tenant BindingProvide ex_manifest (Some ex_provider) true.
Definition ex_cap_registry : CapabilityRegistry :=
  match cap_Mount no_regexp ex_binding empty_registry with Ok (r, _) => r | Err _ => empty_registry end.
Definition ex_effective : gmap string resolvedEntry :=
  match resolveEntriesLocked ex_cap_registry ex_tenant with Ok e => e | Err _ => ∅ end.
Definition ex_cap_principal : Principal := mk_principal "ann" "acme" ex_tenant (NewPermissionSet ["data.read"]) ∅.

Lemma ex_cap_mount : cap_Mount no_regexp ex_binding empty_registry = Ok (ex_cap_registry, ex_handle).
Proof. vm_compute. reflexivity. Qed.
Lemma ex_cap_reach : cap_reach no_regexp (ex_cap_registry, [ex_handle]).
Proof.
  apply (cap_mount no_regexp empty_registry [] ex_binding); [constructor|apply ex_tenant_valid|apply ex_cap_mount|].
  vm_compute. reflexivity.
Qed.

Lemma protected_capability_is_final_witness :
  ∃ e eff, ex_effective !! "data.lookup" = Some e ∧ re_scope e = ex_tenant
  ∧ resolveEntriesLocked ex_cap_registry ex_user = Ok eff ∧ eff !! "data.lookup" = Some e.
Proof.
  eexists _, _. split; [vm_compute; reflexivity|]. split; [reflexivity|]. split; [vm_compute; reflexivity|].
  eapply (protected_capability_is_final no_regexp ex_cap_registry [ex_handle] ex_tenant ex_user ex_effective);
    [exact ex_cap_reach|exact ex_tenant_valid|exact ex_user_valid|vm_compute; reflexivity..].
Defined.

Lemma snapshot_is_the_granted_catalog_witness :
  ∃ snap, cap_Resolve "2024-01-01T00:00:00Z" ex_cap_registry ex_cap_principal ex_user = Ok snap
  ∧ capabilities snap ≠ [] ∧ NoDup ((λ x, m_ID (se_Manifest x)) <$> capabilities snap).
Proof.
  eexists. split; [vm_compute; reflexivity|]. split; [discriminate|].
  edestruct (snapshot_is_the_granted_catalog no_regexp "2024-01-01T00:00:00Z" ex_cap_registry [ex_handle] ex_cap_principal ex_user)
    as (eff & _ & _ & H & _); [exact ex_cap_reach|exact ex_user_valid|vm_compute; reflexivity|]. exact H.
Defined.

Lemma profile_path_agrees_with_resolve_witness :
  ∃ all snap, cap_resolve "2024-01-01T00:00:00Z" ex_cap_registry ex_cap_principal ex_user false = Ok all
  ∧ cap_Resolve "2024-01-01T00:00:00Z" ex_cap_registry ex_cap_principal ex_user = Ok snap
  ∧ FilterByPermissions "2024-01-01T00:00:00Z" all (Grants ex_cap_principal) = snap.
Proof.
  eexists _, _. split; [vm_compute; reflexivity|]. split; [vm_compute; reflexivity|].
  apply (profile_path_agrees_with_resolve no_regexp "2024-01-01T00:00:00Z" ex_cap_registry [ex_handle] ex_cap_principal ex_user);
    [exact ex_cap_reach|exact ex_user_valid|vm_compute; reflexivity..].
Defined.
