(* ===== verification/Admission.v ===== *)
(** * Theorems on the guard funnel: admission, budgets and termination

    Traces of [Guard.Execute]: [advance a tr a'] collects what a part of a run
    may do to the agent's books while performing [tr]; it holds of every step of
    the funnel, composes, and so holds of whole executions with nested calls. *)
From S2P Require Import Prelude Prog GoString Json Schema Scope Principal Policy Payload Events Session Capability CapabilityClaims Journal Guard.
From stdpp Require Import gmap strings list sorting.
From Stdlib Require Import ZArith Lia.
Open Scope Z_scope.

Lemma resume_remove (x : string) (X : gset string) : x ∈ X → Z.of_nat (size (X ∖ {[x]})) + 1 = Z.of_nat (size X).
Proof. intros H. rewrite size_difference, size_singleton by set_solver. pose proof (subseteq_size {[x]} X ltac:(set_solver)) as Hs. rewrite size_singleton in Hs. lia. Qed.

Section Admission.
Context {J : Type → Type}.

(** ** Provider starts in a trace *)

Definition provider_start (ev : event (agentE J)) : option (Provider * CapabilityRequest * option ToolInvocation * Z) :=
  match ev with Ev (StartProvider p rq accepted remaining) _ => Some (p, rq, accepted, remaining) | _ => None end.

Definition quiet (tr : list (event (agentE J))) : Prop := Forall (λ ev, provider_start ev = None) tr.

Definition start_name (ev : event (agentE J)) : option string := (λ '(_, rq, _, _), rq_CapabilityID rq) <$> provider_start ev.

(** The number of provider starts, of all and of one capability. *)
Definition all_starts (tr : list (event (agentE J))) : Z := Z.of_nat (length (filter (λ ev, is_Some (provider_start ev)) tr)).
Definition starts_for (name : string) (tr : list (event (agentE J))) : Z := Z.of_nat (length (filter (λ ev, start_name ev = Some name) tr)).

Lemma quiet_app tr1 tr2 : quiet (tr1 ++ tr2) ↔ quiet tr1 ∧ quiet tr2.
Proof. apply Forall_app. Qed.
Lemma quiet_nil : quiet [].
Proof. constructor. Qed.
Lemma quiet_one ev : provider_start ev = None → quiet [ev].
Proof. repeat constructor. done. Qed.

Lemma all_starts_app tr1 tr2 : all_starts (tr1 ++ tr2) = all_starts tr1 + all_starts tr2.
Proof. unfold all_starts. rewrite filter_app, length_app. lia. Qed.
Lemma starts_for_app name tr1 tr2 : starts_for name (tr1 ++ tr2) = starts_for name tr1 + starts_for name tr2.
Proof. unfold starts_for. rewrite filter_app, length_app. lia. Qed.

Lemma quiet_starts tr : quiet tr → all_starts tr = 0.
Proof.
  unfold all_starts. induction 1 as [|ev tr Hev _ IH]; [done|]. rewrite filter_cons, decide_False; [done|]. rewrite Hev. by intros [].
Qed.
Lemma quiet_starts_for name tr : quiet tr → starts_for name tr = 0.
Proof.
  unfold starts_for. induction 1 as [|ev tr Hev _ IH]; [done|]. rewrite filter_cons, decide_False; [done|]. unfold start_name. by rewrite Hev.
Qed.
Lemma one_start ev name : 0 ≤ all_starts [ev] ≤ 1 ∧ 0 ≤ starts_for name [ev] ≤ 1.
Proof. unfold all_starts, starts_for. rewrite !filter_cons. repeat case_decide; cbn; lia. Qed.
Lemma other_start ev name : start_name ev ≠ Some name → starts_for name [ev] = 0.
Proof. intros H. unfold starts_for. by rewrite filter_cons, decide_False. Qed.

(** ** Admission *)

Context `{!ToolInvocationJournal J}.
Context (regexp_Compile : string → option (string → bool)) (opts : GuardOptions).

Definition call_schema (m : CapabilityManifest) : gmap string json :=
  match Tool m with Some tool => default (InputSchema m) (Parameters tool) | None => InputSchema m end.

(** The approver said yes to this call. *)
Definition approved (tr : list (event (agentE J))) (c : ToolCall) : Prop :=
  ∃ q, aq_ToolCall q = c ∧
    (Ev (Approve q) (Ok ApprovalApproved) ∈ tr ∨ ∃ r, Ev (RequestApproval q) (Ok r) ∈ tr ∧ rs_Decision r = ApprovalApproved).

(** These events are the journal's own [BeginToolInvocation] of this identity,
    and it decided that the provider may execute: for the first time, or once
    more when the call is idempotent. *)
Definition accepts (i : ToolInvocation) (begin : list (event (agentE J))) : Prop :=
  ∃ record decision, runs (store (BeginToolInvocation i)) begin (Ok (record, decision))
  ∧ (decision = ToolInvocationExecuteNew ∨ decision = ToolInvocationExecuteRetry ∧ ti_Idempotent i = true).

(** Every gate the configuration asks for was passed by the call, the journal
    last. *)
Definition admitted (sid rid : string) (tr : list (event (agentE J))) (c : ToolCall) (accepted : option ToolInvocation) : Prop :=
  ∃ m, ManifestFor (g_Tools opts) (tc_Name c) = Some m
  ∧ ValidateArgs regexp_Compile (call_schema m) (tc_Args c) = Ok tt
  ∧ (g_Hooks opts = true → ∃ info, Ev (OnBeforeTool info c) None ∈ tr)
  ∧ (RequiresApproval m = true → approved tr c)
  ∧ (g_ToolJournal opts = true → ∃ i gates begin, accepted = Some i ∧ journal_key i = (sid, rid, tc_ID c)
       ∧ ti_CapabilityID i = tc_Name c ∧ ti_Idempotent i = Idempotent m ∧ tr = gates ++ begin ∧ accepts i begin).

(** Every provider start is immediately preceded by its own admission. *)
Definition gated (sid rid : string) (tr : list (event (agentE J))) : Prop :=
  ∀ tr1 ev tr2 p rq accepted remaining, tr = tr1 ++ ev :: tr2 → provider_start ev = Some (p, rq, accepted, remaining) →
  ∃ tr0 mid c, tr1 = tr0 ++ mid ∧ quiet mid ∧ rq_CallID rq = tc_ID c ∧ rq_CapabilityID rq = tc_Name c ∧ admitted sid rid mid c accepted.

Lemma gated_app sid rid t1 t2 : gated sid rid t1 → gated sid rid t2 → gated sid rid (t1 ++ t2).
Proof.
  intros G1 G2 tr1 ev tr2 p rq accepted remaining Heq Hev.
  apply app_eq_inv in Heq as [(k & -> & Hk)|(k & -> & Hk)].
  - destruct k as [|ev' k]; cbn in Hk.
    + subst t2. destruct (G2 [] _ _ _ _ _ _ eq_refl Hev) as (tr0 & mid & c & H0 & ?). symmetry in H0. apply app_nil in H0 as [-> ->].
      exists tr1, [], c. by rewrite app_nil_r.
    + injection Hk as <- ->. eapply G1; [done|done].
  - destruct (G2 _ _ _ _ _ _ _ Hk Hev) as (tr0 & mid & c & -> & H). exists (t1 ++ tr0), mid, c. by rewrite app_assoc.
Qed.

Lemma gated_quiet sid rid tr : quiet tr → gated sid rid tr.
Proof. intros Hq tr1 ev tr2 p rq accepted remaining -> Hev. apply quiet_app in Hq as [_ Hq]. inversion Hq. congruence. Qed.

Lemma gated_start sid rid mid ev p rq accepted remaining c :
  quiet mid → provider_start ev = Some (p, rq, accepted, remaining) → rq_CallID rq = tc_ID c → rq_CapabilityID rq = tc_Name c →
  admitted sid rid mid c accepted → gated sid rid (mid ++ [ev]).
Proof.
  intros Hq Hev H1 H2 Hadm tr1 ev' tr2 p' rq' accepted' remaining' Heq Hev'.
  apply app_eq_inv in Heq as [(k & -> & Hk)|(k & -> & Hk)].
  - destruct k as [|x k]; cbn in Hk.
    + injection Hk as -> _. rewrite Hev in Hev'. injection Hev' as <- <- <- <-. rewrite app_nil_r in *. by exists [], tr1, c.
    + injection Hk as <- _. apply quiet_app in Hq as [_ Hq]. inversion Hq. congruence.
  - destruct k as [|x k]; cbn in Hk; [|injection Hk as _ Hk; by apply app_cons_not_nil in Hk].
    injection Hk as -> _. rewrite Hev in Hev'. injection Hev' as <- <- <- <-. rewrite app_nil_r. by exists [], mid, c.
Qed.

(** ** The books *)

(** Nothing the budgets read has changed. *)
Record idle (a a' : agentState) : Prop := {
  id_run : ag_runID a' = ag_runID a; id_sid : s_id (ag_session a') = s_id (ag_session a);
  id_calls : ag_toolCalls a' = ag_toolCalls a; id_counts : ag_counts a' = ag_counts a; id_resume : ag_resumeCallIDs a' = ag_resumeCallIDs a }.

Record advance (a : agentState) (tr : list (event (agentE J))) (a' : agentState) : Prop := {
  ad_run : ag_runID a' = ag_runID a; ad_sid : s_id (ag_session a') = s_id (ag_session a);
  ad_gated : gated (s_id (ag_session a)) (ag_runID a) tr;
  ad_calls : ag_toolCalls a ≤ ag_toolCalls a' ≤ Z.max (ag_toolCalls a) (g_MaxToolCalls opts);
  ad_resume : ag_resumeCallIDs a' ⊆ ag_resumeCallIDs a;
  ad_paid : all_starts tr + Z.of_nat (size (ag_resumeCallIDs a')) ≤ (ag_toolCalls a' - ag_toolCalls a) + Z.of_nat (size (ag_resumeCallIDs a));
  ad_counts name : starts_for name tr + Z.of_nat (size (ag_resumeCallIDs a')) ≤ (count_of a' name - count_of a name) + Z.of_nat (size (ag_resumeCallIDs a));
  ad_budget name : 0 < BudgetFor (g_Tools opts) name → count_of a' name ≤ Z.max (count_of a name) (BudgetFor (g_Tools opts) name) }.

Lemma idle_refl a : idle a a.
Proof. done. Qed.
Lemma idle_trans a b c : idle a b → idle b c → idle a c.
Proof. intros [] []. split; congruence. Qed.
Lemma idle_session s a : s_id s = s_id (ag_session a) → idle a (set_session s a).
Proof. done. Qed.
Lemma idle_resolution r a : idle a (add_resolution r a).
Proof. done. Qed.

Lemma idle_advance a tr a' : idle a a' → quiet tr → advance a tr a'.
Proof.
  intros [] Hq. split; try done; try lia.
  - by apply gated_quiet.
  - by rewrite id_resume0.
  - rewrite quiet_starts, id_resume0, id_calls0 by done. lia.
  - intros name. unfold count_of. rewrite quiet_starts_for, id_resume0, id_counts0 by done. lia.
  - intros name _. unfold count_of. rewrite id_counts0. lia.
Qed.

Lemma advance_trans a tr1 b tr2 c : advance a tr1 b → advance b tr2 c → advance a (tr1 ++ tr2) c.
Proof.
  intros [] []. split; try congruence; try lia.
  - apply gated_app; [done|]. by rewrite <- ad_run0, <- ad_sid0.
  - etrans; eassumption.
  - rewrite all_starts_app. lia.
  - intros name. rewrite starts_for_app. specialize (ad_counts0 name). specialize (ad_counts1 name). lia.
  - intros name H. specialize (ad_budget0 name H). specialize (ad_budget1 name H). lia.
Qed.

(** ** Steps of the funnel *)

Lemma commit_entries_id clock ps : ∀ s, s_id (foldl (commit_entry clock) s ps) = s_id s.
Proof.
  induction ps as [|p ps IH]; intros s; [done|]. cbn [foldl]. rewrite IH. unfold commit_entry.
  by repeat (destruct_match_goal; cbn [s_id]).
Qed.

Lemma emit_quiet events : ∀ first tr r, runs (emit_all events first) tr r → quiet tr.
Proof.
  induction events as [|e events IH]; intros first tr r H; cbn in H; [destruct H as [-> _]; constructor|].
  destruct H as (ok & tr' & -> & H). constructor; [done|]. by eapply IH.
Qed.

Lemma append_idle a entries tr r a' : runs (agent_appendBatch (J := J) opts a entries) tr (r, a') → quiet tr ∧ idle a a'.
Proof.
  unfold agent_appendBatch. cbn. intros (clock & tr' & -> & H).
  destruct (appendBatch clock (ag_session a) entries) as [[s events]|] eqn:E.
  - assert (s_id s = s_id (ag_session a)) as Hs.
    { unfold appendBatch in E. apply fail_if_ok in E as [_ E]. apply rbind_ok in E as (ps & _ & E). apply rbind_ok in E as (u & _ & E).
      injection E as <- _. apply commit_entries_id. }
    destruct (g_OnEvent opts).
    + apply runs_bind in H as (tr1 & tr2 & first & -> & H1 & [-> [= -> ->]]). apply emit_quiet in H1.
      rewrite app_nil_r. split; [by constructor|by apply idle_session].
    + destruct H as [-> [= -> ->]]. split; [by apply quiet_one|by apply idle_session].
  - destruct H as [-> [= -> ->]]. split; [by apply quiet_one|done].
Qed.

Lemma approval_idle a info call m tr r ok err a' :
  runs (requestApproval (J := J) opts a info call m) tr ((r, ok, err), a') →
  quiet tr ∧ idle a a' ∧ (ok = true → approved tr call).
Proof.
  unfold requestApproval. intros H. destruct (g_Approver opts).
  - destruct H as [-> [= -> -> -> ->]]. by split_and!; [constructor| |].
  - destruct H as (answer & tr' & -> & H). cbn in H. split_and!.
    + destruct answer as [d|]; [repeat case_bool_decide|]; destruct H as [-> _]; by apply quiet_one.
    + destruct answer as [d|]; [repeat case_bool_decide|]; by destruct H as [-> [= -> -> -> ->]].
    + intros ->. destruct answer as [d|]; [repeat case_bool_decide; subst|]; destruct H as [-> [=]]; try done.
      eexists. split; [|left; by apply list_elem_of_here]. done.
  - destruct H as (answer & tr' & -> & H). cbn in H. split_and!.
    + repeat (destruct_match_in H; cbn in H); destruct H as [-> _]; by apply quiet_one.
    + repeat (destruct_match_in H; cbn in H); by destruct H as [-> [= -> -> -> ->]].
    + intros ->. repeat (destruct_match_in H; cbn in H); destruct H as [-> [=]]; try done. bool_to_prop.
      eexists. split; [|right; eexists; split; [by apply list_elem_of_here|done]]. done.
Qed.

Lemma gates_idle a info call m resuming tr g a' :
  runs (manifest_gates (J := J) opts a info call m resuming) tr (g, a') →
  quiet tr ∧ idle a a'
  ∧ (g = inl tt → (RequiresApproval m = true → approved tr call)
       ∧ (resuming = false → 0 < BudgetFor (g_Tools opts) (tc_Name call) → count_of a (tc_Name call) < BudgetFor (g_Tools opts) (tc_Name call))).
Proof.
  unfold manifest_gates. intros H. destruct (_ && _ && _) eqn:Elimit.
  { destruct H as [-> [= -> ->]]. by split_and!; [constructor| |]. }
  assert (resuming = false → 0 < BudgetFor (g_Tools opts) (tc_Name call) → count_of a (tc_Name call) < BudgetFor (g_Tools opts) (tc_Name call)) as Hlimit.
  { intros -> Hpos. cbn in Elimit. apply Z.ltb_lt in Hpos. rewrite Hpos in Elimit. cbn in Elimit. bool_to_prop. lia. }
  apply runs_bind in H as (tr1 & tr2 & allowed & -> & H1 & H).
  assert (quiet tr1) as Hq1.
  { destruct (negb resuming && g_RateLimiter opts); [apply runs_ask in H1 as ->; by apply quiet_one|apply runs_ret in H1 as [-> _]; constructor]. }
  destruct allowed; cbn in H.
  2:{ destruct H as [-> [= -> ->]]. rewrite app_nil_r. by split_and!. }
  destruct (RequiresApproval m) eqn:Ereq.
  2:{ destruct H as [-> [= -> ->]]. rewrite app_nil_r. by split_and!. }
  apply runs_bind in H as (tr3 & tr4 & [[[r ok] err] a1] & -> & H2 & H). apply approval_idle in H2 as (Hq2 & Hidle & Happ).
  destruct err as [e|]; [destruct H as [-> [= -> ->]]|destruct ok; destruct H as [-> [= -> ->]]]; rewrite app_nil_r.
  all: split; [by apply quiet_app|]; split; [done|]; intros [=].
  split; [|done]. intros _. destruct (Happ eq_refl) as (q & ? & Hor). exists q. split; [done|].
  destruct Hor as [?|(x & ? & ?)]; [left|right; exists x]; by rewrite !elem_of_app; auto.
Qed.

Lemma store_quiet {A} (p : prog J A) : ∀ tr r, runs (store p) tr r → quiet tr.
Proof.
  induction p as [a|B e f IH]; intros tr r H; cbn in H; [destruct H as [-> _]; constructor|].
  destruct H as (b & tr' & -> & H). constructor; [done|]. by eapply IH.
Qed.

Context (parse_json : string → option json) (resolve_credential : Principal → ScopePath → string → option string).

Lemma after_quiet info call r tr u : runs (after_tool (J := J) opts info call r) tr u → quiet tr.
Proof. unfold after_tool. destruct (g_Hooks opts); intros H; open_runs H; [subst; by apply quiet_one|destruct H as [-> _]; constructor]. Qed.

Lemma after_ret {A} info call r (x : A) tr y : runs (let* _ := after_tool (J := J) opts info call r in Ret x) tr y → quiet tr ∧ y = x.
Proof. intros H. open_runs H. destruct H as (tr1 & tr2 & u & -> & H1 & [-> ->]). apply after_quiet in H1. by rewrite app_nil_r. Qed.

Lemma NewToolInvocation_ok info call idempotent i :
  NewToolInvocation info call idempotent = Ok i →
  journal_key i = (in_SessionID info, in_RunID info, tc_ID call) ∧ ti_CapabilityID i = tc_Name call ∧ ti_Idempotent i = idempotent.
Proof. unfold NewToolInvocation. intros H. apply rbind_ok in H as (u & _ & H). by injection H as <-. Qed.

Lemma journal_begin_quiet info call manifest tr d :
  runs (journal_begin (J := J) regexp_Compile parse_json info call manifest) tr d →
  quiet tr ∧ (∀ i, d = inr i →
    NewToolInvocation info call (match manifest with Some m => Idempotent m | None => false end) = Ok i ∧ accepts i tr).
Proof.
  unfold journal_begin. intros H. destruct (NewToolInvocation _ _ _) as [i|].
  2:{ destruct H as [-> ->]. split; [constructor|done]. }
  open_runs H. destruct H as (tr1 & tr2 & answer & -> & H1 & H). pose proof (store_quiet _ _ _ H1) as Hq.
  destruct answer as [[record dec]|e].
  - destruct dec; try (destruct (ti_Idempotent i) eqn:Ei); destruct H as [-> ->]; rewrite app_nil_r;
      (split; [done|]); intros ? [= <-]; (split; [done|]); eexists record, _; (split; [exact H1|]); auto.
  - open_runs H. destruct H as (tr3 & tr4 & c & -> & H2 & H). open_runs H2. subst tr3.
    destruct c; destruct H as [-> ->]; (split; [apply quiet_app; split; [done|by apply quiet_one]|done]).
Qed.

Lemma journal_end_quiet call manifest i o tr r :
  runs (journal_end (J := J) regexp_Compile parse_json call manifest i o) tr r → quiet tr.
Proof.
  unfold journal_end. destruct o as [res [e|]]; intros H.
  - destruct (IsApprovalPending _); [destruct H as [-> _]; constructor|].
    open_runs H. destruct H as (tr1 & tr2 & u & -> & H1 & [-> _]). apply store_quiet in H1. by rewrite app_nil_r.
  - open_runs H. destruct H as (tr1 & tr2 & u & -> & H1 & H). apply store_quiet in H1. apply quiet_app. split; [done|].
    destruct u; [destruct H as [-> _]; constructor|].
    open_runs H. destruct H as (tr3 & tr4 & u & -> & H2 & [-> _]). apply store_quiet in H2. by rewrite app_nil_r.
Qed.

(** *** With a nested invoker that keeps the books *)

Section Nested.
Context (invoke : agentState → ToolCall → prog (agentE J) (tool_outcome * agentState)).
Hypothesis invoke_ok : ∀ a c tr o a', runs (invoke a c) tr (o, a') → advance a tr a'.

Lemma run_provider_advance t : ∀ a tr o a', runs (run_provider invoke t a) tr (o, a') → advance a tr a'.
Proof.
  induction t as [o|c f IH]; intros a tr o' a' H; cbn in H.
  - destruct H as [-> [= -> ->]]. apply idle_advance; [done|constructor].
  - open_runs H. destruct H as (tr1 & tr2 & [x a1] & -> & H1 & H). eapply advance_trans; [by eapply invoke_ok|by eapply IH].
Qed.

Lemma inner_advance a call accepted tr o a' :
  runs (execute_inner regexp_Compile parse_json resolve_credential opts invoke a call accepted) tr (o, a') →
  (tr = [] ∧ a' = a)
  ∨ ∃ ev rest p m rq remaining, tr = ev :: rest ∧ provider_start ev = Some (p, rq, accepted, remaining)
      ∧ prepare_execution resolve_credential (g_Tools opts) call = inr (p, m, rq) ∧ advance a rest a'.
Proof.
  unfold execute_inner. intros H. destruct (prepare_execution _ _ _) as [r|[[p m] rq]].
  { destruct H as [-> [= -> ->]]. by left. }
  right. destruct H as (tree & tr' & -> & H). fold (@pbind (agentE J)) in H. cbn in H. open_runs H.
  destruct H as (tr1 & tr2 & [out a1] & -> & H1 & H). destruct (safe_outcome out) as [r err]. destruct H as [-> [= -> ->]].
  rewrite app_nil_r. eexists (Ev _ _), tr1, p, m, rq, _. split_and!; [done|done|done|]. by eapply run_provider_advance.
Qed.

(** What the gates have established when the provider may run: the journal is
    still to be asked. *)
Definition cleared (mid : list (event (agentE J))) (call : ToolCall) (m : CapabilityManifest) : Prop :=
  ValidateArgs regexp_Compile (call_schema m) (tc_Args call) = Ok tt
  ∧ (g_Hooks opts = true → ∃ info, Ev (OnBeforeTool info call) None ∈ mid)
  ∧ (RequiresApproval m = true → approved mid call).

Lemma prepare_manifest call p m rq :
  prepare_execution resolve_credential (g_Tools opts) call = inr (p, m, rq) →
  ManifestFor (g_Tools opts) (tc_Name call) = Some (publicManifest m) ∧ rq_CallID rq = tc_ID call ∧ rq_CapabilityID rq = tc_Name call.
Proof. intros H. apply prepare_ok in H as (_ & _ & Hm & ? & ? & _). unfold ManifestFor. by rewrite Hm. Qed.

Lemma approved_app mid t c : approved mid c → approved (mid ++ t) c.
Proof.
  intros (q & ? & Hor). exists q. split; [done|].
  destruct Hor as [?|(r & ? & ?)]; [left|right; exists r; split; [|done]]; apply elem_of_app; by left.
Qed.

Lemma cleared_app mid t call m : cleared mid call m → cleared (mid ++ t) call m.
Proof.
  intros (? & Hh & Ha). split_and!; [done| |].
  - intros E. destruct (Hh E) as [info ?]. exists info. apply elem_of_app. by left.
  - intros E. by apply approved_app, Ha.
Qed.

(** A call's trace: nothing starts, or its own gated start comes first and the
    rest keeps the books. *)
Definition headed (a : agentState) (call : ToolCall) (tr : list (event (agentE J))) (a' : agentState) : Prop :=
  ∃ head rest, tr = head ++ rest ∧ advance a rest a' ∧
    (quiet head ∨ (gated (s_id (ag_session a)) (ag_runID a) head ∧ ∃ pre x, head = pre ++ [x] ∧ quiet pre ∧ start_name x = Some (tc_Name call))).

Lemma headed_quiet a call tr : quiet tr → headed a call tr a.
Proof. intros H. exists tr, []. rewrite app_nil_r. split; [done|]. split; [|by left]. by apply idle_advance; [|constructor]. Qed.

Lemma headed_post a call tr a' t : headed a call tr a' → quiet t → headed a call (tr ++ t) a'.
Proof.
  intros (head & rest & -> & Hadv & Hh) Hq. exists head, (rest ++ t). rewrite app_assoc. split; [done|]. split; [|done].
  eapply advance_trans; [done|]. by apply idle_advance.
Qed.

Lemma inner_headed a call accepted mid tr o a' :
  quiet mid → (∀ m, ManifestFor (g_Tools opts) (tc_Name call) = Some m → admitted (s_id (ag_session a)) (ag_runID a) mid call accepted) →
  runs (execute_inner regexp_Compile parse_json resolve_credential opts invoke a call accepted) tr (o, a') → headed a call (mid ++ tr) a'.
Proof.
  intros Hq Hadm H. apply inner_advance in H as [[-> ->]|(ev & rest & p & m & rq & remaining & -> & Hev & Hp & Hadv)].
  { rewrite app_nil_r. by apply headed_quiet. }
  apply prepare_manifest in Hp as (Hm & H1 & H2). exists (mid ++ [ev]), rest. split; [by rewrite <- app_assoc|]. split; [done|]. right.
  split; [by eapply gated_start; [|exact Hev|..]; eauto|]. exists mid, ev. unfold start_name. rewrite Hev. cbn. by rewrite H2.
Qed.

Lemma admitted_headed a info call tr mid o a' :
  quiet mid → in_SessionID info = s_id (ag_session a) → in_RunID info = ag_runID a →
  (∀ m, ManifestFor (g_Tools opts) (tc_Name call) = Some m → cleared mid call m) →
  runs (execute_admitted regexp_Compile parse_json resolve_credential opts invoke a info call (ManifestFor (g_Tools opts) (tc_Name call))) tr (o, a') →
  headed a call (mid ++ tr) a'.
Proof.
  intros Hq Hsid Hrid Hclear H. unfold execute_admitted in H. destruct (g_ToolJournal opts) eqn:Ej.
  - open_runs H. destruct H as (tr1 & tr2 & d & -> & H1 & H). apply journal_begin_quiet in H1 as [Hq1 Hd]. rewrite app_assoc.
    assert (quiet (mid ++ tr1)) as Hqm by (by apply quiet_app). destruct d as [[r|e]|i].
    + apply after_ret in H as [Hq2 [= -> ->]]. by apply headed_post; [apply headed_quiet|].
    + destruct H as [-> [= -> ->]]. rewrite app_nil_r. by apply headed_quiet.
    + destruct (Hd i eq_refl) as [Hnew Hacc]. apply NewToolInvocation_ok in Hnew as (Hkey & Hcap & Hidem). rewrite Hsid, Hrid in Hkey.
      open_runs H. destruct H as (tr3 & tr4 & [o1 a1] & -> & H2 & H). rewrite app_assoc. apply (inner_headed _ _ _ (mid ++ tr1)) in H2; [|done|].
      * open_runs H. destruct H as (tr5 & tr6 & rec & -> & H3 & H). apply journal_end_quiet in H3. rewrite app_assoc.
        destruct rec as [o2|]; [apply after_ret in H as [Hq2 [= -> ->]]|destruct H as [-> [= -> ->]]; rewrite app_nil_r]; eauto using headed_post.
      * intros m Hm. destruct (cleared_app _ tr1 _ _ (Hclear m Hm)) as (? & ? & ?). exists m. split_and!; try done.
        intros _. exists i, mid, tr1. by rewrite Hm in Hidem.
  - open_runs H. destruct H as (tr1 & tr2 & [o1 a1] & -> & H1 & H). rewrite app_assoc. apply (inner_headed _ _ _ mid) in H1; [|done|].
    + apply after_ret in H as [Hq2 [= -> ->]]. by apply headed_post.
    + intros m Hm. destruct (Hclear m Hm) as (? & ? & ?). exists m. split_and!; try done. by rewrite Ej.
Qed.

(** The books when a call is admitted. *)
Definition charged (a a1 : agentState) (call : ToolCall) : Prop :=
  ag_runID a1 = ag_runID a ∧ s_id (ag_session a1) = s_id (ag_session a) ∧
  ((ag_toolCalls a < g_MaxToolCalls opts ∧ ag_toolCalls a1 = ag_toolCalls a + 1 ∧ ag_resumeCallIDs a1 = ag_resumeCallIDs a
     ∧ ag_counts a1 = <[tc_Name call := count_of a (tc_Name call) + 1]> (ag_counts a)
     ∧ (0 < BudgetFor (g_Tools opts) (tc_Name call) → count_of a (tc_Name call) < BudgetFor (g_Tools opts) (tc_Name call)))
   ∨ (tc_ID call ∈ ag_resumeCallIDs a ∧ ag_toolCalls a1 = ag_toolCalls a ∧ ag_counts a1 = ag_counts a
     ∧ ag_resumeCallIDs a1 = ag_resumeCallIDs a ∖ {[tc_ID call]})).

Lemma count_of_insert (a a1 : agentState) n z name :
  ag_counts a1 = <[n := z]> (ag_counts a) → count_of a1 name = if decide (n = name) then z else count_of a name.
Proof. intros H. unfold count_of. rewrite H. case_decide; [subst; by rewrite lookup_insert_eq|by rewrite lookup_insert_ne]. Qed.

Lemma charged_advance a a1 call tr a' : charged a a1 call → headed a1 call tr a' → advance a tr a'.
Proof.
  intros (Hrun & Hsid & Hbooks) (head & rest & -> & Hadv & Hhead). eapply advance_trans; [|exact Hadv].
  assert (0 ≤ all_starts head ≤ 1 ∧ (∀ name, 0 ≤ starts_for name head ≤ 1 ∧ (name ≠ tc_Name call → starts_for name head = 0)) ∧ gated (s_id (ag_session a)) (ag_runID a) head)
    as (Hall & Hof & Hg).
  { destruct Hhead as [Hq|[Hg (pre & x & -> & Hq & Hx)]].
    - rewrite quiet_starts by done. split_and!; [lia..| |by apply gated_quiet]. intros name. rewrite quiet_starts_for by done. split; [lia|done].
    - rewrite Hrun, Hsid in Hg. split_and!; [rewrite all_starts_app, quiet_starts by done; apply (one_start x "")..| |done].
      intros name. rewrite starts_for_app, quiet_starts_for by done. split; [apply (one_start x name)|]. intros Hn. apply other_start. congruence. }
  destruct Hbooks as [(Hmax & Hc & Hr & Hn & Hb)|(Hin & Hc & Hn & Hr)].
  - split; try done; rewrite ?Hr, ?Hc; try done; try lia.
    + intros name. rewrite (count_of_insert a a1 _ _ name Hn). destruct (Hof name) as [? Hz]. case_decide; [subst name; lia|]. rewrite Hz by congruence. lia.
    + intros name Hpos. rewrite (count_of_insert a a1 _ _ name Hn). case_decide; [subst name; specialize (Hb Hpos)|]; lia.
  - pose proof (resume_remove _ _ Hin) as Hs. split; try done; rewrite ?Hr, ?Hc; try lia.
    + apply subseteq_difference_l. done.
    + intros name. unfold count_of. rewrite Hn. destruct (Hof name). lia.
    + intros name _. unfold count_of. rewrite Hn. lia.
Qed.

(** Entering the funnel: one call of the budget is used, or one resumed call. *)
Definition debit (a a1 : agentState) (call : ToolCall) : Prop :=
  ag_runID a1 = ag_runID a ∧ s_id (ag_session a1) = s_id (ag_session a) ∧ ag_counts a1 = ag_counts a ∧
  ((tc_ID call ∉ ag_resumeCallIDs a ∧ ag_toolCalls a < g_MaxToolCalls opts ∧ ag_toolCalls a1 = ag_toolCalls a + 1 ∧ ag_resumeCallIDs a1 = ag_resumeCallIDs a)
   ∨ (tc_ID call ∈ ag_resumeCallIDs a ∧ ag_toolCalls a1 = ag_toolCalls a ∧ ag_resumeCallIDs a1 = ag_resumeCallIDs a ∖ {[tc_ID call]})).

Lemma debit_advance a a1 a2 call tr : debit a a1 call → idle a1 a2 → quiet tr → advance a tr a2.
Proof.
  intros (Hrun & Hsid & Hn & Hbooks) Hidle Hq. rewrite <- (app_nil_l tr). apply advance_trans with a1; [|by apply idle_advance].
  assert (gated (s_id (ag_session a)) (ag_runID a) []) as Hg by (apply gated_quiet; constructor).
  destruct Hbooks as [(_ & Hmax & Hc & Hr)|(Hin & Hc & Hr)].
  - split; try done; rewrite ?Hr, ?Hc; try done; intros; unfold count_of; rewrite ?Hn, ?(quiet_starts []), ?quiet_starts_for by constructor; lia.
  - pose proof (resume_remove _ _ Hin) as Hs.
    split; try done; rewrite ?Hr, ?Hc; try (by apply subseteq_difference_l); intros; unfold count_of;
      rewrite ?Hn, ?(quiet_starts []), ?quiet_starts_for by constructor; lia.
Qed.

(** The gates of a call, when there is a manifest and when there is none. *)
Lemma gate_cases a info call resuming tr gate a' :
  runs (match ManifestFor (g_Tools opts) (tc_Name call) with
        | Some m => manifest_gates (J := J) opts a info call m resuming
        | None => Ret (inl tt, a) end) tr (gate, a') →
  quiet tr ∧ idle a a'
  ∧ (gate = inl tt → (∀ m, ManifestFor (g_Tools opts) (tc_Name call) = Some m → RequiresApproval m = true → approved tr call)
       ∧ (resuming = false → 0 < BudgetFor (g_Tools opts) (tc_Name call) → count_of a (tc_Name call) < BudgetFor (g_Tools opts) (tc_Name call))).
Proof.
  intros H. destruct (ManifestFor _ _) as [m|] eqn:Em.
  - apply gates_idle in H as (? & ? & Hg). split_and!; [done..|]. intros E. destruct (Hg E) as [? ?]. split; [|done]. by intros m' [= <-].
  - destruct H as [-> [= -> ->]]. split_and!; [constructor|done|]. intros _. split; [done|]. intros _.
    unfold BudgetFor. unfold ManifestFor in Em. destruct (manifestInternal _ _); [done|]. lia.
Qed.

Lemma charge_ok (a a1 a2 : agentState) call (resuming : bool) :
  resuming = bool_decide (tc_ID call ∈ ag_resumeCallIDs a) → debit a a1 call → idle a1 a2 →
  (resuming = false → 0 < BudgetFor (g_Tools opts) (tc_Name call) → count_of a1 (tc_Name call) < BudgetFor (g_Tools opts) (tc_Name call)) →
  charged a (if resuming then a2 else add_count (tc_Name call) a2) call.
Proof.
  intros Hres (Hrun & Hsid & Hn & Hbooks) [I1 I2 I3 I4 I5] Hb. unfold charged.
  assert (count_of a1 (tc_Name call) = count_of a (tc_Name call)) as Hc1 by (unfold count_of; by rewrite Hn).
  assert (count_of a2 (tc_Name call) = count_of a (tc_Name call)) as Hc2 by (unfold count_of; by rewrite I4, Hn).
  destruct Hbooks as [(Hin & Hmax & Hc & Hr)|(Hin & Hc & Hr)].
  - rewrite bool_decide_eq_false_2 in Hres by done. subst resuming. rewrite Hc1 in Hb. unfold add_count. cbn.
    split_and!; [congruence..|]. left. split_and!; [done|congruence..| |auto]. rewrite Hc2. congruence.
  - rewrite bool_decide_eq_true_2 in Hres by done. subst resuming. split_and!; [congruence..|]. right. split_and!; [done|congruence..].
Qed.

Lemma guarded_advance a call tr o a' :
  runs (execute_guarded regexp_Compile parse_json resolve_credential opts invoke a call) tr (o, a') → advance a tr a'.
Proof.
  unfold execute_guarded. cbv zeta. intros H. remember (bool_decide (tc_ID call ∈ ag_resumeCallIDs a)) as resuming eqn:Hres.
  remember (if resuming then set_resume (ag_resumeCallIDs a ∖ {[tc_ID call]}) a else a) as a0 eqn:Ha0.
  destruct (negb resuming && _) eqn:Efull.
  { apply after_ret in H as [Hq [= -> ->]]. apply idle_advance; [|done]. apply andb_prop in Efull as [Er _]. subst a0. by destruct resuming. }
  remember (if resuming then a0 else add_call a0) as a1 eqn:Ha1.
  assert (debit a a1 call) as Hdebit.
  { subst a1 a0. rewrite Hres in *. unfold debit. case_bool_decide as Hin; cbn.
    - split_and!; try done. by right.
    - cbn in Efull. bool_to_prop. split_and!; try done. by left. }
  destruct (match ManifestFor _ _ with Some m => _ | None => _ end) as [[]|e] eqn:Evalid.
  2:{ apply after_ret in H as [Hq [= -> ->]]. by eapply debit_advance. }
  open_runs H. destruct H as (tr1 & tr2 & denied & -> & H1 & H).
  assert (quiet tr1 ∧ (denied = None → g_Hooks opts = true → ∃ info, Ev (OnBeforeTool info call) None ∈ tr1)) as [Hq1 Hhook].
  { destruct (g_Hooks opts); open_runs H1; [subst; split; [by apply quiet_one|]|destruct H1 as [-> _]; by split; [constructor|]].
    intros -> _. eexists. by apply list_elem_of_here. }
  destruct denied as [e|].
  { apply after_ret in H as [Hq [= -> ->]]. eapply debit_advance; [done..|]. by apply quiet_app. }
  open_runs H. destruct H as (tr3 & tr4 & [gate a2] & -> & H2 & H).
  apply gate_cases in H2 as (Hq3 & Hidle & Hgate). rewrite app_assoc.
  assert (quiet (tr1 ++ tr3)) as Hqm by (by apply quiet_app).
  destruct gate as [[]|[r|e]].
  2:{ apply after_ret in H as [Hq [= -> ->]]. eapply debit_advance; [done..|]. by apply quiet_app. }
  2:{ destruct H as [-> [= -> ->]]. rewrite app_nil_r. by eapply debit_advance. }
  destruct (Hgate eq_refl) as [Happ Hbudget]. eapply charged_advance; [by eapply charge_ok|].
  eapply admitted_headed; [done|..|exact H].
  - transitivity (s_id (ag_session a2)); [rewrite (id_sid _ _ Hidle); subst a0 a1|]; by destruct resuming.
  - transitivity (ag_runID a2); [rewrite (id_run _ _ Hidle); subst a0 a1|]; by destruct resuming.
  - intros m Hm. rewrite Hm in Evalid. split_and!; [done| |].
    + intros Hh. destruct (Hhook eq_refl Hh) as [info ?]. exists info. apply elem_of_app. by left.
    + intros Hreq. destruct (Happ m Hm Hreq) as (q & ? & Hor). exists q. split; [done|].
      destruct Hor as [?|(r & ? & ?)]; [left|right; exists r; split; [|done]]; apply elem_of_app; by right.
Qed.

End Nested.

(** A logged nested invocation keeps the books when the execution it wraps
    does. *)
Lemma InvokeTool_advance (execute : agentState → ToolCall → prog (agentE J) (tool_outcome * agentState)) :
  (∀ a c tr o a', runs (execute a c) tr (o, a') → advance a tr a') →
  ∀ a c tr o a', runs (InvokeTool opts execute a c) tr (o, a') → advance a tr a'.
Proof.
  intros Hexec a c tr o a' H. assert (∀ x, advance x [] x) as Hstay by (intros x; apply idle_advance; [done|constructor]).
  unfold InvokeTool, agent_append in H. destruct (ToolResult _ _ _) as [[r|]|]; [by destruct H as [-> [= -> ->]]| |by destruct H as [-> [= -> ->]]].
  destruct (HasToolCall _ _ _) as [logged|]; [|by destruct H as [-> [= -> ->]]].
  open_runs H. destruct H as (tr1 & tr2 & [err a1] & -> & H1 & H).
  assert (advance a tr1 a1) as H1'.
  { destruct logged; [by destruct H1 as [-> [= -> ->]]|]. apply append_idle in H1 as [? ?]. by apply idle_advance. }
  eapply advance_trans; [done|]. destruct err as [e|]; [by destruct H as [-> [= -> ->]]|].
  open_runs H. destruct H as (tr3 & tr4 & [o1 a2] & -> & H2 & H). eapply advance_trans; [by eapply Hexec|].
  destruct (IsApprovalPending _); [by destruct H as [-> [= -> ->]]|].
  open_runs H. destruct H as (tr5 & tr6 & [err a3] & -> & H3 & H). apply append_idle in H3 as [? ?].
  destruct err; destruct H as [-> [= -> ->]]; rewrite app_nil_r; by apply idle_advance.
Qed.

Lemma Execute_advance fuel : ∀ a c tr o a',
  runs (Execute regexp_Compile parse_json resolve_credential opts fuel a c) tr (o, a') → advance a tr a'.
Proof.
  induction fuel as [|fuel IH]; intros a c tr o a' H; [destruct H as [-> [= -> ->]]; apply idle_advance; [done|constructor]|].
  eapply guarded_advance; [|exact H]. by apply InvokeTool_advance.
Qed.

(** ** Fuel *)

Definition left (a : agentState) : nat := (Z.to_nat (g_MaxToolCalls opts - ag_toolCalls a) + size (ag_resumeCallIDs a))%nat.

Lemma advance_left a tr a' : advance a tr a' → (left a' ≤ left a)%nat.
Proof. intros []. unfold left. apply subseteq_size in ad_resume0. lia. Qed.

(** Two invokers agree on the states with at most [n] entries left. *)
Definition agree (n : nat) (f g : agentState → ToolCall → prog (agentE J) (tool_outcome * agentState)) : Prop :=
  ∀ a c tr x, (left a ≤ n)%nat → runs (f a c) tr x → runs (g a c) tr x.

Section Congruence.
Context (f g : agentState → ToolCall → prog (agentE J) (tool_outcome * agentState)) (n : nat).
Hypothesis f_ok : ∀ a c tr o a', runs (f a c) tr (o, a') → advance a tr a'.
Hypothesis fg : agree n f g.

Lemma run_provider_agree t : ∀ a tr x, (left a ≤ n)%nat → runs (run_provider f t a) tr x → runs (run_provider g t a) tr x.
Proof.
  induction t as [o|c k IH]; intros a tr x Hn H; [done|]. cbn in H |- *. apply runs_bind. apply runs_bind in H as (tr1 & tr2 & [o a1] & -> & H1 & H).
  exists tr1, tr2, (o, a1). split; [done|]. split; [by apply fg|]. apply IH; [|done]. apply f_ok, advance_left in H1. lia.
Qed.

Lemma inner_agree a c accepted tr x : (left a ≤ n)%nat →
  runs (execute_inner regexp_Compile parse_json resolve_credential opts f a c accepted) tr x →
  runs (execute_inner regexp_Compile parse_json resolve_credential opts g a c accepted) tr x.
Proof.
  intros Hn. unfold execute_inner. destruct (prepare_execution _ _ _) as [r|[[p m] rq]]; [done|].
  rewrite !runs_bind. intros (tr1 & tr2 & tree & -> & H1 & H). exists tr1, tr2, tree. split; [done|]. split; [done|].
  apply runs_bind in H as (tr3 & tr4 & y & -> & H2 & H). apply runs_bind. exists tr3, tr4, y. split; [done|]. split; [by apply run_provider_agree|done].
Qed.

Lemma admitted_agree a info c m tr x : (left a ≤ n)%nat →
  runs (execute_admitted regexp_Compile parse_json resolve_credential opts f a info c m) tr x →
  runs (execute_admitted regexp_Compile parse_json resolve_credential opts g a info c m) tr x.
Proof.
  intros Hn. unfold execute_admitted. destruct (g_ToolJournal opts); rewrite !runs_bind.
  - intros (tr1 & tr2 & d & -> & H1 & H). exists tr1, tr2, d. split; [done|]. split; [done|]. destruct d as [[]|i]; [done..|].
    rewrite runs_bind in *. destruct H as (tr3 & tr4 & y & -> & H2 & H). exists tr3, tr4, y. split; [done|]. split; [by apply inner_agree|done].
  - intros (tr1 & tr2 & y & -> & H1 & H). exists tr1, tr2, y. split; [done|]. split; [by apply inner_agree|done].
Qed.

Lemma InvokeTool_agree : agree n (InvokeTool opts f) (InvokeTool opts g).
Proof.
  intros a c tr x Hn. unfold InvokeTool, agent_append. destruct (ToolResult _ _ _) as [[r|]|]; [done| |done].
  destruct (HasToolCall _ _ _) as [logged|]; [|done]. rewrite !runs_bind.
  intros (tr1 & tr2 & [err a1] & -> & H1 & H). exists tr1, tr2, (err, a1). split; [done|]. split; [done|]. destruct err; [done|].
  rewrite runs_bind in *. destruct H as (tr3 & tr4 & y & -> & H2 & H). exists tr3, tr4, y. split; [done|]. split; [|done].
  apply fg; [|done]. destruct logged; [by destruct H1 as [-> [= ->]]|]. apply append_idle in H1 as [_ [_ _ Hc _ Hr]]. unfold left in *. by rewrite Hc, Hr.
Qed.
End Congruence.

Lemma guarded_agree f g a c tr x :
  (∀ a c tr o a', runs (f a c) tr (o, a') → advance a tr a') → (∀ n, (n < left a)%nat → agree n f g) →
  runs (execute_guarded regexp_Compile parse_json resolve_credential opts f a c) tr x →
  runs (execute_guarded regexp_Compile parse_json resolve_credential opts g a c) tr x.
Proof.
  intros Hf Hfg. unfold execute_guarded. cbv zeta. remember (bool_decide (tc_ID c ∈ ag_resumeCallIDs a)) as resuming eqn:Hres.
  destruct (negb resuming && _) eqn:Efull; [done|].
  destruct (match ManifestFor _ _ with Some m => _ | None => _ end) as [[]|e]; [|done].
  rewrite !runs_bind. intros (tr1 & tr2 & d & -> & H1 & H). exists tr1, tr2, d. split; [done|]. split; [done|]. destruct d as [e|]; [done|].
  rewrite runs_bind in *. destruct H as (tr3 & tr4 & [gate a2] & -> & H2 & H). exists tr3, tr4, (gate, a2). split; [done|]. split; [done|].
  destruct gate as [u|[]]; [|done..]. apply gate_cases in H2 as (_ & Hidle & _). eapply admitted_agree; [done|apply (Hfg (left a - 1)%nat)|..|done]; clear H;
  destruct Hidle as [_ _ Hc _ Hr]; unfold left in *;
    (destruct resuming; cbn in *; rewrite ?Hc, ?Hr;
       [symmetry in Hres; apply bool_decide_eq_true in Hres; pose proof (resume_remove _ _ Hres)|bool_to_prop]; lia).
Qed.

Lemma Execute_agree f : ∀ g n, (n < f)%nat → (n < g)%nat →
  agree n (Execute regexp_Compile parse_json resolve_credential opts f) (Execute regexp_Compile parse_json resolve_credential opts g).
Proof.
  induction f as [|f IH]; intros g n Hf Hg a c tr x Ha; destruct g as [|g]; try lia; cbn [Execute].
  apply guarded_agree; [apply InvokeTool_advance, Execute_advance|].
  intros k Hk. apply InvokeTool_agree. apply IH; lia.
Qed.

End Admission.
