(* ===== verification/Agent.v ===== *)
(** * The agent loop: [src/pkg/core/agent.go], [src/pkg/core/agent_model_call.go]
      and [src/pkg/core/fastrouter.go]

    One turn: the run is opened in the session log, deterministic routes are
    tried, then model steps and tool calls alternate until the model answers, a
    limit is reached, an approval suspends the run, or something fails.  A
    suspended run is resumed at its approval; an interrupted one is continued
    after its last durable tool result.

    The functions are programs over the effects of [Guard]; the agent's mutable
    fields are [agentState].  [runModelSteps] and [continueToolCalls] call each
    other; every round uses one step, so [steps_left] rounds are enough.
    Telemetry is left out, and so is the tool-library presentation
    ([DiscloseTools] is false). *)
From S2P Require Import Prelude Prog GoString Json Schema Scope Principal GoTime Policy Payload Events Message Session Projection SessionLog Compactor Capability ModelCall Journal Guard.
From stdpp Require Import gmap strings list sorting.
From Stdlib Require Import ZArith Lia Ascii.
Open Scope Z_scope.

#[export] Instance ToolCall_eq_dec : EqDecision ToolCall.
Proof. solve_decision. Defined.

(** ** Errors *)

Definition is_context (e : go_error) : bool := match e with ContextError _ => true | _ => false end.
Definition isRetryable (e : go_error) : bool := match e with Failure _ r => r | _ => false end.

(** [errors.Join] as far as the kernel looks: a context error in it stays
    visible, and so does a retryable one. *)
Definition join (e1 e2 : go_error) : go_error :=
  let text := error_text e1 +:+ String (ascii_of_nat 10) (error_text e2) in
  if is_context e1 || is_context e2 then ContextError text else Failure text (isRetryable e1 || isRetryable e2).

Definition boundedText (value : string) (limit : Z) : string :=
  if (limit <=? 0) || (str_len value <=? limit) then value
  else of_bytes (take (Z.to_nat limit) (bytes value)) +:+ "...[truncated]".

Definition NewRuntimeErrorData (code : string) (cause : go_error) (retryable : bool) : RuntimeErrorData :=
  mk_error code (boundedText (error_text cause) MaxRuntimeErrorMessageBytes) retryable.

(** ** Run composition *)

Definition cloneRunCompositionData (c : RunCompositionData) : RunCompositionData :=
  mk_composition (rc_Profile c) (rc_Capabilities c) (perm_clone (EffectivePermissions c)) (rc_Model c) (ResolvedProvider c) (ModelRevision c)
    (rc_MaxSteps c) (rc_MaxToolCalls c) (rc_Metadata c).

Definition with_metadata (c : RunCompositionData) (metadata : gmap string string) : RunCompositionData :=
  mk_composition (rc_Profile c) (rc_Capabilities c) (EffectivePermissions c) (rc_Model c) (ResolvedProvider c) (ModelRevision c)
    (rc_MaxSteps c) (rc_MaxToolCalls c) metadata.

Definition compositionMetadata (c : option RunCompositionData) : gmap string string := match c with Some c => rc_Metadata c | None => ∅ end.

(** The entries of [metadata] win over those of the base. *)
Definition compositionWithMetadata (base : option RunCompositionData) (metadata : gmap string string) : result (option RunCompositionData) :=
  let! _ := ValidateRunCompositionMetadata metadata in
  match base with
  | None =>
    if bool_decide (metadata = ∅) then Ok None
    else let out := Some (with_metadata zero_composition metadata) in let! _ := validateRunComposition out in Ok out
  | Some c =>
    let c := cloneRunCompositionData c in
    let out := Some (with_metadata c (metadata ∪ rc_Metadata c)) in let! _ := validateRunComposition out in Ok out
  end.

(** ** Options *)

(** [None] stands for a panic of the host's function. *)
Record FastRule := mk_rule {
  fr_Match : option (string → option bool); fr_Capability : string; fr_Args : option (string → option (gmap string json));
  fr_Answer : option (CapabilityResult → option string); BlockMessage : string }.

Inductive CompactorKind := NoCompactor | RecentTurns (c : RecentTurnsCompactor) | OtherCompactor.

Record AgentOptions := mk_agent_options {
  a_guard : GuardOptions; a_System : string; a_Provider : string; a_Model : string; a_MaxSteps : Z;
  a_ProfileSnapshotID : string; a_CapabilitySnapshotID : string; a_Composition : option RunCompositionData;
  a_Fast : option (list FastRule); a_ModelCallGate : bool; a_Compactor : CompactorKind; a_Summarizer : bool; a_Assembler : bool;
  a_StreamChunks : bool; a_ContextLimits : option (Z * Z) }.

Definition DefaultMaxSteps : Z := 10.
Definition DefaultMaxToolCalls : Z := 16.

Definition with_limits (o : AgentOptions) (steps calls : Z) (c : option RunCompositionData) : AgentOptions :=
  let g := a_guard o in
  mk_agent_options (mk_guard_options calls (g_Hooks g) (g_RateLimiter g) (g_Approver g) (g_ToolJournal g) (g_OnEvent g) (g_Tools g))
    (a_System o) (a_Provider o) (a_Model o) steps (a_ProfileSnapshotID o) (a_CapabilitySnapshotID o) c
    (a_Fast o) (a_ModelCallGate o) (a_Compactor o) (a_Summarizer o) (a_Assembler o) (a_StreamChunks o) (a_ContextLimits o).

(** [NewAgent]: the options the agent keeps.  The nil checks on the model,
    tools and session are type-level here. *)
Definition NewAgent (o : AgentOptions) : result AgentOptions :=
  let g := a_guard o in
  fail_when a_MaxSteps o <? 0 with "agent max steps must not be negative" ;;
  fail_when g_MaxToolCalls g <? 0 with "agent max tool calls must not be negative" ;;
  fail_when HardMaxSteps <? a_MaxSteps o with "agent max steps exceeds hard limit 128" ;;
  fail_when HardMaxToolCalls <? g_MaxToolCalls g with "agent max tool calls exceeds hard limit 1024" ;;
  let! _ := validateRunComposition (a_Composition o) in
  Ok (with_limits o (if a_MaxSteps o =? 0 then DefaultMaxSteps else a_MaxSteps o)
        (if g_MaxToolCalls g =? 0 then DefaultMaxToolCalls else g_MaxToolCalls g) (cloneRunCompositionData <$> a_Composition o)).

Record TurnInput := mk_turn_input {
  ti_Run : string; ti_Text : string; MaxToolCallsOverride : Z; RunCapabilities : list CapabilityBinding;
  CapabilityFilter : option (CapabilityManifest → option bool); CompositionMetadata : gmap string string }.

Record TurnResult := mk_turn { tr_RunID : string; tr_Status : string; tr_Answer : string }.
Definition no_result : TurnResult := mk_turn "" "" "".
Definition turn_outcome : Type := TurnResult * option go_error.

Definition usageLimitReached (u : TokenUsage) : bool := (MaxReportedTokensPerRun <=? tu_Input u) || (MaxReportedTokensPerRun <=? tu_Output u).

Definition firstCall (calls : list ToolCall) : option ToolCall := head calls.

(** ** Rebuilding the run state from the log *)

Definition restore_step (runID : string) (st : gset string * agentState) (e : SessionEvent) : gset string * agentState :=
  let '(seen, a) := st in
  if negb (bool_decide (RunID e = runID)) then st
  else match ev_Type e with
  | EvToolCall =>
    match decode_payload EvToolCall (ev_Data e) with
    | Some (DToolCall d) =>
      if bool_decide (cd_CallID d ∈ seen) then st
      else ({[cd_CallID d]} ∪ seen, set_resume ({[cd_CallID d]} ∪ ag_resumeCallIDs a) (add_count (cd_Name d) (add_call a)))
    | _ => st
    end
  | EvToolResult =>
    match decode_payload EvToolResult (ev_Data e) with
    | Some (DToolResult d) => (seen, set_resume (ag_resumeCallIDs a ∖ {[tr_CallID d]}) a)
    | _ => st
    end
  | _ => st
  end.

Definition fresh_run (a : agentState) (runID : string) : agentState := mk_agent (ag_session a) runID ∅ 0 ∅ ∅ (ag_compositionRevision a).
Definition set_revision (revision : string) (a : agentState) : agentState :=
  mk_agent (ag_session a) (ag_runID a) (ag_counts a) (ag_toolCalls a) (ag_approvalResolutions a) (ag_resumeCallIDs a) revision.

Definition restoreRunState (a : agentState) (runID : string) : agentState :=
  (foldl (restore_step runID) (∅, fresh_run a runID) (s_events (ag_session a))).2.

(** [approvalResolutionCallID] *)
Fixpoint approvalResolutionCallID (events : list SessionEvent) (runID approvalID : string) : string :=
  match events with
  | [] => "unknown"
  | e :: events =>
    if negb (bool_decide (RunID e = runID)) || negb (bool_decide (ev_Type e = EvApprovalRequested)) then approvalResolutionCallID events runID approvalID
    else match decode_payload EvApprovalRequested (ev_Data e) with
         | Some (DApprovalRequested d) =>
           if bool_decide (ar_ApprovalID d = approvalID) then tc_ID (ar_ToolCall d) else approvalResolutionCallID events runID approvalID
         | _ => approvalResolutionCallID events runID approvalID
         end
  end.

(** ** Post-result continuation *)

(** The variables of [postResultContinuation]; [pc_state] is its numeric state:
    0 between steps, 1 step open, 2 assistant message, 3 usage, 4 tool call,
    5 tool result. *)
Record continuation := mk_cont {
  pc_step : Z; pc_last : Z; pc_stepSeq : Z; pc_state : Z; pc_calls : list ToolCall; pc_completed : nat;
  pc_seenCalls : gset string; pc_seenResults : gset string; pc_userSeen : bool }.

Definition cont_start : continuation := mk_cont (-1) (-1) (-1) 0 [] 0 ∅ ∅ false.
Definition cont_state (st : Z) (c : continuation) : continuation :=
  mk_cont (pc_step c) (pc_last c) (pc_stepSeq c) st (pc_calls c) (pc_completed c) (pc_seenCalls c) (pc_seenResults c) (pc_userSeen c).

(** The runs that are open, with the index of their start. *)
Definition open_step (st : nat * gmap string nat) (e : SessionEvent) : nat * gmap string nat :=
  let '(index, open) := st in
  (S index, match ev_Type e with EvRunStart => <[RunID e := index]> open | EvRunEnd => delete (RunID e) open | _ => open end).
Definition open_runs_of (events : list SessionEvent) : gmap string nat := (foldl open_step (O, ∅) events).2.

(** The calls of an assistant message: the legacy single call, or the list it
    must head. *)
Definition continuation_calls (d : AssistantMessageData) : result (list ToolCall) :=
  let calls := cloneToolCalls (am_ToolCalls d) in
  match am_ToolCall d, calls with
  | Some c, [] => Ok [cloneToolCall c]
  | Some c, first :: _ => fail_when negb (bool_decide (first = c)) with "run has conflicting legacy tool calls" ;; Ok calls
  | None, _ => Ok calls
  end.

Fixpoint register_calls (seen : gset string) (calls : list ToolCall) : result (gset string) :=
  match calls with
  | [] => Ok seen
  | c :: calls =>
    fail_when negb (is_ok (validateToolCall c)) || bool_decide (tc_ID c ∈ seen) with "run has duplicate or invalid tool calls" ;;
    register_calls ({[tc_ID c]} ∪ seen) calls
  end.

Definition cont_step (runID : string) (first : bool) (c : continuation) (e : SessionEvent) : result continuation :=
  fail_when negb (bool_decide (RunID e = runID)) with "run has interleaved session events" ;;
  let! _ := validateSessionEvent (RunID e) (ev_Type e) (ev_Data e) in
  match ev_Type e with
  | EvRunStart => fail_when negb first with "run has duplicate starts" ;; Ok c
  | EvUserMessage =>
    fail_when negb (pc_state c =? 0) || pc_userSeen c with "run has an interleaved user message" ;;
    Ok (mk_cont (pc_step c) (pc_last c) (pc_stepSeq c) (pc_state c) (pc_calls c) (pc_completed c) (pc_seenCalls c) (pc_seenResults c) true)
  | EvStepStart =>
    match decode_payload EvStepStart (ev_Data e) with
    | Some (DStep d) =>
      fail_when negb (pc_state c =? 0) || negb (pc_userSeen c) || negb (Index d =? pc_last c + 1) with "run has an invalid step sequence" ;;
      Ok (mk_cont (Index d) (Index d) (Seq e) 1 (pc_calls c) (pc_completed c) (pc_seenCalls c) (pc_seenResults c) (pc_userSeen c))
    | _ => Err "run has an invalid step sequence"
    end
  | EvAssistantChunk | EvContextSummary => fail_when negb (pc_state c =? 1) with "run has an interleaved model artifact" ;; Ok c
  | EvRunUsage =>
    match decode_payload EvRunUsage (ev_Data e) with
    | Some (DRunUsage d) =>
      fail_when negb (is_ok (validateRunUsageData d)) with "run has invalid usage" ;;
      if (pc_state c =? 1) && (8 <? str_len (InvocationID d)) && bool_decide (of_bytes (take 8 (bytes (InvocationID d))) = "summary:") then Ok c
      else
        fail_when negb (pc_state c =? 2) || negb (bool_decide (InvocationID d = "model:" +:+ z_text (pc_stepSeq c)))
          with "run lacks matching model usage" ;;
        Ok (cont_state 3 c)
    | _ => Err "run has invalid usage"
    end
  | EvAssistantMessage =>
    match decode_payload EvAssistantMessage (ev_Data e) with
    | Some (DAssistantMessage d) =>
      fail_when negb (pc_state c =? 1) with "run has an invalid assistant message" ;;
      let! calls := continuation_calls d in
      fail_when bool_decide (calls = []) with "run has no assistant tool calls" ;;
      let! seen := register_calls (pc_seenCalls c) calls in
      Ok (mk_cont (pc_step c) (pc_last c) (pc_stepSeq c) 2 calls (pc_completed c) seen (pc_seenResults c) (pc_userSeen c))
    | _ => Err "run has an invalid assistant message"
    end
  | EvToolCall =>
    match decode_payload EvToolCall (ev_Data e), pc_calls c !! pc_completed c with
    | Some (DToolCall d), Some call =>
      fail_when negb ((pc_state c =? 3) || (pc_state c =? 5)) || negb (bool_decide (tc_ID call = cd_CallID d))
                || negb (bool_decide (tc_Name call = cd_Name d)) || negb (bool_decide (tc_Args call = cd_Args d))
        with "run has an invalid tool call sequence" ;;
      Ok (cont_state 4 c)
    | _, _ => Err "run has an invalid tool call sequence"
    end
  | EvToolResult =>
    match decode_payload EvToolResult (ev_Data e), pc_calls c !! pc_completed c with
    | Some (DToolResult d), Some call =>
      fail_when negb (pc_state c =? 4) || negb (bool_decide (tr_CallID d = tc_ID call)) || bool_decide (tr_CallID d ∈ pc_seenResults c)
        with "run has an invalid tool result sequence" ;;
      Ok (mk_cont (pc_step c) (pc_last c) (pc_stepSeq c) 5 (pc_calls c) (S (pc_completed c)) (pc_seenCalls c)
            ({[tr_CallID d]} ∪ pc_seenResults c) (pc_userSeen c))
    | _, _ => Err "run has an invalid tool result sequence"
    end
  | EvStepEnd =>
    fail_when negb (pc_state c =? 5) || negb (bool_decide (pc_completed c = length (pc_calls c))) with "run has an unbalanced step" ;;
    Ok (mk_cont (pc_step c) (pc_last c) (pc_stepSeq c) 0 [] 0 (pc_seenCalls c) (pc_seenResults c) (pc_userSeen c))
  | _ => Err "run has unsupported continuation events"
  end.

Definition cont_fold (runID : string) (events : list SessionEvent) : result continuation :=
  match events with
  | [] => Ok cont_start
  | e :: events => let! c := cont_step runID true cont_start e in rfold (cont_step runID false) c events
  end.

(** The step, its calls and how many of them have durable results. *)
Definition postResultContinuation (events : list SessionEvent) (runID : string) : result (Z * list ToolCall * nat) :=
  let open := open_runs_of events in
  match open !! runID with
  | None => Err "run is not open"
  | Some start =>
    fail_when bool_decide (map_Exists (λ id index, (start < index)%nat ∨ (index = start ∧ id ≠ runID)) open) with "run is not the latest open run" ;;
    let! c := cont_fold runID (drop start events) in
    fail_when pc_state c =? 1 with "model_outcome_unknown: run has no assistant outcome" ;;
    fail_when negb (pc_state c =? 5) || bool_decide (pc_completed c = O) with "run is not a post-result continuation" ;;
    Ok (pc_step c, pc_calls c, pc_completed c)
  end.

(** ** The loop *)

Section Agent.
Context {J : Type → Type} `{!ToolInvocationJournal J}.
Context (regexp_Compile : string → option (string → bool)) (parse_json : string → option json).
Context (resolve_credential : Principal → ScopePath → string → option string).
Context (opts : AgentOptions).

Notation M A := (prog (agentE J) (A * agentState)).
Notation guard := (a_guard opts).

Definition append (a : agentState) (runID : string) (kind : SessionEventType) (data : EventData) : M (option go_error) := agent_append guard a runID kind data.
Definition execute (a : agentState) (call : ToolCall) : M tool_outcome := guarded_Execute regexp_Compile parse_json resolve_credential guard a call.

Definition notifyRunEnd (info : RunInfo) (status : string) : prog (agentE J) unit := if g_Hooks guard then ask (OnRunEnd info status) else Ret tt.
Definition after_step (info : RunInfo) : prog (agentE J) unit := if g_Hooks guard then ask (OnAfterStep info) else Ret tt.

Definition complete (a : agentState) (info : RunInfo) (status : string) : M turn_outcome :=
  let* (err, a) := append a (in_RunID info) EvRunEnd (DRunEnd (mk_end status)) in
  match err with
  | Some e => Ret ((no_result, Some e), a)
  | None =>
    let* _ := notifyRunEnd info status in
    Ret ((mk_turn (in_RunID info) status (LastAssistantText (ag_session a) (in_RunID info)), None), a)
  end.

Definition fail (a : agentState) (info : RunInfo) (code : string) (cause : go_error) (retryable : bool) : M turn_outcome :=
  let status := if is_context cause then RunCancelled else RunFailed in
  let* (_, a) := append a (in_RunID info) EvRunError (DRuntimeError (NewRuntimeErrorData code cause retryable)) in
  let* (_, a) := append a (in_RunID info) EvRunEnd (DRunEnd (mk_end status)) in
  let* _ := notifyRunEnd info status in
  Ret ((mk_turn (in_RunID info) status (LastAssistantText (ag_session a) (in_RunID info)), Some cause), a).

Definition append_failed (a : agentState) (info : RunInfo) (e : go_error) : M turn_outcome := fail a info "event_append_failed" e false.

Definition completeStep (a : agentState) (info : RunInfo) (status : string) : M turn_outcome :=
  let* (err, a) := append a (in_RunID info) EvStepEnd (DStep (mk_step (in_Step info))) in
  match err with
  | Some e => append_failed a info e
  | None => let* _ := after_step info in complete a info status
  end.

(** ** Approvals *)

Definition drop_resolution (id : string) (a : agentState) : agentState :=
  mk_agent (ag_session a) (ag_runID a) (ag_counts a) (ag_toolCalls a) (delete id (ag_approvalResolutions a)) (ag_resumeCallIDs a) (ag_compositionRevision a).

Fixpoint append_resolutions (a : agentState) (runID : string) (l : list (string * ApprovalResolution)) : M (option go_error) :=
  match l with
  | [] => Ret (None, a)
  | (id, r) :: l =>
    let* resolvedAt := if time_is_zero (rs_DecidedAt r) then (let* clock := ask AskClock in Ret (clock 0)) else Ret (rs_DecidedAt r) in
    let* (err, a) := append a runID EvApprovalResolved
      (DApprovalResolved (mk_ares id (approvalResolutionCallID (s_events (ag_session a)) runID id) (rs_Decision r) resolvedAt (rs_DecidedBy r))) in
    match err with
    | Some e => Ret (Some e, a)
    | None => append_resolutions (drop_resolution id a) runID l
    end
  end.

(** The resolutions in the order of their ids. *)
Definition appendApprovalResolutions (a : agentState) (runID : string) : M (option go_error) :=
  append_resolutions a runID (sorted_entries (ag_approvalResolutions a)).

Definition pauseForApproval (a : agentState) (info : RunInfo) (pending : ApprovalRequest * ApprovalResolution)
    (resumeCall : ToolCall) (remaining : list ToolCall) (fast : bool) : M turn_outcome :=
  let waiting := mk_turn (in_RunID info) RunWaitingApproval "" in
  let* (err, a) := appendApprovalResolutions a (in_RunID info) in
  match err with
  | Some e => append_failed a info e
  | None =>
    match PendingApproval (ag_session a) (in_RunID info) with
    | Err e => fail a info "approval_state_invalid" (Failure e false) false
    | Ok (Some existing) =>
      if bool_decide (ar_ApprovalID existing = rs_ApprovalID pending.2) then Ret ((waiting, None), a)
      else fail a info "approval_state_conflict" (Failure ("run already waits for approval " +:+ ar_ApprovalID existing) false) false
    | Ok None =>
      let* (err, a) := append a (in_RunID info) EvApprovalRequested
        (DApprovalRequested (mk_areq (rs_ApprovalID pending.2) (aq_ToolCall pending.1) resumeCall remaining (in_Step info) fast (rs_ExpiresAt pending.2))) in
      match err with
      | Some e => append_failed a info e
      | None => Ret ((waiting, None), a)
      end
    end
  end.

(** ** Tool calls *)

(** The outcome when the turn stops here. *)
Definition executeLoggedToolCall (a : agentState) (info : RunInfo) (call : ToolCall) (remaining : list ToolCall) (fast : bool) : M (option turn_outcome) :=
  let stop (p : M turn_outcome) : M (option turn_outcome) := let* (o, a) := p in Ret (Some o, a) in
  let record (a : agentState) (r : CapabilityResult) : M (option turn_outcome) :=
    let* (err, a) := append a (in_RunID info) EvToolResult (DToolResult (mk_tresult (tc_ID call) (r_Content r) (r_OK r) (r_Metadata r))) in
    match err with
    | Some e => stop (append_failed a info e)
    | None =>
      let* (err, a) := appendApprovalResolutions a (in_RunID info) in
      match err with Some e => stop (append_failed a info e) | None => Ret (None, a) end
    end in
  let* (o, a) := execute a call in
  let '(result, err) := o in
  match err with
  | None => record a result
  | Some e =>
    match IsApprovalPending err with
    | Some pending => stop (pauseForApproval a info pending call remaining fast)
    | None =>
      let* cancelled := if is_context e then ask CtxErr else Ret None in
      match cancelled with
      | Some _ => stop (fail a info "tool_cancelled" e false)
      | None => record a (mk_result (boundedText (error_text e) DefaultMaxCapabilityOutputBytes) false ∅)
      end
    end
  end.

(** The loop of [continueToolCalls]: the outcome when the turn stops in it. *)
Fixpoint tool_loop (a : agentState) (info : RunInfo) (calls : list ToolCall) (announceLimit notifyLimit : bool) : M (option turn_outcome) :=
  match calls with
  | [] => Ret (None, a)
  | call :: rest =>
    if g_MaxToolCalls guard <=? ag_toolCalls a then
      let* (err, a) := if announceLimit then append a (in_RunID info) EvAssistantMessage
                         (DAssistantMessage (mk_assistant "Tool call budget reached; the run stopped." None [])) else Ret (None, a) in
      match err with
      | Some e => let* (o, a) := append_failed a info e in Ret (Some o, a)
      | None =>
        let* (_, a) := append a (in_RunID info) EvStepEnd (DStep (mk_step (in_Step info))) in
        let* _ := if notifyLimit then after_step info else Ret tt in
        let* (o, a) := complete a info RunLimited in Ret (Some o, a)
      end
    else
      let* (err, a) := append a (in_RunID info) EvToolCall (DToolCall (mk_tcall (tc_ID call) (tc_Name call) (tc_Args call))) in
      match err with
      | Some e => let* (o, a) := append_failed a info e in Ret (Some o, a)
      | None =>
        let* (stopped, a) := executeLoggedToolCall a info call rest false in
        match stopped with
        | Some o => Ret (Some o, a)
        | None => tool_loop a info rest announceLimit notifyLimit
        end
      end
  end.

Definition at_step (info : RunInfo) (step : Z) : RunInfo := mk_info (in_RunID info) (in_SessionID info) (in_ProfileID info) step (in_Principal info).

(** [next] is [runModelSteps]. *)
Definition continueToolCalls (next : agentState → RunInfo → Z → M turn_outcome) (a : agentState) (info : RunInfo) (calls : list ToolCall)
    (announceLimit notifyLimit : bool) : M turn_outcome :=
  let* (stopped, a) := tool_loop a info calls announceLimit notifyLimit in
  match stopped with
  | Some o => Ret (o, a)
  | None =>
    let* (err, a) := append a (in_RunID info) EvStepEnd (DStep (mk_step (in_Step info))) in
    match err with
    | Some e => append_failed a info e
    | None => let* _ := after_step info in next a info (in_Step info + 1)
    end
  end.

(** ** Model calls *)

Definition wrap_context (e : go_error) : go_error :=
  match e with
  | ContextError t => ContextError ("model context assembly failed: " +:+ t)
  | _ => Failure ("model context assembly failed: " +:+ error_text e) (isRetryable e)
  end.

(** [safeAssembleModelContext] *)
Definition safeAssembleModelContext (request : ModelContext) : prog (agentE J) (ModelContext + go_error) :=
  if negb (request_limits_ok request) then Ret (inr (Failure "model context assembly failed: invalid request" false))
  else
    let* cancelled := ask CtxErr in
    match cancelled with
    | Some e => Ret (inr (wrap_context (ContextError e)))
    | None =>
      let messages := cloneChatMessages (default [] (mc_Messages request)) in
      if negb (a_Assembler opts)
      then Ret (inl (mk_model_context (mc_System request) (Some messages) [] (ContextWindowTokens request) (MaxOutputTokens request) 0 0 0))
      else
        let* answer := ask (AssembleContext (mk_model_context (mc_System request) (Some messages) (cloneToolSchemas (mc_Tools request))
                                               (ContextWindowTokens request) (MaxOutputTokens request) 0 0 0)) in
        Ret (match answer with
             | inr e => inr (wrap_context e)
             | inl r =>
               if negb (assembled_ok request r) then inr (Failure "model context assembly failed: invalid result" false)
               else inl (mk_model_context (mc_System r) (cloneChatMessages <$> mc_Messages r) [] (ContextWindowTokens r) (MaxOutputTokens r)
                           (InputBytes r) (mc_InputTokens r) (DroppedGroups r))
             end)
    end.

(** The gate: nothing, the accepted call, or the refusal. *)
Definition authorize (q : ModelCallRequest) : prog (agentE J) (option ModelCallRequest + go_error) :=
  match validateModelCallPrincipalClaims (mq_Principal q) with
  | Err e => Ret (inr (Failure e false))
  | Ok _ =>
    if negb (a_ModelCallGate opts) then Ret (inl None)
    else match request_Validate q with
    | Err e => Ret (inr (Failure e false))
    | Ok _ =>
      let* refused := ask (AuthorizeModelCall (cloneModelCallRequest q)) in
      Ret (match refused with Some e => inr e | None => inl (mintAcceptedModelCall q) end)
    end
  end.

Definition no_stream : modelStreamResult := mk_stream false "" [] (mk_tokens 0 0) "".

(** The streamed text is persisted when [StreamChunks] is set. *)
Definition on_chunk (runID : string) (a : agentState) (chunk : StreamChunk) : M (option go_error) :=
  if a_StreamChunks opts && negb (is_empty (ch_Text chunk)) then append a runID EvAssistantChunk (DAssistantChunk (mk_chunk (ch_Text chunk)))
  else Ret (None, a).

Definition ctx_error : prog (agentE J) (option go_error) :=
  let* e := ask CtxErr in Ret (match e with Some e => Some (ContextError e) | None => None end).

(** [callModel]: the stream, and the failure with its code. *)
Definition callModel (a : agentState) (info : RunInfo) (step : Z) (messages : list ChatMessage) : M (modelStreamResult * option (string * go_error)) :=
  let '(window, output) := modelContextLimits (a_ContextLimits opts) in
  let tools := Schemas (g_Tools guard) in
  let* assembled := safeAssembleModelContext (mk_model_context (a_System opts) (Some messages) tools window output 0 0 0) in
  match assembled with
  | inr e => Ret ((no_stream, Some ("model_context_failed", e)), a)
  | inl context =>
    let* deadline := ask CtxDeadline in
    let q := mk_model_request (in_Principal info) (s_scope (ag_session a)) (in_SessionID info) (in_RunID info) step (a_Provider opts) (a_Model opts)
               (default zero_time deadline) (mk_budget 0 0) in
    let* gate := authorize q in
    match gate with
    | inr e => Ret ((no_stream, Some ("model_gate_rejected", e)), a)
    | inl accepted =>
      let generate := mk_generate (a_Provider opts) (a_Model opts) (mc_System context) (default [] (mc_Messages context)) tools q accepted in
      let* (o, a) := consumeModelStream (λ t, Failure t false) (on_chunk (in_RunID info)) (ask (StreamModel generate))
                       ctx_error a in
      Ret ((o.1, match o.2 with Some e => Some ("model_failed", e) | None => None end), a)
    end
  end.

Definition model_usage (seq : Z) (u : TokenUsage) : EventData := DRunUsage (mk_usage (tu_Input u) (tu_Output u) ("model:" +:+ z_text seq)).

Definition appendModelUsage (a : agentState) (runID : string) (stepStartSeq : Z) (u : TokenUsage) : M (option go_error) :=
  append a runID EvRunUsage (model_usage stepStartSeq u).

Definition appendAssistantUsage (a : agentState) (runID : string) (stepStartSeq : Z) (d : AssistantMessageData) (u : TokenUsage) : M (option go_error) :=
  agent_appendBatch guard a [append_entry runID EvAssistantMessage (DAssistantMessage d); append_entry runID EvRunUsage (model_usage stepStartSeq u)].

(** ** Steps *)

(** A failed step is logged before the run is. *)
Definition step_failed (a : agentState) (info : RunInfo) (code : string) (e : go_error) (retryable : bool) : M turn_outcome :=
  let* (_, a) := append a (in_RunID info) EvStepError (DRuntimeError (NewRuntimeErrorData code e retryable)) in
  fail a info code e retryable.

(** What the summariser appended; a batch the session refuses leaves it as it
    was. *)
Definition apply_batches (clock : Z → string) (s : Session) (batches : list (list sessionAppendEntry)) : Session :=
  foldl (λ s b, match appendBatch clock s b with Ok (s', _) => s' | Err _ => s end) s batches.

(** The messages of the step, or the outcome that ends the turn. *)
Definition step_messages (a : agentState) (info : RunInfo) : M (list ChatMessage + turn_outcome) :=
  let stop (p : M turn_outcome) : M (list ChatMessage + turn_outcome) := let* (o, a) := p in Ret (inr o, a) in
  let compact (a : agentState) (messages : list ChatMessage) : M (list ChatMessage + turn_outcome) :=
    match a_Compactor opts with
    | NoCompactor => Ret (inl messages, a)
    | RecentTurns c => Ret (inl (Compact c messages), a)
    | OtherCompactor =>
      let* answer := ask (CompactMessages messages) in
      match answer with
      | Some messages => Ret (inl messages, a)
      | None => stop (step_failed a info "compaction_failed" (Failure "context compactor panicked" false) false)
      end
    end in
  let fused := if a_Summarizer opts then None
               else match a_Compactor opts with RecentTurns c => deriveRecentCompactedMessages c (ag_session a) | _ => None end in
  match fused with
  | Some messages => Ret (inl messages, a)
  | None =>
    let '(derived, s) := DeriveMessages (ag_session a) in
    let a := set_session s a in
    match derived with
    | Err e => stop (step_failed a info "history_projection_failed" (Failure e false) false)
    | Ok messages =>
      if a_Summarizer opts then
        let* clock := ask AskClock in
        let* (batches, answer) := ask (EnsureSummarized (in_RunID info) messages) in
        let a := set_session (apply_batches clock (ag_session a) batches) a in
        match answer with
        | inr e => stop (step_failed a info "summarization_failed" e (isRetryable e))
        | inl messages =>
          if usageLimitReached (runUsageTotal (ag_session a) (in_RunID info)) then stop (completeStep a info RunLimited)
          else compact a messages
        end
      else compact a messages
    end
  end.

(** After the model answered: its message and usage are logged together. *)
Definition after_model (next : agentState → RunInfo → Z → M turn_outcome) (a : agentState) (info : RunInfo) (stepStartSeq : Z) (stream : modelStreamResult) : M turn_outcome :=
  let calls := sm_ToolCalls stream in
  let* (err, a) := appendAssistantUsage a (in_RunID info) stepStartSeq (mk_assistant (sm_Text stream) (firstCall calls) calls) (sm_Usage stream) in
  match err with
  | Some e => append_failed a info e
  | None =>
    if usageLimitReached (runUsageTotal (ag_session a) (in_RunID info)) then completeStep a info RunLimited
    else match calls with
    | [] => completeStep a info RunCompleted
    | _ => continueToolCalls next a info calls true true
    end
  end.

Definition model_step (next : agentState → RunInfo → Z → M turn_outcome) (a : agentState) (info : RunInfo) (step : Z) : M turn_outcome :=
  let* (err, a) := append a (in_RunID info) EvStepStart (DStep (mk_step step)) in
  match err with
  | Some e => append_failed a info e
  | None =>
    let stepStartSeq := s_len (ag_session a) - 1 in
    let* (m, a) := step_messages a info in
    match m with
    | inr o => Ret (o, a)
    | inl messages =>
      let* (answer, a) := callModel a info step messages in
      let '(stream, err) := answer in
      match err with
      | Some (code, e) =>
        let* (e, a) := if usageReported stream
                       then (let* (usageErr, a) := appendModelUsage a (in_RunID info) stepStartSeq (sm_Usage stream) in
                             Ret (match usageErr with Some u => join e u | None => e end, a))
                       else Ret (e, a) in
        if bool_decide (code = "model_gate_rejected") then fail a info code e false else step_failed a info code e (isRetryable e)
      | None => after_model next a info stepStartSeq stream
      end
    end
  end.

Fixpoint runModelSteps (fuel : nat) (a : agentState) (info : RunInfo) (startStep : Z) : M turn_outcome :=
  match fuel with
  | O => Ret ((no_result, Some (Failure "model steps are out of fuel" false)), a)
  | S fuel =>
    if a_MaxSteps opts <=? startStep then complete a info RunLimited
    else
      let info := at_step info startStep in
      if usageLimitReached (runUsageTotal (ag_session a) (in_RunID info)) then complete a info RunLimited
      else
        let* denied := if g_Hooks guard then ask (OnBeforeStep info) else Ret None in
        match denied with
        | Some e => fail a info "step_rejected" (Failure e false) false
        | None => model_step (runModelSteps fuel) a info startStep
        end
  end.

Definition steps_left (step : Z) : nat := S (Z.to_nat (a_MaxSteps opts - step)).

Definition run_steps (a : agentState) (info : RunInfo) (startStep : Z) : M turn_outcome := runModelSteps (steps_left startStep) a info startStep.

(** ** Fast routes *)

Record FastDispatch := mk_dispatch { Matched : bool; Blocked : bool; fd_Call : option ToolCall; fd_Result : option CapabilityResult; fd_Answer : string }.
Definition no_dispatch : FastDispatch := mk_dispatch false false None None "".

(** An error of [Dispatch]; the flag marks [errFastToolCallAppend]. *)
Definition dispatch_outcome : Type := FastDispatch * option (bool * go_error).
Definition dispatch_panic : dispatch_outcome := (no_dispatch, Some (false, Failure "fast router panicked" false)).

(** The host's functions, panics apart. *)
Definition rule_args (rule : FastRule) (text : string) : option (result (gmap string json)) :=
  match fr_Args rule with
  | None => Some (Ok ∅)
  | Some f => args ← f text; Some (cloneCallArgs args)
  end.
Definition rule_answer (rule : FastRule) (r : CapabilityResult) : option string :=
  match fr_Answer rule with None => Some (r_Content r) | Some f => f r end.

(** A matched route. *)
Definition dispatch_rule (a : agentState) (rule : FastRule) (text : string) : M dispatch_outcome :=
  if negb (is_ok (validateCapabilityID (fr_Capability rule))) || negb (Authorized (g_Tools guard) (fr_Capability rule)) then
    let message := if is_empty (BlockMessage rule) then "This capability is not available for the current principal." else BlockMessage rule in
    Ret ((mk_dispatch true true None None message, None), a)
  else match rule_args rule text with
  | None => Ret (dispatch_panic, a)
  | Some (Err e) => Ret ((mk_dispatch true false None None "", Some (false, Failure e false)), a)
  | Some (Ok args) =>
    let* id := ask (NewID "call_") in
    match id with
    | Err e => Ret ((no_dispatch, Some (false, Failure e false)), a)
    | Ok id =>
      let call := mk_call id (fr_Capability rule) args "" in
      let failed append e := (mk_dispatch true false (Some call) None "", Some (append, e)) in
      let* (err, a) := append a (ag_runID a) EvToolCall (DToolCall (mk_tcall (tc_ID call) (tc_Name call) (tc_Args call))) in
      match err with
      | Some e => Ret (failed true e, a)
      | None =>
        let* (o, a) := execute a call in
        match o.2 with
        | Some e => Ret (failed false e, a)
        | None =>
          Ret (match rule_answer rule o.1 with
               | None => dispatch_panic
               | Some answer => (mk_dispatch true false (Some call) (Some o.1) answer, None)
               end, a)
        end
      end
    end
  end.

Fixpoint Dispatch (a : agentState) (rules : list FastRule) (text : string) : M dispatch_outcome :=
  match rules with
  | [] => Ret ((no_dispatch, None), a)
  | rule :: rules =>
    match fr_Match rule with
    | None => Dispatch a rules text
    | Some f =>
      match f text with
      | None => Ret (dispatch_panic, a)
      | Some false => Dispatch a rules text
      | Some true => dispatch_rule a rule text
      end
    end
  end.

(** The answer of a matched route ends the run. *)
Definition fast_answer (a : agentState) (info : RunInfo) (d : FastDispatch) : M turn_outcome :=
  let* (err, a) := match fd_Result d, fd_Call d with
                   | Some r, Some call =>
                     let* (err, a) := append a (in_RunID info) EvToolResult (DToolResult (mk_tresult (tc_ID call) (r_Content r) (r_OK r) (r_Metadata r))) in
                     match err with Some e => Ret (Some e, a) | None => appendApprovalResolutions a (in_RunID info) end
                   | _, _ => Ret (None, a)
                   end in
  match err with
  | Some e => append_failed a info e
  | None =>
    let* (err, a) := append a (in_RunID info) EvAssistantMessage (DAssistantMessage (mk_assistant (fd_Answer d) None [])) in
    match err with
    | Some e => append_failed a info e
    | None => complete a info RunCompleted
    end
  end.

Definition fast_route (a : agentState) (info : RunInfo) (rules : list FastRule) (text : string) : M (option turn_outcome) :=
  let stop (p : M turn_outcome) : M (option turn_outcome) := let* (o, a) := p in Ret (Some o, a) in
  let* (o, a) := Dispatch a rules text in
  let '(d, err) := o in
  match err with
  | Some (true, e) => stop (append_failed a info e)
  | Some (false, e) =>
    match IsApprovalPending (Some e), fd_Call d with
    | Some pending, Some call => stop (pauseForApproval a info pending call [] true)
    | _, _ => stop (fail a info "fast_route_failed" e (isRetryable e))
    end
  | None => if Matched d then stop (fast_answer a info d) else Ret (None, a)
  end.

(** ** Turns *)

Definition turn_info (a : agentState) (runID : string) (step : Z) : RunInfo :=
  mk_info runID (s_id (ag_session a)) (s_profileID (ag_session a)) step (clonePrincipal (s_principal (ag_session a))).

Definition refuse_turn (a : agentState) (e : string) : M turn_outcome := Ret ((no_result, Some (Failure e false)), a).

(** What [RunTurn] checks before it opens the run: the composition and its
    revisions. *)
Definition turn_composition (input : TurnInput) : result (option RunCompositionData * string * string) :=
  let! _ := ValidateRunID (ti_Run input) in
  fail_when is_empty (ti_Text input) with "turn text is empty" ;;
  fail_when (MaxToolCallsOverride input <? 0) || (HardMaxToolCalls <? MaxToolCallsOverride input) with "max tool calls override must be between 0 and 1024" ;;
  let! composition := compositionWithMetadata (a_Composition opts) (CompositionMetadata input) in
  let! revision := CompositionRevision composition in
  let! assignment := CompositionMetadataRevision (compositionMetadata composition) in
  Ok (composition, revision, assignment).

Definition RunTurn (a : agentState) (input : TurnInput) : M turn_outcome :=
  match turn_composition input with
  | Err e => refuse_turn a e
  | Ok (composition, revision, assignment) =>
    let runID := ti_Run input in
    let a := set_revision revision (fresh_run a runID) in
    let info := turn_info a runID 0 in
    let* (err, a) := append a runID EvRunStart
      (DRunStart (mk_start (a_ProfileSnapshotID opts) (a_CapabilitySnapshotID opts) revision assignment composition)) in
    match err with
    | Some e => Ret ((no_result, Some e), a)
    | None =>
      let* (err, a) := append a runID EvUserMessage (DUserMessage (mk_user (ti_Text input))) in
      match err with
      | Some e => append_failed a info e
      | None =>
        let* denied := if g_Hooks guard then ask (OnRunStart info) else Ret None in
        match denied with
        | Some e => fail a info "input_rejected" (Failure e false) false
        | None =>
          let* (routed, a) := match a_Fast opts with Some rules => fast_route a info rules (ti_Text input) | None => Ret (None, a) end in
          match routed with
          | Some o => Ret (o, a)
          | None => run_steps a info 0
          end
        end
      end
    end
  end.

(** After the suspended call: the fast answer, or the remaining calls. *)
Definition resumeApproval (a : agentState) (info : RunInfo) (pending : ApprovalRequestedData) : M turn_outcome :=
  let* (stopped, a) := executeLoggedToolCall a info (ResumeCall pending) (RemainingCalls pending) (Fast pending) in
  match stopped with
  | Some o => Ret (o, a)
  | None =>
    if Fast pending then
      match ToolResult (ag_session a) (in_RunID info) (tc_ID (ResumeCall pending)) with
      | Err e => refuse_turn a ("read approved fast tool result: " +:+ e)
      | Ok None => refuse_turn a "approved fast tool result is unavailable"
      | Ok (Some r) =>
        let* (err, a) := append a (in_RunID info) EvAssistantMessage (DAssistantMessage (mk_assistant (r_Content r) None [])) in
        match err with
        | Some e => append_failed a info e
        | None => complete a info RunCompleted
        end
      end
    else continueToolCalls run_steps a info (RemainingCalls pending) false false
  end.

Definition ResumeTurn (a : agentState) (runID : string) : M turn_outcome :=
  match ValidateRunID runID with
  | Err e => refuse_turn a e
  | Ok _ =>
    match PendingApproval (ag_session a) runID with
    | Err e => refuse_turn a e
    | Ok None => refuse_turn a "run has no pending approval"
    | Ok (Some pending) =>
      let a := restoreRunState a runID in
      match CompositionRevision (a_Composition opts) with
      | Err e => refuse_turn a e
      | Ok revision =>
        let a := set_revision revision a in
        let info := turn_info a runID (Step pending) in
        let assignment := match CompositionMetadataRevision (compositionMetadata (a_Composition opts)) with Ok r => r | Err _ => "" end in
        let* (err, a) := append a runID EvRunResume
          (DRunResume (mk_start (a_ProfileSnapshotID opts) (a_CapabilitySnapshotID opts) revision assignment (a_Composition opts))) in
        match err with
        | Some e => Ret ((no_result, Some e), a)
        | None => resumeApproval a info pending
        end
      end
    end
  end.

Definition continueTurn (a : agentState) (runID : string) : M turn_outcome :=
  if bool_decide (is_Some (a_Fast opts)) then refuse_turn a "post-result continuation does not support fast routing"
  else match postResultContinuation (s_events (ag_session a)) runID with
  | Err e => refuse_turn a e
  | Ok (step, calls, completed) =>
    if negb (forallb (λ c, Authorized (g_Tools guard) (tc_Name c)) calls) then refuse_turn a "current capabilities do not authorize the call"
    else
      let a := restoreRunState a runID in
      match CompositionRevision (a_Composition opts) with
      | Err e => refuse_turn (set_revision "" a) e
      | Ok revision =>
        let a := set_revision revision a in
        continueToolCalls run_steps a (turn_info a runID step) (drop completed calls) false true
      end
  end.

(** ** Entry points *)

Inductive TurnRequest := DoRun (input : TurnInput) | DoResume (runID : string) | DoContinue (runID : string).

Definition do_turn (a : agentState) (request : TurnRequest) : M turn_outcome :=
  match request with
  | DoRun input => RunTurn a input
  | DoResume runID => ResumeTurn a runID
  | DoContinue runID => continueTurn a runID
  end.

(** The state the entry points start from, once they accepted the request. *)
Definition start_state (a : agentState) (request : TurnRequest) : agentState :=
  match request with
  | DoRun input => fresh_run a (ti_Run input)
  | DoResume runID | DoContinue runID => restoreRunState a runID
  end.

End Agent.
