(* ===== verification/Turn.v ===== *)
(** * Whole turns: budgets, gates, and the at-most-once fence

    The two invariants of the guard funnel are carried through the agent loop:
    [safe] (no provider is started without a claim of its key) and [books] (the
    budgets are kept and every start is gated) hold of every program of
    [Agent], hence of whole turns.  [system] then lets any number of workers
    run turns concurrently over one store. *)
From S2P Require Import Prelude Prog GoString Json Schema Scope Principal GoTime Policy Payload Events Message Session Projection SessionLog Compactor Capability CapabilityClaims ModelCall Journal Guard Fence Admission Agent.
From stdpp Require Import gmap strings list sorting.
From Stdlib Require Import ZArith Lia.
Open Scope Z_scope.

(** One step along the code: a bind, a branch or a state binding. *)
Ltac branch c := let E := fresh "E" in destruct c eqn:E.

Ltac walk_safe :=
  repeat (cbv beta zeta; match goal with
  | |- safe _ (Ret _) => apply safe_ret
  | |- safe _ (ask _) => apply safe_ask; reflexivity
  | |- safe _ (pbind _ _) => apply safe_bind; [|intros ?]
  | |- safe _ (if ?c then _ else _) => destruct c
  | |- safe _ (match ?c with _ => _ end) => destruct c
  | |- safe _ _ => solve [eauto with fence]
  end).

(** ** Fencing *)

Section FencedTurn.
Context {J : Type → Type} `{!ToolInvocationJournal J, !FencingJournal J}.
Context (regexp_Compile : string → option (string → bool)) (parse_json : string → option json).
Context (resolve_credential : Principal → ScopePath → string → option string).
Context (opts : AgentOptions) (k : jkey).

Lemma safe_agent_append a runID kind data : safe (J := J) k (append opts a runID kind data).
Proof. apply safe_append. Qed.
Lemma safe_execute a call : safe (J := J) k (execute regexp_Compile parse_json resolve_credential opts a call).
Proof. apply safe_Execute. Qed.
#[local] Hint Resolve safe_agent_append safe_execute safe_append : fence.

Lemma safe_run_end info status : safe (J := J) k (notifyRunEnd opts info status).
Proof. unfold notifyRunEnd. walk_safe. Qed.
Lemma safe_after_step info : safe (J := J) k (after_step opts info).
Proof. unfold after_step. walk_safe. Qed.
#[local] Hint Resolve safe_run_end safe_after_step : fence.

Lemma safe_complete a info status : safe (J := J) k (complete opts a info status).
Proof. unfold complete. walk_safe. Qed.
Lemma safe_fail a info code e retryable : safe (J := J) k (fail opts a info code e retryable).
Proof. unfold fail. walk_safe. Qed.
Lemma safe_append_failed a info e : safe (J := J) k (append_failed opts a info e).
Proof. apply safe_fail. Qed.
#[local] Hint Resolve safe_complete safe_fail safe_append_failed : fence.
Lemma safe_completeStep a info status : safe (J := J) k (completeStep opts a info status).
Proof. unfold completeStep. walk_safe. Qed.
Lemma safe_step_failed a info code e retryable : safe (J := J) k (step_failed opts a info code e retryable).
Proof. unfold step_failed. walk_safe. Qed.
Lemma safe_resolutions runID l : ∀ a, safe (J := J) k (append_resolutions opts a runID l).
Proof. induction l as [|[id r] l IH]; intros a; cbn [append_resolutions]; walk_safe. Qed.
Lemma safe_approval_resolutions a runID : safe (J := J) k (appendApprovalResolutions opts a runID).
Proof. apply safe_resolutions. Qed.
#[local] Hint Resolve safe_completeStep safe_step_failed safe_approval_resolutions : fence.
Lemma safe_pause a info pending call remaining fast : safe (J := J) k (pauseForApproval opts a info pending call remaining fast).
Proof. unfold pauseForApproval. walk_safe. Qed.
#[local] Hint Resolve safe_pause : fence.

Lemma safe_logged a info call remaining fast : safe (J := J) k (executeLoggedToolCall regexp_Compile parse_json resolve_credential opts a info call remaining fast).
Proof. unfold executeLoggedToolCall. walk_safe. Qed.
#[local] Hint Resolve safe_logged : fence.
Lemma safe_tool_loop info b1 b2 calls : ∀ a, safe (J := J) k (tool_loop regexp_Compile parse_json resolve_credential opts a info calls b1 b2).
Proof. induction calls as [|c calls IH]; intros a; cbn [tool_loop]; walk_safe. Qed.
#[local] Hint Resolve safe_tool_loop : fence.
Lemma safe_continue next a info calls b1 b2 :
  (∀ a info step, safe k (next a info step)) → safe (J := J) k (continueToolCalls regexp_Compile parse_json resolve_credential opts next a info calls b1 b2).
Proof. intros Hnext. unfold continueToolCalls. walk_safe. Qed.

Lemma safe_assemble request : safe (J := J) k (safeAssembleModelContext opts request).
Proof. unfold safeAssembleModelContext. walk_safe. Qed.
Lemma safe_authorize q : safe (J := J) k (authorize opts q).
Proof. unfold authorize. walk_safe. Qed.
Lemma safe_chunk runID a chunk : safe (J := J) k (on_chunk opts runID a chunk).
Proof. unfold on_chunk. walk_safe. Qed.
#[local] Hint Resolve safe_assemble safe_authorize safe_chunk : fence.
Lemma safe_emit_chunks runID chunks : ∀ st a, safe (J := J) k (emit_chunks (λ t, Failure t false) (on_chunk opts runID) st a chunks).
Proof.
  induction chunks as [|c chunks IH]; intros st a; cbn [emit_chunks]; [walk_safe|]. apply safe_bind; [unfold emit; walk_safe|]. intros [st' a']. apply IH.
Qed.
#[local] Hint Resolve safe_emit_chunks : fence.
Lemma safe_callModel a info step messages : safe (J := J) k (callModel opts a info step messages).
Proof. unfold callModel, consumeModelStream. walk_safe. Qed.
Lemma safe_messages a info : safe (J := J) k (step_messages opts a info).
Proof. unfold step_messages. walk_safe. Qed.
#[local] Hint Resolve safe_callModel safe_messages : fence.

Lemma safe_model_step next a info step :
  (∀ a info step, safe k (next a info step)) → safe (J := J) k (model_step regexp_Compile parse_json resolve_credential opts next a info step).
Proof.
  intros Hnext. unfold model_step, after_model, appendModelUsage, appendAssistantUsage. pose proof (safe_continue next) as Hc. walk_safe.
Qed.

Lemma safe_steps fuel : ∀ a info step, safe (J := J) k (runModelSteps regexp_Compile parse_json resolve_credential opts fuel a info step).
Proof. induction fuel as [|fuel IH]; intros a info step; cbn [runModelSteps]; pose proof safe_model_step; walk_safe. Qed.
Lemma safe_run_steps a info step : safe (J := J) k (run_steps regexp_Compile parse_json resolve_credential opts a info step).
Proof. apply safe_steps. Qed.
#[local] Hint Resolve safe_run_steps safe_continue : fence.

Lemma safe_dispatch rules text : ∀ a, safe (J := J) k (Dispatch regexp_Compile parse_json resolve_credential opts a rules text).
Proof. induction rules as [|r rules IH]; intros a; cbn [Dispatch]; unfold dispatch_rule; walk_safe. Qed.
Lemma safe_fast_answer a info d : safe (J := J) k (fast_answer opts a info d).
Proof. unfold fast_answer. walk_safe. Qed.
#[local] Hint Resolve safe_dispatch safe_fast_answer : fence.
Lemma safe_fast_route a info rules text : safe (J := J) k (fast_route regexp_Compile parse_json resolve_credential opts a info rules text).
Proof. unfold fast_route. walk_safe. Qed.
#[local] Hint Resolve safe_fast_route : fence.

Lemma safe_do_turn a request : safe (J := J) k (do_turn regexp_Compile parse_json resolve_credential opts a request).
Proof. destruct request; cbn; unfold RunTurn, ResumeTurn, resumeApproval, continueTurn, refuse_turn; walk_safe. Qed.

End FencedTurn.

(** ** Books *)

(** What an agent program may do to the books of the run, started in [a]. *)
Section Books.
Context {J : Type → Type} `{!ToolInvocationJournal J} (regexp_Compile : string → option (string → bool)) (opts : GuardOptions).

Definition books {A} (a : agentState) (p : prog (agentE J) (A * agentState)) : Prop :=
  ∀ tr x a', runs p tr (x, a') → advance regexp_Compile opts a tr a'.

(** A part that keeps no state and starts no provider. *)
Definition calm {A} (p : prog (agentE J) A) : Prop := ∀ tr x, runs p tr x → quiet tr.

Lemma books_bind {A B} a (p : prog (agentE J) (A * agentState)) (f : A * agentState → prog (agentE J) (B * agentState)) :
  books a p → (∀ x a', books a' (f (x, a'))) → books a (pbind p f).
Proof. intros Hp Hf tr x a' H. open_runs H. destruct H as (tr1 & tr2 & [y b] & -> & H1 & H2). eapply advance_trans; [by eapply Hp|by eapply Hf]. Qed.

Lemma books_calm {A B} a (p : prog (agentE J) B) (f : B → prog (agentE J) (A * agentState)) :
  calm p → (∀ x, books a (f x)) → books a (pbind p f).
Proof.
  intros Hp Hf tr x a' H. open_runs H. destruct H as (tr1 & tr2 & b & -> & H1 & H2).
  eapply advance_trans; [apply idle_advance; [apply idle_refl|by eapply Hp]|by eapply Hf].
Qed.

Lemma books_ret {A} a (x : A) a' : idle a a' → books a (Ret (x, a')).
Proof. intros Hi tr y b [-> [= -> ->]]. apply idle_advance; [done|constructor]. Qed.

Lemma books_from {A} a a' (p : prog (agentE J) (A * agentState)) : idle a a' → books a' p → books a p.
Proof. intros Hi Hp tr x b H. rewrite <- (app_nil_l tr). eapply advance_trans; [apply idle_advance; [done|constructor]|by eapply Hp]. Qed.

Lemma calm_ret {A} (x : A) : calm (Ret x).
Proof. intros tr y [-> _]. constructor. Qed.
Lemma calm_ask {B} (e : agentE J B) : (∀ b, provider_start (Ev e b) = None) → calm (ask e).
Proof. intros He tr b H. open_runs H. subst tr. by apply quiet_one. Qed.
Lemma calm_bind {A B} (p : prog (agentE J) A) (f : A → prog (agentE J) B) : calm p → (∀ x, calm (f x)) → calm (pbind p f).
Proof. intros Hp Hf tr x H. open_runs H. destruct H as (tr1 & tr2 & y & -> & H1 & H2). apply quiet_app. split; [by eapply Hp|by eapply Hf]. Qed.
End Books.

Create HintDb books discriminated.
#[export] Hint Resolve idle_refl : books.

Ltac walk_calm :=
  repeat (cbv beta zeta; match goal with
  | |- calm (Ret _) => apply calm_ret
  | |- calm (ask _) => apply calm_ask; reflexivity
  | |- calm (pbind _ _) => apply calm_bind; [|intros ?]
  | |- calm (if ?c then _ else _) => destruct c
  | |- calm (match ?c with _ => _ end) => destruct c
  | |- calm _ => solve [eauto with books]
  end).

Ltac walk_books :=
  repeat (cbv beta zeta; match goal with
  | |- books _ _ _ (Ret _) => apply books_ret; solve [eauto with books]
  | |- books _ _ _ (pbind (A := prod _ agentState) _ _) => apply books_bind; [|intros ? ?]
  | |- books _ _ _ (pbind _ _) => apply books_calm; [solve [walk_calm]|intros ?]
  | |- books _ _ _ (if ?c then _ else _) => destruct c
  | |- books _ _ _ (match ?c with _ => _ end) => destruct c eqn:?
  | |- books _ _ _ _ => solve [eauto 6 with books]
  end).

Section TurnBooks.
Context {J : Type → Type} `{!ToolInvocationJournal J}.
Context (regexp_Compile : string → option (string → bool)) (parse_json : string → option json).
Context (resolve_credential : Principal → ScopePath → string → option string).
Context (opts : AgentOptions).
Notation books := (books (J := J) regexp_Compile (a_guard opts)).

Lemma books_append_batch a a0 entries : idle a a0 → books a (agent_appendBatch (a_guard opts) a0 entries).
Proof. intros Hi. apply (books_from _ _ _ a0); [done|]. intros tr x a' H. apply append_idle in H as [? ?]. by apply idle_advance. Qed.
Lemma books_append a a0 runID kind data : idle a a0 → books a (append opts a0 runID kind data).
Proof. apply books_append_batch. Qed.
Lemma books_execute a a0 call : idle a a0 → books a (execute regexp_Compile parse_json resolve_credential opts a0 call).
Proof. intros Hi. apply (books_from _ _ _ a0); [done|]. intros tr x a' H. by eapply Execute_advance. Qed.
#[local] Hint Resolve books_append_batch books_append books_execute : books.

Lemma calm_run_end info status : calm (J := J) (notifyRunEnd opts info status).
Proof. unfold notifyRunEnd. walk_calm. Qed.
Lemma calm_after_step info : calm (J := J) (after_step opts info).
Proof. unfold after_step. walk_calm. Qed.
#[local] Hint Resolve calm_run_end calm_after_step : books.

Lemma books_complete a a0 info status : idle a a0 → books a (complete opts a0 info status).
Proof. unfold complete. intros. walk_books. Qed.
Lemma books_fail a a0 info code e retryable : idle a a0 → books a (fail opts a0 info code e retryable).
Proof. unfold fail. intros. walk_books. Qed.
Lemma books_append_failed a a0 info e : idle a a0 → books a (append_failed opts a0 info e).
Proof. apply books_fail. Qed.
#[local] Hint Resolve books_complete books_fail books_append_failed : books.
Lemma books_completeStep a a0 info status : idle a a0 → books a (completeStep opts a0 info status).
Proof. unfold completeStep. intros. walk_books. Qed.
Lemma books_step_failed a a0 info code e retryable : idle a a0 → books a (step_failed opts a0 info code e retryable).
Proof. unfold step_failed. intros. walk_books. Qed.
Lemma idle_drop_resolution a id : idle a (drop_resolution id a).
Proof. done. Qed.
#[local] Hint Resolve books_completeStep books_step_failed idle_drop_resolution : books.
Lemma books_resolutions runID l : ∀ a a0, idle a a0 → books a (append_resolutions opts a0 runID l).
Proof. induction l as [|[id r] l IH]; intros a a0 Hi; cbn [append_resolutions]; walk_books. Qed.
Lemma books_approval_resolutions a a0 runID : idle a a0 → books a (appendApprovalResolutions opts a0 runID).
Proof. apply books_resolutions. Qed.
#[local] Hint Resolve books_approval_resolutions : books.
Lemma books_pause a a0 info pending call remaining fast : idle a a0 → books a (pauseForApproval opts a0 info pending call remaining fast).
Proof. unfold pauseForApproval. intros. walk_books. Qed.
#[local] Hint Resolve books_pause : books.

Lemma books_logged a a0 info call remaining fast : idle a a0 → books a (executeLoggedToolCall regexp_Compile parse_json resolve_credential opts a0 info call remaining fast).
Proof. unfold executeLoggedToolCall. intros. walk_books. Qed.
#[local] Hint Resolve books_logged : books.
Lemma books_tool_loop info b1 b2 calls : ∀ a a0, idle a a0 → books a (tool_loop regexp_Compile parse_json resolve_credential opts a0 info calls b1 b2).
Proof. induction calls as [|c calls IH]; intros a a0 Hi; cbn [tool_loop]; walk_books. Qed.
#[local] Hint Resolve books_tool_loop : books.
Lemma books_continue next a a0 info calls b1 b2 :
  (∀ a a0 info step, idle a a0 → books a (next a0 info step)) → idle a a0 →
  books a (continueToolCalls regexp_Compile parse_json resolve_credential opts next a0 info calls b1 b2).
Proof. intros Hnext Hi. unfold continueToolCalls. walk_books. Qed.

Lemma calm_assemble request : calm (J := J) (safeAssembleModelContext opts request).
Proof. unfold safeAssembleModelContext. walk_calm. Qed.
Lemma calm_authorize q : calm (J := J) (authorize opts q).
Proof. unfold authorize. walk_calm. Qed.
Lemma calm_ctx_error : calm (J := J) ctx_error.
Proof. unfold ctx_error. walk_calm. Qed.
Lemma books_chunk runID a a0 chunk : idle a a0 → books a (on_chunk opts runID a0 chunk).
Proof. unfold on_chunk. intros. walk_books. Qed.
#[local] Hint Resolve calm_assemble calm_authorize calm_ctx_error books_chunk : books.
Lemma books_emit_chunks runID chunks : ∀ st a a0, idle a a0 → books a (emit_chunks (λ t, Failure t false) (on_chunk opts runID) st a0 chunks).
Proof.
  induction chunks as [|c chunks IH]; intros st a a0 Hi; cbn [emit_chunks]; [walk_books|]. apply books_bind; [unfold emit; walk_books|]. intros st' a'. eauto with books.
Qed.
#[local] Hint Resolve books_emit_chunks : books.
Lemma books_callModel a a0 info step messages : idle a a0 → books a (callModel opts a0 info step messages).
Proof. intros Hi. unfold callModel, consumeModelStream. walk_books. Qed.

Lemma appendBatch_id clock s entries s' events : appendBatch clock s entries = Ok (s', events) → s_id s' = s_id s.
Proof.
  unfold appendBatch. intros H. apply fail_if_ok in H as [_ H]. apply rbind_ok in H as (ps & _ & H). apply rbind_ok in H as (u & _ & H).
  injection H as <- _. apply commit_entries_id.
Qed.
Lemma apply_batches_id clock batches : ∀ s, s_id (apply_batches clock s batches) = s_id s.
Proof.
  unfold apply_batches. induction batches as [|b batches IH]; intros s; [done|]. cbn [foldl]. rewrite IH.
  destruct (appendBatch clock s b) as [[s' ?]|] eqn:E; [by eapply appendBatch_id|done].
Qed.
Lemma idle_batches clock a a0 batches : idle a a0 → idle a (set_session (apply_batches clock (ag_session a0) batches) a0).
Proof. intros Hi. eapply idle_trans; [exact Hi|]. apply idle_session, apply_batches_id. Qed.
Lemma idle_derived a a0 s x : idle a a0 → DeriveMessages (ag_session a0) = (x, s) → idle a (set_session s a0).
Proof.
  intros Hi H. eapply idle_trans; [exact Hi|]. apply idle_session. unfold DeriveMessages in H.
  repeat (destruct_match_in H; cbn in H); by injection H as _ <-.
Qed.
#[local] Hint Resolve books_callModel idle_batches idle_derived : books.
Lemma books_messages a a0 info : idle a a0 → books a (step_messages opts a0 info).
Proof. unfold step_messages. intros. walk_books. Qed.
#[local] Hint Resolve books_messages : books.

Lemma books_model_step next a a0 info step :
  (∀ a a0 info step, idle a a0 → books a (next a0 info step)) → idle a a0 →
  books a (model_step regexp_Compile parse_json resolve_credential opts next a0 info step).
Proof.
  intros Hnext Hi. unfold model_step, after_model, appendModelUsage, appendAssistantUsage. pose proof (books_continue next) as Hc. walk_books.
Qed.

Lemma books_steps fuel : ∀ a a0 info step, idle a a0 → books a (runModelSteps regexp_Compile parse_json resolve_credential opts fuel a0 info step).
Proof. pose proof books_model_step. induction fuel as [|fuel IH]; intros a a0 info step Hi; cbn [runModelSteps]; walk_books. Qed.
Lemma books_run_steps a a0 info step : idle a a0 → books a (run_steps regexp_Compile parse_json resolve_credential opts a0 info step).
Proof. apply books_steps. Qed.
#[local] Hint Resolve books_run_steps books_continue : books.

Lemma books_dispatch rules text : ∀ a a0, idle a a0 → books a (Dispatch regexp_Compile parse_json resolve_credential opts a0 rules text).
Proof. induction rules as [|r rules IH]; intros a a0 Hi; cbn [Dispatch]; unfold dispatch_rule; walk_books. Qed.
Lemma books_fast_answer a a0 info d : idle a a0 → books a (fast_answer opts a0 info d).
Proof. unfold fast_answer. intros. walk_books. Qed.
#[local] Hint Resolve books_dispatch books_fast_answer : books.
Lemma books_fast_route a a0 info rules text : idle a a0 → books a (fast_route regexp_Compile parse_json resolve_credential opts a0 info rules text).
Proof. unfold fast_route. intros. walk_books. Qed.
#[local] Hint Resolve books_fast_route : books.
Lemma books_resume a a0 info pending : idle a a0 → books a (resumeApproval regexp_Compile parse_json resolve_credential opts a0 info pending).
Proof. unfold resumeApproval, refuse_turn. intros. walk_books. Qed.
#[local] Hint Resolve books_resume : books.

Lemma idle_revision a revision : idle a (set_revision revision a).
Proof. done. Qed.
#[local] Hint Resolve idle_revision : books.

(** A turn is refused before anything happens, or keeps the books of the run it
    starts from. *)
Definition turn_kept (a : agentState) (request : TurnRequest) (p : prog (agentE J) (turn_outcome * agentState)) : Prop :=
  (∀ tr x, runs p tr x → tr = []) ∨ books (start_state a request) p.

Lemma kept_ret a request x : turn_kept a request (Ret x).
Proof. left. by intros tr y [-> _]. Qed.
Lemma kept_books a request p : books (start_state a request) p → turn_kept a request p.
Proof. by right. Qed.

Lemma turn_books a request : turn_kept a request (do_turn regexp_Compile parse_json resolve_credential opts a request).
Proof.
  destruct request as [input|runID|runID]; cbn [do_turn].
  - unfold RunTurn. destruct (turn_composition opts input) as [[[c r] s]|]; [|apply kept_ret]. apply kept_books. cbn [start_state]. walk_books.
  - unfold ResumeTurn. destruct (ValidateRunID runID); [|apply kept_ret]. destruct (PendingApproval _ _) as [[pending|]|]; [|apply kept_ret..].
    destruct (CompositionRevision _); [|apply kept_ret]. apply kept_books. cbn [start_state]. walk_books.
  - unfold continueTurn. destruct (bool_decide _); [apply kept_ret|]. destruct (postResultContinuation _ _) as [[[step calls] completed]|]; [|apply kept_ret].
    destruct (negb _); [apply kept_ret|]. destruct (CompositionRevision _); [|apply kept_ret]. apply kept_books. cbn [start_state]. walk_books.
Qed.

Lemma turn_cases a request tr o a' :
  runs (do_turn regexp_Compile parse_json resolve_credential opts a request) tr (o, a') →
  tr = [] ∨ advance regexp_Compile (a_guard opts) (start_state a request) tr a'.
Proof. destruct (turn_books a request) as [Hn|Hb]; intros H; [left; by eapply Hn|right; by eapply Hb]. Qed.
End TurnBooks.

(** ** Concurrent workers *)

Section System.
Context {J : Type → Type} `{!ToolInvocationJournal J, !FencingJournal J}.

(** Every worker runs a program of its own against the shared store; the log
    holds what was done, in order. *)
Record system := mk_system {
  sys_store : fj_store; sys_workers : list (prog (agentE J) (turn_outcome * agentState)); sys_log : list (event (agentE J)) }.

(** The store answers its statements; anything else may answer anything. *)
Definition answers {B} (e : agentE J B) : fj_store → B → fj_store → Prop :=
  match e in agentE _ B return fj_store → B → fj_store → Prop with
  | StoreE q => λ s b s', fj_step _ q s b s'
  | _ => λ s _ s', s' = s
  end.

Inductive sys_step : system → system → Prop :=
| sys_spawn regexp_Compile parse_json resolve_credential opts a request s ws log :
    sys_step (mk_system s ws log) (mk_system s (ws ++ [do_turn regexp_Compile parse_json resolve_credential opts a request]) log)
| sys_act j B (e : agentE J B) f b s s' ws log :
    ws !! j = Some (Vis e f) → answers e s b s' →
    sys_step (mk_system s ws log) (mk_system s' (<[j := f b]> ws) (log ++ [Ev e b]))
| sys_crash j s ws log : sys_step (mk_system s ws log) (mk_system s (delete j ws) log).

Definition is_spend (k : jkey) (ev : event (agentE J)) : Prop := match ev with Ev e _ => spends k e = true end.
#[export] Instance is_spend_dec k ev : Decision (is_spend k ev).
Proof. destruct ev as [B e b]. exact (bool_eq_dec (spends k e) true). Defined.

(** The provider starts for non-idempotent calls with the key. *)
Definition starts (k : jkey) (log : list (event (agentE J))) : nat := length (filter (is_spend k) log).

Lemma starts_snoc k log ev : starts k (log ++ [ev]) = (starts k log + if decide (is_spend k ev) then 1 else 0)%nat.
Proof. unfold starts. rewrite filter_app, length_app. f_equal. cbn. by case_decide. Qed.

Definition total (ns : list nat) : nat := foldr Nat.add O ns.

Definition fenced (k : jkey) (c : system) : Prop :=
  ∃ ns, Forall2 (λ n p, held k n p (λ _ _, True)) ns (sys_workers c)
    ∧ (total ns + starts k (sys_log c) ≤ 1)%nat
    ∧ ((0 < total ns + starts k (sys_log c))%nat → fj_taken (sys_store c) k).

Lemma total_update (ns : list nat) j n m : ns !! j = Some n → (total (<[j := m]> ns) + n = total ns + m)%nat.
Proof.
  revert j. induction ns as [|x ns IH]; intros [|j] H; [done..| |].
  - injection H as ->. cbn. lia.
  - specialize (IH j H). change (<[S j := m]> (x :: ns)) with (x :: <[j := m]> ns). cbn [total foldr]. unfold total in *. lia.
Qed.

Lemma total_delete (ns : list nat) j : (total (delete j ns) ≤ total ns)%nat.
Proof.
  revert j. induction ns as [|x ns IH]; intros [|j]; [cbn; lia..|].
  specialize (IH j). change (delete (S j) (x :: ns)) with (x :: delete j ns). cbn [total foldr]. unfold total in *. lia.
Qed.

Lemma total_snoc_zero ns : total (ns ++ [O]) = total ns.
Proof. unfold total. induction ns as [|x ns IH]; [done|]. cbn. by rewrite IH. Qed.

Lemma fenced_step k c c' : sys_step c c' → fenced k c → fenced k c'.
Proof.
  intros Hstep (ns & Hall & Hsum & Htaken). destruct Hstep as [rc pj cr opts a request s ws log|j B e f b s s' ws log Hj Hans|j s ws log]; unfold fenced; cbn [sys_workers sys_log sys_store] in *.
  - exists (ns ++ [O]). split; [|by rewrite total_snoc_zero].
    apply Forall2_app; [done|]. constructor; [apply (safe_do_turn rc pj cr opts k)|constructor].
  - destruct (Forall2_lookup_r _ _ _ _ _ Hall Hj) as (n & Hn & Hheld). cbn in Hheld.
    destruct (spends k e) eqn:Espend.
    + destruct n as [|n]; [done|]. pose proof (total_update _ _ _ n Hn) as Hupd.
      assert (s' = s) as -> by (by destruct e).
      exists (<[j := n]> ns). split; [by apply Forall2_insert|]. rewrite starts_snoc, decide_True by done.
      split; [lia|]. intros _. apply Htaken. lia.
    + pose proof (total_update _ _ _ (n + gain k e b)%nat Hn) as Hupd.
      exists (<[j := (n + gain k e b)%nat]> ns). split; [by apply Forall2_insert|]. rewrite starts_snoc, decide_False by (cbn; congruence).
      destruct e; cbn [answers gain] in *; try (subst s'; split; [lia|intros; apply Htaken; lia]). case_decide as Hc.
      * destruct (fj_claim _ _ _ _ _ _ Hans Hc) as [Hfree Hnow]. destruct (decide (0 < total ns + starts k log)%nat) as [H0|H0]; [by apply Htaken in H0|].
        split; [lia|done].
      * split; [lia|]. intros ?. eapply fj_keeps; [exact Hans|]. apply Htaken. lia.
  - exists (delete j ns). pose proof (total_delete ns j). split; [by apply Forall2_delete|]. split; [lia|]. intros ?. apply Htaken. lia.
Qed.

(** An environment whose store answers by the store's steps drives a worker to
    its end. *)
Lemma drive_steps (h : ∀ B, agentE J B → fj_store → B * fj_store) (p : prog (agentE J) (turn_outcome * agentState)) :
  (∀ B (e : agentE J B) s, answers e s (h B e s).1 (h B e s).2) →
  ∀ s ws log j, ws !! j = Some p →
  rtc sys_step (mk_system s ws log) (mk_system (drive h p s).1.2 (<[j := Ret (drive h p s).1.1]> ws) (log ++ (drive h p s).2)).
Proof.
  intros Hh. induction p as [a|B e f IH]; intros s ws log j Hj; cbn.
  - rewrite app_nil_r, list_insert_id by done. constructor.
  - specialize (Hh B e s). destruct (h B e s) as [b s1]. cbn in Hh.
    specialize (IH b s1 (<[j := f b]> ws) (log ++ [Ev e b]) j). destruct (drive h (f b) s1) as [[a s2] tr]. cbn in IH |- *.
    eapply rtc_l; [by apply sys_act|]. rewrite list_insert_insert_eq, <- app_assoc in IH. cbn in IH. apply IH.
    apply list_lookup_insert_eq. by eapply lookup_lt_Some.
Qed.

End System.
