(* ===== verification/TurnReport.v ===== *)
(** * What a turn tells its caller, and the model calls it makes

    [good n P p Q]: along every trace of [p] at most [n] model calls are made,
    each of them sanctioned; and if [P] held at the start, and the summariser
    ended no run by itself, [Q] holds of the result.  Carried through the agent
    loop this bounds the model calls of a turn by its step limit, shows that
    the gate authorised each of them, and that the status a turn returns is the
    one the log records. *)
From S2P Require Import Prelude Prog GoString Json Schema Scope Principal GoTime Policy Payload Events Message Session Projection SessionLog SessionClaims Compactor Capability CapabilityClaims ModelCall Journal Guard Agent.
From stdpp Require Import gmap strings list sorting.
From Stdlib Require Import ZArith Lia.
Open Scope Z_scope.

(** ** The index after an append *)

Definition unended (rid : string) (a : agentState) : Prop := ended (entry_at (s_runIndex (ag_session a)) rid) = false.

Definition no_end (e : sessionAppendEntry) : Prop := ae_kind e ≠ EvRunEnd.

Lemma commit_unended clock ps rid : ∀ s, Forall no_end ps →
  ended (entry_at (s_runIndex s) rid) = false → ended (entry_at (s_runIndex (foldl (commit_entry clock) s ps)) rid) = false.
Proof.
  induction ps as [|p ps IH]; intros s Hall Hs; [done|]. apply Forall_cons in Hall as [Hp Hall]. cbn [foldl]. apply IH; [done|].
  rewrite commit_runIndex, entry_at_index. case_decide; [|done]. cbn [ev_Type commit_event]. unfold no_end in Hp.
  destruct (ae_kind p); try done; unfold index_entry; destruct (eventData _ _ _) as [[]|]; done.
Qed.

Lemma prepare_no_end entries : ∀ ps, prepare_all entries = Ok ps → Forall no_end entries → Forall no_end ps.
Proof.
  induction entries as [|e entries IH]; intros ps H Hall; cbn in H; [by simplify_eq|]. apply Forall_cons in Hall as [He Hall].
  apply rbind_ok in H as (p & Hp & H). apply rbind_ok in H as (ps' & Hps & H). simplify_eq. constructor; [|by apply IH].
  apply prepare_entry_same in Hp as (_ & Hk & _). unfold no_end in *. by rewrite Hk.
Qed.

Lemma appendBatch_unended clock s entries s' events rid :
  appendBatch clock s entries = Ok (s', events) → Forall no_end entries →
  ended (entry_at (s_runIndex s) rid) = false → ended (entry_at (s_runIndex s') rid) = false.
Proof. intros H Hall. apply appendBatch_ok in H as (ps & Hp & _ & -> & _). apply commit_unended. by eapply prepare_no_end. Qed.

(** One typed entry, indexed. *)
Lemma append_one clock s rid kind data s' events :
  kind_matches kind data = true → appendBatch clock s [append_entry rid kind data] = Ok (s', events) →
  ValidateRunID rid = Ok tt ∧ ∃ en, s_runIndex s' !! rid = Some en ∧ en = index_entry (entry_at (s_runIndex s) rid) kind (s_len s) (Some data).
Proof.
  intros Hk H. apply appendBatch_ok in H as (ps & Hp & _ & -> & _). cbn in Hp. apply rbind_ok in Hp as (p & Hp & H). simplify_eq.
  pose proof (prepare_entry_same _ _ Hp) as (H1 & H2 & H3). cbn in H1, H2, H3. split.
  { unfold prepare_entry in Hp. cbn [ae_runID append_entry] in Hp. by apply rbind_ok in Hp as ([] & ? & _). }
  cbn [foldl]. rewrite commit_runIndex. unfold indexEvent. cbn [commit_event RunID ev_Type Seq]. rewrite H1, H2, H3, lookup_insert_eq.
  eexists. split; [done|]. unfold eventData. by rewrite Hk.
Qed.

Lemma append_end_status clock s rid status s' events :
  ended (entry_at (s_runIndex s) rid) = false → appendBatch clock s [append_entry rid EvRunEnd (DRunEnd (mk_end status))] = Ok (s', events) →
  RunStatus s' rid = (status, true).
Proof.
  intros Hu H. apply append_one in H as (Hv & en & Hen & ->); [|done]. unfold RunStatus. rewrite Hv, Hen. cbn. by rewrite Hu.
Qed.

Lemma append_request_status clock s rid d s' events :
  ended (entry_at (s_runIndex s) rid) = false → appendBatch clock s [append_entry rid EvApprovalRequested (DApprovalRequested d)] = Ok (s', events) →
  RunStatus s' rid = (RunWaitingApproval, true).
Proof.
  intros Hu H. apply append_one in H as (Hv & en & Hen & ->); [|done]. unfold RunStatus. rewrite Hv, Hen. cbn. rewrite Hu.
  rewrite bool_decide_eq_false_2; [done|]. apply insert_non_empty.
Qed.

Lemma pending_status s rid d : ended (entry_at (s_runIndex s) rid) = false → PendingApproval s rid = Ok (Some d) → RunStatus s rid = (RunWaitingApproval, true).
Proof.
  unfold PendingApproval, RunStatus, entry_at. intros Hu H. apply rbind_ok in H as ([] & -> & H). cbn [is_ok negb].
  destruct (s_runIndex s !! rid) as [en|]; [|done]. cbn in Hu. rewrite Hu. by destruct (bool_decide _).
Qed.

(** ** Traces *)

Section Report.
Context {J : Type → Type} `{!ToolInvocationJournal J}.
Context (regexp_Compile : string → option (string → bool)) (parse_json : string → option json).
Context (resolve_credential : Principal → ScopePath → string → option string).
Context (opts : AgentOptions) (rid sid : string) (principal : Principal).

Definition model_call (ev : event (agentE J)) : option GenerateOptions := match ev with Ev (StreamModel g) _ => Some g | _ => None end.
Definition model_calls (tr : list (event (agentE J))) : nat := length (omap model_call tr).

(** The call is made for this run, under its principal, with the configured
    provider and model; a configured gate authorised exactly this call before
    it, and the adapter can check that. *)
Definition sanctioned (tr : list (event (agentE J))) : Prop :=
  ∀ tr1 ev tr2 g, tr = tr1 ++ ev :: tr2 → model_call ev = Some g →
  mq_RunID (ModelCall g) = rid ∧ mq_SessionID (ModelCall g) = sid ∧ mq_Principal (ModelCall g) = principal
  ∧ go_Provider g = a_Provider opts ∧ go_Model g = a_Model opts
  ∧ (a_ModelCallGate opts = true → RequireAcceptedModelCall g = Ok tt ∧ Ev (AuthorizeModelCall (cloneModelCallRequest (ModelCall g))) None ∈ tr1).

Definition metered (n : nat) (tr : list (event (agentE J))) : Prop := (model_calls tr ≤ n)%nat ∧ sanctioned tr.

(** The summariser appended no run/end. *)
Definition benign (ev : event (agentE J)) : Prop :=
  match ev with
  | Ev e b => match e in agentE _ B return B → Prop with
              | EnsureSummarized _ _ => λ b, Forall (Forall no_end) b.1
              | _ => λ _, True
              end b
  end.

Lemma model_calls_app t1 t2 : model_calls (t1 ++ t2) = (model_calls t1 + model_calls t2)%nat.
Proof. unfold model_calls. by rewrite omap_app, length_app. Qed.

Lemma sanctioned_app t1 t2 : sanctioned t1 → sanctioned t2 → sanctioned (t1 ++ t2).
Proof.
  intros H1 H2 tr1 ev tr2 g Heq Hev. apply app_eq_inv in Heq as [(k & -> & Hk)|(k & -> & Hk)].
  - destruct k as [|ev' k]; cbn in Hk.
    + subst t2. destruct (H2 [] _ _ _ eq_refl Hev) as (? & ? & ? & ? & ? & Hg). split_and!; try done.
      intros E. destruct (Hg E) as [_ Hin]. by apply not_elem_of_nil in Hin.
    + injection Hk as <- ->. by eapply H1.
  - destruct (H2 _ _ _ _ Hk Hev) as (? & ? & ? & ? & ? & Hg). split_and!; try done. intros E. destruct (Hg E). split; [done|]. apply elem_of_app. by right.
Qed.

Lemma mute_sanctioned tr : model_calls tr = O → sanctioned tr.
Proof.
  intros H tr1 ev tr2 g -> Hev. exfalso. rewrite model_calls_app in H. unfold model_calls in H at 2.
  cbn in H. rewrite Hev in H. cbn in H. lia.
Qed.

Lemma metered_app n m t1 t2 : metered n t1 → metered m t2 → metered (n + m) (t1 ++ t2).
Proof. intros [] []. split; [rewrite model_calls_app; lia|by apply sanctioned_app]. Qed.
Lemma metered_mute n tr : model_calls tr = O → metered n tr.
Proof. intros H. split; [lia|by apply mute_sanctioned]. Qed.
Lemma metered_le n m tr : (n ≤ m)%nat → metered n tr → metered m tr.
Proof. intros ? []. split; [lia|done]. Qed.

(** ** The rules *)

Definition mute {A} (p : prog (agentE J) A) : Prop := ∀ tr x, runs p tr x → model_calls tr = O.

Definition good {A} (n : nat) (P : Prop) (p : prog (agentE J) (A * agentState)) (Q : A → agentState → Prop) : Prop :=
  ∀ tr x a', runs p tr (x, a') → metered n tr ∧ (Forall benign tr → P → Q x a').

Lemma good_bind {A B} n m P (p : prog (agentE J) (A * agentState)) (f : A * agentState → prog (agentE J) (B * agentState)) Q1 Q :
  good n P p Q1 → (∀ x a', good m (Q1 x a') (f (x, a')) Q) → good (n + m) P (pbind p f) Q.
Proof.
  intros Hp Hf tr x a' H. open_runs H. destruct H as (tr1 & tr2 & [y b] & -> & H1 & H2). apply Hp in H1 as [M1 K1]. apply Hf in H2 as [M2 K2].
  split; [by apply metered_app|]. intros Hb HP. apply Forall_app in Hb as [? ?]. auto.
Qed.
Lemma good_bind0 {A B} n P (p : prog (agentE J) (A * agentState)) (f : A * agentState → prog (agentE J) (B * agentState)) Q1 Q :
  good 0 P p Q1 → (∀ x a', good n (Q1 x a') (f (x, a')) Q) → good n P (pbind p f) Q.
Proof. apply (good_bind 0 n). Qed.
Lemma good_mute {A B} n P (p : prog (agentE J) A) (f : A → prog (agentE J) (B * agentState)) Q :
  mute p → (∀ x, good n P (f x) Q) → good n P (pbind p f) Q.
Proof.
  intros Hp Hf tr x a' H. open_runs H. destruct H as (tr1 & tr2 & y & -> & H1 & H2). apply Hp in H1. apply Hf in H2 as [M2 K2].
  split; [apply (metered_app 0); [by apply metered_mute|done]|]. intros Hb HP. apply Forall_app in Hb as [? ?]. auto.
Qed.
Lemma good_ret {A} n (P : Prop) (x : A) a (Q : A → agentState → Prop) : (P → Q x a) → good n P (Ret (x, a)) Q.
Proof. intros HQ tr y b [-> [= -> ->]]. split; [by apply metered_mute|auto]. Qed.
Lemma good_conseq {A} n m (P P' : Prop) (p : prog (agentE J) (A * agentState)) (Q Q' : A → agentState → Prop) :
  (m ≤ n)%nat → (P → P') → (∀ x a, Q' x a → Q x a) → good m P' p Q' → good n P p Q.
Proof. intros Hn HP HQ H tr x a' Hr. apply H in Hr as [M K]. split; [by eapply metered_le|auto]. Qed.
Lemma good_pre {A} n (P P' : Prop) (p : prog (agentE J) (A * agentState)) (Q : A → agentState → Prop) : (P → P') → good n P' p Q → good n P p Q.
Proof. intros HP. by apply good_conseq. Qed.
Lemma good_know {A} n (P P' : Prop) (p : prog (agentE J) (A * agentState)) (Q : A → agentState → Prop) : P' → good n (P ∧ P') p Q → good n P p Q.
Proof. intros HP. by apply good_pre. Qed.

Lemma mute_ret {A} (x : A) : mute (Ret x).
Proof. by intros tr y [-> _]. Qed.
Lemma mute_ask {B} (e : agentE J B) : (∀ b, model_call (Ev e b) = None) → mute (ask e).
Proof. intros He tr b H. open_runs H. subst tr. specialize (He b). by destruct e. Qed.
Lemma mute_bind {A B} (p : prog (agentE J) A) (f : A → prog (agentE J) B) : mute p → (∀ x, mute (f x)) → mute (pbind p f).
Proof. intros Hp Hf tr x H. open_runs H. destruct H as (tr1 & tr2 & y & -> & H1 & H2). by rewrite model_calls_app, (Hp _ _ H1), (Hf _ _ _ H2). Qed.
Lemma mute_store {A} (p : prog J A) : mute (store p).
Proof.
  induction p as [a|B e f IH]; intros tr r H; cbn in H; [by destruct H as [-> _]|]. destruct H as (b & tr' & -> & H).
  exact (IH b _ _ H).
Qed.

(** A part of a turn: no model call, and the run is not ended by it. *)
Definition part {A} (a : agentState) (p : prog (agentE J) (A * agentState)) : Prop := ∀ n, good n (unended rid a) p (λ _ a', unended rid a').

Lemma good_part {A} n a (p : prog (agentE J) (A * agentState)) : part a p → good n (unended rid a) p (λ _ a', unended rid a').
Proof. done. Qed.

(** The session refuses the end of the run. *)
Definition end_refused (s : Session) (status : string) : Prop :=
  ∃ clock e, appendBatch clock s [append_entry rid EvRunEnd (DRunEnd (mk_end status))] = Err e.

(** The statuses of a run that ends by itself. *)
Definition closing (status : string) : Prop := status = RunCompleted ∨ status = RunLimited.

(** What the outcome of a turn says of the log.  With an error, the turn has
    either no result, the run being open or closed normally, or it reports the
    status of a failure, which the log has recorded unless the session refused
    it. *)
Definition reported (o : turn_outcome) (a : agentState) : Prop :=
  match o with
  | (r, None) => tr_RunID r = rid ∧ RunStatus (ag_session a) rid = (tr_Status r, true)
      ∧ (tr_Status r = RunWaitingApproval ∨ tr_Answer r = LastAssistantText (ag_session a) rid)
  | (r, Some e) =>
      (r = no_result ∧ (unended rid a ∨ ∃ status, closing status ∧ RunStatus (ag_session a) rid = (status, true)))
      ∨ (tr_RunID r = rid ∧ tr_Status r = (if is_context e then RunCancelled else RunFailed) ∧ tr_Answer r = LastAssistantText (ag_session a) rid
         ∧ (RunStatus (ag_session a) rid = (tr_Status r, true) ∨ end_refused (ag_session a) (tr_Status r)))
  end.
Lemma reported_refused a e : unended rid a → reported (no_result, Some e) a.
Proof. left. auto. Qed.
Definition stopped_or (x : option turn_outcome) (a : agentState) : Prop := match x with Some o => reported o a | None => unended rid a end.

End Report.

Create HintDb good discriminated.
#[export] Hint Resolve good_part reported_refused : good.
#[export] Hint Extern 1 (closing _) => first [by left|by right] : good.

Ltac walk_mute :=
  repeat (cbv beta zeta; match goal with
  | |- mute (Ret _) => apply mute_ret
  | |- mute (ask _) => apply mute_ask; reflexivity
  | |- mute (pbind _ _) => apply mute_bind; [|intros ?]
  | |- mute (store _) => apply mute_store
  | |- mute (if ?c then _ else _) => destruct c
  | |- mute (match ?c with _ => _ end) => destruct c
  | |- mute _ => solve [eauto with good]
  end).

Ltac walk_good :=
  repeat (cbv beta zeta iota; match goal with
  | |- good _ _ _ _ _ _ (Ret _) _ => apply good_ret; solve [auto | cbn; tauto | eauto with good]
  | |- good _ _ _ _ _ _ (pbind (A := prod _ agentState) _ _) _ => eapply good_bind0; [solve [eauto with good]|intros ? ?]
  | |- good _ _ _ _ _ _ (pbind (A := prod _ agentState) (if ?c then _ else _) _) _ => destruct c
  | |- good _ _ _ _ _ _ (pbind (A := prod _ agentState) (match ?c with _ => _ end) _) _ => destruct c
  | |- good _ _ _ _ _ _ (pbind (A := prod _ agentState) (Ret _) _) _ => cbn [pbind]
  | |- good _ _ _ _ _ _ (pbind _ _) _ => apply good_mute; [solve [walk_mute]|intros ?]
  | |- good _ _ _ _ _ _ (if ?c then _ else _) _ => destruct c
  | |- good _ _ _ _ _ _ (match ?c with _ => _ end) _ => destruct c eqn:?
  | |- good _ _ _ _ _ _ _ _ => solve [eauto with good]
  end).

(** ** The funnel *)

Section Funnel.
Context {J : Type → Type} `{!ToolInvocationJournal J}.
Context (regexp_Compile : string → option (string → bool)) (parse_json : string → option json).
Context (resolve_credential : Principal → ScopePath → string → option string).
Context (opts : AgentOptions) (rid sid : string) (principal : Principal).
Notation good := (good (J := J) opts rid sid principal).
Notation part := (part (J := J) opts rid sid principal).
Notation guard := (a_guard opts).

Lemma mute_emit events : ∀ first, mute (J := J) (emit_all events first).
Proof. induction events as [|e events IH]; intros first; cbn [emit_all]; walk_mute; apply IH. Qed.
#[local] Hint Resolve mute_emit : good.

(** An append, with what the session says when it succeeded. *)
Lemma good_append n (a : agentState) entries (Q : option go_error → agentState → Prop) (P : Prop) :
  (∀ clock e, appendBatch clock (ag_session a) entries = Err e → P → Q (Some (Failure e false)) a) →
  (∀ clock s events, appendBatch clock (ag_session a) entries = Ok (s, events) → P → ∀ err, Q err (set_session s a)) →
  good n P (agent_appendBatch guard a entries) Q.
Proof.
  intros Hfail Hok. unfold agent_appendBatch. apply good_mute; [apply mute_ask; reflexivity|]. intros clock.
  destruct (appendBatch clock (ag_session a) entries) as [[s events]|] eqn:E; [|by apply good_ret; eauto].
  destruct (g_OnEvent guard); [apply good_mute; [apply mute_emit|]; intros first|]; apply good_ret; eauto.
Qed.

Lemma part_batch a entries : Forall no_end entries → part a (agent_appendBatch guard a entries).
Proof. intros Hall n. apply good_append; [done|]. intros clock s events H Hu _. by eapply appendBatch_unended. Qed.
Lemma part_append a runID kind data : kind ≠ EvRunEnd → part a (append opts a runID kind data).
Proof. intros Hk. apply part_batch. by repeat constructor. Qed.

Lemma part_approval a info call m : part a (requestApproval guard a info call m).
Proof. intros n. unfold requestApproval. walk_good. Qed.
Lemma part_gates a info call m resuming : part a (manifest_gates guard a info call m resuming).
Proof. intros n. unfold manifest_gates. pose proof part_approval as Ha. walk_good. Qed.
Lemma mute_after info call r : mute (J := J) (after_tool guard info call r).
Proof. unfold after_tool. walk_mute. Qed.
#[local] Hint Resolve mute_after : good.
Lemma part_refuse a info call r : part a (refuse guard a info call r).
Proof. intros n. unfold refuse. walk_good. Qed.
Lemma mute_begin info call manifest : mute (J := J) (journal_begin regexp_Compile parse_json info call manifest).
Proof. unfold journal_begin. walk_mute. Qed.
Lemma mute_end call manifest i o : mute (J := J) (journal_end regexp_Compile parse_json call manifest i o).
Proof. unfold journal_end. walk_mute. Qed.
#[local] Hint Resolve mute_begin mute_end part_refuse part_gates : good.

Section Step.
Context (invoke : agentState → ToolCall → prog (agentE J) (tool_outcome * agentState)).
Hypothesis invoke_part : ∀ a call, part a (invoke a call).

Lemma part_run_provider t : ∀ a, part a (run_provider invoke t a).
Proof. induction t as [o|call f IH]; intros a n; cbn [run_provider]; [walk_good|]. eapply good_bind0; [apply invoke_part|]. intros o a'. apply IH. Qed.
#[local] Hint Resolve part_run_provider : good.
Lemma part_inner a call accepted : part a (execute_inner regexp_Compile parse_json resolve_credential guard invoke a call accepted).
Proof. intros n. unfold execute_inner. walk_good. Qed.
#[local] Hint Resolve part_inner : good.
Lemma part_admitted a info call manifest : part a (execute_admitted regexp_Compile parse_json resolve_credential guard invoke a info call manifest).
Proof. intros n. unfold execute_admitted. walk_good. Qed.
#[local] Hint Resolve part_admitted : good.

(** The counters are not read by [unended]. *)
Lemma part_books {A} a a0 (p : prog (agentE J) (A * agentState)) : ag_session a0 = ag_session a → part a0 p → part a p.
Proof. intros Hs Hp n. eapply good_pre; [|apply Hp]. unfold unended. by rewrite Hs. Qed.

Lemma part_guarded a call : part a (execute_guarded regexp_Compile parse_json resolve_credential guard invoke a call).
Proof.
  intros n. unfold execute_guarded. cbv zeta. remember (bool_decide (tc_ID call ∈ ag_resumeCallIDs a)) as resuming eqn:Hres. clear Hres.
  remember (if resuming then set_resume (ag_resumeCallIDs a ∖ {[tc_ID call]}) a else a) as a0 eqn:Ha0.
  eapply good_pre with (P' := unended rid a0); [by subst a0; destruct resuming|]. clear Ha0 a.
  destruct (negb resuming && _); [walk_good|]. remember (if resuming then a0 else add_call a0) as a1 eqn:Ha1.
  eapply good_pre with (P' := unended rid a1); [by subst a1; destruct resuming|]. clear Ha1.
  destruct (match ManifestFor _ _ with Some m => _ | None => _ end); [|walk_good].
  apply good_mute; [walk_mute|]. intros [e|]; [walk_good|].
  apply good_bind0 with (Q1 := λ _ a', unended rid a'); [walk_good|]. intros gate a2. destruct gate as [u|[r|e]]; [|walk_good..].
  apply (part_books _ (if resuming then a2 else add_count (tc_Name call) a2)); [by destruct resuming|apply part_admitted].
Qed.
End Step.

Lemma part_invoke (exec : agentState → ToolCall → prog (agentE J) (tool_outcome * agentState)) :
  (∀ a call, part a (exec a call)) → ∀ a call, part a (InvokeTool guard exec a call).
Proof.
  intros Hexec a call n. unfold InvokeTool, agent_append.
  assert (∀ a e, ae_kind e ≠ EvRunEnd → part a (agent_appendBatch guard a [e])) as Happ by (intros ? ? ?; apply part_batch; by repeat constructor).
  destruct (ToolResult _ _ _) as [[r|]|]; [walk_good| |walk_good]. destruct (HasToolCall _ _ _) as [logged|]; [|walk_good].
  eapply good_bind0 with (Q1 := λ _ a', unended rid a'); [destruct logged; [walk_good|by apply Happ]|]. intros [e|] a1; [walk_good|].
  eapply good_bind0; [apply Hexec|]. intros o a2. destruct (IsApprovalPending _); [walk_good|].
  eapply good_bind0; [by apply Happ|]. intros [e|] a3; walk_good.
Qed.

Lemma part_Execute fuel : ∀ a call, part a (Execute regexp_Compile parse_json resolve_credential guard fuel a call).
Proof. induction fuel as [|fuel IH]; intros a call; [intros n; cbn [Execute]; walk_good|]. apply part_guarded, part_invoke, IH. Qed.
End Funnel.

(** ** The loop *)

Section Loop.
Context {J : Type → Type} `{!ToolInvocationJournal J}.
Context (regexp_Compile : string → option (string → bool)) (parse_json : string → option json).
Context (resolve_credential : Principal → ScopePath → string → option string).
Context (opts : AgentOptions) (rid sid : string) (principal : Principal).
Notation good := (good (J := J) opts rid sid principal).
Notation part := (part (J := J) opts rid sid principal).
Notation reported := (reported rid).
Notation stopped_or := (stopped_or rid).
Notation guard := (a_guard opts).

Definition of_turn (info : RunInfo) : Prop := in_RunID info = rid ∧ in_SessionID info = sid ∧ in_Principal info = principal.

Lemma part_execute a call : part a (execute regexp_Compile parse_json resolve_credential opts a call).
Proof. apply part_Execute. Qed.
Lemma mute_run_end info status : mute (J := J) (notifyRunEnd opts info status).
Proof. unfold notifyRunEnd. walk_mute. Qed.
Lemma mute_after_step info : mute (J := J) (after_step opts info).
Proof. unfold after_step. walk_mute. Qed.
Lemma append_ended n a status : good n (unended rid a) (append opts a rid EvRunEnd (DRunEnd (mk_end status)))
  (λ err a', RunStatus (ag_session a') rid = (status, true) ∨ err ≠ None ∧ unended rid a' ∧ end_refused rid (ag_session a') status).
Proof.
  apply good_append.
  - intros clock e H Hu. right. split; [done|]. split; [done|]. by exists clock, e.
  - intros clock s events H Hu err. left. by eapply append_end_status.
Qed.
#[local] Hint Resolve part_execute mute_run_end mute_after_step append_ended : good.
#[local] Hint Extern 1 (TurnReport.part _ _ _ _ _ (append _ _ _ _ _)) => apply part_append; discriminate : good.

Lemma good_complete n a info status : in_RunID info = rid → closing status → good n (unended rid a) (complete opts a info status) reported.
Proof.
  intros Hr Hc. unfold complete. rewrite Hr. eapply good_bind0; [apply append_ended|]. intros err a'. destruct err as [e|].
  - apply good_ret. intros [H|(_ & H & _)]; left; eauto.
  - apply good_mute; [walk_mute|]. intros _. apply good_ret. intros [H|[H _]]; [cbn; auto|done].
Qed.
(** A failure is reported under its cause, and logged so unless the session
    refuses its end. *)
Lemma good_fail n a info code e retryable : in_RunID info = rid → good n (unended rid a) (fail opts a info code e retryable) reported.
Proof.
  intros Hr. unfold fail. rewrite Hr. eapply good_bind0; [apply part_append; discriminate|]. intros err a1.
  eapply good_bind0; [apply append_ended|]. intros err' a2. apply good_mute; [walk_mute|]. intros _. apply good_ret. intros H. right. cbn. naive_solver.
Qed.
Lemma good_append_failed n a info e : in_RunID info = rid → good n (unended rid a) (append_failed opts a info e) reported.
Proof. apply good_fail. Qed.
Lemma good_step_failed n a info code e retryable : in_RunID info = rid → good n (unended rid a) (step_failed opts a info code e retryable) reported.
Proof. intros Hr. unfold step_failed. eapply good_bind0; [apply part_append; discriminate|]. intros err a1. by apply good_fail. Qed.
#[local] Hint Resolve good_complete good_fail good_append_failed good_step_failed : good.
Lemma good_completeStep n a info status : in_RunID info = rid → closing status → good n (unended rid a) (completeStep opts a info status) reported.
Proof. intros Hr Hc. unfold completeStep. walk_good. Qed.
#[local] Hint Resolve good_completeStep : good.

Lemma part_resolutions runID l : ∀ a, part a (append_resolutions opts a runID l).
Proof.
  induction l as [|[id r] l IH]; intros a n; cbn [append_resolutions]; walk_good.
  eapply good_pre; [|apply (IH (drop_resolution id _))]. done.
Qed.
Lemma part_approval_resolutions a runID : part a (appendApprovalResolutions opts a runID).
Proof. apply part_resolutions. Qed.
#[local] Hint Resolve part_approval_resolutions : good.

Lemma good_pause n a info pending call remaining fast : in_RunID info = rid →
  good n (unended rid a) (pauseForApproval opts a info pending call remaining fast) reported.
Proof.
  intros Hr. unfold pauseForApproval. cbv zeta. rewrite Hr. eapply good_bind0; [eauto with good|]. intros [e|] a1; [walk_good|].
  destruct (PendingApproval (ag_session a1) rid) as [[existing|]|] eqn:E; [| |walk_good].
  - destruct (bool_decide _); [|walk_good]. apply good_ret. intros Hu. cbn. split; [done|]. split; [by eapply pending_status|by left].
  - eapply good_bind0 with (Q1 := λ err a', unended rid a' ∧ (err = None → RunStatus (ag_session a') rid = (RunWaitingApproval, true))).
    { apply good_append; [done|]. intros clock s events H Hu err. split; [|intros _; by eapply append_request_status].
      eapply appendBatch_unended; [done|by repeat constructor|done]. }
    intros [e|] a2; [eapply good_pre; [|by apply good_append_failed]; by intros [? _]|]. apply good_ret. intros [_ H]. cbn. auto.
Qed.
#[local] Hint Resolve good_pause : good.

Lemma good_logged n a info call remaining fast : in_RunID info = rid →
  good n (unended rid a) (executeLoggedToolCall regexp_Compile parse_json resolve_credential opts a info call remaining fast) stopped_or.
Proof. intros Hr. unfold executeLoggedToolCall. walk_good. Qed.
#[local] Hint Resolve good_logged : good.

Lemma good_tool_loop n info b1 b2 calls : in_RunID info = rid → ∀ a,
  good n (unended rid a) (tool_loop regexp_Compile parse_json resolve_credential opts a info calls b1 b2) stopped_or.
Proof. intros Hr. induction calls as [|c calls IH]; intros a; cbn [tool_loop]; walk_good. Qed.
#[local] Hint Resolve good_tool_loop : good.

Lemma good_continue n next a info calls b1 b2 : of_turn info →
  (∀ a, good n (unended rid a) (next a info (in_Step info + 1)) reported) →
  good n (unended rid a) (continueToolCalls regexp_Compile parse_json resolve_credential opts next a info calls b1 b2) reported.
Proof. intros [Hr _] Hnext. unfold continueToolCalls. walk_good. Qed.

(** *** Model calls *)

Lemma mute_assemble request : mute (J := J) (safeAssembleModelContext opts request).
Proof. unfold safeAssembleModelContext. walk_mute. Qed.
Lemma mute_ctx_error : mute (J := J) ctx_error.
Proof. unfold ctx_error. walk_mute. Qed.
Lemma part_chunk runID a chunk : part a (on_chunk opts runID a chunk).
Proof. intros n. unfold on_chunk. walk_good. Qed.
#[local] Hint Resolve mute_assemble mute_ctx_error part_chunk : good.
Lemma part_emit_chunks runID chunks : ∀ st a, part a (emit_chunks (λ t, Failure t false) (on_chunk opts runID) st a chunks).
Proof.
  induction chunks as [|c chunks IH]; intros st a n; cbn [emit_chunks]; [walk_good|].
  apply good_bind0 with (Q1 := λ _ a', unended rid a'); [unfold emit; walk_good|]. intros st' a'. apply IH.
Qed.
#[local] Hint Resolve part_emit_chunks : good.

Lemma samePrincipal_refl p : samePrincipal p p = true.
Proof.
  unfold samePrincipal. rewrite (proj2 (Equal_eq _ _) eq_refl), !bool_decide_eq_true_2; try done.
  - intros k v Hk. by rewrite Hk.
  - intros k v Hk. unfold perm_get. by rewrite Hk.
Qed.
Lemma sameModelCallRequest_refl q : sameModelCallRequest q q = true.
Proof. unfold sameModelCallRequest. by rewrite samePrincipal_refl, (proj2 (Equal_eq _ _) eq_refl), Z.eqb_refl, !bool_decide_eq_true_2. Qed.

(** What the gate established. *)
Definition gate_passed (q : ModelCallRequest) (accepted : option ModelCallRequest) (tr : list (event (agentE J))) : Prop :=
  a_ModelCallGate opts = true →
  accepted = Some (cloneModelCallRequest q) ∧ request_Validate q = Ok tt ∧ Ev (AuthorizeModelCall (cloneModelCallRequest q)) None ∈ tr.

Lemma authorize_runs q tr gate : runs (authorize opts q) tr gate →
  model_calls (J := J) tr = O ∧ ∀ accepted, gate = inl accepted → gate_passed q accepted tr.
Proof.
  unfold authorize, gate_passed. destruct (validateModelCallPrincipalClaims _) as [[]|]; [|by intros [-> ->]].
  destruct (a_ModelCallGate opts); cbn [negb]; [|by intros [-> ->]].
  destruct (request_Validate q) as [[]|]; [|by intros [-> ->]].
  intros H. open_runs H. destruct H as (tr1 & tr2 & refused & -> & H1 & [-> ->]). open_runs H1. subst tr1. split; [done|].
  intros accepted Hacc _. destruct refused; [done|]. injection Hacc as <-. split; [done|]. split; [done|]. by apply list_elem_of_here.
Qed.

Hypothesis principal_cloned : clonePrincipal principal = principal.

Lemma metered_stream t1 t2 g b accepted :
  model_calls t1 = O → model_calls t2 = O → mq_RunID (ModelCall g) = rid → mq_SessionID (ModelCall g) = sid → mq_Principal (ModelCall g) = principal →
  go_Provider g = a_Provider opts → go_Model g = a_Model opts → mq_Provider (ModelCall g) = go_Provider g → mq_Model (ModelCall g) = go_Model g →
  AcceptedCall g = accepted → gate_passed (ModelCall g) accepted t1 →
  metered (J := J) opts rid sid principal 1 (t1 ++ Ev (StreamModel g) b :: t2).
Proof.
  intros H1 H2 Hr Hs Hp Hpr Hm Hqp Hqm Hacc Hgate. split; [rewrite model_calls_app, H1; change (S (model_calls t2) ≤ 1)%nat; lia|].
  intros tr1 ev tr2 g' Heq Hev.
  assert (tr1 = t1 ∧ g' = g) as [-> ->].
  { apply app_eq_inv in Heq as [(k & -> & Hk)|(k & -> & Hk)]; destruct k as [|ev' k]; cbn in Hk.
    - injection Hk as -> _. rewrite app_nil_r. split; [done|]. by injection Hev as <-.
    - injection Hk as -> _. exfalso. rewrite model_calls_app in H1. unfold model_calls in H1 at 2. cbn in H1. rewrite Hev in H1. cbn in H1. lia.
    - injection Hk as <- _. rewrite app_nil_r. split; [done|]. by injection Hev as <-.
    - injection Hk as _ Hk. exfalso. rewrite Hk in H2. rewrite model_calls_app in H2. unfold model_calls in H2 at 2. cbn in H2. rewrite Hev in H2. cbn in H2. lia. }
  split_and!; try done. intros Eg. destruct (Hgate Eg) as (-> & Hv & Hin). split; [|done].
  unfold RequireAcceptedModelCall. rewrite Hacc, Hv, Hqp, Hqm, !bool_decide_eq_true_2 by done. cbn.
  assert (cloneModelCallRequest (ModelCall g) = ModelCall g) as ->; [|by rewrite sameModelCallRequest_refl].
  destruct (ModelCall g) as [pr sc ss rr st pv md dl bu]. cbn in *. unfold cloneModelCallRequest. cbn. by rewrite Hp, principal_cloned.
Qed.

Lemma good_callModel a info step messages : of_turn info → good 1 (unended rid a) (callModel opts a info step messages) (λ _ a', unended rid a').
Proof.
  intros (Hr & Hs & Hp). unfold callModel. destruct (modelContextLimits _) as [window output]. cbv zeta.
  apply good_mute; [apply mute_assemble|]. intros [context|e]; [|walk_good]. apply good_mute; [walk_mute|]. intros deadline tr x a' H.
  set (q := mk_model_request _ _ _ _ _ _ _ _ _) in H.
  open_runs H. destruct H as (tr1 & tr2 & gate & -> & H1 & H). apply authorize_runs in H1 as [Hmute Hgate].
  destruct gate as [accepted|e]; [|destruct H as [-> [= -> ->]]; rewrite app_nil_r; split; [by apply metered_mute|done]].
  unfold consumeModelStream in H. cbn [pbind ask] in H. destruct H as (answer & tr3 & -> & H).
  assert (good 0 (unended rid a) (let* (o, a0) := (let (chunks, streamErr) := answer in
     let* (st, s) := emit_chunks (λ t, Failure t false) (on_chunk opts (in_RunID info)) stream_start a chunks in
     match streamErr, ss_err st with
     | Some e, _ | None, Some e => Ret ((partial_result st, Some e), s)
     | None, None => let* cancelled := ctx_error in match cancelled with Some e => Ret ((partial_result st, Some e), s) | None => Ret (stream_verdict (λ t, Failure t false) st, s) end
     end) in Ret ((o.1, match o.2 with Some e => Some ("model_failed", e) | None => None end), a0)) (λ _ a', unended rid a')) as Hrest.
  { eapply good_bind0 with (Q1 := λ _ a', unended rid a'); [destruct answer; walk_good|]. intros o a1. walk_good. }
  apply Hrest in H as [[H3 _] HQ]. split; [|intros Hb HP; apply HQ; [|done]].
  - eapply metered_stream; [done|lia|done..|]. cbn. by apply Hgate.
  - apply Forall_app in Hb as [_ Hb]. by inversion Hb.
Qed.

(** *** Steps *)

Lemma derive_unended a s x : DeriveMessages (ag_session a) = (x, s) → unended rid a → unended rid (set_session s a).
Proof. unfold DeriveMessages, unended. intros H. repeat (destruct_match_in H; cbn in H); by injection H as _ <-. Qed.
Lemma batches_unended clock batches : ∀ s, Forall (Forall no_end) batches →
  ended (entry_at (s_runIndex s) rid) = false → ended (entry_at (s_runIndex (apply_batches clock s batches)) rid) = false.
Proof.
  unfold apply_batches. induction batches as [|b batches IH]; intros s Hall Hu; [done|]. apply Forall_cons in Hall as [Hb Hall]. cbn [foldl]. apply IH; [done|].
  destruct (appendBatch clock s b) as [[s' events]|] eqn:E; [by eapply appendBatch_unended|done].
Qed.
Lemma good_summarized {A} n (P : Prop) runID messages (f : _ → prog (agentE J) (A * agentState)) Q :
  (∀ batches answer, good n (P ∧ Forall (Forall no_end) batches) (f (batches, answer)) Q) →
  good n P (pbind (ask (EnsureSummarized runID messages)) f) Q.
Proof.
  intros Hf tr x a' H. open_runs H. destruct H as (tr1 & tr2 & [batches answer] & -> & H1 & H). open_runs H1. subst tr1.
  apply Hf in H as [M K]. split; [by apply (metered_app _ _ _ _ 0 n [_]); [apply metered_mute|]|].
  intros Hb HP. inversion Hb as [|? ? Hben Hrest]. auto.
Qed.

Definition messages_or (x : list ChatMessage + turn_outcome) (a : agentState) : Prop := match x with inl _ => unended rid a | inr o => reported o a end.

Lemma good_messages n a info : in_RunID info = rid → good n (unended rid a) (step_messages opts a info) messages_or.
Proof.
  intros Hr. unfold step_messages. cbv zeta.
  assert (∀ n a messages, good n (unended rid a) (match a_Compactor opts with
      | NoCompactor => Ret (inl messages, a) | RecentTurns c => Ret (inl (Compact c messages), a)
      | OtherCompactor => let* answer := ask (CompactMessages messages) in
        match answer with Some messages => Ret (inl messages, a)
        | None => let* (o, a) := step_failed opts a info "compaction_failed" (Failure "context compactor panicked" false) false in Ret (inr o, a) end end) messages_or) as Hcompact.
  { intros. walk_good. }
  destruct (if a_Summarizer opts then None else _) as [messages|]; [walk_good|].
  destruct (DeriveMessages (ag_session a)) as [derived s] eqn:E. eapply good_pre; [by eapply derive_unended|]. generalize (set_session s a). clear E s a. intros a.
  destruct derived as [messages|e]; [|walk_good]. destruct (a_Summarizer opts); [|apply Hcompact].
  apply good_mute; [walk_mute|]. intros clock. apply good_summarized. intros batches answer.
  set (a1 := set_session _ a). eapply good_pre with (P' := unended rid a1).
  { intros [Hu Hb]. unfold unended, a1. cbn. by apply batches_unended. }
  destruct answer as [messages'|e]; [|walk_good]. destruct (usageLimitReached _); [walk_good|apply Hcompact].
Qed.

Lemma good_after_model n next a info stepStartSeq stream : of_turn info →
  (∀ a, good n (unended rid a) (next a info (in_Step info + 1)) reported) →
  good n (unended rid a) (after_model regexp_Compile parse_json resolve_credential opts next a info stepStartSeq stream) reported.
Proof.
  intros Hi Hnext. pose proof Hi as [Hr _]. unfold after_model, appendAssistantUsage. cbv zeta.
  eapply good_bind0; [apply part_batch; by repeat constructor|]. intros [e|] a1; [walk_good|].
  destruct (usageLimitReached _); [walk_good|]. destruct (sm_ToolCalls stream); [walk_good|]. by apply good_continue.
Qed.

Lemma good_model_step n next a info step : of_turn info →
  (∀ a, good n (unended rid a) (next a info (in_Step info + 1)) reported) →
  good (1 + n) (unended rid a) (model_step regexp_Compile parse_json resolve_credential opts next a info step) reported.
Proof.
  intros Hi Hnext. pose proof Hi as [Hr _]. unfold model_step. eapply good_bind0; [eauto with good|]. intros [e|] a1; [walk_good|]. cbv zeta.
  eapply good_bind0; [by apply good_messages|]. intros [messages|o] a2; [|walk_good].
  eapply good_bind; [by apply good_callModel|]. intros [stream err] a3. destruct err as [[code e]|]; [|by apply good_after_model].
  eapply good_bind0 with (Q1 := λ _ a', unended rid a'); [|intros e' a4; destruct (bool_decide _); eauto with good].
  destruct (usageReported stream); [|by apply good_ret].
  unfold appendModelUsage. eapply good_bind0; [apply part_append; discriminate|]. intros. by apply good_ret.
Qed.

Lemma good_steps fuel : ∀ a info step, of_turn info →
  good (Z.to_nat (a_MaxSteps opts - step)) (unended rid a) (runModelSteps regexp_Compile parse_json resolve_credential opts fuel a info step) reported.
Proof.
  induction fuel as [|fuel IH]; intros a info step Hi; pose proof Hi as [Hr _]; cbn [runModelSteps]; [walk_good|].
  destruct (_ <=? step) eqn:Eb; [walk_good|]. bool_to_prop. cbv zeta. destruct (usageLimitReached _); [apply good_complete; eauto with good|].
  apply good_mute; [walk_mute|]. intros [e|]; [walk_good|].
  replace (Z.to_nat (a_MaxSteps opts - step)) with (1 + Z.to_nat (a_MaxSteps opts - (step + 1)))%nat by lia.
  apply good_model_step; [done|]. intros a1. by apply IH.
Qed.
Lemma good_run_steps n a info step : of_turn info → (Z.to_nat (a_MaxSteps opts - step) ≤ n)%nat →
  good n (unended rid a) (run_steps regexp_Compile parse_json resolve_credential opts a info step) reported.
Proof. intros Hi Hn. eapply good_conseq; [exact Hn|done..|]. by apply good_steps. Qed.

(** *** Fast routes and entry points *)

Lemma part_dispatch rules text : ∀ a, part a (Dispatch regexp_Compile parse_json resolve_credential opts a rules text).
Proof. induction rules as [|r rules IH]; intros a n; cbn [Dispatch]; unfold dispatch_rule; walk_good. Qed.
Lemma good_fast_answer n a info d : in_RunID info = rid → good n (unended rid a) (fast_answer opts a info d) reported.
Proof.
  intros Hr. unfold fast_answer. apply good_bind0 with (Q1 := λ _ a', unended rid a'); [walk_good|]. intros [e|] a1; walk_good.
Qed.
#[local] Hint Resolve part_dispatch good_fast_answer : good.
Lemma good_fast_route n a info rules text : in_RunID info = rid →
  good n (unended rid a) (fast_route regexp_Compile parse_json resolve_credential opts a info rules text) stopped_or.
Proof. intros Hr. unfold fast_route. walk_good. Qed.
#[local] Hint Resolve good_fast_route : good.

Lemma good_resume n a info pending : of_turn info → (Z.to_nat (a_MaxSteps opts - (in_Step info + 1)) ≤ n)%nat →
  good n (unended rid a) (resumeApproval regexp_Compile parse_json resolve_credential opts a info pending) reported.
Proof.
  intros Hi Hn. pose proof Hi as [Hr _]. unfold resumeApproval, refuse_turn. eapply good_bind0; [by apply good_logged|]. intros [o|] a1; [walk_good|].
  destruct (Fast pending); [walk_good|]. apply good_continue; [done|]. intros a2. by apply good_run_steps.
Qed.
End Loop.

(** ** Whole turns *)

Definition request_run (request : TurnRequest) : string := match request with DoRun input => ti_Run input | DoResume r | DoContinue r => r end.

(** The first step the turn may make a model call for. *)
Definition first_step (a : agentState) (request : TurnRequest) : Z :=
  match request with
  | DoRun _ => 0
  | DoResume r => match PendingApproval (ag_session a) r with Ok (Some pending) => Step pending + 1 | _ => 0 end
  | DoContinue r => match postResultContinuation (s_events (ag_session a)) r with Ok (step, _, _) => step + 1 | _ => 0 end
  end.

Section Turns.
Context {J : Type → Type} `{!ToolInvocationJournal J}.
Context (regexp_Compile : string → option (string → bool)) (parse_json : string → option json).
Context (resolve_credential : Principal → ScopePath → string → option string).
Context (opts : AgentOptions).

Lemma restore_session runID a : ag_session (restoreRunState a runID) = ag_session a.
Proof.
  unfold restoreRunState. assert (∀ events st, ag_session (foldl (restore_step runID) st events).2 = ag_session st.2) as H; [|by rewrite H].
  induction events as [|e events IH]; intros [seen b]; [done|]. cbn [foldl]. rewrite IH. unfold restore_step. by repeat (destruct_match_goal; cbn).
Qed.

Lemma restore_unended rid runID a : unended rid a → unended rid (restoreRunState a runID).
Proof. unfold unended. by rewrite restore_session. Qed.
Lemma revision_unended rid revision a : unended rid a → unended rid (set_revision revision a).
Proof. done. Qed.
#[local] Hint Resolve restore_unended revision_unended : good.

Lemma turn_good a request :
  good (J := J) opts (request_run request) (s_id (ag_session a)) (clonePrincipal (s_principal (ag_session a)))
    (Z.to_nat (a_MaxSteps opts - first_step a request)) (unended (request_run request) a)
    (do_turn regexp_Compile parse_json resolve_credential opts a request) (reported (request_run request)).
Proof.
  pose proof (clonePrincipal_idem (s_principal (ag_session a))) as Hp. pose proof restore_session as Hs.
  destruct request as [input|runID|runID]; cbn [do_turn request_run first_step].
  - unfold RunTurn, refuse_turn. destruct (turn_composition opts input) as [[[c r] s]|]; [|solve [walk_good]]. cbv zeta.
    eapply good_bind0; [eapply good_pre; [|apply part_append; discriminate]; done|]. intros [e|] a1; [solve [walk_good]|].
    eapply good_bind0; [apply part_append; discriminate|]. intros [e|] a2; [by apply good_append_failed|].
    apply good_mute; [walk_mute|]. intros [e|]; [by apply good_fail|].
    eapply good_bind0 with (Q1 := stopped_or (ti_Run input)); [destruct (a_Fast opts); [by apply good_fast_route|solve [walk_good]]|].
    intros [o|] a3; [solve [walk_good]|]. apply good_run_steps; [done|done|lia].
  - unfold ResumeTurn, refuse_turn. destruct (ValidateRunID runID) as [u|]; [|solve [walk_good]].
    destruct (PendingApproval _ _) as [[pending|]|]; [|solve [walk_good]..]. destruct (CompositionRevision _) as [revision|]; [|solve [walk_good]]. cbv zeta.
    eapply good_bind0; [eapply good_pre; [|apply part_append; discriminate]; unfold unended; cbn; by rewrite Hs|].
    intros [e|] a1; [solve [walk_good]|]. apply good_resume; [done| |done]. unfold of_turn, turn_info. cbn. by rewrite Hs.
  - unfold continueTurn, refuse_turn. destruct (bool_decide _); [solve [walk_good]|].
    destruct (postResultContinuation _ _) as [[[step calls] completed]|]; [|solve [walk_good]].
    destruct (negb _); [solve [walk_good]|]. destruct (CompositionRevision _) as [revision|]; [|solve [walk_good]]. cbv zeta.
    eapply good_pre with (P' := unended runID (set_revision _ (restoreRunState a runID))); [unfold unended; cbn; by rewrite Hs|].
    assert (of_turn runID (s_id (ag_session a)) (clonePrincipal (s_principal (ag_session a))) (turn_info (set_revision revision (restoreRunState a runID)) runID step)) as Hi
      by (unfold of_turn, turn_info; cbn; by rewrite Hs).
    apply good_continue; [done|]. intros a1. by apply good_run_steps.
Qed.

(** ** Enough steps *)

Lemma continue_agree next next' a info calls b1 b2 tr x :
  (∀ a tr x, runs (next a info (in_Step info + 1)) tr x → runs (next' a info (in_Step info + 1)) tr x) →
  runs (continueToolCalls (J := J) regexp_Compile parse_json resolve_credential opts next a info calls b1 b2) tr x →
  runs (continueToolCalls regexp_Compile parse_json resolve_credential opts next' a info calls b1 b2) tr x.
Proof.
  intros Hn. unfold continueToolCalls. apply runs_bind_mono. intros [[o|] a1] tr1 x1; [done|].
  apply runs_bind_mono. intros [[e|] a2] tr2 x2; [done|]. apply runs_bind_mono. intros _. apply Hn.
Qed.

Lemma model_step_agree next next' a info step tr x :
  (∀ a tr x, runs (next a info (in_Step info + 1)) tr x → runs (next' a info (in_Step info + 1)) tr x) →
  runs (model_step (J := J) regexp_Compile parse_json resolve_credential opts next a info step) tr x →
  runs (model_step regexp_Compile parse_json resolve_credential opts next' a info step) tr x.
Proof.
  intros Hn. unfold model_step. apply runs_bind_mono. intros [[e|] a1] tr1 x1; [done|]. cbv zeta.
  apply runs_bind_mono. intros [[messages|o] a2] tr2 x2; [|done]. apply runs_bind_mono. intros [[stream [[code e]|]] a3] tr3 x3; [done|].
  unfold after_model. apply runs_bind_mono. intros [[e|] a4] tr4 x4; [done|]. destruct (usageLimitReached _); [done|].
  destruct (sm_ToolCalls stream); [done|]. by apply continue_agree.
Qed.

Lemma steps_agree fuel : ∀ fuel' a info step tr x,
  (steps_left opts step ≤ fuel)%nat → (steps_left opts step ≤ fuel')%nat →
  runs (runModelSteps (J := J) regexp_Compile parse_json resolve_credential opts fuel a info step) tr x →
  runs (runModelSteps regexp_Compile parse_json resolve_credential opts fuel' a info step) tr x.
Proof.
  unfold steps_left. induction fuel as [|fuel IH]; intros [|fuel'] a info step tr x Hf Hf'; [lia..|]. cbn [runModelSteps].
  destruct (_ <=? step) eqn:E; [done|]. bool_to_prop. destruct (usageLimitReached _); [done|].
  apply runs_bind_mono. intros [e|] tr1 x1; [done|]. apply model_step_agree. intros a1 tr2 x2. apply IH; cbn; lia.
Qed.
End Turns.
