(* ===== verification/Continuation.v ===== *)
(** * Theorems on rebuilding a run from its log

    [restoreRunState] recounts the calls of a run and finds those still without
    a result; [postResultContinuation] accepts a log only when the calls it
    hands back to the loop have no result yet. *)
From S2P Require Import Prelude Prog GoString Json Schema Scope Principal GoTime Policy Payload Events Message Session SessionClaims Capability ModelCall Journal Guard Agent.
From stdpp Require Import gmap strings list sorting.
From Stdlib Require Import ZArith Lia.
Open Scope Z_scope.

(** ** Calls and results in the log *)

Definition call_of (run : string) (e : SessionEvent) : option string :=
  if bool_decide (RunID e = run) then
    match ev_Type e, decode_payload EvToolCall (ev_Data e) with EvToolCall, Some (DToolCall d) => Some (cd_CallID d) | _, _ => None end
  else None.
Definition result_of (run : string) (e : SessionEvent) : option string :=
  if bool_decide (RunID e = run) then
    match ev_Type e, decode_payload EvToolResult (ev_Data e) with EvToolResult, Some (DToolResult d) => Some (tr_CallID d) | _, _ => None end
  else None.

(** The ids a run has logged a call for, and the ids with a result. *)
Definition logged_calls (run : string) (events : list SessionEvent) : gset string := list_to_set (omap (call_of run) events).
Definition results_in (run : string) (events : list SessionEvent) : gset string := list_to_set (omap (result_of run) events).

(** What follows the first call with the id. *)
Fixpoint after_call (run id : string) (events : list SessionEvent) : list SessionEvent :=
  match events with
  | [] => []
  | e :: events => if bool_decide (call_of run e = Some id) then events else after_call run id events
  end.

(** The calls without a result after them. *)
Definition open_calls (run : string) (events : list SessionEvent) : gset string :=
  filter (λ id, id ∉ results_in run (after_call run id events)) (logged_calls run events).

Lemma omap_snoc {A B} (f : A → option B) l x : omap f (l ++ [x]) = omap f l ++ match f x with Some y => [y] | None => [] end.
Proof. rewrite omap_app. f_equal. Qed.

Lemma logged_snoc run events e : logged_calls run (events ++ [e]) = logged_calls run events ∪ match call_of run e with Some id => {[id]} | None => ∅ end.
Proof. unfold logged_calls. rewrite omap_snoc, list_to_set_app_L. f_equal. destruct (call_of run e); [|done]. cbn. by rewrite union_empty_r_L. Qed.
Lemma results_snoc run events e : results_in run (events ++ [e]) = results_in run events ∪ match result_of run e with Some id => {[id]} | None => ∅ end.
Proof. unfold results_in. rewrite omap_snoc, list_to_set_app_L. f_equal. destruct (result_of run e); [|done]. cbn. by rewrite union_empty_r_L. Qed.
Lemma elem_logged run events id : id ∈ logged_calls run events ↔ ∃ e, e ∈ events ∧ call_of run e = Some id.
Proof. unfold logged_calls. rewrite elem_of_list_to_set, list_elem_of_omap. done. Qed.

Lemma after_call_snoc run id events e :
  after_call run id (events ++ [e]) = if decide (id ∈ logged_calls run events) then after_call run id events ++ [e] else [].
Proof.
  induction events as [|x events IH]; cbn [after_call app].
  - rewrite decide_False; [|set_solver]. by case_bool_decide.
  - rewrite IH. clear IH. case_bool_decide as Hx.
    + rewrite decide_True; [done|]. apply elem_logged. exists x. by split; [apply list_elem_of_here|].
    + repeat case_decide; try done; [destruct H0|destruct H]; apply elem_logged; apply elem_logged in H || apply elem_logged in H0.
      * destruct H as (y & ? & ?). exists y. by split; [apply list_elem_of_further|].
      * destruct H0 as (y & [->|?]%elem_of_cons & ?); [done|by exists y].
Qed.

(** ** The recount *)

Lemma restore_step_cases run seen a e :
  let '(seen', a') := restore_step run (seen, a) e in
  match call_of run e, result_of run e with
  | Some id, _ =>
    if decide (id ∈ seen) then seen' = seen ∧ ag_toolCalls a' = ag_toolCalls a ∧ ag_resumeCallIDs a' = ag_resumeCallIDs a
    else seen' = {[id]} ∪ seen ∧ ag_toolCalls a' = ag_toolCalls a + 1 ∧ ag_resumeCallIDs a' = {[id]} ∪ ag_resumeCallIDs a
  | None, Some id => seen' = seen ∧ ag_toolCalls a' = ag_toolCalls a ∧ ag_resumeCallIDs a' = ag_resumeCallIDs a ∖ {[id]}
  | None, None => seen' = seen ∧ ag_toolCalls a' = ag_toolCalls a ∧ ag_resumeCallIDs a' = ag_resumeCallIDs a
  end.
Proof.
  unfold restore_step, call_of, result_of. destruct (bool_decide (RunID e = run)); [|done]. cbn [negb]. destruct (ev_Type e); try done.
  - destruct (decode_payload EvToolCall (ev_Data e)) as [[]|]; try done. rewrite bool_decide_decide. by case_decide.
  - destruct (decode_payload EvToolResult (ev_Data e)) as [[]|]; done.
Qed.

Lemma call_not_result run e id : call_of run e = Some id → result_of run e = None.
Proof. unfold call_of, result_of. destruct (bool_decide _); [|done]. by destruct (ev_Type e). Qed.

Lemma open_snoc run events e id :
  id ∈ open_calls run (events ++ [e]) ↔
  (id ∈ open_calls run events ∧ result_of run e ≠ Some id) ∨ (id ∉ logged_calls run events ∧ call_of run e = Some id).
Proof.
  unfold open_calls. rewrite !elem_of_filter, after_call_snoc, logged_snoc. case_decide as Hin.
  - rewrite results_snoc. destruct (result_of run e), (call_of run e); set_solver.
  - destruct (call_of run e) as [c|]; unfold results_in; cbn; set_solver.
Qed.

(** What the recount knows after a prefix of the log. *)
Definition recounted (run : string) (events : list SessionEvent) (st : gset string * agentState) : Prop :=
  st.1 = logged_calls run events ∧ ag_toolCalls st.2 = Z.of_nat (size (logged_calls run events)) ∧ ag_resumeCallIDs st.2 = open_calls run events.

Lemma recount_step run events st e : recounted run events st → recounted run (events ++ [e]) (restore_step run st e).
Proof.
  destruct st as [seen a]. intros (Hs & Hc & Hr). cbn in Hs, Hc, Hr. pose proof (restore_step_cases run seen a e) as H.
  destruct (restore_step run (seen, a) e) as [seen' a']. unfold recounted. cbn [fst snd]. rewrite logged_snoc. subst seen.
  assert (open_calls run (events ++ [e]) = match call_of run e, result_of run e with
    | Some id, _ => if decide (id ∈ logged_calls run events) then open_calls run events else {[id]} ∪ open_calls run events
    | None, Some id => open_calls run events ∖ {[id]} | None, None => open_calls run events end) as ->.
  { apply set_eq. intros id. rewrite open_snoc. destruct (call_of run e) as [c|] eqn:Ec.
    - rewrite (call_not_result _ _ _ Ec). case_decide; set_solver.
    - destruct (result_of run e); set_solver. }
  destruct (call_of run e) as [c|]; [case_decide as Hin|destruct (result_of run e)]; destruct H as (-> & -> & ->); rewrite Hr, Hc; split_and!; try set_solver.
  - do 2 f_equal. set_solver.
  - rewrite size_union, size_singleton by set_solver. lia.
  - by rewrite union_empty_r_L.
  - by rewrite union_empty_r_L.
Qed.

Lemma restore_recounts a run :
  ag_toolCalls (restoreRunState a run) = Z.of_nat (size (logged_calls run (s_events (ag_session a))))
  ∧ ag_resumeCallIDs (restoreRunState a run) = open_calls run (s_events (ag_session a)).
Proof.
  assert (∀ events, recounted run events (foldl (restore_step run) (∅, fresh_run a run) events)) as H.
  { intros events. induction events as [|e events IH] using rev_ind; [done|]. rewrite foldl_snoc. by apply recount_step. }
  destruct (H (s_events (ag_session a))) as (_ & ? & ?). done.
Qed.

Lemma restore_run a run : ag_runID (restoreRunState a run) = run.
Proof.
  unfold restoreRunState. assert (∀ events st, ag_runID (foldl (restore_step run) st events).2 = ag_runID st.2) as H; [|by rewrite H].
  induction events as [|e events IH]; intros [seen b]; [done|]. cbn [foldl]. rewrite IH. unfold restore_step. by repeat (destruct_match_goal; cbn).
Qed.

(** ** Continuing after a result *)

(** What the scan knows after the events [evs] of the run. *)
Record scanned (run : string) (evs : list SessionEvent) (c : continuation) : Prop := {
  sc_results : pc_seenResults c = results_in run evs;
  sc_seen : ∀ x, x ∈ pc_calls c → tc_ID x ∈ pc_seenCalls c;
  sc_nodup : NoDup (tc_ID <$> pc_calls c);
  sc_known : pc_seenResults c ⊆ pc_seenCalls c;
  sc_done : ∀ i x, pc_calls c !! i = Some x → (i < pc_completed c)%nat ↔ tc_ID x ∈ pc_seenResults c;
  sc_length : (pc_completed c ≤ length (pc_calls c))%nat;
  sc_fresh : pc_state c = 0 ∨ pc_state c = 1 → pc_calls c = [] ∧ pc_completed c = O }.

Lemma scanned_start run : scanned run [] cont_start.
Proof. split; cbn; try done; [intros x Hx; by apply not_elem_of_nil in Hx|constructor]. Qed.

Lemma register_calls_ok calls : ∀ seen seen', register_calls seen calls = Ok seen' →
  NoDup (tc_ID <$> calls) ∧ (∀ x, x ∈ calls → tc_ID x ∉ seen) ∧ seen' = seen ∪ list_to_set (tc_ID <$> calls).
Proof.
  induction calls as [|x calls IH]; intros seen seen' H; cbn in H.
  - injection H as <-. split; [constructor|]. split; [set_solver|]. cbn. by rewrite union_empty_r_L.
  - apply fail_if_ok in H as [Hx H]. apply orb_false_elim in Hx as [_ Hx]. bool_to_prop. apply IH in H as (Hn & Hnew & ->). split_and!.
    + cbn. constructor; [|done]. intros Hin. apply list_elem_of_fmap in Hin as (y & Hy & Hiny). specialize (Hnew y Hiny). set_solver.
    + intros y [->|Hy]%elem_of_cons; [done|]. specialize (Hnew y Hy). set_solver.
    + cbn. set_solver.
Qed.

(** An event that is no result and leaves the calls alone. *)
Lemma scanned_skip run evs c c' e :
  result_of run e = None → pc_seenResults c' = pc_seenResults c → pc_calls c' = pc_calls c → pc_completed c' = pc_completed c →
  pc_seenCalls c' = pc_seenCalls c → (pc_state c' = 0 ∨ pc_state c' = 1 → pc_state c = 0 ∨ pc_state c = 1) →
  scanned run evs c → scanned run (evs ++ [e]) c'.
Proof.
  intros Hres H1 H2 H3 H4 H5 []. split; rewrite ?H1, ?H2, ?H3, ?H4; try done.
  - by rewrite results_snoc, Hres, union_empty_r_L.
  - auto.
Qed.

Lemma scanned_register run evs c e calls seen' :
  result_of run e = None → pc_calls c = [] → pc_completed c = O → register_calls (pc_seenCalls c) calls = Ok seen' → scanned run evs c →
  scanned run (evs ++ [e]) (mk_cont (pc_step c) (pc_last c) (pc_stepSeq c) 2 calls (pc_completed c) seen' (pc_seenResults c) (pc_userSeen c)).
Proof.
  intros Hres Hc H0 Hreg []. apply register_calls_ok in Hreg as (Hn & Hnew & ->). split; cbn; try done.
  - by rewrite results_snoc, Hres, union_empty_r_L.
  - intros x Hx. apply elem_of_union_r, elem_of_list_to_set, list_elem_of_fmap. by exists x.
  - set_solver.
  - intros i x Hi. rewrite H0. split; [lia|]. intros Hin. apply list_elem_of_lookup_2 in Hi. by destruct (Hnew x Hi); apply sc_known0.
  - rewrite H0. lia.
  - by intros [].
Qed.

Lemma scanned_result run evs c e call d :
  result_of run e = Some (tc_ID call) → pc_calls c !! pc_completed c = Some call → tr_CallID d = tc_ID call → scanned run evs c →
  scanned run (evs ++ [e]) (mk_cont (pc_step c) (pc_last c) (pc_stepSeq c) 5 (pc_calls c) (S (pc_completed c)) (pc_seenCalls c)
    ({[tr_CallID d]} ∪ pc_seenResults c) (pc_userSeen c)).
Proof.
  intros Hres Hcall Hd []. rewrite Hd. split; cbn; try done.
  - rewrite results_snoc, Hres, <- sc_results0. set_solver.
  - apply list_elem_of_lookup_2 in Hcall. specialize (sc_seen0 _ Hcall). set_solver.
  - intros i x Hi. specialize (sc_done0 i x Hi). split.
    + intros Hlt. destruct (decide (i = pc_completed c)) as [->|Hne]; [rewrite Hcall in Hi; injection Hi as <-; set_solver|].
      apply elem_of_union_r, sc_done0. lia.
    + intros [Heq|Hin]%elem_of_union; [|apply sc_done0 in Hin; lia]. apply elem_of_singleton in Heq.
      assert (i = pc_completed c) as ->; [|lia].
      apply (NoDup_lookup (tc_ID <$> pc_calls c) i (pc_completed c) (tc_ID x) sc_nodup0).
      * by rewrite list_lookup_fmap, Hi.
      * by rewrite list_lookup_fmap, Hcall, Heq.
  - apply lookup_lt_Some in Hcall. lia.
  - by intros [].
Qed.

Lemma scan_step run first evs c e c' : cont_step run first c e = Ok c' → scanned run evs c → scanned run (evs ++ [e]) c' ∧ RunID e = run.
Proof.
  unfold cont_step. intros H Hs. apply fail_if_ok in H as [Hrun H]. apply negb_false_iff, bool_decide_eq_true in Hrun. split; [|done].
  apply rbind_ok in H as (u & _ & H).
  assert (ev_Type e ≠ EvToolResult → result_of run e = None) as Hnone.
  { intros Ht. unfold result_of. rewrite bool_decide_eq_true_2 by done. by destruct (ev_Type e). }
  destruct (ev_Type e) eqn:Et; try done; try specialize (Hnone ltac:(discriminate)).
  all: try (apply fail_if_ok in H as [Hst H]; bool_to_prop; injection H as <-; by apply (scanned_skip run evs c)).
  - destruct (decode_payload _ _) as [[]|]; try done. apply fail_if_ok in H as [_ H]. destruct (_ && _ && _).
    + injection H as <-. by apply (scanned_skip run evs c).
    + apply fail_if_ok in H as [_ H]. injection H as <-. apply (scanned_skip run evs c); try done. by intros [].
  - destruct (decode_payload _ _) as [[]|]; try done. apply fail_if_ok in H as [Hst H]. injection H as <-.
    apply (scanned_skip run evs c); try done. apply orb_false_elim in Hst as [Hst _]. apply orb_false_elim in Hst as [Hst _]. bool_to_prop. by left.
  - apply fail_if_ok in H as [_ H]. injection H as <-. destruct Hs. split; cbn; try done.
    + by rewrite results_snoc, Hnone, union_empty_r_L.
    + intros x Hx. by apply not_elem_of_nil in Hx.
    + constructor.
  - destruct (decode_payload _ _) as [[]|]; try done. apply fail_if_ok in H as [Hst H]. apply rbind_ok in H as (calls & _ & H).
    apply fail_if_ok in H as [_ H]. apply rbind_ok in H as (seen' & Hreg & H). injection H as <-. bool_to_prop.
    destruct (sc_fresh _ _ _ Hs) as [? ?]; [by right|]. by eapply scanned_register.
  - destruct (decode_payload _ _) as [[]|]; try done. destruct (pc_calls c !! pc_completed c) as [call|] eqn:Hcall; [|done].
    apply fail_if_ok in H as [_ H]. injection H as <-. apply (scanned_skip run evs c); try done. by intros [].
  - destruct (decode_payload _ _) as [[]|] eqn:Ed; try done. destruct (pc_calls c !! pc_completed c) as [call|] eqn:Hcall; [|done].
    apply fail_if_ok in H as [Hst H]. injection H as <-. apply orb_false_elim in Hst as [Hst _]. apply orb_false_elim in Hst as [_ Hst]. bool_to_prop.
    eapply scanned_result; [|done..]. unfold result_of. rewrite bool_decide_eq_true_2, Et, Ed by done. congruence.
Qed.

Lemma scan_all run first evs : ∀ c todo c', rfold (cont_step run first) c todo = Ok c' → scanned run evs c → scanned run (evs ++ todo) c'.
Proof.
  intros c todo. revert evs c. induction todo as [|e todo IH]; intros evs c c' H Hs; cbn in H; [injection H as <-; by rewrite app_nil_r|].
  apply rbind_ok in H as (c1 & H1 & H). apply scan_step with (evs := evs) in H1 as [H1 _]; [|done].
  rewrite cons_middle, app_assoc. by eapply IH.
Qed.

Lemma scan_fold run events c : cont_fold run events = Ok c → scanned run events c.
Proof.
  unfold cont_fold. destruct events as [|e events]; [intros [= <-]; apply scanned_start|]. intros H. apply rbind_ok in H as (c1 & H1 & H).
  apply scan_step with (evs := []) in H1 as [H1 _]; [|apply scanned_start]. by apply (scan_all _ _ [e]) in H.
Qed.

(** C26.  A continuation repeats nothing.  When [postResultContinuation] accepts
    the log of an interrupted run, the calls it returns are those of the last
    assistant message, each with an id of its own, and exactly the first
    [completed] of them - the ones the loop then skips - have a result among the
    run's events. *)
Theorem continuation_repeats_nothing events run step calls completed :
  postResultContinuation events run = Ok (step, calls, completed) →
  ∃ start, open_runs_of events !! run = Some start ∧ NoDup (tc_ID <$> calls) ∧ (0 < completed ≤ length calls)%nat
  ∧ ∀ i x, calls !! i = Some x → (i < completed)%nat ↔ tc_ID x ∈ results_in run (drop start events).
Proof.
  unfold postResultContinuation. destruct (open_runs_of events !! run) as [start|]; [|done]. intros H.
  apply fail_if_ok in H as [_ H]. apply rbind_ok in H as (c & Hc & H). apply fail_if_ok in H as [_ H]. apply fail_if_ok in H as [Hst H].
  injection H as <- <- <-. apply scan_fold in Hc as []. exists start. split; [done|]. split; [done|].
  apply orb_false_elim in Hst as [_ Hst]. bool_to_prop. split; [lia|]. intros i x Hi. rewrite <- sc_results0. by apply sc_done0.
Qed.

(** ** Witness *)

Definition ex_lookup (id : string) : ToolCall := mk_call id "data.lookup" ∅ "".
Definition ex_interrupted : Session :=
  match appendBatch ex_clock ex_new
    [append_entry "r9" EvRunStart (DRunStart (mk_start "p" "c" "" "" None));
     append_entry "r9" EvUserMessage (DUserMessage (mk_user "look two records up"));
     append_entry "r9" EvStepStart (DStep (mk_step 0));
     append_entry "r9" EvAssistantMessage (DAssistantMessage (mk_assistant "" (Some (ex_lookup "c-1")) [ex_lookup "c-1"; ex_lookup "c-2"]));
     append_entry "r9" EvRunUsage (DRunUsage (mk_usage 5 2 "model:2"));
     append_entry "r9" EvToolCall (DToolCall (mk_tcall "c-1" "data.lookup" ∅));
     append_entry "r9" EvToolResult (DToolResult (mk_tresult "c-1" "found" true ∅))] with
  | Ok (s, _) => s | Err _ => ex_new end.

Lemma continuation_repeats_nothing_witness :
  postResultContinuation (s_events ex_interrupted) "r9" = Ok (0, [ex_lookup "c-1"; ex_lookup "c-2"], 1%nat)
  ∧ "c-1" ∈ results_in "r9" (s_events ex_interrupted) ∧ "c-2" ∉ results_in "r9" (s_events ex_interrupted).
Proof.
  assert (postResultContinuation (s_events ex_interrupted) "r9" = Ok (0, [ex_lookup "c-1"; ex_lookup "c-2"], 1%nat)) as H by (vm_compute; reflexivity).
  split; [exact H|]. destruct (continuation_repeats_nothing _ _ _ _ _ H) as (start & Hstart & _ & _ & Hiff).
  assert (start = O) as -> by (vm_compute in Hstart; congruence).
  split; [apply (Hiff 0%nat (ex_lookup "c-1") eq_refl); lia|]. intros Hin. apply (Hiff 1%nat (ex_lookup "c-2") eq_refl) in Hin. lia.
Defined.
