(* ===== verification/TurnClaims.v ===== *)
(** * What a turn and the journal guarantee

    The at-most-once fence, the gates in front of every provider and every model
    call, the budgets, the bounds on nesting and steps, what a turn reports, and
    the finality of a recorded outcome. *)
From S2P Require Import Prelude Prog GoString Json Schema Scope Principal Policy Sha256 Payload Events Message Session SessionLog SessionClaims Capability CapabilityClaims Compactor ModelCall Journal Guard Fence Admission Agent Turn TurnReport Continuation.
From stdpp Require Import gmap strings list sorting.
From Stdlib Require Import ZArith Lia.
Open Scope Z_scope.

(** ** Recorded outcomes *)

Definition result_stable (r : CapabilityResult) : bool := valid_utf8 (r_Content r) && any_map_stable (r_Metadata r).

Lemma result_rt r : result_stable r = true → ValidateCapabilityResult r = Ok tt → scan_result (result_to_json r) = Ok r.
Proof.
  intros H Hv. unfold scan_result. assert (dec_struct result_fields (result_to_json r) (mk_result "" false ∅) = Some r) as Hd.
  { unfold result_stable in H. unfold result_to_json, dec_struct. bool_to_prop. decode_struct r. }
  rewrite Hd, Hv. done.
Qed.

Lemma sameToolInvocation_spec i j : sameToolInvocation i j = true ↔ i = j.
Proof.
  unfold sameToolInvocation. split.
  - intros H. bool_to_prop. destruct i, j. cbn in *. congruence.
  - intros ->. by rewrite !bool_decide_eq_true_2.
Qed.

(** [under I p a]: the journal program can return [a] when each of its
    statements meets a table satisfying [I] (whatever others do in between). *)
Fixpoint under {A : Type} (I : toolTable → Prop) (p : prog sqlE A) (a : A) : Prop :=
  match p with
  | Ret x => a = x
  | Vis e k => ∃ t b t', I t ∧ sql_step e t b t' ∧ under I (k b) a
  end.

Lemma select_sees t b t' key r : t !! key = Some r → sql_step (SSelect key) t b t' → b = Ok (Some r) ∨ ∃ msg, b = Err msg.
Proof.
  intros Hr [(clock & H)|(msg & H & _)]; cbn in H; [left|right; exists msg; by injection H].
  injection H as <- _. by rewrite Hr.
Qed.

Lemma insert_refused i now t b t' r : t !! journal_key i = Some r → sql_step (SInsert i now) t b t' → b = Ok false ∨ ∃ msg, b = Err msg.
Proof.
  intros Hr [(clock & H)|(msg & H & _)]; cbn in H; [left|right; exists msg; by injection H].
  unfold insert_row in H. rewrite Hr in H. by injection H as <- _.
Qed.

Lemma get_sees key r a : under (λ t, t !! key = Some r) (getToolInvocation key) a → a = scanToolInvocation r ∨ ∃ msg, a = Err msg.
Proof. intros (t & b & t' & Hr & Hstep & H). apply (select_sees _ _ _ _ _ Hr) in Hstep as [->|[msg ->]]; cbn in H; [by left|right; by exists msg]. Qed.

Lemma under_bind {A B : Type} I (p : prog sqlE A) (k : A → prog sqlE B) b : under I (pbind p k) b ↔ ∃ a, under I p a ∧ under I (k a) b.
Proof.
  induction p as [x|C e f IH]; cbn.
  - split; [intros H; by exists x|by intros (a & -> & H)].
  - split.
    + intros (t & c & t' & ? & ? & H). apply IH in H as (a & ? & ?). exists a. split; [by exists t, c, t'|done].
    + intros (a & (t & c & t' & ? & ? & ?) & ?). exists t, c, t'. split; [done|]. split; [done|]. apply IH. by exists a.
Qed.

(** Beginning a call whose row exists decides from that row, or fails. *)
Lemma begin_existing max i r a :
  under (λ t, t !! journal_key i = Some r) (sql_Begin max i) a →
  (∃ record, scanToolInvocation r = Ok record ∧ a = existingToolInvocationDecision record i) ∨ ∃ msg, a = Err msg.
Proof.
  unfold sql_Begin. destruct (ValidateToolInvocation i); [|intros ->; right; by eexists].
  assert (∀ o : result ToolInvocationRecord, o = scanToolInvocation r ∨ (∃ msg, o = Err msg) →
    (∃ record, scanToolInvocation r = Ok record ∧ o = Ok record) ∨ ∃ msg, o = Err msg) as Hsplit.
  { intros o [->|?]; [|by right]. destruct (scanToolInvocation r); [left; by eexists|right; by eexists]. }
  intros (t & stored & t' & _ & _ & H). destruct stored as [stored|]; cbn [pbind] in H; [|rewrite H; right; by eexists]. destruct (_ <=? stored).
  - apply under_bind in H as (o & Ho & ->). apply get_sees, Hsplit in Ho as [(record & Hs & ->)|[msg ->]]; [left; by exists record|].
    case_bool_decide; right; by eexists.
  - destruct H as (t1 & now & t2 & _ & _ & t3 & b & t4 & Hr & Hstep & H). cbn [pbind] in H. apply (insert_refused _ _ _ _ _ _ Hr) in Hstep as [->|[msg ->]].
    + apply under_bind in H as (o & Ho & ->). apply get_sees, Hsplit in Ho as [(record & Hs & ->)|[msg ->]]; [left; by exists record|right; by eexists].
    + rewrite H. right. by eexists.
Qed.

Lemma scan_keeps r record : scanToolInvocation r = Ok record → rec_inv record = row_inv r ∧ rec_State record = row_state r.
Proof.
  unfold scanToolInvocation. intros H. apply rbind_ok in H as (? & _ & H). apply fail_if_ok in H as [_ H].
  apply rbind_ok in H as (? & _ & H). apply rbind_ok in H as (d & _ & H). by injection H as <-.
Qed.

(** The rows of the table along the system's steps. *)
Lemma system_row max c c' k r :
  sys_step (J := sqlE) (FencingJournal0 := SQL_fencing max) c c' → sys_store c !! k = Some r →
  row_state r = ToolInvocationCompleted → sys_store c' !! k = Some r.
Proof.
  intros Hstep Hr Hc. destruct Hstep as [| j B e f b s s' ws log Hj Hans|]; cbn in *; [done| |done].
  destruct e; cbn in Hans; try (by subst s'). destruct (sql_step_row _ _ _ _ _ _ _ Hans Hr) as (r' & Hr' & _ & Heq). by rewrite Hr', Heq.
Qed.

(** ** The start of a turn *)

Lemma start_run a request : ag_runID (start_state a request) = request_run request.
Proof. destruct request; [done|apply restore_run..]. Qed.
Lemma start_sid a request : s_id (ag_session (start_state a request)) = s_id (ag_session a).
Proof. destruct request; cbn; [done|by rewrite restore_session..]. Qed.

(** The calls the run had logged before the turn, and those without a result. *)
Definition prior_calls (a : agentState) (request : TurnRequest) : gset string :=
  match request with DoRun _ => ∅ | DoResume r | DoContinue r => logged_calls r (s_events (ag_session a)) end.
Definition prior_open (a : agentState) (request : TurnRequest) : gset string :=
  match request with DoRun _ => ∅ | DoResume r | DoContinue r => open_calls r (s_events (ag_session a)) end.

Lemma start_books a request :
  ag_toolCalls (start_state a request) = Z.of_nat (size (prior_calls a request)) ∧ ag_resumeCallIDs (start_state a request) = prior_open a request.
Proof. destruct request; [done|apply restore_recounts..]. Qed.

Lemma turn_starts {J : Type → Type} `{!ToolInvocationJournal J} regexp_Compile parse_json resolve_credential opts a request tr o a' :
  runs (do_turn (J := J) regexp_Compile parse_json resolve_credential opts a request) tr (o, a') →
  all_starts tr ≤ Z.max 0 (g_MaxToolCalls (a_guard opts) - Z.of_nat (size (prior_calls a request))) + Z.of_nat (size (prior_open a request)).
Proof.
  intros H. apply turn_cases in H as [->|[]]; [unfold all_starts; cbn; lia|]. destruct (start_books a request) as [Hc Hr]. rewrite Hc, Hr in *. lia.
Qed.

(** ** Properties *)

(** C1.  At most one provider start.  However many workers run turns
    concurrently over one journal - new ones, resumed ones, continued ones, with
    any configuration, nested calls, statements that fail before or after taking
    effect, and crashes at any point - the providers of non-idempotent calls
    that share a (session, run, call) key are started at most once in total.
    This holds for every journal that satisfies [FencingJournal]; the SQL
    journal does. *)
Theorem provider_starts_at_most_once {J : Type → Type} `{!ToolInvocationJournal J, !FencingJournal J} (s : fj_store) (c : system (J := J)) (k : jkey) :
  rtc sys_step (mk_system s [] []) c → (starts k (sys_log c) ≤ 1)%nat.
Proof.
  intros H. assert (fenced k c) as (ns & _ & Hsum & _); [|lia].
  eapply (rtc_ind_r (λ c, fenced k c)); [|intros x y _ Hxy Hx; by eapply fenced_step|exact H].
  exists []. split; [constructor|]. cbn. split; [lia|]. intros. lia.
Qed.

(** C2.  Every provider start of a turn, nested ones included, is preceded by
    its own admission, with no other start in between: the arguments are valid
    for the capability's schema, the configured hook let the call through, an
    approver approved it when the manifest requires approval, and, right before
    the start, the configured journal's [BeginToolInvocation] was run to its end
    for the identity that the session, the run and the call id determine and
    decided to execute - for the first time, or again for an idempotent
    call. *)
Theorem every_start_is_gated {J : Type → Type} `{!ToolInvocationJournal J} regexp_Compile parse_json resolve_credential opts a request tr o a' :
  runs (do_turn (J := J) regexp_Compile parse_json resolve_credential opts a request) tr (o, a') →
  ∀ tr1 ev tr2 p rq accepted remaining, tr = tr1 ++ ev :: tr2 → provider_start ev = Some (p, rq, accepted, remaining) →
  ∃ tr0 mid c, tr1 = tr0 ++ mid ∧ quiet mid ∧ rq_CallID rq = tc_ID c ∧ rq_CapabilityID rq = tc_Name c
    ∧ admitted regexp_Compile (a_guard opts) (s_id (ag_session a)) (request_run request) mid c accepted.
Proof.
  intros H. apply turn_cases in H as [->|H]; [intros ? ? ? ? ? ? ? Hnil; by apply app_cons_not_nil in Hnil|].
  apply ad_gated in H. by rewrite start_sid, start_run in H.
Qed.

(** C25.  Budgets.  A turn starts at most as many providers as its run has calls
    left, plus the calls that were logged without a result and may be resumed -
    for a new run, at most [MaxToolCalls].  A capability with a per-run budget is
    started at most as often as its budget had left, plus those open calls. *)
Theorem calls_stay_within_budget {J : Type → Type} `{!ToolInvocationJournal J} regexp_Compile parse_json resolve_credential opts a request tr o a' :
  runs (do_turn (J := J) regexp_Compile parse_json resolve_credential opts a request) tr (o, a') →
  all_starts tr ≤ Z.max 0 (g_MaxToolCalls (a_guard opts) - Z.of_nat (size (prior_calls a request))) + Z.of_nat (size (prior_open a request))
  ∧ ∀ name, 0 < BudgetFor (g_Tools (a_guard opts)) name →
    starts_for name tr ≤ Z.max 0 (BudgetFor (g_Tools (a_guard opts)) name - count_of (start_state a request) name) + Z.of_nat (size (prior_open a request)).
Proof.
  intros H. split; [by eapply turn_starts|]. intros name Hpos. apply turn_cases in H as [->|[]]; [unfold starts_for; cbn; lia|].
  destruct (start_books a request) as [Hc Hr]. rewrite Hc, Hr in *.
  specialize (ad_counts name). specialize (ad_budget name Hpos). lia.
Qed.

(** C27.  Turns terminate.  Composite capabilities call back into the funnel and
    model steps follow each other, but the fuels of the two recursions are
    always enough: with any fuel of at least [execute_fuel] (the calls left in
    the run, plus the resumed ones, plus one) the funnel has exactly the same
    executions, and with any fuel of at least [steps_left] so has the step loop,
    so the out-of-fuel answers are never given. *)
Theorem fuel_is_always_enough {J : Type → Type} `{!ToolInvocationJournal J} regexp_Compile parse_json resolve_credential opts a call info step fuel :
  ((execute_fuel (a_guard opts) a ≤ fuel)%nat → ∀ tr x,
    runs (Execute (J := J) regexp_Compile parse_json resolve_credential (a_guard opts) fuel a call) tr x ↔
    runs (guarded_Execute regexp_Compile parse_json resolve_credential (a_guard opts) a call) tr x)
  ∧ ((steps_left opts step ≤ fuel)%nat → ∀ tr x,
    runs (runModelSteps (J := J) regexp_Compile parse_json resolve_credential opts fuel a info step) tr x ↔
    runs (run_steps regexp_Compile parse_json resolve_credential opts a info step) tr x).
Proof.
  split; intros Hf tr x.
  - unfold guarded_Execute. unfold execute_fuel in *.
    split; apply (Execute_agree _ _ _ _ _ _ (left (a_guard opts) a)); unfold left; lia.
  - unfold run_steps. split; apply steps_agree; lia.
Qed.

(** C24.  Model calls.  A turn makes at most one model call per step it has left,
    each for its own run and session, under the session's principal, with the
    configured provider and model.  When a gate is configured it authorised
    exactly that request beforehand, and the adapter's own check
    [RequireAcceptedModelCall] passes. *)
Theorem model_calls_are_authorised {J : Type → Type} `{!ToolInvocationJournal J} regexp_Compile parse_json resolve_credential opts a request tr o a' :
  runs (do_turn (J := J) regexp_Compile parse_json resolve_credential opts a request) tr (o, a') →
  (model_calls tr ≤ Z.to_nat (a_MaxSteps opts - first_step a request))%nat
  ∧ ∀ tr1 ev tr2 g, tr = tr1 ++ ev :: tr2 → model_call ev = Some g →
    mq_RunID (ModelCall g) = request_run request ∧ mq_SessionID (ModelCall g) = s_id (ag_session a)
    ∧ mq_Principal (ModelCall g) = clonePrincipal (s_principal (ag_session a)) ∧ go_Provider g = a_Provider opts ∧ go_Model g = a_Model opts
    ∧ (a_ModelCallGate opts = true → RequireAcceptedModelCall g = Ok tt ∧ Ev (AuthorizeModelCall (cloneModelCallRequest (ModelCall g))) None ∈ tr1).
Proof. intros H. by apply turn_good in H as [H _]. Qed.

(** C23.  What a turn reports is what the log says.  A turn of a run that had not
    ended returns one of three things.  Without an error: the requested run id,
    exactly the status [RunStatus] reads from the resulting log, and the last
    assistant text of the run (or the run is suspended on an approval).  With an
    error and a result, from [fail]: the run id, the status cancelled exactly when
    the cause is a context error and failed otherwise, the last assistant text,
    and the log has that status - unless the session refuses the end event, which
    [fail] ignores.  With an error and no result: the run is still open in the
    log, or its final event was recorded and only its delivery failed.  The
    summariser, a host component that may append to the session, is assumed not to
    end runs. *)
Theorem turn_reports_the_log {J : Type → Type} `{!ToolInvocationJournal J} regexp_Compile parse_json resolve_credential opts a request tr r err a' :
  runs (do_turn (J := J) regexp_Compile parse_json resolve_credential opts a request) tr ((r, err), a') →
  ended (entry_at (s_runIndex (ag_session a)) (request_run request)) = false → Forall benign tr →
  match err with
  | None =>
      tr_RunID r = request_run request
      ∧ RunStatus (ag_session a') (request_run request) = (tr_Status r, true)
      ∧ (tr_Status r = RunWaitingApproval ∨ tr_Answer r = LastAssistantText (ag_session a') (request_run request))
  | Some cause =>
      (r = no_result
       ∧ (ended (entry_at (s_runIndex (ag_session a')) (request_run request)) = false
          ∨ ∃ status, closing status ∧ RunStatus (ag_session a') (request_run request) = (status, true)))
      ∨ (tr_RunID r = request_run request
         ∧ tr_Status r = (if is_context cause then RunCancelled else RunFailed)
         ∧ tr_Answer r = LastAssistantText (ag_session a') (request_run request)
         ∧ (RunStatus (ag_session a') (request_run request) = (tr_Status r, true)
            ∨ end_refused (request_run request) (ag_session a') (tr_Status r)))
  end.
Proof. intros H Hu Hb. apply turn_good in H as [_ H]. destruct err; apply (H Hb Hu). Qed.

(** A recorded outcome is final.  Once the row of a call is completed no
    step of the system changes it; every later attempt to begin that call is
    answered with the recorded result (or fails), and never with permission to
    execute; an attempt with another identity under the same key is a
    conflict. *)
Theorem completed_outcome_is_final (max : Z) (c c' : system (FencingJournal0 := SQL_fencing max)) i j r record a :
  rtc sys_step c c' → sys_store c !! journal_key i = Some r → row_state r = ToolInvocationCompleted → row_inv r = i →
  scanToolInvocation r = Ok record → journal_key j = journal_key i →
  under (λ t, t !! journal_key i = Some r) (sql_Begin max j) a →
  sys_store c' !! journal_key i = Some r ∧
  ((∃ msg, a = Err msg) ∨ a = Ok (record, if decide (j = i) then ToolInvocationReplay else ToolInvocationConflict)).
Proof.
  intros Hsteps Hr Hc Hi Hscan Hkey Hbegin. split.
  - clear Hbegin Hkey. induction Hsteps as [c|c c1 c' Hstep _ IH]; [done|]. apply IH. by eapply system_row.
  - rewrite <- Hkey in Hbegin. apply begin_existing in Hbegin as [(record' & Hs & ->)|?]; [|by left].
    rewrite Hscan in Hs. injection Hs as <-. pose proof (scan_keeps _ _ Hscan) as [H1 H2].
    unfold existingToolInvocationDecision. rewrite H1, H2, Hi, Hc. case_decide as Hd.
    + subst j. rewrite (proj2 (sameToolInvocation_spec i i) eq_refl). cbn. destruct (rec_Result record); [by right|left; by eexists].
    + destruct (sameToolInvocation i j) eqn:E; [apply sameToolInvocation_spec in E; congruence|]. by right.
Qed.

(** The journal returns what was recorded.  Completing a started call with
    a valid result succeeds and answers that result, and beginning the call
    again on the table it leaves replays the very same record, its result
    decoded back from the stored JSON. *)
Theorem journal_replays_the_result (max : Z) (t : toolTable) i r now started a :
  t !! journal_key i = Some (mk_row i ToolInvocationStarted None "" started started 0) →
  ValidateToolInvocation i = Ok tt → ValidateCapabilityResult r = Ok tt → result_stable r = true → 0 < started → 0 < now →
  let record := mk_record i ToolInvocationCompleted (Some (cloneCapabilityResult r)) "" started now now in
  (complete_tx i (result_to_json r) now t).1 = Ok record
  ∧ (under (λ t', t' !! journal_key i = (complete_tx i (result_to_json r) now t).2 !! journal_key i) (sql_Begin max i) a →
     (∃ msg, a = Err msg) ∨ a = Ok (record, ToolInvocationReplay)).
Proof.
  intros Ht Hi Hv Hs H0 H1 record.
  set (row := mk_row i ToolInvocationCompleted (Some (result_to_json r)) "" started now now).
  assert (complete_row i (result_to_json r) now t !! journal_key i = Some row) as Hrow.
  { unfold complete_row. rewrite Ht. cbn [row_inv row_state]. rewrite (proj2 (sameToolInvocation_spec i i) eq_refl).
    rewrite bool_decide_eq_true_2 by done. cbn. by rewrite lookup_insert_eq. }
  assert (scanToolInvocation row = Ok record) as Hscan.
  { unfold scanToolInvocation. cbn [row_inv row_state row_result row_error row_started row_updated row_completed row].
    rewrite Hi, (result_rt r) by done. unfold rbind, fail_if.
    by rewrite (proj2 (Z.leb_gt _ _) H0), (proj2 (Z.leb_gt _ _) H1). }
  assert (complete_tx i (result_to_json r) now t = (Ok record, complete_row i (result_to_json r) now t)) as Htx.
  { unfold complete_tx. rewrite Hrow, Hscan. unfold rbind, fail_if. cbn [rec_inv rec_State rec_Result record].
    rewrite (proj2 (sameToolInvocation_spec i i) eq_refl), !bool_decide_eq_true_2 by (done || by eexists). done. }
  rewrite Htx. cbn [fst snd]. split; [done|]. rewrite Hrow. intros Hbegin.
  apply begin_existing in Hbegin as [(record' & Hs' & ->)|?]; [|by left]. rewrite Hscan in Hs'. injection Hs' as <-.
  right. unfold existingToolInvocationDecision. cbn. by rewrite (proj2 (sameToolInvocation_spec i i) eq_refl).
Qed.

(** ** Witnesses *)

Definition ex_guard_manifest : CapabilityManifest :=
  mk_manifest "data.lookup" "1.0.0" "Lookup" "" "tool" "" ["data.read"] [] ∅ ∅ 0 3 0 false true
    (Some (mk_tool "look a record up" None)) None ∅.
Definition ex_guard_tools : CapabilitySnapshot :=
  mk_snapshot "d" "" ex_tenant [mk_snapentry ex_guard_manifest ex_tenant ""] {[ "data.lookup" := Some ex_provider ]} ex_cap_principal.
Definition ex_guard_opts : GuardOptions := mk_guard_options 8 true true ImmediateApprover true true ex_guard_tools.
Definition ex_turn_opts : AgentOptions :=
  mk_agent_options ex_guard_opts "answer briefly" "provider" "model" 4 "p" "c" None None true NoCompactor false false true None.
Definition ex_agent : agentState := mk_agent ex_new "" ∅ 0 ∅ ∅ "".
Definition ex_guard_call : ToolCall := mk_call "call-9" "data.lookup" ∅ "".
Definition ex_turn_request : TurnRequest := DoRun (mk_turn_input "r9" "look it up" 0 [] None ∅).

(** A model that looks the record up and then answers. *)
Definition ex_stream (g : GenerateOptions) : list StreamChunk :=
  if existsb (λ m, negb (is_empty (ToolCallID m))) (go_Messages g)
  then [mk_stream_chunk StreamKindAssistant "It is there." None [] (Some (mk_tokens 9 3)) ""; mk_stream_chunk StreamKindFinish "" None [] None FinishStop]
  else [mk_stream_chunk StreamKindAssistant "" (Some ex_guard_call) [] (Some (mk_tokens 7 2)) ""; mk_stream_chunk StreamKindFinish "" None [] None FinishToolCalls].

(** A host that allows and approves, over a table that works. *)
Definition ex_env (B : Type) (e : agentE sqlE B) : toolTable → B * toolTable :=
  match e in agentE _ B return toolTable → B * toolTable with
  | OnBeforeTool _ _ => λ t, (None, t)
  | OnAfterTool _ _ _ => λ t, (tt, t)
  | LimitCall _ _ => λ t, (true, t)
  | Approve _ => λ t, (Ok ApprovalApproved, t)
  | RequestApproval _ => λ t, (Err "", t)
  | StoreE s => λ t, sql_exec 1000 s t
  | CtxErr => λ t, (None, t)
  | StartProvider _ _ _ _ => λ t, (PDone (Returned (mk_result "found" true ∅) None), t)
  | AskClock => λ t, (ex_clock, t)
  | OnEvent _ => λ t, (true, t)
  | OnRunStart _ => λ t, (None, t)
  | OnBeforeStep _ => λ t, (None, t)
  | OnAfterStep _ => λ t, (tt, t)
  | OnRunEnd _ _ => λ t, (tt, t)
  | EnsureSummarized _ messages => λ t, (([], inl messages), t)
  | CompactMessages messages => λ t, (Some messages, t)
  | AssembleContext request => λ t, (inl request, t)
  | AuthorizeModelCall _ => λ t, (None, t)
  | StreamModel g => λ t, ((ex_stream g, None), t)
  | CtxDeadline => λ t, (None, t)
  | NewID prefix => λ t, (Ok prefix, t)
  end.

Definition ex_worker : prog (agentE sqlE) (turn_outcome * agentState) :=
  @do_turn sqlE (SQLToolInvocationJournal 0) no_regexp (λ _, None) (λ _ _ _, None) ex_turn_opts ex_agent ex_turn_request.
Definition ex_first := drive ex_env ex_worker ∅.
Definition ex_second := drive ex_env ex_worker ex_first.1.2.
Definition ex_key : jkey := ("s1", "r9", "call-9").

Lemma ex_env_answers B (e : agentE sqlE B) s : answers (FencingJournal0 := SQL_fencing 0) e s (ex_env B e s).1 (ex_env B e s).2.
Proof. destruct e; cbn; try done. left. exists 1000. by destruct (sql_exec 1000 s0 s). Qed.

Definition ex_system : system (FencingJournal0 := SQL_fencing 0) :=
  @mk_system sqlE _ (SQL_fencing 0) ex_second.1.2 [Ret ex_first.1.1; Ret ex_second.1.1] (ex_first.2 ++ ex_second.2).

Lemma ex_system_reached : rtc (sys_step (FencingJournal0 := SQL_fencing 0)) (@mk_system sqlE _ (SQL_fencing 0) ∅ [] []) ex_system.
Proof.
  pose proof (drive_steps (FencingJournal0 := SQL_fencing 0) ex_env ex_worker ex_env_answers ∅ [ex_worker] [] 0 eq_refl) as H1.
  pose proof (drive_steps (FencingJournal0 := SQL_fencing 0) ex_env ex_worker ex_env_answers ex_first.1.2 [Ret ex_first.1.1; ex_worker] ex_first.2 1 eq_refl) as H2.
  fold ex_first in H1. fold ex_second in H2. cbn [insert list_insert app] in H1, H2.
  eapply rtc_l; [apply (sys_spawn (FencingJournal0 := SQL_fencing 0) no_regexp (λ _, None) (λ _ _ _, None) ex_turn_opts ex_agent ex_turn_request)|].
  etrans; [exact H1|].
  eapply rtc_l; [apply (sys_spawn (FencingJournal0 := SQL_fencing 0) no_regexp (λ _, None) (λ _ _ _, None) ex_turn_opts ex_agent ex_turn_request)|].
  exact H2.
Qed.

Lemma provider_starts_at_most_once_witness : starts ex_key (sys_log ex_system) = 1%nat ∧ (starts ex_key (sys_log ex_system) ≤ 1)%nat.
Proof. split; [vm_compute; reflexivity|]. exact (provider_starts_at_most_once _ ex_system ex_key ex_system_reached). Defined.

Lemma ex_worker_runs : runs ex_worker ex_first.2 (ex_first.1.1.1, ex_first.1.1.2).
Proof. rewrite <- surjective_pairing. apply drive_trace. Qed.

Lemma every_start_is_gated_witness :
  ∃ tr1 ev tr2 p rq accepted remaining c tr0 mid, ex_first.2 = tr1 ++ ev :: tr2 ∧ provider_start ev = Some (p, rq, accepted, remaining)
  ∧ tr1 = tr0 ++ mid ∧ admitted (ToolInvocationJournal0 := SQLToolInvocationJournal 0) no_regexp ex_guard_opts "s1" "r9" mid c accepted.
Proof.
  destruct (provider_start <$> ex_first.2 !! 24%nat) as [[[[[p rq] accepted] remaining]|]|] eqn:E; [|vm_compute in E; discriminate E..].
  destruct (ex_first.2 !! 24%nat) as [ev|] eqn:Ev; [|discriminate E]. injection E as E.
  pose proof (take_drop_middle _ _ _ Ev) as Hsplit. symmetry in Hsplit.
  destruct (@every_start_is_gated sqlE (SQLToolInvocationJournal 0) no_regexp (λ _, None) (λ _ _ _, None) ex_turn_opts ex_agent ex_turn_request _ _ _ ex_worker_runs _ _ _ _ _ _ _ Hsplit E) as (tr0 & mid & c & H0 & _ & _ & _ & H).
  exists (take 24 ex_first.2), ev, (drop 25 ex_first.2), p, rq, accepted, remaining, c, tr0, mid. split_and!; [exact Hsplit|exact E|exact H0|exact H].
Defined.

Lemma calls_stay_within_budget_witness : all_starts ex_first.2 = 1 ∧ all_starts ex_first.2 ≤ 8 ∧ starts_for "data.lookup" ex_first.2 ≤ 3.
Proof.
  split; [vm_compute; reflexivity|].
  destruct (@calls_stay_within_budget sqlE (SQLToolInvocationJournal 0) no_regexp (λ _, None) (λ _ _ _, None) ex_turn_opts ex_agent ex_turn_request _ _ _ ex_worker_runs) as [H1 H2].
  split; [exact H1|]. apply (H2 "data.lookup"). vm_compute. reflexivity.
Defined.

Definition ex_tool_agent : agentState := mk_agent ex_new "r9" ∅ 0 ∅ ∅ "".
Definition ex_tool_run :=
  drive ex_env (@guarded_Execute sqlE (SQLToolInvocationJournal 0) no_regexp (λ _, None) (λ _ _ _, None) ex_guard_opts ex_tool_agent ex_guard_call) ∅.

Lemma fuel_is_always_enough_witness :
  execute_fuel ex_guard_opts ex_tool_agent = 9%nat
  ∧ runs (@Execute sqlE (SQLToolInvocationJournal 0) no_regexp (λ _, None) (λ _ _ _, None) ex_guard_opts 20 ex_tool_agent ex_guard_call) ex_tool_run.2 ex_tool_run.1.1.
Proof.
  split; [vm_compute; reflexivity|].
  destruct (@fuel_is_always_enough sqlE (SQLToolInvocationJournal 0) no_regexp (λ _, None) (λ _ _ _, None) ex_turn_opts ex_tool_agent ex_guard_call (run_info ex_tool_agent) 0 20) as [H _].
  apply H; [vm_compute; lia|]. apply drive_trace.
Defined.

Lemma model_calls_are_authorised_witness : model_calls ex_first.2 = 2%nat ∧ (model_calls ex_first.2 ≤ 4)%nat.
Proof.
  split; [vm_compute; reflexivity|].
  destruct (@model_calls_are_authorised sqlE (SQLToolInvocationJournal 0) no_regexp (λ _, None) (λ _ _ _, None) ex_turn_opts ex_agent ex_turn_request _ _ _ ex_worker_runs) as [H _].
  exact H.
Defined.

Definition asks_summary (ev : event (agentE sqlE)) : bool := match ev with Ev (EnsureSummarized _ _) _ => true | _ => false end.
Lemma quiet_benign tr : forallb (λ ev, negb (asks_summary ev)) tr = true → Forall benign tr.
Proof. induction tr as [|[B e b] tr IH]; cbn; intros H; [constructor|]. apply andb_prop in H as [He H]. constructor; [by destruct e|auto]. Qed.

(** The same host, cancelled while the model streams. *)
Definition ex_cancelled_env (B : Type) (e : agentE sqlE B) : toolTable → B * toolTable :=
  match e in agentE _ B return toolTable → B * toolTable with
  | StreamModel g => λ t, (([], Some (ContextError "context canceled")), t)
  | e => ex_env _ e
  end.
Definition ex_cancelled := drive ex_cancelled_env ex_worker ∅.

Lemma turn_reports_the_log_witness :
  (ex_first.1.1.1 = (mk_turn "r9" RunCompleted "It is there.", None) ∧ RunStatus (ag_session ex_first.1.1.2) "r9" = (RunCompleted, true))
  ∧ ex_cancelled.1.1.1 = (mk_turn "r9" RunCancelled "", Some (ContextError "context canceled"))
  ∧ (RunStatus (ag_session ex_cancelled.1.1.2) "r9" = (RunCancelled, true) ∨ end_refused "r9" (ag_session ex_cancelled.1.1.2) RunCancelled).
Proof.
  split.
  - assert (ex_first.1.1.1 = (mk_turn "r9" RunCompleted "It is there.", None)) as E by (vm_compute; reflexivity). split; [exact E|].
    pose proof ex_worker_runs as H. rewrite E in H.
    destruct (@turn_reports_the_log sqlE (SQLToolInvocationJournal 0) no_regexp (λ _, None) (λ _ _ _, None) ex_turn_opts ex_agent ex_turn_request _ _ None _ H) as (_ & Hs & _);
      [vm_compute; reflexivity|apply quiet_benign; vm_compute; reflexivity|exact Hs].
  - assert (ex_cancelled.1.1.1 = (mk_turn "r9" RunCancelled "", Some (ContextError "context canceled"))) as E by (vm_compute; reflexivity). split; [exact E|].
    assert (runs ex_worker ex_cancelled.2 (ex_cancelled.1.1.1, ex_cancelled.1.1.2)) as H by (rewrite <- surjective_pairing; apply drive_trace). rewrite E in H.
    destruct (@turn_reports_the_log sqlE (SQLToolInvocationJournal 0) no_regexp (λ _, None) (λ _ _ _, None) ex_turn_opts ex_agent ex_turn_request _ _ (Some _) _ H) as [[Hn _]|(_ & _ & _ & Hs)];
      [vm_compute; reflexivity|apply quiet_benign; vm_compute; reflexivity|discriminate Hn|exact Hs].
Defined.

(** Beginning a call again on a table that works. *)
Lemma begin_again (t : toolTable) i stored row record :
  ValidateToolInvocation i = Ok tt → Z.of_nat (size t) = stored → stored < 8192 → t !! journal_key i = Some row → scanToolInvocation row = Ok record →
  under (λ t', t' !! journal_key i = t !! journal_key i) (sql_Begin 0 i) (existingToolInvocationDecision record i).
Proof.
  intros Hv Hsize Hlt Hrow Hscan. unfold sql_Begin. rewrite Hv. exists t, (Ok stored), t. split; [done|]. split; [left; exists 1; cbn; by rewrite Hsize|].
  cbn [pbind]. change (invocationCap 0) with 8192. rewrite (proj2 (Z.leb_gt 8192 stored) Hlt). exists t, 1, t. split; [done|]. split; [left; by exists 1|].
  exists t, (Ok false), t. split; [done|]. split; [left; exists 1; cbn; unfold insert_row; by rewrite Hrow|].
  exists t, (Ok (Some row)), t. split; [done|]. split; [left; exists 1; cbn; by rewrite Hrow|]. cbn. by rewrite Hscan.
Qed.

Definition ex_invocation : ToolInvocation :=
  match NewToolInvocation (run_info ex_tool_agent) ex_guard_call false with Ok i => i | Err _ => mk_invocation "" "" "" "" "" "" "" false end.
Definition ex_row : toolRow := default (mk_row ex_invocation ToolInvocationStarted None "" 0 0 0) (ex_second.1.2 !! ex_key).
Definition ex_record : ToolInvocationRecord :=
  match scanToolInvocation ex_row with Ok r => r | Err _ => mk_record ex_invocation ToolInvocationStarted None "" 0 0 0 end.

Lemma completed_outcome_is_final_witness :
  rec_Result ex_record = Some (mk_result "found" true ∅)
  ∧ existingToolInvocationDecision ex_record ex_invocation = Ok (ex_record, ToolInvocationReplay)
  ∧ sys_store ex_system !! journal_key ex_invocation = Some ex_row.
Proof.
  split; [vm_compute; reflexivity|].
  destruct (completed_outcome_is_final 0 ex_system ex_system ex_invocation ex_invocation ex_row ex_record (existingToolInvocationDecision ex_record ex_invocation)) as [H1 H2];
    [constructor|vm_compute; reflexivity..| |].
  - apply (begin_again ex_second.1.2 ex_invocation 1 ex_row ex_record); vm_compute; reflexivity.
  - split; [|exact H1]. destruct H2 as [[msg H2]|H2]; [vm_compute in H2; discriminate H2|exact H2].
Defined.

Definition ex_started : toolTable := {[ journal_key ex_invocation := mk_row ex_invocation ToolInvocationStarted None "" 5 5 0 ]}.

Lemma journal_replays_the_result_witness :
  (complete_tx ex_invocation (result_to_json (mk_result "found" true ∅)) 9 ex_started).1 =
  Ok (mk_record ex_invocation ToolInvocationCompleted (Some (mk_result "found" true ∅)) "" 5 9 9).
Proof.
  destruct (journal_replays_the_result 0 ex_started ex_invocation (mk_result "found" true ∅) 9 5 (Err "")) as [H _]; [vm_compute; reflexivity..|exact H].
Defined.
