(* ===== verification/Profile.v ===== *)
(** * Agent profiles: [src/pkg/core/profile.go]

    A profile is assembled from layers mounted at the ancestors of a target
    scope, on top of the profile it extends.  The registry keeps every layer
    twice, in a map keyed by scope and profile and in a flat list by mount
    order; [ReplaceExact] swaps a layer in both at once. *)
From S2P Require Import Prelude GoString Json Scope Registry Principal Policy Sha256 GoTime Payload Capability.
From stdpp Require Import gmap strings list sorting.
From Stdlib Require Import ZArith Lia Ascii.
Open Scope Z_scope.

(** ** Data *)

Definition MaxProfileCapabilities : Z := 256.
Definition MaxProfileFragments : Z := 512.
Definition MaxPromptFragmentBytes : Z := 64 * 2 ^ 10.
Definition MaxSystemPromptBytes : Z := 2 ^ 20.
Definition MaxProfileMetadataItems : Z := 256.

Definition PromptIdentity := "identity".
Definition PromptTraits := "traits".
Definition PromptValues := "values".
Definition PromptGoals := "goals".
Definition PromptStyle := "style".
Definition PromptBoundaries := "boundaries".
Definition PromptInstructions := "instructions".

Definition promptSectionTable : list (string * Z) :=
  [(PromptIdentity, 10); (PromptTraits, 20); (PromptValues, 30); (PromptGoals, 40); (PromptStyle, 50);
   (PromptBoundaries, 60); (PromptInstructions, 70)].
(** Reading the Go map [promptSectionOrder]. *)
Definition promptSectionOrder (section : string) : option Z :=
  snd <$> List.find (λ e, bool_decide (fst e = section)) promptSectionTable.

Record PromptFragment := mk_prompt { f_ID : string; f_Section : string; f_Content : string; f_Priority : Z }.

Record AgentProfileLayer := mk_profile_layer {
  l_Scope : ScopePath; l_ProfileID : string; Extends : string; l_Name : option string; l_Description : option string;
  l_Model : option ModelSelection; l_MaxSteps : option Z; l_MaxToolCalls : option Z;
  AddCapabilities : list string; RemoveCapabilities : list string; PutFragments : list PromptFragment;
  RemoveFragments : list string; l_Metadata : gmap string string }.

#[export] Instance PromptFragment_eq_dec : EqDecision PromptFragment.
Proof. solve_decision. Defined.
#[export] Instance ModelSelection_eq_dec : EqDecision ModelSelection.
Proof. solve_decision. Defined.

Notation storedProfileLayer := (stored AgentProfileLayer).

Record AgentProfileRegistry := mk_profile_registry {
  pr_layers : gmap string (list storedProfileLayer); pr_flat : list storedProfileLayer; pr_next : Z; pr_maxBindings : Z }.

Definition NewAgentProfileRegistry : AgentProfileRegistry := mk_profile_registry ∅ [] 0 0.

Definition profileLayerKey (scope : ScopePath) (profileID : string) : string :=
  path_string scope +:+ String "000"%char "" +:+ profileID.

Definition layers_at (r : AgentProfileRegistry) (key : string) : list storedProfileLayer := default [] (pr_layers r !! key).

(** [cloneProfileLayer] copies pointers and slices; as a value it is the layer. *)
Definition cloneProfileLayer (l : AgentProfileLayer) : AgentProfileLayer :=
  mk_profile_layer (l_Scope l) (l_ProfileID l) (Extends l) (l_Name l) (l_Description l) (l_Model l) (l_MaxSteps l) (l_MaxToolCalls l)
    (AddCapabilities l) (RemoveCapabilities l) (PutFragments l) (RemoveFragments l) (l_Metadata l).

Definition clone_stored (s : storedProfileLayer) : storedProfileLayer := mk_stored (cloneProfileLayer (st_val s)) (st_order s).

Definition cloneLocked (r : AgentProfileRegistry) : AgentProfileRegistry :=
  mk_profile_registry ((λ l, map clone_stored l) <$> pr_layers r) (map clone_stored (pr_flat r)) (pr_next r) (pr_maxBindings r).

(** ** Validation *)

Definition validateModelSelection (selection : ModelSelection) : result unit :=
  let provider := trim_space (Payload.Provider selection) in
  let model := trim_space (Model selection) in
  fail_when is_empty provider || (128 <? str_len provider) || containsControl provider
    with "model provider is empty, too long, or contains control characters" ;;
  fail_when is_empty model || (256 <? str_len model) || containsControl model
    with "model name is empty, too long, or contains control characters" ;; Ok tt.

Definition check_fragment (f : PromptFragment) : result unit :=
  fail_when is_empty (f_ID f) || (128 <? str_len (f_ID f)) || containsControl (f_ID f) || blank (f_Content f)
    with "agent profile has an invalid prompt fragment" ;;
  fail_when MaxPromptFragmentBytes <? str_len (f_Content f) with "agent profile fragment exceeds 65536 bytes" ;;
  match promptSectionOrder (f_Section f) with Some _ => Ok tt | None => Err "agent profile fragment has unknown section" end.

Definition check_metadata (kv : string * string) : result unit :=
  fail_when is_empty kv.1 || (128 <? str_len kv.1) || containsControl kv.1 || (MaxPromptFragmentBytes <? str_len kv.2) || containsControl kv.2
    with "agent profile has invalid metadata" ;; Ok tt.

Definition validateProfileLayer (l : AgentProfileLayer) : result unit :=
  fail_when Depth (l_Scope l) =? 0 with "agent profile has an empty scope" ;;
  let! _ := ValidateProfileID (l_ProfileID l) in
  fail_when bool_decide (Extends l = l_ProfileID l) with "agent profile cannot extend itself" ;;
  fail_when MaxProfileCapabilities <? Z.of_nat (length (AddCapabilities l) + length (RemoveCapabilities l))
    with "agent profile layer exceeds 256 capability changes" ;;
  fail_when MaxProfileFragments <? Z.of_nat (length (PutFragments l) + length (RemoveFragments l))
    with "agent profile layer exceeds 512 fragment changes" ;;
  fail_when MaxProfileMetadataItems <? Z.of_nat (size (l_Metadata l)) with "agent profile layer exceeds 256 metadata items" ;;
  let! _ := check_all validateCapabilityID (AddCapabilities l ++ RemoveCapabilities l) in
  let! _ := check_all check_fragment (PutFragments l) in
  check_all check_metadata (map_to_list (l_Metadata l)).

(** ** Mount and unmount *)

Definition profile_Mount (layer : AgentProfileLayer) (r : AgentProfileRegistry) : result (AgentProfileRegistry * Handle) :=
  let! _ := validateProfileLayer layer in
  fail_when registryCap (pr_maxBindings r) <=? Z.of_nat (length (pr_flat r)) with "registry bindings exceed maximum" ;;
  let order := uint64 (pr_next r + 1) in
  let key := profileLayerKey (l_Scope layer) (l_ProfileID layer) in
  let stored := mk_stored (cloneProfileLayer layer) order in
  Ok (mk_profile_registry (<[key := layers_at r key ++ [stored]]> (pr_layers r)) (pr_flat r ++ [stored]) order (pr_maxBindings r),
      mk_handle key order false).

Definition profile_unmount (h : Handle) (r : AgentProfileRegistry) : AgentProfileRegistry * Handle :=
  if h_done h then (r, h)
  else (mk_profile_registry
          (<[h_key h := remove_first (λ s, st_order s =? h_order h) (layers_at r (h_key h))]> (pr_layers r))
          (remove_first (λ s, st_order s =? h_order h) (pr_flat r)) (pr_next r) (pr_maxBindings r),
        mk_handle (h_key h) (h_order h) true).

(** ** Resolution *)

Record profileState := mk_pstate {
  s_id : string; s_name : string; s_description : string; s_model : ModelSelection; s_maxSteps : Z; s_maxToolCalls : Z;
  s_capabilities : gmap string bool; s_fragments : gmap string ResolvedPromptFragment; s_metadata : gmap string string }.

Definition layersForLocked (r : AgentProfileRegistry) (target : ScopePath) (profileID : string) : list storedProfileLayer :=
  mjoin ((λ prefix, merge_sort order_le (layers_at r (profileLayerKey prefix profileID))) <$> Prefixes target).

(** The one parent the layers agree on ("" for none). *)
Definition parent_of (layers : list storedProfileLayer) : result string :=
  rfold (λ extends s, let e := Extends (st_val s) in
    if is_empty e then Ok extends
    else fail_when negb (is_empty extends) && negb (bool_decide (extends = e)) with "agent profile has conflicting parents" ;; Ok e) "" layers.

Definition initial_state (profileID : string) : profileState := mk_pstate profileID "" "" zero_model 10 16 ∅ ∅ ∅.

Definition resolved_fragment (source : ScopePath) (f : PromptFragment) : ResolvedPromptFragment :=
  mk_fragment (f_ID f) (f_Section f) (f_Content f) (f_Priority f) source.

(** One iteration of the layer loop. *)
Definition apply_profile_layer (st : profileState) (s : storedProfileLayer) : result profileState :=
  let l := st_val s in
  fail_when cap_out_of_range (l_MaxSteps l) HardMaxSteps with "agent profile max steps must be between 1 and 128" ;;
  fail_when cap_out_of_range (l_MaxToolCalls l) HardMaxToolCalls with "agent profile max tool calls must be between 1 and 1024" ;;
  Ok (mk_pstate (s_id st) (default (s_name st) (l_Name l)) (default (s_description st) (l_Description l)) (default (s_model st) (l_Model l))
        (default (s_maxSteps st) (l_MaxSteps l)) (default (s_maxToolCalls st) (l_MaxToolCalls l))
        (foldl (λ m id, delete id m) (foldl (λ m id, <[id := true]> m) (s_capabilities st) (AddCapabilities l)) (RemoveCapabilities l))
        (foldl (λ m f, <[f_ID f := resolved_fragment (l_Scope l) f]> m) (foldl (λ m id, delete id m) (s_fragments st) (RemoveFragments l)) (PutFragments l))
        (l_Metadata l ∪ s_metadata st)).

(** The checks after the layer loop. *)
Definition finish_state (profileID : string) (st : profileState) : result profileState :=
  let st := if is_empty (s_name st)
            then mk_pstate (s_id st) profileID (s_description st) (s_model st) (s_maxSteps st) (s_maxToolCalls st) (s_capabilities st) (s_fragments st) (s_metadata st)
            else st in
  let! _ := validateModelSelection (s_model st) in Ok st.

Definition with_id (id : string) (st : profileState) : profileState :=
  mk_pstate id (s_name st) (s_description st) (s_model st) (s_maxSteps st) (s_maxToolCalls st) (s_capabilities st) (s_fragments st) (s_metadata st).

Definition out_of_fuel := "profile resolution is out of fuel".

(** [resolveLocked]; [visiting] is the path from the profile asked for. *)
Fixpoint resolveLocked (fuel : nat) (r : AgentProfileRegistry) (target : ScopePath) (profileID : string) (visiting : list string) : result profileState :=
  match fuel with
  | O => Err out_of_fuel
  | S fuel =>
    fail_when bool_decide (profileID ∈ visiting) with "agent profile inheritance cycle" ;;
    let layers := layersForLocked r target profileID in
    fail_when match layers with [] => true | _ => false end with "agent profile was not found for scope" ;;
    let! extends := parent_of layers in
    let! state := if is_empty extends then Ok (initial_state profileID)
                  else let! parent := resolveLocked fuel r target extends (profileID :: visiting) in Ok (with_id profileID parent) in
    let! state := rfold apply_profile_layer state layers in
    finish_state profileID state
  end.

(** Every profile visited has a mounted layer, so the flat list bounds the
    depth of the inheritance. *)
Definition resolve_fuel (r : AgentProfileRegistry) : nat := S (length (pr_flat r)).

(** ** Snapshots *)

Definition section_rank (f : ResolvedPromptFragment) : Z := default 0 (promptSectionOrder (Section f)).
(** The comparison of [sort.Slice], as a non-strict order. *)
Definition fragment_le (a b : ResolvedPromptFragment) : Prop :=
  section_rank a < section_rank b
  ∨ section_rank a = section_rank b ∧ (Priority a < Priority b ∨ Priority a = Priority b ∧ String.le (pf_ID a) (pf_ID b)).
#[export] Instance fragment_le_dec : RelDecision fragment_le.
Proof. intros a b. unfold fragment_le. apply _. Defined.

Definition newline : string := String "010"%char "".

(** The rendering loop of [SystemPrompt]: what was written and the current
    section. *)
Definition render_fragment (acc : string * string) (f : ResolvedPromptFragment) : string * string :=
  let '(out, current) := acc in
  let '(out, current) :=
    if bool_decide (Section f = current) then (out, current)
    else (((if is_empty out then out else out +:+ newline +:+ newline) +:+ "## " +:+ Section f +:+ newline)%string, Section f) in
  ((out +:+ "- " +:+ Content f +:+ newline)%string, current).

Definition SystemPrompt (s : AgentProfileSnapshot) : string := trim_space (fst (foldl render_fragment ("", "") (Fragments s))).

(** The digest input: the empty slices of a resolved profile are written as
    empty arrays. *)
Definition resolved_profile_to_json (p : AgentProfileSnapshot) : json :=
  JObj ([("id", json_of_str (ps_ID p)); ("profile_id", json_of_str (ps_ProfileID p));
         ("created_at", json_of_time (CreatedAt p)); ("scope", scope_to_json (ps_Scope p)); ("name", json_of_str (Name p))]
        ++ omit_if (is_empty (Description p)) "description" (json_of_str (Description p))
        ++ [("model", model_to_json (ps_Model p)); ("max_steps", json_of_z (ps_MaxSteps p))]
        ++ omit_if (ps_MaxToolCalls p =? 0) "max_tool_calls" (json_of_z (ps_MaxToolCalls p))
        ++ [("capabilities", JArr (json_of_str <$> Capabilities p)); ("fragments", JArr (fragment_to_json <$> Fragments p))]
        ++ omit_if (bool_decide (ps_Metadata p = ∅)) "metadata" (json_of_str_map (ps_Metadata p))).

Definition with_identity (id : string) (at_ : string) (p : AgentProfileSnapshot) : AgentProfileSnapshot :=
  mk_profile id (ps_ProfileID p) at_ (ps_Scope p) (Name p) (Description p) (ps_Model p) (ps_MaxSteps p) (ps_MaxToolCalls p) (Capabilities p) (Fragments p) (ps_Metadata p).

Definition profileDigest (s : AgentProfileSnapshot) : string := sha256_hex (json_text (resolved_profile_to_json (with_identity "" zero_time s))).

Definition enabled_capabilities (st : profileState) : list string := (sorted_entries (filter (λ kv, kv.2 = true) (s_capabilities st))).*1.
Definition sorted_fragments (st : profileState) : list ResolvedPromptFragment := merge_sort fragment_le (map_to_list (s_fragments st)).*2.

Definition snapshot_of (clock : string) (target : ScopePath) (profileID : string) (st : profileState) : AgentProfileSnapshot :=
  mk_profile "" profileID clock target (s_name st) (s_description st) (s_model st) (s_maxSteps st) (s_maxToolCalls st)
    (enabled_capabilities st) (sorted_fragments st) (s_metadata st).

Definition profile_Resolve (clock : string) (r : AgentProfileRegistry) (principal : Principal) (target : ScopePath) (profileID : string) :
    result AgentProfileSnapshot :=
  fail_when negb (IsAncestorOf (p_Scope principal) target) with "principal scope does not own target scope" ;;
  let! state := resolveLocked (resolve_fuel r) r target profileID [] in
  let snapshot := snapshot_of clock target profileID state in
  fail_when MaxProfileCapabilities <? Z.of_nat (length (Capabilities snapshot)) with "agent profile exceeds 256 capabilities" ;;
  fail_when MaxProfileFragments <? Z.of_nat (length (Fragments snapshot)) with "agent profile exceeds 512 prompt fragments" ;;
  fail_when MaxSystemPromptBytes <? str_len (SystemPrompt snapshot) with "agent profile system prompt exceeds 1048576 bytes" ;;
  Ok (with_identity (profileDigest snapshot) clock snapshot).

(** [ListProfiles]: the profiles with a layer visible at the target. *)
Definition ListProfiles (r : AgentProfileRegistry) (target : ScopePath) : result (list string) :=
  fail_when Depth target =? 0 with "target scope is empty" ;;
  Ok (merge_sort String.le (foldl (λ out s, let l := st_val s in
        if IsAncestorOf (l_Scope l) target && negb (bool_decide (l_ProfileID l ∈ out)) then out ++ [l_ProfileID l] else out) [] (pr_flat r))).

Definition FilterCapabilities (clock : string) (p : AgentProfileSnapshot) (snapshot : CapabilitySnapshot) : result CapabilitySnapshot :=
  snap_Filter clock snapshot (Capabilities p).

(** ** Replacement *)

Definition profileOptionalEqual {T} `{EqDecision T} (left right : option T) : bool :=
  match left, right with None, None => true | Some a, Some b => bool_decide (a = b) | _, _ => false end.

Definition profileLayerEqual (left right : AgentProfileLayer) : bool :=
  Equal (l_Scope left) (l_Scope right) && bool_decide (l_ProfileID left = l_ProfileID right) && bool_decide (Extends left = Extends right)
  && profileOptionalEqual (l_Name left) (l_Name right) && profileOptionalEqual (l_Description left) (l_Description right)
  && profileOptionalEqual (l_Model left) (l_Model right) && profileOptionalEqual (l_MaxSteps left) (l_MaxSteps right)
  && profileOptionalEqual (l_MaxToolCalls left) (l_MaxToolCalls right)
  && bool_decide (AddCapabilities left = AddCapabilities right) && bool_decide (RemoveCapabilities left = RemoveCapabilities right)
  && bool_decide (PutFragments left = PutFragments right) && bool_decide (RemoveFragments left = RemoveFragments right)
  && bool_decide (l_Metadata left = l_Metadata right).

(** The indices at which a test holds. *)
Definition matches {A} (p : A → bool) (l : list A) : list nat :=
  omap (λ ix, if p (snd ix) then Some (fst ix) else None) (imap pair l).

Definition zero_principal (scope : ScopePath) : Principal := mk_principal "" "" scope ∅ ∅.

(** The registry with the layers at [i] of [key] and at [j] of the flat list
    replaced. *)
Definition put_layer (key : string) (i j : nat) (s : storedProfileLayer) (r : AgentProfileRegistry) : AgentProfileRegistry :=
  mk_profile_registry (<[key := <[i := s]> (layers_at r key)]> (pr_layers r)) (<[j := s]> (pr_flat r)) (pr_next r) (pr_maxBindings r).

Definition ReplaceExact (clock : string) (old next : AgentProfileLayer) (r : AgentProfileRegistry) : result AgentProfileRegistry :=
  let! _ := validateProfileLayer old in
  let! _ := validateProfileLayer next in
  fail_when negb (bool_decide (l_ProfileID old = l_ProfileID next)) || negb (Equal (l_Scope old) (l_Scope next))
    with "profile replacement requires the same profile id and scope" ;;
  let key := profileLayerKey (l_Scope old) (l_ProfileID old) in
  match matches (λ s, profileLayerEqual (st_val s) old) (layers_at r key) with
  | [] => Err "profile replacement layer was not found"
  | _ :: _ :: _ => Err "profile replacement has multiple matching layers"
  | [i] =>
    match layers_at r key !! i with
    | None => Err "profile replacement layer was not found"
    | Some found =>
      let order := st_order found in
      match matches (λ s, st_order s =? order) (pr_flat r) with
      | [j] =>
        fail_when match pr_flat r !! j with Some s => negb (profileLayerEqual (st_val s) old) | None => true end
          with "profile registry projection is inconsistent" ;;
        let replacement := mk_stored (cloneProfileLayer next) order in
        let! _ := profile_Resolve clock (put_layer key i j replacement (cloneLocked r)) (zero_principal (l_Scope next)) (l_Scope next) (l_ProfileID next) in
        Ok (put_layer key i j replacement r)
      | _ => Err "profile registry projection is inconsistent"
      end
    end
  end.

(** [ProfileLayerRevision]: the digest of the scope and the layer. *)
Definition prompt_to_json (f : PromptFragment) : json :=
  JObj ([("id", json_of_str (f_ID f)); ("section", json_of_str (f_Section f)); ("content", json_of_str (f_Content f))]
        ++ omit_if (f_Priority f =? 0) "priority" (json_of_z (f_Priority f))).
Definition opt_field {A} (k : string) (enc : A → json) (o : option A) : list (string * json) :=
  match o with Some a => [(k, enc a)] | None => [] end.
Definition layer_to_json (l : AgentProfileLayer) : json :=
  JObj ([("profile_id", json_of_str (l_ProfileID l))]
        ++ omit_if (is_empty (Extends l)) "extends" (json_of_str (Extends l))
        ++ opt_field "name" json_of_str (l_Name l) ++ opt_field "description" json_of_str (l_Description l)
        ++ opt_field "model" model_to_json (l_Model l)
        ++ opt_field "max_steps" json_of_z (l_MaxSteps l) ++ opt_field "max_tool_calls" json_of_z (l_MaxToolCalls l)
        ++ omit_if (bool_decide (AddCapabilities l = [])) "add_capabilities" (json_of_strs (AddCapabilities l))
        ++ omit_if (bool_decide (RemoveCapabilities l = [])) "remove_capabilities" (json_of_strs (RemoveCapabilities l))
        ++ omit_if (bool_decide (PutFragments l = [])) "put_fragments" (JArr (prompt_to_json <$> PutFragments l))
        ++ omit_if (bool_decide (RemoveFragments l = [])) "remove_fragments" (json_of_strs (RemoveFragments l))
        ++ omit_if (bool_decide (l_Metadata l = ∅)) "metadata" (json_of_str_map (l_Metadata l))).

Definition canonicalProfileLayer (l : AgentProfileLayer) : json :=
  JObj [("scope", scope_to_json (l_Scope (cloneProfileLayer l))); ("layer", layer_to_json (cloneProfileLayer l))].
Definition ProfileLayerRevision (l : AgentProfileLayer) : result string :=
  fail_when Depth (l_Scope l) =? 0 with "profile layer revision requires a scope" ;;
  Ok (sha256_hex (json_text (canonicalProfileLayer l))).
