(* ===== verification/ProfileClaims.v ===== *)
(** * Theorems on agent profiles

    The registry invariant: the keyed map is exactly the flat list indexed by
    scope and profile, in every state reached by mounts, unmounts and
    replacements.  From it, resolution terminates, rejects inheritance cycles,
    and computes the last word of the linearised layers. *)
From S2P Require Import Prelude GoString Json Scope Registry Principal Policy Sha256 GoTime Payload Capability CapabilityClaims Profile.
From stdpp Require Import gmap strings list sorting.
From Stdlib Require Import ZArith Lia Ascii.
Open Scope Z_scope.

(** ** Reachable registries *)

Definition stored_key (s : storedProfileLayer) : string := profileLayerKey (l_Scope (st_val s)) (l_ProfileID (st_val s)).

Inductive profile_reach : AgentProfileRegistry * list Handle → Prop :=
| profile_init max : profile_reach (mk_profile_registry ∅ [] 0 max, [])
| profile_mount r hs x r' h :
    profile_reach (r, hs) → valid_path (l_Scope x) → profile_Mount x r = Ok (r', h) → pr_next r' < 2 ^ 64 - 1 → profile_reach (r', hs ++ [h])
| profile_unmounted r hs i h r' h' :
    profile_reach (r, hs) → hs !! i = Some h → profile_unmount h r = (r', h') → profile_reach (r', <[i := h']> hs)
| profile_replaced r hs clock old next r' :
    profile_reach (r, hs) → ReplaceExact clock old next r = Ok r' → profile_reach (r', hs).

Definition layer_ok (l : AgentProfileLayer) : Prop := validateProfileLayer l = Ok tt ∧ valid_path (l_Scope l).

(** The map indexes the flat list, which is sorted by mount order. *)
Definition profile_inv (r : AgentProfileRegistry) : Prop :=
  (∀ key, layers_at r key = filter (λ s, stored_key s = key) (pr_flat r))
  ∧ StronglySorted Z.lt (st_order <$> pr_flat r)
  ∧ Forall (λ s, 0 < st_order s ≤ pr_next r ∧ layer_ok (st_val s)) (pr_flat r)
  ∧ 0 ≤ pr_next r < 2 ^ 64 - 1
  ∧ Z.of_nat (length (pr_flat r)) ≤ registryCap (pr_maxBindings r).

(** An unmount function knows the key of the layer it removes. *)
Definition handle_ok (r : AgentProfileRegistry) (h : Handle) : Prop :=
  h_order h ≤ pr_next r ∧ Forall (λ s, st_order s = h_order h → stored_key s = h_key h) (pr_flat r).

Lemma cloneProfileLayer_id l : cloneProfileLayer l = l.
Proof. by destruct l. Qed.

Lemma cloneLocked_id r : cloneLocked r = r.
Proof.
  assert (Hs : ∀ s, clone_stored s = s) by (intros [l o]; unfold clone_stored; cbn; by rewrite cloneProfileLayer_id).
  assert (Hm : ∀ l, map clone_stored l = l) by (induction l as [|s l IH]; cbn; [done|]; by rewrite Hs, IH).
  unfold cloneLocked. destruct r as [m f n x]. cbn. rewrite Hm. f_equal.
  rewrite <- (map_fmap_id m) at 2. by apply map_fmap_ext.
Qed.

Lemma profileLayerEqual_eq l k : profileLayerEqual l k = true ↔ l = k.
Proof.
  assert (Ho : ∀ {T} `{EqDecision T} (a b : option T), profileOptionalEqual a b = true ↔ a = b).
  { intros T HT [a|] [b|]; cbn; try (by split). rewrite bool_decide_eq_true. split; [by intros ->|by intros [=]]. }
  unfold profileLayerEqual. rewrite !andb_true_iff, !bool_decide_eq_true, !Ho, Equal_eq.
  destruct l, k. cbn. split; [intros H; destruct_and!; congruence|]. intros E. injection E as -> -> -> -> -> -> -> -> -> -> -> -> ->. by split_and!.
Qed.

Lemma layers_at_insert m f n x k l k' :
  layers_at (mk_profile_registry (<[k := l]> m) f n x) k' = if decide (k = k') then l else default [] (m !! k').
Proof. unfold layers_at. cbn. rewrite lookup_insert. by case_decide. Qed.

(** ** Unique mount orders *)

Section Orders.
Implicit Types l : list storedProfileLayer.

Lemma remove_first_order l o :
  StronglySorted Z.lt (st_order <$> l) → remove_first (λ s, st_order s =? o) l = filter (λ s, st_order s ≠ o) l.
Proof.
  intros Hs. induction l as [|s l IH]; [done|]. cbn in Hs. inversion Hs as [|?? Hs' Hlt]; subst.
  cbn [remove_first]. rewrite filter_cons. destruct (st_order s =? o) eqn:E; bool_to_prop.
  - rewrite decide_False by (by intros []). symmetry. apply filter_all. rewrite Forall_fmap in Hlt.
    eapply Forall_impl; [exact Hlt|]. cbn. intros; lia.
  - rewrite decide_True by done. f_equal. by apply IH.
Qed.

Lemma sorted_filter_orders l (P : storedProfileLayer → Prop) `{∀ s, Decision (P s)} :
  StronglySorted Z.lt (st_order <$> l) → StronglySorted Z.lt (st_order <$> filter P l).
Proof.
  intros Hs. induction l as [|s l IH]; [done|]. cbn in Hs. inversion Hs as [|?? Hs' Hlt]; subst.
  rewrite filter_cons. case_decide; [|by apply IH]. cbn. constructor; [by apply IH|].
  rewrite Forall_fmap in *. by apply Forall_filter_sub.
Qed.

(** Replacing the element numbered [o] is a map, wherever it is. *)
Definition swap (o : Z) (s' s : storedProfileLayer) : storedProfileLayer := if st_order s =? o then s' else s.

Lemma swap_absent l o s' : Forall (λ s, st_order s ≠ o) l → swap o s' <$> l = l.
Proof.
  induction 1 as [|s l Hs _ IH]; [done|]. cbn. rewrite IH. unfold swap.
  by destruct (st_order s =? o) eqn:E; bool_to_prop.
Qed.

Lemma insert_swap l i s s' :
  StronglySorted Z.lt (st_order <$> l) → l !! i = Some s → <[i := s']> l = swap (st_order s) s' <$> l.
Proof.
  revert i. induction l as [|t l IH]; intros i Hs Hi; [done|]. cbn in Hs. inversion Hs as [|?? Hs' Hlt]; subst.
  rewrite Forall_fmap in Hlt. destruct i as [|i]; cbn in Hi.
  - injection Hi as <-. change (<[0%nat := s']> (t :: l)) with (s' :: l). cbn. rewrite swap_absent; [|eapply Forall_impl; [exact Hlt|]; cbn; lia].
    unfold swap. by rewrite Z.eqb_refl.
  - change (<[S i := s']> (t :: l)) with (t :: <[i := s']> l). rewrite (IH i) by done. cbn. unfold swap at 2. destruct (st_order t =? st_order s) eqn:E; [|done].
    apply list_elem_of_lookup_2 in Hi. rewrite Forall_forall in Hlt. apply Hlt in Hi. cbn in Hi. bool_to_prop. lia.
Qed.

Lemma swap_orders l o s' : st_order s' = o → st_order <$> (swap o s' <$> l) = st_order <$> l.
Proof.
  intros Ho. rewrite <- list_fmap_compose. apply list_fmap_ext. intros i s _. cbn. unfold swap.
  destruct (st_order s =? o) eqn:E; bool_to_prop; congruence.
Qed.

(** Swapping a layer for one of the same key commutes with indexing. *)
Lemma filter_swap l key o s' :
  (∀ s, s ∈ l → st_order s = o → stored_key s = stored_key s') →
  filter (λ s, stored_key s = key) (swap o s' <$> l) = swap o s' <$> filter (λ s, stored_key s = key) l.
Proof.
  intros Hk. induction l as [|s l IH]; [done|]. cbn [fmap list_fmap]. rewrite !filter_cons, IH by (intros; apply Hk; [by right|done]).
  assert (stored_key (swap o s' s) = stored_key s) as ->.
  { unfold swap. destruct (st_order s =? o) eqn:E; bool_to_prop; [|done]. symmetry. apply Hk; [left|done]. }
  by case_decide.
Qed.

Lemma order_inj l s t : StronglySorted Z.lt (st_order <$> l) → s ∈ l → t ∈ l → st_order s = st_order t → s = t.
Proof.
  intros Hs. induction l as [|u l IH]; [by intros ?%elem_of_nil|]. cbn in Hs. inversion Hs as [|?? Hs' Hlt]; subst.
  rewrite Forall_fmap, Forall_forall in Hlt. cbn in Hlt. rewrite !elem_of_cons. intros [->|H1] [->|H2] E; [done| | |by apply IH].
  - apply Hlt in H2. lia.
  - apply Hlt in H1. lia.
Qed.
End Orders.

Lemma matches_elem {A} (p : A → bool) l i : i ∈ matches p l ↔ ∃ x, l !! i = Some x ∧ p x = true.
Proof.
  unfold matches. rewrite list_elem_of_omap. setoid_rewrite list_elem_of_lookup. setoid_rewrite list_lookup_imap. split.
  - intros ([j x] & (k & Hk) & H). cbn in H. destruct (l !! k) eqn:E; cbn in Hk; simplify_eq.
    destruct (p x) eqn:Hp; simplify_eq. by exists x.
  - intros (x & Hi & Hp). exists (i, x). split; [exists i; by rewrite Hi|]. cbn. by rewrite Hp.
Qed.

Lemma matches_nodup {A} (p : A → bool) l : NoDup (matches p l).
Proof.
  apply NoDup_alt. unfold matches.
  assert (H : ∀ (l : list A) o, StronglySorted Nat.lt (omap (λ ix, if p (snd ix) then Some (fst ix) else None) (imap (λ i x, (o + i, x)%nat) l))
      ∧ Forall (λ i, o ≤ i)%nat (omap (λ ix, if p (snd ix) then Some (fst ix) else None) (imap (λ i x, (o + i, x)%nat) l))).
  { clear. induction l as [|x l IH]; intros o; cbn; [split; constructor|].
    destruct (IH (S o)) as [H1 H2]. rewrite (imap_ext _ (λ i x, (S o + i, x)%nat)) by (intros; cbn; f_equal; lia).
    rewrite Nat.add_0_r. destruct (p x); cbn.
    - split; [constructor; [exact H1|]|constructor; [lia|]]; (eapply Forall_impl; [exact H2|]; cbn; lia).
    - split; [exact H1|]. eapply Forall_impl; [exact H2|]. cbn. lia. }
  destruct (H l 0%nat) as [Hs _]. cbn in Hs.
  assert (Hnd : ∀ k : list nat, StronglySorted Nat.lt k → NoDup k).
  { clear. induction 1 as [|a k _ IH Hall]; constructor; [|done]. intros Hin. rewrite Forall_forall in Hall. apply Hall in Hin. lia. }
  apply Hnd in Hs. by apply NoDup_alt.
Qed.

(** ** The invariant is preserved *)

Lemma mount_inv x r r' h hs :
  profile_inv r → Forall (handle_ok r) hs → valid_path (l_Scope x) → profile_Mount x r = Ok (r', h) → pr_next r' < 2 ^ 64 - 1 →
  profile_inv r' ∧ Forall (handle_ok r') (hs ++ [h]).
Proof.
  intros (Hix & Hs & Hf & Hn & Hc) Hh Hv Hm Hn'. unfold profile_Mount in Hm.
  apply rbind_ok in Hm as ([] & Hval & Hm). apply fail_if_ok in Hm as [Hcap Hm]. bool_to_prop.
  injection Hm as <- <-. cbn [pr_next] in Hn'. rewrite cloneProfileLayer_id in *.
  assert (Hu : uint64 (pr_next r + 1) = pr_next r + 1) by (unfold uint64; apply Z.mod_small; lia). rewrite Hu in *.
  set (s := mk_stored x (pr_next r + 1)). split.
  - split_and!; cbn [pr_flat pr_next pr_maxBindings].
    + intros key. rewrite layers_at_insert, Hix, filter_app, filter_cons. fold (layers_at r key). rewrite Hix.
      destruct (decide (profileLayerKey (l_Scope x) (l_ProfileID x) = key)) as [<-|Hk].
      * by rewrite decide_True.
      * rewrite decide_False by done. by rewrite app_nil_r.
    + rewrite fmap_app. apply StronglySorted_app_2; [|done|repeat constructor].
      intros a b Ha Hb. cbn in Hb. apply list_elem_of_singleton in Hb as ->.
      apply list_elem_of_fmap in Ha as (t & -> & Ht). rewrite Forall_forall in Hf. apply Hf in Ht. lia.
    + apply Forall_app. split; [eapply Forall_impl; [exact Hf|]; cbn; intros t [? ?]; split; [lia|done]|].
      apply Forall_singleton. cbn. split; [lia|done].
    + lia.
    + lia.
    + rewrite length_app. cbn. lia.
  - apply Forall_app. split.
    + eapply Forall_impl; [exact Hh|]. intros h [Ho Hk]. split; cbn [pr_next pr_flat]; [lia|].
      apply Forall_app. split; [done|]. apply Forall_singleton. cbn. lia.
    + apply Forall_singleton. split; cbn [h_order h_key pr_next pr_flat]; [lia|]. apply Forall_app. split.
      * eapply Forall_impl; [exact Hf|]. cbn. intros t [? _] ?. lia.
      * by apply Forall_singleton.
Qed.

Lemma filter_idle (P : storedProfileLayer → Prop) `{∀ s, Decision (P s)} (l : list storedProfileLayer) :
  (∀ s, s ∈ l → P s) → filter P l = l.
Proof. intros H'. apply filter_all, Forall_forall, H'. Qed.

Lemma filter_comm (P Q : storedProfileLayer → Prop) `{∀ s, Decision (P s)} `{∀ s, Decision (Q s)} (l : list storedProfileLayer) :
  filter P (filter Q l) = filter Q (filter P l).
Proof.
  induction l as [|s l IH]; [done|]. rewrite !filter_cons.
  destruct (decide (P s)), (decide (Q s)); rewrite ?filter_cons, ?decide_True, ?decide_False by done; congruence.
Qed.

Lemma unmount_inv h r r' h' :
  profile_inv r → handle_ok r h → profile_unmount h r = (r', h') →
  profile_inv r' ∧ pr_next r' = pr_next r ∧ h_key h' = h_key h ∧ h_order h' = h_order h ∧ pr_flat r' ⊆ pr_flat r.
Proof.
  intros (Hix & Hs & Hf & Hn & Hc) [Ho Hk] Hu. unfold profile_unmount in Hu.
  destruct (h_done h); injection Hu as <- <-; [done|]. cbn [pr_next pr_flat h_key h_order].
  rewrite (remove_first_order (pr_flat r)) by done. split; [|split_and!; try done; intros s; rewrite list_elem_of_filter; tauto].
  split_and!; cbn [pr_flat pr_next pr_maxBindings]; try lia.
  - intros key. rewrite layers_at_insert, remove_first_order by (rewrite Hix; by apply sorted_filter_orders).
    rewrite filter_comm, <- Hix. case_decide as E; [by subst|]. fold (layers_at r key). symmetry. apply filter_idle.
    intros s Hin Heq. rewrite Hix, list_elem_of_filter in Hin. destruct Hin as [Hkey Hin].
    rewrite Forall_forall in Hk. apply Hk in Hin; [|done]. congruence.
  - by apply sorted_filter_orders.
  - by apply Forall_filter_sub.
  - pose proof (length_filter (λ s, st_order s ≠ h_order h) (pr_flat r)). lia.
Qed.

(** What a replacement finds and does. *)
Lemma replace_ok clock old next r r' :
  profile_inv r → ReplaceExact clock old next r = Ok r' →
  ∃ j o, pr_flat r !! j = Some (mk_stored old o)
  ∧ pr_flat r' = swap o (mk_stored next o) <$> pr_flat r ∧ pr_next r' = pr_next r ∧ pr_maxBindings r' = pr_maxBindings r
  ∧ l_ProfileID old = l_ProfileID next ∧ l_Scope old = l_Scope next ∧ validateProfileLayer next = Ok tt
  ∧ (∀ key, layers_at r' key = swap o (mk_stored next o) <$> layers_at r key)
  ∧ is_ok (profile_Resolve clock r' (zero_principal (l_Scope next)) (l_Scope next) (l_ProfileID next)) = true.
Proof.
  intros (Hix & Hs & Hf & _) H. unfold ReplaceExact in H.
  apply rbind_ok in H as ([] & _ & H). apply rbind_ok in H as ([] & Hval & H). apply fail_if_ok in H as [Hsame H].
  bool_to_prop. apply Equal_eq in H1.
  set (key := profileLayerKey (l_Scope old) (l_ProfileID old)) in *.
  destruct (matches _ (layers_at r key)) as [|i [|]] eqn:Hmi; [done| |done].
  destruct (layers_at r key !! i) as [found|] eqn:Hi; [|done].
  destruct (matches (λ s, st_order s =? st_order found) (pr_flat r)) as [|j [|]] eqn:Hmj; [done| |done].
  apply fail_if_ok in H as [Hcons H]. rewrite cloneLocked_id, cloneProfileLayer_id in H.
  apply rbind_ok in H as (snap & Hres & H). injection H as <-.
  assert (Hj : j ∈ matches (λ s, st_order s =? st_order found) (pr_flat r)) by (rewrite Hmj; left).
  apply matches_elem in Hj as (t & Hj & Ht). bool_to_prop. rewrite Hj in Hcons. apply negb_false_iff, profileLayerEqual_eq in Hcons.
  assert (Hin : found ∈ layers_at r key) by (by eapply list_elem_of_lookup_2).
  rewrite Hix, list_elem_of_filter in Hin. destruct Hin as [Hkey Hin].
  assert (t = found) as -> by (eapply order_inj; [exact Hs|by eapply list_elem_of_lookup_2|done|done]).
  destruct found as [l o]. cbn in *. subst l. exists j, o.
  assert (Hflat : <[j := mk_stored next o]> (pr_flat r) = swap o (mk_stored next o) <$> pr_flat r).
  { apply (insert_swap (pr_flat r) j (mk_stored old o)); done. }
  split_and!; try done. 2: by rewrite Hres.
  intros k. unfold put_layer. rewrite layers_at_insert. fold (layers_at r k). case_decide as E.
  - subst k. apply (insert_swap (layers_at r key) i (mk_stored old o)); [|done]. rewrite Hix. by apply sorted_filter_orders.
  - symmetry. apply swap_absent, Forall_forall. intros u Hu Heq. rewrite Hix, list_elem_of_filter in Hu. destruct Hu as [Hku Hu].
    assert (u = mk_stored old o) as -> by (eapply order_inj; [exact Hs|done|done|done]). done.
Qed.

Lemma replace_inv clock old next r r' hs :
  profile_inv r → Forall (handle_ok r) hs → ReplaceExact clock old next r = Ok r' → profile_inv r' ∧ Forall (handle_ok r') hs.
Proof.
  intros Hinv Hh H. pose proof Hinv as (Hix & Hs & Hf & Hn & Hc).
  apply replace_ok in H as (j & o & Hj & Hflat & Hnext & Hmax & Hid & Hsc & Hval & Hat & _); [|done].
  assert (Hkey : ∀ s, s ∈ pr_flat r → st_order s = o → stored_key s = stored_key (mk_stored next o)).
  { intros s Hin Ho. assert (s = mk_stored old o) as -> by (eapply order_inj; [exact Hs|done|by eapply list_elem_of_lookup_2|done]).
    unfold stored_key. cbn. by rewrite Hid, Hsc. }
  assert (Hok : ∀ P : storedProfileLayer → Prop, P (mk_stored next o) → Forall P (pr_flat r) → Forall P (pr_flat r')).
  { intros P Hp HP. rewrite Hflat, Forall_fmap. eapply Forall_impl; [exact HP|]. intros s Hps. cbn. unfold swap. by destruct (st_order s =? o). }
  assert (Hold : 0 < o ≤ pr_next r ∧ layer_ok old).
  { rewrite Forall_forall in Hf. apply list_elem_of_lookup_2, Hf in Hj. done. }
  split.
  - split_and!.
    + intros key. by rewrite Hat, Hflat, filter_swap, Hix.
    + by rewrite Hflat, swap_orders.
    + apply Hok; [|rewrite Hnext; done]. cbn. rewrite Hnext. split; [tauto|]. split; [done|]. rewrite <- Hsc. apply Hold.
    + rewrite Hnext. lia.
    + rewrite Hnext. lia.
    + rewrite Hflat, length_fmap, Hmax. done.
  - eapply Forall_impl; [exact Hh|]. intros h [Ho Hk]. split; [by rewrite Hnext|]. apply Hok; [|done].
    cbn. intros Heq. rewrite Forall_forall in Hk. pose proof Hj as Hin%list_elem_of_lookup_2.
    rewrite <- (Hkey _ Hin eq_refl). by apply Hk.
Qed.

Lemma profile_reach_inv s : profile_reach s → profile_inv s.1 ∧ Forall (handle_ok s.1) s.2.
Proof.
  induction 1 as [max|r hs x r' h _ [IHi IHh] Hv Hm Hn|r hs i h r' h' _ [IHi IHh] Hi Hu|r hs clock old next r' _ [IHi IHh] Hr]; cbn in *.
  - split; [|constructor]. split_and!; cbn; try lia; [|constructor|constructor|].
    + intros key. unfold layers_at. cbn. by rewrite lookup_empty.
    + unfold registryCap, MaxRegistryBindings. destruct (0 <? max) eqn:E; bool_to_prop; lia.
  - by eapply mount_inv.
  - assert (Hok : handle_ok r h) by (rewrite Forall_forall in IHh; eapply IHh, list_elem_of_lookup_2, Hi).
    eapply unmount_inv in Hu as (Hinv & Hnext & Hk & Ho & Hsub); [|done..]. split; [done|].
    assert (Hmono : ∀ g, handle_ok r g → handle_ok r' g).
    { intros g [Hg Hgk]. split; [by rewrite Hnext|]. rewrite Forall_forall in *. eauto. }
    apply Forall_insert; [eapply Forall_impl; [exact IHh|exact Hmono]|].
    destruct (Hmono h Hok) as [H1 H2]. split; [by rewrite Ho|]. rewrite Ho, Hk. exact H2.
  - by eapply replace_inv.
Qed.

(** ** The layers of a profile *)

Lemma profileLayerKey_inj p q id id' :
  valid_path p → valid_path q → profileLayerKey p id = profileLayerKey q id' → p = q ∧ id = id'.
Proof.
  intros Hp Hq E. apply (f_equal bytes) in E. unfold profileLayerKey in E. rewrite !bytes_app in E. cbn in E.
  apply app_sep_inj in E as [E1 E2]; [|by apply path_string_free_nul..].
  apply bytes_inj in E1. apply bytes_inj in E2. split; [by apply path_string_injective|done].
Qed.

Lemma merge_sort_orders (l : list storedProfileLayer) : StronglySorted Z.lt (st_order <$> l) → merge_sort order_le l = l.
Proof.
  intros Hs. apply (StronglySorted_unique_strong order_le).
  - intros a b Ha Hb Hab Hba. unfold order_le in *. rewrite merge_sort_Permutation in Ha.
    eapply order_inj; [exact Hs|done|done|lia].
  - apply (StronglySorted_merge_sort _).
  - clear -Hs. induction l as [|s l IH]; [constructor|]. cbn in Hs. inversion Hs as [|?? Hs' Hlt]; subst.
    constructor; [by apply IH|]. rewrite Forall_fmap in Hlt. eapply Forall_impl; [exact Hlt|]. unfold order_le. cbn. lia.
  - apply merge_sort_Permutation.
Qed.

(** The layers of a profile are the mounted layers of that id at an ancestor of
    the target. *)
Lemma layersFor_spec r target id s :
  profile_inv r → valid_path target →
  s ∈ layersForLocked r target id ↔ s ∈ pr_flat r ∧ l_ProfileID (st_val s) = id ∧ IsAncestorOf (l_Scope (st_val s)) target = true.
Proof.
  intros (Hix & Hs & Hf & _) Ht. unfold layersForLocked. rewrite list_elem_of_join. setoid_rewrite list_elem_of_fmap. split.
  - intros (l & Hin & p & -> & Hp). rewrite merge_sort_orders in Hin by (rewrite Hix; by apply sorted_filter_orders).
    rewrite Hix, list_elem_of_filter in Hin. destruct Hin as [Hk Hin].
    rewrite Forall_forall in Hf. destruct (Hf s Hin) as (_ & _ & Hv).
    apply profileLayerKey_inj in Hk as [Hsc Hid]; [|done|by eapply valid_path_prefix]. subst p.
    apply Prefixes_spec in Hp as [_ Ha]. done.
  - intros (Hin & Hid & Ha). rewrite Forall_forall in Hf. destruct (Hf s Hin) as (_ & _ & Hv).
    exists (merge_sort order_le (layers_at r (profileLayerKey (l_Scope (st_val s)) id))). split.
    + rewrite merge_sort_Permutation, Hix, list_elem_of_filter. split; [|done]. unfold stored_key. by rewrite Hid.
    + exists (l_Scope (st_val s)). split; [done|]. apply Prefixes_spec. split; [apply Hv|done].
Qed.

(** ** Termination *)

Lemma rfold_never {A S} (f : S → A → result S) (e : string) l s : (∀ s x, f s x ≠ Err e) → rfold f s l ≠ Err e.
Proof.
  intros Hf. revert s. induction l as [|x l IH]; intros s; cbn; [done|]. destruct (f s x) eqn:E; cbn; [apply IH|].
  intros H. apply (Hf s x). by rewrite E.
Qed.

Lemma parent_of_fuel l : parent_of l ≠ Err out_of_fuel.
Proof. apply rfold_never. intros s x. cbv zeta. destruct (is_empty (Extends _)); [discriminate|]. unfold fail_if. destruct (_ && _); discriminate. Qed.

Lemma layers_fuel st l : rfold apply_profile_layer st l ≠ Err out_of_fuel.
Proof. apply rfold_never. intros s x. unfold apply_profile_layer, fail_if. cbv zeta. do 2 (destruct (cap_out_of_range _ _); try discriminate). Qed.

Lemma finish_fuel id st : finish_state id st ≠ Err out_of_fuel.
Proof.
  unfold finish_state, validateModelSelection, fail_if. intros H.
  destruct (is_empty (s_name st)); cbn in H; repeat (destruct_match_in H; try discriminate H).
Qed.

(** Only the recursive call can run out of fuel. *)
Lemma resolve_unfold fuel r target id visiting :
  resolveLocked (S fuel) r target id visiting = Err out_of_fuel →
  id ∉ visiting ∧ layersForLocked r target id ≠ [] ∧ ∃ parent, parent_of (layersForLocked r target id) = Ok parent
    ∧ is_empty parent = false ∧ resolveLocked fuel r target parent (id :: visiting) = Err out_of_fuel.
Proof.
  cbn [resolveLocked]. unfold fail_if. case_bool_decide as Hv; [done|].
  destruct (layersForLocked r target id) as [|s l] eqn:El; [done|]. rewrite <- El in *.
  destruct (parent_of _) as [parent|] eqn:Hp; cbn [rbind]; [|intros [=->]; by apply parent_of_fuel in Hp].
  assert (Hrest : ∀ c, (let! state := c in let! state0 := rfold apply_profile_layer state (layersForLocked r target id) in finish_state id state0)
      = Err out_of_fuel → c = Err out_of_fuel).
  { intros [st|e]; cbn; [|done]. destruct (rfold _ _ _) as [st'|e] eqn:E; cbn.
    - intros H. by apply finish_fuel in H.
    - intros [=->]. by apply layers_fuel in E. }
  intros H. apply Hrest in H. destruct (is_empty parent) eqn:Hemp; [done|].
  split; [done|]. split; [by rewrite El|]. exists parent. split; [done|]. split; [done|].
  destruct (resolveLocked fuel r target parent (id :: visiting)); cbn in H; congruence.
Qed.

Lemma resolve_terminates r target fuel id visiting :
  profile_inv r → valid_path target → NoDup visiting → visiting ⊆ (l_ProfileID ∘ st_val <$> pr_flat r) →
  (length (pr_flat r) < fuel + length visiting)%nat → resolveLocked fuel r target id visiting ≠ Err out_of_fuel.
Proof.
  intros Hi Ht. revert id visiting. induction fuel as [|fuel IH]; intros id visiting Hnd Hsub Hlen H.
  - assert (length visiting ≤ length (pr_flat r))%nat; [|lia].
    rewrite <- (length_fmap (l_ProfileID ∘ st_val) (pr_flat r)). by apply submseteq_length, NoDup_submseteq.
  - apply resolve_unfold in H as (Hv & Hl & parent & _ & _ & H). revert H. apply IH.
    + by constructor.
    + intros x [->|Hx]%elem_of_cons; [|by apply Hsub].
      destruct (layersForLocked r target id) as [|s l] eqn:El; [done|].
      assert (Hs : s ∈ layersForLocked r target id) by (rewrite El; left).
      apply layersFor_spec in Hs as (Hs & Hid & _); [|done..]. apply list_elem_of_fmap. exists s. done.
    + cbn. lia.
Qed.

(** One level of [resolveLocked], given the level above. *)
Definition resolve_level (r : AgentProfileRegistry) (target : ScopePath) (profileID : string) (visiting : list string)
    (above : string → result profileState) : result profileState :=
  fail_when bool_decide (profileID ∈ visiting) with "agent profile inheritance cycle" ;;
  let layers := layersForLocked r target profileID in
  fail_when match layers with [] => true | _ => false end with "agent profile was not found for scope" ;;
  let! extends := parent_of layers in
  let! state := if is_empty extends then Ok (initial_state profileID)
                else let! parent := above extends in Ok (with_id profileID parent) in
  let! state := rfold apply_profile_layer state layers in
  finish_state profileID state.

Lemma resolveLocked_S fuel r target id visiting :
  resolveLocked (S fuel) r target id visiting = resolve_level r target id visiting (λ p, resolveLocked fuel r target p (id :: visiting)).
Proof. reflexivity. Qed.

Lemma resolve_more_fuel r target fuel id visiting :
  resolveLocked fuel r target id visiting ≠ Err out_of_fuel →
  resolveLocked (S fuel) r target id visiting = resolveLocked fuel r target id visiting.
Proof.
  revert id visiting. induction fuel as [|fuel IH]; intros id visiting H; [by destruct H|].
  rewrite (resolveLocked_S (S fuel)), (resolveLocked_S fuel). rewrite resolveLocked_S in H.
  unfold resolve_level, fail_if in *. destruct (bool_decide _); [done|]. cbv zeta in *.
  destruct (match layersForLocked r target id with [] => true | _ => false end); [done|].
  destruct (parent_of _) as [parent|]; cbn [rbind] in *; [|done]. destruct (is_empty parent); [done|].
  rewrite IH; [done|]. intros E. rewrite E in H. by apply H.
Qed.

Lemma resolve_enough_fuel r target fuel fuel' id visiting :
  (fuel ≤ fuel')%nat → resolveLocked fuel r target id visiting ≠ Err out_of_fuel →
  resolveLocked fuel' r target id visiting = resolveLocked fuel r target id visiting.
Proof.
  induction 1 as [|fuel' Hle IH]; intros H; [done|]. rewrite resolve_more_fuel; [by apply IH|]. by rewrite IH.
Qed.

(** ** Linearisation *)

(** The chain of profiles from the one asked for to the root of its
    inheritance. *)
Inductive lineage (r : AgentProfileRegistry) (target : ScopePath) : string → list string → Prop :=
| lineage_root id :
    layersForLocked r target id ≠ [] → parent_of (layersForLocked r target id) = Ok "" → lineage r target id [id]
| lineage_child id p chain :
    layersForLocked r target id ≠ [] → parent_of (layersForLocked r target id) = Ok p → p ≠ "" →
    lineage r target p chain → lineage r target id (id :: chain).

(** The layers in the order they apply: the root profile first, and within a
    profile from the outermost scope. *)
Definition linear (r : AgentProfileRegistry) (target : ScopePath) (chain : list string) : list AgentProfileLayer :=
  st_val <$> mjoin (layersForLocked r target <$> reverse chain).

Lemma linear_cons r target id chain :
  linear r target (id :: chain) = linear r target chain ++ (st_val <$> layersForLocked r target id).
Proof.
  unfold linear. rewrite reverse_cons, fmap_app, join_app, fmap_app. cbn. by rewrite app_nil_r.
Qed.

(** A field of the state whose value is a fold of its own over the layers. *)
Record tracks {F} (g : profileState → F) (step : F → AgentProfileLayer → F) : Prop := {
  tr_apply st s st' : apply_profile_layer st s = Ok st' → g st' = step (g st) (st_val s);
  tr_id id st : g (with_id id st) = g st;
  tr_finish id st st' : finish_state id st = Ok st' → g st' = g st;
  tr_initial id : g (initial_state id) = g (initial_state "") }.

Lemma tracks_fold {F} (g : profileState → F) step layers st st' :
  tracks g step → rfold apply_profile_layer st layers = Ok st' → g st' = foldl step (g st) (st_val <$> layers).
Proof.
  intros Hg. revert st. induction layers as [|s layers IH]; intros st H; cbn in H; [by injection H as ->|].
  apply rbind_ok in H as (st1 & H1 & H2). cbn. rewrite <- (tr_apply _ _ Hg _ _ _ H1). by apply IH.
Qed.

Definition caps_in_range (l : AgentProfileLayer) : Prop :=
  cap_out_of_range (l_MaxSteps l) HardMaxSteps = false ∧ cap_out_of_range (l_MaxToolCalls l) HardMaxToolCalls = false.

Lemma rfold_in_range layers st st' :
  rfold apply_profile_layer st layers = Ok st' → Forall caps_in_range (st_val <$> layers).
Proof.
  revert st. induction layers as [|s layers IH]; intros st H; cbn in H; [constructor|].
  apply rbind_ok in H as (st1 & H1 & H2). cbn. constructor; [|by eapply IH].
  unfold apply_profile_layer in H1. rewrite !fail_if_ok in H1. by destruct H1 as (? & ? & _).
Qed.

Lemma resolve_level_ok r target id visiting above st :
  resolve_level r target id visiting above = Ok st →
  id ∉ visiting ∧ layersForLocked r target id ≠ [] ∧ ∃ parent base last,
    parent_of (layersForLocked r target id) = Ok parent
    ∧ (if is_empty parent then base = initial_state id else ∃ up, above parent = Ok up ∧ base = with_id id up)
    ∧ rfold apply_profile_layer base (layersForLocked r target id) = Ok last ∧ finish_state id last = Ok st.
Proof.
  unfold resolve_level. intros H. apply fail_if_ok in H as [Hv H]. cbv zeta in H. apply fail_if_ok in H as [Hl H].
  apply rbind_ok in H as (parent & Hp & H). apply rbind_ok in H as (base & Hb & H). apply rbind_ok in H as (last & Hf & H).
  split; [by bool_to_prop|]. split; [by destruct (layersForLocked r target id)|]. exists parent, base, last.
  split_and!; [done| |done|done]. destruct (is_empty parent); [by injection Hb as ->|].
  apply rbind_ok in Hb as (up & Hu & [=<-]). by exists up.
Qed.

Lemma is_empty_spec s : is_empty s = true ↔ s = "".
Proof. unfold is_empty. by rewrite bool_decide_eq_true. Qed.

Lemma resolve_linear fuel r target id visiting st :
  resolveLocked fuel r target id visiting = Ok st →
  ∃ chain, lineage r target id chain ∧ NoDup chain ∧ (∀ x, x ∈ chain → x ∉ visiting)
  ∧ Forall caps_in_range (linear r target chain)
  ∧ ∀ F (g : profileState → F) step, tracks g step → g st = foldl step (g (initial_state "")) (linear r target chain).
Proof.
  revert id visiting st. induction fuel as [|fuel IH]; intros id visiting st H; [done|].
  rewrite resolveLocked_S in H. apply resolve_level_ok in H as (Hv & Hl & parent & base & last & Hp & Hb & Hf & Hfin).
  destruct (is_empty parent) eqn:Hemp.
  - apply is_empty_spec in Hemp as ->. subst base. exists [id]. split; [by constructor|].
    split; [apply NoDup_singleton|]. split; [by intros x ->%list_elem_of_singleton|].
    rewrite linear_cons. change (linear r target []) with (@nil AgentProfileLayer). cbn [app].
    split; [by eapply rfold_in_range|]. intros F g step Hg.
    rewrite (tr_finish _ _ Hg _ _ _ Hfin), (tracks_fold _ _ _ _ _ Hg Hf), (tr_initial _ _ Hg). done.
  - destruct Hb as (up & Hup & ->). apply IH in Hup as (chain & Hlin & Hnd & Hnv & Hcap & Hg').
    assert (Hid : id ∉ chain). { intros Hin. apply Hnv in Hin. apply Hin. left. }
    exists (id :: chain). split.
    { apply (lineage_child _ _ id parent chain); try done. intros ->. by rewrite (proj2 (is_empty_spec "") eq_refl) in Hemp. }
    split; [by constructor|]. split.
    { intros x [->|Hx]%elem_of_cons; [done|]. intros Hin. apply Hnv in Hx. apply Hx. by right. }
    rewrite linear_cons. split; [apply Forall_app; split; [done|by eapply rfold_in_range]|].
    intros F g step Hg. rewrite foldl_app, <- (Hg' F g step Hg).
    by rewrite (tr_finish _ _ Hg _ _ _ Hfin), (tracks_fold _ _ _ _ _ Hg Hf), (tr_id _ _ Hg).
Qed.

(** ** What the folds compute *)

Definition step_capabilities (m : gmap string bool) (l : AgentProfileLayer) : gmap string bool :=
  foldl (λ m id, delete id m) (foldl (λ m id, <[id := true]> m) m (AddCapabilities l)) (RemoveCapabilities l).
Definition step_fragments (m : gmap string ResolvedPromptFragment) (l : AgentProfileLayer) : gmap string ResolvedPromptFragment :=
  foldl (λ m f, <[f_ID f := resolved_fragment (l_Scope l) f]> m) (foldl (λ m id, delete id m) m (RemoveFragments l)) (PutFragments l).

Ltac solve_tracks :=
  split; [intros st s st' H; unfold apply_profile_layer in H; rewrite !fail_if_ok in H; destruct H as (_ & _ & [=<-]); reflexivity
         |reflexivity
         |intros id st st' H; unfold finish_state in H; apply rbind_ok in H as (_ & _ & [=<-]); by destruct (is_empty (s_name st))
         |reflexivity].

Lemma tracks_capabilities : tracks s_capabilities step_capabilities.
Proof. solve_tracks. Qed.
Lemma tracks_fragments : tracks s_fragments step_fragments.
Proof. solve_tracks. Qed.
Lemma tracks_maxSteps : tracks s_maxSteps (λ n l, default n (l_MaxSteps l)).
Proof. solve_tracks. Qed.
Lemma tracks_maxToolCalls : tracks s_maxToolCalls (λ n l, default n (l_MaxToolCalls l)).
Proof. solve_tracks. Qed.
Lemma tracks_model : tracks s_model (λ m l, default m (l_Model l)).
Proof. solve_tracks. Qed.

Lemma foldl_last_default {A} (f : AgentProfileLayer → option A) d ls :
  foldl (λ x l, default x (f l)) d ls = default d (last (omap f ls)).
Proof.
  induction ls as [|l ls IH] using rev_ind; [done|]. rewrite foldl_snoc, omap_app. cbn.
  destruct (f l) as [x|]; cbn; [by rewrite last_snoc|]. by rewrite app_nil_r.
Qed.

(** Added by a layer, and removed neither by it nor by a later one. *)
Definition selected (ls : list AgentProfileLayer) (c : string) : Prop :=
  ∃ pre l post, ls = pre ++ l :: post ∧ c ∈ AddCapabilities l ∧ c ∉ RemoveCapabilities l ∧ Forall (λ l', c ∉ RemoveCapabilities l') post.

(** Put last, and neither removed nor put again by a later layer. *)
Definition supplied (ls : list AgentProfileLayer) (f : ResolvedPromptFragment) : Prop :=
  ∃ pre l post before p after, ls = pre ++ l :: post ∧ PutFragments l = before ++ p :: after
  ∧ f = resolved_fragment (l_Scope l) p ∧ Forall (λ q, f_ID q ≠ f_ID p) after
  ∧ Forall (λ l', f_ID p ∉ RemoveFragments l' ∧ Forall (λ q, f_ID q ≠ f_ID p) (PutFragments l')) post.

Lemma lookup_delete_all {V} (m : gmap string V) l c : foldl (λ m id, delete id m) m l !! c = if decide (c ∈ l) then None else m !! c.
Proof.
  revert m. induction l as [|x l IH]; intros m; cbn [foldl]; [by rewrite decide_False by apply not_elem_of_nil|].
  rewrite IH. destruct (decide (c ∈ l)); [by rewrite decide_True by by right|].
  destruct (decide (x = c)) as [->|Hne].
  - rewrite lookup_delete_eq, decide_True by left. done.
  - rewrite lookup_delete_ne, decide_False by (by rewrite ?elem_of_cons; naive_solver). done.
Qed.

Lemma lookup_add_all (m : gmap string bool) l c : foldl (λ m id, <[id := true]> m) m l !! c = if decide (c ∈ l) then Some true else m !! c.
Proof.
  revert m. induction l as [|x l IH]; intros m; cbn [foldl]; [by rewrite decide_False by apply not_elem_of_nil|].
  rewrite IH. destruct (decide (c ∈ l)); [by rewrite decide_True by by right|].
  destruct (decide (x = c)) as [->|Hne].
  - rewrite lookup_insert_eq, decide_True by left. done.
  - rewrite lookup_insert_ne, decide_False by (by rewrite ?elem_of_cons; naive_solver). done.
Qed.

Lemma snoc_split {A} (ls : list A) l pre x post :
  ls ++ [l] = pre ++ x :: post → (post = [] ∧ x = l ∧ pre = ls) ∨ ∃ post', post = post' ++ [l] ∧ ls = pre ++ x :: post'.
Proof.
  destruct post as [|y post _] using rev_ind; intros H.
  - apply app_inj_tail in H as [-> ->]. by left.
  - right. rewrite app_comm_cons, app_assoc in H. apply app_inj_tail in H as [-> ->]. by exists post.
Qed.

Lemma selected_snoc ls l c :
  selected (ls ++ [l]) c ↔ c ∉ RemoveCapabilities l ∧ (c ∈ AddCapabilities l ∨ selected ls c).
Proof.
  split.
  - intros (pre & x & post & Hls & Ha & Hr & Hp). apply snoc_split in Hls as [(-> & -> & ->)|(post' & -> & ->)]; [tauto|].
    apply Forall_app in Hp as [Hp Hl]. rewrite Forall_singleton in Hl. split; [done|]. right. by exists pre, x, post'.
  - intros [Hr [Ha|(pre & x & post & -> & Ha & Hr' & Hp)]].
    + exists ls, l, []. by split_and!.
    + exists pre, x, (post ++ [l]). split; [by rewrite <- app_assoc|]. split_and!; [done..|]. apply Forall_app. split; [done|]. by apply Forall_singleton.
Qed.

Lemma capabilities_spec ls c : foldl step_capabilities ∅ ls !! c = Some true ↔ selected ls c.
Proof.
  induction ls as [|l ls IH] using rev_ind.
  - split; [done|]. intros (pre & l & post & H & _). by apply app_cons_not_nil in H.
  - rewrite foldl_snoc, selected_snoc, <- IH. unfold step_capabilities at 1. rewrite lookup_delete_all, lookup_add_all.
    destruct (decide (c ∈ RemoveCapabilities l)); [naive_solver|]. destruct (decide (c ∈ AddCapabilities l)); naive_solver.
Qed.

(** The last fragment put under an id. *)
Definition last_put (ps : list PromptFragment) (p : PromptFragment) : Prop :=
  ∃ before after, ps = before ++ p :: after ∧ Forall (λ q, f_ID q ≠ f_ID p) after.

Lemma last_put_snoc ps q p : last_put (ps ++ [q]) p ↔ p = q ∨ (last_put ps p ∧ f_ID q ≠ f_ID p).
Proof.
  split.
  - intros (before & after & Hps & Ha). apply snoc_split in Hps as [(_ & -> & _)|(after' & -> & ->)]; [by left|].
    apply Forall_app in Ha as [Ha Hq]. rewrite Forall_singleton in Hq. right. split; [|done]. by exists before, after'.
  - intros [->|[(before & after & -> & Ha) Hq]]; [by exists ps, []|].
    exists before, (after ++ [q]). split; [by rewrite <- app_assoc|]. apply Forall_app. split; [done|]. by apply Forall_singleton.
Qed.

Lemma lookup_put_all scope (m : gmap string ResolvedPromptFragment) ps k f :
  foldl (λ m f, <[f_ID f := resolved_fragment scope f]> m) m ps !! k = Some f
  ↔ (∃ p, last_put ps p ∧ f_ID p = k ∧ f = resolved_fragment scope p) ∨ (m !! k = Some f ∧ Forall (λ q, f_ID q ≠ k) ps).
Proof.
  induction ps as [|q ps IH] using rev_ind.
  - split; [intros H; right; split; [done|constructor]|]. intros [(p & (b & a & H & _) & _)|[? _]]; [|done]. by apply app_cons_not_nil in H.
  - rewrite foldl_snoc, Forall_app, Forall_singleton. setoid_rewrite last_put_snoc. destruct (decide (f_ID q = k)) as [Hk|Hk].
    + rewrite Hk, lookup_insert_eq. split.
      * intros [=<-]. left. exists q. split_and!; [by left|done|done].
      * intros [(p & [->|[_ Hne]] & Hp & ->)|(_ & _ & Hne)]; [done|congruence|done].
    + rewrite lookup_insert_ne by done. rewrite IH. split.
      * intros [(p & Hp & <- & ->)|[Hm Hall]]; [left; exists p; tauto|right; tauto].
      * intros [(p & [->|[Hp _]] & <- & ->)|(Hm & Hall & _)]; [done|left; by exists p|right; done].
Qed.

Lemma supplied_snoc ls l f :
  supplied (ls ++ [l]) f ↔ (∃ p, last_put (PutFragments l) p ∧ f = resolved_fragment (l_Scope l) p)
    ∨ (supplied ls f ∧ pf_ID f ∉ RemoveFragments l ∧ Forall (λ q, f_ID q ≠ pf_ID f) (PutFragments l)).
Proof.
  split.
  - intros (pre & x & post & before & p & after & Hls & Hput & -> & Ha & Hp).
    apply snoc_split in Hls as [(-> & -> & ->)|(post' & -> & ->)].
    + left. exists p. split; [|done]. by exists before, after.
    + apply Forall_app in Hp as [Hp Hl]. rewrite Forall_singleton in Hl. right. split; [|done]. by exists pre, x, post', before, p, after.
  - intros [(p & (before & after & Hput & Ha) & ->)|[(pre & x & post & before & p & after & -> & Hput & -> & Ha & Hp) [Hr Hq]]].
    + exists ls, l, [], before, p, after. by split_and!.
    + exists pre, x, (post ++ [l]), before, p, after. split; [by rewrite <- app_assoc|]. split_and!; [done..|].
      apply Forall_app. split; [done|]. by apply Forall_singleton.
Qed.

Lemma fragments_spec ls k f : foldl step_fragments ∅ ls !! k = Some f ↔ supplied ls f ∧ pf_ID f = k.
Proof.
  induction ls as [|l ls IH] using rev_ind.
  - split; [done|]. intros [(pre & l & post & b & p & a & H & _) _]. by apply app_cons_not_nil in H.
  - rewrite foldl_snoc, supplied_snoc. unfold step_fragments at 1. rewrite lookup_put_all, lookup_delete_all. split.
    + intros [(p & Hp & <- & ->)|[Hm Hall]].
      * split; [|done]. left. by exists p.
      * destruct (decide (k ∈ RemoveFragments l)); [done|]. apply IH in Hm as [Hs <-]. split; [right; done|done].
    + intros [[(p & Hp & ->)|(Hs & Hr & Hall)] <-].
      * left. by exists p.
      * right. rewrite decide_False by done. split; [by apply IH|done].
Qed.

(** ** Rendering *)

#[export] Instance fragment_le_trans : Transitive fragment_le.
Proof.
  intros a b c. unfold fragment_le. intros [H1|[H1 [H2|[H2 H3]]]] [H4|[H4 [H5|[H5 H6]]]]; try (left; lia); right; (split; [lia|]); try (left; lia).
  right. split; [lia|]. by transitivity (pf_ID b).
Qed.
#[export] Instance fragment_le_total : Total fragment_le.
Proof.
  intros a b. unfold fragment_le. destruct (Z.lt_trichotomy (section_rank a) (section_rank b)) as [?|[?|?]]; [by left; left| |by right; left].
  destruct (Z.lt_trichotomy (Priority a) (Priority b)) as [?|[?|?]]; [left; right; tauto| |right; right; split; [done|by left]].
  destruct (total String.le (pf_ID a) (pf_ID b)); [left|right]; right; (split; [done|]); right; (split; [done|done]).
Qed.

Lemma fragment_le_anti a b : fragment_le a b → fragment_le b a → pf_ID a = pf_ID b.
Proof. unfold fragment_le. intros [H1|[H1 [H2|[H2 H3]]]] [H4|[H4 [H5|[H5 H6]]]]; try lia. by apply (anti_symm String.le). Qed.

(** The prompt as a document: one heading per section in use, in the fixed
    order, each followed by its fragments. *)
Definition bullet (f : ResolvedPromptFragment) : string := "- " +:+ Content f +:+ newline.
Definition section_text (fs : list ResolvedPromptFragment) (section : string) : string :=
  "## " +:+ section +:+ newline +:+ String.concat "" (bullet <$> filter (λ f, Section f = section) fs).
Definition document (sections : list string) (fs : list ResolvedPromptFragment) : string :=
  String.concat (newline +:+ newline) (section_text fs <$> filter (λ s, Exists (λ f, Section f = s) fs) sections).

Lemma app_nil_str s : s +:+ "" = s.
Proof. induction s as [|c s IH]; [done|]. exact (f_equal (String c) IH). Qed.
Lemma app_assoc_str a b c : (a +:+ b) +:+ c = a +:+ b +:+ c.
Proof. induction a as [|x a IH]; [done|]. exact (f_equal (String x) IH). Qed.
Lemma concat_cons_str x l : String.concat "" (x :: l) = x +:+ String.concat "" l.
Proof. destruct l; cbn [String.concat]; [by rewrite app_nil_str|done]. Qed.

(** Once inside a section, its fragments are bullets. *)
Lemma render_same out sec fs : Forall (λ f, Section f = sec) fs →
  foldl render_fragment (out, sec) fs = (out +:+ String.concat "" (bullet <$> fs), sec).
Proof.
  intros H. revert out. induction H as [|f fs Hf _ IH]; intros out; cbn [foldl fmap list_fmap].
  - change (String.concat "" []) with "". by rewrite app_nil_str.
  - assert (render_fragment (out, sec) f = (out +:+ bullet f, sec)) as ->.
    { unfold render_fragment. rewrite bool_decide_eq_true_2 by done. done. }
    rewrite IH, concat_cons_str, app_assoc_str. done.
Qed.

Definition glue (out : string) : string := if is_empty out then out else out +:+ newline +:+ newline.

Lemma render_section out current sec f fs : current ≠ sec → Forall (λ g, Section g = sec) (f :: fs) →
  foldl render_fragment (out, current) (f :: fs) = (glue out +:+ "## " +:+ sec +:+ newline +:+ String.concat "" (bullet <$> f :: fs), sec).
Proof.
  intros Hne Hall. pose proof (Forall_inv Hall) as Hf. cbn [foldl].
  assert (render_fragment (out, current) f = (glue out +:+ "## " +:+ sec +:+ newline +:+ bullet f, sec)) as ->.
  { unfold render_fragment. rewrite bool_decide_eq_false_2 by congruence. rewrite Hf. unfold glue, bullet.
    destruct (is_empty out); rewrite ?app_assoc_str; done. }
  rewrite render_same by (by apply Forall_inv_tail in Hall). cbn [fmap list_fmap]. rewrite concat_cons_str, !app_assoc_str. done.
Qed.

Lemma filter_none_str (fs : list ResolvedPromptFragment) sec : Forall (λ f, Section f ≠ sec) fs → filter (λ f, Section f = sec) fs = [].
Proof. induction 1 as [|f fs Hf _ IH]; [done|]. by rewrite filter_cons, decide_False. Qed.

(** A list sorted by section splits into its first section and the rest. *)
Lemma sorted_split sec sections (fs : list ResolvedPromptFragment) :
  StronglySorted fragment_le fs → Forall (λ f, Section f ∈ sec :: sections) fs → sec ∉ sections →
  (∀ s f g, s ∈ sections → Section f = s → Section g = sec → section_rank g < section_rank f) →
  ∃ fs2, fs = filter (λ f, Section f = sec) fs ++ fs2 ∧ Forall (λ f, Section f ∈ sections) fs2 ∧ StronglySorted fragment_le fs2.
Proof.
  intros Hs Hin Hn Hr. induction Hs as [|f fs Hs IH Hle]; [exists []; split; [done|split; constructor]|].
  apply Forall_cons in Hin as [Hf Hin]. destruct (IH Hin) as (fs2 & E & H2 & H2s).
  rewrite filter_cons. destruct (decide (Section f = sec)) as [Hsec|Hsec].
  - exists fs2. split; [cbn; by rewrite <- E|done].
  - apply elem_of_cons in Hf as [?|Hf]; [done|]. exists (f :: fs).
    assert (Hnone : Forall (λ g, Section g ≠ sec) fs).
    { eapply Forall_impl; [exact Hle|]. intros g Hfg Hg. pose proof (Hr _ f g Hf eq_refl Hg) as Hlt.
      destruct Hfg as [?|[? _]]; lia. }
    rewrite filter_none_str by done. split; [done|]. split; [|by constructor]. constructor; [done|].
    rewrite Forall_forall in Hin. rewrite Forall_forall in Hnone. apply Forall_forall. intros g Hg.
    pose proof (Hin g Hg) as Hgs. apply elem_of_cons in Hgs as [?|?]; [|done]. by destruct (Hnone g Hg).
Qed.

Lemma filter_section_app sec (fs1 fs2 : list ResolvedPromptFragment) :
  filter (λ f, Section f = sec) (fs1 ++ fs2) = filter (λ f, Section f = sec) fs1 ++ filter (λ f, Section f = sec) fs2.
Proof. apply filter_app. Qed.

Lemma filter_agree {A} (P Q : A → Prop) `{∀ x, Decision (P x)} `{∀ x, Decision (Q x)} (l : list A) :
  (∀ x, x ∈ l → P x ↔ Q x) → filter P l = filter Q l.
Proof.
  intros H'. induction l as [|x l IH]; [done|]. rewrite !filter_cons, IH by (intros; apply H'; by right).
  pose proof (H' x ltac:(left)). destruct (decide (P x)), (decide (Q x)); tauto.
Qed.

(** Gluing groups one after the other is joining them. *)
Lemma glue_concat (gs : list string) out :
  Forall (λ g, g ≠ "") gs → out ≠ "" →
  foldl (λ o g, glue o +:+ g) out gs = String.concat (newline +:+ newline) (out :: gs).
Proof.
  intros Hg. revert out. induction Hg as [|g gs Hne Hg IH]; intros out Ho; cbn [foldl]; [done|].
  assert (glue out = out +:+ newline +:+ newline) as ->.
  { unfold glue. destruct (is_empty out) eqn:E; [by apply is_empty_spec in E|done]. }
  rewrite IH by (destruct out; [done|by intros ?]). destruct gs; cbn [String.concat]; rewrite !app_assoc_str; done.
Qed.

Lemma render_document sections (fs : list ResolvedPromptFragment) out current :
  StronglySorted fragment_le fs → Forall (λ f, Section f ∈ sections) fs → NoDup sections → current ∉ sections →
  (∀ pre s post f g, sections = pre ++ s :: post → Section f ∈ post → Section g = s → section_rank g < section_rank f) →
  fst (foldl render_fragment (out, current) fs)
  = foldl (λ o g, glue o +:+ g) out (section_text fs <$> filter (λ s, Exists (λ f, Section f = s) fs) sections).
Proof.
  revert fs out current. induction sections as [|sec sections IH]; intros fs out current Hs Hin Hnd Hc Hr.
  { destruct fs as [|f fs]; [done|]. apply Forall_cons in Hin as [Hf _]. by apply elem_of_nil in Hf. }
  apply NoDup_cons in Hnd as [Hsec Hnd].
  destruct (sorted_split sec sections fs) as (fs2 & E & Hin2 & Hs2); [done..| |].
  { intros s f g Hsin Hf Hg. apply (Hr [] sec sections f g eq_refl); [by subst|done]. }
  remember (filter (λ f, Section f = sec) fs) as fs1 eqn:Hdef.
  assert (Hfs1 : Forall (λ f, Section f = sec) fs1).
  { rewrite Hdef. apply Forall_forall. by intros f [? _]%list_elem_of_filter. }
  assert (Hne2 : Forall (λ f, Section f ≠ sec) fs2).
  { eapply Forall_impl; [exact Hin2|]. intros f Hf Heq. cbn in Hf, Heq. by rewrite Heq in Hf. }
  assert (Htext : section_text fs <$> filter (λ s, Exists (λ f, Section f = s) fs) sections
                  = section_text fs2 <$> filter (λ s, Exists (λ f, Section f = s) fs2) sections).
  { assert (Hfilt : filter (λ s, Exists (λ f, Section f = s) fs) sections = filter (λ s, Exists (λ f, Section f = s) fs2) sections).
    { apply filter_agree. intros s Hi. rewrite E, Exists_app. split; [|by right].
      intros [Hx|Hx]; [|done]. apply Exists_exists in Hx as (f & Hf & Hfs). rewrite Forall_forall in Hfs1.
      exfalso. apply Hsec. pose proof (Hfs1 f Hf) as Hx. cbn in Hx, Hfs. by replace sec with s by congruence. }
    rewrite Hfilt. apply list_fmap_ext. intros i s Hi. apply list_elem_of_lookup_2, list_elem_of_filter in Hi as [_ Hi].
    unfold section_text. rewrite E, filter_section_app. rewrite (filter_none_str fs1); [done|].
    eapply Forall_impl; [exact Hfs1|]. intros f Hf Heq. cbn in Hf, Heq. congruence. }
  assert (Hr' : ∀ pre s post f g, sections = pre ++ s :: post → Section f ∈ post → Section g = s → section_rank g < section_rank f).
  { intros pre s post f g -> Hf Hg. by apply (Hr (sec :: pre) s post f g). }
  rewrite filter_cons. destruct fs1 as [|f fs1].
  - rewrite decide_False; [|intros Hx; apply Exists_exists in Hx as (g & Hg & Hgs)].
    + rewrite Htext. cbn in E. subst fs. apply IH; try done. set_solver.
    + cbn in E. subst fs2. rewrite Forall_forall in Hne2. by apply (Hne2 g Hg).
  - rewrite decide_True; [|rewrite E; apply Exists_cons; left; by apply Forall_inv in Hfs1].
    cbn [fmap list_fmap foldl]. rewrite Htext.
    assert (section_text fs sec = "## " +:+ sec +:+ newline +:+ String.concat "" (bullet <$> f :: fs1)) as ->.
    { unfold section_text. by rewrite <- Hdef. }
    rewrite E at 1. rewrite foldl_app, (render_section out current sec f fs1); [|by intros ->; apply Hc; left|done].
    apply IH; done.
Qed.

(** ** Resolved snapshots *)

Lemma enabled_elem st c : c ∈ enabled_capabilities st ↔ s_capabilities st !! c = Some true.
Proof.
  unfold enabled_capabilities. rewrite list_elem_of_fmap. split.
  - intros ([k b] & -> & H%sorted_entries_elem). rewrite map_lookup_filter_Some in H. cbn in *. destruct H as [H ->]. done.
  - intros H. exists (c, true). split; [done|]. apply sorted_entries_elem. by rewrite map_lookup_filter_Some.
Qed.

Lemma sorted_fragments_elem st f : f ∈ sorted_fragments st ↔ ∃ k, s_fragments st !! k = Some f.
Proof.
  unfold sorted_fragments. rewrite merge_sort_Permutation, list_elem_of_fmap. split.
  - intros ([k f'] & -> & H%elem_of_map_to_list). by exists k.
  - intros (k & H). exists (k, f). split; [done|]. by apply elem_of_map_to_list.
Qed.

Lemma profile_Resolve_ok clock r principal target id snap :
  profile_Resolve clock r principal target id = Ok snap →
  IsAncestorOf (p_Scope principal) target = true ∧ ∃ st, resolveLocked (resolve_fuel r) r target id [] = Ok st
  ∧ snap = with_identity (profileDigest (snapshot_of clock target id st)) clock (snapshot_of clock target id st)
  ∧ Z.of_nat (length (Capabilities snap)) ≤ MaxProfileCapabilities ∧ Z.of_nat (length (Fragments snap)) ≤ MaxProfileFragments
  ∧ str_len (SystemPrompt snap) ≤ MaxSystemPromptBytes.
Proof.
  unfold profile_Resolve. intros H. apply fail_if_ok in H as [Ha H]. apply negb_false_iff in Ha. split; [done|].
  apply rbind_ok in H as (st & Hst & H). cbv zeta in H. rewrite !fail_if_ok in H. destruct H as (H1 & H2 & H3 & [=<-]).
  exists st. split; [done|]. split; [done|]. apply Z.ltb_ge in H1, H2, H3. done.
Qed.

Lemma finish_model id st st' : finish_state id st = Ok st' → validateModelSelection (s_model st') = Ok tt.
Proof.
  unfold finish_state. intros H. apply rbind_ok in H as ([] & Hm & [=<-]). done.
Qed.

Lemma resolve_model fuel r target id visiting st : resolveLocked fuel r target id visiting = Ok st → validateModelSelection (s_model st) = Ok tt.
Proof.
  destruct fuel; [done|]. rewrite resolveLocked_S. intros H.
  apply resolve_level_ok in H as (_ & _ & parent & base & last & _ & _ & _ & Hf). by eapply finish_model.
Qed.

Lemma default_in_range hard d (f : AgentProfileLayer → option Z) ls :
  1 ≤ d ≤ hard → Forall (λ l, cap_out_of_range (f l) hard = false) ls → 1 ≤ default d (last (omap f ls)) ≤ hard.
Proof.
  intros Hd Hf. destruct (last (omap f ls)) as [v|] eqn:E; [|done]. cbn.
  apply last_Some_elem_of, list_elem_of_omap in E as (l & Hl & Hv). rewrite Forall_forall in Hf.
  apply (cap_in_range (f l)); [by apply Hf|done].
Qed.

Lemma linear_elem r target chain l :
  profile_inv r → valid_path target → l ∈ linear r target chain →
  layer_ok l ∧ l_ProfileID l ∈ chain ∧ IsAncestorOf (l_Scope l) target = true ∧ ∃ o, mk_stored l o ∈ pr_flat r.
Proof.
  intros Hi Ht Hl. unfold linear in Hl. apply list_elem_of_fmap in Hl as (s & -> & Hs).
  apply list_elem_of_join in Hs as (ls & Hs & Hls). apply list_elem_of_fmap in Hls as (c & -> & Hc). rewrite elem_of_reverse in Hc.
  apply layersFor_spec in Hs as (Hin & Hid & Ha); [|done..]. destruct Hi as (_ & _ & Hf & _). rewrite Forall_forall in Hf.
  split; [by apply Hf|]. split; [by rewrite Hid|]. split; [done|]. exists (st_order s). by destruct s.
Qed.

Lemma check_fragment_section f : check_fragment f = Ok tt → f_Section f ∈ promptSectionTable.*1.
Proof.
  unfold check_fragment. rewrite !fail_if_ok. intros (_ & _ & H).
  destruct (promptSectionOrder (f_Section f)) as [n|] eqn:E; [|done]. unfold promptSectionOrder in E.
  apply fmap_Some in E as (e & E & _). apply List.find_some in E as [E1 E2]. apply bool_decide_eq_true in E2.
  apply list_elem_of_fmap. exists e. split; [done|]. by apply list_elem_of_In.
Qed.

Lemma layer_fragments l : layer_ok l → Forall (λ p, f_Section p ∈ promptSectionTable.*1) (PutFragments l).
Proof.
  intros [Hv _]. unfold validateProfileLayer in Hv.
  apply fail_if_ok in Hv as [_ Hv]. apply rbind_ok in Hv as (_ & _ & Hv). rewrite !fail_if_ok in Hv. destruct Hv as (_ & _ & _ & _ & Hv).
  apply rbind_ok in Hv as (_ & _ & Hv). apply rbind_ok in Hv as ([] & Hv & _). apply check_all_ok in Hv.
  eapply Forall_impl; [exact Hv|]. intros p. apply check_fragment_section.
Qed.

(** The fixed table of sections, as positions. *)
Lemma section_ranks pre s post f g :
  promptSectionTable.*1 = pre ++ s :: post → Section f ∈ post → Section g = s → section_rank g < section_rank f.
Proof.
  intros E Hf Hg. unfold section_rank. subst s.
  assert (Hlt : ∀ a b : string, (∃ pre post, promptSectionTable.*1 = pre ++ a :: post ∧ b ∈ post) →
    default 0 (promptSectionOrder a) < default 0 (promptSectionOrder b)).
  { clear. intros a b (pre & post & E & Hb). cbn in E.
    do 7 (destruct pre as [|? pre]; cbn in E; [injection E as Ea Ep; subst a post; set_unfold; destruct_or?; subst; vm_compute; reflexivity|injection E as _ E]).
    by apply app_cons_not_nil in E. }
  apply Hlt. by exists pre, post.
Qed.

Lemma orders_nodup (l : list storedProfileLayer) : StronglySorted Z.lt (st_order <$> l) → NoDup (st_order <$> l).
Proof.
  generalize (st_order <$> l). induction 1 as [|o os _ IH Hall]; constructor; [|done].
  intros Hin. rewrite Forall_forall in Hall. apply Hall in Hin. lia.
Qed.

(** A mounted layer has exactly one position in the flat list. *)
Lemma matches_order r s :
  profile_inv r → s ∈ pr_flat r → ∃ j, matches (λ t, st_order t =? st_order s) (pr_flat r) = [j] ∧ pr_flat r !! j = Some s.
Proof.
  intros (_ & Hs & _) Hin. apply list_elem_of_lookup in Hin as (j & Hj).
  assert (Hmem : ∀ i, i ∈ matches (λ t, st_order t =? st_order s) (pr_flat r) ↔ i = j).
  { intros i. rewrite matches_elem. split.
    - intros (t & Ht & Ho). bool_to_prop. pose proof (orders_nodup _ Hs) as Hnd.
      apply (NoDup_lookup _ i j (st_order s) Hnd); rewrite list_lookup_fmap; [rewrite Ht|rewrite Hj]; cbn; congruence.
    - intros ->. exists s. split; [done|]. by apply Z.eqb_eq. }
  exists j. split; [|done]. pose proof (matches_nodup (λ t, st_order t =? st_order s) (pr_flat r)) as Hnd.
  destruct (matches _ _) as [|a [|b l]].
  - assert (j ∈ @nil nat) by (by apply Hmem). set_solver.
  - f_equal. apply Hmem. left.
  - exfalso. apply NoDup_cons in Hnd as [Hab _]. assert (a = j) by (apply Hmem; left). assert (b = j) by (apply Hmem; right; left). set_solver.
Qed.

(** ** Properties *)

(** In every state reached by mounts, unmounts and replacements, the keyed
    map of a profile registry is exactly its flat list indexed by scope and
    profile, mount orders strictly increase and the cap holds; every mounted
    layer has exactly one position in the flat list, so the consistency check of
    a replacement cannot fail; and a replacement that succeeds swaps exactly one layer in both, keeps its mount
    order and its place, and leaves the profile resolvable. *)
Theorem profile_registry_stays_indexed (r : AgentProfileRegistry) hs :
  profile_reach (r, hs) →
  (∀ key, layers_at r key = filter (λ s, stored_key s = key) (pr_flat r))
  ∧ StronglySorted Z.lt (st_order <$> pr_flat r)
  ∧ Z.of_nat (length (pr_flat r)) ≤ registryCap (pr_maxBindings r)
  ∧ (∀ s, s ∈ pr_flat r → ∃ j, matches (λ t, st_order t =? st_order s) (pr_flat r) = [j] ∧ pr_flat r !! j = Some s)
  ∧ ∀ clock old next r', ReplaceExact clock old next r = Ok r' →
      ∃ before o after, pr_flat r = before ++ mk_stored old o :: after ∧ pr_flat r' = before ++ mk_stored next o :: after
      ∧ (∀ key, layers_at r' key = filter (λ s, stored_key s = key) (pr_flat r'))
      ∧ is_ok (profile_Resolve clock r' (zero_principal (l_Scope next)) (l_Scope next) (l_ProfileID next)) = true.
Proof.
  intros Hr. apply profile_reach_inv in Hr as [Hi Hh]. cbn in Hi, Hh. pose proof Hi as (Hix & Hs & _ & _ & Hc).
  split_and!; [done..|by intros s; apply matches_order|]. intros clock old next r' H.
  pose proof (replace_inv _ _ _ _ _ _ Hi Hh H) as [(Hix' & _) _].
  apply replace_ok in H as (j & o & Hj & Hflat & _ & _ & _ & _ & _ & _ & Hok); [|done].
  exists (take j (pr_flat r)), o, (drop (S j) (pr_flat r)). split; [by rewrite take_drop_middle|]. split; [|done].
  rewrite Hflat, <- (insert_swap (pr_flat r) j (mk_stored old o)) by done.
  apply insert_take_drop. by apply lookup_lt_Some in Hj.
Qed.

(** Resolving a profile terminates whatever the inheritance among the
    mounted layers: the recursion never goes deeper than the number of mounted
    layers, so the bound built into the resolution is never met and any larger
    one gives the same answer; inheritance cycles therefore surface as an
    error. *)
Theorem profile_resolution_terminates (r : AgentProfileRegistry) hs (target : ScopePath) (profileID : string) (fuel : nat) :
  profile_reach (r, hs) → valid_path target → (resolve_fuel r ≤ fuel)%nat →
  resolveLocked fuel r target profileID [] = resolveLocked (resolve_fuel r) r target profileID []
  ∧ resolveLocked fuel r target profileID [] ≠ Err out_of_fuel.
Proof.
  intros Hr Ht Hf. apply profile_reach_inv in Hr as [Hi _]. cbn in Hi.
  assert (Hn : resolveLocked (resolve_fuel r) r target profileID [] ≠ Err out_of_fuel).
  { apply resolve_terminates; [done|done|constructor|by intros x ?%elem_of_nil|]. unfold resolve_fuel. cbn. lia. }
  rewrite (resolve_enough_fuel r target (resolve_fuel r) fuel) by done. done.
Qed.

(** C36.  A resolved profile is the last word of its layers.  There is a chain
    of distinct profiles from the one asked for to a root of the inheritance;
    applying all their layers visible at the target, root profile first and
    outer scopes first, a capability is selected exactly when some layer adds
    it and neither that layer nor a later one removes it, and a prompt fragment
    is the effective one exactly when it was put last and not removed or put
    again later, with the scope that supplied it; the step and tool-call caps
    and the model are those of the last layer that sets them. *)
Theorem profile_is_the_last_word clock (r : AgentProfileRegistry) hs (principal : Principal) (target : ScopePath) (profileID : string) snap :
  profile_reach (r, hs) → valid_path target → profile_Resolve clock r principal target profileID = Ok snap →
  ∃ chain, lineage r target profileID chain ∧ NoDup chain
  ∧ (∀ l, l ∈ linear r target chain → l_ProfileID l ∈ chain ∧ IsAncestorOf (l_Scope l) target = true ∧ ∃ o, mk_stored l o ∈ pr_flat r)
  ∧ (∀ c, c ∈ Capabilities snap ↔ selected (linear r target chain) c)
  ∧ (∀ f, f ∈ Fragments snap ↔ supplied (linear r target chain) f)
  ∧ ps_MaxSteps snap = default 10 (last (omap l_MaxSteps (linear r target chain)))
  ∧ ps_MaxToolCalls snap = default 16 (last (omap l_MaxToolCalls (linear r target chain)))
  ∧ ps_Model snap = default zero_model (last (omap l_Model (linear r target chain))).
Proof.
  intros Hr Ht H. apply profile_reach_inv in Hr as [Hi _]. cbn in Hi.
  apply profile_Resolve_ok in H as (_ & st & Hst & -> & _). apply resolve_linear in Hst as (chain & Hlin & Hnd & _ & _ & Hg).
  exists chain. split; [done|]. split; [done|]. split; [intros l Hl; by apply linear_elem in Hl as [_ ?]|].
  cbn [Capabilities Fragments ps_MaxSteps ps_MaxToolCalls ps_Model with_identity snapshot_of]. split_and!.
  - intros c. rewrite enabled_elem, (Hg _ _ _ tracks_capabilities). apply capabilities_spec.
  - intros f. rewrite sorted_fragments_elem, (Hg _ _ _ tracks_fragments). cbn [s_fragments initial_state].
    setoid_rewrite fragments_spec. split; [by intros (k & ? & _)|]. intros. by exists (pf_ID f).
  - rewrite (Hg _ _ _ tracks_maxSteps). apply foldl_last_default.
  - rewrite (Hg _ _ _ tracks_maxToolCalls). apply foldl_last_default.
  - rewrite (Hg _ _ _ tracks_model). apply foldl_last_default.
Qed.

(** A resolved profile is within the hard limits: 1 to 128 steps, 1 to
    1024 tool calls, at most 256 capabilities without repetition, at most 512
    fragments, a prompt of at most 1 MiB and a usable model selection; and the
    principal's scope owns the target. *)
Theorem profile_within_limits clock (r : AgentProfileRegistry) (principal : Principal) (target : ScopePath) (profileID : string) snap :
  profile_Resolve clock r principal target profileID = Ok snap →
  IsAncestorOf (p_Scope principal) target = true
  ∧ 1 ≤ ps_MaxSteps snap ≤ HardMaxSteps ∧ 1 ≤ ps_MaxToolCalls snap ≤ HardMaxToolCalls
  ∧ Z.of_nat (length (Capabilities snap)) ≤ MaxProfileCapabilities ∧ NoDup (Capabilities snap)
  ∧ Z.of_nat (length (Fragments snap)) ≤ MaxProfileFragments
  ∧ str_len (SystemPrompt snap) ≤ MaxSystemPromptBytes ∧ validateModelSelection (ps_Model snap) = Ok tt.
Proof.
  intros H. apply profile_Resolve_ok in H as (Ha & st & Hst & Hsnap & H1 & H2 & H3).
  pose proof (resolve_model _ _ _ _ _ _ Hst) as Hm. apply resolve_linear in Hst as (chain & _ & _ & _ & Hcap & Hg).
  split; [done|]. split; [|split]; [| |split_and!; try done].
  - subst snap. cbn. rewrite (Hg _ _ _ tracks_maxSteps), foldl_last_default. apply default_in_range; [done|].
    eapply Forall_impl; [exact Hcap|]. by intros l [? _].
  - subst snap. cbn. rewrite (Hg _ _ _ tracks_maxToolCalls), foldl_last_default. apply default_in_range; [done|].
    eapply Forall_impl; [exact Hcap|]. by intros l [_ ?].
  - subst snap. cbn. apply sorted_entries_nodup.
  - by subst snap.
Qed.

(** The rendered prompt is one document: a heading per section that has
    fragments, in the fixed section order and each exactly once, followed by
    that section's fragments in order of priority and id; the incremental
    renderer, which only compares a fragment's section with the previous one,
    computes exactly this. *)
Theorem prompt_is_grouped_by_section clock (r : AgentProfileRegistry) hs (principal : Principal) (target : ScopePath) (profileID : string) snap :
  profile_reach (r, hs) → valid_path target → profile_Resolve clock r principal target profileID = Ok snap →
  SystemPrompt snap = trim_space (document promptSectionTable.*1 (Fragments snap))
  ∧ StronglySorted fragment_le (Fragments snap) ∧ NoDup (pf_ID <$> Fragments snap).
Proof.
  intros Hr Ht H. apply profile_reach_inv in Hr as [Hi _]. cbn in Hi.
  apply profile_Resolve_ok in H as (_ & st & Hst & -> & _). apply resolve_linear in Hst as (chain & _ & _ & _ & _ & Hg).
  unfold SystemPrompt. cbn [Fragments with_identity snapshot_of].
  assert (Hsort : StronglySorted fragment_le (sorted_fragments st)) by apply (StronglySorted_merge_sort _).
  assert (Hsec : Forall (λ f, Section f ∈ promptSectionTable.*1) (sorted_fragments st)).
  { apply Forall_forall. intros f Hf. apply sorted_fragments_elem in Hf as (k & Hk). rewrite (Hg _ _ _ tracks_fragments) in Hk.
    apply fragments_spec in Hk as [(pre & l & post & b & p & a & El & Ep & -> & _) _].
    assert (Hl : l ∈ linear r target chain) by (rewrite El; set_solver).
    apply linear_elem in Hl as [Hok _]; [|done..]. apply layer_fragments in Hok. rewrite Forall_forall in Hok.
    apply (Hok p). rewrite Ep. set_solver. }
  split; [|split; [done|]].
  - f_equal. rewrite (render_document promptSectionTable.*1) by (first [done|apply section_ranks|cbn; set_solver|apply (bool_decide_unpack _); vm_compute; exact I]).
    unfold document. set (gs := section_text _ <$> _). destruct gs as [|g gs'] eqn:E; [done|].
    cbn [foldl]. change (glue "" +:+ g) with g.
    assert (Hgs : Forall (λ g, g ≠ "") (g :: gs')).
    { rewrite <- E. unfold gs. apply Forall_forall. intros x Hx. apply list_elem_of_fmap in Hx as (s & -> & _). done. }
    apply glue_concat; [by apply Forall_inv_tail in Hgs|by apply Forall_inv in Hgs].
  - unfold sorted_fragments. rewrite merge_sort_Permutation.
    assert (Hids : pf_ID <$> (map_to_list (s_fragments st)).*2 = (map_to_list (s_fragments st)).*1).
    { rewrite <- list_fmap_compose. apply list_fmap_ext. intros i [k f] Hk. apply list_elem_of_lookup_2, elem_of_map_to_list in Hk.
      rewrite (Hg _ _ _ tracks_fragments) in Hk. by apply fragments_spec in Hk as [_ ?]. }
    rewrite Hids. apply NoDup_fst_map_to_list.
Qed.

(** ** Witnesses *)

Definition ex_base : AgentProfileLayer :=
  mk_profile_layer ex_tenant "base" "" (Some "Base") None (Some (mk_model "acme" "small")) (Some 20) None
    ["data.lookup"; "data.write"] [] [mk_prompt "tone" PromptStyle "Be brief." 0; mk_prompt "who" PromptIdentity "You are the desk." 0] [] ∅.
Definition ex_child : AgentProfileLayer :=
  mk_profile_layer ex_user "desk" "base" None None None None (Some 8) [] ["data.write"] [mk_prompt "tone" PromptStyle "Be kind." 0] [] ∅.
Definition ex_child_next : AgentProfileLayer :=
  mk_profile_layer ex_user "desk" "base" None None None None (Some 4) [] [] [mk_prompt "tone" PromptStyle "Be exact." 0] [] ∅.
Definition ex_profiles_base : AgentProfileRegistry :=
  match profile_Mount ex_base NewAgentProfileRegistry with Ok (r, _) => r | Err _ => NewAgentProfileRegistry end.
Definition ex_profiles : AgentProfileRegistry :=
  match profile_Mount ex_child ex_profiles_base with Ok (r, _) => r | Err _ => NewAgentProfileRegistry end.
Definition ex_profile_clock := "2024-01-01T00:00:00Z".
Definition ex_profile_handles : list Handle :=
  [mk_handle (profileLayerKey ex_tenant "base") 1 false; mk_handle (profileLayerKey ex_user "desk") 2 false].
Definition ex_profile_snapshot : AgentProfileSnapshot :=
  match profile_Resolve ex_profile_clock ex_profiles ex_principal ex_user "desk" with Ok s => s | Err _ => zero_profile end.

Lemma ex_profiles_reach : profile_reach (ex_profiles, ex_profile_handles).
Proof.
  apply (profile_mount ex_profiles_base [mk_handle (profileLayerKey ex_tenant "base") 1 false] ex_child); [|apply ex_user_valid|vm_compute; reflexivity..].
  apply (profile_mount NewAgentProfileRegistry [] ex_base); [constructor|apply ex_tenant_valid|vm_compute; reflexivity..].
Qed.
Lemma ex_profile_resolves : profile_Resolve ex_profile_clock ex_profiles ex_principal ex_user "desk" = Ok ex_profile_snapshot.
Proof. vm_compute. reflexivity. Qed.

Lemma profile_registry_stays_indexed_witness :
  ∃ r', ReplaceExact ex_profile_clock ex_child ex_child_next ex_profiles = Ok r'
  ∧ ∃ before o after, pr_flat ex_profiles = before ++ mk_stored ex_child o :: after ∧ pr_flat r' = before ++ mk_stored ex_child_next o :: after.
Proof.
  destruct (profile_registry_stays_indexed ex_profiles ex_profile_handles ex_profiles_reach) as (_ & _ & _ & _ & H).
  eexists. split; [vm_compute; reflexivity|].
  destruct (H ex_profile_clock ex_child ex_child_next _ ltac:(vm_compute; reflexivity)) as (b & o & a & H1 & H2 & _).
  exists b, o, a. split; [exact H1|exact H2].
Defined.

Lemma profile_resolution_terminates_witness :
  resolveLocked 100 ex_profiles ex_user "desk" [] ≠ Err out_of_fuel.
Proof.
  apply (profile_resolution_terminates ex_profiles ex_profile_handles ex_user "desk" 100);
    [exact ex_profiles_reach|exact ex_user_valid|vm_compute; lia].
Defined.

Lemma profile_is_the_last_word_witness :
  Capabilities ex_profile_snapshot = ["data.lookup"]
  ∧ ∃ chain, lineage ex_profiles ex_user "desk" chain ∧ (∀ c, c ∈ Capabilities ex_profile_snapshot ↔ selected (linear ex_profiles ex_user chain) c).
Proof.
  split; [vm_compute; reflexivity|].
  destruct (profile_is_the_last_word ex_profile_clock ex_profiles ex_profile_handles ex_principal ex_user "desk" ex_profile_snapshot)
    as (chain & Hl & _ & _ & Hc & _); [exact ex_profiles_reach|exact ex_user_valid|exact ex_profile_resolves|].
  exists chain. split; [exact Hl|exact Hc].
Defined.

Lemma profile_within_limits_witness : 1 ≤ ps_MaxSteps ex_profile_snapshot ≤ HardMaxSteps.
Proof. apply (profile_within_limits ex_profile_clock ex_profiles ex_principal ex_user "desk"). exact ex_profile_resolves. Defined.

Lemma prompt_is_grouped_by_section_witness :
  SystemPrompt ex_profile_snapshot = trim_space (document promptSectionTable.*1 (Fragments ex_profile_snapshot)).
Proof.
  apply (prompt_is_grouped_by_section ex_profile_clock ex_profiles ex_profile_handles ex_principal ex_user "desk");
    [exact ex_profiles_reach|exact ex_user_valid|exact ex_profile_resolves].
Defined.
