(* ===== verification/Runtime.v ===== *)
(** * The runtime: [src/pkg/core/runtime.go]

    [Runtime] composes one agent per turn: it resolves the profile of the
    session, the capabilities visible in its scope (with the bindings of this
    run mounted only for the resolution), narrows them by the principal's
    grants, the layered policy and the caller's filter, takes the smallest
    limits, resolves the model, and hands the turn to [Agent].  A composition
    that fails is recorded as a failed run.

    The registries change before the turn starts, so an entry point gives the
    capability registry it leaves behind and the program of the turn.  The model
    and fast-router resolvers are host code and parameters; they answer an error
    for a panic. *)
From S2P Require Import Prelude Prog GoString Json Schema Scope Registry Principal GoTime Policy Sha256 Payload Events Message Session Projection SessionLog Compactor Capability ModelCall Journal Guard Agent Profile.
From stdpp Require Import gmap strings list sorting.
From Stdlib Require Import ZArith Lia.
Open Scope Z_scope.

(** What the kernel observes of a resolved model: the answer of [Provider]
    (nothing for a panic), its revision label and the limits it reports. *)
Record LlmAdapter := mk_adapter { ad_Provider : option string; ad_Revision : option string; ad_Limits : option (Z * Z) }.

(** The registries and seams of a runtime; a [bool] says whether the optional
    seam is installed. *)
Record Runtime := mk_runtime {
  r_Capabilities : CapabilityRegistry; r_Profiles : AgentProfileRegistry; r_Policy : option PolicyRegistry;
  r_Hooks : bool; r_Approver : ApproverKind; r_RateLimiter : bool; r_ToolJournal : bool; r_ModelCallGate : bool;
  r_Compactor : CompactorKind; r_ContextAssembler : bool; r_Summarizer : bool; r_StreamChunks : bool }.

Record ResumeInput := mk_resume_input { ri_RunID : string; ri_CompositionMetadata : gmap string string }.

(** ** Run capabilities *)

Definition at_scope (scope : ScopePath) (b : CapabilityBinding) : CapabilityBinding :=
  mk_binding scope (cb_Mode b) (cb_Manifest b) (cb_Provider b) (Protected b).

(** The unmount functions, in mount order. *)
Definition unmount_all (r : CapabilityRegistry) (hs : list Handle) : CapabilityRegistry := foldl (λ r h, (reg_unmount h r).1) r hs.

Section Runtime.
Context {J : Type → Type} `{!ToolInvocationJournal J}.
Context (regexp_Compile : string → option (string → bool)) (parse_json : string → option json).
Context (resolve_credential : Principal → ScopePath → string → option string).
Context (resolve_model : ModelSelection → result LlmAdapter).
Context (resolve_fast : option (AgentProfileSnapshot → result (option (list FastRule)))).

Notation M A := (prog (agentE J) (A * agentState)).

(** The mounting loop; a failure undoes what was mounted. *)
Fixpoint mount_bindings (scope : ScopePath) (bs : list CapabilityBinding) (hs : list Handle) (r : CapabilityRegistry) :
    CapabilityRegistry * result (list Handle) :=
  match bs with
  | [] => (r, Ok hs)
  | b :: bs =>
    match cap_Mount regexp_Compile (at_scope scope b) r with
    | Err e => (unmount_all r hs, Err e)
    | Ok (r, h) => mount_bindings scope bs (hs ++ [h]) r
    end
  end.

Definition mountRunCapabilities (bs : list CapabilityBinding) (sessionScope : ScopePath) (runID : string) (r : CapabilityRegistry) :
    CapabilityRegistry * result (ScopePath * list Handle) :=
  match bs with
  | [] => (r, Ok (sessionScope, []))
  | _ =>
    if is_empty runID then (r, Err "run capabilities require a run id")
    else match Child sessionScope (mk_ref ScopeRun runID) with
    | Err e => (r, Err e)
    | Ok runScope =>
      let '(r, mounted) := mount_bindings runScope bs [] r in
      (r, let! hs := mounted in Ok (runScope, hs))
    end
  end.

(** ** Composition *)

Definition safeModelProvider (a : LlmAdapter) : string :=
  match ad_Provider a with
  | None => "provider-unavailable"
  | Some p => let p := trim_space p in if is_empty p then "provider-unknown" else p
  end.

Definition runAuditCapabilities (s : CapabilitySnapshot) : list SnapshotCapability :=
  (λ e, mk_snapcap (manifest_to_json (publicManifest (se_Manifest e))) (se_Source e) (se_Revision e)) <$> Capabilities_ s.

Definition runAuditProfile (p : AgentProfileSnapshot) : AgentProfileSnapshot :=
  mk_profile (ps_ID p) (ps_ProfileID p) (CreatedAt p) (ps_Scope p) (Name p) (Description p) (ps_Model p) (ps_MaxSteps p) (ps_MaxToolCalls p)
    (Capabilities p) (Fragments p) (redactStringMetadata (ps_Metadata p)).

Definition model_revision (a : LlmAdapter) : string := artifactRevision (Some (mk_provider "" false (ad_Revision a))).

(** A limit of the policy, when it is the smaller one. *)
Definition narrowed (limit : Z) (cap : option Z) : Z := match cap with Some v => if v <? limit then v else limit | None => limit end.

(** The capabilities, permissions and limits of the run. *)
Definition narrow_by_policy (clock : string) (rt : Runtime) (principal : Principal) (scope : ScopePath) (tools : CapabilitySnapshot) (maxSteps maxToolCalls : Z) :
    result (CapabilitySnapshot * PermissionSet * Z * Z) :=
  match r_Policy rt with
  | None => Ok (tools, perm_clone (Grants principal), maxSteps, maxToolCalls)
  | Some policies =>
    let! policy := policy_Resolve policies principal scope in
    Ok (FilterByPermissions clock tools (Permissions policy), perm_clone (Permissions policy),
        narrowed maxSteps (rp_MaxSteps policy), narrowed maxToolCalls (rp_MaxToolCalls policy))
  end.

Definition agent_options (rt : Runtime) (profile : AgentProfileSnapshot) (tools : CapabilitySnapshot) (permissions : PermissionSet) (maxSteps maxToolCalls : Z)
    (model : LlmAdapter) (fast : option (list FastRule)) (metadata : gmap string string) (emit : bool) : AgentOptions :=
  mk_agent_options (mk_guard_options maxToolCalls (r_Hooks rt) (r_RateLimiter rt) (r_Approver rt) (r_ToolJournal rt) emit tools)
    (SystemPrompt profile) (Payload.Provider (ps_Model profile)) (Model (ps_Model profile)) maxSteps (ps_ID profile) (cs_ID tools)
    (Some (mk_composition (runAuditProfile profile) (runAuditCapabilities tools) permissions (ps_Model profile)
             (safeModelProvider model) (model_revision model) maxSteps maxToolCalls metadata))
    fast (r_ModelCallGate rt) (r_Compactor rt) (r_Summarizer rt) (r_ContextAssembler rt) (r_StreamChunks rt) (ad_Limits model).

(** An error with the failure code it is recorded under. *)
Definition coded {A} (code : string) (r : result A) : A + (string * string) := match r with Ok a => inl a | Err e => inr (code, e) end.

Notation "'try' x ':=' c 'in' k" := (match c with inl x => k | inr e => inr e end) (at level 10, x pattern, c at level 100, k at level 200).

(** [composeAgent] after the profile was resolved, with the capability registry
    as it was when they were resolved. *)
Definition compose_with (clock : string) (rt : Runtime) (registry : CapabilityRegistry) (principal : Principal) (s : Session) (capabilityScope : ScopePath)
    (metadata : gmap string string) (override : Z) (filter : option (CapabilityManifest → option bool)) (emit : bool) (profile : AgentProfileSnapshot) :
    AgentOptions + (string * string) :=
  try tools := coded "capability_resolution_failed" (cap_resolve clock registry principal capabilityScope false) in
  try tools := coded "profile_capability_mismatch" (FilterCapabilities clock profile tools) in
  let tools := FilterByPermissions clock tools (Grants principal) in
  let maxToolCalls := if (0 <? override) && (override <? ps_MaxToolCalls profile) then override else ps_MaxToolCalls profile in
  try (tools, permissions, maxSteps, maxToolCalls) :=
    coded "policy_resolution_failed" (narrow_by_policy clock rt principal (s_scope s) tools (ps_MaxSteps profile) maxToolCalls) in
  let tools := FilterByPredicate clock tools filter in
  try model := coded "model_resolution_failed" (resolve_model (ps_Model profile)) in
  try fast := coded "fast_router_resolution_failed" (match resolve_fast with Some f => f profile | None => Ok None end) in
  coded "agent_composition_failed" (NewAgent (agent_options rt profile tools permissions maxSteps maxToolCalls model fast metadata emit)).

(** [composeAgent]; [release] unmounts the bindings of the run. *)
Definition composeAgent (clock : string) (rt : Runtime) (registry : CapabilityRegistry) (principal : Principal) (s : Session) (capabilityScope : ScopePath)
    (metadata : gmap string string) (override : Z) (filter : option (CapabilityManifest → option bool)) (emit : bool) (release : list Handle) :
    CapabilityRegistry * (AgentOptions + (string * string)) :=
  (unmount_all registry release,
   try profile := coded "profile_resolution_failed" (profile_Resolve clock (r_Profiles rt) principal (s_scope s) (s_profileID s)) in
   compose_with clock rt registry principal s capabilityScope metadata override filter emit profile).

(** ** Failed compositions *)

Definition with_profile (id : string) (scope : ScopePath) (c : RunCompositionData) : RunCompositionData :=
  let p := rc_Profile c in
  mk_composition (mk_profile (ps_ID p) id (CreatedAt p) scope (Name p) (Description p) (ps_Model p) (ps_MaxSteps p) (ps_MaxToolCalls p)
                    (Capabilities p) (Fragments p) (ps_Metadata p))
    (rc_Capabilities c) (EffectivePermissions c) (rc_Model c) (ResolvedProvider c) (ModelRevision c) (rc_MaxSteps c) (rc_MaxToolCalls c) (rc_Metadata c).

Definition failureComposition (s : Session) (metadata : gmap string string) : result (option RunCompositionData) :=
  let! composition := compositionWithMetadata None metadata in
  Ok (match composition with Some c => Some (with_profile (s_profileID s) (s_scope s) c) | None => None end).

(** [appendEvent]: the consumer's failure is ignored. *)
Definition append_event (emit : bool) (a : agentState) (runID : string) (kind : SessionEventType) (data : EventData) : M (option string) :=
  let* clock := ask AskClock in
  match appendBatch clock (ag_session a) [append_entry runID kind data] with
  | Err e => Ret (Some e, a)
  | Ok (s, events) =>
    if emit then (let* _ := emit_all events None in Ret (None, set_session s a)) else Ret (None, set_session s a)
  end.

(** The events of a failed composition, until one is refused. *)
Fixpoint append_events (emit : bool) (a : agentState) (runID : string) (l : list (SessionEventType * EventData)) : M (option string) :=
  match l with
  | [] => Ret (None, a)
  | (kind, data) :: l =>
    let* (err, a) := append_event emit a runID kind data in
    match err with Some e => Ret (Some e, a) | None => append_events emit a runID l end
  end.

Definition failure_events (s : Session) (metadata : gmap string string) (resume : bool) (text code cause : string) : result (list (SessionEventType * EventData)) :=
  let! composition := failureComposition s metadata in
  let! revision := CompositionRevision composition in
  let! assignment := CompositionMetadataRevision (compositionMetadata composition) in
  let start := mk_start "" "" revision assignment composition in
  Ok ((if resume then [(EvRunResume, DRunResume start)] else [(EvRunStart, DRunStart start); (EvUserMessage, DUserMessage (mk_user text))])
      ++ [(EvRunError, DRuntimeError (NewRuntimeErrorData code (Failure cause false) false)); (EvRunEnd, DRunEnd (mk_end RunFailed))]).

(** [compositionFailure] and [resumeCompositionFailure] *)
Definition compositionFailure (emit : bool) (a : agentState) (runID : string) (metadata : gmap string string) (resume : bool) (text code cause : string) : M turn_outcome :=
  match failure_events (ag_session a) metadata resume text code cause with
  | Err e => refuse_turn a e
  | Ok events =>
    let* (err, a) := append_events emit a runID events in
    match err with
    | Some e => refuse_turn a e
    | None => Ret ((mk_turn runID RunFailed "", Some (Failure cause false)), a)
    end
  end.

(** ** Turns *)

Definition owns (principal : Principal) (s : Session) : bool :=
  let owner := clonePrincipal (s_principal s) in
  bool_decide (SubjectID principal = SubjectID owner) && bool_decide (TenantID principal = TenantID owner) && Equal (p_Scope principal) (p_Scope owner).

Definition validateSessionRun (principal : Principal) (s : Session) (runID : string) (metadata : gmap string string) : result unit :=
  let! _ := ValidateRunID runID in
  let! _ := ValidateRunCompositionMetadata metadata in
  fail_when negb (owns principal s) with "principal does not own session" ;; Ok tt.

(** A new agent on the session. *)
Definition fresh_agent (s : Session) : agentState := mk_agent s "" ∅ 0 ∅ ∅ "".

Definition rt_RunTurn (clock : string) (rt : Runtime) (principal : Principal) (s : Session) (input : TurnInput) (emit : bool) :
    CapabilityRegistry * M turn_outcome :=
  let a := fresh_agent s in
  match validateSessionRun principal s (ti_Run input) (CompositionMetadata input) with
  | Err e => (r_Capabilities rt, refuse_turn a e)
  | Ok _ =>
    if (MaxToolCallsOverride input <? 0) || (HardMaxToolCalls <? MaxToolCallsOverride input)
    then (r_Capabilities rt, refuse_turn a "max tool calls override must be between 0 and 1024")
    else
      let failed := compositionFailure emit a (ti_Run input) (CompositionMetadata input) false (ti_Text input) in
      let '(registry, mounted) := mountRunCapabilities (RunCapabilities input) (s_scope s) (ti_Run input) (r_Capabilities rt) in
      match mounted with
      | Err e => (registry, failed "run_capability_mount_failed" e)
      | Ok (runScope, hs) =>
        let target := if negb (Equal runScope (s_scope s)) then runScope else s_scope s in
        let '(registry, composed) := composeAgent clock rt registry principal s target (CompositionMetadata input) (MaxToolCallsOverride input) (CapabilityFilter input) emit hs in
        (registry, match composed with
                   | inr (code, e) => failed code e
                   | inl opts => RunTurn regexp_Compile parse_json resolve_credential opts a input
                   end)
      end
  end.

Definition composeResumeAgent (clock : string) (rt : Runtime) (principal : Principal) (s : Session) (metadata : gmap string string) (emit : bool) :
    AgentOptions + (string * string) :=
  (composeAgent clock rt (r_Capabilities rt) principal s (s_scope s) metadata 0 None emit []).2.

Definition rt_ResumeTurn (clock : string) (rt : Runtime) (principal : Principal) (s : Session) (input : ResumeInput) (emit : bool) : M turn_outcome :=
  let a := fresh_agent s in
  match validateSessionRun principal s (ri_RunID input) (ri_CompositionMetadata input) with
  | Err e => refuse_turn a e
  | Ok _ =>
    if negb (bool_decide (RunStatus s (ri_RunID input) = (RunWaitingApproval, true))) then refuse_turn a "run is not waiting for approval"
    else match composeResumeAgent clock rt principal s (ri_CompositionMetadata input) emit with
    | inr (code, e) => compositionFailure emit a (ri_RunID input) (ri_CompositionMetadata input) true "" code e
    | inl opts => ResumeTurn regexp_Compile parse_json resolve_credential opts a (ri_RunID input)
    end
  end.

Definition rt_ContinueTurn (clock : string) (rt : Runtime) (principal : Principal) (s : Session) (input : ResumeInput) (emit : bool) : M turn_outcome :=
  let a := fresh_agent s in
  match validateSessionRun principal s (ri_RunID input) (ri_CompositionMetadata input) with
  | Err e => refuse_turn a e
  | Ok _ =>
    if negb (bool_decide (RunStatus s (ri_RunID input) = ("", true))) then refuse_turn a "run is not an open post-result continuation"
    else match postResultContinuation (s_events s) (ri_RunID input) with
    | Err e => refuse_turn a e
    | Ok _ =>
      match composeResumeAgent clock rt principal s (ri_CompositionMetadata input) emit with
      | inr (code, e) => refuse_turn a (code +:+ ": " +:+ e)
      | inl opts => continueTurn regexp_Compile parse_json resolve_credential opts a (ri_RunID input)
      end
    end
  end.

End Runtime.
