(* ===== verification/RuntimeClaims.v ===== *)
(** * What composing a turn guarantees

    The authority a turn runs under, end to end: what may start, how often, what
    the registries look like afterwards, and what a composition that fails
    leaves in the log. *)
From S2P Require Import Prelude Prog GoString Json Schema Scope Registry Principal GoTime Policy Sha256 Payload Events Message Session Projection SessionLog SessionClaims Compactor Capability CapabilityClaims ModelCall Journal Guard Fence Admission Agent Turn TurnReport TurnClaims Profile ProfileClaims Runtime.
From stdpp Require Import gmap strings list sorting.
From Stdlib Require Import ZArith Lia.
Open Scope Z_scope.

(** ** Bindings of one run *)

(** [r] is [base] with the bindings behind the handles [hs] added; taking the
    handles away, in whatever order, gives back what [base] held. *)
Definition grown (base r : CapabilityRegistry) (hs : list Handle) : Prop :=
  reg_inv r ∧ reg_next base ≤ reg_next r
  ∧ Forall (λ h, h_done h = false ∧ reg_next base < h_order h) hs
  ∧ ∀ k, ∃ news, reg_at r k = reg_at base k ++ news
      ∧ Forall (λ b, ∃ h, h ∈ hs ∧ h_key h = k ∧ h_order h = st_order b) news.

Lemma grown_refl r : reg_inv r → grown r r [].
Proof. intros Hi. split; [done|]. split; [lia|]. split; [constructor|]. intros k. exists []. by rewrite app_nil_r. Qed.

Lemma grown_mount rc base r hs b r' h :
  grown base r hs → cap_Mount rc b r = Ok (r', h) → reg_next r' < 2 ^ 64 - 1 → grown base r' (hs ++ [h]) ∧ reg_next r' = reg_next r + 1.
Proof.
  intros (Hi & Hn & Hh & Hat) Hm Hlt. apply rbind_ok in Hm as (x & _ & Hm).
  apply reg_mount_inv in Hm as (Hi' & Hn' & -> & Hat'); [|done..]. split; [|done]. split; [done|]. split; [lia|]. split.
  - apply Forall_app. split; [done|]. apply Forall_singleton. cbn. split; [done|lia].
  - intros k. destruct (Hat k) as (news & Hk & Hf). rewrite Hat', Hk, <- app_assoc. eexists. split; [done|]. apply Forall_app. split.
    + eapply Forall_impl; [exact Hf|]. intros s (h & Hin & ? & ?). exists h. split; [set_solver|done].
    + case_decide as Hd; [|constructor]. apply Forall_singleton. eexists. split; [apply elem_of_app; right; by apply list_elem_of_singleton|]. by cbn.
Qed.

(** Taking one handle away. *)
Lemma grown_unmount base r h hs : reg_inv base → grown base r (h :: hs) → grown base (reg_unmount h r).1 hs.
Proof.
  intros Hb (Hi & Hn & Hh & Hat). apply Forall_cons in Hh as [[Hd Ho] Hh]. destruct (reg_unmount h r) as [r' h'] eqn:Hu.
  apply reg_unmount_inv in Hu as (Hi' & Hn' & Hat'); [|done]. cbn [fst]. split; [done|]. split; [lia|]. split; [done|].
  intros k. destruct (Hat k) as (news & Hk & Hf). rewrite Hat', Hd, Hk.
  destruct Hb as (Hsl & _). destruct (Hsl k) as [_ Hold]. case_decide as Hd'.
  - exists (filter (λ s, st_order s ≠ h_order h) news). rewrite filter_app. split.
    + f_equal. apply filter_all. eapply Forall_impl; [exact Hold|]. cbn. intros s Hs. destruct Hs as [[? ?] _]. lia.
    + apply Forall_forall. intros s [Hne Hs]%list_elem_of_filter. rewrite Forall_forall in Hf. destruct (Hf s Hs) as (g & Hg & ? & ?).
      apply elem_of_cons in Hg as [->|Hg]; [congruence|]. by exists g.
  - exists news. split; [done|]. eapply Forall_impl; [exact Hf|]. intros s (g & Hg & Hgk & ?).
    apply elem_of_cons in Hg as [->|Hg]; [congruence|]. by exists g.
Qed.

Lemma grown_released base hs : reg_inv base → ∀ r, grown base r hs → ∀ k, reg_at (unmount_all r hs) k = reg_at base k.
Proof.
  intros Hb. induction hs as [|h hs IH]; intros r Hg k.
  - unfold unmount_all. cbn [foldl]. destruct Hg as (_ & _ & _ & Hat). destruct (Hat k) as (news & -> & Hf). destruct news as [|s news]; [by rewrite app_nil_r|].
    apply Forall_cons in Hf as [(h & Hin & _) _]. by apply elem_of_nil in Hin.
  - apply (IH (reg_unmount h r).1). by apply grown_unmount.
Qed.

Lemma mount_bindings_grown rc base scope bs : ∀ hs r,
  reg_inv base → grown base r hs → reg_next r + Z.of_nat (length bs) < 2 ^ 64 - 1 →
  let '(r', res) := mount_bindings rc scope bs hs r in
  match res with
  | Ok hs' => grown base r' hs'
  | Err _ => ∀ k, reg_at r' k = reg_at base k
  end.
Proof.
  induction bs as [|b bs IH]; intros hs r Hb Hg Hn; [done|]. cbn [mount_bindings].
  destruct (cap_Mount rc (at_scope scope b) r) as [[r' h]|e] eqn:Hm; [|by apply grown_released].
  cbn [length] in Hn. assert (reg_next r' < 2 ^ 64 - 1) as Hlt.
  { destruct Hg as (Hi & _). apply rbind_ok in Hm as (x & _ & Hm). unfold reg_mount in Hm. apply fail_if_ok in Hm as [_ Hm]. cbv zeta in Hm. injection Hm as <- _.
    cbn [reg_next]. unfold uint64. destruct Hi as (_ & ? & _). rewrite Z.mod_small; lia. }
  destruct (grown_mount _ _ _ _ _ _ _ Hg Hm Hlt) as [Hg' Hnext]. apply IH; [done..|lia].
Qed.

(** Mounting the bindings of a run, resolving, and releasing them again. *)
Lemma mount_run_released rc bs scope run (r : CapabilityRegistry) :
  reg_inv r → reg_next r + Z.of_nat (length bs) < 2 ^ 64 - 1 →
  let '(r', res) := mountRunCapabilities rc bs scope run r in
  match res with
  | Ok (_, hs) => ∀ k, reg_at (unmount_all r' hs) k = reg_at r k
  | Err _ => ∀ k, reg_at r' k = reg_at r k
  end.
Proof.
  intros Hi Hn. unfold mountRunCapabilities. destruct bs as [|b bs]; [done|]. destruct (is_empty run); [done|].
  destruct (Child scope _) as [runScope|e]; [|done].
  pose proof (mount_bindings_grown rc r runScope (b :: bs) [] r Hi (grown_refl r Hi) Hn) as Hm.
  destruct (mount_bindings _ _ _ _ _) as [r' [hs|e]]; cbn; [by apply grown_released|done].
Qed.

(** Resolution reads nothing but the bindings. *)
Lemma cap_resolve_at clock (r r' : CapabilityRegistry) principal target perms :
  (∀ k, reg_at r k = reg_at r' k) → cap_resolve clock r principal target perms = cap_resolve clock r' principal target perms.
Proof.
  intros Hat. assert (∀ l eff, rfold (apply_prefix r) eff l = rfold (apply_prefix r') eff l) as Hf.
  { induction l as [|p l IH]; intros eff; cbn; [done|].
    assert (apply_prefix r eff p = apply_prefix r' eff p) as -> by (unfold apply_prefix, reg_sorted; by rewrite Hat).
    destruct (apply_prefix r' eff p); cbn; [apply IH|done]. }
  unfold cap_resolve, resolveEntriesLocked. by rewrite Hf.
Qed.

(** ** The composed agent *)

(** The authority of a turn: what the manifests it may start satisfy. *)
Record authorised (clock : string) (rt : Runtime) (registry : CapabilityRegistry) (principal : Principal) (s : Session) (capabilityScope : ScopePath)
    (filter : option (CapabilityManifest → option bool)) (profile : AgentProfileSnapshot) (m : CapabilityManifest) : Prop := {
  au_selected : m_ID m ∈ Capabilities profile;
  au_granted : Allows (Grants principal) (RequiredPermissions m) = true;
  au_policy policies : r_Policy rt = Some policies →
    ∃ policy, policy_Resolve policies principal (s_scope s) = Ok policy ∧ Allows (Permissions policy) (RequiredPermissions m) = true;
  au_filter f : filter = Some f → f (publicManifest m) = Some true;
  au_visible : ∃ eff id e, resolveEntriesLocked registry capabilityScope = Ok eff ∧ eff !! id = Some e ∧ m = cloneManifest (re_manifest e) }.

(** A limit is the least of what the profile, the policy and the caller ask. *)
Definition least_of (base : Z) (override : Z) (cap : option Z) : Z :=
  let base := if (0 <? override) && (override <? base) then override else base in narrowed base cap.

Definition policy_cap (get : ResolvedPolicy → option Z) (rt : Runtime) (principal : Principal) (scope : ScopePath) : option Z :=
  match r_Policy rt with Some policies => match policy_Resolve policies principal scope with Ok p => get p | Err _ => None end | None => None end.

Lemma coded_inl {A} code (r : result A) a : coded code r = inl a → r = Ok a.
Proof. destruct r; cbn; [by intros [=->]|done]. Qed.

Lemma narrows_elem s s' e : narrows s s' → e ∈ capabilities s' → e ∈ capabilities s.
Proof. intros [Hs _] He. by eapply elem_of_sublist. Qed.

Section Compose.
Context (resolve_model : ModelSelection → result LlmAdapter) (resolve_fast : option (AgentProfileSnapshot → result (option (list FastRule)))).

Lemma compose_authorised clock rt registry principal s capabilityScope metadata override filter emit profile opts :
  compose_with resolve_model resolve_fast clock rt registry principal s capabilityScope metadata override filter emit profile = inl opts →
  Forall (λ e, authorised clock rt registry principal s capabilityScope filter profile (se_Manifest e)) (capabilities (g_Tools (a_guard opts))).
Proof.
  unfold compose_with. destruct (coded _ (cap_resolve _ _ _ _ _)) as [all|] eqn:Hall; [|done]. apply coded_inl in Hall.
  destruct (coded _ (FilterCapabilities _ _ _)) as [sel|] eqn:Hsel; [|done]. apply coded_inl in Hsel. cbv zeta.
  destruct (coded _ (narrow_by_policy _ _ _ _ _ _ _)) as [[[[tools permissions] steps] calls]|] eqn:Hpol; [|done]. apply coded_inl in Hpol.
  destruct (coded _ (resolve_model _)) as [model|]; [|done]. destruct (coded _ (match resolve_fast with _ => _ end)) as [fast|]; [|done].
  intros Hnew%coded_inl. assert (g_Tools (a_guard opts) = FilterByPredicate clock tools filter) as ->.
  { unfold NewAgent in Hnew. cbv zeta in Hnew. rewrite !fail_if_ok in Hnew. destruct Hnew as (_ & _ & _ & _ & Hnew). by apply rbind_ok in Hnew as (? & _ & [=<-]). }
  destruct (filters_only_narrow clock all) as (_ & _ & Hf3). destruct (Hf3 _ _ Hsel) as [Hn1 Hids]. clear Hf3.
  destruct (filters_only_narrow clock sel) as (Hf1 & _). destruct (Hf1 (Grants principal)) as [Hn2 Hgr]. clear Hf1.
  remember (FilterByPermissions clock sel (Grants principal)) as granted eqn:Eg. clear Eg.
  rewrite Forall_forall in Hids, Hgr. apply Forall_forall. intros e He.
  assert (e ∈ capabilities tools) as Het. { destruct (filters_only_narrow clock tools) as (_ & H & _). by apply (narrows_elem _ _ _ (H filter)). }
  assert (e ∈ capabilities granted ∧ ∀ policies, r_Policy rt = Some policies →
    ∃ policy, policy_Resolve policies principal (s_scope s) = Ok policy ∧ Allows (Permissions policy) (RequiredPermissions (se_Manifest e)) = true) as [Heg Hp].
  { unfold narrow_by_policy in Hpol. destruct (r_Policy rt) as [policies|]; [|by injection Hpol as <- _ _ _].
    apply rbind_ok in Hpol as (policy & Hres & Hpol). injection Hpol as <- _ _ _. destruct (filters_only_narrow clock granted) as (H & _).
    destruct (H (Permissions policy)) as [Hn Hall']. rewrite Forall_forall in Hall'. split; [by apply (narrows_elem _ _ _ Hn)|].
    intros ? [=<-]. exists policy. split; [done|]. by apply Hall'. }
  split.
  - apply Hids. by apply (narrows_elem _ _ _ Hn2).
  - by apply Hgr.
  - done.
  - intros f ->. unfold FilterByPredicate in He. rewrite (surjective_pairing (keep_entries _ _)) in He.
    pose proof (rebuild_kept clock tools (λ m, default false (f (publicManifest m)))) as Hk. rewrite Forall_forall in Hk. apply Hk in He.
    destruct (f (publicManifest (se_Manifest e))) as [[]|]; done.
  - apply cap_resolve_ok in Hall as (eff & digest & He1 & _ & _ & ->). apply (narrows_elem _ _ _ Hn2), (narrows_elem _ _ _ Hn1) in Heg. cbn in Heg.
    apply snapshot_entries_elem in Heg as (id & x & Hx & ->). by exists eff, id, x.
Qed.

Lemma compose_limits clock rt registry principal s capabilityScope metadata override filter emit profile opts :
  compose_with resolve_model resolve_fast clock rt registry principal s capabilityScope metadata override filter emit profile = inl opts →
  let steps := least_of (ps_MaxSteps profile) 0 (policy_cap rp_MaxSteps rt principal (s_scope s)) in
  let calls := least_of (ps_MaxToolCalls profile) override (policy_cap rp_MaxToolCalls rt principal (s_scope s)) in
  (1 ≤ steps → a_MaxSteps opts = steps) ∧ (1 ≤ calls → g_MaxToolCalls (a_guard opts) = calls).
Proof.
  unfold compose_with. destruct (coded _ (cap_resolve _ _ _ _ _)) as [all|]; [|done].
  destruct (coded _ (FilterCapabilities _ _ _)) as [sel|]; [|done]. cbv zeta.
  destruct (coded _ (narrow_by_policy _ _ _ _ _ _ _)) as [[[[tools permissions] steps] calls]|] eqn:Hpol; [|done]. apply coded_inl in Hpol.
  destruct (coded _ (resolve_model _)) as [model|]; [|done]. destruct (coded _ (match resolve_fast with _ => _ end)) as [fast|]; [|done].
  intros Hnew%coded_inl.
  assert (steps = least_of (ps_MaxSteps profile) 0 (policy_cap rp_MaxSteps rt principal (s_scope s))
    ∧ calls = least_of (ps_MaxToolCalls profile) override (policy_cap rp_MaxToolCalls rt principal (s_scope s))) as [<- <-].
  { unfold narrow_by_policy in Hpol. unfold policy_cap, least_of. destruct (r_Policy rt) as [policies|]; [|by injection Hpol as _ _ <- <-].
    apply rbind_ok in Hpol as (policy & -> & Hpol). by injection Hpol as _ _ <- <-. }
  unfold NewAgent in Hnew. cbv zeta in Hnew. rewrite !fail_if_ok in Hnew. destruct Hnew as (_ & _ & _ & _ & Hnew).
  apply rbind_ok in Hnew as (? & _ & [=<-]). cbn [a_MaxSteps with_limits agent_options g_MaxToolCalls a_guard].
  split; intros ?; by rewrite (proj2 (Z.eqb_neq _ 0)) by lia.
Qed.
End Compose.

(** ** The entry points *)

Inductive RuntimeRequest := RtRun (input : TurnInput) | RtResume (input : ResumeInput) | RtContinue (input : ResumeInput).

Definition rt_request (q : RuntimeRequest) : TurnRequest :=
  match q with RtRun i => DoRun i | RtResume i => DoResume (ri_RunID i) | RtContinue i => DoContinue (ri_RunID i) end.
Definition rt_override (q : RuntimeRequest) : Z := match q with RtRun i => MaxToolCallsOverride i | _ => 0 end.
Definition rt_filter (q : RuntimeRequest) : option (CapabilityManifest → option bool) := match q with RtRun i => CapabilityFilter i | _ => None end.
Definition rt_metadata (q : RuntimeRequest) : gmap string string :=
  match q with RtRun i => CompositionMetadata i | RtResume i | RtContinue i => ri_CompositionMetadata i end.

(** The registry and the scope the capabilities are resolved in. *)
Definition rt_surface (rc : string → option (string → bool)) (rt : Runtime) (s : Session) (q : RuntimeRequest) : CapabilityRegistry * ScopePath :=
  match q with
  | RtRun i =>
    let '(r, mounted) := mountRunCapabilities rc (RunCapabilities i) (s_scope s) (ti_Run i) (r_Capabilities rt) in
    (r, match mounted with Ok (scope, _) => if negb (Equal scope (s_scope s)) then scope else s_scope s | Err _ => s_scope s end)
  | _ => (r_Capabilities rt, s_scope s)
  end.

Section Turns.
Context {J : Type → Type} `{!ToolInvocationJournal J}.
Context (regexp_Compile : string → option (string → bool)) (parse_json : string → option json).
Context (resolve_credential : Principal → ScopePath → string → option string).
Context (resolve_model : ModelSelection → result LlmAdapter) (resolve_fast : option (AgentProfileSnapshot → result (option (list FastRule)))).

Definition rt_turn (clock : string) (rt : Runtime) (principal : Principal) (s : Session) (q : RuntimeRequest) (emit : bool) : prog (agentE J) (turn_outcome * agentState) :=
  match q with
  | RtRun i => (rt_RunTurn regexp_Compile parse_json resolve_credential resolve_model resolve_fast clock rt principal s i emit).2
  | RtResume i => rt_ResumeTurn regexp_Compile parse_json resolve_credential resolve_model resolve_fast clock rt principal s i emit
  | RtContinue i => rt_ContinueTurn regexp_Compile parse_json resolve_credential resolve_model resolve_fast clock rt principal s i emit
  end.

(** No provider and no model is called. *)
Definition inert (tr : list (event (agentE J))) : Prop := quiet tr ∧ model_calls tr = O.

Lemma inert_app t1 t2 : inert t1 → inert t2 → inert (t1 ++ t2).
Proof. intros [H1 H2] [H3 H4]. split; [by apply quiet_app|]. rewrite model_calls_app. lia. Qed.
Lemma inert_nil : inert [].
Proof. split; [apply quiet_nil|done]. Qed.

Lemma refuse_inert a e tr x : runs (refuse_turn (J := J) a e) tr x → inert tr.
Proof. unfold refuse_turn. intros [-> _]%runs_ret. apply inert_nil. Qed.

Lemma append_event_inert emit a run kind data tr x : runs (append_event (J := J) emit a run kind data) tr x → inert tr.
Proof.
  unfold append_event. intros (tr1 & tr2 & clock & -> & H1 & H2)%runs_bind. apply runs_ask in H1 as ->. apply inert_app; [by split; [apply quiet_one|]|].
  destruct (appendBatch _ _ _) as [[s' events]|]; [|apply runs_ret in H2 as [-> _]; apply inert_nil].
  destruct emit; [|apply runs_ret in H2 as [-> _]; apply inert_nil].
  apply runs_bind in H2 as (t1 & t2 & e & -> & H1 & H2). apply runs_ret in H2 as [-> _]. rewrite app_nil_r.
  split; [by eapply emit_quiet|by apply (mute_emit _ _ _ _ H1)].
Qed.

Lemma append_events_inert emit run l : ∀ a tr x, runs (append_events (J := J) emit a run l) tr x → inert tr.
Proof.
  induction l as [|[kind data] l IH]; intros a tr x H; cbn [append_events] in H; [apply runs_ret in H as [-> _]; apply inert_nil|].
  apply runs_bind in H as (t1 & t2 & [err a1] & -> & H1 & H2). apply inert_app; [by eapply append_event_inert|].
  destruct err; [apply runs_ret in H2 as [-> _]; apply inert_nil|by eapply IH].
Qed.

Lemma failure_inert emit a run metadata resume text code cause tr x :
  runs (compositionFailure (J := J) emit a run metadata resume text code cause) tr x → inert tr.
Proof.
  unfold compositionFailure. destruct (failure_events _ _ _ _ _ _) as [events|]; [|apply refuse_inert].
  intros (t1 & t2 & [err a1] & -> & H1 & H2)%runs_bind. apply inert_app; [by eapply append_events_inert|].
  destruct err; [by eapply refuse_inert|apply runs_ret in H2 as [-> _]; apply inert_nil].
Qed.

Ltac calls_nobody := let H := fresh in intros H; left; first [by eapply refuse_inert|by eapply failure_inert].
Ltac composed_turn :=
  cbn [composeAgent snd fst];
  destruct (coded _ (profile_Resolve _ _ _ _ _)) as [profile|[code e']] eqn:Hp; [|calls_nobody]; apply coded_inl in Hp;
  destruct (compose_with _ _ _ _ _ _ _ _ _ _ _ _ _) as [opts|[code e']] eqn:Hc; [|calls_nobody];
  intros H; right; exists profile, opts; eauto.

(** A turn calls nobody, or is the agent's turn with the options composed for
    it, under a principal that owns the session. *)
Lemma rt_cases clock rt principal s q emit tr o a' :
  runs (rt_turn clock rt principal s q emit) tr (o, a') →
  inert tr ∨ ∃ profile opts, owns principal s = true
    ∧ profile_Resolve clock (r_Profiles rt) principal (s_scope s) (s_profileID s) = Ok profile
    ∧ compose_with resolve_model resolve_fast clock rt (rt_surface regexp_Compile rt s q).1 principal s (rt_surface regexp_Compile rt s q).2
        (rt_metadata q) (rt_override q) (rt_filter q) emit profile = inl opts
    ∧ runs (do_turn regexp_Compile parse_json resolve_credential opts (fresh_agent s) (rt_request q)) tr (o, a').
Proof.
  assert (∀ run metadata, validateSessionRun principal s run metadata = Ok tt → owns principal s = true) as Hown.
  { intros run metadata H. apply rbind_ok in H as (? & _ & H). apply rbind_ok in H as (? & _ & H). apply fail_if_ok in H as [H _]. by apply negb_false_iff in H. }
  destruct q as [i|i|i]; cbn [rt_turn rt_request rt_override rt_filter rt_metadata].
  - unfold rt_RunTurn, rt_surface. destruct (validateSessionRun _ _ _ _) as [[]|] eqn:Hv; [|calls_nobody].
    destruct (_ || _); [calls_nobody|]. destruct (mountRunCapabilities _ _ _ _ _) as [r [[scope hs]|e]]; [|calls_nobody]. composed_turn.
  - unfold rt_ResumeTurn, composeResumeAgent. destruct (validateSessionRun _ _ _ _) as [[]|] eqn:Hv; [|calls_nobody].
    destruct (negb _); [calls_nobody|]. composed_turn.
  - unfold rt_ContinueTurn, composeResumeAgent. destruct (validateSessionRun _ _ _ _) as [[]|] eqn:Hv; [|calls_nobody].
    destruct (negb _); [calls_nobody|]. destruct (postResultContinuation _ _); [|calls_nobody]. composed_turn.
Qed.
End Turns.

(** ** Limits *)

(** The caps of a reachable policy registry are usable limits. *)
Lemma policy_caps_range r hs principal t rp :
  policy_reach (r, hs) → valid_path t → policy_Resolve r principal t = Ok rp →
  (∀ v, rp_MaxSteps rp = Some v → 1 ≤ v) ∧ (∀ v, rp_MaxToolCalls rp = Some v → 1 ≤ v).
Proof.
  intros Hr Ht Hres. assert (∀ l, l ∈ governing r t → validatePolicyLayer l = Ok tt) as Hcap.
  { intros l Hl. apply (governing_spec r t hs) in Hl as (_ & k & o & Hin); [|done..].
    apply policy_reach_inv in Hr as [_ Hv]. specialize (Hv k). rewrite Forall_forall in Hv. by apply Hv in Hin as [? _]. }
  destruct (policy_Resolve_caps _ _ _ _ Hres) as [Hs Hc].
  split; intros v Hv; [rewrite Hv in Hs; destruct Hs as [He _]|rewrite Hv in Hc; destruct Hc as [He _]];
    apply Exists_exists in He as (l & Hl & Hlv); apply Hcap, validated_caps in Hl as [H1 H2]; [by apply H1 in Hlv as []|by apply H2 in Hlv as []].
Qed.

Lemma least_of_range base override cap : 1 ≤ base → (∀ v, cap = Some v → 1 ≤ v) →
  1 ≤ least_of base override cap ≤ base ∧ (0 < override → least_of base override cap ≤ override) ∧ ∀ v, cap = Some v → least_of base override cap ≤ v.
Proof.
  intros Hb Hc. unfold least_of, narrowed. destruct (Z.ltb_spec 0 override), (Z.ltb_spec override base); cbn [andb];
    (destruct cap as [v|]; [specialize (Hc v eq_refl); case_match; bool_to_prop|]; split_and!; try lia; intros ? [=<-]; lia).
Qed.

Lemma policy_cap_range get rt principal scope :
  (∀ rp v, get rp = Some v → (∀ v, rp_MaxSteps rp = Some v → 1 ≤ v) ∧ (∀ v, rp_MaxToolCalls rp = Some v → 1 ≤ v) → 1 ≤ v) →
  (∀ policies, r_Policy rt = Some policies → ∃ hs, policy_reach (policies, hs)) → valid_path scope →
  ∀ v, policy_cap get rt principal scope = Some v → 1 ≤ v.
Proof.
  intros Hget Hpol Hs v. unfold policy_cap. destruct (r_Policy rt) as [policies|]; [|done]. destruct (Hpol _ eq_refl) as [hs Hr].
  destruct (policy_Resolve _ _ _) as [rp|] eqn:E; [|done]. intros Hv. eapply Hget; [done|]. by eapply policy_caps_range.
Qed.

(** ** Failed compositions *)

Lemma append_events_status {J : Type → Type} `{!ToolInvocationJournal J} emit run l code : ∀ a tr e a',
  Forall (λ p, p.1 ≠ EvRunEnd) l → unended run a →
  runs (append_events (J := J) emit a run (l ++ [(EvRunEnd, DRunEnd (mk_end code))])) tr (e, a') → e = None → RunStatus (ag_session a') run = (code, true).
Proof.
  induction l as [|[kind data] l IH]; intros a tr e a' Hl Hu H ->; cbn [app append_events] in H; apply runs_bind in H as (t1 & t2 & [err a1] & -> & H1 & H2).
  - unfold append_event in H1. apply runs_bind in H1 as (t3 & t4 & clock & -> & _ & H1).
    destruct (appendBatch _ _ _) as [[s' events]|] eqn:Ha; [|apply runs_ret in H1 as [_ [= -> ->]]; by apply runs_ret in H2 as [_ [=]]].
    assert (err = None ∧ a1 = set_session s' a) as [-> ->].
    { destruct emit; [apply runs_bind in H1 as (? & ? & ? & _ & _ & H1)|]; apply runs_ret in H1 as [_ [=-> ->]]; done. }
    apply runs_ret in H2 as [_ [= ->]]. by eapply append_end_status.
  - apply Forall_cons in Hl as [Hk Hl]. destruct err as [e|]; [by apply runs_ret in H2 as [_ [=]]|]. eapply (IH a1); [done| |done|done].
    unfold append_event in H1. apply runs_bind in H1 as (t3 & t4 & clock & -> & _ & H1).
    destruct (appendBatch _ _ _) as [[s' events]|] eqn:Ha; [|by apply runs_ret in H1 as [_ [=]]].
    assert (a1 = set_session s' a) as ->.
    { destruct emit; [apply runs_bind in H1 as (? & ? & ? & _ & _ & H1)|]; apply runs_ret in H1 as [_ [=->]]; done. }
    unfold unended. cbn. eapply appendBatch_unended; [done| |done]. constructor; [done|constructor].
Qed.

(** ** Properties *)

(** C3.  No turn exceeds its principal's authority.  Whichever entry point of the
    runtime starts it, every provider a turn starts - nested calls included -
    belongs to a capability that is visible in the resolved scope, selected by
    the session's profile, allowed by the principal's grants, allowed by the
    resolved policy when one is configured, and accepted by the caller's filter;
    and the principal owns the session. *)
Theorem runtime_starts_are_permitted {J : Type → Type} `{!ToolInvocationJournal J} regexp_Compile parse_json resolve_credential resolve_model resolve_fast
    clock rt principal s q emit tr o a' :
  runs (rt_turn (J := J) regexp_Compile parse_json resolve_credential resolve_model resolve_fast clock rt principal s q emit) tr (o, a') →
  ∀ ev p rq accepted remaining, ev ∈ tr → provider_start ev = Some (p, rq, accepted, remaining) →
  owns principal s = true ∧ ∃ profile m, m_ID m = rq_CapabilityID rq
    ∧ profile_Resolve clock (r_Profiles rt) principal (s_scope s) (s_profileID s) = Ok profile
    ∧ authorised clock rt (rt_surface regexp_Compile rt s q).1 principal s (rt_surface regexp_Compile rt s q).2 (rt_filter q) profile m.
Proof.
  intros H ev p rq accepted remaining [i Hi]%list_elem_of_lookup Hev. apply take_drop_middle in Hi. symmetry in Hi.
  apply rt_cases in H as [[Hq _]|(profile & opts & Hown & Hp & Hc & H)].
  - rewrite Hi in Hq. apply quiet_app in Hq as [_ Hq]. inversion Hq. congruence.
  - split; [done|]. apply turn_cases in H as [->|H]; [by apply app_cons_not_nil in Hi|].
    apply ad_gated in H. destruct (H _ _ _ _ _ _ _ Hi Hev) as (? & ? & c & _ & _ & _ & Hid & m & Hm & _).
    apply compose_authorised in Hc. rewrite Forall_forall in Hc. unfold ManifestFor, manifestInternal in Hm.
    destruct (List.find _ _) as [e|] eqn:Hf; [|done]. apply List.find_some in Hf as [He Hn]. apply bool_decide_eq_true in Hn.
    exists profile, (se_Manifest e). split; [congruence|]. split; [done|]. apply Hc. by apply list_elem_of_In.
Qed.

(** The tightest limit wins.  A turn of the runtime makes at most as many
    model calls as the profile and every policy layer allow, and starts at most
    as many providers as the profile, the policy and the caller's override allow,
    plus the calls that were logged without a result and may be resumed. *)
Theorem runtime_keeps_the_tightest_limit {J : Type → Type} `{!ToolInvocationJournal J} regexp_Compile parse_json resolve_credential resolve_model resolve_fast
    clock rt principal s q emit tr o a' :
  runs (rt_turn (J := J) regexp_Compile parse_json resolve_credential resolve_model resolve_fast clock rt principal s q emit) tr (o, a') →
  (∀ policies, r_Policy rt = Some policies → ∃ hs, policy_reach (policies, hs)) → valid_path (s_scope s) →
  ∀ profile, profile_Resolve clock (r_Profiles rt) principal (s_scope s) (s_profileID s) = Ok profile →
  (∀ limit, limit = ps_MaxSteps profile ∨ policy_cap rp_MaxSteps rt principal (s_scope s) = Some limit →
     (model_calls tr ≤ Z.to_nat (limit - first_step (fresh_agent s) (rt_request q)))%nat)
  ∧ (∀ limit, limit = ps_MaxToolCalls profile ∨ policy_cap rp_MaxToolCalls rt principal (s_scope s) = Some limit ∨ (0 < rt_override q ∧ limit = rt_override q) →
       all_starts tr ≤ Z.max 0 (limit - Z.of_nat (size (prior_calls (fresh_agent s) (rt_request q)))) + Z.of_nat (size (prior_open (fresh_agent s) (rt_request q)))).
Proof.
  intros H Hpol Hs profile Hp. apply rt_cases in H as [[Hq Hm]|(profile' & opts & _ & Hp' & Hc & H)].
  { apply quiet_starts in Hq. rewrite Hm, Hq. split; intros; lia. }
  rewrite Hp in Hp'. injection Hp' as <-. destruct (compose_limits _ _ _ _ _ _ _ _ _ _ _ _ _ _ Hc) as [Hsteps Hcalls].
  apply profile_within_limits in Hp as (_ & Hr1 & Hr2 & _).
  pose proof (policy_cap_range rp_MaxSteps rt principal (s_scope s) ltac:(by intros rp v Hv [? _]; auto) Hpol Hs) as Hc1.
  pose proof (policy_cap_range rp_MaxToolCalls rt principal (s_scope s) ltac:(by intros rp v Hv [_ ?]; auto) Hpol Hs) as Hc2.
  destruct (least_of_range (ps_MaxSteps profile) 0 _ (proj1 Hr1) Hc1) as (Hl1 & _ & Hl2).
  destruct (least_of_range (ps_MaxToolCalls profile) (rt_override q) _ (proj1 Hr2) Hc2) as (Hk1 & Hk2 & Hk3).
  pose proof (turn_starts _ _ _ _ _ _ _ _ _ H) as Hst. apply turn_good in H as [[Hmc _] _]. rewrite Hsteps in Hmc by lia. rewrite Hcalls in Hst by lia. split.
  - intros limit [->|Hlim]; [|apply Hl2 in Hlim]; lia.
  - intros limit [->|[Hlim|[? ->]]]; [|apply Hk3 in Hlim|]; lia.
Qed.

(** C28.  Bindings of one run leave no trace.  Whatever a turn mounts for itself -
    and whether the mounts, the composition and the turn succeed or not - the
    capability registry afterwards resolves every scope for every principal
    exactly as before. *)
Theorem run_capabilities_leave_no_trace {J : Type → Type} `{!ToolInvocationJournal J} regexp_Compile parse_json resolve_credential resolve_model resolve_fast
    clock rt principal s input emit hs :
  cap_reach regexp_Compile (r_Capabilities rt, hs) → reg_next (r_Capabilities rt) + Z.of_nat (length (RunCapabilities input)) < 2 ^ 64 - 1 →
  ∀ clock' principal' target perms,
  cap_resolve clock' (rt_RunTurn (J := J) regexp_Compile parse_json resolve_credential resolve_model resolve_fast clock rt principal s input emit).1 principal' target perms
  = cap_resolve clock' (r_Capabilities rt) principal' target perms.
Proof.
  intros [Hi _]%cap_reach_inv Hn clock' principal' target perms. apply cap_resolve_at. intros k. unfold rt_RunTurn.
  destruct (validateSessionRun _ _ _ _); [|done]. destruct (_ || _); [done|].
  pose proof (mount_run_released regexp_Compile (RunCapabilities input) (s_scope s) (ti_Run input) _ Hi Hn) as Hm.
  destruct (mountRunCapabilities _ _ _ _ _) as [r [[scope hs']|e]]; cbn; apply Hm.
Qed.

(** A composition that fails is a failed run.  When composing a new or a
    resumed turn fails and the failure can be recorded, the caller gets a failed
    run with the cause, the log says the run failed, and neither a provider nor
    a model was called. *)
Theorem failed_composition_is_recorded {J : Type → Type} `{!ToolInvocationJournal J} emit a runID metadata resume text code cause tr r err a' :
  runs (compositionFailure (J := J) emit a runID metadata resume text code cause) tr ((r, err), a') →
  ended (entry_at (s_runIndex (ag_session a)) runID) = false →
  all_starts tr = 0 ∧ model_calls tr = O
  ∧ (r = no_result ∨ (r = mk_turn runID RunFailed "" ∧ err = Some (Failure cause false) ∧ RunStatus (ag_session a') runID = (RunFailed, true))).
Proof.
  intros H Hu. pose proof (failure_inert _ _ _ _ _ _ _ _ _ _ H) as [Hq Hm]. split; [by apply quiet_starts|]. split; [done|].
  unfold compositionFailure in H. destruct (failure_events _ _ _ _ _ _) as [events|] eqn:He; [|apply runs_ret in H as [_ [= -> _ _]]; by left].
  apply runs_bind in H as (t1 & t2 & [e a1] & -> & H1 & H2). destruct e as [e|]; [apply runs_ret in H2 as [_ [= -> _ _]]; by left|].
  apply runs_ret in H2 as [_ [= -> -> ->]]. right. split; [done|]. split; [done|].
  unfold failure_events in He. apply rbind_ok in He as (c & _ & He). apply rbind_ok in He as (rev & _ & He). apply rbind_ok in He as (asg & _ & He).
  cbv zeta in He. injection He as <-. remember (NewRuntimeErrorData _ _ _) as d eqn:Ed. remember (mk_start _ _ _ _ _) as start eqn:Es. clear Ed Es.
  destruct resume.
  - apply (append_events_status emit runID [(EvRunResume, DRunResume start); (EvRunError, DRuntimeError d)] RunFailed a t1 None a1); [|done..].
    repeat constructor; discriminate.
  - apply (append_events_status emit runID [(EvRunStart, DRunStart start); (EvUserMessage, DUserMessage (mk_user text)); (EvRunError, DRuntimeError d)] RunFailed a t1 None a1); [|done..].
    repeat constructor; discriminate.
Qed.

(** ** Witnesses *)

Definition ex_rt_scope : ScopePath := mk_path [mk_ref ScopeTenant "acme"; mk_ref ScopeSession "s1"].
Definition ex_rt_session : Session := mk_session "s1" "base" ex_principal ex_rt_scope ∅ [] ∅ ∅ 0 0 0 0 [] true.
Definition ex_adapter : LlmAdapter := mk_adapter (Some "acme") None None.
Definition ex_runtime : Runtime :=
  mk_runtime ex_cap_registry ex_profiles (Some ex_registry) true ImmediateApprover true true true NoCompactor false false true.

(** The profile also selects [data.write], which this run brings along; the
    policy denies the permission it requires. *)
Definition ex_run_binding : CapabilityBinding :=
  mk_binding ex_tenant BindingProvide
    (mk_manifest "data.write" "1.0.0" "Write" "" "tool" "" ["data.write"] [] ∅ ∅ 0 0 0 true false (Some (mk_tool "write a record" None)) None ∅)
    (Some ex_provider) false.
Definition ex_rt_input : TurnInput := mk_turn_input "r9" "look it up" 3 [ex_run_binding] None ∅.

Definition ex_rt_turn : prog (agentE sqlE) (turn_outcome * agentState) :=
  @rt_turn sqlE (SQLToolInvocationJournal 0) no_regexp (λ _, None) (λ _ _ _, None) (λ _, Ok ex_adapter) None ex_now ex_runtime ex_principal ex_rt_session (RtRun ex_rt_input) true.
Definition ex_rt_run := drive ex_env ex_rt_turn ∅.

Lemma ex_rt_runs : runs ex_rt_turn ex_rt_run.2 (ex_rt_run.1.1.1, ex_rt_run.1.1.2).
Proof. rewrite <- surjective_pairing. exact (drive_trace ex_env ex_rt_turn ∅). Qed.

Definition is_start (ev : event (agentE sqlE)) : bool := match provider_start ev with Some _ => true | None => false end.
Lemma start_elem tr : existsb is_start tr = true → ∃ ev p rq accepted remaining, ev ∈ tr ∧ provider_start ev = Some (p, rq, accepted, remaining).
Proof.
  intros (ev & Hin & Hs)%existsb_exists. unfold is_start in Hs. destruct (provider_start ev) as [[[[p rq] accepted] remaining]|] eqn:E; [|done].
  exists ev, p, rq, accepted, remaining. split; [by apply list_elem_of_In|done].
Qed.
Lemma ex_rt_start : existsb is_start ex_rt_run.2 = true.
Proof. vm_compute. reflexivity. Qed.

Lemma runtime_starts_are_permitted_witness :
  all_starts ex_rt_run.2 = 1
  ∧ ∃ ev p rq accepted remaining m, ev ∈ ex_rt_run.2 ∧ provider_start ev = Some (p, rq, accepted, remaining)
    ∧ m_ID m = rq_CapabilityID rq ∧ Allows (Grants ex_principal) (RequiredPermissions m) = true.
Proof.
  split; [vm_compute; reflexivity|]. destruct (start_elem _ ex_rt_start) as (ev & p & rq & accepted & remaining & Ev & E).
  destruct (@runtime_starts_are_permitted sqlE (SQLToolInvocationJournal 0) no_regexp (λ _, None) (λ _ _ _, None) (λ _, Ok ex_adapter) None ex_now ex_runtime ex_principal
    ex_rt_session (RtRun ex_rt_input) true _ _ _ ex_rt_runs ev p rq accepted remaining Ev E) as (_ & profile & m & Hid & _ & [_ Hg _ _ _]).
  exists ev, p, rq, accepted, remaining, m. split; [exact Ev|]. split; [exact E|]. split; [exact Hid|exact Hg].
Defined.

Definition ex_rt_profile : AgentProfileSnapshot :=
  match profile_Resolve ex_now ex_profiles ex_principal ex_rt_scope "base" with Ok p => p | Err _ => zero_profile end.

Lemma ex_rt_scope_valid : valid_path ex_rt_scope.
Proof. apply (NewScopePath_ok [mk_ref ScopeTenant "acme"; mk_ref ScopeSession "s1"]). vm_compute. reflexivity. Qed.

Lemma runtime_keeps_the_tightest_limit_witness :
  ps_MaxSteps ex_rt_profile = 20 ∧ ps_MaxToolCalls ex_rt_profile = 16 ∧ (model_calls ex_rt_run.2 ≤ 5)%nat ∧ all_starts ex_rt_run.2 ≤ 3.
Proof.
  split; [vm_compute; reflexivity|]. split; [vm_compute; reflexivity|].
  destruct (@runtime_keeps_the_tightest_limit sqlE (SQLToolInvocationJournal 0) no_regexp (λ _, None) (λ _ _ _, None) (λ _, Ok ex_adapter) None ex_now ex_runtime ex_principal
    ex_rt_session (RtRun ex_rt_input) true _ _ _ ex_rt_runs) with (profile := ex_rt_profile) as [H1 H2].
  - intros policies Hp. injection Hp as <-. exists [ex_handle]. apply ex_reach.
  - apply ex_rt_scope_valid.
  - vm_compute. reflexivity.
  - split; [apply (H1 5); right; vm_compute; reflexivity|]. apply (H2 3). right. right. split; reflexivity.
Defined.

Lemma run_capabilities_leave_no_trace_witness :
  is_ok (cap_resolve ex_now (rt_surface no_regexp ex_runtime ex_rt_session (RtRun ex_rt_input)).1 ex_principal
           (rt_surface no_regexp ex_runtime ex_rt_session (RtRun ex_rt_input)).2 true) = true
  ∧ cap_resolve ex_now (@rt_RunTurn sqlE (SQLToolInvocationJournal 0) no_regexp (λ _, None) (λ _ _ _, None) (λ _, Ok ex_adapter) None ex_now ex_runtime ex_principal
      ex_rt_session ex_rt_input true).1 ex_principal ex_rt_scope true
    = cap_resolve ex_now ex_cap_registry ex_principal ex_rt_scope true.
Proof.
  split; [vm_compute; reflexivity|]. exact (@run_capabilities_leave_no_trace sqlE (SQLToolInvocationJournal 0) no_regexp (λ _, None) (λ _ _ _, None) (λ _, Ok ex_adapter) None
    ex_now ex_runtime ex_principal ex_rt_session ex_rt_input true [ex_handle] ex_cap_reach eq_refl ex_now ex_principal ex_rt_scope true).
Defined.

Definition ex_failed : prog (agentE sqlE) (turn_outcome * agentState) :=
  @compositionFailure sqlE true (fresh_agent ex_rt_session) "r9" ∅ false "look it up" "model_resolution_failed" "no such model".
Definition ex_failed_run := drive ex_env ex_failed ∅.

Lemma failed_composition_is_recorded_witness :
  ex_failed_run.1.1.1.1 = mk_turn "r9" RunFailed "" ∧ RunStatus (ag_session ex_failed_run.1.1.2) "r9" = (RunFailed, true).
Proof.
  assert (ex_failed_run.1.1.1.1 = mk_turn "r9" RunFailed "") as E by (vm_compute; reflexivity). split; [exact E|].
  destruct (@failed_composition_is_recorded sqlE (SQLToolInvocationJournal 0) true (fresh_agent ex_rt_session) "r9" ∅ false "look it up" "model_resolution_failed" "no such model"
    ex_failed_run.2 ex_failed_run.1.1.1.1 ex_failed_run.1.1.1.2 ex_failed_run.1.1.2) as (_ & _ & [H|(_ & _ & H)]);
    [rewrite <- !surjective_pairing; exact (drive_trace ex_env ex_failed ∅)|vm_compute; reflexivity|rewrite E in H; discriminate H|exact H].
Defined.
