(* ===== verification/ControlDb.v ===== *)
(** * The durable control plane: its database

    The tables of [src/pkg/storage/sql_schema.go] that run control, approvals,
    session leases and the session log share, and the statements on them.

    A time is in nanoseconds since the epoch, a column in milliseconds, as
    [UnixMilli] gives it.  A statement that would violate a primary key or a
    unique index fails with [ErrDuplicate] and changes nothing.  A transaction is
    a function of the database that gives its answer and the database it commits;
    an early return gives back the database it began with (the deferred
    [Rollback]).  Writers are serialised: SQLite has one writer, and on PostgreSQL
    the rows that a transaction decides on are locked in one order; [skip] is the
    set of runs whose rows another transaction holds (SKIP LOCKED), empty on
    SQLite. *)
From S2P Require Import Prelude GoString Json Sha256 Payload SessionStore.
From stdpp Require Import gmap strings list sorting.
From Stdlib Require Import ZArith Lia.
Open Scope Z_scope.

(** ** Times *)

Notation Time := Z (only parsing).
Definition millisecond : Z := 10 ^ 6.
Definition UnixMilli (t : Time) : Z := t / millisecond.
Definition of_milli (ms : Z) : Time := ms * millisecond.
Definition zeroTime : Time := -62135596800 * 10 ^ 9.
Definition IsZero (t : Time) : bool := t =? zeroTime.

(** ** Rows *)

Record runRow := mk_run_row {
  rr_session : string; rr_tenant : string; rr_subject : string; rr_status : string; rr_cancel : bool; rr_error : string;
  rr_created : Z; rr_updated : Z; rr_completed : Z }.

Record queueRow := mk_queue_row {
  qr_message : string; qr_available : Z; qr_worker : string; qr_lease : Z; qr_attempt : Z; qr_max : Z; qr_generation : Z;
  qr_parent : string; qr_state : string }.

Record submissionRow := mk_submission { sb_digest : string; sb_run : string; sb_created : Z }.

Record approvalRow := mk_approval_row {
  ap_tenant : string; ap_subject : string; ap_session : string; ap_run : string; ap_call : string; ap_capability : string;
  ap_args : string; ap_manifest : string; ap_request : json; ap_status : string;
  ap_requested : Z; ap_expires : Z; ap_decided : Z; ap_by : string }.

Record linkRow := mk_link {
  lk_ParentSessionID : string; lk_ParentRunID : string; lk_ParentCallID : string; lk_ChildRunID : string;
  lk_TenantID : string; lk_SubjectID : string; lk_Depth : Z }.

Record leaseRow := mk_lease { ls_holder : string; ls_expires : Z }.

Record sessionRow := mk_session_row {
  sn_version : Z; sn_tenant : string; sn_user : string; sn_profile : string; sn_count : Z; sn_header : json; sn_updated : Z }.

Record evidenceRow := mk_evidence_row {
  er_kind : string; er_tenant : string; er_subject : string; er_profile : string; er_composition : string; er_assignment : string;
  er_variant : string; er_status : string; er_created : Z }.

(** The tables by primary key; an event chunk is its JSON lines. *)
Record Db := mk_db {
  db_runs : gmap string runRow; db_queue : gmap string queueRow;
  db_submissions : gmap (string * string * string * string) submissionRow;
  db_approvals : gmap string approvalRow; db_links : gmap string linkRow; db_leases : gmap string leaseRow;
  db_sessions : gmap string sessionRow; db_chunks : gmap (string * Z) (list json);
  db_evidence : gmap (string * string * Z) evidenceRow }.

Definition empty_db : Db := mk_db ∅ ∅ ∅ ∅ ∅ ∅ ∅ ∅ ∅.

Definition set_runs (x : gmap string runRow) (d : Db) : Db :=
  mk_db x (db_queue d) (db_submissions d) (db_approvals d) (db_links d) (db_leases d) (db_sessions d) (db_chunks d) (db_evidence d).
Definition set_queue (x : gmap string queueRow) (d : Db) : Db :=
  mk_db (db_runs d) x (db_submissions d) (db_approvals d) (db_links d) (db_leases d) (db_sessions d) (db_chunks d) (db_evidence d).
Definition set_submissions (x : gmap (string * string * string * string) submissionRow) (d : Db) : Db :=
  mk_db (db_runs d) (db_queue d) x (db_approvals d) (db_links d) (db_leases d) (db_sessions d) (db_chunks d) (db_evidence d).
Definition set_approvals (x : gmap string approvalRow) (d : Db) : Db :=
  mk_db (db_runs d) (db_queue d) (db_submissions d) x (db_links d) (db_leases d) (db_sessions d) (db_chunks d) (db_evidence d).
Definition set_leases (x : gmap string leaseRow) (d : Db) : Db :=
  mk_db (db_runs d) (db_queue d) (db_submissions d) (db_approvals d) (db_links d) x (db_sessions d) (db_chunks d) (db_evidence d).
Definition set_sessions (x : gmap string sessionRow) (d : Db) : Db :=
  mk_db (db_runs d) (db_queue d) (db_submissions d) (db_approvals d) (db_links d) (db_leases d) x (db_chunks d) (db_evidence d).
Definition set_chunks (x : gmap (string * Z) (list json)) (d : Db) : Db :=
  mk_db (db_runs d) (db_queue d) (db_submissions d) (db_approvals d) (db_links d) (db_leases d) (db_sessions d) x (db_evidence d).
Definition set_evidence (x : gmap (string * string * Z) evidenceRow) (d : Db) : Db :=
  mk_db (db_runs d) (db_queue d) (db_submissions d) (db_approvals d) (db_links d) (db_leases d) (db_sessions d) (db_chunks d) x.

(** ** Statuses *)

Definition RunStatusQueued := "queued".
Definition RunStatusRunning := "running".
Definition RunStatusWaitingApproval := "waiting_approval".

Definition is_running (r : runRow) : bool := bool_decide (rr_status r = RunStatusRunning).
Definition is_queued (r : runRow) : bool := bool_decide (rr_status r = RunStatusQueued).
Definition is_waiting (r : runRow) : bool := bool_decide (rr_status r = RunStatusWaitingApproval).

(** [status IN ('running', 'waiting_approval')] *)
Definition is_active (r : runRow) : bool := is_running r || is_waiting r.
(** [status IN ('queued', 'running', 'waiting_approval')] *)
Definition in_flight (r : runRow) : bool := is_queued r || is_active r.

(** ** Statements *)

Definition ErrDuplicate := "UNIQUE constraint failed".

Definition isDuplicateConstraint (e : string) : bool := bool_decide (e = ErrDuplicate).
Definition duplicateAsConflict (e : string) : string := if isDuplicateConstraint e then ErrSessionConflict else e.

(** Another run of the session is active: the index [run_control_one_active]. *)
Definition other_active (id session : string) (d : Db) : bool :=
  existsb (λ kv, negb (bool_decide (kv.1 = id)) && bool_decide (rr_session kv.2 = session) && is_active kv.2) (map_to_list (db_runs d)).

Definition write_run (id : string) (r : runRow) (d : Db) : result Db :=
  fail_when is_active r && other_active id (rr_session r) d with ErrDuplicate ;; Ok (set_runs (<[id := r]> (db_runs d)) d).

Definition insert_run (id : string) (r : runRow) (d : Db) : result Db :=
  match db_runs d !! id with Some _ => Err ErrDuplicate | None => write_run id r d end.

(** UPDATE run_control ... WHERE run_id = id AND guard: whether a row matched. *)
Definition update_run (id : string) (guard : runRow → bool) (f : runRow → runRow) (d : Db) : result (bool * Db) :=
  match db_runs d !! id with
  | Some r => if guard r then (let! d := write_run id (f r) d in Ok (true, d)) else Ok (false, d)
  | None => Ok (false, d)
  end.

Definition insert_queue (id : string) (q : queueRow) (d : Db) : result Db :=
  match db_queue d !! id with Some _ => Err ErrDuplicate | None => Ok (set_queue (<[id := q]> (db_queue d)) d) end.

Definition update_queue (id : string) (guard : queueRow → bool) (f : queueRow → queueRow) (d : Db) : bool * Db :=
  match db_queue d !! id with
  | Some q => if guard q then (true, set_queue (<[id := f q]> (db_queue d)) d) else (false, d)
  | None => (false, d)
  end.

Definition delete_queue (id : string) (d : Db) : Db := set_queue (delete id (db_queue d)) d.

(** [worker_id = ? AND generation = ? AND lease_expires_at > ?] *)
Definition held (worker : string) (generation now : Z) (q : queueRow) : bool :=
  bool_decide (qr_worker q = worker) && (qr_generation q =? generation) && (now <? qr_lease q).

(** EXISTS (SELECT 1 FROM run_queue ... ) with those conditions. *)
Definition claim_held (id worker : string) (generation now : Z) (d : Db) : bool :=
  match db_queue d !! id with Some q => held worker generation now q | None => false end.

(** The first error ends a transaction, which rolls back to [d]. *)
Notation "'sql!' x ':=' c 'or' d 'in' k" := (match c with Ok x => k | Err e => (Err e, d) end)
  (at level 10, x pattern, c at level 100, d at level 0, k at level 200) : go_scope.
Notation "'check!' b 'else' r 'in' k" := (if (b : bool) then k else r)
  (at level 10, b at level 100, r at level 100, k at level 200) : go_scope.

(** ** Lemmas *)

(** The unique index, as a property of the table. *)
Definition one_active (d : Db) : Prop :=
  ∀ i j r s, db_runs d !! i = Some r → db_runs d !! j = Some s → is_active r = true → is_active s = true → rr_session r = rr_session s → i = j.

Lemma other_active_spec id session d :
  other_active id session d = true ↔ ∃ j s, db_runs d !! j = Some s ∧ j ≠ id ∧ rr_session s = session ∧ is_active s = true.
Proof.
  unfold other_active. rewrite existsb_exists. split.
  - intros ([j s] & Hin & H). apply list_elem_of_In, elem_of_map_to_list in Hin. bool_to_prop. exists j, s. naive_solver.
  - intros (j & s & Hj & Hne & Hs & Ha). exists (j, s). split; [by apply list_elem_of_In, elem_of_map_to_list|]. cbn.
    rewrite bool_decide_eq_false_2, bool_decide_eq_true_2 by done. by rewrite Ha.
Qed.

Lemma write_run_ok id r d d' :
  write_run id r d = Ok d' ↔ (is_active r = true → other_active id (rr_session r) d = false) ∧ d' = set_runs (<[id := r]> (db_runs d)) d.
Proof.
  unfold write_run. rewrite fail_if_ok. destruct (is_active r), (other_active id (rr_session r) d); cbn; split; naive_solver.
Qed.

Lemma write_run_one_active id r d d' : one_active d → write_run id r d = Ok d' → one_active d'.
Proof.
  intros Hone [Hidx ->]%write_run_ok i j a b. cbn. rewrite !lookup_insert_Some.
  intros [[<- <-]|[Hi Ha]] [[<- <-]|[Hj Hb]] Haa Hbb Hs; try done.
  - specialize (Hidx Haa). assert (other_active id (rr_session r) d = true) as E; [|congruence]. apply other_active_spec. by exists j, b.
  - specialize (Hidx Hbb). assert (other_active id (rr_session r) d = true) as E; [|congruence]. apply other_active_spec. by exists i, a.
  - by eapply Hone.
Qed.

Lemma update_run_ok id guard f d b d' :
  update_run id guard f d = Ok (b, d') →
  (b = false ∧ d' = d) ∨ (b = true ∧ ∃ r, db_runs d !! id = Some r ∧ guard r = true ∧ write_run id (f r) d = Ok d').
Proof.
  unfold update_run. destruct (db_runs d !! id) as [r|]; [|intros [=<- <-]; by left]. destruct (guard r) eqn:Hg; [|intros [=<- <-]; by left].
  intros H. apply rbind_ok in H as (d1 & Hw & [=<- <-]). right. split; [done|]. by exists r.
Qed.

Lemma update_queue_cases id guard f d b d' :
  update_queue id guard f d = (b, d') →
  (b = false ∧ d' = d) ∨ (b = true ∧ ∃ q, db_queue d !! id = Some q ∧ guard q = true ∧ d' = set_queue (<[id := f q]> (db_queue d)) d).
Proof.
  unfold update_queue. destruct (db_queue d !! id) as [q|]; [|intros [=<- <-]; by left]. destruct (guard q) eqn:Hg; intros [=<- <-]; [right|by left].
  split; [done|]. by exists q.
Qed.
