(* ===== verification/RunControl.v ===== *)
(** * Run control and the run queue: [src/pkg/storage/run_control.go]

    [run_control] is the durable status of every run, [run_queue] the task of a
    run that workers execute.  A worker claims a queued run for a lease; every
    claim advances the run's generation, and renewing, retrying, pausing or
    finishing a claim names the worker and the generation it was given.  An
    expired claim is put back into the queue or failed by [RecoverExpired].

    Each operation is the body of its transaction, with the answer of
    [time.Now] as [now].  [ClaimRun] is the loop of up to three transactions. *)
From S2P Require Import Prelude Prog GoString Json Sha256 Payload Events SessionStore ControlDb.
From stdpp Require Import gmap strings list sorting.
From Stdlib Require Import ZArith Lia.
Open Scope Z_scope.

Definition DefaultRunMaxAttempts : Z := 3.
Definition HardRunMaxAttempts : Z := 10.
Definition MaxQueuedMessageBytes : Z := 2 ^ 20.
Definition MaxInFlightRuns : Z := 1024.
Definition MaxRunSubmissions : Z := 8192.

Definition ErrRunNotFound := "run not found".
Definition ErrRunSubmissionConflict := "run submission idempotency conflict".
Definition ErrInvalidRunSubmission := "invalid run submission idempotency".

(** ** Records *)

Record RunRecord := mk_run_record {
  rn_RunID : string; rn_SessionID : string; rn_TenantID : string; rn_SubjectID : string; rn_Status : string; rn_CancelRequested : bool;
  rn_ErrorCode : string; rn_CreatedAt : Time; rn_UpdatedAt : Time; rn_CompletedAt : Time }.

Record TelemetryTraceContext := mk_trace { TraceParent : string; TraceState : string }.

Record QueuedRun := mk_queued_run {
  qd_run : RunRecord; qd_Message : string; qd_AvailableAt : Time; qd_WorkerID : string; qd_LeaseExpiresAt : Time; qd_Attempt : Z;
  qd_MaxAttempts : Z; qd_Generation : Z; qd_Trace : TelemetryTraceContext }.

Inductive SQLDialect := SQLDialectSQLite | SQLDialectPostgres.

#[export] Instance SQLDialect_eq_dec : EqDecision SQLDialect.
Proof. solve_decision. Defined.

Record SQLRunControlStore := mk_control_store { st_dialect : SQLDialect; maxInFlight : Z; maxSubmissions : Z }.

Definition inFlightCap (s : SQLRunControlStore) : Z := if 0 <? maxInFlight s then maxInFlight s else MaxInFlightRuns.
Definition submissionCap (s : SQLRunControlStore) : Z := if 0 <? maxSubmissions s then maxSubmissions s else MaxRunSubmissions.

Definition in_flight_runs (d : Db) : gmap string runRow := filter (λ kv, in_flight kv.2 = true) (db_runs d).

(** The count of runs in flight in the transaction that goes on to insert.  [seen] is the
    database the statement sees.  On SQLite, where writing transactions are
    serialised, it is the one the insert goes to; on PostgreSQL, which runs
    these transactions as READ COMMITTED and locks nothing for a count, other
    transactions may commit between the count and the insert. *)
Definition ensureInFlightCapacity (s : SQLRunControlStore) (seen : Db) : result unit :=
  fail_when inFlightCap s <=? Z.of_nat (size (in_flight_runs seen)) with "in-flight runs exceed maximum" ;; Ok tt.

(** A column read back as a time: 0 is the zero time. *)
Definition time_column (ms : Z) : Time := if 0 <? ms then of_milli ms else zeroTime.

Definition scanRun (id : string) (r : runRow) : RunRecord :=
  mk_run_record id (rr_session r) (rr_tenant r) (rr_subject r) (rr_status r) (rr_cancel r) (rr_error r)
    (of_milli (rr_created r)) (of_milli (rr_updated r)) (time_column (rr_completed r)).

Definition scanQueuedRun (id : string) (r : runRow) (q : queueRow) : QueuedRun :=
  mk_queued_run (scanRun id r) (qr_message q) (of_milli (qr_available q)) (qr_worker q) (time_column (qr_lease q))
    (qr_attempt q) (qr_max q) (qr_generation q) (mk_trace (qr_parent q) (qr_state q)).

Definition get_run (id : string) (d : Db) : result RunRecord :=
  match db_runs d !! id with Some r => Ok (scanRun id r) | None => Err ErrRunNotFound end.

(** ** Validation *)

(** [unicode.IsControl] *)
Definition is_control (r : N) : bool := in_range 0 0x1F r || in_range 0x7F 0x9F r.
Definition containsASCIIControl (value : string) : bool := existsb is_control (runes value).

(** [validateSQLTextFilter] of [sql_text_filter.go] *)
Definition maxSQLTextFilterRunes : Z := 128.

Definition validateSQLTextFilter (value : string) : result unit :=
  if is_empty value then Ok tt
  else
    fail_when existsb (λ r, (r =? 0)%N) (runes value) with "contains NUL" ;;
    fail_when existsb is_control (runes value) with "contains a control character" ;;
    fail_when maxSQLTextFilterRunes <? Z.of_nat (length (runes value)) with "exceeds 128 runes" ;; Ok tt.

Definition validateTraceContext (t : TelemetryTraceContext) : result unit :=
  fail_when (256 <? str_len (TraceParent t)) || (512 <? str_len (TraceState t)) || containsASCIIControl (TraceParent t) || containsASCIIControl (TraceState t)
    with "durable trace context is too large or contains control characters" ;; Ok tt.

Definition validateRunRecord (r : RunRecord) : result unit :=
  let! _ := ValidateRunID (rn_RunID r) in
  let! _ := ValidateSessionID (rn_SessionID r) in
  fail_when is_empty (rn_TenantID r) || is_empty (rn_SubjectID r) with "run record ownership is incomplete" ;;
  fail_when negb (is_empty (rn_Status r)) && negb (bool_decide (rn_Status r = RunStatusRunning)) with "new run status must be running" ;; Ok tt.

Definition validateQueuedRun (q : QueuedRun) : result unit :=
  let r := qd_run q in
  let! _ := ValidateRunID (rn_RunID r) in
  let! _ := ValidateSessionID (rn_SessionID r) in
  fail_when is_empty (rn_TenantID r) || is_empty (rn_SubjectID r) with "queued run ownership is incomplete" ;;
  fail_when blank (qd_Message q) with "queued run message is empty" ;;
  fail_when MaxQueuedMessageBytes <? str_len (qd_Message q) with "queued run message exceeds 1048576 bytes" ;;
  fail_when negb (is_empty (rn_Status r)) && negb (bool_decide (rn_Status r = RunStatusQueued)) with "queued run status must be queued" ;;
  fail_when (qd_MaxAttempts q <? 0) || (HardRunMaxAttempts <? qd_MaxAttempts q) with "queued run max attempts must be between 0 and 10" ;;
  validateTraceContext (qd_Trace q).

Definition validateWorkerID (workerID : string) : result unit :=
  let workerID := trim_space workerID in
  fail_when is_empty workerID || (256 <? str_len workerID) || contains_crlf_nul workerID
    with "worker id is empty, too long, or contains control characters" ;; Ok tt.

Definition validateRunSubmission (idempotencyKey requestDigest : string) : result unit :=
  fail_when (str_len idempotencyKey <? 1) || (256 <? str_len idempotencyKey) || blank idempotencyKey || containsASCIIControl idempotencyKey
    with ErrInvalidRunSubmission ;;
  fail_when negb (str_len requestDigest =? 64) with ErrInvalidRunSubmission ;;
  fail_when negb (hex_decodable requestDigest) || existsb (λ c, in_range 65 90 (byte_val c)) (bytes requestDigest)
    with ErrInvalidRunSubmission ;; Ok tt.

Definition validateClaimMutation (runID workerID : string) (generation : Z) : result unit :=
  let! _ := ValidateRunID runID in
  let! _ := validateWorkerID workerID in
  fail_when generation <? 1 with "run claim generation must be positive" ;; Ok tt.

Definition validateTerminalRunStatus (status : string) : result unit :=
  fail_when negb (bool_decide (status ∈ [RunCompleted; RunLimited; RunFailed; RunCancelled])) with "invalid terminal run status" ;; Ok tt.

Definition boundedRunErrorCode (code : string) : string := String.substring 0 128 code.

(** ** Creating runs *)

Definition CreateRun (s : SQLRunControlStore) (seen : Db) (record : RunRecord) (now : Time) (d : Db) : result unit * Db :=
  sql! _ := validateRunRecord record or d in
  let now := if IsZero (rn_CreatedAt record) then now else rn_CreatedAt record in
  match ensureInFlightCapacity s seen with
  | Err e => (match get_run (rn_RunID record) d with Ok _ => Err ErrSessionConflict | Err _ => Err e end, d)
  | Ok _ =>
    match insert_run (rn_RunID record)
            (mk_run_row (rn_SessionID record) (rn_TenantID record) (rn_SubjectID record) RunStatusRunning false "" (UnixMilli now) (UnixMilli now) 0) d with
    | Err e => (Err (duplicateAsConflict e), d)
    | Ok d' => (Ok tt, d')
    end
  end.

(** The two inserts of an enqueued run. *)
Definition insert_queued (run : QueuedRun) (now : Time) (d : Db) : result Db :=
  let available := if IsZero (qd_AvailableAt run) then now else qd_AvailableAt run in
  let maxAttempts := if qd_MaxAttempts run =? 0 then DefaultRunMaxAttempts else qd_MaxAttempts run in
  let r := qd_run run in
  let! d := insert_run (rn_RunID r)
              (mk_run_row (rn_SessionID r) (rn_TenantID r) (rn_SubjectID r) RunStatusQueued false "" (UnixMilli now) (UnixMilli now) 0) d in
  insert_queue (rn_RunID r)
    (mk_queue_row (qd_Message run) (UnixMilli available) "" 0 0 maxAttempts 0 (TraceParent (qd_Trace run)) (TraceState (qd_Trace run))) d.

Definition EnqueueRun (s : SQLRunControlStore) (seen : Db) (run : QueuedRun) (now : Time) (d : Db) : result unit * Db :=
  sql! _ := validateQueuedRun run or d in
  let now := if IsZero (rn_CreatedAt (qd_run run)) then now else rn_CreatedAt (qd_run run) in
  sql! _ := ensureInFlightCapacity s seen or d in
  match insert_queued run now d with
  | Err e => (Err (duplicateAsConflict e), d)
  | Ok d' => (Ok tt, d')
  end.

(** [EXISTS (SELECT 1 FROM run_submissions LIMIT 1 OFFSET threshold)] *)
Definition submissionCapReached (s : SQLRunControlStore) (d : Db) : bool :=
  Z.max 0 (submissionCap s - 1) <? Z.of_nat (size (db_submissions d)).

(** INSERT ... ON CONFLICT DO NOTHING, with [run_id] unique. *)
Definition insert_submission (key : string * string * string * string) (row : submissionRow) (d : Db) : bool * Db :=
  match db_submissions d !! key with
  | Some _ => (false, d)
  | None =>
    if existsb (λ kv, bool_decide (sb_run kv.2 = sb_run row)) (map_to_list (db_submissions d)) then (false, d)
    else (true, set_submissions (<[key := row]> (db_submissions d)) d)
  end.

(** The answer for a key that is already bound. *)
Definition replay_submission (key : string * string * string * string) (requestDigest missing : string) (d : Db) : result (RunRecord * bool) :=
  match db_submissions d !! key with
  | None => Err missing
  | Some row =>
    fail_when negb (bool_decide (sb_digest row = requestDigest)) with ErrRunSubmissionConflict ;;
    let! record := get_run (sb_run row) d in Ok (record, false)
  end.

Definition hashIdempotencyKey (key : string) : string := sha256_hex key.
Definition RunMessageDigest (message : string) : string := sha256_hex ("harness.run.async/v1" +:+ String (Ascii.ascii_of_nat 0) message).

Definition submission_key (run : QueuedRun) (idempotencyKey : string) : string * string * string * string :=
  (rn_TenantID (qd_run run), rn_SubjectID (qd_run run), rn_SessionID (qd_run run), hashIdempotencyKey idempotencyKey).

Definition EnqueueRunOnce (s : SQLRunControlStore) (seen : Db) (run : QueuedRun) (idempotencyKey requestDigest : string) (now : Time) (d : Db) :
    result (RunRecord * bool) * Db :=
  sql! _ := validateQueuedRun run or d in
  sql! _ := validateRunSubmission idempotencyKey requestDigest or d in
  let r := qd_run run in
  let now := if IsZero (rn_CreatedAt r) then now else rn_CreatedAt r in
  let key := submission_key run idempotencyKey in
  if submissionCapReached s d then (replay_submission key requestDigest "run submissions exceed maximum" d, d)
  else
    let '(inserted, d1) := insert_submission key (mk_submission requestDigest (rn_RunID r) (UnixMilli now)) d in
    if negb inserted then (replay_submission key requestDigest ErrRunSubmissionConflict d, d)
    else
      sql! _ := ensureInFlightCapacity s seen or d in
      match insert_queued run now d1 with
      | Err e => (Err (duplicateAsConflict e), d)
      | Ok d' => (Ok (mk_run_record (rn_RunID r) (rn_SessionID r) (rn_TenantID r) (rn_SubjectID r) RunStatusQueued false "" now now zeroTime, true), d')
      end.

(** ** Claims *)

(** [EXISTS (SELECT 1 FROM run_control active WHERE ...)] *)
Definition session_active (session : string) (d : Db) : bool :=
  existsb (λ kv, bool_decide (rr_session kv.2 = session) && is_active kv.2) (map_to_list (db_runs d)).

(** The rows [sqlClaimCandidate] selects: queued, not cancelled, available, and
    no run of the session is active; [skip] holds the rows others have locked. *)
Definition claimable (skip : gset string) (now : Z) (d : Db) (id : string) (r : runRow) (q : queueRow) : bool :=
  negb (bool_decide (id ∈ skip)) && is_queued r && negb (rr_cancel r) && (qr_available q <=? now) && negb (session_active (rr_session r) d).

Definition claim_candidates (skip : gset string) (now : Z) (d : Db) : list (string * runRow * queueRow) :=
  omap (λ '(id, r), match db_queue d !! id with Some q => if claimable skip now d id r q then Some (id, r, q) else None | None => None end)
    (map_to_list (db_runs d)).

(** [ORDER BY q.available_at, rc.created_at LIMIT 1]: [tie] is the database's
    choice among the rows that come first. *)
Definition before (a b : string * runRow * queueRow) : bool :=
  (qr_available a.2 <? qr_available b.2) || ((qr_available a.2 =? qr_available b.2) && (rr_created a.1.2 <=? rr_created b.1.2)).
Definition first_candidate (tie : nat) (l : list (string * runRow * queueRow)) : option (string * runRow * queueRow) :=
  let firsts := List.filter (λ a, forallb (before a) l) l in
  match firsts !! tie with Some c => Some c | None => head firsts end.

Inductive claim_outcome := ClaimNone | ClaimAgain | Claimed (run : QueuedRun).

(** One transaction of [ClaimRun]. *)
Definition claim_once (workerID : string) (leaseTTL : Z) (skip : gset string) (tie : nat) (now : Time) (d : Db) : result claim_outcome * Db :=
  match first_candidate tie (claim_candidates skip (UnixMilli now) d) with
  | None => (Ok ClaimNone, d)
  | Some (id, r, q) =>
    match update_run id (λ r, is_queued r && negb (rr_cancel r))
            (λ r, mk_run_row (rr_session r) (rr_tenant r) (rr_subject r) RunStatusRunning (rr_cancel r) "" (rr_created r) (UnixMilli now) (rr_completed r)) d with
    | Err e => (if isDuplicateConstraint e then Ok ClaimAgain else Err e, d)
    | Ok (false, _) => (Ok ClaimAgain, d)
    | Ok (true, d1) =>
      let leaseExpiry := now + leaseTTL in
      let '(_, d2) := update_queue id (λ _, true)
        (λ q, mk_queue_row (qr_message q) (qr_available q) workerID (UnixMilli leaseExpiry) (qr_attempt q + 1) (qr_max q) (qr_generation q + 1) (qr_parent q) (qr_state q)) d1 in
      let run := scanQueuedRun id r q in
      let rec := qd_run run in
      (Ok (Claimed (mk_queued_run
         (mk_run_record (rn_RunID rec) (rn_SessionID rec) (rn_TenantID rec) (rn_SubjectID rec) RunStatusRunning (rn_CancelRequested rec) (rn_ErrorCode rec)
            (rn_CreatedAt rec) now (rn_CompletedAt rec))
         (qd_Message run) (qd_AvailableAt run) workerID leaseExpiry (qd_Attempt run + 1) (qd_MaxAttempts run) (qd_Generation run + 1) (qd_Trace run))), d2)
    end
  end.

Inductive claimE : Type → Type := ClaimTx : claimE (result claim_outcome).

(** A transaction that lost a race is tried again, three times in all. *)
Fixpoint claim_loop (attempts : nat) : prog claimE (result (option QueuedRun)) :=
  match attempts with
  | O => Ret (Ok None)
  | S attempts =>
    let* outcome := ask ClaimTx in
    match outcome with
    | Err e => Ret (Err e)
    | Ok ClaimNone => Ret (Ok None)
    | Ok ClaimAgain => claim_loop attempts
    | Ok (Claimed run) => Ret (Ok (Some run))
    end
  end.

Definition ClaimRun (workerID : string) (leaseTTL : Z) : prog claimE (result (option QueuedRun)) :=
  match (let! _ := validateWorkerID workerID in fail_when leaseTTL <=? 0 with "run claim lease ttl must be positive" ;; Ok tt) with
  | Err e => Ret (Err e)
  | Ok _ => claim_loop 3
  end.

Definition RenewRunClaim (s : SQLRunControlStore) (runID workerID : string) (generation leaseTTL : Z) (now : Time) (d : Db) : result bool * Db :=
  sql! _ := validateClaimMutation runID workerID generation or d in
  sql! _ := fail_when leaseTTL <=? 0 with "run claim lease ttl must be positive" ;; Ok tt or d in
  if bool_decide (st_dialect s = SQLDialectPostgres) && negb (match db_runs d !! runID with Some r => is_running r | None => false end) then (Ok false, d)
  else
    let '(renewed, d1) := update_queue runID
      (λ q, held workerID generation (UnixMilli now) q && match db_runs d !! runID with Some r => is_running r | None => false end)
      (λ q, mk_queue_row (qr_message q) (qr_available q) (qr_worker q) (UnixMilli (now + leaseTTL)) (qr_attempt q) (qr_max q) (qr_generation q) (qr_parent q) (qr_state q)) d in
    if negb renewed then (Ok false, d)
    else
      sql! (_, d2) := update_run runID is_running
        (λ r, mk_run_row (rr_session r) (rr_tenant r) (rr_subject r) (rr_status r) (rr_cancel r) (rr_error r) (rr_created r) (UnixMilli now) (rr_completed r)) d1 or d in
      (Ok true, d2).

(** An update of the run and one of its task, both guarded by the claim; the
    transaction commits when both matched a row. *)
Definition release_claim (runID workerID : string) (generation now : Z) (f : runRow → runRow) (g : queueRow → queueRow) (d : Db) : result bool * Db :=
  sql! (updated, d1) := update_run runID (λ r, is_running r && claim_held runID workerID generation now d) f d or d in
  if negb updated then (Ok false, d)
  else
    let '(released, d2) := update_queue runID (held workerID generation now) g d1 in
    if negb released then (Ok false, d) else (Ok true, d2).

Definition set_status (status code : string) (now : Z) (r : runRow) : runRow :=
  mk_run_row (rr_session r) (rr_tenant r) (rr_subject r) status (rr_cancel r) code (rr_created r) now (rr_completed r).
Definition finish_row (status code : string) (now : Z) (r : runRow) : runRow :=
  mk_run_row (rr_session r) (rr_tenant r) (rr_subject r) status (rr_cancel r) code (rr_created r) now now.
(** The task without its claim, available from [available] on. *)
Definition unclaimed (available attempt : Z) (q : queueRow) : queueRow :=
  mk_queue_row (qr_message q) available "" 0 attempt (qr_max q) (qr_generation q) (qr_parent q) (qr_state q).

Definition RetryRunClaim (runID workerID : string) (generation : Z) (availableAt : Time) (errorCode : string) (now : Time) (d : Db) : result bool * Db :=
  sql! _ := validateClaimMutation runID workerID generation or d in
  sql! _ := fail_when IsZero availableAt with "run retry availability time is zero" ;; Ok tt or d in
  release_claim runID workerID generation (UnixMilli now) (set_status RunStatusQueued (boundedRunErrorCode errorCode) (UnixMilli now))
    (λ q, unclaimed (UnixMilli availableAt) (qr_attempt q) q) d.

Definition PauseRunClaim (runID workerID : string) (generation : Z) (now : Time) (d : Db) : result bool * Db :=
  sql! _ := validateClaimMutation runID workerID generation or d in
  release_claim runID workerID generation (UnixMilli now) (set_status RunStatusWaitingApproval "approval_pending" (UnixMilli now))
    (λ q, unclaimed (qr_available q) (if 0 <? qr_attempt q then qr_attempt q - 1 else 0) q) d.

Definition PauseRun (runID message : string) (maxAttempts : Z) (trace : TelemetryTraceContext) (now : Time) (d : Db) : result bool * Db :=
  sql! _ := ValidateRunID runID or d in
  sql! _ := fail_when blank message || (MaxQueuedMessageBytes <? str_len message) with "paused run message is empty or too large" ;; Ok tt or d in
  let maxAttempts := if maxAttempts =? 0 then DefaultRunMaxAttempts else maxAttempts in
  sql! _ := fail_when (maxAttempts <? 1) || (HardRunMaxAttempts <? maxAttempts) with "paused run max attempts must be between 1 and 10" ;; Ok tt or d in
  sql! _ := validateTraceContext trace or d in
  sql! (updated, d1) := update_run runID is_running (set_status RunStatusWaitingApproval "approval_pending" (UnixMilli now)) d or d in
  if negb updated then (Ok false, d)
  else match insert_queue runID (mk_queue_row message (UnixMilli now) "" 0 0 maxAttempts 0 (TraceParent trace) (TraceState trace)) d1 with
  | Err e => (Err (duplicateAsConflict e), d)
  | Ok d2 => (Ok true, d2)
  end.

Definition FinishRunClaim (runID workerID : string) (generation : Z) (status errorCode : string) (now : Time) (d : Db) : result bool * Db :=
  sql! _ := validateClaimMutation runID workerID generation or d in
  sql! _ := validateTerminalRunStatus status or d in
  sql! (updated, d1) := update_run runID (λ r, is_running r && claim_held runID workerID generation (UnixMilli now) d)
                          (finish_row status (boundedRunErrorCode errorCode) (UnixMilli now)) d or d in
  if negb updated then (Ok false, d)
  else (Ok true, match db_queue d1 !! runID with
                 | Some q => if bool_decide (qr_worker q = workerID) && (qr_generation q =? generation) then delete_queue runID d1 else d1
                 | None => d1
                 end).

(** ** Recovery *)

Definition expired (skip : gset string) (now : Z) (d : Db) (id : string) (r : runRow) : bool :=
  negb (bool_decide (id ∈ skip)) && is_running r
  && match db_queue d !! id with Some q => negb (is_empty (qr_worker q)) && (qr_lease q <=? now) | None => false end.

(** The claims [sqlExpiredRunClaims] selects; each is handled through its own
    rows only, so their order is immaterial. *)
Definition expired_claims (skip : gset string) (now : Z) (d : Db) : list (string * runRow * queueRow) :=
  omap (λ '(id, r), match db_queue d !! id with Some q => if expired skip now d id r then Some (id, r, q) else None | None => None end)
    (map_to_list (db_runs d)).

(** One round of the loop: whether the run was put back into the queue. *)
Definition recover_one (now : Z) (claim : string * runRow * queueRow) (d : Db) : result (bool * Db) :=
  let '(id, r, q) := claim in
  if rr_cancel r then
    let! (_, d) := update_run id is_running (finish_row RunCancelled "cancel_requested" now) d in Ok (false, delete_queue id d)
  else if qr_attempt q <? qr_max q then
    let! (_, d) := update_run id is_running (set_status RunStatusQueued "worker_lost_retry" now) d in
    let '(_, d) := update_queue id (λ _, true) (λ q, unclaimed now (qr_attempt q) q) d in
    let '(_, d) := update_queue id (λ _, true) (λ q, unclaimed (qr_available q) (qr_attempt q) q) d in Ok (true, d)
  else
    let! (_, d) := update_run id is_running (finish_row RunFailed "worker_lost" now) d in Ok (false, delete_queue id d).

Fixpoint recover_all (now : Z) (claims : list (string * runRow * queueRow)) (requeued failed : Z) (d : Db) : result (Z * Z * Db) :=
  match claims with
  | [] => Ok (requeued, failed, d)
  | claim :: claims =>
    let! (again, d) := recover_one now claim d in
    if again : bool then recover_all now claims (requeued + 1) failed d else recover_all now claims requeued (failed + 1) d
  end.

Definition RecoverExpiredRunClaims (skip : gset string) (now : Time) (d : Db) : result (Z * Z) * Db :=
  sql! _ := fail_when IsZero now with "claim recovery time is zero" ;; Ok tt or d in
  sql! (requeued, failed, d') := recover_all (UnixMilli now) (expired_claims skip (UnixMilli now) d) 0 0 d or d in
  (Ok (requeued, failed), d').

Definition FailStaleRuns (olderThan now : Time) (d : Db) : result Z * Db :=
  sql! _ := fail_when IsZero olderThan with "stale run cutoff is zero" ;; Ok tt or d in
  let stale (id : string) (r : runRow) : bool :=
    is_running r && (rr_updated r <? UnixMilli olderThan) && match db_queue d !! id with Some _ => false | None => true end in
  (Ok (Z.of_nat (size (filter (λ kv, stale kv.1 kv.2 = true) (db_runs d)))),
   set_runs (map_imap (λ id r, Some (if stale id r then finish_row RunFailed "worker_lost" (UnixMilli now) r else r)) (db_runs d)) d).

(** ** Cancellation and completion *)

Definition request_cancel (now : Z) (r : runRow) : runRow :=
  mk_run_row (rr_session r) (rr_tenant r) (rr_subject r) (rr_status r) true (rr_error r) (rr_created r) now (rr_completed r).
Definition cancel_row (now : Z) (r : runRow) : runRow :=
  mk_run_row (rr_session r) (rr_tenant r) (rr_subject r) RunCancelled true "cancel_requested" (rr_created r) now now.

(** [sqlCancelRunApprovals] *)
Definition deny_run_approvals (runID : string) (now : Z) (d : Db) : Db :=
  set_approvals ((λ a, if bool_decide (ap_run a = runID) && bool_decide (ap_status a = ApprovalPending)
    then mk_approval_row (ap_tenant a) (ap_subject a) (ap_session a) (ap_run a) (ap_call a) (ap_capability a) (ap_args a) (ap_manifest a) (ap_request a)
           ApprovalDenied (ap_requested a) (ap_expires a) now "system:run_cancel"
    else a) <$> db_approvals d) d.

Definition RequestRunCancel (runID : string) (now : Time) (d : Db) : result bool * Db :=
  sql! _ := ValidateRunID runID or d in
  let now := UnixMilli now in
  sql! (flagged, d1) := update_run runID is_running (request_cancel now) d or d in
  if flagged : bool then (Ok true, d1)
  else
    sql! (cancelled, d2) := update_run runID (λ r, is_queued r || is_waiting r) (cancel_row now) d1 or d in
    if cancelled : bool then (Ok true, delete_queue runID (deny_run_approvals runID now d2)) else (Ok false, d2).

Definition HeartbeatRun (runID : string) (now : Time) (d : Db) : result unit * Db :=
  sql! _ := ValidateRunID runID or d in
  sql! (beaten, d1) := update_run runID is_running
    (λ r, mk_run_row (rr_session r) (rr_tenant r) (rr_subject r) (rr_status r) (rr_cancel r) (rr_error r) (rr_created r) (UnixMilli now) (rr_completed r)) d or d in
  if beaten : bool then (Ok tt, d1) else (Err ErrRunNotFound, d).

Definition FinishRun (runID status errorCode : string) (now : Time) (d : Db) : result unit * Db :=
  sql! _ := ValidateRunID runID or d in
  sql! _ := validateTerminalRunStatus status or d in
  sql! (finished, d1) := update_run runID is_running (finish_row status (boundedRunErrorCode errorCode) (UnixMilli now)) d or d in
  if finished : bool then (Ok tt, delete_queue runID d1) else (Err ErrRunNotFound, d).

(** ** Queries *)

Definition GetRun (runID : string) (d : Db) : result RunRecord := let! _ := ValidateRunID runID in get_run runID d.

Definition RunCancelRequested (runID : string) (d : Db) : result bool :=
  let! _ := ValidateRunID runID in match db_runs d !! runID with Some r => Ok (rr_cancel r) | None => Err ErrRunNotFound end.

(** Newest first; runs created in the same millisecond are in key order. *)
Definition newer (a b : string * runRow) : Prop := rr_created b.2 ≤ rr_created a.2.
#[export] Instance newer_dec : RelDecision newer.
Proof. intros a b. unfold newer. apply _. Defined.

Definition session_runs (p : runRow → bool) (sessionID : string) (d : Db) : list (string * runRow) :=
  merge_sort newer (List.filter (λ kv, bool_decide (rr_session kv.2 = sessionID) && p kv.2) (map_to_list (db_runs d))).

Definition FindActiveRun (sessionID : string) (d : Db) : result RunRecord :=
  let! _ := ValidateSessionID sessionID in
  match session_runs is_active sessionID d with (id, r) :: _ => Ok (scanRun id r) | [] => Err ErrRunNotFound end.

Definition ListRuns (sessionID : string) (limit : Z) (d : Db) : result (list RunRecord) :=
  let! _ := ValidateSessionID sessionID in
  let limit := if limit <=? 0 then 50 else limit in
  let limit := if 500 <? limit then 500 else limit in
  Ok ((λ '(id, r), scanRun id r) <$> take (Z.to_nat limit) (session_runs (λ _, true) sessionID d)).

Record RunQueueMetrics := mk_metrics { mt_Queued : Z; mt_Running : Z; mt_WaitingApproval : Z; mt_OldestQueuedAt : Time }.

Definition count_runs (p : runRow → bool) (d : Db) : Z := Z.of_nat (size (filter (λ kv, p kv.2 = true) (db_runs d))).

Definition runQueueMetrics (d : Db) : RunQueueMetrics :=
  let waiting := omap (λ '(id, r), if is_queued r then qr_available <$> db_queue d !! id else None) (map_to_list (db_runs d)) in
  let oldest := match waiting with [] => 0 | x :: l => foldl Z.min x l end in
  mk_metrics (count_runs is_queued d) (count_runs is_running d) (count_runs is_waiting d) (time_column oldest).

(** ** Retention: [PruneRunSubmissions] of [sql_control.go] *)

Definition PruneRunSubmissions (olderThan : Time) (d : Db) : result Z * Db :=
  let prunable (row : submissionRow) : bool :=
    (sb_created row <? UnixMilli olderThan) && match db_runs d !! sb_run row with Some r => negb (in_flight r) | None => false end in
  let kept := filter (λ kv, prunable kv.2 = false) (db_submissions d) in
  (Ok (Z.of_nat (size (db_submissions d)) - Z.of_nat (size kept)), set_submissions kept d).
