(* ===== verification/ControlJson.v ===== *)
(** * JSON columns of the control plane

    [json.Marshal] and [json.Unmarshal] of the structs that the session header,
    the stored events and the approval requests keep as text: [Principal],
    [CapabilityManifest], [ToolCall] ([src/pkg/core/types.go]),
    [ApprovalRequest] ([hooks.go]), [SessionOptions] and [SessionEvent]
    ([session.go]).  What is stored reads back unchanged when its strings are
    valid UTF-8 and its numbers fit. *)
From S2P Require Import Prelude GoString Json Scope Principal GoTime Payload Events Message Session Capability Guard.
From stdpp Require Import gmap strings list.
From Stdlib Require Import ZArith Lia.
Open Scope Z_scope.

(** ** Principals *)

Definition zero_principal : Principal := mk_principal "" "" (mk_path []) ∅ ∅.
Definition principal_to_json (p : Principal) : json :=
  JObj ([("subject_id", json_of_str (SubjectID p)); ("tenant_id", json_of_str (TenantID p)); ("scope", scope_to_json (p_Scope p));
         ("grants", json_of_perms (Grants p))]
        ++ omit_if (bool_decide (Attributes p = ∅)) "attributes" (json_of_str_map (Attributes p))).
Definition principal_fields : fields Principal :=
  [field "subject_id" dec_str SubjectID (λ x p, mk_principal x (TenantID p) (p_Scope p) (Grants p) (Attributes p));
   field "tenant_id" dec_str TenantID (λ x p, mk_principal (SubjectID p) x (p_Scope p) (Grants p) (Attributes p));
   field "scope" dec_scope p_Scope (λ x p, mk_principal (SubjectID p) (TenantID p) x (Grants p) (Attributes p));
   field "grants" dec_perms Grants (λ x p, mk_principal (SubjectID p) (TenantID p) (p_Scope p) x (Attributes p));
   field "attributes" dec_str_map Attributes (λ x p, mk_principal (SubjectID p) (TenantID p) (p_Scope p) (Grants p) x)].

(** ** Session headers and events *)

Definition zero_options : SessionOptions := mk_options "" "" zero_principal (mk_path []) ∅.
Definition options_to_json (o : SessionOptions) : json :=
  JObj [("ID", json_of_str (o_ID o)); ("ProfileID", json_of_str (o_ProfileID o)); ("Principal", principal_to_json (o_Principal o));
        ("Scope", scope_to_json (o_Scope o)); ("Metadata", json_of_str_map (o_Metadata o))].
Definition options_fields : fields SessionOptions :=
  [field "ID" dec_str o_ID (λ x o, mk_options x (o_ProfileID o) (o_Principal o) (o_Scope o) (o_Metadata o));
   field "ProfileID" dec_str o_ProfileID (λ x o, mk_options (o_ID o) x (o_Principal o) (o_Scope o) (o_Metadata o));
   field "Principal" (dec_struct principal_fields) o_Principal (λ x o, mk_options (o_ID o) (o_ProfileID o) x (o_Scope o) (o_Metadata o));
   field "Scope" dec_scope o_Scope (λ x o, mk_options (o_ID o) (o_ProfileID o) (o_Principal o) x (o_Metadata o));
   field "Metadata" dec_str_map o_Metadata (λ x o, mk_options (o_ID o) (o_ProfileID o) (o_Principal o) (o_Scope o) x)].
Definition dec_options (j : json) : option SessionOptions := dec_struct options_fields j zero_options.

Definition event_type_text (t : SessionEventType) : string :=
  match t with
  | EvRunStart => "run/start" | EvRunResume => "run/resume" | EvRunEnd => "run/end" | EvRunError => "run/error" | EvRunUsage => "run/usage"
  | EvStepStart => "step/start" | EvStepEnd => "step/end" | EvStepError => "step/error" | EvUserMessage => "user/message"
  | EvAssistantMessage => "assistant/message" | EvAssistantChunk => "assistant/chunk" | EvToolCall => "tool/call" | EvToolResult => "tool/result"
  | EvApprovalRequested => "approval/requested" | EvApprovalResolved => "approval/resolved" | EvContextSummary => "context/summary"
  | EvUnknown name => name
  end.
Definition known_types : list SessionEventType :=
  [EvRunStart; EvRunResume; EvRunEnd; EvRunError; EvRunUsage; EvStepStart; EvStepEnd; EvStepError; EvUserMessage; EvAssistantMessage;
   EvAssistantChunk; EvToolCall; EvToolResult; EvApprovalRequested; EvApprovalResolved; EvContextSummary].
Definition event_type_of (s : string) : SessionEventType :=
  default (EvUnknown s) (List.find (λ t, bool_decide (event_type_text t = s)) known_types).

(** A raw payload is written as the value it holds; the empty one is omitted
    and one that is no JSON text is an error. *)
Definition raw_field (raw : RawMessage) : option (list (string * json)) :=
  if raw_len raw =? 0 then Some [] else match raw_value raw with Some j => Some [("data", j)] | None => None end.

Definition event_to_json (e : SessionEvent) : option json :=
  match raw_field (ev_Data e) with
  | None => None
  | Some data =>
    Some (JObj ([("seq", json_of_z (Seq e)); ("time", json_of_time (ev_Time e)); ("run_id", json_of_str (RunID e));
                 ("type", json_of_str (event_type_text (ev_Type e)))] ++ data))
  end.

Definition zero_event : SessionEvent := mk_event 0 zero_time "" (EvUnknown "") raw_nil.
Definition dec_event_type : decoder SessionEventType := λ j old, event_type_of <$> dec_str j (event_type_text old).
Definition dec_raw : decoder RawMessage := λ j _, Some (marshal j).
Definition event_fields : fields SessionEvent :=
  [field "seq" dec_z Seq (λ x e, mk_event x (ev_Time e) (RunID e) (ev_Type e) (ev_Data e));
   field "time" dec_time ev_Time (λ x e, mk_event (Seq e) x (RunID e) (ev_Type e) (ev_Data e));
   field "run_id" dec_str RunID (λ x e, mk_event (Seq e) (ev_Time e) x (ev_Type e) (ev_Data e));
   field "type" dec_event_type ev_Type (λ x e, mk_event (Seq e) (ev_Time e) (RunID e) x (ev_Data e));
   field "data" dec_raw ev_Data (λ x e, mk_event (Seq e) (ev_Time e) (RunID e) (ev_Type e) x)].
Definition dec_event (j : json) : option SessionEvent := dec_struct event_fields j zero_event.

(** ** Manifests and approval requests *)

Definition dec_any_ptr : decoder (option (gmap string json)) := λ j old,
  match j with JNull => Some None | _ => Some <$> dec_any_map j (default ∅ old) end.
Definition zero_exec : ExecutionSpec := mk_exec "" "" "" "" false "" ∅.
Definition exec_fields : fields ExecutionSpec :=
  [field "runtime" dec_str Runtime_ (λ x e, mk_exec x (Entrypoint e) (Workdir e) (SandboxMode e) (Writes e) (Method e) (Headers e));
   field "entrypoint" dec_str Entrypoint (λ x e, mk_exec (Runtime_ e) x (Workdir e) (SandboxMode e) (Writes e) (Method e) (Headers e));
   field "workdir" dec_str Workdir (λ x e, mk_exec (Runtime_ e) (Entrypoint e) x (SandboxMode e) (Writes e) (Method e) (Headers e));
   field "sandbox" (dec_struct [field "Mode" dec_str (λ s : string, s) (λ x _, x)]) SandboxMode
     (λ x e, mk_exec (Runtime_ e) (Entrypoint e) (Workdir e) x (Writes e) (Method e) (Headers e));
   field "writes" dec_bool Writes (λ x e, mk_exec (Runtime_ e) (Entrypoint e) (Workdir e) (SandboxMode e) x (Method e) (Headers e));
   field "method" dec_str Method (λ x e, mk_exec (Runtime_ e) (Entrypoint e) (Workdir e) (SandboxMode e) (Writes e) x (Headers e));
   field "headers" dec_str_map Headers (λ x e, mk_exec (Runtime_ e) (Entrypoint e) (Workdir e) (SandboxMode e) (Writes e) (Method e) x)].
Definition zero_tool : ToolExposure := mk_tool "" None.
Definition tool_fields : fields ToolExposure :=
  [field "description" dec_str te_Description (λ x t, mk_tool x (Parameters t));
   field "parameters" dec_any_ptr Parameters (λ x t, mk_tool (te_Description t) x)].

Definition zero_manifest : CapabilityManifest := mk_manifest "" "" "" "" "" "" [] [] ∅ ∅ 0 0 0 false false None None ∅.
Definition manifest_fields : fields CapabilityManifest :=
  let mk m id version name description kind contract permissions credentials input output bytes budget timeout idempotent approval tool execution metadata :=
    mk_manifest (default (m_ID m) id) (default (m_Version m) version) (default (m_Name m) name) (default (m_Description m) description)
      (default (m_Kind m) kind) (default (Contract m) contract) (default (RequiredPermissions m) permissions) (default (RequiredCredentials m) credentials)
      (default (InputSchema m) input) (default (OutputSchema m) output) (default (MaxOutputBytes m) bytes) (default (PerTurnBudget m) budget)
      (default (TimeoutMs m) timeout) (default (Idempotent m) idempotent) (default (RequiresApproval m) approval) (default (Tool m) tool)
      (default (Execution m) execution) (default (m_Metadata m) metadata) in
  [field "id" dec_str m_ID (λ x m, mk m (Some x) None None None None None None None None None None None None None None None None None);
   field "version" dec_str m_Version (λ x m, mk m None (Some x) None None None None None None None None None None None None None None None None);
   field "name" dec_str m_Name (λ x m, mk m None None (Some x) None None None None None None None None None None None None None None None);
   field "description" dec_str m_Description (λ x m, mk m None None None (Some x) None None None None None None None None None None None None None None);
   field "kind" dec_str m_Kind (λ x m, mk m None None None None (Some x) None None None None None None None None None None None None None);
   field "contract" dec_str Contract (λ x m, mk m None None None None None (Some x) None None None None None None None None None None None None);
   field "required_permissions" (dec_list "" dec_str) RequiredPermissions (λ x m, mk m None None None None None None (Some x) None None None None None None None None None None None);
   field "required_credentials" (dec_list "" dec_str) RequiredCredentials (λ x m, mk m None None None None None None None (Some x) None None None None None None None None None None);
   field "input_schema" dec_any_map InputSchema (λ x m, mk m None None None None None None None None (Some x) None None None None None None None None None);
   field "output_schema" dec_any_map OutputSchema (λ x m, mk m None None None None None None None None None (Some x) None None None None None None None None);
   field "max_output_bytes" dec_z MaxOutputBytes (λ x m, mk m None None None None None None None None None None (Some x) None None None None None None None);
   field "per_turn_budget" dec_z PerTurnBudget (λ x m, mk m None None None None None None None None None None None (Some x) None None None None None None);
   field "timeout_ms" dec_z TimeoutMs (λ x m, mk m None None None None None None None None None None None None (Some x) None None None None None);
   field "idempotent" dec_bool Idempotent (λ x m, mk m None None None None None None None None None None None None None (Some x) None None None None);
   field "requires_approval" dec_bool RequiresApproval (λ x m, mk m None None None None None None None None None None None None None None (Some x) None None None);
   field "tool" (dec_ptr zero_tool (dec_struct tool_fields)) Tool (λ x m, mk m None None None None None None None None None None None None None None None (Some x) None None);
   field "execution" (dec_ptr zero_exec (dec_struct exec_fields)) Execution (λ x m, mk m None None None None None None None None None None None None None None None None (Some x) None);
   field "metadata" dec_str_map m_Metadata (λ x m, mk m None None None None None None None None None None None None None None None None None (Some x))].

Definition request_to_json (q : ApprovalRequest) : json :=
  JObj [("run_id", json_of_str (aq_RunID q)); ("session_id", json_of_str (aq_SessionID q)); ("principal", principal_to_json (aq_Principal q));
        ("tool_call", call_to_json (aq_ToolCall q)); ("manifest", manifest_to_json (aq_Manifest q))].
Definition zero_request : ApprovalRequest := mk_approval "" "" zero_principal zero_call zero_manifest.
Definition request_fields : fields ApprovalRequest :=
  [field "run_id" dec_str aq_RunID (λ x q, mk_approval x (aq_SessionID q) (aq_Principal q) (aq_ToolCall q) (aq_Manifest q));
   field "session_id" dec_str aq_SessionID (λ x q, mk_approval (aq_RunID q) x (aq_Principal q) (aq_ToolCall q) (aq_Manifest q));
   field "principal" (dec_struct principal_fields) aq_Principal (λ x q, mk_approval (aq_RunID q) (aq_SessionID q) x (aq_ToolCall q) (aq_Manifest q));
   field "tool_call" dec_call aq_ToolCall (λ x q, mk_approval (aq_RunID q) (aq_SessionID q) (aq_Principal q) x (aq_Manifest q));
   field "manifest" (dec_struct manifest_fields) aq_Manifest (λ x q, mk_approval (aq_RunID q) (aq_SessionID q) (aq_Principal q) (aq_ToolCall q) x)].
Definition dec_request (j : json) : option ApprovalRequest := dec_struct request_fields j zero_request.

(** ** Round trips *)

Definition principal_stable (p : Principal) : bool :=
  valid_utf8 (SubjectID p) && valid_utf8 (TenantID p) && scope_stable (p_Scope p) && perms_stable (Grants p) && str_map_stable (Attributes p).
Definition options_stable (o : SessionOptions) : bool :=
  valid_utf8 (o_ID o) && valid_utf8 (o_ProfileID o) && principal_stable (o_Principal o) && scope_stable (o_Scope o) && str_map_stable (o_Metadata o).
(** The payload is as [marshal] writes it, or empty. *)
Definition raw_stable (raw : RawMessage) : bool :=
  match raw_value raw with None => raw_len raw =? 0 | Some j => (0 <? raw_len raw) && (raw_len raw =? json_len j) end.
Definition event_stable (e : SessionEvent) : bool :=
  in_int64 (Seq e) && time_ok (ev_Time e) && valid_utf8 (RunID e) && known_type (ev_Type e) && raw_stable (ev_Data e).

Lemma event_type_rt t : known_type t = true → event_type_of (event_type_text t) = t.
Proof. by destruct t. Qed.

Lemma dec_event_type_rt t old : known_type t = true → dec_event_type (json_of_str (event_type_text t)) old = Some t.
Proof.
  intros H. unfold dec_event_type. rewrite dec_str_rt by (destruct t; [vm_compute; reflexivity..|discriminate H]). cbn. f_equal. by apply event_type_rt.
Qed.

Ltac dec_hook ::= first [ apply time_rt; assumption | apply scope_rt; assumption | apply perms_rt; assumption ].

Lemma principal_rt p : principal_stable p = true → dec_struct principal_fields (principal_to_json p) zero_principal = Some p.
Proof. unfold principal_stable, principal_to_json, dec_struct. intros H. bool_to_prop. decode_struct p. Qed.

Ltac dec_hook ::= first [ apply scope_rt; assumption | apply principal_rt; assumption ].

Lemma options_rt o : options_stable o = true → dec_options (options_to_json o) = Some o.
Proof. unfold options_stable, options_to_json, dec_options, dec_struct. intros H. bool_to_prop. decode_struct o. Qed.

Ltac dec_hook ::= first [ apply time_rt; assumption | apply dec_event_type_rt; assumption | reflexivity ].

(** An event reads back from its line. *)
Lemma event_rt e : event_stable e = true → ∃ j, event_to_json e = Some j ∧ dec_event j = Some e.
Proof.
  unfold event_stable, raw_stable, event_to_json, raw_field, dec_event, dec_struct. intros H. bool_to_prop.
  destruct e as [seq time run kind [len value]]. cbn in *. destruct value as [j|].
  - bool_to_prop. rewrite (proj2 (Z.eqb_neq len 0)) by lia. eexists. split; [done|]. cbv beta iota delta [Datatypes.app].
    repeat decode_field. cbn. unfold marshal. by subst len.
  - bool_to_prop. subst len. rewrite Z.eqb_refl. eexists. split; [done|]. cbv beta iota delta [Datatypes.app]. repeat decode_field. done.
Qed.
