(* ===== verification/ApprovalStore.v ===== *)
(** * Durable approvals: [src/pkg/storage/approval.go]

    A pending approval suspends its run; a decision, or its expiry, records the
    outcome and puts the run (or the parent that delegated it) back into the
    queue in the same transaction.

    The methods that are not one transaction are programs over [approvalE], one
    effect per statement or transaction; [approval_exec] is their meaning on the
    database. *)
From S2P Require Import Prelude Prog GoString Json Sha256 Scope Principal GoTime Payload Events Message Session SessionStore Capability Journal Guard ControlDb ControlJson RunControl.
From stdpp Require Import gmap strings list sorting.
From Stdlib Require Import ZArith Lia Ascii.
Open Scope Z_scope.

Definition DefaultApprovalTTL : Z := 24 * 3600 * 10 ^ 9.
Definition HardApprovalTTL : Z := 30 * 24 * 3600 * 10 ^ 9.
Definition MaxApprovalRequestBytes : Z := 2 * 2 ^ 20.
Definition MaxPendingApprovals : Z := 1024.
Definition ErrApprovalNotFound := "approval not found".

Record SQLApprovalStore := mk_approval_store { TTL : Z; maxPending : Z }.

Record ApprovalRecord := mk_approval_record {
  ar_ID : string; ar_row : approvalRow; ar_Request : ApprovalRequest; ar_Status : string; ar_RequestedAt : Time; ar_ExpiresAtTime : Time;
  ar_DecidedAt : Time; ar_DecidedBy : string }.

(** [ApprovalRecord{}] *)
Definition zero_approval : ApprovalRecord :=
  mk_approval_record "" (mk_approval_row "" "" "" "" "" "" "" "" JNull "" 0 0 0 "") zero_request "" zeroTime zeroTime zeroTime "".

(** ** Times as text: [Time.MarshalJSON] in UTC *)

(** Year, month and day of a day number (1970-01-01 is day 0). *)
Definition civil (day : Z) : Z * Z * Z :=
  let z := day + 719468 in
  let era := z / 146097 in
  let doe := z mod 146097 in
  let yoe := (doe - doe / 1460 + doe / 36524 - doe / 146096) / 365 in
  let doy := doe - (365 * yoe + yoe / 4 - yoe / 100) in
  let mp := (5 * doy + 2) / 153 in
  let d := doy - (153 * mp + 2) / 5 + 1 in
  let m := if mp <? 10 then mp + 3 else mp - 9 in
  (yoe + era * 400 + (if m <=? 2 then 1 else 0), m, d).

Fixpoint digits (n : nat) (z : Z) (acc : string) : string :=
  match n with O => acc | S n => digits n (z / 10) (String (ascii_of_N (Z.to_N (48 + z mod 10))) acc) end.

(** The fraction without its trailing zeros. *)
Fixpoint fraction (n : nat) (ns : Z) : string :=
  match n with O => "" | S m => if ns mod 10 =? 0 then fraction m (ns / 10) else String "." (digits n ns "") end.

Definition time_text (t : Time) : string :=
  let sec := t / 10 ^ 9 in
  let '(y, m, d) := civil (sec / 86400) in
  let s := sec mod 86400 in
  digits 4 y "" +:+ "-" +:+ digits 2 m "" +:+ "-" +:+ digits 2 d "" +:+ "T" +:+ digits 2 (s / 3600) "" +:+ ":" +:+ digits 2 (s / 60 mod 60) ""
  +:+ ":" +:+ digits 2 (s mod 60) "" +:+ fraction 9 (t mod 10 ^ 9) +:+ "Z".

(** ** Identity *)

Definition approvalInvocation (q : ApprovalRequest) : result ToolInvocation :=
  fail_when negb (bool_decide (m_ID (aq_Manifest q) = tc_Name (aq_ToolCall q))) with "approval manifest does not match tool" ;;
  NewToolInvocation (mk_info (aq_RunID q) (aq_SessionID q) "" 0 (aq_Principal q)) (aq_ToolCall q) (Idempotent (aq_Manifest q)).

Definition nul : string := String (ascii_of_nat 0) "".
Definition approvalID (i : ToolInvocation) (manifestDigest : string) : string :=
  "apr_" +:+ sha256_hex (String.concat nul [ti_TenantID i; ti_SubjectID i; ti_SessionID i; ti_RunID i; ti_CallID i; ti_CapabilityID i; ArgsDigest i; manifestDigest]).

Definition approvalManifestDigest (m : CapabilityManifest) : string := sha256_hex (json_text (manifest_to_json m)).

Definition approvalMatches (row : approvalRow) (i : ToolInvocation) (manifestDigest : string) : bool :=
  bool_decide (ap_tenant row = ti_TenantID i) && bool_decide (ap_subject row = ti_SubjectID i) && bool_decide (ap_session row = ti_SessionID i)
  && bool_decide (ap_run row = ti_RunID i) && bool_decide (ap_call row = ti_CallID i) && bool_decide (ap_capability row = ti_CapabilityID i)
  && bool_decide (ap_args row = ArgsDigest i) && bool_decide (ap_manifest row = manifestDigest).

Definition validApprovalStatus (status : string) : bool :=
  bool_decide (status ∈ [ApprovalPending; ApprovalApproved; ApprovalDenied; ApprovalExpired]).

Definition scanApproval (id : string) (row : approvalRow) : result ApprovalRecord :=
  fail_when negb (validApprovalStatus (ap_status row)) with "approval has invalid status" ;;
  match dec_request (ap_request row) with
  | None => Err "decode approval request"
  | Some request =>
    Ok (mk_approval_record id row request (ap_status row) (of_milli (ap_requested row)) (of_milli (ap_expires row)) (time_column (ap_decided row)) (ap_by row))
  end.

Definition scan_found (found : option (string * approvalRow)) : result ApprovalRecord :=
  match found with None => Err ErrApprovalNotFound | Some (id, row) => scanApproval id row end.

Definition approvalResolution (r : ApprovalRecord) : ApprovalResolution :=
  mk_resolution (ar_ID r) (ar_Status r) (time_text (ar_RequestedAt r)) (time_text (ar_ExpiresAtTime r)) (time_text (ar_DecidedAt r)) (ar_DecidedBy r).

Definition validateApprovalActor (actor : string) : result unit :=
  fail_when blank actor || (512 <? str_len actor) || contains_crlf_nul actor with "approval actor is invalid" ;; Ok tt.

(** ** Delegation links: [extensions/subagent/link.go] *)

Definition link_char (r : N) : bool := is_alnum r || (r =? 46)%N || (r =? 95)%N || (r =? 58)%N || (r =? 45)%N.
Definition validLinkText (value : string) (max : Z) : bool := negb (is_empty value) && (str_len value <=? max) && forallb link_char (runes value).

Definition ValidateLink (child : string) (l : linkRow) : result unit :=
  fail_when negb (forallb (λ v, validLinkText v 128) [lk_ParentSessionID l; lk_ParentRunID l; lk_ParentCallID l; child; lk_ChildRunID l])
    with "delegation link is empty, too long or contains an invalid character" ;;
  fail_when negb (forallb (λ v, validLinkText v 128) [lk_TenantID l; lk_SubjectID l])
    with "delegation link is empty, too long or contains an invalid character" ;;
  fail_when (lk_Depth l <? 1) || (64 <? lk_Depth l) with "delegation link depth must be between 1 and 64" ;; Ok tt.

(** The session and the run that a decision resumes. *)
Definition delegatedApprovalResumeTarget (row : approvalRow) (d : Db) : result (string * string) :=
  match db_runs d !! ap_run row with
  | Some r =>
    fail_when negb (bool_decide (rr_session r = ap_session row) && bool_decide (rr_tenant r = ap_tenant row) && bool_decide (rr_subject r = ap_subject row))
      with "approval run identity does not match its durable control record" ;; Ok (ap_session row, ap_run row)
  | None =>
    match db_links d !! ap_session row with
    | None => Ok (ap_session row, ap_run row)
    | Some l =>
      let! _ := ValidateLink (ap_session row) l in
      fail_when negb (bool_decide (lk_ChildRunID l = ap_run row) && bool_decide (lk_TenantID l = ap_tenant row) && bool_decide (lk_SubjectID l = ap_subject row))
        with "delegated approval identity does not match its durable link" ;;
      fail_when negb (lk_Depth l =? 1) with "delegated approval parent depth is not directly queue-resumable" ;;
      let! _ := ValidateSessionID (lk_ParentSessionID l) in
      let! _ := ValidateRunID (lk_ParentRunID l) in
      Ok (lk_ParentSessionID l, lk_ParentRunID l)
    end
  end.

(** ** Decisions *)

Definition decide_row (decision : string) (now : Z) (actor : string) (a : approvalRow) : approvalRow :=
  mk_approval_row (ap_tenant a) (ap_subject a) (ap_session a) (ap_run a) (ap_call a) (ap_capability a) (ap_args a) (ap_manifest a) (ap_request a)
    decision (ap_requested a) (ap_expires a) now actor.

Definition is_pending (a : approvalRow) : bool := bool_decide (ap_status a = ApprovalPending).

(** [sqlDecideApproval] *)
Definition decide_approval (id decision actor : string) (now : Z) (d : Db) : bool * Db :=
  match db_approvals d !! id with
  | Some a => if is_pending a then (true, set_approvals (<[id := decide_row decision now actor a]> (db_approvals d)) d) else (false, d)
  | None => (false, d)
  end.

(** [session_id = ? AND tenant_id = ? AND subject_id = ?] *)
Definition run_of (session tenant subject : string) (r : runRow) : bool :=
  bool_decide (rr_session r = session) && bool_decide (rr_tenant r = tenant) && bool_decide (rr_subject r = subject).

Definition decideAndResume (id decision actor : string) (now : Time) (d : Db) : result (ApprovalRecord * bool) * Db :=
  sql! record := scan_found (match db_approvals d !! id with Some row => Some (id, row) | None => None end) or d in
  if negb (bool_decide (ar_Status record = ApprovalPending)) then (Ok (record, false), d)
  else
    let ms := UnixMilli now in
    let row := ar_row record in
    let '(changed, d1) := decide_approval id decision actor ms d in
    if negb changed then (Ok (zero_approval, false), d)
    else
      sql! (session, run) := delegatedApprovalResumeTarget row d1 or d in
      sql! (resumed, d2) := update_run run (λ r, run_of session (ap_tenant row) (ap_subject row) r && is_waiting r && negb (rr_cancel r))
                              (set_status RunStatusQueued "" ms) d1 or d in
      if negb resumed then (Err "approval run is not waiting for a decision", d)
      else
        let awake := match db_runs d2 !! run with
                     | Some r => run_of session (ap_tenant row) (ap_subject row) r && is_queued r && negb (rr_cancel r) | None => false end in
        let '(woken, d3) := update_queue run (λ _, awake) (λ q, unclaimed ms (qr_attempt q) q) d2 in
        if negb woken then (Err "approval run has no durable continuation", d)
        else (Ok (mk_approval_record id row (ar_Request record) decision (ar_RequestedAt record) (ar_ExpiresAtTime record) now actor, true), d3).

Definition DecideApproval (id decision actor : string) (now : Time) (d : Db) : result (ApprovalRecord * bool) * Db :=
  sql! _ := ValidateApprovalID id or d in
  sql! _ := fail_when negb (bool_decide (decision = ApprovalApproved)) && negb (bool_decide (decision = ApprovalDenied))
              with "approval decision must be approved or denied" ;; Ok tt or d in
  sql! _ := validateApprovalActor actor or d in
  decideAndResume id decision actor now d.

(** ** Statements outside a transaction *)

Inductive approvalE : Type → Type :=
| ApprovalNow : approvalE Time
| CountPending : approvalE (result Z)
| GetByCall (session run call : string) : approvalE (result (option (string * approvalRow)))
| GetByID (id : string) : approvalE (result (option approvalRow))
| InsertApproval (id : string) (row : approvalRow) : approvalE (result unit)
| ListExpired (now : Z) : approvalE (result (list string))
| ListRunPending (run : string) : approvalE (result (list string))
| DecideStatement (id decision actor : string) (now : Z) : approvalE (result bool)
| DecideTx (id decision actor : string) (now : Time) : approvalE (result (ApprovalRecord * bool)).

Definition by_call (session run call : string) (d : Db) : option (string * approvalRow) :=
  List.find (λ kv, bool_decide (ap_session kv.2 = session) && bool_decide (ap_run kv.2 = run) && bool_decide (ap_call kv.2 = call)) (map_to_list (db_approvals d)).

(** The primary key and UNIQUE (session_id, run_id, call_id). *)
Definition insert_approval (id : string) (row : approvalRow) (d : Db) : result Db :=
  match db_approvals d !! id, by_call (ap_session row) (ap_run row) (ap_call row) d with
  | None, None => Ok (set_approvals (<[id := row]> (db_approvals d)) d)
  | _, _ => Err ErrDuplicate
  end.

(** Oldest expiry first. *)
Definition earlier (a b : string * approvalRow) : Prop := ap_expires a.2 ≤ ap_expires b.2.
#[export] Instance earlier_dec : RelDecision earlier.
Proof. intros a b. unfold earlier. apply _. Defined.
Definition expired_approvals (now : Z) (d : Db) : list string :=
  (merge_sort earlier (List.filter (λ kv, is_pending kv.2 && (ap_expires kv.2 <=? now)) (map_to_list (db_approvals d)))).*1.
Definition pending_of (run : string) (d : Db) : list string :=
  (List.filter (λ kv, bool_decide (ap_run kv.2 = run) && is_pending kv.2) (map_to_list (db_approvals d))).*1.
Definition pending_count (d : Db) : Z := Z.of_nat (size (filter (λ kv, is_pending kv.2 = true) (db_approvals d))).

(** The meaning of each effect at time [now]. *)
Definition approval_exec (now : Time) {B : Type} (e : approvalE B) : Db → B * Db :=
  match e in approvalE B return Db → B * Db with
  | ApprovalNow => λ d, (now, d)
  | CountPending => λ d, (Ok (pending_count d), d)
  | GetByCall session run call => λ d, (Ok (by_call session run call d), d)
  | GetByID id => λ d, (Ok (db_approvals d !! id), d)
  | InsertApproval id row => λ d, match insert_approval id row d with Ok d' => (Ok tt, d') | Err e => (Err e, d) end
  | ListExpired ms => λ d, (Ok (expired_approvals ms d), d)
  | ListRunPending run => λ d, (Ok (pending_of run d), d)
  | DecideStatement id decision actor ms => λ d, let '(b, d') := decide_approval id decision actor ms d in (Ok b, d')
  | DecideTx id decision actor t => decideAndResume id decision actor t
  end.

(** ** Programs *)

Notation AP A := (prog approvalE A).

Definition resolve_existing (i : ToolInvocation) (manifestDigest conflict : string) (found : result ApprovalRecord) : result ApprovalResolution :=
  let! record := found in
  fail_when negb (approvalMatches (ar_row record) i manifestDigest) with conflict ;; Ok (approvalResolution record).

Definition call_conflict := "approval call identity conflicts with the durable request".

Definition find_call (i : ToolInvocation) : AP (result ApprovalRecord) :=
  let* found := ask (GetByCall (ti_SessionID i) (ti_RunID i) (ti_CallID i)) in Ret (let! row := found in scan_found row).

(** The attributes of the principal are not stored. *)
Definition without_attributes (q : ApprovalRequest) : ApprovalRequest :=
  let p := aq_Principal q in
  mk_approval (aq_RunID q) (aq_SessionID q) (mk_principal (SubjectID p) (TenantID p) (p_Scope p) (Grants p) ∅) (aq_ToolCall q) (aq_Manifest q).

Definition sql_RequestApproval (s : SQLApprovalStore) (request : ApprovalRequest) : AP (result ApprovalResolution) :=
  match approvalInvocation request with
  | Err e => Ret (Err e)
  | Ok i =>
    let manifestDigest := approvalManifestDigest (aq_Manifest request) in
    let id := approvalID i manifestDigest in
    let encoded := request_to_json (without_attributes request) in
    let ttl := if TTL s <=? 0 then DefaultApprovalTTL else TTL s in
    let cap := if maxPending s <=? 0 then MaxPendingApprovals else maxPending s in
    if MaxApprovalRequestBytes <? json_len encoded then Ret (Err "approval request exceeds 2097152 bytes")
    else if HardApprovalTTL <? ttl then Ret (Err "approval ttl exceeds 720h0m0s")
    else
      let* counted := ask CountPending in
      match counted with
      | Err e => Ret (Err e)
      | Ok pending =>
        if cap <=? pending then
          let* existing := find_call i in
          Ret (match existing with
               | Ok _ => resolve_existing i manifestDigest call_conflict existing
               | Err e => if bool_decide (e = ErrApprovalNotFound) then Err "pending approvals exceed maximum" else Err e
               end)
        else
          let* now := ask ApprovalNow in
          let row := mk_approval_row (ti_TenantID i) (ti_SubjectID i) (ti_SessionID i) (ti_RunID i) (ti_CallID i) (ti_CapabilityID i) (ArgsDigest i)
                       manifestDigest encoded ApprovalPending (UnixMilli now) (UnixMilli (now + ttl)) 0 "" in
          let* inserted := ask (InsertApproval id row) in
          match inserted with
          | Err e =>
            if isDuplicateConstraint e then (let* existing := find_call i in Ret (resolve_existing i manifestDigest call_conflict existing)) else Ret (Err e)
          | Ok _ =>
            match ValidateApprovalID id with
            | Err e => Ret (Err e)
            | Ok _ =>
              let* found := ask (GetByID id) in
              Ret (resolve_existing i manifestDigest "approval identity conflicts with the durable request"
                     (let! row := found in scan_found (match row with Some row => Some (id, row) | None => None end)))
            end
          end
      end
  end.

(** [Approve] *)
Definition sql_Approve (s : SQLApprovalStore) (request : ApprovalRequest) : AP (result string) :=
  let* resolution := sql_RequestApproval s request in Ret (let! r := resolution in Ok (rs_Decision r)).

Fixpoint expire_loop (ids : list string) (now : Time) (expired : Z) : AP (Z * option string) :=
  match ids with
  | [] => Ret (expired, None)
  | id :: ids =>
    let* decided := ask (DecideTx id ApprovalExpired "system:expiry" now) in
    match decided with
    | Err e => Ret (expired, Some e)
    | Ok (_, changed) => expire_loop ids now (if (changed : bool) then expired + 1 else expired)
    end
  end.

(** The count and the error it returns. *)
Definition ExpireApprovals (now : Time) : AP (Z * option string) :=
  if IsZero now then Ret (0, Some "approval expiry time is zero")
  else
    let* ids := ask (ListExpired (UnixMilli now)) in
    match ids with Err e => Ret (0, Some e) | Ok ids => expire_loop ids now 0 end.

Fixpoint deny_loop (ids : list string) (actor : string) (now : Z) (count : Z) : AP (Z * option string) :=
  match ids with
  | [] => Ret (count, None)
  | id :: ids =>
    let* denied := ask (DecideStatement id ApprovalDenied actor now) in
    match denied with
    | Err e => Ret (count, Some e)
    | Ok affected => deny_loop ids actor now (if (affected : bool) then count + 1 else count)
    end
  end.

Definition CancelRunApprovals (runID actor : string) : AP (Z * option string) :=
  match (let! _ := ValidateRunID runID in validateApprovalActor actor) with
  | Err e => Ret (0, Some e)
  | Ok _ =>
    let* ids := ask (ListRunPending runID) in
    match ids with
    | Err e => Ret (0, Some e)
    | Ok ids => let* now := ask ApprovalNow in deny_loop ids actor (UnixMilli now) 0
    end
  end.

(** [PruneApprovals] of [sql_control.go] *)
Definition PruneApprovals (olderThan : Time) (d : Db) : result Z * Db :=
  let prunable (a : approvalRow) : bool := negb (is_pending a) && (0 <? ap_decided a) && (ap_decided a <? UnixMilli olderThan) in
  let kept := filter (λ kv, prunable kv.2 = false) (db_approvals d) in
  (Ok (Z.of_nat (size (db_approvals d)) - Z.of_nat (size kept)), set_approvals kept d).

(** ** Queries *)

Definition GetApproval (id : string) (d : Db) : result ApprovalRecord :=
  let! _ := ValidateApprovalID id in scan_found (match db_approvals d !! id with Some row => Some (id, row) | None => None end).

Record ApprovalFilter := mk_approval_filter { af_TenantID : string; af_Status : string; af_Limit : Z }.

(** Newest request first. *)
Definition later (a b : string * approvalRow) : Prop := ap_requested b.2 ≤ ap_requested a.2.
#[export] Instance later_dec : RelDecision later.
Proof. intros a b. unfold later. apply _. Defined.

Definition ListApprovals (filter : ApprovalFilter) (d : Db) : result (list ApprovalRecord) :=
  let! _ := validateSQLTextFilter (af_TenantID filter) in
  let limit := if af_Limit filter <=? 0 then 100 else af_Limit filter in
  let limit := if 500 <? limit then 500 else limit in
  fail_when negb (is_empty (af_Status filter)) && negb (validApprovalStatus (af_Status filter)) with "invalid approval status" ;;
  let rows := List.filter (λ kv, (is_empty (af_TenantID filter) || bool_decide (ap_tenant kv.2 = af_TenantID filter))
                               && (is_empty (af_Status filter) || bool_decide (ap_status kv.2 = af_Status filter))) (map_to_list (db_approvals d)) in
  rfold (λ out kv, let! record := scanApproval kv.1 kv.2 in Ok (out ++ [record])) [] (take (Z.to_nat limit) (merge_sort later rows)).

Record ApprovalMetrics := mk_approval_metrics { am_Pending : Z; am_OldestRequestedAt : Time }.
Definition approvalMetrics (d : Db) : ApprovalMetrics :=
  let oldest := match omap (λ '(_, a), if is_pending a then Some (ap_requested a) else None) (map_to_list (db_approvals d)) with
                | [] => 0 | x :: l => foldl Z.min x l end in
  mk_approval_metrics (pending_count d) (time_column oldest).

Example time_text_example : time_text (1704164645 * 10 ^ 9 + 120000000) = "2024-01-02T03:04:05.12Z".
Proof. vm_compute. reflexivity. Qed.
Example time_text_epoch : time_text 0 = "1970-01-01T00:00:00Z".
Proof. vm_compute. reflexivity. Qed.
Example time_text_zero : time_text zeroTime = zero_time.
Proof. vm_compute. reflexivity. Qed.
