(* ===== verification/SqlSession.v ===== *)
(** * Sessions in SQL: [src/pkg/storage/sql_leases.go], [sql_session_store.go],
    [session_append.go], [sql_text_filter.go], and the run evidence index
    ([evidence.go], [sql_migration_evidence.go])

    A session is a catalog row with its committed version and a sequence of event
    chunks, each the JSON lines of one append.  An append reads the version,
    compares it, inserts the chunk and the run evidence it derives, and advances
    the version, in one transaction.

    A lease is a row with a holder and an expiry.  Acquiring one is two
    statements outside a transaction, so it is a program over [leaseE]. *)
From S2P Require Import Prelude Prog GoString Json Sha256 Scope Principal GoTime Payload Events Session Message SessionStore Capability ControlDb RunControl ControlJson.
From stdpp Require Import gmap strings list sorting.
From Stdlib Require Import ZArith Lia Ascii.
Open Scope Z_scope.

(** ** Leases *)

Definition validateLeaseHolder (holder : string) : result unit :=
  fail_when blank holder with "session lease holder is empty" ;; validateSQLTextFilter holder.

Definition validate_lease (sessionID holder : string) (ttl : Z) : result unit :=
  let! _ := ValidateSessionID sessionID in
  let! _ := validateLeaseHolder holder in
  fail_when ttl <=? 0 with "session lease ttl must be positive" ;; Ok tt.

Inductive leaseE : Type → Type :=
| LeaseSteal (session holder : string) (expires now : Z) : leaseE (result bool)
| LeaseInsert (session holder : string) (expires : Z) : leaseE (result unit).

Definition lease_exec {B : Type} (e : leaseE B) : Db → B * Db :=
  match e in leaseE B return Db → B * Db with
  | LeaseSteal session holder expires now => λ d,
      match db_leases d !! session with
      | Some l => if ls_expires l <=? now then (Ok true, set_leases (<[session := mk_lease holder expires]> (db_leases d)) d) else (Ok false, d)
      | None => (Ok false, d)
      end
  | LeaseInsert session holder expires => λ d,
      match db_leases d !! session with
      | Some _ => (Err ErrDuplicate, d)
      | None => (Ok tt, set_leases (<[session := mk_lease holder expires]> (db_leases d)) d)
      end
  end.

Definition AcquireSessionLease (sessionID holder : string) (ttl : Z) (now : Time) : prog leaseE (result bool) :=
  match validate_lease sessionID holder ttl with
  | Err e => Ret (Err e)
  | Ok _ =>
    let expiry := UnixMilli (now + ttl) in
    let* stolen := ask (LeaseSteal sessionID holder expiry (UnixMilli now)) in
    match stolen with
    | Err e => Ret (Err e)
    | Ok true => Ret (Ok true)
    | Ok false =>
      let* inserted := ask (LeaseInsert sessionID holder expiry) in
      Ret (match inserted with Err e => if isDuplicateConstraint e then Ok false else Err e | Ok _ => Ok true end)
    end
  end.

Definition RenewSessionLease (sessionID holder : string) (ttl : Z) (now : Time) (d : Db) : result bool * Db :=
  sql! _ := validate_lease sessionID holder ttl or d in
  match db_leases d !! sessionID with
  | Some l =>
    if bool_decide (ls_holder l = holder) && (UnixMilli now <? ls_expires l)
    then (Ok true, set_leases (<[sessionID := mk_lease (ls_holder l) (UnixMilli (now + ttl))]> (db_leases d)) d) else (Ok false, d)
  | None => (Ok false, d)
  end.

Definition ReleaseSessionLease (sessionID holder : string) (d : Db) : result unit * Db :=
  sql! _ := ValidateSessionID sessionID or d in
  sql! _ := validateLeaseHolder holder or d in
  match db_leases d !! sessionID with
  | Some l => (Ok tt, if bool_decide (ls_holder l = holder) then set_leases (delete sessionID (db_leases d)) d else d)
  | None => (Ok tt, d)
  end.

(** [PruneExpiredLeases] of [sql_control.go]: [expires_at < ?] *)
Definition PruneExpiredLeases (now : Time) (d : Db) : result Z * Db :=
  let kept := filter (λ kv, negb (ls_expires kv.2 <? UnixMilli now) = true) (db_leases d) in
  (Ok (Z.of_nat (size (db_leases d)) - Z.of_nat (size kept)), set_leases kept d).

(** ** Run evidence *)

Definition MaxEvidenceRecords : Z := 8192.
Definition EvidenceRun := "run".
Definition EvidenceBacktest := "backtest".
Definition AssignmentCandidate := "candidate".
Definition AssignmentLive := "live".
Definition AssignmentUnassigned := "unassigned".

(** Milliseconds since the epoch of an event's time. *)
Fixpoint fraction_millis (n : nat) (acc : Z) (l : list ascii) : Z :=
  match n with
  | O => acc
  | S n => match l with
           | c :: l => if is_digit (byte_val c) then fraction_millis n (acc * 10 + (Z.of_N (byte_val c) - 48)) l else fraction_millis n (acc * 10) []
           | [] => fraction_millis n (acc * 10) []
           end
  end.
Definition event_millis (t : string) : Z :=
  match parse_time t with
  | Some (sec, _) =>
    (sec - 62135596800) * 1000
    + match drop 19 (bytes t) with dot :: l => if bool_decide (dot = "."%char) then fraction_millis 3 0 l else 0 | [] => 0 end
  | None => 0
  end.

Definition meta (key : string) (m : gmap string string) : string := default "" (m !! key).

Definition assignmentVariant (metadata : gmap string string) : string :=
  let value := lower_rune <$> runes (trim_space (meta "harness.assignment.variant" metadata)) in
  match List.find (λ v, bool_decide (runes v = value)) [AssignmentCandidate; AssignmentLive; AssignmentUnassigned] with
  | Some v => v
  | None =>
    match omap (λ key, metadata !! key) ["harness.canary.candidate"; "harness.assignment.candidate"] with
    | raw :: _ => if bool_decide (fold_name (trim_space raw) = fold_name "true") then AssignmentCandidate else AssignmentLive
    | [] => AssignmentUnassigned
    end
  end.

Definition compositionMetadataValue (composition : option RunCompositionData) : gmap string string :=
  match composition with None => ∅ | Some c => rc_Metadata c end.

Definition evidence_status (statuses : gmap string string) (e : SessionEvent) : gmap string string :=
  match ev_Type e with
  | EvRunStart | EvRunResume | EvApprovalResolved => <[RunID e := "running"]> statuses
  | EvApprovalRequested => <[RunID e := RunWaitingApproval]> statuses
  | EvRunEnd => match decode_payload EvRunEnd (ev_Data e) with Some (DRunEnd data) => <[RunID e := Status data]> statuses | _ => statuses end
  | _ => statuses
  end.
Definition evidenceStatusTransitions (events : list SessionEvent) : gmap string string := foldl evidence_status ∅ events.

(** A record with its run and segment. *)
Record EvidenceRecord := mk_evidence { ev_ID : string; ev_SegmentSeq : Z; ev_row : evidenceRow }.

Definition run_payload (e : SessionEvent) : option (result RunStartData) :=
  match ev_Type e with
  | EvRunStart => Some (match decode_payload EvRunStart (ev_Data e) with Some (DRunStart d) => Ok d | _ => Err "decode run/start evidence" end)
  | EvRunResume => Some (match decode_payload EvRunResume (ev_Data e) with Some (DRunResume d) => Ok d | _ => Err "decode run/resume evidence" end)
  | _ => None
  end.

Definition revisions (data : RunStartData) : result (string * string) :=
  match Composition data with
  | None => Ok (rs_CompositionRevision data, AssignmentRevision data)
  | Some c =>
    let! calculated := CompositionRevision (Some c) in
    let! calculatedAssignment := CompositionMetadataRevision (rc_Metadata c) in
    Ok (if is_empty (rs_CompositionRevision data) then calculated else rs_CompositionRevision data,
        if is_empty (AssignmentRevision data) then calculatedAssignment else AssignmentRevision data)
  end.

(** The records of one event: none unless it starts or resumes a run that names
    a composition or an assignment. *)
Definition event_evidence (header : SessionOptions) (kind : string) (statuses : gmap string string) (e : SessionEvent) : result (list EvidenceRecord) :=
  match run_payload e with
  | None => Ok []
  | Some data =>
    let! data := data in
    let! (compositionRevision, assignmentRevision) := revisions data in
    if is_empty compositionRevision && is_empty assignmentRevision then Ok []
    else
      let profileID := match Composition data with
                       | Some c => if is_empty (ps_ProfileID (rc_Profile c)) then o_ProfileID header else ps_ProfileID (rc_Profile c)
                       | None => o_ProfileID header end in
      let createdAt := if time_is_zero (ev_Time e) then 0 else event_millis (ev_Time e) in
      Ok [mk_evidence (RunID e) (Seq e)
            (mk_evidence_row kind (TenantID (o_Principal header)) (SubjectID (o_Principal header)) profileID compositionRevision assignmentRevision
               (assignmentVariant (compositionMetadataValue (Composition data))) (default "" (statuses !! RunID e)) createdAt)]
  end.

(** By segment, then by run. *)
Definition evidence_le (a b : EvidenceRecord) : Prop := ev_SegmentSeq a < ev_SegmentSeq b ∨ (ev_SegmentSeq a = ev_SegmentSeq b ∧ String.le (ev_ID a) (ev_ID b)).
#[export] Instance evidence_le_dec : RelDecision evidence_le.
Proof. intros a b. unfold evidence_le. apply _. Defined.

Definition deriveRunEvidence (header : SessionOptions) (events : list SessionEvent) : result (list EvidenceRecord) :=
  let kind := if is_empty (meta "backtest_of" (o_Metadata header)) then EvidenceRun else EvidenceBacktest in
  let statuses := evidenceStatusTransitions events in
  let! out := rfold (λ out e, let! records := event_evidence header kind statuses e in Ok (out ++ records)) [] events in
  Ok (merge_sort evidence_le out).

(** INSERT ... ON CONFLICT DO UPDATE: every column but [created_at]. *)
Definition upsert_evidence (session : string) (maxRecords : Z) (acc : Z * Db) (record : EvidenceRecord) : result (Z * Db) :=
  let '(stored, d) := acc in
  let key := (session, ev_ID record, ev_SegmentSeq record) in
  let row := ev_row record in
  match db_evidence d !! key with
  | Some old =>
    Ok (stored, set_evidence (<[key := mk_evidence_row (er_kind row) (er_tenant row) (er_subject row) (er_profile row) (er_composition row)
                                         (er_assignment row) (er_variant row) (er_status row) (er_created old)]> (db_evidence d)) d)
  | None =>
    fail_when maxRecords <=? stored with "run evidence exceeds maximum" ;;
    Ok (stored + 1, set_evidence (<[key := row]> (db_evidence d)) d)
  end.

(** UPDATE run_evidence SET status = ? WHERE session_id = ? AND run_id = ?, for
    every run of [statuses]. *)
Definition update_evidence_status (session : string) (statuses : gmap string string) (d : Db) : Db :=
  set_evidence (map_imap (λ key row,
    Some (if bool_decide (key.1.1 = session)
          then match statuses !! key.1.2 with
               | Some status => mk_evidence_row (er_kind row) (er_tenant row) (er_subject row) (er_profile row) (er_composition row) (er_assignment row)
                                  (er_variant row) status (er_created row)
               | None => row
               end
          else row)) (db_evidence d)) d.

Definition insertRunEvidence (session : string) (header : SessionOptions) (events : list SessionEvent) (maxRecords : Z) (d : Db) : result Db :=
  let! records := deriveRunEvidence header events in
  let maxRecords := if maxRecords <=? 0 then MaxEvidenceRecords else maxRecords in
  let! (_, d) := rfold (upsert_evidence session maxRecords) (Z.of_nat (size (db_evidence d)), d) records in
  Ok (update_evidence_status session (evidenceStatusTransitions events) d).

(** ** The session store *)

Definition MaxStoredSessions : Z := 4096.
Definition MaxEventChunksPerSession : Z := 4096.
Definition MaxEventChunkBytes : Z := 16 * 2 ^ 20.

Record SQLSessionStore := mk_sql_sessions { ss_dialect : SQLDialect; ss_maxSessions : Z; maxEventChunks : Z; maxEvidence : Z }.

Definition sql_sessionCap (s : SQLSessionStore) : Z := if 0 <? ss_maxSessions s then ss_maxSessions s else MaxStoredSessions.
Definition evidenceCap (s : SQLSessionStore) : Z := if 0 <? maxEvidence s then maxEvidence s else MaxEvidenceRecords.
Definition eventChunkCap (s : SQLSessionStore) : Z := if 0 <? maxEventChunks s then maxEventChunks s else MaxEventChunksPerSession.

(** The lines of a chunk: the size is checked after every line. *)
Fixpoint encode_lines (size : Z) (events : list SessionEvent) : result (list json) :=
  match events with
  | [] => Ok []
  | e :: events =>
    match event_to_json e with
    | None => Err "json: error calling MarshalJSON"
    | Some line =>
      let size := size + json_len line + 1 in
      fail_when MaxEventChunkBytes <? size with "event chunk exceeds 16777216 bytes" ;;
      let! lines := encode_lines size events in Ok (line :: lines)
    end
  end.

Definition session_chunks (session : string) (d : Db) : list (Z * list json) :=
  omap (λ '(key, lines), if bool_decide (key.1 = session) then Some (key.2, lines) else None) (map_to_list (db_chunks d)).

Definition insertChunk (s : SQLSessionStore) (session : string) (startSeq : Z) (events : list SessionEvent) (d : Db) : result Db :=
  let! lines := encode_lines 0 events in
  fail_when eventChunkCap s <=? Z.of_nat (length (session_chunks session d)) with "session event chunks exceed maximum" ;;
  match db_chunks d !! (session, startSeq) with
  | Some _ => Err ErrDuplicate
  | None => Ok (set_chunks (<[(session, startSeq) := lines]> (db_chunks d)) d)
  end.

Definition sql_Create (s : SQLSessionStore) (session : Session) (now : Time) (d : Db) : result unit * Db :=
  sql! _ := ValidateSessionID (s_id session) or d in
  let header := options_of session in
  let events := s_events session in
  let count := Z.of_nat (length events) in
  let id := s_id session in
  if sql_sessionCap s <=? Z.of_nat (size (db_sessions d)) then
    (match db_sessions d !! id with Some _ => Err ErrSessionConflict | None => Err "stored sessions exceed maximum" end, d)
  else match db_sessions d !! id with
  | Some _ => (Err (duplicateAsConflict ErrDuplicate), d)
  | None =>
    let d1 := set_sessions (<[id := mk_session_row count (TenantID (o_Principal header)) (SubjectID (o_Principal header)) (o_ProfileID header)
                                     count (options_to_json header) (UnixMilli now)]> (db_sessions d)) d in
    if 0 <? count then
      sql! d2 := insertChunk s id 0 events d1 or d in
      sql! d3 := insertRunEvidence id header events (evidenceCap s) d2 or d in
      (Ok tt, d3)
    else (Ok tt, d1)
  end.

(** *** Reading a session *)

Fixpoint decode_lines (lines : list json) : result (list SessionEvent) :=
  match lines with
  | [] => Ok []
  | line :: lines =>
    fail_when MaxSessionEventDataBytes + 2 ^ 20 <? json_len line with "decode session event: encoded event exceeds size limit" ;;
    match dec_event line with
    | None => Err "decode session event"
    | Some e => let! events := decode_lines lines in Ok (e :: events)
    end
  end.

Fixpoint decode_chunks (nextSeq : Z) (chunks : list (Z * list json)) : result (list SessionEvent) :=
  match chunks with
  | [] => Ok []
  | (startSeq, lines) :: chunks =>
    fail_when negb (startSeq =? nextSeq) with "session chunk sequence discontinuous" ;;
    let! decoded := decode_lines lines in
    let! events := decode_chunks (nextSeq + Z.of_nat (length decoded)) chunks in Ok (decoded ++ events)
  end.

Definition start_le (a b : Z * list json) : Prop := a.1 ≤ b.1.
#[export] Instance start_le_dec : RelDecision start_le.
Proof. intros a b. unfold start_le. apply _. Defined.

Definition validateCommittedSessionVersion (version : Z) : result unit :=
  fail_when (version <? 0) || (MaxSessionEvents <? version) with "session committed version is outside the supported range" ;; Ok tt.

(** [restore] and [restoreFencedSession]: the committed prefix of the chunks. *)
Definition restore (session : string) (header : SessionOptions) (version : Z) (d : Db) : result Session :=
  let! _ := validateCommittedSessionVersion version in
  let! events := decode_chunks 0 (merge_sort start_le (session_chunks session d)) in
  let events := take (Z.to_nat version) events in
  fail_when Z.of_nat (length events) <? version with "session committed version exceeds restored event count" ;;
  RestoreSession header events.

Definition loadSessionRow (session : string) (d : Db) : result (Z * SessionOptions) :=
  match db_sessions d !! session with
  | None => Err ErrSessionNotFound
  | Some row => match dec_options (sn_header row) with None => Err "decode session header" | Some header => Ok (sn_version row, header) end
  end.

(** The row is read from [d] and the chunks, after it, from [d']. *)
Definition sql_Load (session : string) (d d' : Db) : result Session :=
  let! _ := ValidateSessionID session in
  let! (version, header) := loadSessionRow session d in
  restore session header version d'.

(** *** Appending *)

Fixpoint validateAppendEvents (expectedVersion : Z) (events : list SessionEvent) : result unit :=
  match events with
  | [] => Ok tt
  | e :: events =>
    fail_when negb (Seq e =? expectedVersion) with "event append is discontinuous" ;; validateAppendEvents (expectedVersion + 1) events
  end.

Definition set_tip (version now : Z) (row : sessionRow) : sessionRow :=
  mk_session_row version (sn_tenant row) (sn_user row) (sn_profile row) version (sn_header row) now.

Definition AppendEvents (s : SQLSessionStore) (session : string) (expectedVersion : Z) (events : list SessionEvent) (now : Time) (d : Db) : result unit * Db :=
  sql! _ := ValidateSessionID session or d in
  sql! _ := validateAppendEvents expectedVersion events or d in
  match db_sessions d !! session with
  | None => (Err ErrSessionNotFound, d)
  | Some row =>
    if negb (sn_version row =? expectedVersion) then (Err ErrSessionConflict, d)
    else
      sql! d1 := match events with
                 | [] => Ok d
                 | _ => let! d1 := insertChunk s session expectedVersion events d in
                        match dec_options (sn_header row) with
                        | None => Err "decode session header for evidence"
                        | Some options => insertRunEvidence session options events (evidenceCap s) d1
                        end
                 end or d in
      match db_sessions d1 !! session with
      | Some tip =>
        if sn_version tip =? sn_version row
        then (Ok tt, set_sessions (<[session := set_tip (expectedVersion + Z.of_nat (length events)) (UnixMilli now) tip]> (db_sessions d1)) d1)
        else (Err ErrSessionConflict, d)
      | None => (Err ErrSessionConflict, d)
      end
  end.

Definition sql_Save (s : SQLSessionStore) (session : Session) (expectedVersion : Z) (now : Time) (d : Db) : result unit * Db :=
  if Version session <? expectedVersion then (Err "session history shrank", d)
  else AppendEvents s (s_id session) expectedVersion (EventsFrom session expectedVersion) now d.

(** *** The catalog *)

Record SessionSummary := mk_session_summary {
  sy_ID : string; sy_TenantID : string; sy_UserID : string; sy_ProfileID : string; sy_EventCount : Z; sy_UpdatedAt : Time }.

Definition fresher (a b : string * sessionRow) : Prop := sn_updated b.2 ≤ sn_updated a.2.
#[export] Instance fresher_dec : RelDecision fresher.
Proof. intros a b. unfold fresher. apply _. Defined.

Definition ListSessions (tenantID userID : string) (limit : Z) (d : Db) : result (list SessionSummary) :=
  let! _ := validateSQLTextFilter tenantID in
  let! _ := validateSQLTextFilter userID in
  let limit := if limit <=? 0 then 50 else limit in
  let rows := List.filter (λ kv, bool_decide (sn_tenant kv.2 = tenantID) && bool_decide (sn_user kv.2 = userID)) (map_to_list (db_sessions d)) in
  Ok ((λ '(id, row), mk_session_summary id (sn_tenant row) (sn_user row) (sn_profile row) (sn_count row) (of_milli (sn_updated row)))
        <$> take (Z.to_nat limit) (merge_sort fresher rows)).
