(* ===== verification/SessionFence.v ===== *)
(** * Fenced session writes: [src/pkg/storage/session_fence.go] and
    [sql_session_fence.go]

    A queued worker appends to a session only while it holds the run's claim (its
    worker id and generation, with a live lease), the run is running and not
    cancelled, and it holds the session's lease; all of it is checked in the
    transaction of the append, at its start and again when the version advances.

    The clock is the database's, in milliseconds, and is read per statement:
    [t0] when the fence is acquired, [t1] when a failed acquisition is classified
    and [t2] when the version advances. *)
From S2P Require Import Prelude GoString Json Sha256 Scope Principal GoTime Payload Events Message Session SessionStore Repair ControlDb RunControl ControlJson SqlSession.
From stdpp Require Import gmap strings list sorting.
From Stdlib Require Import ZArith Lia Ascii.
Open Scope Z_scope.

Record SessionWriteFence := mk_fence {
  fn_SessionID : string; fn_RunID : string; fn_TenantID : string; fn_SubjectID : string; fn_WorkerID : string; fn_QueueGeneration : Z;
  fn_LeaseHolder : string }.

Definition ErrSessionWriteFenceLost := "session write fence lost".
Definition sessionWriteFenceLost (reason : string) : string := ErrSessionWriteFenceLost +:+ ": " +:+ reason.
(** [errors.Is(err, ErrSessionWriteFenceLost)] *)
Definition is_fence_lost (e : string) : bool := String.prefix ErrSessionWriteFenceLost e.

Definition validateSessionWriteFence (f : SessionWriteFence) : result unit :=
  let! _ := ValidateSessionID (fn_SessionID f) in
  let! _ := ValidateRunID (fn_RunID f) in
  fail_when blank (fn_TenantID f) with "session write fence tenant id is empty" ;;
  let! _ := validateSQLTextFilter (fn_TenantID f) in
  fail_when blank (fn_SubjectID f) with "session write fence subject id is empty" ;;
  let! _ := validateSQLTextFilter (fn_SubjectID f) in
  let! _ := validateWorkerID (fn_WorkerID f) in
  fail_when fn_QueueGeneration f <=? 0 with "session write fence queue generation must be positive" ;;
  validateLeaseHolder (fn_LeaseHolder f).

Definition validateFencedAppend (f : SessionWriteFence) (expectedVersion : Z) (events : list SessionEvent) : result unit :=
  let! _ := validateSessionWriteFence f in
  fail_when expectedVersion <? 0 with "session append expected version must not be negative" ;;
  let! _ := validateAppendEvents expectedVersion events in
  check_all (λ e, fail_when negb (bool_decide (RunID e = fn_RunID f)) with "event belongs to another run" ;; Ok tt) events.

(** ** The fence *)

(** The EXISTS subquery over run_control, run_queue and session_leases. *)
Definition owns (f : SessionWriteFence) (now : Z) (d : Db) : bool :=
  match db_runs d !! fn_RunID f, db_queue d !! fn_RunID f with
  | Some r, Some q =>
    bool_decide (rr_session r = fn_SessionID f) && bool_decide (rr_tenant r = fn_TenantID f) && bool_decide (rr_subject r = fn_SubjectID f)
    && is_running r && negb (rr_cancel r)
    && bool_decide (qr_worker q = fn_WorkerID f) && (qr_generation q =? fn_QueueGeneration f) && (now <? qr_lease q)
    && match db_leases d !! rr_session r with
       | Some l => bool_decide (ls_holder l = fn_LeaseHolder f) && (now <? ls_expires l)
       | None => false
       end
  | _, _ => false
  end.

(** [id = ? AND version = ? AND tenant_id = ? AND user_id = ?] *)
Definition session_matches (f : SessionWriteFence) (version : Z) (row : sessionRow) : bool :=
  (sn_version row =? version) && bool_decide (sn_tenant row = fn_TenantID f) && bool_decide (sn_user row = fn_SubjectID f).

Definition owns_header (f : SessionWriteFence) (options : SessionOptions) : bool :=
  bool_decide (TenantID (o_Principal options) = fn_TenantID f) && bool_decide (SubjectID (o_Principal options) = fn_SubjectID f).

Definition classifySessionFenceFailure (f : SessionWriteFence) (expectedVersion now : Z) (d : Db) : string :=
  match db_sessions d !! fn_SessionID f with
  | None => ErrSessionNotFound
  | Some row =>
    if negb (bool_decide (sn_tenant row = fn_TenantID f) && bool_decide (sn_user row = fn_SubjectID f))
    then sessionWriteFenceLost "session catalog identity does not match fence"
    else match dec_options (sn_header row) with
    | None => "decode session header for fence classification"
    | Some options =>
      if negb (owns_header f options) then sessionWriteFenceLost "fenced identity does not own the session"
      else if negb (owns f now d) then sessionWriteFenceLost "run claim, cancellation state, or session lease does not match"
      else if negb (sn_version row =? expectedVersion) then ErrSessionConflict
      else sessionWriteFenceLost "session write fence did not match"
    end
  end.

(** SQLite: a conditional update takes the writer reservation and validates. *)
Definition acquireSQLiteSessionWriteFence (f : SessionWriteFence) (expectedVersion t0 t1 : Z) (d : Db) : result json :=
  match db_sessions d !! fn_SessionID f with
  | Some row => if session_matches f expectedVersion row && owns f t0 d then Ok (sn_header row) else Err (classifySessionFenceFailure f expectedVersion t1 d)
  | None => Err (classifySessionFenceFailure f expectedVersion t1 d)
  end.

(** PostgreSQL: the rows are locked in order, then compared. *)
Definition lockPostgresSessionWriteFence (f : SessionWriteFence) (now : Z) (d : Db) : result (json * Z) :=
  match db_runs d !! fn_RunID f with
  | None => Err (sessionWriteFenceLost "run control row is missing")
  | Some r =>
  match db_queue d !! fn_RunID f with
  | None => Err (sessionWriteFenceLost "run queue row is missing")
  | Some q =>
  match db_leases d !! fn_SessionID f with
  | None => Err (sessionWriteFenceLost "session lease row is missing")
  | Some l =>
  match db_sessions d !! fn_SessionID f with
  | None => Err ErrSessionNotFound
  | Some row =>
    if negb (bool_decide (rr_session r = fn_SessionID f)) then Err (sessionWriteFenceLost "run belongs to another session")
    else if negb (bool_decide (rr_tenant r = fn_TenantID f)) || negb (bool_decide (rr_subject r = fn_SubjectID f)) then Err (sessionWriteFenceLost "run owner changed")
    else if negb (is_running r) then Err (sessionWriteFenceLost "run is not running")
    else if rr_cancel r then Err (sessionWriteFenceLost "run cancellation was requested")
    else if negb (bool_decide (qr_worker q = fn_WorkerID f)) then Err (sessionWriteFenceLost "run queue worker changed")
    else if negb (qr_generation q =? fn_QueueGeneration f) then Err (sessionWriteFenceLost "run queue generation changed")
    else if qr_lease q <=? now then Err (sessionWriteFenceLost "run queue lease expired")
    else if negb (bool_decide (ls_holder l = fn_LeaseHolder f)) then Err (sessionWriteFenceLost "session lease holder changed")
    else if ls_expires l <=? now then Err (sessionWriteFenceLost "session lease expired")
    else if negb (bool_decide (sn_tenant row = fn_TenantID f)) || negb (bool_decide (sn_user row = fn_SubjectID f))
    then Err (sessionWriteFenceLost "session catalog identity does not match fence")
    else Ok (sn_header row, sn_version row)
  end end end end.

Definition acquirePostgresSessionWriteFence (f : SessionWriteFence) (expectedVersion now : Z) (d : Db) : result json :=
  let! (header, committed) := lockPostgresSessionWriteFence f now d in
  fail_when negb (committed =? expectedVersion) with ErrSessionConflict ;; Ok header.

Definition acquire_fence (s : SQLSessionStore) (f : SessionWriteFence) (expectedVersion t0 t1 : Z) (d : Db) : result json :=
  match ss_dialect s with
  | SQLDialectSQLite => acquireSQLiteSessionWriteFence f expectedVersion t0 t1 d
  | SQLDialectPostgres => acquirePostgresSessionWriteFence f expectedVersion t0 d
  end.

(** [fencedSessionTipUpdate] *)
Definition fencedSessionTipUpdate (f : SessionWriteFence) (expectedVersion targetVersion now : Z) (d : Db) : bool * Db :=
  match db_sessions d !! fn_SessionID f with
  | Some row =>
    if session_matches f expectedVersion row && owns f now d
    then (true, set_sessions (<[fn_SessionID f := set_tip targetVersion now row]> (db_sessions d)) d) else (false, d)
  | None => (false, d)
  end.

(** ** Appending *)

(** The chunk, its evidence and the version, once the fence is acquired. *)
Definition write_fenced (s : SQLSessionStore) (f : SessionWriteFence) (expectedVersion : Z) (options : SessionOptions) (events : list SessionEvent)
    (t2 : Z) (lost : string) (d : Db) : result unit * Db :=
  sql! d1 := insertChunk s (fn_SessionID f) expectedVersion events d or d in
  sql! d2 := insertRunEvidence (fn_SessionID f) options events (evidenceCap s) d1 or d in
  let '(advanced, d3) := fencedSessionTipUpdate f expectedVersion (expectedVersion + Z.of_nat (length events)) t2 d2 in
  if negb advanced then (Err (sessionWriteFenceLost lost), d) else (Ok tt, d3).

(** The header of the session, once the fence is acquired. *)
Definition fenced_options (s : SQLSessionStore) (f : SessionWriteFence) (expectedVersion t0 t1 : Z) (d : Db) : result SessionOptions :=
  let! header := acquire_fence s f expectedVersion t0 t1 d in
  match dec_options header with
  | None => Err "decode session header for fence"
  | Some options => fail_when negb (owns_header f options) with (sessionWriteFenceLost "fenced identity does not own the session") ;; Ok options
  end.

Definition appendEventsFenced (s : SQLSessionStore) (f : SessionWriteFence) (expectedVersion : Z) (events : list SessionEvent) (t0 t1 t2 : Z) (d : Db) :
    result unit * Db :=
  sql! _ := validateFencedAppend f expectedVersion events or d in
  match events with
  | [] => (Ok tt, d)
  | _ =>
    sql! options := fenced_options s f expectedVersion t0 t1 d or d in
    write_fenced s f expectedVersion options events t2 "claim, cancellation state, or session lease expired before commit" d
  end.

(** ** Repair *)

(** The loop over both lists. *)
Fixpoint match_candidate (expectedVersion : Z) (candidate synthetic : list SessionEvent) : result unit :=
  match candidate, synthetic with
  | c :: candidate, s :: synthetic =>
    fail_when negb (Seq c =? expectedVersion) with "fenced repair candidate event has a wrong sequence" ;;
    fail_when time_is_zero (ev_Time c) with "fenced repair candidate event has no append timestamp" ;;
    fail_when negb (bool_decide (RunID c = RunID s)) || negb (bool_decide (ev_Type c = ev_Type s)) || negb (bool_decide (ev_Data c = ev_Data s))
      with "fenced repair candidate event does not match the committed repair suffix" ;;
    match_candidate (expectedVersion + 1) candidate synthetic
  | _, _ => Ok tt
  end.

Definition validateFencedRepairCandidate (expectedVersion : Z) (candidate synthetic : list SessionEvent) : result unit :=
  fail_when negb (Z.of_nat (length candidate) =? Z.of_nat (length synthetic)) with "fenced repair candidate has another length" ;;
  match_candidate expectedVersion candidate synthetic.

(** The repair of the committed tail, recomputed in the transaction; [clock]
    dates the events it appends. *)
Definition appendInterruptedSessionRepairFenced (s : SQLSessionStore) (clock : Z → string) (f : SessionWriteFence) (expectedVersion : Z)
    (candidate : list SessionEvent) (t0 t1 t2 : Z) (d : Db) : result (Session * bool) * Db :=
  sql! _ := validateSessionWriteFence f or d in
  sql! _ := fail_when expectedVersion <? 0 with "session repair expected version must not be negative" ;; Ok tt or d in
  sql! _ := fail_when bool_decide (candidate = []) with "fenced session repair candidate is empty" ;; Ok tt or d in
  sql! _ := validateAppendEvents expectedVersion candidate or d in
  sql! _ := fail_when existsb (λ e, time_is_zero (ev_Time e)) candidate with "fenced repair candidate event has no append timestamp" ;; Ok tt or d in
  sql! options := fenced_options s f expectedVersion t0 t1 d or d in
  sql! committed := restore (fn_SessionID f) options expectedVersion d or d in
  let synthetic := RepairInterrupted (s_events committed) in
  sql! _ := fail_when bool_decide (synthetic = []) with "fenced repair candidate does not match an interrupted committed session tail" ;; Ok tt or d in
  sql! _ := validateFencedRepairCandidate expectedVersion candidate synthetic or d in
  sql! copy := Clone committed or d in
  let '(repaired, _, verdict) := AppendRepair clock copy synthetic in
  sql! _ := verdict or d in
  let '(written, d') := write_fenced s f expectedVersion options (EventsFrom repaired expectedVersion) t2
                          "claim, cancellation state, or session lease expired before fenced repair commit" d in
  (let! _ := written in Ok (repaired, true), d').

(** The session is reloaded from [latest] after a version conflict. *)
Definition RepairInterruptedSessionFenced (s : SQLSessionStore) (clock clock' : Z → string) (f : SessionWriteFence) (session : Session)
    (t0 t1 t2 : Z) (latest : Db * Db) (d : Db) : result (Session * bool) * Db :=
  sql! _ := validateSessionWriteFence f or d in
  sql! _ := fail_when negb (bool_decide (s_id session = fn_SessionID f)) with "repair session does not match fenced session" ;; Ok tt or d in
  sql! repaired := Clone session or d in
  let synthetic := RepairInterrupted (s_events repaired) in
  if bool_decide (synthetic = []) then (Ok (repaired, false), d)
  else
    let expectedVersion := Version repaired in
    let '(repaired, _, verdict) := AppendRepair clock repaired synthetic in
    sql! _ := verdict or d in
    match appendInterruptedSessionRepairFenced s clock' f expectedVersion (EventsFrom repaired expectedVersion) t0 t1 t2 d with
    | (Ok persisted, d') => (Ok persisted, d')
    | (Err e, d') =>
      if is_fence_lost e || negb (bool_decide (e = ErrSessionConflict)) then (Err e, d')
      else
        sql! reloaded := sql_Load (s_id session) (fst latest) (snd latest) or d' in
        (if bool_decide (RepairInterrupted (s_events reloaded) = []) then Ok (reloaded, false) else Err e, d')
    end.
