(* ===== verification/RunSystem.v ===== *)
(** * The control plane as a transition system

    [control_op] lists the transactions and statements that write the tables of
    [ControlDb]; [apply_op] is the database after one of them.  [phase] reads the
    state of one run from its two rows, and [life] is the life cycle of a run:
    every operation moves every run along it ([op_follows]).  What holds of the
    control plane over time is proved on [life]. *)
From S2P Require Import Prelude Prog GoString Json Sha256 Payload Events Message Session SessionStore Repair ControlDb RunControl ControlJson ApprovalStore SqlSession SessionFence.
From stdpp Require Import gmap strings list sorting relations.
From Stdlib Require Import ZArith Lia.
Open Scope Z_scope.

(** ** Operations *)

Inductive control_op :=
| OpCreateRun (seen : Db) (record : RunRecord)
| OpEnqueueRun (seen : Db) (run : QueuedRun)
| OpEnqueueRunOnce (seen : Db) (run : QueuedRun) (key digest : string)
| OpClaim (worker : string) (ttl : Z) (skip : gset string) (tie : nat)
| OpRenew (id worker : string) (generation ttl : Z)
| OpRetry (id worker : string) (generation : Z) (available : Time) (code : string)
| OpPauseClaim (id worker : string) (generation : Z)
| OpPause (id message : string) (maxAttempts : Z) (trace : TelemetryTraceContext)
| OpFinishClaim (id worker : string) (generation : Z) (status code : string)
| OpRecover (skip : gset string)
| OpFailStale (olderThan : Time)
| OpCancel (id : string)
| OpHeartbeat (id : string)
| OpFinish (id status code : string)
| OpPruneSubmissions (olderThan : Time)
| OpInsertApproval (id : string) (row : approvalRow)
| OpDecide (id decision actor : string)
| OpDeny (id decision actor : string)
| OpPruneApprovals (olderThan : Time)
| OpLeaseSteal (session holder : string) (expires : Z)
| OpLeaseInsert (session holder : string) (expires : Z)
| OpRenewLease (session holder : string) (ttl : Z)
| OpReleaseLease (session holder : string)
| OpPruneLeases
| OpCreateSession (session : Session)
| OpAppendEvents (session : string) (expectedVersion : Z) (events : list SessionEvent)
| OpAppendFenced (f : SessionWriteFence) (expectedVersion : Z) (events : list SessionEvent) (t1 t2 : Z)
| OpRepairFenced (clock : Z → string) (f : SessionWriteFence) (expectedVersion : Z) (candidate : list SessionEvent) (t1 t2 : Z).

Definition claim_guard (worker : string) (ttl : Z) : result unit :=
  let! _ := validateWorkerID worker in fail_when ttl <=? 0 with "run claim lease ttl must be positive" ;; Ok tt.

(** The stores on one database. *)
Record Stores := mk_stores { ctl : SQLRunControlStore; ses : SQLSessionStore }.

Definition apply_op (s : Stores) (now : Time) (op : control_op) (d : Db) : Db :=
  match op with
  | OpCreateRun seen record => (CreateRun (ctl s) seen record now d).2
  | OpEnqueueRun seen run => (EnqueueRun (ctl s) seen run now d).2
  | OpEnqueueRunOnce seen run key digest => (EnqueueRunOnce (ctl s) seen run key digest now d).2
  | OpClaim worker ttl skip tie => match claim_guard worker ttl with Ok _ => (claim_once worker ttl skip tie now d).2 | Err _ => d end
  | OpRenew id worker generation ttl => (RenewRunClaim (ctl s) id worker generation ttl now d).2
  | OpRetry id worker generation available code => (RetryRunClaim id worker generation available code now d).2
  | OpPauseClaim id worker generation => (PauseRunClaim id worker generation now d).2
  | OpPause id message maxAttempts trace => (PauseRun id message maxAttempts trace now d).2
  | OpFinishClaim id worker generation status code => (FinishRunClaim id worker generation status code now d).2
  | OpRecover skip => (RecoverExpiredRunClaims skip now d).2
  | OpFailStale olderThan => (FailStaleRuns olderThan now d).2
  | OpCancel id => (RequestRunCancel id now d).2
  | OpHeartbeat id => (HeartbeatRun id now d).2
  | OpFinish id status code => (FinishRun id status code now d).2
  | OpPruneSubmissions olderThan => (PruneRunSubmissions olderThan d).2
  | OpInsertApproval id row => (approval_exec now (InsertApproval id row) d).2
  | OpDecide id decision actor => (approval_exec now (DecideTx id decision actor now) d).2
  | OpDeny id decision actor => (approval_exec now (DecideStatement id decision actor (UnixMilli now)) d).2
  | OpPruneApprovals olderThan => (PruneApprovals olderThan d).2
  | OpLeaseSteal session holder expires => (lease_exec (LeaseSteal session holder expires (UnixMilli now)) d).2
  | OpLeaseInsert session holder expires => (lease_exec (LeaseInsert session holder expires) d).2
  | OpRenewLease session holder ttl => (RenewSessionLease session holder ttl now d).2
  | OpReleaseLease session holder => (ReleaseSessionLease session holder d).2
  | OpPruneLeases => (PruneExpiredLeases now d).2
  | OpCreateSession session => (sql_Create (ses s) session now d).2
  | OpAppendEvents session expectedVersion events => (AppendEvents (ses s) session expectedVersion events now d).2
  | OpAppendFenced f expectedVersion events t1 t2 => (appendEventsFenced (ses s) f expectedVersion events (UnixMilli now) t1 t2 d).2
  | OpRepairFenced clock f expectedVersion candidate t1 t2 =>
      (appendInterruptedSessionRepairFenced (ses s) clock f expectedVersion candidate (UnixMilli now) t1 t2 d).2
  end.

(** The count of a creating transaction on SQLite sees the database it changes. *)
Definition counts_here (s : Stores) (op : control_op) (d : Db) : Prop :=
  match op with
  | OpCreateRun seen _ | OpEnqueueRun seen _ | OpEnqueueRunOnce seen _ _ _ => st_dialect (ctl s) = SQLDialectSQLite → seen = d
  | _ => True
  end.

Definition control_step (s : Stores) (d d' : Db) : Prop := ∃ now op, counts_here s op d ∧ d' = apply_op s now op d.

(** ** The life cycle of a run *)

(** What the task of a run counts. *)
Record task := mk_task { tk_generation : Z; tk_attempt : Z; tk_max : Z }.

Inductive lifecycle :=
| LAbsent
| LQueued (t : task) (cancel : bool)
| LClaimed (worker : string) (lease : Z) (t : task) (cancel : bool)
| LDirect (cancel : bool)
| LWaiting (t : task) (cancel : bool)
| LDone (status : string).

Definition terminal_statuses : list string := [RunCompleted; RunLimited; RunFailed; RunCancelled].

Definition task_of (q : queueRow) : task := mk_task (qr_generation q) (qr_attempt q) (qr_max q).

Definition rows_phase (r : option runRow) (q : option queueRow) : option lifecycle :=
  match r, q with
  | None, None => Some LAbsent
  | None, Some _ => None
  | Some r, None =>
    if is_running r then Some (LDirect (rr_cancel r))
    else if bool_decide (rr_status r ∈ terminal_statuses) then Some (LDone (rr_status r)) else None
  | Some r, Some q =>
    if is_running r then (if is_empty (qr_worker q) then None else Some (LClaimed (qr_worker q) (qr_lease q) (task_of q) (rr_cancel r)))
    else if negb (is_empty (qr_worker q)) then None
    else if is_queued r then Some (LQueued (task_of q) (rr_cancel r))
    else if is_waiting r then Some (LWaiting (task_of q) (rr_cancel r)) else None
  end.

Definition phase (d : Db) (id : string) : option lifecycle := rows_phase (db_runs d !! id) (db_queue d !! id).

Inductive life : lifecycle → lifecycle → Prop :=
| life_create : life LAbsent (LDirect false)
| life_enqueue max : 1 ≤ max ≤ HardRunMaxAttempts → life LAbsent (LQueued (mk_task 0 0 max) false)
| life_claim worker lease g a max : worker ≠ "" →
    life (LQueued (mk_task g a max) false) (LClaimed worker lease (mk_task (g + 1) (a + 1) max) false)
| life_renew worker lease lease' t c : life (LClaimed worker lease t c) (LClaimed worker lease' t c)
| life_flag worker lease t c : life (LClaimed worker lease t c) (LClaimed worker lease t true)
| life_flag_direct c : life (LDirect c) (LDirect true)
| life_retry worker lease t c : life (LClaimed worker lease t c) (LQueued t c)
| life_pause worker lease g a max c : life (LClaimed worker lease (mk_task g a max) c) (LWaiting (mk_task g (if 0 <? a then a - 1 else 0) max) c)
| life_park max c : 1 ≤ max ≤ HardRunMaxAttempts → life (LDirect c) (LWaiting (mk_task 0 0 max) c)
| life_resume t : life (LWaiting t false) (LQueued t false)
| life_finish worker lease t c status : status ∈ terminal_statuses → life (LClaimed worker lease t c) (LDone status)
| life_finish_direct c status : status ∈ terminal_statuses → life (LDirect c) (LDone status)
| life_cancel_queued t c : life (LQueued t c) (LDone RunCancelled)
| life_cancel_waiting t c : life (LWaiting t c) (LDone RunCancelled).
Create HintDb life_db.
#[export] Hint Constructors life : life_db.
#[export] Hint Resolve rtc_once rtc_refl : life_db.

(** ** Following the life cycle *)

Definition controlled (d : Db) : Prop := ∀ id, is_Some (phase d id).

Definition follows (d d' : Db) : Prop := ∀ id p, phase d id = Some p → ∃ p', phase d' id = Some p' ∧ rtc life p p'.

#[export] Instance follows_refl : Reflexive follows.
Proof. intros d id p Hp. by exists p. Qed.
#[export] Instance follows_trans : Transitive follows.
Proof.
  intros a b c Hab Hbc id p Hp. destruct (Hab id p Hp) as (p1 & Hp1 & H1). destruct (Hbc id p1 Hp1) as (p2 & Hp2 & H2).
  exists p2. split; [done|]. by transitivity p1.
Qed.

(** The tables of the runs are untouched. *)
Definition same_runs (d d' : Db) : Prop := db_runs d' = db_runs d ∧ db_queue d' = db_queue d.

Lemma same_runs_follows d d' : same_runs d d' → follows d d'.
Proof. intros [Hr Hq] id p Hp. exists p. split; [|done]. unfold phase in *. by rewrite Hr, Hq. Qed.

Definition elsewhere (id : string) (d d' : Db) : Prop :=
  ∀ j, j ≠ id → db_runs d' !! j = db_runs d !! j ∧ db_queue d' !! j = db_queue d !! j.

Lemma follows_at id d d' :
  elsewhere id d d' → (∀ p, phase d id = Some p → ∃ p', phase d' id = Some p' ∧ rtc life p p') → follows d d'.
Proof.
  intros Hoff Hat j p Hp. destruct (decide (j = id)) as [->|Hj]; [by apply Hat|].
  exists p. split; [|done]. unfold phase in *. by destruct (Hoff j Hj) as [-> ->].
Qed.

(** Phases of rows whose status is known. *)
Lemma phase_running d id p r :
  phase d id = Some p → db_runs d !! id = Some r → is_running r = true →
  (db_queue d !! id = None ∧ p = LDirect (rr_cancel r))
  ∨ ∃ q, db_queue d !! id = Some q ∧ qr_worker q ≠ "" ∧ p = LClaimed (qr_worker q) (qr_lease q) (task_of q) (rr_cancel r).
Proof.
  unfold phase. intros Hp Hr Hrun. rewrite Hr in Hp. cbn in Hp. rewrite Hrun in Hp. destruct (db_queue d !! id) as [q|]; [right|left; naive_solver].
  unfold is_empty in Hp. case_bool_decide; [done|]. naive_solver.
Qed.

Lemma running_not_queued r : is_queued r = true ∨ is_waiting r = true → is_running r = false.
Proof. unfold is_queued, is_waiting, is_running. rewrite !bool_decide_eq_true. intros [-> | ->]; reflexivity. Qed.

Lemma phase_unclaimed d id p r :
  phase d id = Some p → db_runs d !! id = Some r → is_queued r = true ∨ is_waiting r = true →
  ∃ q, db_queue d !! id = Some q ∧ qr_worker q = "" ∧
    p = (if is_queued r then LQueued (task_of q) (rr_cancel r) else LWaiting (task_of q) (rr_cancel r)).
Proof.
  unfold phase. intros Hp Hr Hst. rewrite Hr in Hp. cbn in Hp. rewrite (running_not_queued r Hst) in Hp.
  destruct (db_queue d !! id) as [q|].
  - unfold is_empty in Hp. case_bool_decide as Hw; [|done]. cbn in Hp. exists q. split_and!; [done..|]. destruct Hst as [E|E]; rewrite E in *.
    + naive_solver.
    + destruct (is_queued r); naive_solver.
  - exfalso. unfold is_queued, is_waiting in Hst. rewrite !bool_decide_eq_true in Hst. destruct Hst as [E|E]; rewrite E in Hp; discriminate Hp.
Qed.

(** ** Every operation follows the life cycle *)

Ltac off := let j := fresh in let Hj := fresh in intros j Hj; cbn; rewrite ?lookup_insert_ne, ?lookup_delete_ne by done; done.
Ltac at_id := unfold phase; cbn; simplify_map_eq; cbn.

(** Inversion of a transaction that starts with validations. *)
Ltac inv_sql H := repeat (destruct_match_in H; try (simplify_eq; done)).

Lemma in_terminal status : validateTerminalRunStatus status = Ok tt → status ∈ terminal_statuses.
Proof. unfold validateTerminalRunStatus. rewrite fail_if_ok. intros [H _]. by bool_to_prop. Qed.

Lemma running_status r : is_running r = true ↔ rr_status r = RunStatusRunning.
Proof. unfold is_running. by rewrite bool_decide_eq_true. Qed.

(** A row that is rewritten with its status. *)
Lemma keep_running r s : is_running r = true → rr_status s = rr_status r → is_running s = true.
Proof. rewrite !running_status. congruence. Qed.

(** A terminal row without a task. *)
Lemma rows_done r : rr_status r ∈ terminal_statuses → rows_phase (Some r) None = Some (LDone (rr_status r)).
Proof.
  intros H. cbn. assert (is_running r = false) as ->.
  { unfold is_running. apply bool_decide_eq_false. intros E. rewrite E in H. set_solver. }
  by rewrite bool_decide_eq_true_2.
Qed.

(** A terminal write that removes the task. *)
Lemma finish_follows id d d' r r' :
  db_runs d !! id = Some r → in_flight r = true → rr_status r' ∈ terminal_statuses →
  (is_running r = false → rr_status r' = RunCancelled) →
  db_runs d' = <[id := r']> (db_runs d) → db_queue d' = delete id (db_queue d) → follows d d'.
Proof.
  intros Hr Hfl Hterm Hcan Hruns Hqueue. apply (follows_at id).
  { intros j Hj. rewrite Hruns, Hqueue, lookup_insert_ne, lookup_delete_ne by done. done. }
  intros p Hp. exists (LDone (rr_status r')). unfold phase at 1. rewrite Hruns, Hqueue. simplify_map_eq. split; [by apply rows_done|].
  destruct (is_running r) eqn:Hrun.
  - destruct (phase_running _ _ _ _ Hp Hr Hrun) as [[_ ->]|(q & _ & _ & ->)]; apply rtc_once; by constructor.
  - rewrite (Hcan eq_refl). destruct (phase_unclaimed _ _ _ _ Hp Hr) as (q & _ & _ & ->).
    { unfold in_flight, is_active in Hfl. rewrite Hrun in Hfl. cbn in Hfl. by apply orb_true_iff in Hfl. }
    apply rtc_once. destruct (is_queued r); constructor.
Qed.

(** A rewrite of a running row that keeps its status and may set the flag. *)
Lemma touch_follows id d r r' :
  db_runs d !! id = Some r → is_running r = true → rr_status r' = rr_status r → rr_cancel r' = rr_cancel r ∨ rr_cancel r' = true →
  follows d (set_runs (<[id := r']> (db_runs d)) d).
Proof.
  intros Hr Hrun Hst Hc. apply (follows_at id); [off|]. intros p Hp.
  assert (is_running r' = true) as Hrun' by (by apply (keep_running r)).
  destruct (phase_running _ _ _ _ Hp Hr Hrun) as [[Hq ->]|(q & Hq & Hw & ->)].
  - exists (LDirect (rr_cancel r')). split; [at_id; by rewrite Hrun'|]. destruct Hc as [-> | ->]; auto with life_db.
  - exists (LClaimed (qr_worker q) (qr_lease q) (task_of q) (rr_cancel r')). split.
    + at_id. unfold is_empty. by rewrite Hrun', bool_decide_eq_false_2.
    + destruct Hc as [-> | ->]; auto with life_db.
Qed.

(** A claim released into the queue or into suspension. *)
Lemma release_follows id d r q r' q' :
  db_runs d !! id = Some r → is_running r = true → db_queue d !! id = Some q → qr_worker q' = "" → rr_cancel r' = rr_cancel r →
  (is_queued r' = true ∧ task_of q' = task_of q)
  ∨ (is_waiting r' = true ∧ task_of q' = mk_task (qr_generation q) (if 0 <? qr_attempt q then qr_attempt q - 1 else 0) (qr_max q)) →
  follows d (set_queue (<[id := q']> (db_queue d)) (set_runs (<[id := r']> (db_runs d)) d)).
Proof.
  intros Hr Hrun Hq Hw Hc Hto. apply (follows_at id); [off|]. intros p Hp.
  destruct (phase_running _ _ _ _ Hp Hr Hrun) as [[Hno _]|(q0 & Hq0 & Hw0 & ->)]; [congruence|].
  rewrite Hq in Hq0. injection Hq0 as <-. rewrite <-Hc. at_id.
  unfold is_empty. rewrite (bool_decide_eq_true_2 (qr_worker q' = "")) by done. cbn. destruct Hto as [[Hst Ht]|[Hst Ht]].
  - rewrite (running_not_queued r') by auto. rewrite Hst, Ht. eexists. split; [done|]. apply rtc_once. constructor.
  - rewrite (running_not_queued r') by auto. rewrite Hst, Ht.
    assert (is_queued r' = false) as ->. { unfold is_queued, is_waiting in *. bool_to_prop. rewrite Hst. done. }
    eexists. split; [done|]. apply rtc_once. constructor.
Qed.

Lemma CreateRun_follows s seen record now d : follows d (CreateRun s seen record now d).2.
Proof.
  unfold CreateRun. destruct (validateRunRecord record); [|done]. cbv zeta. destruct (ensureInFlightCapacity s seen); [|done].
  destruct (insert_run _ _ d) as [d'|] eqn:H; [|done]. unfold insert_run in H. destruct (db_runs d !! _) eqn:Hno in H; [done|].
  apply write_run_ok in H as [_ ->]. cbn [snd].
  apply (follows_at (rn_RunID record)); [off|]. intros p Hp. unfold phase in Hp. rewrite Hno in Hp. at_id.
  destruct (db_queue d !! rn_RunID record); [done|]. injection Hp as <-. eexists. split; [done|]. auto with life_db.
Qed.

Lemma insert_queued_follows run now d d' : validateQueuedRun run = Ok tt → insert_queued run now d = Ok d' → follows d d'.
Proof.
  intros Hv H. unfold insert_queued in H. cbv zeta in H. apply rbind_ok in H as (d1 & Hi & H). unfold insert_run in Hi.
  destruct (db_runs d !! _) eqn:Hno in Hi; [done|]. apply write_run_ok in Hi as [_ ->]. unfold insert_queue in H. cbn in H.
  destruct (db_queue d !! _) eqn:Hnq in H; [done|]. injection H as <-.
  apply (follows_at (rn_RunID (qd_run run))); [off|]. intros p Hp. unfold phase in Hp. rewrite Hno, Hnq in Hp. injection Hp as <-. at_id.
  eexists. split; [done|]. apply rtc_once. constructor. unfold validateQueuedRun in Hv. inv_ok Hv. bool_to_prop. unfold DefaultRunMaxAttempts, HardRunMaxAttempts in *.
  cbn. destruct (qd_MaxAttempts run =? 0) eqn:E; bool_to_prop; lia.
Qed.

Lemma EnqueueRun_follows s seen run now d : follows d (EnqueueRun s seen run now d).2.
Proof. unfold EnqueueRun. destruct (validateQueuedRun run) as [[]|] eqn:Hv; [|done]. cbv zeta. destruct (ensureInFlightCapacity s seen); [|done].
  destruct (insert_queued _ _ d) eqn:Hi; [|done]. by eapply insert_queued_follows. Qed.

Lemma insert_submission_same key row d : same_runs d (insert_submission key row d).2.
Proof. unfold insert_submission. repeat destruct_match_goal; done. Qed.

Lemma EnqueueRunOnce_follows s seen run key digest now d : follows d (EnqueueRunOnce s seen run key digest now d).2.
Proof.
  unfold EnqueueRunOnce. destruct (validateQueuedRun run) as [[]|] eqn:Hv; [|done]. destruct (validateRunSubmission _ _); [|done].
  cbv zeta. destruct (submissionCapReached _ _); [done|]. destruct (insert_submission _ _ d) as [b d1] eqn:Hs.
  pose proof (insert_submission_same (submission_key run key)
    (mk_submission digest (rn_RunID (qd_run run)) (UnixMilli (if IsZero (rn_CreatedAt (qd_run run)) then now else rn_CreatedAt (qd_run run)))) d) as Hsame.
  rewrite Hs in Hsame. destruct b; [|done]. cbn. destruct (ensureInFlightCapacity _ _); [|done].
  destruct (insert_queued _ _ d1) eqn:Hi; [|done]. cbn. transitivity d1; [by apply same_runs_follows|]. by eapply insert_queued_follows.
Qed.

Lemma claim_candidates_sound skip now d id r q :
  (id, r, q) ∈ claim_candidates skip now d →
  db_runs d !! id = Some r ∧ db_queue d !! id = Some q ∧ claimable skip now d id r q = true.
Proof.
  unfold claim_candidates. intros ([i s] & Hin & H)%list_elem_of_omap. apply elem_of_map_to_list in Hin.
  destruct (db_queue d !! i) as [q0|] eqn:Hq; [|done]. destruct (claimable skip now d i s q0) eqn:Hc; [|done]. by simplify_eq.
Qed.

Lemma first_candidate_in tie l c : first_candidate tie l = Some c → c ∈ l ∧ ∀ x, x ∈ l → before c x = true.
Proof.
  unfold first_candidate. cbv zeta. intros H.
  assert (c ∈ List.filter (λ a, forallb (before a) l) l) as Hin.
  { destruct (_ !! tie) as [x|] eqn:E; [injection H as <-; by eapply list_elem_of_lookup_2|].
    destruct (List.filter _ l) as [|y l']; [done|]. injection H as ->. left. }
  apply list_elem_of_In, filter_In in Hin as [Hin Hmin]. split; [by apply list_elem_of_In|].
  intros x Hx. rewrite forallb_forall in Hmin. by apply Hmin, list_elem_of_In.
Qed.

Lemma trim_empty : trim_space "" = "".
Proof. reflexivity. Qed.

Lemma worker_nonempty worker : validateWorkerID worker = Ok tt → worker ≠ "".
Proof. intros H ->. discriminate H. Qed.

Lemma claim_once_follows worker ttl skip tie now d : worker ≠ "" → follows d (claim_once worker ttl skip tie now d).2.
Proof.
  intros Hw. unfold claim_once. destruct (first_candidate _ _) as [[[id r] q]|] eqn:Hf; [|done].
  apply first_candidate_in in Hf as [Hin _]. apply claim_candidates_sound in Hin as (Hr & Hq & _).
  destruct (update_run _ _ _ d) as [[b d1]|] eqn:Hu; [|done].
  apply update_run_ok in Hu as [[-> ->]|[-> (r0 & Hr0 & Hg & [_ ->]%write_run_ok)]]; [done|]. rewrite Hr in Hr0. injection Hr0 as <-.
  cbv zeta. unfold update_queue. cbn. rewrite Hq. cbn. apply (follows_at id); [off|]. intros p Hp. bool_to_prop.
  destruct (phase_unclaimed _ _ _ _ Hp Hr) as (q0 & Hq0 & _ & ->); [by left|]. rewrite Hq in Hq0. injection Hq0 as <-.
  match goal with H : is_queued r = true |- _ => rewrite H end. match goal with H : rr_cancel r = false |- _ => rewrite H end.
  at_id. unfold is_empty. rewrite bool_decide_eq_false_2 by done. cbn. eexists. split; [done|]. apply rtc_once.
  by apply life_claim.
Qed.

Lemma RenewRunClaim_follows s id worker generation ttl now d : follows d (RenewRunClaim s id worker generation ttl now d).2.
Proof.
  unfold RenewRunClaim. destruct (validateClaimMutation _ _ _); [|done]. destruct (fail_if _ _ _); [|done].
  destruct (_ && _) in |- *; [done|]. destruct (update_queue _ _ _ d) as [b d1] eqn:Hq.
  apply update_queue_cases in Hq as [[-> ->]|[-> (q & Hq & Hg & ->)]]; [done|]. cbn [negb]. bool_to_prop.
  destruct (db_runs d !! id) as [r|] eqn:Hr; [|done].
  destruct (update_run _ _ _ _) as [[b d2]|] eqn:Hu; [|done]. cbn [snd].
  remember (set_queue (<[id:=_]> (db_queue d)) d) as d1 eqn:Hd1.
  transitivity d1.
  - subst d1. apply (follows_at id); [off|]. intros p Hp.
    destruct (phase_running _ _ _ _ Hp Hr) as [[Hno _]|(q0 & Hq0 & Hw & ->)]; [done|congruence|]. rewrite Hq in Hq0. injection Hq0 as <-.
    at_id. match goal with H : is_running r = true |- _ => rewrite H end. unfold is_empty. rewrite bool_decide_eq_false_2 by done.
    eexists. split; [done|]. apply rtc_once. apply life_renew.
  - apply update_run_ok in Hu as [[-> ->]|[-> (r0 & Hr0 & Hrun & [_ ->]%write_run_ok)]]; [done|].
    eapply touch_follows; [done..|by left].
Qed.

Lemma release_claim_cases id worker generation now f g d b d' :
  release_claim id worker generation now f g d = (Ok b, d') →
  (b = false ∧ d' = d) ∨
  (b = true ∧ ∃ r q, db_runs d !! id = Some r ∧ db_queue d !! id = Some q ∧ is_running r = true ∧ held worker generation now q = true
     ∧ (is_active (f r) = true → other_active id (rr_session (f r)) d = false)
     ∧ d' = set_queue (<[id := g q]> (db_queue d)) (set_runs (<[id := f r]> (db_runs d)) d)).
Proof.
  unfold release_claim. destruct (update_run _ _ f d) as [[u d1]|] eqn:Hu; [|done].
  apply update_run_ok in Hu as [[-> ->]|[-> (r & Hr & Hg & [Hact ->]%write_run_ok)]]; cbn [negb]; [intros [=<- <-]; by left|].
  destruct (update_queue _ _ _ _) as [v d2] eqn:Hq. apply update_queue_cases in Hq as [[-> ->]|[-> (q & Hq & Hh & ->)]]; cbn [negb]; intros [=<- <-]; [by left|].
  right. split; [done|]. bool_to_prop. by exists r, q.
Qed.

Lemma release_claim_rollback id worker generation now f g d e d' : release_claim id worker generation now f g d = (Err e, d') → d' = d.
Proof. unfold release_claim. repeat destruct_match_goal; naive_solver. Qed.

(** Releasing with the rows of [release_follows]. *)
Lemma release_claim_follows id worker generation now f g d :
  (∀ q, qr_worker (g q) = "") → (∀ r, rr_cancel (f r) = rr_cancel r) →
  (∀ r q, (is_queued (f r) = true ∧ task_of (g q) = task_of q)
     ∨ (is_waiting (f r) = true ∧ task_of (g q) = mk_task (qr_generation q) (if 0 <? qr_attempt q then qr_attempt q - 1 else 0) (qr_max q))) →
  follows d (release_claim id worker generation now f g d).2.
Proof.
  intros Hw Hc Hto. destruct (release_claim _ _ _ _ _ _ _) as [[b|e] d'] eqn:H; cbn [snd].
  - apply release_claim_cases in H as [[_ ->]|[_ (r & q & Hr & Hq & Hrun & _ & _ & ->)]]; [done|]. by eapply release_follows.
  - by rewrite (release_claim_rollback _ _ _ _ _ _ _ _ _ H).
Qed.

Lemma RetryRunClaim_follows id worker generation available code now d : follows d (RetryRunClaim id worker generation available code now d).2.
Proof.
  unfold RetryRunClaim. destruct (validateClaimMutation _ _ _); [|done]. destruct (fail_if _ _ _); [|done].
  apply release_claim_follows; [done..|]. by left.
Qed.

Lemma PauseRunClaim_follows id worker generation now d : follows d (PauseRunClaim id worker generation now d).2.
Proof.
  unfold PauseRunClaim. destruct (validateClaimMutation _ _ _); [|done]. apply release_claim_follows; [done..|]. by right.
Qed.

Lemma PauseRun_follows id message max trace now d : follows d (PauseRun id message max trace now d).2.
Proof.
  unfold PauseRun. destruct (ValidateRunID id); [|done]. destruct (fail_if _ _ _); [|done]. cbv zeta.
  remember (if max =? 0 then DefaultRunMaxAttempts else max) as m. destruct (fail_if ((m <? 1) || _) _ _) eqn:Hm; [|done].
  destruct (validateTraceContext trace); [|done]. destruct (update_run _ _ _ d) as [[b d1]|] eqn:Hu; [|done].
  apply update_run_ok in Hu as [[-> ->]|[-> (r & Hr & Hrun & [_ ->]%write_run_ok)]]; [done|]. cbn [negb].
  unfold insert_queue. cbn. destruct (db_queue d !! id) eqn:Hnq; [done|]. cbn. apply (follows_at id); [off|]. intros p Hp.
  destruct (phase_running _ _ _ _ Hp Hr Hrun) as [[_ ->]|(q & Hq & _)]; [|congruence]. at_id. eexists. split; [done|]. apply rtc_once. constructor.
  apply fail_if_ok in Hm as [Hm _]. bool_to_prop. done.
Qed.

Lemma FinishRunClaim_follows id worker generation status code now d : follows d (FinishRunClaim id worker generation status code now d).2.
Proof.
  unfold FinishRunClaim. destruct (validateClaimMutation _ _ _); [|done]. destruct (validateTerminalRunStatus status) as [[]|] eqn:Ht; [|done].
  destruct (update_run _ _ _ d) as [[b d1]|] eqn:Hu; [|done].
  apply update_run_ok in Hu as [[-> ->]|[-> (r & Hr & Hg & [_ ->]%write_run_ok)]]; [done|]. bool_to_prop. unfold claim_held in *. cbn.
  destruct (db_queue d !! id) as [q|] eqn:Hq; [|done]. unfold held in *. bool_to_prop.
  match goal with H : qr_worker q = worker |- _ => rewrite (bool_decide_eq_true_2 _ H) end.
  match goal with H : qr_generation q = _ |- _ => rewrite (proj2 (Z.eqb_eq _ _) H) end. cbn.
  eapply (finish_follows id d _ r); try done; [|by apply in_terminal|]; unfold in_flight, is_active; match goal with H : is_running r = true |- _ => rewrite H end; [|done].
  by rewrite orb_true_r.
Qed.

Lemma FinishRun_follows id status code now d : follows d (FinishRun id status code now d).2.
Proof.
  unfold FinishRun. destruct (ValidateRunID id); [|done]. destruct (validateTerminalRunStatus status) as [[]|] eqn:Ht; [|done].
  destruct (update_run _ _ _ d) as [[b d1]|] eqn:Hu; [|done].
  apply update_run_ok in Hu as [[-> ->]|[-> (r & Hr & Hrun & [_ ->]%write_run_ok)]]; [done|]. cbn [snd].
  eapply (finish_follows id d _ r); try done; [|by apply in_terminal|]; unfold in_flight, is_active; rewrite Hrun; [|done]. by rewrite orb_true_r.
Qed.

Lemma HeartbeatRun_follows id now d : follows d (HeartbeatRun id now d).2.
Proof.
  unfold HeartbeatRun. destruct (ValidateRunID id); [|done]. destruct (update_run _ _ _ d) as [[b d1]|] eqn:Hu; [|done].
  apply update_run_ok in Hu as [[-> ->]|[-> (r & Hr & Hrun & [_ ->]%write_run_ok)]]; [done|]. cbn [snd]. eapply touch_follows; [done..|by left].
Qed.

Lemma RequestRunCancel_follows id now d : follows d (RequestRunCancel id now d).2.
Proof.
  unfold RequestRunCancel. destruct (ValidateRunID id); [|done]. cbv zeta. destruct (update_run _ _ _ d) as [[b d1]|] eqn:Hu; [|done].
  apply update_run_ok in Hu as [[-> ->]|[-> (r & Hr & Hrun & [_ ->]%write_run_ok)]]; [|cbn [snd]; eapply touch_follows; [done..|by right]].
  destruct (update_run _ _ _ d) as [[b d2]|] eqn:Hu; [|done].
  apply update_run_ok in Hu as [[-> ->]|[-> (r & Hr & Hst & [_ ->]%write_run_ok)]]; [done|]. cbn [snd].
  eapply (finish_follows id d _ r); try done; [|cbn; set_solver|intros _; reflexivity]. unfold in_flight, is_active. apply orb_true_iff in Hst as [-> | ->]; [done|].
  by rewrite orb_true_r, orb_true_r.
Qed.

(** *** Recovery *)

Lemma expired_claims_spec skip now d id r q :
  (id, r, q) ∈ expired_claims skip now d ↔ db_runs d !! id = Some r ∧ db_queue d !! id = Some q ∧ expired skip now d id r = true.
Proof.
  unfold expired_claims. rewrite list_elem_of_omap. split.
  - intros ([i s] & Hin & H). apply elem_of_map_to_list in Hin. destruct (db_queue d !! i) as [q0|] eqn:Hq; [|done].
    destruct (expired skip now d i s) eqn:He; [|done]. by simplify_eq.
  - intros (Hr & Hq & He). exists (id, r). split; [by apply elem_of_map_to_list|]. by rewrite Hq, He.
Qed.

Lemma omap_ids_sublist (f : string * runRow → option (string * runRow * queueRow)) l :
  (∀ x c, f x = Some c → c.1.1 = x.1) → sublist (omap f l).*1.*1 l.*1.
Proof.
  intros Hf. induction l as [|x l IH]; [constructor|]. change (omap f (x :: l)) with (match f x with Some c => c :: omap f l | None => omap f l end).
  destruct (f x) as [c|] eqn:E; cbn; [rewrite (Hf x c E)|]; by constructor.
Qed.

Lemma expired_claims_nodup skip now d : NoDup (expired_claims skip now d).*1.*1.
Proof.
  eapply sublist_NoDup; [apply (NoDup_fst_map_to_list (db_runs d))|]. unfold expired_claims. apply omap_ids_sublist.
  intros [i r] c H. repeat (destruct_match_in H; simplify_eq). done.
Qed.

Lemma write_run_inactive id r d : is_active r = false → write_run id r d = Ok (set_runs (<[id := r]> (db_runs d)) d).
Proof. intros H. unfold write_run. by rewrite H. Qed.

(** What recovery makes of the rows of an expired claim. *)
Definition recovered (now : Z) (r : runRow) (q : queueRow) : runRow * option queueRow :=
  if rr_cancel r then (finish_row RunCancelled "cancel_requested" now r, None)
  else if qr_attempt q <? qr_max q then (set_status RunStatusQueued "worker_lost_retry" now r, Some (unclaimed now (qr_attempt q) q))
  else (finish_row RunFailed "worker_lost" now r, None).

Definition put_rows (id : string) (rows : runRow * option queueRow) (d : Db) : Db :=
  set_queue (partial_alter (λ _, rows.2) id (db_queue d)) (set_runs (<[id := rows.1]> (db_runs d)) d).

Definition again (r : runRow) (q : queueRow) : bool := negb (rr_cancel r) && (qr_attempt q <? qr_max q).

Lemma recover_one_ok now id r q d :
  db_runs d !! id = Some r → is_running r = true → db_queue d !! id = Some q →
  recover_one now (id, r, q) d = Ok (again r q, put_rows id (recovered now r q) d).
Proof.
  intros Hr Hrun Hq. unfold recover_one, recovered, again, update_run. rewrite Hr, Hrun.
  destruct (rr_cancel r); [|destruct (qr_attempt q <? qr_max q)]; rewrite write_run_inactive by reflexivity; cbn [rbind negb andb]; try done.
  unfold update_queue. cbn. rewrite Hq. cbn. rewrite lookup_insert_eq. cbn. unfold put_rows, set_queue. cbn.
  by rewrite insert_insert_eq.
Qed.

Lemma put_rows_elsewhere id rows d : elsewhere id d (put_rows id rows d).
Proof. intros j Hj. cbn. by rewrite lookup_insert_ne, lookup_partial_alter_ne. Qed.

Lemma recovered_follows now id r q d :
  db_runs d !! id = Some r → is_running r = true → db_queue d !! id = Some q → follows d (put_rows id (recovered now r q) d).
Proof.
  intros Hr Hrun Hq. apply (follows_at id); [apply put_rows_elsewhere|]. intros p Hp.
  destruct (phase_running _ _ _ _ Hp Hr Hrun) as [[Hno _]|(q0 & Hq0 & _ & ->)]; [congruence|]. rewrite Hq in Hq0. injection Hq0 as <-.
  unfold phase, put_rows. cbn. rewrite lookup_insert_eq, lookup_partial_alter_eq. unfold recovered. destruct (rr_cancel r) eqn:Hc; cbn.
  - eexists. split; [done|]. apply rtc_once. constructor. cbn. set_solver.
  - destruct (qr_attempt q <? qr_max q); cbn; rewrite ?Hc; eexists; (split; [done|]); apply rtc_once; [apply life_retry|]. constructor. cbn. set_solver.
Qed.

(** The rows of the claims are still those that were selected. *)
Definition selected (claims : list (string * runRow * queueRow)) (d : Db) : Prop :=
  ∀ id r q, (id, r, q) ∈ claims → db_runs d !! id = Some r ∧ is_running r = true ∧ db_queue d !! id = Some q.

Definition recover_rows (now : Z) (claims : list (string * runRow * queueRow)) (d : Db) : Db :=
  foldl (λ d '(id, r, q), put_rows id (recovered now r q) d) d claims.

Lemma selected_tail id r q claims now d :
  NoDup (((id, r, q) :: claims).*1.*1) → selected ((id, r, q) :: claims) d → selected claims (put_rows id (recovered now r q) d).
Proof.
  intros [Hno _]%NoDup_cons Hsel j s u Hin. destruct (Hsel j s u) as (Hr & Hrun & Hq); [by right|].
  assert (j ≠ id). { intros ->. apply Hno. apply list_elem_of_fmap. exists (id, s). split; [done|]. apply list_elem_of_fmap. by exists (id, s, u). }
  destruct (put_rows_elsewhere id (recovered now r q) d j) as [-> ->]; done.
Qed.

Definition requeues (claims : list (string * runRow * queueRow)) : Z := Z.of_nat (length (List.filter (λ '(_, r, q), again r q) claims)).

Lemma recover_all_ok now claims n m d :
  NoDup claims.*1.*1 → selected claims d →
  recover_all now claims n m d = Ok (n + requeues claims, m + (Z.of_nat (length claims) - requeues claims), recover_rows now claims d).
Proof.
  revert n m d. induction claims as [|[[id r] q] claims IH]; intros n m d Hnd Hsel.
  - cbn. unfold requeues. cbn. by rewrite !Z.add_0_r.
  - destruct (Hsel id r q) as (Hr & Hrun & Hq); [left|]. cbn [recover_all]. rewrite (recover_one_ok now id r q d) by done. cbn [rbind].
    pose proof (selected_tail _ _ _ _ now _ Hnd Hsel) as Htail. apply NoDup_cons in Hnd as [_ Hnd].
    unfold requeues. cbn [List.filter length]. destruct (again r q) eqn:Ea; rewrite IH by done; unfold requeues; cbn [length];
      match goal with |- Ok (?a, ?b, _) = Ok (?a', ?b', _) => replace a' with a by lia; replace b' with b by lia; done end.
Qed.

Lemma recover_rows_follows now claims d : NoDup claims.*1.*1 → selected claims d → follows d (recover_rows now claims d).
Proof.
  revert d. induction claims as [|[[id r] q] claims IH]; intros d Hnd Hsel; [done|].
  destruct (Hsel id r q) as (Hr & Hrun & Hq); [left|]. pose proof (selected_tail _ _ _ _ now _ Hnd Hsel) as Htail.
  apply NoDup_cons in Hnd as [_ Hnd]. cbn. transitivity (put_rows id (recovered now r q) d); [by apply recovered_follows|by apply IH].
Qed.

Lemma expired_selected skip now d : selected (expired_claims skip now d) d.
Proof. intros id r q (Hr & Hq & He)%expired_claims_spec. unfold expired in He. bool_to_prop. done. Qed.

Lemma RecoverExpiredRunClaims_ok skip now d :
  IsZero now = false →
  RecoverExpiredRunClaims skip now d =
    (let claims := expired_claims skip (UnixMilli now) d in
     (Ok (requeues claims, Z.of_nat (length claims) - requeues claims), recover_rows (UnixMilli now) claims d)).
Proof.
  intros Hz. unfold RecoverExpiredRunClaims. rewrite Hz. cbn [fail_if].
  rewrite recover_all_ok by (apply expired_claims_nodup || apply expired_selected). done.
Qed.

Lemma RecoverExpiredRunClaims_follows skip now d : follows d (RecoverExpiredRunClaims skip now d).2.
Proof.
  destruct (IsZero now) eqn:Hz; [unfold RecoverExpiredRunClaims; by rewrite Hz|]. rewrite RecoverExpiredRunClaims_ok by done.
  apply recover_rows_follows; [apply expired_claims_nodup|apply expired_selected].
Qed.

Lemma FailStaleRuns_follows olderThan now d : follows d (FailStaleRuns olderThan now d).2.
Proof.
  unfold FailStaleRuns. destruct (fail_if _ _ _); [|done]. cbn [snd]. intros id p Hp. unfold phase in *. cbn. rewrite map_lookup_imap.
  destruct (db_runs d !! id) as [r|] eqn:Hr; cbn; [|by exists p]. destruct (db_queue d !! id) as [q|] eqn:Hq; [rewrite andb_false_r; by exists p|].
  rewrite andb_true_r. destruct (is_running r) eqn:Hrun; [|by exists p]. destruct (rr_updated r <? UnixMilli olderThan); [|by exists p].
  cbn in Hp. rewrite Hrun in Hp. injection Hp as <-. eexists. split; [done|]. apply rtc_once. constructor. cbn. set_solver.
Qed.

(** *** Approvals, leases and sessions *)

Lemma decide_approval_same id decision actor now d : same_runs d (decide_approval id decision actor now d).2.
Proof. unfold decide_approval. repeat destruct_match_goal; done. Qed.

(** A run that was resumed: it waited, and its task is available again. *)
Lemma resume_follows id d r q r' q' :
  db_runs d !! id = Some r → is_waiting r = true → rr_cancel r = false → db_queue d !! id = Some q → qr_worker q' = "" → rr_cancel r' = false →
  is_queued r' = true → task_of q' = task_of q →
  follows d (set_queue (<[id := q']> (db_queue d)) (set_runs (<[id := r']> (db_runs d)) d)).
Proof.
  intros Hr Hw Hc Hq Hw' Hc' Hst Ht. apply (follows_at id); [off|]. intros p Hp.
  destruct (phase_unclaimed _ _ _ _ Hp Hr) as (q0 & Hq0 & _ & ->); [by right|]. rewrite Hq in Hq0. injection Hq0 as <-.
  assert (is_queued r = false) as ->. { unfold is_queued, is_waiting in *. bool_to_prop. by rewrite Hw. }
  unfold phase. cbn. rewrite !lookup_insert_eq. cbn. rewrite (running_not_queued r') by auto. unfold is_empty. rewrite bool_decide_eq_true_2 by done.
  cbn. rewrite Hst, Hc, Hc', Ht.
  eexists. split; [done|]. apply rtc_once. constructor.
Qed.

Lemma decideAndResume_follows id decision actor now d : follows d (decideAndResume id decision actor now d).2.
Proof.
  unfold decideAndResume. destruct (scan_found _) as [record|]; [|done]. destruct (negb _); [done|]. cbv zeta.
  pose proof (decide_approval_same id decision actor (UnixMilli now) d) as Hsame. destruct (decide_approval _ _ _ _ d) as [b d1]. cbn in Hsame.
  destruct (negb b); [done|]. destruct (delegatedApprovalResumeTarget _ d1) as [[session run]|]; [|done].
  destruct (update_run _ _ _ d1) as [[u d2]|] eqn:Hu; [|done].
  apply update_run_ok in Hu as [[-> ->]|[-> (r & Hr & Hg & [_ ->]%write_run_ok)]]; [done|]. cbn [negb].
  destruct (update_queue _ _ _ _) as [w d3] eqn:Hq. apply update_queue_cases in Hq as [[-> ->]|[-> (q & Hq & _ & ->)]]; [done|]. cbn [negb snd].
  transitivity d1; [by apply same_runs_follows|]. bool_to_prop.
  apply (resume_follows run d1 r q (set_status RunStatusQueued "" (UnixMilli now) r) (unclaimed (UnixMilli now) (qr_attempt q) q)); done.
Qed.

(** The tables that session writes leave alone. *)
Definition same_control (d d' : Db) : Prop :=
  same_runs d d' ∧ db_leases d' = db_leases d ∧ db_submissions d' = db_submissions d ∧ db_approvals d' = db_approvals d ∧ db_links d' = db_links d.

#[export] Instance same_control_refl : Reflexive same_control.
Proof. by intros d. Qed.
#[export] Instance same_control_trans : Transitive same_control.
Proof. unfold same_control, same_runs. intros a b c Hab Hbc. destruct_and!. split_and!; congruence. Qed.

Lemma same_control_follows d d' : same_control d d' → follows d d'.
Proof. intros [H _]. by apply same_runs_follows. Qed.

Lemma insertRunEvidence_same session header events maxRecords d d' :
  insertRunEvidence session header events maxRecords d = Ok d' → same_control d d' ∧ db_sessions d' = db_sessions d ∧ db_chunks d' = db_chunks d.
Proof.
  unfold insertRunEvidence. intros H. apply rbind_ok in H as (records & _ & H). cbv zeta in H. apply rbind_ok in H as ([n d1] & Hf & [=<-]). cbn.
  apply (rfold_invariant _ (λ acc, same_control d acc.2 ∧ db_sessions acc.2 = db_sessions d ∧ db_chunks acc.2 = db_chunks d)) in Hf; [done..|].
  intros [n0 d0] x [n1 d2] _ Hinv Hx. unfold upsert_evidence in Hx. cbv zeta in Hx. destruct (db_evidence d0 !! _); [by injection Hx as <- <-|].
  apply fail_if_ok in Hx as [_ Hx]. by injection Hx as <- <-.
Qed.

Lemma insertChunk_same s session start events d d' : insertChunk s session start events d = Ok d' → same_control d d' ∧ db_sessions d' = db_sessions d.
Proof.
  unfold insertChunk. intros H. apply rbind_ok in H as (lines & _ & H). apply fail_if_ok in H as [_ H]. destruct (db_chunks d !! _); by simplify_eq.
Qed.

(** The chunk and the evidence of an append. *)
Lemma append_rows_same s session start events header maxRecords d d1 d2 :
  insertChunk s session start events d = Ok d1 → insertRunEvidence session header events maxRecords d1 = Ok d2 → same_control d d2.
Proof. intros [H1 _]%insertChunk_same [H2 _]%insertRunEvidence_same. by transitivity d1. Qed.

Lemma sql_Create_same s session now d : same_control d (sql_Create s session now d).2.
Proof.
  unfold sql_Create. destruct (ValidateSessionID _); [|done]. cbv zeta. destruct (sql_sessionCap s <=? _); [done|]. destruct (db_sessions d !! _); [done|].
  destruct (0 <? _); [|done]. destruct (insertChunk _ _ _ _ _) eqn:Hc; [|done]. destruct (insertRunEvidence _ _ _ _ _) eqn:He; [|done]. cbn.
  exact (append_rows_same _ _ _ _ _ _ _ _ _ Hc He).
Qed.

Lemma AppendEvents_same s session version events now d : same_control d (AppendEvents s session version events now d).2.
Proof.
  unfold AppendEvents. destruct (ValidateSessionID _); [|done]. destruct (validateAppendEvents _ _); [|done]. destruct (db_sessions d !! _) as [row|]; [|done].
  destruct (negb _); [done|]. destruct (match events with [] => _ | _ => _ end) as [d1|] eqn:H; [|done].
  assert (same_control d d1) as Hsame.
  { destruct events; [by simplify_eq|]. apply rbind_ok in H as (d0 & Hc & H). destruct (dec_options _); [|done]. exact (append_rows_same _ _ _ _ _ _ _ _ _ Hc H). }
  destruct (db_sessions d1 !! _) as [tip|]; [|done]. destruct (sn_version tip =? _); done.
Qed.

Lemma write_fenced_same s f version options events t2 lost d : same_control d (write_fenced s f version options events t2 lost d).2.
Proof.
  unfold write_fenced. destruct (insertChunk _ _ _ _ d) as [d1|] eqn:Hc; [|done]. destruct (insertRunEvidence _ _ _ _ d1) as [d2|] eqn:He; [|done].
  pose proof (append_rows_same _ _ _ _ _ _ _ _ _ Hc He) as Hsame. unfold fencedSessionTipUpdate.
  destruct (db_sessions d2 !! _); [|done]. destruct (_ && _); done.
Qed.

Lemma appendEventsFenced_same s f version events t0 t1 t2 d : same_control d (appendEventsFenced s f version events t0 t1 t2 d).2.
Proof.
  unfold appendEventsFenced. destruct (validateFencedAppend _ _ _); [|done]. destruct events; [done|]. destruct (fenced_options _ _ _ _ _ _); [|done].
  apply write_fenced_same.
Qed.

Lemma repairFenced_same s clock f version candidate t0 t1 t2 d :
  same_control d (appendInterruptedSessionRepairFenced s clock f version candidate t0 t1 t2 d).2.
Proof.
  unfold appendInterruptedSessionRepairFenced.
  do 7 (match goal with |- same_control d (match ?x with _ => _ end).2 => destruct x; [|done] end). cbv zeta.
  do 3 (match goal with |- same_control d (match ?x with _ => _ end).2 => destruct x; [|done] end).
  destruct (AppendRepair _ _ _) as [[repaired emitted] [[]|]]; [|done].
  match goal with |- context [write_fenced ?s ?f ?v ?o ?e ?t ?l d] =>
    pose proof (write_fenced_same s f v o e t l d) as Hsame; destruct (write_fenced s f v o e t l d) end. done.
Qed.


(** Every operation moves every run along its life cycle. *)
Lemma op_follows s now op d : follows d (apply_op s now op d).
Proof.
  destruct op; cbn [apply_op];
    eauto using CreateRun_follows, EnqueueRun_follows, EnqueueRunOnce_follows, RenewRunClaim_follows, RetryRunClaim_follows, PauseRunClaim_follows,
      PauseRun_follows, FinishRunClaim_follows, RecoverExpiredRunClaims_follows, FailStaleRuns_follows, RequestRunCancel_follows,
      HeartbeatRun_follows, FinishRun_follows, decideAndResume_follows, same_control_follows, sql_Create_same, AppendEvents_same,
      appendEventsFenced_same, repairFenced_same; try (apply same_runs_follows; split; reflexivity).
  - unfold claim_guard. destruct (validateWorkerID worker) as [[]|] eqn:Hw; [|done]. cbn. destruct (fail_if _ _ _); [|done].
    by apply claim_once_follows, worker_nonempty.
  - apply same_runs_follows. cbn. destruct (insert_approval id row d) as [d'|] eqn:H; [|done]. unfold insert_approval in H.
    repeat (destruct_match_in H; try done). by simplify_eq.
  - apply same_runs_follows. cbn. pose proof (decide_approval_same id decision actor (UnixMilli now) d) as H.
    destruct (decide_approval _ _ _ _ d). exact H.
  - apply same_runs_follows. cbn. repeat destruct_match_goal; done.
  - apply same_runs_follows. cbn. repeat destruct_match_goal; done.
  - apply same_runs_follows. unfold RenewSessionLease. repeat destruct_match_goal; done.
  - apply same_runs_follows. unfold ReleaseSessionLease. repeat destruct_match_goal; done.
Qed.
