(* ===== verification/RunTable.v ===== *)
(** * What holds of the control plane over time

    The run table (its keys, its unique index, its size), the tables each
    operation leaves alone, and the invariants of [life], which every operation
    follows. *)
From S2P Require Import Prelude Prog GoString Json Sha256 Payload Events Message Session SessionStore ControlDb RunControl ControlJson ApprovalStore SqlSession SessionFence RunSystem.
From stdpp Require Import gmap strings list sorting relations.
From Stdlib Require Import ZArith Lia.
Open Scope Z_scope.

(** ** The run table: its keys, its unique index and its size *)

(** No run is added, and the unique index is kept. *)
Definition run_update (d d' : Db) : Prop := dom (db_runs d') = dom (db_runs d) ∧ (one_active d → one_active d').

#[export] Instance run_update_refl : Reflexive run_update.
Proof. by intros d. Qed.
#[export] Instance run_update_trans : Transitive run_update.
Proof. intros a b c [H1 H2] [H3 H4]. split; [congruence|auto]. Qed.

Lemma run_update_same d d' : db_runs d' = db_runs d → run_update d d'.
Proof. intros H. unfold run_update, one_active. by rewrite H. Qed.

Lemma update_run_update id guard f d b d' : update_run id guard f d = Ok (b, d') → run_update d d'.
Proof.
  intros [[_ ->]|[_ (r & Hr & _ & Hw)]]%update_run_ok; [done|]. split; [|intros H; by eapply write_run_one_active].
  apply write_run_ok in Hw as [_ ->]. cbn. rewrite dom_insert_L. apply elem_of_dom_2 in Hr. set_solver.
Qed.

Lemma update_queue_runs id guard f d : db_runs (update_queue id guard f d).2 = db_runs d.
Proof. unfold update_queue. repeat destruct_match_goal; done. Qed.

(** A transaction whose only write to the run table is a guarded update. *)
Lemma update_then id guard f d b d1 d' : update_run id guard f d = Ok (b, d1) → db_runs d' = db_runs d1 → run_update d d'.
Proof. intros H Hr. transitivity d1; [by eapply update_run_update|by apply run_update_same]. Qed.

Lemma claim_once_update worker ttl skip tie now d : run_update d (claim_once worker ttl skip tie now d).2.
Proof.
  unfold claim_once. destruct (first_candidate _ _) as [[[id r] q]|]; [|done]. destruct (update_run _ _ _ d) as [[[] d1]|] eqn:Hu; [|done..].
  cbv zeta. destruct (update_queue _ _ _ d1) as [b d2] eqn:Hq. cbn [snd]. eapply update_then; [exact Hu|].
  pose proof (update_queue_runs id (λ _, true) (λ q, mk_queue_row (qr_message q) (qr_available q) worker (UnixMilli (now + ttl)) (qr_attempt q + 1) (qr_max q) (qr_generation q + 1) (qr_parent q) (qr_state q)) d1) as H.
  by rewrite Hq in H.
Qed.

Lemma RenewRunClaim_update s id worker generation ttl now d : run_update d (RenewRunClaim s id worker generation ttl now d).2.
Proof.
  unfold RenewRunClaim. destruct (validateClaimMutation _ _ _); [|done]. destruct (fail_if _ _ _); [|done]. destruct (_ && _) in |- *; [done|].
  destruct (update_queue _ _ _ d) as [b d1] eqn:Hq. apply update_queue_cases in Hq as [[-> ->]|[-> (q & _ & _ & ->)]]; [done|]. cbn [negb].
  destruct (update_run _ _ _ _) as [[b d2]|] eqn:Hu; [|done]. cbn [snd]. apply update_run_update in Hu. etransitivity; [|exact Hu]. by apply run_update_same.
Qed.

Lemma release_claim_update id worker generation now f g d : run_update d (release_claim id worker generation now f g d).2.
Proof.
  unfold release_claim. destruct (update_run _ _ f d) as [[[] d1]|] eqn:Hu; [|done..]. cbn [negb].
  destruct (update_queue _ _ _ d1) as [b d2] eqn:Hq. apply update_queue_cases in Hq as [[-> ->]|[-> (q & _ & _ & ->)]]; [done|]. cbn [negb snd].
  by eapply update_then.
Qed.

Lemma recover_one_update now claim d b d' : recover_one now claim d = Ok (b, d') → run_update d d'.
Proof.
  destruct claim as [[id r] q]. unfold recover_one. destruct (rr_cancel r); [|destruct (_ <? _)]; intros H; apply rbind_ok in H as ([u d1] & Hu & H).
  - injection H as <- <-. by eapply update_then.
  - destruct (update_queue _ _ _ d1) as [b1 d2] eqn:H2. destruct (update_queue _ _ _ d2) as [b2 d3] eqn:H3. injection H as <- <-. eapply update_then; [exact Hu|].
    apply update_queue_cases in H2 as [[_ ->]|[_ (? & _ & _ & ->)]]; apply update_queue_cases in H3 as [[_ ->]|[_ (? & _ & _ & ->)]]; done.
  - injection H as <- <-. by eapply update_then.
Qed.

Lemma recover_all_update now claims n m d x d' : recover_all now claims n m d = Ok (x, d') → run_update d d'.
Proof.
  revert n m d. induction claims as [|claim claims IH]; intros n m d H; cbn in H; [by injection H as _ <-|].
  apply rbind_ok in H as ([b d1] & H1 & H). transitivity d1; [by eapply recover_one_update|]. destruct b; by eapply IH.
Qed.

Lemma FailStaleRuns_update olderThan now d : run_update d (FailStaleRuns olderThan now d).2.
Proof.
  unfold FailStaleRuns. destruct (fail_if _ _ _); [|done]. cbn [snd]. split.
  - cbn. apply set_eq. intros id. rewrite !elem_of_dom, map_lookup_imap. destruct (db_runs d !! id); cbn; split; intros [x Hx]; naive_solver.
  - intros Hone i j r s. cbn. rewrite !map_lookup_imap. destruct (db_runs d !! i) as [r1|] eqn:Ha; [|done]. destruct (db_runs d !! j) as [r2|] eqn:Hb; [|done].
    cbn. intros [=<-] [=<-] Hr Hs Hses.
    destruct (is_running r1 && _ && _) in Hr, Hses; [done|]. destruct (is_running r2 && _ && _) in Hs, Hses; [done|]. by eapply Hone.
Qed.

Lemma decideAndResume_update id decision actor now d : run_update d (decideAndResume id decision actor now d).2.
Proof.
  unfold decideAndResume. destruct (scan_found _) as [record|]; [|done]. destruct (negb _); [done|]. cbv zeta.
  pose proof (decide_approval_same id decision actor (UnixMilli now) d) as [Hsame _]. destruct (decide_approval _ _ _ _ d) as [b d1]. cbn in Hsame.
  destruct (negb b); [done|]. destruct (delegatedApprovalResumeTarget _ d1) as [[session run]|]; [|done].
  destruct (update_run _ _ _ d1) as [[[] d2]|] eqn:Hu; [|done..]. cbn [negb].
  destruct (update_queue _ _ _ _) as [w d3] eqn:Hq. apply update_queue_cases in Hq as [[-> ->]|[-> (q & Hq & _ & ->)]]; [done|]. cbn [negb snd].
  transitivity d1; [by apply run_update_same|]. by eapply update_then.
Qed.

Lemma RequestRunCancel_update id now d : run_update d (RequestRunCancel id now d).2.
Proof.
  unfold RequestRunCancel. destruct (ValidateRunID id); [|done]. cbv zeta. destruct (update_run _ is_running _ d) as [[b d1]|] eqn:Hu; [|done].
  apply update_run_update in Hu. destruct b; [done|]. destruct (update_run _ _ _ d1) as [[c d2]|] eqn:Hc; [|done].
  transitivity d1; [done|]. destruct c; cbn [snd]; by eapply update_then.
Qed.

Definition creates (op : control_op) : bool :=
  match op with OpCreateRun _ _ | OpEnqueueRun _ _ | OpEnqueueRunOnce _ _ _ _ => true | _ => false end.

Lemma op_update s now op d : creates op = false → run_update d (apply_op s now op d).
Proof.
  destruct op; cbn [apply_op creates]; intros Hop; try discriminate Hop;
    eauto using RenewRunClaim_update, FailStaleRuns_update, RequestRunCancel_update, decideAndResume_update;
    try (apply run_update_same; reflexivity).
  - destruct (claim_guard worker ttl); [|done]. apply claim_once_update.
  - unfold RetryRunClaim. destruct (validateClaimMutation _ _ _); [|done]. destruct (fail_if _ _ _); [|done]. apply release_claim_update.
  - unfold PauseRunClaim. destruct (validateClaimMutation _ _ _); [|done]. apply release_claim_update.
  - unfold PauseRun. destruct (ValidateRunID id); [|done]. destruct (fail_if _ _ _); [|done]. cbv zeta. destruct (fail_if _ _ _); [|done].
    destruct (validateTraceContext trace); [|done]. destruct (update_run _ _ _ d) as [[[] d1]|] eqn:Hu; [|done..]. cbn [negb].
    unfold insert_queue. destruct (db_queue d1 !! id); [done|]. by eapply update_then.
  - unfold FinishRunClaim. destruct (validateClaimMutation _ _ _); [|done]. destruct (validateTerminalRunStatus _); [|done].
    destruct (update_run _ _ _ d) as [[[] d1]|] eqn:Hu; [|done..]. cbn [negb snd]. eapply update_then; [exact Hu|]. repeat destruct_match_goal; done.
  - unfold RecoverExpiredRunClaims. destruct (fail_if _ _ _); [|done]. destruct (recover_all _ _ _ _ _) as [[[n m] d']|] eqn:H; [|done].
    by eapply recover_all_update.
  - unfold HeartbeatRun. destruct (ValidateRunID id); [|done]. destruct (update_run _ _ _ d) as [[[] d1]|] eqn:Hu; [|done..]. by eapply update_run_update.
  - unfold FinishRun. destruct (ValidateRunID id); [|done]. destruct (validateTerminalRunStatus _); [|done].
    destruct (update_run _ _ _ d) as [[[] d1]|] eqn:Hu; [|done..]. by eapply update_then.
  - apply run_update_same. cbn. destruct (insert_approval id row d) as [d'|] eqn:H; [|done]. unfold insert_approval in H.
    repeat (destruct_match_in H; try done). by simplify_eq.
  - apply run_update_same. cbn. pose proof (decide_approval_same id decision actor (UnixMilli now) d) as [H _]. destruct (decide_approval _ _ _ _ d). exact H.
  - apply run_update_same. cbn. repeat destruct_match_goal; done.
  - apply run_update_same. cbn. repeat destruct_match_goal; done.
  - apply run_update_same. unfold RenewSessionLease. repeat destruct_match_goal; done.
  - apply run_update_same. unfold ReleaseSessionLease. repeat destruct_match_goal; done.
  - apply run_update_same, sql_Create_same.
  - apply run_update_same, AppendEvents_same.
  - apply run_update_same, appendEventsFenced_same.
  - apply run_update_same, repairFenced_same.
Qed.

(** The three operations that add a run check the in-flight limit, on SQLite in
    the database they change. *)
Lemma op_create s now op d :
  creates op = true → db_runs (apply_op s now op d) = db_runs d ∨
  ∃ id r d', write_run id r d = Ok d' ∧ db_runs (apply_op s now op d) = db_runs d' ∧ db_runs d !! id = None
    ∧ (counts_here s op d → st_dialect (ctl s) = SQLDialectSQLite → ensureInFlightCapacity (ctl s) d = Ok tt).
Proof.
  assert (∀ run t e d', insert_queued run t e = Ok d' → ∃ id r e', write_run id r e = Ok e' ∧ db_runs d' = db_runs e' ∧ db_runs e !! id = None) as Hins.
  { intros run t e d' H. unfold insert_queued in H. cbv zeta in H. apply rbind_ok in H as (d1 & Hi & H). unfold insert_run in Hi.
    destruct (db_runs e !! _) eqn:Hno in Hi; [done|]. unfold insert_queue in H. destruct (db_queue d1 !! _) in H; [done|]. injection H as <-.
    eexists _, _, d1. split_and!; [exact Hi|done|done]. }
  destruct op; cbn [creates apply_op]; intros Hop; try discriminate Hop.
  - unfold CreateRun. destruct (validateRunRecord record); [|by left]. cbv zeta. destruct (ensureInFlightCapacity _ seen) as [[]|] eqn:Hroom; [|by left].
    destruct (insert_run _ _ d) as [d'|] eqn:H; [|by left]. right. unfold insert_run in H. destruct (db_runs d !! _) eqn:Hno in H; [done|].
    eexists _, _, d'. split_and!; [done..|]. intros Hs E. by rewrite <- (Hs E).
  - unfold EnqueueRun. destruct (validateQueuedRun run); [|by left]. cbv zeta. destruct (ensureInFlightCapacity _ seen) as [[]|] eqn:Hroom; [|by left].
    destruct (insert_queued _ _ d) as [d'|] eqn:H; [|by left]. right. apply Hins in H as (id & r & e' & Hw & He & Hno). exists id, r, e'.
    split_and!; [done..|]. intros Hs E. by rewrite <- (Hs E).
  - unfold EnqueueRunOnce. destruct (validateQueuedRun run); [|by left]. destruct (validateRunSubmission _ _); [|by left]. cbv zeta.
    destruct (submissionCapReached _ _); [by left|].
    match goal with |- context [insert_submission ?k ?row d] => pose proof (insert_submission_same k row d) as [Hsame _]; destruct (insert_submission k row d) as [b d1] end.
    cbn in Hsame. destruct b; [|by left]. cbn [negb].
    destruct (ensureInFlightCapacity _ seen) as [[]|] eqn:Hroom; [|by left]. destruct (insert_queued _ _ d1) as [d'|] eqn:H; [|by left]. right.
    apply Hins in H as (id & r & e' & Hw & He & Hno). apply write_run_ok in Hw as [Hact ->]. cbn in He. rewrite Hsame in *.
    exists id, r, (set_runs (<[id := r]> (db_runs d)) d). split_and!; [|done..|intros Hs E; by rewrite <- (Hs E)]. apply write_run_ok. split; [|done]. intros Ha. specialize (Hact Ha).
    unfold other_active in *. by rewrite Hsame in Hact.
Qed.

(** ** The tables an operation on runs leaves alone *)

Definition same_rest (d d' : Db) : Prop :=
  db_submissions d' = db_submissions d ∧ db_approvals d' = db_approvals d ∧ db_links d' = db_links d ∧ db_leases d' = db_leases d
  ∧ db_sessions d' = db_sessions d ∧ db_chunks d' = db_chunks d ∧ db_evidence d' = db_evidence d.

#[export] Instance same_rest_refl : Reflexive same_rest.
Proof. by intros d. Qed.
#[export] Instance same_rest_trans : Transitive same_rest.
Proof. unfold same_rest. intros a b c Hab Hbc. destruct_and!. split_and!; congruence. Qed.

Lemma update_run_rest id guard f d b d' : update_run id guard f d = Ok (b, d') → same_rest d d'.
Proof. intros [[_ ->]|[_ (r & _ & _ & [_ ->]%write_run_ok)]]%update_run_ok; done. Qed.
Lemma update_queue_rest id guard f d b d' : update_queue id guard f d = (b, d') → same_rest d d'.
Proof. intros [[_ ->]|[_ (q & _ & _ & ->)]]%update_queue_cases; done. Qed.
Lemma insert_run_rest id r d d' : insert_run id r d = Ok d' → same_rest d d'.
Proof. unfold insert_run. destruct (db_runs d !! id); [done|]. intros [_ ->]%write_run_ok. done. Qed.
Lemma insert_queue_rest id q d d' : insert_queue id q d = Ok d' → same_rest d d'.
Proof. unfold insert_queue. destruct (db_queue d !! id); [done|]. by intros [=<-]. Qed.
Lemma insert_queued_rest run now d d' : insert_queued run now d = Ok d' → same_rest d d'.
Proof.
  unfold insert_queued. cbv zeta. intros H. apply rbind_ok in H as (d1 & Hi & H). transitivity d1; [by eapply insert_run_rest|by eapply insert_queue_rest].
Qed.
Lemma release_claim_rest id worker generation now f g d : same_rest d (release_claim id worker generation now f g d).2.
Proof.
  destruct (release_claim _ _ _ _ _ _ _) as [[b|e] d'] eqn:H; cbn [snd].
  - apply release_claim_cases in H as [[_ ->]|[_ (r & q & _ & _ & _ & _ & _ & ->)]]; done.
  - by rewrite (release_claim_rollback _ _ _ _ _ _ _ _ _ H).
Qed.
Lemma recover_one_rest now claim d b d' : recover_one now claim d = Ok (b, d') → same_rest d d'.
Proof.
  destruct claim as [[id r] q]. unfold recover_one. destruct (rr_cancel r); [|destruct (_ <? _)]; intros H; apply rbind_ok in H as ([u d1] & Hu & H);
    apply update_run_rest in Hu.
  - by injection H as <- <-.
  - destruct (update_queue _ _ _ d1) as [b1 d2] eqn:H2. destruct (update_queue _ _ _ d2) as [b2 d3] eqn:H3. injection H as <- <-.
    apply update_queue_rest in H2, H3. by transitivity d1; [|transitivity d2].
  - by injection H as <- <-.
Qed.
Lemma recover_all_rest now claims n m d x d' : recover_all now claims n m d = Ok (x, d') → same_rest d d'.
Proof.
  revert n m d. induction claims as [|claim claims IH]; intros n m d H; cbn in H; [by injection H as _ <-|].
  apply rbind_ok in H as ([b d1] & H1 & H). transitivity d1; [by eapply recover_one_rest|]. destruct b; by eapply IH.
Qed.

(** The operations on run_control and run_queue only. *)
Definition on_runs (op : control_op) : bool :=
  match op with
  | OpCreateRun _ _ | OpEnqueueRun _ _ | OpClaim _ _ _ _ | OpRenew _ _ _ _ | OpRetry _ _ _ _ _ | OpPauseClaim _ _ _ | OpPause _ _ _ _
  | OpFinishClaim _ _ _ _ _ | OpRecover _ | OpFailStale _ | OpHeartbeat _ | OpFinish _ _ _ => true
  | _ => false
  end.

Lemma op_rest s now op d : on_runs op = true → same_rest d (apply_op s now op d).
Proof.
  destruct op; cbn [apply_op on_runs]; intros Hop; try discriminate Hop.
  - unfold CreateRun. destruct (validateRunRecord record); [|done]. cbv zeta. destruct (ensureInFlightCapacity _ seen); [|done].
    destruct (insert_run _ _ d) eqn:H; [|done]. by eapply insert_run_rest.
  - unfold EnqueueRun. destruct (validateQueuedRun run); [|done]. cbv zeta. destruct (ensureInFlightCapacity _ seen); [|done].
    destruct (insert_queued _ _ d) eqn:H; [|done]. by eapply insert_queued_rest.
  - destruct (claim_guard worker ttl); [|done]. unfold claim_once. destruct (first_candidate _ _) as [[[id r] q]|]; [|done].
    destruct (update_run _ _ _ d) as [[[] d1]|] eqn:Hu; [|done..]. cbv zeta. destruct (update_queue _ _ _ d1) as [b d2] eqn:Hq. cbn [snd].
    transitivity d1; [by eapply update_run_rest|by eapply update_queue_rest].
  - unfold RenewRunClaim. destruct (validateClaimMutation _ _ _); [|done]. destruct (fail_if _ _ _); [|done]. destruct (_ && _) in |- *; [done|].
    destruct (update_queue _ _ _ d) as [[] d1] eqn:Hq; [|done]. cbn [negb]. destruct (update_run _ _ _ _) as [[b d2]|] eqn:Hu; [|done]. cbn [snd].
    transitivity d1; [by eapply update_queue_rest|by eapply update_run_rest].
  - unfold RetryRunClaim. destruct (validateClaimMutation _ _ _); [|done]. destruct (fail_if _ _ _); [|done]. apply release_claim_rest.
  - unfold PauseRunClaim. destruct (validateClaimMutation _ _ _); [|done]. apply release_claim_rest.
  - unfold PauseRun. destruct (ValidateRunID id); [|done]. destruct (fail_if _ _ _); [|done]. cbv zeta. destruct (fail_if _ _ _); [|done].
    destruct (validateTraceContext trace); [|done]. destruct (update_run _ _ _ d) as [[[] d1]|] eqn:Hu; [|done..]. cbn [negb].
    destruct (insert_queue _ _ d1) eqn:Hi; [|done]. transitivity d1; [by eapply update_run_rest|by eapply insert_queue_rest].
  - unfold FinishRunClaim. destruct (validateClaimMutation _ _ _); [|done]. destruct (validateTerminalRunStatus _); [|done].
    destruct (update_run _ _ _ d) as [[[] d1]|] eqn:Hu; [|done..]. cbn [negb snd]. apply update_run_rest in Hu. repeat destruct_match_goal; done.
  - unfold RecoverExpiredRunClaims. destruct (fail_if _ _ _); [|done]. destruct (recover_all _ _ _ _ _) as [[[n m] d']|] eqn:H; [|done].
    by eapply recover_all_rest.
  - unfold FailStaleRuns. destruct (fail_if _ _ _); done.
  - unfold HeartbeatRun. destruct (ValidateRunID id); [|done]. destruct (update_run _ _ _ d) as [[[] d1]|] eqn:Hu; [|done..]. by eapply update_run_rest.
  - unfold FinishRun. destruct (ValidateRunID id); [|done]. destruct (validateTerminalRunStatus _); [|done].
    destruct (update_run _ _ _ d) as [[[] d1]|] eqn:Hu; [|done..]. cbn [snd]. apply update_run_rest in Hu. done.
Qed.

(** The operations on sessions. *)
Definition on_sessions (op : control_op) : bool :=
  match op with OpCreateSession _ | OpAppendEvents _ _ _ | OpAppendFenced _ _ _ _ _ | OpRepairFenced _ _ _ _ _ _ => true | _ => false end.

Lemma op_control s now op d : on_sessions op = true → same_control d (apply_op s now op d).
Proof. destruct op; try done; intros _; cbn [apply_op]; auto using sql_Create_same, AppendEvents_same, appendEventsFenced_same, repairFenced_same. Qed.

Lemma decideAndResume_rest id decision actor now d :
  db_submissions (decideAndResume id decision actor now d).2 = db_submissions d ∧ db_links (decideAndResume id decision actor now d).2 = db_links d
  ∧ db_leases (decideAndResume id decision actor now d).2 = db_leases d ∧ db_sessions (decideAndResume id decision actor now d).2 = db_sessions d
  ∧ db_chunks (decideAndResume id decision actor now d).2 = db_chunks d.
Proof.
  unfold decideAndResume. destruct (scan_found _) as [record|]; [|done]. destruct (negb _); [done|]. cbv zeta.
  destruct (decide_approval _ _ _ _ d) as [b d1] eqn:Hd. destruct (negb b); [done|].
  destruct (delegatedApprovalResumeTarget _ d1) as [[session run]|]; [|done]. destruct (update_run _ _ _ d1) as [[[] d2]|] eqn:Hu; [|done..]. cbn [negb].
  destruct (update_queue _ _ _ _) as [[] d3] eqn:Hq; [|done]. cbn [negb snd]. apply update_run_rest in Hu. apply update_queue_rest in Hq.
  unfold same_rest in *. destruct_and!. unfold decide_approval in Hd. repeat (destruct_match_in Hd; simplify_eq); cbn in *; split_and!; congruence.
Qed.

Lemma RequestRunCancel_rest id now d :
  db_submissions (RequestRunCancel id now d).2 = db_submissions d ∧ db_links (RequestRunCancel id now d).2 = db_links d
  ∧ db_leases (RequestRunCancel id now d).2 = db_leases d ∧ db_sessions (RequestRunCancel id now d).2 = db_sessions d
  ∧ db_chunks (RequestRunCancel id now d).2 = db_chunks d.
Proof.
  unfold RequestRunCancel. destruct (ValidateRunID id); [|done]. cbv zeta. destruct (update_run _ is_running _ d) as [[b d1]|] eqn:Hu; [|done].
  apply update_run_rest in Hu. unfold same_rest in Hu. destruct_and!. destruct b; cbn [snd]; [done|]. destruct (update_run _ _ _ d1) as [[c d2]|] eqn:Hc; [|done].
  apply update_run_rest in Hc. unfold same_rest in Hc. destruct_and!. destruct c; cbn; split_and!; congruence.
Qed.

(** ** Invariants of the life cycle *)

Definition task_ok (t : task) : Prop := 0 ≤ tk_attempt t ≤ tk_generation t ∧ 1 ≤ tk_max t ≤ HardRunMaxAttempts.

Definition phase_ok (p : lifecycle) : Prop :=
  match p with
  | LAbsent | LDirect _ => True
  | LQueued t _ | LWaiting t _ => task_ok t
  | LClaimed worker _ t _ => worker ≠ "" ∧ task_ok t ∧ 1 ≤ tk_generation t
  | LDone status => status ∈ terminal_statuses
  end.

Lemma life_ok p p' : life p p' → phase_ok p → phase_ok p'.
Proof.
  unfold HardRunMaxAttempts in *. destruct 1; cbn; unfold task_ok; cbn; intros Hp; try done; try (unfold HardRunMaxAttempts in *; naive_solver lia).
  - destruct (0 <? a) eqn:E; bool_to_prop; naive_solver lia.
  - cbn. set_solver.
  - cbn. set_solver.
Qed.

Lemma life_star_ok p p' : rtc life p p' → phase_ok p → phase_ok p'.
Proof. induction 1; eauto using life_ok. Qed.

Lemma life_done status p : rtc life (LDone status) p → p = LDone status.
Proof. inversion 1 as [|? y ? Hy]; [done|]. inversion Hy. Qed.

(** Claims of generation [g] are over. *)
Definition past (g : Z) (p : lifecycle) : Prop :=
  match p with
  | LAbsent | LDirect _ => False
  | LQueued t _ | LWaiting t _ => g ≤ tk_generation t
  | LClaimed _ _ t _ => g < tk_generation t
  | LDone _ => True
  end.

Lemma life_past g p p' : life p p' → past g p → past g p'.
Proof. destruct 1; cbn; try done; lia. Qed.
Lemma life_star_past g p p' : rtc life p p' → past g p → past g p'.
Proof. induction 1; eauto using life_past. Qed.

(** A claim either goes on or is over. *)
Lemma claim_ends worker lease t c p :
  rtc life (LClaimed worker lease t c) p → (∃ lease' c', p = LClaimed worker lease' t c') ∨ past (tk_generation t) p.
Proof.
  remember (LClaimed worker lease t c) as p0 eqn:Hp. intros Hstar. revert lease c Hp.
  induction Hstar as [p|p p1 p2 Hstep Hstar IH]; intros lease c ->; [left; by eexists _, _|].
  inversion Hstep; subst; try (by eapply IH); right; eapply life_star_past; try exact Hstar; cbn; done || lia.
Qed.

(** ** Reachable databases *)

Notation reaches s := (rtc (control_step s)).

Lemma reaches_follows s d d' : reaches s d d' → follows d d'.
Proof. induction 1 as [|d d1 d' (now & op & _ & ->) _ IH]; [done|]. etransitivity; [apply op_follows|exact IH]. Qed.

Lemma follows_controlled d d' : follows d d' → controlled d → controlled d'.
Proof. intros Hf Hd id. destruct (Hd id) as [p Hp]. destruct (Hf id p Hp) as (p' & Hp' & _). by exists p'. Qed.

(** The limit on SQLite. *)
Definition capped (s : Stores) (d : Db) : Prop := st_dialect (ctl s) = SQLDialectSQLite → Z.of_nat (size (in_flight_runs d)) ≤ inFlightCap (ctl s).

Lemma in_flight_phase d id r p : phase d id = Some p → db_runs d !! id = Some r → in_flight r = false → ∃ status, p = LDone status.
Proof.
  unfold phase, in_flight, is_active. intros Hp Hr Hf. rewrite Hr in Hp. cbn in Hp. apply orb_false_elim in Hf as [Hq Hf].
  apply orb_false_elim in Hf as [Hrun Hw]. rewrite Hrun, Hq, Hw in Hp. destruct (db_queue d !! id); repeat (destruct_match_in Hp; try done); naive_solver.
Qed.

Lemma done_not_in_flight d id r status : phase d id = Some (LDone status) → db_runs d !! id = Some r → in_flight r = false.
Proof.
  unfold phase. intros Hp Hr. rewrite Hr in Hp. cbn in Hp. repeat (destruct_match_in Hp; try done). bool_to_prop.
  unfold in_flight, is_active, is_queued, is_waiting. rewrite Heqb. unfold terminal_statuses in *.
  rewrite !bool_decide_eq_false_2; [done|intros E; rewrite E in *; set_solver..].
Qed.

(** Runs in flight after an update were in flight before it. *)
Lemma in_flight_shrinks d d' : controlled d → follows d d' → dom (db_runs d') = dom (db_runs d) → dom (in_flight_runs d') ⊆ dom (in_flight_runs d).
Proof.
  intros Hc Hf Hdom id [r' [Hr' Hin]%map_lookup_filter_Some]%elem_of_dom. cbn in Hin.
  assert (id ∈ dom (db_runs d)) as [r Hr]%elem_of_dom by (rewrite <-Hdom; by apply elem_of_dom_2 in Hr').
  destruct (Hc id) as [p Hp]. destruct (Hf id p Hp) as (p' & Hp' & Hlife). apply elem_of_dom. exists r. apply map_lookup_filter_Some. split; [done|]. cbn.
  destruct (in_flight r) eqn:E; [done|]. destruct (in_flight_phase _ _ _ _ Hp Hr E) as [status ->]. apply life_done in Hlife as ->.
  rewrite (done_not_in_flight _ _ _ _ Hp' Hr') in Hin. done.
Qed.

Lemma in_flight_grows d id r : (size (in_flight_runs (set_runs (<[id := r]> (db_runs d)) d)) ≤ S (size (in_flight_runs d)))%nat.
Proof.
  unfold in_flight_runs. cbn. rewrite map_filter_insert. case_decide.
  - rewrite map_size_insert. destruct (_ !! id); unfold Datatypes.id; lia.
  - rewrite map_filter_delete, map_size_delete. destruct (_ !! id); unfold Datatypes.id; lia.
Qed.

Record control_inv (s : Stores) (d : Db) : Prop := {
  inv_phases : ∀ id, ∃ p, phase d id = Some p ∧ phase_ok p;
  inv_active : one_active d;
  inv_capped : capped s d }.

Lemma step_inv s d d' : control_step s d d' → control_inv s d → control_inv s d'.
Proof.
  intros (now & op & Hsees & ->) [Hphases Hact Hcap]. pose proof (op_follows s now op d) as Hf. split.
  - intros id. destruct (Hphases id) as (p & Hp & Hok). destruct (Hf id p Hp) as (p' & Hp' & Hlife). exists p'. split; [done|]. by eapply life_star_ok.
  - destruct (creates op) eqn:Hop; [|by apply op_update].
    destruct (op_create s now op d Hop) as [E|(id & r & e & Hw & E & _)]; unfold one_active; rewrite E; [exact Hact|]. by eapply write_run_one_active.
  - assert (controlled d) as Hc. { intros id. destruct (Hphases id) as (p & Hp & _). by exists p. }
    unfold capped in *. intros Hlite. specialize (Hcap Hlite). destruct (creates op) eqn:Hop.
    + destruct (op_create s now op d Hop) as [E|(id & r & e & Hw & E & _ & Hroom)]; unfold in_flight_runs in *; rewrite E; [done|].
      apply write_run_ok in Hw as [_ ->]. pose proof (in_flight_grows d id r) as Hg. unfold in_flight_runs in Hg.
      specialize (Hroom Hsees Hlite). unfold ensureInFlightCapacity in Hroom. apply fail_if_ok in Hroom as [Hroom _]. bool_to_prop. unfold in_flight_runs in Hroom. lia.
    + pose proof (in_flight_shrinks _ _ Hc Hf (proj1 (op_update s now op d Hop))) as Hsub. apply subseteq_size in Hsub. rewrite !size_dom in Hsub. lia.
Qed.

Lemma empty_inv s : control_inv s empty_db.
Proof.
  split; [intros id; by exists LAbsent|done|]. unfold capped, in_flight_runs, inFlightCap, MaxInFlightRuns. cbn. rewrite map_filter_empty, map_size_empty.
  destruct (0 <? maxInFlight (ctl s)) eqn:E; bool_to_prop; lia.
Qed.

Lemma reaches_inv s d d' : reaches s d d' → control_inv s d → control_inv s d'.
Proof. induction 1; eauto using step_inv. Qed.

(** A claim that is over is not held. *)
Lemma past_not_held g id p d worker now : worker ≠ "" → phase d id = Some p → past g p → claim_held id worker g now d = false.
Proof.
  unfold phase, claim_held, held. intros Hne Hp Hpast. destruct (db_queue d !! id) as [q|]; [|done]. destruct (db_runs d !! id) as [r|]; [|done].
  destruct (qr_generation q =? g) eqn:Hg; [|by rewrite andb_false_r]. bool_to_prop. cbn in Hp. unfold is_empty in Hp.
  destruct (is_running r) eqn:Hrun.
  - case_bool_decide; [done|]. injection Hp as <-. cbn in Hpast. lia.
  - destruct (bool_decide (qr_worker q = "")) eqn:Hw; [|done]. bool_to_prop. rewrite Hw. by rewrite bool_decide_eq_false_2 by congruence.
Qed.
