(* ===== verification/ControlExamples.v ===== *)
(** * A control plane at work: concrete databases used in the claims *)
From S2P Require Import Prelude Prog GoString Json Sha256 Payload Events Message Session SessionStore SessionClaims ControlDb RunControl ControlJson ApprovalStore SqlSession SessionFence RunSystem RunTable.
From stdpp Require Import gmap strings list sorting relations.
From Stdlib Require Import ZArith Lia.
Open Scope Z_scope.

Definition ex_stores : Stores := mk_stores (mk_control_store SQLDialectSQLite 0 0) (mk_sql_sessions SQLDialectSQLite 0 0 0).
Definition ex_t : Time := 1700000000 * 10 ^ 9.
Definition second : Z := 10 ^ 9.
Definition minute : Z := 60 * second.

Definition ex_queued (id : string) (attempts : Z) : QueuedRun :=
  mk_queued_run (mk_run_record id "s1" "acme" "ann" "" false "" zeroTime zeroTime zeroTime) "hello" zeroTime "" zeroTime 0 attempts 0 (mk_trace "" "").

(** A run with two attempts, queued, claimed, recovered after its worker was
    lost, and claimed by another worker. *)
Definition ex_enqueued : Db := apply_op ex_stores ex_t (OpEnqueueRun empty_db (ex_queued "run-1" 2)) empty_db.
Definition ex_claimed : Db := apply_op ex_stores (ex_t + second) (OpClaim "w1" minute ∅ 0) ex_enqueued.
Definition ex_recovered : Db := apply_op ex_stores (ex_t + 2 * minute) (OpRecover ∅) ex_claimed.
Definition ex_reclaimed : Db := apply_op ex_stores (ex_t + 3 * minute) (OpClaim "w2" minute ∅ 0) ex_recovered.

Lemma ex_step now op d : counts_here ex_stores op d → control_step ex_stores d (apply_op ex_stores now op d).
Proof. by exists now, op. Qed.

Lemma ex_claimed_reached : reaches ex_stores empty_db ex_claimed.
Proof. eapply rtc_l; [exact (ex_step ex_t (OpEnqueueRun empty_db (ex_queued "run-1" 2)) empty_db (λ _, eq_refl))|]. by apply rtc_once, ex_step. Qed.
Lemma ex_recovered_reached : reaches ex_stores ex_claimed ex_recovered.
Proof. by apply rtc_once, ex_step. Qed.
Lemma ex_reclaimed_reached : reaches ex_stores ex_recovered ex_reclaimed.
Proof. by apply rtc_once, ex_step. Qed.

Lemma ex_claimed_phase : phase ex_claimed "run-1" = Some (LClaimed "w1" (UnixMilli (ex_t + second + minute)) (mk_task 1 1 2) false).
Proof. vm_compute. reflexivity. Qed.
Lemma ex_recovered_phase : phase ex_recovered "run-1" = Some (LQueued (mk_task 1 1 2) false).
Proof. vm_compute. reflexivity. Qed.

Lemma ex_claimed_active : one_active ex_claimed.
Proof. apply (inv_active ex_stores). eapply reaches_inv; [apply ex_claimed_reached|apply empty_inv]. Qed.

(** A run with one attempt whose worker asked for an approval and was lost: the
    run has failed, the approval is pending. *)
Definition ex_approval (run : string) (expires : Z) : approvalRow :=
  mk_approval_row "acme" "ann" "s1" run "call-1" "files.write" "" "" (JObj []) ApprovalPending (UnixMilli ex_t) expires 0 "".
Definition ex_id (c : string) : string := "apr_0123456789abcdef0123456789abcde" +:+ c.
Definition ex_once : Db := apply_op ex_stores ex_t (OpEnqueueRun empty_db (ex_queued "run-1" 1)) empty_db.
Definition ex_once_claimed : Db := apply_op ex_stores (ex_t + second) (OpClaim "w1" minute ∅ 0) ex_once.
Definition ex_asked : Db := apply_op ex_stores (ex_t + second) (OpInsertApproval (ex_id "1") (ex_approval "run-1" (UnixMilli (ex_t + 5 * minute)))) ex_once_claimed.
Definition ex_failed : Db := apply_op ex_stores (ex_t + 2 * minute) (OpRecover ∅) ex_asked.

Lemma ex_failed_phase : phase ex_failed "run-1" = Some (LDone RunFailed).
Proof. vm_compute. reflexivity. Qed.

(** A session in the store, and its events appended. *)
Definition ex_sql_created : Db := (sql_Create (ses ex_stores) ex_new ex_t empty_db).2.
Definition ex_sql_appended : Db := (AppendEvents (ses ex_stores) "s1" 0 ex_events ex_t ex_sql_created).2.
Lemma ex_appended_ok : AppendEvents (ses ex_stores) "s1" 0 ex_events ex_t ex_sql_created = (Ok tt, ex_sql_appended).
Proof. vm_compute. reflexivity. Qed.
