(* ===== verification/FenceFacts.v ===== *)
(** * The session fence and the stored log: facts

    Both dialects accept the same fences, a write behind a fence leaves the run
    tables alone, and the chunks of a session decode to the events that were
    appended. *)
From S2P Require Import Prelude GoString Json Sha256 Scope Principal GoTime Payload Events Message Session SessionStore ControlDb RunControl ControlJson SqlSession SessionFence RunSystem.
From stdpp Require Import gmap strings list sorting.
From Stdlib Require Import ZArith Lia.
Open Scope Z_scope.

(** ** Acquiring a fence *)

Lemma if_err_ok {A} (b : bool) e (k : result A) a : (if b then Err e else k) = Ok a ↔ b = false ∧ k = Ok a.
Proof. destruct b; naive_solver. Qed.

(** What PostgreSQL compares row by row is the condition of SQLite's update. *)
Lemma lock_postgres_ok f now d header version :
  lockPostgresSessionWriteFence f now d = Ok (header, version) ↔
  ∃ row, db_sessions d !! fn_SessionID f = Some row ∧ session_matches f version row = true ∧ owns f now d = true ∧ header = sn_header row.
Proof.
  unfold lockPostgresSessionWriteFence, owns, session_matches.
  destruct (db_runs d !! fn_RunID f) as [r|]; [|naive_solver]. destruct (db_queue d !! fn_RunID f) as [q|]; [|naive_solver].
  destruct (decide (rr_session r = fn_SessionID f)) as [Hs|Hs].
  2:{ rewrite (bool_decide_eq_false_2 (rr_session r = fn_SessionID f)) by done. cbn. repeat destruct_match_goal; naive_solver. }
  rewrite Hs, (bool_decide_eq_true_2 (fn_SessionID f = fn_SessionID f)) by done. cbn [negb andb].
  destruct (db_leases d !! fn_SessionID f) as [l|].
  2:{ split; [done|]. intros (row & _ & _ & H & _). by rewrite andb_false_r in H. }
  destruct (db_sessions d !! fn_SessionID f) as [row|]; [|naive_solver].
  rewrite !if_err_ok, !orb_false_iff, !negb_false_iff, !Z.leb_gt, !bool_decide_eq_true.
  setoid_rewrite andb_true_iff. setoid_rewrite andb_true_iff. split.
  - intros H. destruct_and!. simplify_eq. exists row. rewrite !andb_true_iff, !negb_true_iff, !bool_decide_eq_true, !Z.eqb_eq, !Z.ltb_lt.
    repeat match goal with H : (_ =? _) = true |- _ => apply Z.eqb_eq in H end. split_and!; done || lia.
  - intros (row' & [= <-] & Hm & Ho & ->). rewrite !andb_true_iff, !negb_true_iff, !bool_decide_eq_true, !Z.eqb_eq, !Z.ltb_lt in *.
    destruct_and!. split_and!; done || lia || congruence.
Qed.

(** The fence is acquired exactly by the owner at the committed version. *)
Lemma acquire_ok s f version t0 t1 d header :
  acquire_fence s f version t0 t1 d = Ok header ↔
  ∃ row, db_sessions d !! fn_SessionID f = Some row ∧ session_matches f version row = true ∧ owns f t0 d = true ∧ header = sn_header row.
Proof.
  unfold acquire_fence. destruct (ss_dialect s).
  - unfold acquireSQLiteSessionWriteFence. destruct (db_sessions d !! _) as [row|]; [|naive_solver].
    destruct (session_matches f version row && owns f t0 d) eqn:E.
    + bool_to_prop. split; [intros [=<-]; by exists row|]. by intros (row' & [=<-] & _ & _ & ->).
    + split; [done|]. intros (row' & [=<-] & Hm & Ho & _). by rewrite Hm, Ho in E.
  - unfold acquirePostgresSessionWriteFence. rewrite rbind_ok. split.
    + intros ([h v] & H & [Hv [=->]]%fail_if_ok). apply lock_postgres_ok in H as (row & Hrow & Hm & Ho & ->). exists row. bool_to_prop. by subst v.
    + intros (row & Hrow & Hm & Ho & ->). exists (sn_header row, version). split; [apply lock_postgres_ok; by exists row|]. by rewrite Z.eqb_refl.
Qed.

(** ** The chunks of a session *)

#[export] Instance start_le_trans : Transitive start_le.
Proof. intros a b c. unfold start_le. lia. Qed.
#[export] Instance start_le_total : Total start_le.
Proof. intros a b. unfold start_le. lia. Qed.

Lemma elem_of_chunks id d start lines : (start, lines) ∈ session_chunks id d ↔ db_chunks d !! (id, start) = Some lines.
Proof.
  unfold session_chunks. rewrite list_elem_of_omap. split.
  - intros ([[i k] ls] & Hin & H). apply elem_of_map_to_list in Hin. cbn in H. case_bool_decide; by simplify_eq.
  - intros H. exists ((id, start), lines). split; [by apply elem_of_map_to_list|]. cbn. by rewrite bool_decide_eq_true_2.
Qed.

(** The chunks in order are the only sorted list of them. *)
Lemma chunks_in_order id d l : StronglySorted start_le l → l ≡ₚ session_chunks id d → merge_sort start_le (session_chunks id d) = l.
Proof.
  intros Hs Hp. apply (StronglySorted_unique_strong start_le); [|apply (StronglySorted_merge_sort start_le)|done|by rewrite merge_sort_Permutation].
  intros [k1 l1] [k2 l2] H1 H2 Hle Hge. rewrite merge_sort_Permutation in H1. rewrite Hp in H2. apply elem_of_chunks in H1, H2.
  unfold start_le in *. cbn in *. assert (k1 = k2) as -> by lia. congruence.
Qed.

Lemma chunks_insert id start lines d :
  db_chunks d !! (id, start) = None →
  session_chunks id (set_chunks (<[(id, start) := lines]> (db_chunks d)) d) ≡ₚ (start, lines) :: session_chunks id d.
Proof.
  intros Hno. unfold session_chunks. cbn [db_chunks set_chunks]. rewrite (map_to_list_insert _ _ _ Hno).
  match goal with |- omap ?f (?x :: ?l) ≡ₚ _ => change (omap f (x :: l)) with (match f x with Some y => y :: omap f l | None => omap f l end) end.
  cbn. by rewrite bool_decide_eq_true_2.
Qed.

Lemma chunks_insert_other id other start lines d :
  id ≠ other → db_chunks d !! (id, start) = None →
  session_chunks other (set_chunks (<[(id, start) := lines]> (db_chunks d)) d) ≡ₚ session_chunks other d.
Proof.
  intros Hne Hno. unfold session_chunks. cbn [db_chunks set_chunks]. rewrite (map_to_list_insert _ _ _ Hno).
  match goal with |- omap ?f (?x :: ?l) ≡ₚ _ => change (omap f (x :: l)) with (match f x with Some y => y :: omap f l | None => omap f l end) end.
  cbn. by rewrite bool_decide_eq_false_2.
Qed.

Lemma decode_chunks_app n l1 l2 :
  decode_chunks n (l1 ++ l2) = (let! a := decode_chunks n l1 in let! b := decode_chunks (n + Z.of_nat (length a)) l2 in Ok (a ++ b)).
Proof.
  revert n. induction l1 as [|[k lines] l1 IH]; intros n; cbn; [rewrite Z.add_0_r; by destruct (decode_chunks n l2)|].
  destruct (negb (k =? n)); [done|]. cbn. destruct (decode_lines lines) as [a|]; [|done]. cbn. rewrite IH.
  destruct (decode_chunks (n + Z.of_nat (length a)) l1) as [b|]; [|done]. cbn. rewrite length_app, Nat2Z.inj_add, Z.add_assoc.
  destruct (decode_chunks _ l2); [|done]. cbn. by rewrite app_assoc.
Qed.

Lemma decode_chunks_bound n l evs : decode_chunks n l = Ok evs → ∀ x, x ∈ l → x.1 ≤ n + Z.of_nat (length evs).
Proof.
  revert n evs. induction l as [|[k lines] l IH]; intros n evs H x Hx; [by apply not_elem_of_nil in Hx|]. cbn in H. apply fail_if_ok in H as [Hk H].
  apply rbind_ok in H as (a & _ & H). apply rbind_ok in H as (b & Hb & [=<-]). bool_to_prop. rewrite length_app. apply elem_of_cons in Hx as [->|Hx]; cbn; [lia|].
  specialize (IH _ _ Hb x Hx). lia.
Qed.

(** The lines of a chunk read back. *)
Lemma encode_decode_lines n events lines :
  0 ≤ n → forallb event_stable events = true → encode_lines n events = Ok lines → decode_lines lines = Ok events.
Proof.
  revert n lines. induction events as [|e events IH]; intros n lines Hn Hst H; cbn in H; [by injection H as <-|].
  cbn in Hst. apply andb_prop in Hst as [He Hst]. destruct (event_rt e He) as (j & Hj & Hdec). rewrite Hj in H.
  apply fail_if_ok in H as [Hsz H]. apply rbind_ok in H as (ls & Hls & [=<-]). bool_to_prop. cbn [decode_lines].
  assert (0 ≤ json_len j) by (unfold json_len; lia). apply fail_if_ok. split.
  - apply Z.ltb_ge. unfold MaxSessionEventDataBytes, MaxEventChunkBytes in *. lia.
  - rewrite Hdec. rewrite (IH (n + json_len j + 1) ls); [done|lia|done..].
Qed.

(** ** A stored session *)

(** The catalog row of [id] has the header and the version of [evs], which its
    chunks decode to. *)
Definition stored (d : Db) (id : string) (header : SessionOptions) (evs : list SessionEvent) : Prop :=
  ∃ row, db_sessions d !! id = Some row ∧ sn_version row = Z.of_nat (length evs) ∧ dec_options (sn_header row) = Some header
    ∧ decode_chunks 0 (merge_sort start_le (session_chunks id d)) = Ok evs.

(** A session stored in [d] whose chunks are read from [d'], which extends it. *)
Lemma load_prefix id d d' header evs more :
  ValidateSessionID id = Ok tt → stored d id header evs → Z.of_nat (length evs) ≤ MaxSessionEvents →
  decode_chunks 0 (merge_sort start_le (session_chunks id d')) = Ok (evs ++ more) →
  sql_Load id d d' = RestoreSession header evs.
Proof.
  intros Hid (row & Hrow & Hv & Hh & _) Hmax Hdec. unfold sql_Load, loadSessionRow, restore. rewrite Hid, Hrow, Hh. cbn [rbind]. rewrite Hv, Hdec.
  unfold validateCommittedSessionVersion. rewrite (proj2 (Z.ltb_ge _ _)) by lia. rewrite (proj2 (Z.ltb_ge _ _)) by done. cbn [orb fail_if rbind].
  rewrite Nat2Z.id, take_app_length. by rewrite Z.ltb_irrefl.
Qed.

Lemma load_stored id d header evs :
  ValidateSessionID id = Ok tt → stored d id header evs → Z.of_nat (length evs) ≤ MaxSessionEvents → sql_Load id d d = RestoreSession header evs.
Proof. intros Hid Hst Hmax. apply (load_prefix id d d header evs []); [done..|]. destruct Hst as (row & _ & _ & _ & H). by rewrite app_nil_r. Qed.

(** Inserting the next chunk. *)
Lemma insertChunk_stored s id events d d1 header evs :
  stored d id header evs → forallb event_stable events = true → insertChunk s id (Z.of_nat (length evs)) events d = Ok d1 →
  decode_chunks 0 (merge_sort start_le (session_chunks id d1)) = Ok (evs ++ events)
  ∧ (∀ other, other ≠ id → merge_sort start_le (session_chunks other d1) = merge_sort start_le (session_chunks other d))
  ∧ db_sessions d1 = db_sessions d.
Proof.
  intros (row & _ & _ & _ & Hdec) Hst H. unfold insertChunk in H. apply rbind_ok in H as (lines & Henc & H). apply fail_if_ok in H as [_ H].
  destruct (db_chunks d !! _) eqn:Hno; [done|]. injection H as <-. split_and!; [| |done].
  - rewrite (chunks_in_order _ _ (merge_sort start_le (session_chunks id d) ++ [(Z.of_nat (length evs), lines)])).
    + rewrite decode_chunks_app, Hdec. cbn. rewrite Z.eqb_refl. cbn. rewrite (encode_decode_lines 0 events lines); [|lia|done..]. cbn. by rewrite app_nil_r.
    + apply StronglySorted_app_2; [|apply (StronglySorted_merge_sort start_le)|by repeat constructor].
      intros x y Hx ->%list_elem_of_singleton. unfold start_le. cbn. pose proof (decode_chunks_bound _ _ _ Hdec x Hx). lia.
    + rewrite (chunks_insert _ _ _ _ Hno), merge_sort_Permutation. symmetry. apply Permutation_cons_append.
  - intros other Hne. apply chunks_in_order; [apply (StronglySorted_merge_sort start_le)|].
    rewrite merge_sort_Permutation. symmetry. by apply chunks_insert_other.
Qed.

(** The row of [id] advanced over the new chunk. *)
Lemma tip_stored s id events maxRecords options d d1 d2 header evs row now :
  stored d id header evs → forallb event_stable events = true →
  insertChunk s id (Z.of_nat (length evs)) events d = Ok d1 → insertRunEvidence id options events maxRecords d1 = Ok d2 →
  db_sessions d !! id = Some row →
  let d' := set_sessions (<[id := set_tip (Z.of_nat (length evs) + Z.of_nat (length events)) now row]> (db_sessions d2)) d2 in
  stored d' id header (evs ++ events) ∧ (∀ other h es, other ≠ id → stored d other h es → stored d' other h es).
Proof.
  intros Hst Hstab Hc He Hrow d'. destruct (insertChunk_stored _ _ _ _ _ _ _ Hst Hstab Hc) as (Hdec & Hoth & Hses).
  apply insertRunEvidence_same in He as (_ & Hses2 & Hch).
  assert (∀ x, session_chunks x d' = session_chunks x d1) as Hch'. { intros x. unfold session_chunks. cbn. by rewrite Hch. }
  split.
  - exists (set_tip (Z.of_nat (length evs) + Z.of_nat (length events)) now row). cbn [db_sessions set_sessions d']. rewrite lookup_insert_eq, Hch'. split_and!; [done| | |done].
    + cbn. rewrite length_app. lia.
    + destruct Hst as (row' & Hrow' & _ & Hh & _). cbn. congruence.
  - intros other h es Hne (r & Hr & Hv & Hh & Hd). exists r. cbn [db_sessions set_sessions d']. rewrite lookup_insert_ne by done. rewrite Hses2, Hses, Hch', (Hoth other Hne). done.
Qed.

(** A fenced write that succeeded, in its parts. *)
Lemma write_fenced_ok s f version options events t2 lost d d' :
  write_fenced s f version options events t2 lost d = (Ok tt, d') →
  ∃ d1 d2 row, insertChunk s (fn_SessionID f) version events d = Ok d1 ∧ insertRunEvidence (fn_SessionID f) options events (evidenceCap s) d1 = Ok d2
    ∧ db_sessions d !! fn_SessionID f = Some row ∧ session_matches f version row = true ∧ owns f t2 d = true
    ∧ d' = set_sessions (<[fn_SessionID f := set_tip (version + Z.of_nat (length events)) t2 row]> (db_sessions d2)) d2.
Proof.
  unfold write_fenced. destruct (insertChunk _ _ _ _ d) as [d1|] eqn:Hc; [|done]. destruct (insertRunEvidence _ _ _ _ d1) as [d2|] eqn:He; [|done].
  unfold fencedSessionTipUpdate. pose proof Hc as (([Hr1 Hq1] & Hl1 & _) & Hs1)%insertChunk_same.
  pose proof He as (([Hr2 Hq2] & Hl2 & _) & Hs2 & _)%insertRunEvidence_same.
  assert (∀ now, owns f now d2 = owns f now d) as Ho by (intros now; unfold owns; by rewrite Hr2, Hr1, Hq2, Hq1, Hl2, Hl1).
  destruct (db_sessions d2 !! fn_SessionID f) as [row|] eqn:Hrow; [|done]. rewrite Ho. destruct (_ && _) eqn:E; [|done]. cbn [negb]. intros [=<-]. bool_to_prop.
  exists d1, d2, row. rewrite Hs2, Hs1 in Hrow. done.
Qed.

Lemma write_fenced_rollback s f version options events t2 lost d e d' : write_fenced s f version options events t2 lost d = (Err e, d') → d' = d.
Proof. unfold write_fenced. repeat destruct_match_goal; naive_solver. Qed.

Lemma fenced_options_ok s f version t0 t1 d options :
  fenced_options s f version t0 t1 d = Ok options →
  ∃ row, db_sessions d !! fn_SessionID f = Some row ∧ session_matches f version row = true ∧ owns f t0 d = true
    ∧ dec_options (sn_header row) = Some options ∧ owns_header f options = true.
Proof.
  unfold fenced_options. intros H. apply rbind_ok in H as (header & Ha & H). apply acquire_ok in Ha as (row & Hrow & Hm & Ho & ->). exists row.
  destruct (dec_options _); [|done]. apply fail_if_ok in H as [Hh [=->]]. bool_to_prop. done.
Qed.

Lemma check_runs f events :
  check_all (λ e, fail_when negb (bool_decide (RunID e = fn_RunID f)) with "event belongs to another run" ;; Ok tt) events = Ok tt →
  Forall (λ e, RunID e = fn_RunID f) events.
Proof. rewrite check_all_ok. intros Hall. eapply Forall_impl; [exact Hall|]. intros e H. cbn in H. apply fail_if_ok in H as [H _]. by bool_to_prop. Qed.
