(* ===== verification/ControlClaims.v ===== *)
(** * What the control plane promises

    Claims of runs, their fencing and recovery, submissions, cancellation, and
    the state of the run tables in every reachable database. *)
From S2P Require Import Prelude Prog GoString Json Sha256 Payload Events Message Session SessionStore ControlDb RunControl ControlJson ApprovalStore SqlSession SessionFence RunSystem RunTable ControlExamples FenceFacts.
From stdpp Require Import gmap strings list sorting relations.
From Stdlib Require Import ZArith Lia.
Open Scope Z_scope.

(** ** Claiming *)

Definition claim_exec (worker : string) (ttl : Z) (skip : gset string) (tie : nat) (now : Time) (B : Type) (e : claimE B) : Db → B * Db :=
  match e in claimE B return Db → B * Db with ClaimTx => claim_once worker ttl skip tie now end.

Lemma before_total a b : before a b = true ∨ before b a = true.
Proof.
  unfold before. destruct (Z.lt_trichotomy (qr_available a.2) (qr_available b.2)) as [H|[H|H]].
  - left. by rewrite (proj2 (Z.ltb_lt _ _) H).
  - rewrite H, Z.eqb_refl, Z.ltb_irrefl. cbn. destruct (Z.le_ge_cases (rr_created a.1.2) (rr_created b.1.2)); [left|right]; by apply Z.leb_le.
  - right. by rewrite (proj2 (Z.ltb_lt _ _) H).
Qed.

Lemma before_trans a b c : before a b = true → before b c = true → before a c = true.
Proof.
  unfold before. rewrite !orb_true_iff, !andb_true_iff, !Z.ltb_lt, !Z.eqb_eq, !Z.leb_le. lia.
Qed.

Lemma first_exists l : l ≠ [] → ∃ a, a ∈ l ∧ forallb (before a) l = true.
Proof.
  induction l as [|a l IH]; [done|]. intros _. destruct l as [|b l].
  - exists a. split; [left|]. cbn. destruct (before_total a a) as [-> | ->]; done.
  - destruct IH as (m & Hm & Hmin); [done|]. destruct (before_total a m) as [H|H].
    + exists a. split; [left|]. apply forallb_forall. intros x Hx. rewrite forallb_forall in Hmin. destruct Hx as [<-|Hx].
      * destruct (before_total a a); done.
      * eapply before_trans; [exact H|]. by apply Hmin.
    + exists m. split; [by right|]. apply forallb_forall. rewrite forallb_forall in Hmin. intros x [<-|Hx]; [done|by apply Hmin].
Qed.

Lemma first_candidate_none tie l : first_candidate tie l = None → l = [].
Proof.
  unfold first_candidate. cbv zeta. intros H. destruct (decide (l = [])) as [|Hne]; [done|]. destruct (first_exists l Hne) as (a & Ha & Hmin).
  assert (a ∈ List.filter (λ a, forallb (before a) l) l) as Hin. { apply list_elem_of_In, filter_In. split; [by apply list_elem_of_In|done]. }
  destruct (_ !! tie); [done|]. destruct (List.filter _ l); [by apply not_elem_of_nil in Hin|done].
Qed.

Lemma claim_candidates_complete skip now d id r q :
  db_runs d !! id = Some r → db_queue d !! id = Some q → claimable skip now d id r q = true → (id, r, q) ∈ claim_candidates skip now d.
Proof.
  intros Hr Hq Hc. unfold claim_candidates. apply list_elem_of_omap. exists (id, r). split; [by apply elem_of_map_to_list|]. by rewrite Hq, Hc.
Qed.

(** A claimable run leaves the unique index free. *)
Lemma session_active_other id session d : session_active session d = false → other_active id session d = false.
Proof.
  intros H. destruct (other_active id session d) eqn:E; [|done]. apply other_active_spec in E as (j & r & Hj & _ & Hs & Ha).
  enough (session_active session d = true) by congruence. unfold session_active. apply existsb_exists. exists (j, r).
  split; [by apply list_elem_of_In, elem_of_map_to_list|]. cbn. by rewrite bool_decide_eq_true_2, Ha.
Qed.

(** The rows a claim writes. *)
Definition claimed_row (now : Z) (r : runRow) : runRow :=
  mk_run_row (rr_session r) (rr_tenant r) (rr_subject r) RunStatusRunning (rr_cancel r) "" (rr_created r) now (rr_completed r).
Definition claimed_task (worker : string) (lease : Z) (q : queueRow) : queueRow :=
  mk_queue_row (qr_message q) (qr_available q) worker lease (qr_attempt q + 1) (qr_max q) (qr_generation q + 1) (qr_parent q) (qr_state q).

Lemma claim_once_first worker ttl skip tie now d id r q :
  first_candidate tie (claim_candidates skip (UnixMilli now) d) = Some (id, r, q) →
  ∃ run, claim_once worker ttl skip tie now d =
    (Ok (Claimed run), set_queue (<[id := claimed_task worker (UnixMilli (now + ttl)) q]> (db_queue d))
                         (set_runs (<[id := claimed_row (UnixMilli now) r]> (db_runs d)) d))
    ∧ rn_RunID (qd_run run) = id ∧ rn_SessionID (qd_run run) = rr_session r ∧ rn_Status (qd_run run) = RunStatusRunning ∧ qd_Message run = qr_message q
    ∧ qd_WorkerID run = worker ∧ qd_LeaseExpiresAt run = now + ttl ∧ qd_Attempt run = qr_attempt q + 1 ∧ qd_Generation run = qr_generation q + 1.
Proof.
  intros Hf. pose proof Hf as [Hin _]%first_candidate_in. apply claim_candidates_sound in Hin as (Hr & Hq & Hc).
  unfold claimable in Hc. bool_to_prop. unfold claim_once. rewrite Hf. unfold update_run. rewrite Hr.
  match goal with H : is_queued r = true |- _ => rewrite H end. match goal with H : rr_cancel r = false |- _ => rewrite H end. cbn [negb andb].
  unfold write_run. cbn [rr_session]. rewrite session_active_other by done. rewrite andb_false_r. cbn [fail_if rbind]. cbv zeta. unfold update_queue. cbn [db_queue set_runs].
  rewrite Hq. eexists. split; [unfold claimed_row, claimed_task; match goal with H : rr_cancel r = false |- _ => rewrite H end; reflexivity|]. done.
Qed.

(** Claiming, by [ClaimRun] against the database, answers in one
    transaction.  When some run is queued, not cancelled, available and its
    session has no active run, the claim takes one that is available first (and
    among those created first), marks it running for this worker with the next
    generation and attempt and a lease of the given length, and returns its
    message; nothing else changes.  When there is none it answers that there is
    none and changes nothing.  It never fails. *)
Theorem claims_take_the_first_run worker ttl skip tie now d :
  claim_guard worker ttl = Ok tt →
  match (drive (claim_exec worker ttl skip tie now) (ClaimRun worker ttl) d).1 with
  | (Ok None, d') => d' = d ∧ ∀ id r q, db_runs d !! id = Some r → db_queue d !! id = Some q → claimable skip (UnixMilli now) d id r q = false
  | (Ok (Some run), d') =>
      ∃ r q, let id := rn_RunID (qd_run run) in
      db_runs d !! id = Some r ∧ db_queue d !! id = Some q ∧ claimable skip (UnixMilli now) d id r q = true
      ∧ (∀ j s u, db_runs d !! j = Some s → db_queue d !! j = Some u → claimable skip (UnixMilli now) d j s u = true → before (id, r, q) (j, s, u) = true)
      ∧ d' = set_queue (<[id := claimed_task worker (UnixMilli (now + ttl)) q]> (db_queue d)) (set_runs (<[id := claimed_row (UnixMilli now) r]> (db_runs d)) d)
      ∧ qd_Message run = qr_message q ∧ qd_WorkerID run = worker ∧ qd_LeaseExpiresAt run = now + ttl
      ∧ qd_Attempt run = qr_attempt q + 1 ∧ qd_Generation run = qr_generation q + 1
  | (Err _, _) => False
  end.
Proof.
  unfold claim_guard, ClaimRun. intros Hg. rewrite Hg. cbn.
  destruct (first_candidate tie (claim_candidates skip (UnixMilli now) d)) as [[[id r] q]|] eqn:Hf.
  - destruct (claim_once_first worker ttl skip tie now d id r q Hf) as (run & -> & Hid & Hrun). cbn. exists r, q. rewrite Hid. destruct_and!.
    apply first_candidate_in in Hf as [Hin Hmin]. pose proof Hin as (Hr & Hq & Hc)%claim_candidates_sound. split_and!; try done.
    intros j s u Hj Hu Hcl. by apply (Hmin (j, s, u)), claim_candidates_complete.
  - unfold claim_once. rewrite Hf. cbn. apply first_candidate_none in Hf. split; [done|]. intros id r q Hr Hq.
    destruct (claimable _ _ _ _ _ _) eqn:E; [|done]. pose proof (claim_candidates_complete _ _ _ _ _ _ Hr Hq E) as Hin. rewrite Hf in Hin. by apply not_elem_of_nil in Hin.
Qed.

(** ** The run tables over time *)

(** A new run is accepted on the strength of the count it saw. *)
Lemma enqueue_counted s seen run now d :
  validateQueuedRun run = Ok tt → db_runs d !! rn_RunID (qd_run run) = None → db_queue d !! rn_RunID (qd_run run) = None →
  Z.of_nat (size (in_flight_runs seen)) < inFlightCap s →
  ∃ d', EnqueueRun s seen run now d = (Ok tt, d') ∧ size (in_flight_runs d') = S (size (in_flight_runs d)).
Proof.
  intros Hv Hr Hq Hroom. unfold EnqueueRun, ensureInFlightCapacity. rewrite Hv. cbv zeta. rewrite (proj2 (Z.leb_gt _ _) Hroom). cbn [fail_if].
  unfold insert_queued, insert_run. cbv zeta. rewrite Hr, write_run_inactive by reflexivity. cbn [rbind]. unfold insert_queue. cbn. rewrite Hq.
  eexists. split; [done|]. unfold in_flight_runs. cbn. rewrite map_filter_insert_True by done. rewrite map_size_insert_None; [done|].
  apply map_lookup_filter_None. by left.
Qed.

(** C17.  The run tables are consistent in every reachable database: each run is
    absent, queued, claimed by a named worker, running without a task, waiting
    for an approval or terminal, as its two rows say, with a task exactly when
    it is queued, claimed or waiting; a task counts no more attempts than
    generations and allows between one and ten; a session has at most one active
    run.  On SQLite, whose writing transactions are serialised, no more runs are
    in flight than the configured limit.  On PostgreSQL the limit is not kept: an
    enqueue is accepted whenever the database its count saw had room, however many
    runs others have committed since. *)
Theorem control_plane_is_consistent s d :
  reaches s empty_db d →
  (∀ id, ∃ p, phase d id = Some p ∧ phase_ok p) ∧ one_active d
  ∧ (st_dialect (ctl s) = SQLDialectSQLite → Z.of_nat (size (in_flight_runs d)) ≤ inFlightCap (ctl s))
  ∧ (st_dialect (ctl s) = SQLDialectPostgres → ∀ seen run now,
       validateQueuedRun run = Ok tt → db_runs d !! rn_RunID (qd_run run) = None → Z.of_nat (size (in_flight_runs seen)) < inFlightCap (ctl s) →
       ∃ d', EnqueueRun (ctl s) seen run now d = (Ok tt, d') ∧ control_step s d d' ∧ size (in_flight_runs d') = S (size (in_flight_runs d))).
Proof.
  intros H. destruct (reaches_inv s _ _ H (empty_inv s)) as [H1 H2 H3]. split_and!; [done..|]. intros Hpg seen run now Hv Hr Hroom.
  assert (db_queue d !! rn_RunID (qd_run run) = None) as Hq.
  { destruct (H1 (rn_RunID (qd_run run))) as (p & Hp & _). unfold phase in Hp. rewrite Hr in Hp. by destruct (db_queue d !! _). }
  destruct (enqueue_counted (ctl s) seen run now d Hv Hr Hq Hroom) as (d' & He & Hn). exists d'. split_and!; [done| |done].
  exists now, (OpEnqueueRun seen run). split; [|by cbn; rewrite He]. cbn. by rewrite Hpg.
Qed.

(** C18.  Every operation refines the life cycle of a run: whatever transaction
    is executed, whatever it answers, the state of every run afterwards is
    reached from its state before by the steps of [life]; in particular the
    status of a terminal run never changes again and it has no task. *)
Theorem control_plane_refines_the_life_cycle s now op d id p :
  phase d id = Some p →
  ∃ p', phase (apply_op s now op d) id = Some p' ∧ rtc life p p' ∧ (∀ status, p = LDone status → p' = LDone status).
Proof.
  intros Hp. destruct (op_follows s now op d id p Hp) as (p' & Hp' & Hl). exists p'. split_and!; [done..|]. intros status ->. by apply life_done.
Qed.

(** ** Lost claims *)

Lemma update_run_no id guard f d : (∀ r, db_runs d !! id = Some r → guard r = false) → update_run id guard f d = Ok (false, d).
Proof. intros H. unfold update_run. destruct (db_runs d !! id) as [r|]; [|done]. by rewrite H. Qed.

Lemma release_not_held id w g now f h d : claim_held id w g now d = false → release_claim id w g now f h d = (Ok false, d).
Proof. intros Hno. unfold release_claim. rewrite update_run_no; [done|]. intros r _. by rewrite Hno, andb_false_r. Qed.

Lemma renew_not_held s id w g ttl now d :
  validateClaimMutation id w g = Ok tt → 0 < ttl → claim_held id w g (UnixMilli now) d = false → RenewRunClaim s id w g ttl now d = (Ok false, d).
Proof.
  intros Hv Httl Hno. unfold RenewRunClaim. rewrite Hv. rewrite (proj2 (Z.leb_gt _ _)) by done. cbn [fail_if].
  destruct (_ && _) in |- *; [done|]. unfold update_queue. unfold claim_held in Hno. destruct (db_queue d !! id) as [q|]; [|done]. by rewrite Hno.
Qed.

Lemma mutation_worker id w g : validateClaimMutation id w g = Ok tt → w ≠ "".
Proof.
  unfold validateClaimMutation. intros H. apply rbind_ok in H as ([] & _ & H). apply rbind_ok in H as ([] & H & _). by apply worker_nonempty.
Qed.

(** Owning a fence is holding the claim. *)
Lemma owns_held f now d : owns f now d = true → claim_held (fn_RunID f) (fn_WorkerID f) (fn_QueueGeneration f) now d = true.
Proof.
  unfold owns, claim_held, held. destruct (db_runs d !! _); [|done]. destruct (db_queue d !! _) as [q|]; [|done]. intros H. bool_to_prop.
  rewrite !andb_true_iff, bool_decide_eq_true, Z.eqb_eq, Z.ltb_lt. done.
Qed.

Lemma append_not_held s f version events t0 t1 t2 d :
  events ≠ [] → claim_held (fn_RunID f) (fn_WorkerID f) (fn_QueueGeneration f) t0 d = false →
  ∃ e, appendEventsFenced s f version events t0 t1 t2 d = (Err e, d).
Proof.
  intros Hne Hno. unfold appendEventsFenced. destruct (validateFencedAppend _ _ _) as [|e]; [|by exists e]. destruct events as [|x events]; [done|].
  destruct (fenced_options s f version t0 t1 d) as [options|e] eqn:Ho; [|by exists e]. apply fenced_options_ok in Ho as (row & _ & _ & Ho & _).
  apply owns_held in Ho. congruence.
Qed.

(** C16.  A lost claim is lost for good.  If a run was claimed with some
    generation and that claim is no longer the run's state (it was released,
    finished, recovered or claimed anew), then in every later database the holder
    of that generation can neither renew, retry, pause nor finish the run (the
    answer is false and nothing changes), and every append fenced by it fails and
    changes nothing. *)
Theorem lost_claims_are_fenced s d d1 d' id worker lease t c :
  phase d id = Some (LClaimed worker lease t c) → reaches s d d1 → (∀ lease' c', phase d1 id ≠ Some (LClaimed worker lease' t c')) → reaches s d1 d' →
  ∀ w now, validateClaimMutation id w (tk_generation t) = Ok tt →
    (∀ ttl, 0 < ttl → RenewRunClaim (ctl s) id w (tk_generation t) ttl now d' = (Ok false, d'))
    ∧ (∀ available code, IsZero available = false → RetryRunClaim id w (tk_generation t) available code now d' = (Ok false, d'))
    ∧ PauseRunClaim id w (tk_generation t) now d' = (Ok false, d')
    ∧ (∀ status code, validateTerminalRunStatus status = Ok tt → FinishRunClaim id w (tk_generation t) status code now d' = (Ok false, d'))
    ∧ (∀ f version events t1 t2, fn_RunID f = id → fn_WorkerID f = w → fn_QueueGeneration f = tk_generation t → events ≠ [] →
         ∃ e, appendEventsFenced (ses s) f version events (UnixMilli now) t1 t2 d' = (Err e, d')).
Proof.
  intros Hp H1 Hlost H2 w now Hv. destruct (reaches_follows _ _ _ H1 id _ Hp) as (p1 & Hp1 & Hl1).
  destruct (claim_ends _ _ _ _ _ Hl1) as [(lease' & c' & ->)|Hpast]; [by destruct (Hlost lease' c')|].
  destruct (reaches_follows _ _ _ H2 id _ Hp1) as (p' & Hp' & Hl2). pose proof (life_star_past _ _ _ Hl2 Hpast) as Hpast'.
  pose proof (past_not_held _ id p' d' w (UnixMilli now) (mutation_worker _ _ _ Hv) Hp' Hpast') as Hno. split_and!.
  - intros ttl Httl. by apply renew_not_held.
  - intros available code Hz. unfold RetryRunClaim. rewrite Hv, Hz. by apply release_not_held.
  - unfold PauseRunClaim. rewrite Hv. by apply release_not_held.
  - intros status code Hs. unfold FinishRunClaim. rewrite Hv, Hs. rewrite update_run_no; [done|]. intros r _. by rewrite Hno, andb_false_r.
  - intros f version events t1 t2 <- <- Hg Hne. apply append_not_held; [done|]. by rewrite Hg.
Qed.

(** ** Recovery *)

Lemma recover_rows_cons now id r q claims d : recover_rows now ((id, r, q) :: claims) d = recover_rows now claims (put_rows id (recovered now r q) d).
Proof. done. Qed.

Lemma recover_rows_off now claims d id : id ∉ claims.*1.*1 → db_runs (recover_rows now claims d) !! id = db_runs d !! id ∧ db_queue (recover_rows now claims d) !! id = db_queue d !! id.
Proof.
  revert d. induction claims as [|[[i r] q] claims IH]; intros d Hno; [done|]. rewrite recover_rows_cons. apply not_elem_of_cons in Hno as [Hne Hno].
  destruct (IH (put_rows i (recovered now r q) d) Hno) as [-> ->]. by apply put_rows_elsewhere.
Qed.

Lemma recover_rows_at now claims d id r q :
  NoDup claims.*1.*1 → (id, r, q) ∈ claims →
  db_runs (recover_rows now claims d) !! id = Some (recovered now r q).1 ∧ db_queue (recover_rows now claims d) !! id = (recovered now r q).2.
Proof.
  revert d. induction claims as [|[[i r'] q'] claims IH]; intros d Hnd Hin; [by apply not_elem_of_nil in Hin|]. rewrite recover_rows_cons.
  apply NoDup_cons in Hnd as [Hno Hnd].
  apply elem_of_cons in Hin as [[= <- <- <-]|Hin]; [|by apply IH].
  destruct (recover_rows_off now claims (put_rows id (recovered now r q) d) id Hno) as [-> ->]. cbn. by rewrite lookup_insert_eq, lookup_partial_alter_eq.
Qed.


Lemma expired_ids skip now d id : id ∈ (expired_claims skip now d).*1.*1 ↔ ∃ r q, (id, r, q) ∈ expired_claims skip now d.
Proof.
  rewrite list_elem_of_fmap. split.
  - intros ([i r] & -> & ([[i' r'] q] & [= -> ->] & Hin)%list_elem_of_fmap). by exists r', q.
  - intros (r & q & Hin). exists (id, r). split; [done|]. apply list_elem_of_fmap. by exists (id, r, q).
Qed.

(** Recovery makes no run active. *)
Lemma recovered_inactive now r q : is_active (recovered now r q).1 = false.
Proof. unfold recovered. destruct (rr_cancel r); [|destruct (_ <? _)]; done. Qed.

Lemma recover_rows_idle skip now d id r q :
  one_active d → (id, r, q) ∈ expired_claims skip now d → session_active (rr_session r) (recover_rows now (expired_claims skip now d) d) = false.
Proof.
  intros Hone Hin. pose proof (expired_claims_nodup skip now d) as Hnd. pose proof (expired_selected skip now d id r q Hin) as (Hr & Hrun & _).
  destruct (session_active _ _) eqn:E; [|done]. exfalso. unfold session_active in E. apply existsb_exists in E as ([j s] & Hj & E).
  apply list_elem_of_In, elem_of_map_to_list in Hj. cbn in E. bool_to_prop.
  destruct (decide (j ∈ (expired_claims skip now d).*1.*1)) as [Hje|Hje].
  - apply expired_ids in Hje as (r' & q' & Hin'). destruct (recover_rows_at now _ d _ _ _ Hnd Hin') as [E' _]. rewrite E' in Hj. injection Hj as <-.
    by rewrite recovered_inactive in *.
  - destruct (recover_rows_off now _ d j Hje) as [E' _]. rewrite E' in Hj. assert (j = id) as ->.
    { apply (Hone j id s r); try done. unfold is_active. by rewrite Hrun. }
    apply Hje, expired_ids. by exists r, q.
Qed.

(** C20.  Recovery restores every run whose worker was lost.  It always succeeds;
    afterwards no expired claim is left.  A run whose cancellation was requested is
    cancelled, one with attempts left is back in the queue, without a claim and
    claimable at once, and any other has failed; the counts it returns are those
    of the runs requeued and ended, and every other run is as it was. *)
Theorem recovery_restores_lost_runs now d :
  one_active d → IsZero now = false →
  ∃ requeued failed d', RecoverExpiredRunClaims ∅ now d = (Ok (requeued, failed), d')
    ∧ expired_claims ∅ (UnixMilli now) d' = []
    ∧ requeued + failed = Z.of_nat (length (expired_claims ∅ (UnixMilli now) d))
    ∧ (∀ id r q, (id, r, q) ∈ expired_claims ∅ (UnixMilli now) d →
         if rr_cancel r then phase d' id = Some (LDone RunCancelled)
         else if qr_attempt q <? qr_max q
         then ∃ r' q', db_runs d' !! id = Some r' ∧ db_queue d' !! id = Some q' ∧ claimable ∅ (UnixMilli now) d' id r' q' = true ∧ task_of q' = task_of q
         else phase d' id = Some (LDone RunFailed))
    ∧ (∀ id, (∀ r q, (id, r, q) ∉ expired_claims ∅ (UnixMilli now) d) → db_runs d' !! id = db_runs d !! id ∧ db_queue d' !! id = db_queue d !! id).
Proof.
  intros Hone Hz. rewrite RecoverExpiredRunClaims_ok by done. cbv zeta. pose proof (expired_claims_nodup ∅ (UnixMilli now) d) as Hnd.
  remember (UnixMilli now) as ms eqn:Hms. eexists _, _, _. split; [done|]. split_and!; [|lia| |].
  - destruct (expired_claims ∅ ms (recover_rows ms (expired_claims ∅ ms d) d)) as [|[[id r] q] l] eqn:E; [done|]. exfalso.
    assert ((id, r, q) ∈ expired_claims ∅ ms (recover_rows ms (expired_claims ∅ ms d) d)) as Hin by (rewrite E; left).
    apply expired_claims_spec in Hin as (Hr & Hq & He). destruct (decide (id ∈ (expired_claims ∅ ms d).*1.*1)) as [Hid|Hid].
    + apply expired_ids in Hid as (r' & q' & Hin'). destruct (recover_rows_at ms _ d _ _ _ Hnd Hin') as [E' _]. rewrite E' in Hr. injection Hr as <-.
      pose proof (recovered_inactive ms r' q') as Hi. unfold is_active in Hi. apply orb_false_elim in Hi as [Hi _]. unfold expired in He. by rewrite Hi, andb_false_r in He.
    + destruct (recover_rows_off ms _ d id Hid) as [E1 E2]. rewrite E1 in Hr. apply Hid, expired_ids. exists r, q. apply expired_claims_spec.
      rewrite E2 in Hq. split_and!; [done..|]. unfold expired in *. by rewrite <-E2.
  - intros id r q Hin. destruct (recover_rows_at ms _ d _ _ _ Hnd Hin) as [E1 E2]. unfold phase. rewrite E1, E2.
    pose proof (recover_rows_idle ∅ ms d id r q Hone Hin) as Hidle. unfold recovered. destruct (rr_cancel r) eqn:Hc; [done|].
    destruct (qr_attempt q <? qr_max q); [|done]. cbn. eexists _, _. split_and!; [done..| |done].
    unfold claimable. cbn. rewrite Hc, Hidle, Z.leb_refl. rewrite bool_decide_eq_false_2 by set_solver. done.
  - intros id Hno. apply recover_rows_off. intros (r & q & Hin)%expired_ids. by apply (Hno r q).
Qed.

(** ** Idempotent submissions *)

Definition prunes_submissions (op : control_op) : bool := match op with OpPruneSubmissions _ => true | _ => false end.
(** A step that does not prune submissions. *)
Definition kept_step (s : Stores) (d d' : Db) : Prop := ∃ now op, prunes_submissions op = false ∧ d' = apply_op s now op d.

Lemma EnqueueRunOnce_keeps s seen run key digest now d k row :
  db_submissions d !! k = Some row → db_submissions (EnqueueRunOnce s seen run key digest now d).2 !! k = Some row.
Proof.
  intros Hk. unfold EnqueueRunOnce. destruct (validateQueuedRun run); [|done]. destruct (validateRunSubmission _ _); [|done]. cbv zeta.
  destruct (submissionCapReached _ _); [done|]. destruct (insert_submission _ _ d) as [b d1] eqn:Hi.
  assert (db_submissions d1 !! k = Some row) as Hd1.
  { unfold insert_submission in Hi. destruct (db_submissions d !! submission_key run key) eqn:Hno; [by simplify_eq|].
    destruct (existsb _ _); simplify_eq; [done|]. cbn. rewrite lookup_insert_ne; [done|]. congruence. }
  destruct b; [|done]. cbn [negb]. destruct (ensureInFlightCapacity _ _); [|done]. destruct (insert_queued _ _ d1) as [d'|] eqn:H; [|done].
  apply insert_queued_rest in H as (H & _). cbn. by rewrite H.
Qed.

Lemma kept_step_keeps s d d' k row : kept_step s d d' → db_submissions d !! k = Some row → db_submissions d' !! k = Some row.
Proof.
  intros (now & op & Hop & ->) Hk. destruct (on_runs op) eqn:Hon.
  { destruct (op_rest s now op d Hon) as (H & _). by rewrite H. }
  destruct (on_sessions op) eqn:Hos.
  { destruct (op_control s now op d Hos) as (_ & _ & H & _). by rewrite H. }
  destruct op; try discriminate Hon; try discriminate Hop; try discriminate Hos; cbn [apply_op]; try done.
  - by apply EnqueueRunOnce_keeps.
  - by rewrite (proj1 (RequestRunCancel_rest _ _ _)).
  - cbn. destruct (insert_approval id row0 d) as [d'|] eqn:H; [|done]. unfold insert_approval in H. repeat (destruct_match_in H; try done). by simplify_eq.
  - cbn. by rewrite (proj1 (decideAndResume_rest _ _ _ _ _)).
  - cbn. unfold decide_approval. repeat destruct_match_goal; simplify_eq; done.
  - cbn. repeat destruct_match_goal; done.
  - cbn. repeat destruct_match_goal; done.
  - unfold RenewSessionLease. repeat destruct_match_goal; done.
  - unfold ReleaseSessionLease. repeat destruct_match_goal; done.
Qed.

(** Runs are never removed. *)
Lemma step_keeps_run s now op d id : is_Some (db_runs d !! id) → is_Some (db_runs (apply_op s now op d) !! id).
Proof.
  intros H. destruct (creates op) eqn:Hop.
  - destruct (op_create s now op d Hop) as [E|(j & r & e & [_ ->]%write_run_ok & E & _)]; rewrite E; [done|]. cbn. destruct (decide (j = id)) as [->|Hne].
    + rewrite lookup_insert_eq. by eexists.
    + by rewrite lookup_insert_ne.
  - apply elem_of_dom. rewrite (proj1 (op_update s now op d Hop)). by apply elem_of_dom.
Qed.

(** A bound key is answered from its row. *)
Lemma enqueue_bound s seen run key digest now d row :
  validateQueuedRun run = Ok tt → validateRunSubmission key digest = Ok tt → db_submissions d !! submission_key run key = Some row →
  EnqueueRunOnce s seen run key digest now d =
    (if bool_decide (sb_digest row = digest) then (let! record := get_run (sb_run row) d in Ok (record, false)) else Err ErrRunSubmissionConflict, d).
Proof.
  intros H1 H2 Hk. unfold EnqueueRunOnce. rewrite H1, H2. cbv zeta. unfold insert_submission. rewrite Hk. unfold replay_submission. rewrite Hk.
  case_bool_decide; cbn; destruct (submissionCapReached s d); done.
Qed.

(** A fresh submission binds its key and creates its run. *)
Lemma enqueue_fresh s seen run key digest now d record d1 :
  EnqueueRunOnce s seen run key digest now d = (Ok (record, true), d1) →
  ∃ created, db_submissions d1 !! submission_key run key = Some (mk_submission digest (rn_RunID (qd_run run)) created)
    ∧ is_Some (db_runs d1 !! rn_RunID (qd_run run)).
Proof.
  intros H. unfold EnqueueRunOnce in H. destruct (validateQueuedRun run); [|done]. destruct (validateRunSubmission _ _); [|done]. cbv zeta in H.
  assert (∀ k dg m e, replay_submission k dg m e ≠ Ok (record, true)) as Hrep.
  { intros k dg m e. unfold replay_submission. destruct (db_submissions e !! k); [|done]. unfold fail_if. destruct (negb _); [done|]. by destruct (get_run _ e). }
  destruct (submissionCapReached _ _); [by injection H as H _; apply Hrep in H|].
  unfold insert_submission in H. destruct (db_submissions d !! submission_key run key); [by injection H as H _; apply Hrep in H|].
  destruct (existsb _ _); [by injection H as H _; apply Hrep in H|]. cbn [negb] in H. destruct (ensureInFlightCapacity _ _); [|done].
  destruct (insert_queued _ _ _) as [d'|] eqn:Hi; [|done]. injection H as _ <-. eexists. split.
  - apply insert_queued_rest in Hi as (Hs & _). rewrite Hs. cbn. by rewrite lookup_insert_eq.
  - unfold insert_queued in Hi. cbv zeta in Hi. apply rbind_ok in Hi as (d3 & Hir & Hiq). unfold insert_run in Hir. destruct (_ !! _) in Hir; [done|].
    apply write_run_ok in Hir as [_ ->]. unfold insert_queue in Hiq. destruct (_ !! _) in Hiq; [done|]. injection Hiq as <-. cbn. rewrite lookup_insert_eq. by eexists.
Qed.

Lemma kept_star s d d' k row id :
  rtc (kept_step s) d d' → db_submissions d !! k = Some row → is_Some (db_runs d !! id) → db_submissions d' !! k = Some row ∧ is_Some (db_runs d' !! id).
Proof.
  induction 1 as [|x y z Hstep _ IH]; [done|]. intros Hk Hr. apply IH; [by eapply kept_step_keeps|]. destruct Hstep as (t & op & _ & ->). by apply step_keeps_run.
Qed.

(** C21.  A submission is idempotent.  Once a run was enqueued under an idempotency
    key, a later submission of the same session's owner under that key enqueues
    nothing and changes nothing, whatever happened in between short of pruning
    the submission: with the same request digest it answers the record of the
    first run, with another digest a conflict. *)
Theorem submissions_are_idempotent s seen run key digest now d record d1 d2 :
  EnqueueRunOnce (ctl s) seen run key digest now d = (Ok (record, true), d1) → rtc (kept_step s) d1 d2 →
  ∀ seen' run' digest' now', validateQueuedRun run' = Ok tt → validateRunSubmission key digest' = Ok tt → submission_key run' key = submission_key run key →
  (digest' = digest → ∃ r, db_runs d2 !! rn_RunID (qd_run run) = Some r
     ∧ EnqueueRunOnce (ctl s) seen' run' key digest' now' d2 = (Ok (scanRun (rn_RunID (qd_run run)) r, false), d2))
  ∧ (digest' ≠ digest → EnqueueRunOnce (ctl s) seen' run' key digest' now' d2 = (Err ErrRunSubmissionConflict, d2)).
Proof.
  intros H Hstar.
  destruct (enqueue_fresh _ _ _ _ _ _ _ _ _ H) as (created & Hk1 & Hrun1).
  destruct (kept_star _ _ _ _ _ _ Hstar Hk1 Hrun1) as [Hk2 [r Hr]].
  intros seen' run' digest' now' Hv' Hvs Hkey. rewrite <-Hkey in Hk2. split.
  - intros ->. exists r. split; [done|]. rewrite (enqueue_bound _ _ _ _ _ _ _ _ Hv' Hvs Hk2). cbn. rewrite bool_decide_eq_true_2 by done. unfold get_run. by rewrite Hr.
  - intros Hne. rewrite (enqueue_bound _ _ _ _ _ _ _ _ Hv' Hvs Hk2). cbn. by rewrite bool_decide_eq_false_2.
Qed.

(** ** The claims at work *)

Definition ex_claimed_run : QueuedRun :=
  match (claim_once "w1" minute ∅ 0 (ex_t + second) ex_enqueued).1 with Ok (Claimed run) => run | _ => ex_queued "" 0 end.
Lemma ex_claim : (drive (claim_exec "w1" minute ∅ 0 (ex_t + second)) (ClaimRun "w1" minute) ex_enqueued).1 = (Ok (Some ex_claimed_run), ex_claimed).
Proof. vm_compute. reflexivity. Qed.

Lemma claims_take_the_first_run_witness :
  ∃ r q, db_runs ex_enqueued !! "run-1" = Some r ∧ db_queue ex_enqueued !! "run-1" = Some q
    ∧ db_queue ex_claimed = <["run-1" := claimed_task "w1" (UnixMilli (ex_t + second + minute)) q]> (db_queue ex_enqueued).
Proof.
  pose proof (claims_take_the_first_run "w1" minute ∅ 0%nat (ex_t + second) ex_enqueued eq_refl) as H. rewrite ex_claim in H.
  destruct H as (r & q & Hr & Hq & _ & _ & Hd & _). exists r, q. split; [exact Hr|]. split; [exact Hq|]. rewrite Hd. reflexivity.
Defined.

(** Two enqueues that counted before either had committed, with room for one. *)
Definition ex_postgres : Stores := mk_stores (mk_control_store SQLDialectPostgres 1 0) (mk_sql_sessions SQLDialectPostgres 0 0 0).
Definition ex_first_enqueue : Db := apply_op ex_postgres ex_t (OpEnqueueRun empty_db (ex_queued "run-1" 2)) empty_db.
Lemma ex_first_enqueue_reached : reaches ex_postgres empty_db ex_first_enqueue.
Proof. apply rtc_once. by exists ex_t, (OpEnqueueRun empty_db (ex_queued "run-1" 2)). Qed.

Lemma control_plane_is_consistent_witness :
  (one_active ex_claimed ∧ Z.of_nat (size (in_flight_runs ex_claimed)) ≤ 1024)
  ∧ ∃ d', control_step ex_postgres ex_first_enqueue d' ∧ inFlightCap (ctl ex_postgres) < Z.of_nat (size (in_flight_runs d')).
Proof.
  split.
  - destruct (control_plane_is_consistent ex_stores ex_claimed ex_claimed_reached) as (_ & Hone & Hcap & _). split; [exact Hone|exact (Hcap eq_refl)].
  - destruct (control_plane_is_consistent ex_postgres ex_first_enqueue ex_first_enqueue_reached) as (_ & _ & _ & Hrace).
    destruct (Hrace eq_refl empty_db (ex_queued "run-2" 2) ex_t eq_refl eq_refl eq_refl) as (d' & _ & Hstep & Hn).
    exists d'. split; [exact Hstep|]. rewrite Hn. vm_compute. reflexivity.
Defined.

Lemma control_plane_refines_the_life_cycle_witness :
  ∃ p, phase ex_recovered "run-1" = Some p ∧ rtc life (LClaimed "w1" (UnixMilli (ex_t + second + minute)) (mk_task 1 1 2) false) p.
Proof.
  destruct (control_plane_refines_the_life_cycle ex_stores (ex_t + 2 * minute) (OpRecover ∅) ex_claimed "run-1" _ ex_claimed_phase) as (p & Hp & Hl & _).
  exists p. split; [exact Hp|exact Hl].
Defined.

Lemma ex_mutation : validateClaimMutation "run-1" "w1" 1 = Ok tt.
Proof. reflexivity. Qed.

(** The first worker comes back after the run was claimed anew. *)
Lemma lost_claims_are_fenced_witness :
  FinishRunClaim "run-1" "w1" 1 RunCompleted "" (ex_t + 4 * minute) ex_reclaimed = (Ok false, ex_reclaimed)
  ∧ RenewRunClaim (ctl ex_stores) "run-1" "w1" 1 minute (ex_t + 4 * minute) ex_reclaimed = (Ok false, ex_reclaimed).
Proof.
  destruct (lost_claims_are_fenced ex_stores ex_claimed ex_recovered ex_reclaimed "run-1" "w1" _ (mk_task 1 1 2) false ex_claimed_phase
              ex_recovered_reached ltac:(intros lease' c'; rewrite ex_recovered_phase; discriminate) ex_reclaimed_reached "w1" (ex_t + 4 * minute) ex_mutation)
    as (Hrenew & _ & _ & Hfinish & _).
  split; [apply Hfinish; reflexivity|apply Hrenew; reflexivity].
Defined.

Lemma recovery_restores_lost_runs_witness :
  ∃ n m d', RecoverExpiredRunClaims ∅ (ex_t + 2 * minute) ex_claimed = (Ok (n, m), d') ∧ n + m = 1 ∧ expired_claims ∅ (UnixMilli (ex_t + 2 * minute)) d' = [].
Proof.
  destruct (recovery_restores_lost_runs (ex_t + 2 * minute) ex_claimed ex_claimed_active eq_refl) as (n & m & d' & H & Hnone & Hsum & _).
  exists n, m, d'. split; [exact H|]. split; [|exact Hnone]. rewrite Hsum. vm_compute. reflexivity.
Defined.

Definition ex_digest : string := RunMessageDigest "hello".
Definition ex_submitted : Db := (EnqueueRunOnce (ctl ex_stores) empty_db (ex_queued "run-1" 2) "key" ex_digest ex_t empty_db).2.
Definition ex_submitted_record : RunRecord :=
  match (EnqueueRunOnce (ctl ex_stores) empty_db (ex_queued "run-1" 2) "key" ex_digest ex_t empty_db).1 with Ok (record, _) => record | Err _ => qd_run (ex_queued "" 0) end.
Definition ex_submitted_claimed : Db := apply_op ex_stores (ex_t + second) (OpClaim "w1" minute ∅ 0) ex_submitted.
Lemma ex_submit : EnqueueRunOnce (ctl ex_stores) empty_db (ex_queued "run-1" 2) "key" ex_digest ex_t empty_db = (Ok (ex_submitted_record, true), ex_submitted).
Proof. vm_cast_no_check (@eq_refl (result (RunRecord * bool) * Db) (Ok (ex_submitted_record, true), ex_submitted)). Qed.
Lemma ex_digest_ok : validateRunSubmission "key" ex_digest = Ok tt.
Proof. vm_compute. reflexivity. Qed.

(** The request is sent again while the run is claimed. *)
Lemma submissions_are_idempotent_witness :
  ∃ r, EnqueueRunOnce (ctl ex_stores) ex_submitted_claimed (ex_queued "run-2" 2) "key" ex_digest (ex_t + minute) ex_submitted_claimed = (Ok (scanRun "run-1" r, false), ex_submitted_claimed).
Proof.
  destruct (submissions_are_idempotent ex_stores empty_db (ex_queued "run-1" 2) "key" ex_digest ex_t empty_db ex_submitted_record ex_submitted ex_submitted_claimed ex_submit
              (rtc_once _ _ (ex_intro _ (ex_t + second) (ex_intro _ (OpClaim "w1" minute ∅ 0) (conj eq_refl eq_refl))))
              ex_submitted_claimed (ex_queued "run-2" 2) ex_digest (ex_t + minute) eq_refl ex_digest_ok eq_refl) as [H _].
  destruct (H eq_refl) as (r & _ & Hr). exists r. exact Hr.
Defined.
