(* ===== verification/FenceClaims.v ===== *)
(** * What the SQL session store promises

    Appends and their reading back, writes behind a fence, the agreement of the
    two dialects, and session leases. *)
From S2P Require Import Prelude Prog GoString Json Sha256 Scope Principal GoTime Payload Events Message Session SessionStore SessionClaims Repair ControlDb RunControl ControlJson ApprovalStore SqlSession SessionFence RunSystem RunTable ControlExamples FenceFacts.
From stdpp Require Import gmap strings list sorting.
From Stdlib Require Import ZArith Lia.
Open Scope Z_scope.

(** ** Appending and loading *)

Lemma AppendEvents_ok s id version events now d d' :
  AppendEvents s id version events now d = (Ok tt, d') → events ≠ [] →
  ∃ row options d1 d2, ValidateSessionID id = Ok tt ∧ db_sessions d !! id = Some row ∧ sn_version row = version
    ∧ insertChunk s id version events d = Ok d1 ∧ insertRunEvidence id options events (evidenceCap s) d1 = Ok d2
    ∧ d' = set_sessions (<[id := set_tip (version + Z.of_nat (length events)) (UnixMilli now) row]> (db_sessions d2)) d2.
Proof.
  unfold AppendEvents. intros H Hne. destruct (ValidateSessionID id) as [[]|] eqn:Hid; [|done]. destruct (validateAppendEvents _ _); [|done].
  destruct (db_sessions d !! id) as [row|] eqn:Hrow; [|done]. destruct (negb _) eqn:Hv; [done|]. bool_to_prop.
  destruct (match events with [] => _ | _ => _ end) as [d2|] eqn:Hw; [|done]. destruct events as [|e events]; [done|].
  apply rbind_ok in Hw as (d1 & Hc & Hw). destruct (dec_options _) as [options|]; [|done].
  pose proof Hc as [_ Hs1]%insertChunk_same. pose proof Hw as (_ & Hs2 & _)%insertRunEvidence_same.
  rewrite Hs2, Hs1, Hrow, Z.eqb_refl in H. injection H as <-. exists row, options, d1, d2. rewrite Hs2, Hs1. done.
Qed.

(** C33.  Events read back.  When an append to a stored session succeeds, loading
    the session gives the stored events followed by the appended ones; a load
    whose catalog row was read before the append and whose chunks were read
    after it still gives the events that were committed; and every other stored
    session is as it was. *)
Theorem appended_events_are_loaded s id version events now d d' header evs :
  stored d id header evs → events ≠ [] → forallb event_stable events = true → Z.of_nat (length (evs ++ events)) ≤ MaxSessionEvents →
  AppendEvents s id version events now d = (Ok tt, d') →
  sql_Load id d' d' = RestoreSession header (evs ++ events) ∧ sql_Load id d d' = RestoreSession header evs
  ∧ ∀ other h es, other ≠ id → stored d other h es → stored d' other h es.
Proof.
  intros Hst Hne Hstab Hmax H. apply AppendEvents_ok in H as (row & options & d1 & d2 & Hid & Hrow & Hv & Hc & He & ->); [|done].
  assert (version = Z.of_nat (length evs)) as ->. { destruct Hst as (r & Hr & Hvr & _). rewrite Hrow in Hr. injection Hr as <-. lia. }
  destruct (tip_stored _ _ _ _ _ _ _ _ _ _ row (UnixMilli now) Hst Hstab Hc He Hrow) as [Hst' Hoth]. split_and!.
  - by apply load_stored.
  - rewrite length_app in Hmax. destruct Hst' as (r & _ & _ & _ & Hdec). eapply load_prefix; [done|done|lia|exact Hdec].
  - done.
Qed.

(** ** Writing behind a fence *)

(** C19.  A fenced append writes only for the owner of the run.  If it answers an
    error nothing has changed.  If it appended events, then both when the fence was
    acquired and when the version advanced the run was running for this worker
    and this generation under live leases of the claim and of the session and
    was not cancelled; the session was at the expected version and belongs to
    the run's owner, every event is of the run, and what changed is the session's
    version, its new chunk and its evidence. *)
Theorem fenced_append_needs_the_fence s f version events t0 t1 t2 d :
  match appendEventsFenced s f version events t0 t1 t2 d with
  | (Err _, d') => d' = d
  | (Ok _, d') =>
    (events = [] ∧ d' = d) ∨
    (owns f t0 d = true ∧ owns f t2 d = true ∧ Forall (λ e, RunID e = fn_RunID f) events
     ∧ ∃ row options lines, db_sessions d !! fn_SessionID f = Some row ∧ sn_version row = version ∧ dec_options (sn_header row) = Some options
       ∧ owns_header f options = true ∧ encode_lines 0 events = Ok lines ∧ db_chunks d !! (fn_SessionID f, version) = None
       ∧ db_sessions d' = <[fn_SessionID f := set_tip (version + Z.of_nat (length events)) t2 row]> (db_sessions d)
       ∧ db_chunks d' = <[(fn_SessionID f, version) := lines]> (db_chunks d)
       ∧ same_runs d d' ∧ db_leases d' = db_leases d)
  end.
Proof.
  unfold appendEventsFenced. destruct (validateFencedAppend f version events) as [[]|] eqn:Hval; [|done]. destruct events as [|e events]; [by left|].
  remember (e :: events) as evs eqn:Hevs. destruct (fenced_options s f version t0 t1 d) as [options|] eqn:Hopt; [|done].
  destruct (write_fenced _ _ _ _ _ _ _ d) as [[[]|] d'] eqn:Hw; [|by eapply write_fenced_rollback]. right.
  apply fenced_options_ok in Hopt as (row & Hrow & Hm & Ho & Hdec & Hh). apply write_fenced_ok in Hw as (d1 & d2 & row' & Hc & He & Hrow' & _ & Ho2 & ->).
  rewrite Hrow in Hrow'. injection Hrow' as <-. pose proof Hc as (([Hr1 Hq1] & Hl1 & _) & Hs1)%insertChunk_same.
  pose proof He as (([Hr2 Hq2] & Hl2 & _) & Hs2 & Hc2)%insertRunEvidence_same. split_and!; [done..| |].
  - unfold validateFencedAppend in Hval. apply rbind_ok in Hval as ([] & _ & Hval). apply fail_if_ok in Hval as [_ Hval].
    apply rbind_ok in Hval as ([] & _ & Hval). by apply check_runs.
  - unfold insertChunk in Hc. apply rbind_ok in Hc as (lines & Henc & Hc). apply fail_if_ok in Hc as [_ Hc]. destruct (db_chunks d !! _) eqn:Hno; [done|].
    injection Hc as <-. exists row, options, lines. unfold session_matches in Hm. bool_to_prop. unfold same_runs. cbn in *.
    rewrite Hs2, Hc2, Hr2, Hq2, Hl2. done.
Qed.

(** ** The two dialects *)

(** The header of every session names the owner of its catalog row. *)
Definition headers_match (d : Db) : Prop :=
  ∀ id row, db_sessions d !! id = Some row →
    ∃ o, dec_options (sn_header row) = Some o ∧ TenantID (o_Principal o) = sn_tenant row ∧ SubjectID (o_Principal o) = sn_user row.

(** What PostgreSQL answers when the rows do not match. *)
Lemma lock_postgres_err f now d e :
  lockPostgresSessionWriteFence f now d = Err e → is_fence_lost e = true ∨ (e = ErrSessionNotFound ∧ db_sessions d !! fn_SessionID f = None).
Proof.
  unfold lockPostgresSessionWriteFence. intros H. repeat (destruct_match_in H; try (injection H as <-; by left)); try done. injection H as <-. by right.
Qed.

Lemma fence_lost_not_conflict e : is_fence_lost e = true → e ≠ ErrSessionConflict.
Proof. intros H ->. discriminate H. Qed.

(** SQLite refuses a fence that PostgreSQL refuses for its rows. *)
Lemma sqlite_refuses f version now d e e' :
  headers_match d → acquireSQLiteSessionWriteFence f version now now d = Err e → lockPostgresSessionWriteFence f now d = Err e' →
  e ≠ ErrSessionConflict ∧ (is_Some (db_sessions d !! fn_SessionID f) → is_fence_lost e = true).
Proof.
  intros Hh ES HL. unfold acquireSQLiteSessionWriteFence, classifySessionFenceFailure in ES. destruct (db_sessions d !! fn_SessionID f) as [row|] eqn:Hrow.
  2:{ injection ES as <-. split; [done|]. by intros [? ?]. }
  destruct (negb (bool_decide (sn_tenant row = fn_TenantID f) && bool_decide (sn_user row = fn_SubjectID f))) eqn:Hid.
  { destruct (_ && _) in ES; [done|]. injection ES as <-. done. }
  bool_to_prop. destruct (Hh _ _ Hrow) as (o & Hdec & Ht & Hu). rewrite Hdec in ES. unfold owns_header in ES.
  rewrite !bool_decide_eq_true_2 in ES by congruence. cbn [andb negb] in ES. destruct (owns f now d) eqn:Ho.
  - exfalso. assert (lockPostgresSessionWriteFence f now d = Ok (sn_header row, sn_version row)) as Hok; [|congruence].
    apply lock_postgres_ok. exists row. unfold session_matches. rewrite Z.eqb_refl, !bool_decide_eq_true_2 by done. done.
  - rewrite andb_false_r in ES. injection ES as <-. done.
Qed.

(** SQLite and PostgreSQL agree on fences.  Where the session headers name
    the owners of their rows, the conditional update of SQLite and the locked
    comparison of PostgreSQL accept the same fence at the same version with the
    same header; when they refuse, one reports a version conflict exactly when
    the other does, and for an existing session any other refusal is a lost
    fence in both. *)
Theorem fence_dialects_agree f version now d :
  headers_match d →
  match acquireSQLiteSessionWriteFence f version now now d, acquirePostgresSessionWriteFence f version now d with
  | Ok h, Ok h' => h = h'
  | Err e, Err e' =>
    (e = ErrSessionConflict ↔ e' = ErrSessionConflict)
    ∧ (is_Some (db_sessions d !! fn_SessionID f) → e ≠ ErrSessionConflict → is_fence_lost e = true ∧ is_fence_lost e' = true)
  | _, _ => False
  end.
Proof.
  intros Hh. pose proof (acquire_ok (mk_sql_sessions SQLDialectSQLite 0 0 0) f version now now d) as HS.
  pose proof (acquire_ok (mk_sql_sessions SQLDialectPostgres 0 0 0) f version now now d) as HP. cbn in HS, HP.
  destruct (acquireSQLiteSessionWriteFence f version now now d) as [h|e] eqn:ES, (acquirePostgresSessionWriteFence f version now d) as [h'|e'] eqn:EP.
  - pose proof (proj1 (HS h) eq_refl) as (row & Hrow & _ & _ & ->). pose proof (proj1 (HP h') eq_refl) as (row' & Hrow' & _ & _ & ->). congruence.
  - pose proof (proj2 (HP h) (proj1 (HS h) eq_refl)). done.
  - pose proof (proj2 (HS h') (proj1 (HP h') eq_refl)). done.
  - clear HS HP. unfold acquirePostgresSessionWriteFence in EP.
    destruct (lockPostgresSessionWriteFence f now d) as [[h v]|e0] eqn:HL; cbn [rbind] in EP.
    + apply lock_postgres_ok in HL as (row & Hrow & Hm & Ho & ->). unfold fail_if in EP. destruct (negb (v =? version)) eqn:Hv; [|done]. injection EP as <-.
      unfold acquireSQLiteSessionWriteFence in ES. unfold session_matches in *. bool_to_prop. rewrite Hrow in ES. subst v.
      rewrite (proj2 (Z.eqb_neq _ _)) in ES by done. cbn [andb] in ES. injection ES as <-. unfold classifySessionFenceFailure. rewrite Hrow.
      rewrite !bool_decide_eq_true_2 by done. cbn [andb negb]. destruct (Hh _ _ Hrow) as (o & -> & Ht & Hu). unfold owns_header.
      rewrite !bool_decide_eq_true_2 by congruence. cbn [andb negb]. rewrite Ho. cbn [negb]. rewrite (proj2 (Z.eqb_neq _ _)) by done. cbn [negb]. done.
    + injection EP as <-. pose proof (lock_postgres_err _ _ _ _ HL) as Hlost.
      destruct (sqlite_refuses _ _ _ _ _ _ Hh ES HL) as [Hne Hle].
      split; [split; [done|]|].
      * intros ->. destruct Hlost as [Hl|[Hl _]]; [by apply fence_lost_not_conflict in Hl|done].
      * intros Hsome _. split; [by apply Hle|]. destruct Hlost as [Hl|[_ Hno]]; [done|]. rewrite Hno in Hsome. by destruct Hsome.
Qed.

(** ** Leases *)

Definition lease_live (now : Z) (session : string) (d : Db) : bool :=
  match db_leases d !! session with Some l => now <? ls_expires l | None => false end.

Lemma EnqueueRunOnce_leases s seen run key digest now d : db_leases (EnqueueRunOnce s seen run key digest now d).2 = db_leases d.
Proof.
  unfold EnqueueRunOnce. destruct (validateQueuedRun run); [|done]. destruct (validateRunSubmission _ _); [|done]. cbv zeta.
  destruct (submissionCapReached _ _); [done|]. destruct (insert_submission _ _ d) as [b d1] eqn:Hi.
  assert (db_leases d1 = db_leases d) as Hd1 by (unfold insert_submission in Hi; repeat (destruct_match_in Hi; simplify_eq); done).
  destruct b; [|done]. cbn [negb]. destruct (ensureInFlightCapacity _ _); [|done]. destruct (insert_queued _ _ d1) as [d'|] eqn:H; [|done].
  apply insert_queued_rest in H as (_ & _ & _ & H & _). cbn. congruence.
Qed.

(** An operation at a time when the lease is live keeps its holder. *)
Lemma op_keeps_lease s now op d session l :
  db_leases d !! session = Some l → UnixMilli now < ls_expires l → op ≠ OpReleaseLease session (ls_holder l) →
  ∃ l', db_leases (apply_op s now op d) !! session = Some l' ∧ ls_holder l' = ls_holder l.
Proof.
  intros Hl Hlive Hop. destruct (on_runs op) eqn:Hon.
  { destruct (op_rest s now op d Hon) as (_ & _ & _ & H & _). rewrite H. by exists l. }
  destruct op; try discriminate Hon; cbn [apply_op].
  - exists l. split; [|done]. rewrite EnqueueRunOnce_leases. done.
  - exists l. split; [|done]. by rewrite (proj1 (proj2 (proj2 (RequestRunCancel_rest _ _ _)))).
  - by exists l.
  - exists l. split; [|done]. cbn. destruct (insert_approval id row d) as [d'|] eqn:H; [|done]. unfold insert_approval in H.
    repeat (destruct_match_in H; try done). by simplify_eq.
  - exists l. split; [|done]. cbn. by rewrite (proj1 (proj2 (proj2 (decideAndResume_rest _ _ _ _ _)))).
  - exists l. split; [|done]. cbn. unfold decide_approval. repeat destruct_match_goal; simplify_eq; done.
  - by exists l.
  - cbn. destruct (decide (session0 = session)) as [->|Hne].
    + rewrite Hl. rewrite (proj2 (Z.leb_gt _ _)) by done. by exists l.
    + exists l. split; [|done]. repeat destruct_match_goal; cbn; rewrite ?lookup_insert_ne by done; done.
  - cbn. destruct (decide (session0 = session)) as [->|Hne]; [rewrite Hl; by exists l|].
    exists l. split; [|done]. destruct (db_leases d !! session0); cbn; rewrite ?lookup_insert_ne by done; done.
  - unfold RenewSessionLease. destruct (validate_lease _ _ _); [|by exists l]. destruct (decide (session0 = session)) as [->|Hne].
    + rewrite Hl. destruct (_ && _); [|by exists l]. cbn. rewrite lookup_insert_eq. eexists. split; done.
    + exists l. split; [|done]. destruct (db_leases d !! session0); [|done]. destruct (_ && _); [|done]. cbn. by rewrite lookup_insert_ne.
  - unfold ReleaseSessionLease. destruct (ValidateSessionID _); [|by exists l]. destruct (validateLeaseHolder _); [|by exists l].
    destruct (decide (session0 = session)) as [->|Hne].
    + rewrite Hl. rewrite bool_decide_eq_false_2 by congruence. by exists l.
    + exists l. split; [|done]. destruct (db_leases d !! session0); [|done]. case_bool_decide; cbn; [by rewrite lookup_delete_ne|done].
  - exists l. split; [|done]. cbn. apply map_lookup_filter_Some. split; [done|]. cbn. by rewrite (proj2 (Z.ltb_ge _ _)) by lia.
  - exists l. split; [|done]. by rewrite (proj1 (proj2 (sql_Create_same _ _ _ _))).
  - exists l. split; [|done]. by rewrite (proj1 (proj2 (AppendEvents_same _ _ _ _ _ _))).
  - exists l. split; [|done]. by rewrite (proj1 (proj2 (appendEventsFenced_same _ _ _ _ _ _ _ _))).
  - exists l. split; [|done]. by rewrite (proj1 (proj2 (repairFenced_same _ _ _ _ _ _ _ _ _))).
Qed.

(** Session leases exclude.  Acquiring a lease succeeds exactly when no lease
    of the session is live at that time, and the lease is then the caller's for
    the given time; when one is live nothing changes.  While a lease is live no
    operation of the control plane passes it to another holder or removes it,
    except its holder's own release. *)
Theorem session_leases_exclude session holder ttl now d :
  validate_lease session holder ttl = Ok tt →
  (drive (@lease_exec) (AcquireSessionLease session holder ttl now) d).1
    = (if lease_live (UnixMilli now) session d then (Ok false, d)
       else (Ok true, set_leases (<[session := mk_lease holder (UnixMilli (now + ttl))]> (db_leases d)) d))
  ∧ ∀ s now' op l, db_leases d !! session = Some l → UnixMilli now' < ls_expires l → op ≠ OpReleaseLease session (ls_holder l) →
      ∃ l', db_leases (apply_op s now' op d) !! session = Some l' ∧ ls_holder l' = ls_holder l.
Proof.
  intros Hv. split; [|intros s now' op l; apply op_keeps_lease]. unfold AcquireSessionLease, lease_live. rewrite Hv. cbn.
  destruct (db_leases d !! session) as [l|] eqn:Hl; cbn; [|by rewrite Hl].
  destruct (ls_expires l <=? UnixMilli now) eqn:E; bool_to_prop; cbn.
  - by rewrite (proj2 (Z.ltb_ge _ _)) by done.
  - rewrite Hl. cbn. by rewrite (proj2 (Z.ltb_lt _ _)) by done.
Qed.

(** ** The claims at work *)

Lemma ex_stored : stored ex_sql_created "s1" ex_options [].
Proof. eexists. split; [vm_compute; reflexivity|]. split; [reflexivity|]. split; vm_compute; reflexivity. Qed.
Lemma ex_events_stable : forallb event_stable ex_events = true.
Proof. vm_compute. reflexivity. Qed.

Lemma appended_events_are_loaded_witness : sql_Load "s1" ex_sql_appended ex_sql_appended = RestoreSession ex_options ex_events.
Proof.
  refine (proj1 (appended_events_are_loaded (ses ex_stores) "s1" 0 ex_events ex_t ex_sql_created ex_sql_appended ex_options [] ex_stored _ ex_events_stable _ ex_appended_ok)).
  - discriminate.
  - vm_compute. discriminate.
Defined.

(** A fence that is refused: no lease of the session is held. *)
Definition ex_row : sessionRow := mk_session_row 3 "acme" "ann" "default" 3 (options_to_json ex_options) 0.
Definition ex_fence : SessionWriteFence := mk_fence "s1" "run-1" "acme" "ann" "w1" 1 "node-a".
Definition ex_fenced : Db := set_sessions {["s1" := ex_row]} ex_claimed.
Lemma ex_fenced_headers : headers_match ex_fenced.
Proof.
  intros id row H. change (({["s1" := ex_row]} : gmap string sessionRow) !! id = Some row) in H. apply lookup_singleton_Some in H as [<- <-].
  eexists. split; [vm_compute; reflexivity|]. split; reflexivity.
Qed.

Lemma fence_dialects_agree_witness :
  match acquireSQLiteSessionWriteFence ex_fence 3 0 0 ex_fenced, acquirePostgresSessionWriteFence ex_fence 3 0 ex_fenced with
  | Err e, Err e' => e = ErrSessionConflict ↔ e' = ErrSessionConflict
  | Ok h, Ok h' => h = h'
  | _, _ => False
  end.
Proof.
  pose proof (fence_dialects_agree ex_fence 3 0 ex_fenced ex_fenced_headers) as H.
  destruct (acquireSQLiteSessionWriteFence ex_fence 3 0 0 ex_fenced), (acquirePostgresSessionWriteFence ex_fence 3 0 ex_fenced); [exact H|exact H|exact H|exact (proj1 H)].
Defined.

Lemma session_leases_exclude_witness :
  (drive (@lease_exec) (AcquireSessionLease "s1" "node-a" minute ex_t) empty_db).1
    = (Ok true, set_leases (<["s1" := mk_lease "node-a" (UnixMilli (ex_t + minute))]> ∅) empty_db).
Proof. exact (proj1 (session_leases_exclude "s1" "node-a" minute ex_t empty_db eq_refl)). Defined.
