(* ===== verification/ApprovalClaims.v ===== *)
(** * What durable approvals promise

    A pending approval is decided once, by a person or by its expiry, and the
    decision resumes its run in the same transaction.  Also two behaviours that
    hold up a session: a cancellation that arrives before the run is suspended,
    and an approval whose run has already ended. *)
From S2P Require Import Prelude Prog GoString Json Sha256 Payload Events Message Session SessionStore Capability Journal Guard ControlDb RunControl ControlJson ApprovalStore SqlSession SessionFence RunSystem RunTable ControlExamples.
From stdpp Require Import gmap strings list sorting relations.
From Stdlib Require Import ZArith Lia.
Open Scope Z_scope.

(** ** Decisions *)

Lemma scan_found_ok id a record :
  scan_found (Some (id, a)) = Ok record → ar_ID record = id ∧ ar_row record = a ∧ ar_Status record = ap_status a ∧ ar_DecidedBy record = ap_by a.
Proof. cbn. unfold scanApproval. intros H. apply fail_if_ok in H as [_ H]. destruct (dec_request _); [|done]. by injection H as <-. Qed.

(** The target does not depend on the approvals. *)
Lemma resume_target_approvals a x d : delegatedApprovalResumeTarget a (set_approvals x d) = delegatedApprovalResumeTarget a d.
Proof. done. Qed.

Lemma decideAndResume_ok id decision actor now d record d' :
  decideAndResume id decision actor now d = (Ok (record, true), d') →
  ∃ a session run r q, db_approvals d !! id = Some a ∧ is_pending a = true ∧ is_ok (scanApproval id a) = true
    ∧ delegatedApprovalResumeTarget a d = Ok (session, run)
    ∧ db_runs d !! run = Some r ∧ run_of session (ap_tenant a) (ap_subject a) r = true ∧ is_waiting r = true ∧ rr_cancel r = false ∧ db_queue d !! run = Some q
    ∧ ar_Status record = decision ∧ ar_DecidedBy record = actor ∧ ar_DecidedAt record = now
    ∧ db_approvals d' = <[id := decide_row decision (UnixMilli now) actor a]> (db_approvals d)
    ∧ db_runs d' = <[run := set_status RunStatusQueued "" (UnixMilli now) r]> (db_runs d)
    ∧ db_queue d' = <[run := unclaimed (UnixMilli now) (qr_attempt q) q]> (db_queue d).
Proof.
  unfold decideAndResume. destruct (db_approvals d !! id) as [a|] eqn:Ha; [|done]. destruct (scan_found (Some (id, a))) as [rec|] eqn:Hs; [|done].
  assert (is_ok (scanApproval id a) = true) as Hok by (cbn in Hs; by rewrite Hs). apply scan_found_ok in Hs as (_ & -> & -> & _).
  destruct (negb (bool_decide _)) eqn:Hp; [done|]. bool_to_prop. cbv zeta. unfold decide_approval. rewrite Ha.
  assert (is_pending a = true) as Hpend by (unfold is_pending; by apply bool_decide_eq_true). rewrite Hpend. cbn [negb]. rewrite resume_target_approvals.
  destruct (delegatedApprovalResumeTarget a d) as [[session run]|] eqn:Ht; [|done]. destruct (update_run _ _ _ _) as [[u d2]|] eqn:Hu; [|done].
  apply update_run_ok in Hu as [[-> ->]|[-> (r & Hr & Hg & [_ ->]%write_run_ok)]]; [done|]. cbn [negb]. destruct (update_queue _ _ _ _) as [w d3] eqn:Hq.
  apply update_queue_cases in Hq as [[-> ->]|[-> (q & Hq & _ & ->)]]; [done|]. cbn [negb]. intros [=<- <-]. bool_to_prop. exists a, session, run, r, q. done.
Qed.

Lemma decideAndResume_rollback id decision actor now d e d' : decideAndResume id decision actor now d = (Err e, d') → d' = d.
Proof. unfold decideAndResume. repeat destruct_match_goal; naive_solver. Qed.

Definition prunes_approvals (op : control_op) : bool := match op with OpPruneApprovals _ => true | _ => false end.
(** A step that does not prune approvals. *)
Definition audited_step (s : Stores) (d d' : Db) : Prop := ∃ now op, prunes_approvals op = false ∧ d' = apply_op s now op d.

(** A decided approval is not rewritten. *)
Lemma decide_keeps id0 decision actor now d id a :
  db_approvals d !! id = Some a → is_pending a = false → db_approvals (decide_approval id0 decision actor now d).2 !! id = Some a.
Proof.
  intros Ha Hp. unfold decide_approval. destruct (db_approvals d !! id0) as [b|] eqn:Hb; [|done]. destruct (is_pending b) eqn:E; [|done]. cbn.
  rewrite lookup_insert_ne; [done|]. intros ->. congruence.
Qed.

Lemma decideAndResume_keeps id0 decision actor now d id a :
  db_approvals d !! id = Some a → is_pending a = false → db_approvals (decideAndResume id0 decision actor now d).2 !! id = Some a.
Proof.
  intros Ha Hp. destruct (decideAndResume id0 decision actor now d) as [[[record []]|e] d'] eqn:H; cbn [snd].
  - apply decideAndResume_ok in H as (b & session & run & r & q & Hb & Hpb & _ & _ & _ & _ & _ & _ & _ & _ & _ & _ & -> & _).
    rewrite lookup_insert_ne; [done|]. intros ->. congruence.
  - unfold decideAndResume in H. repeat (destruct_match_in H; try done); by simplify_eq.
  - by rewrite (decideAndResume_rollback _ _ _ _ _ _ _ H).
Qed.

Lemma EnqueueRunOnce_approvals s seen run key digest now d : db_approvals (EnqueueRunOnce s seen run key digest now d).2 = db_approvals d.
Proof.
  unfold EnqueueRunOnce. destruct (validateQueuedRun run); [|done]. destruct (validateRunSubmission _ _); [|done]. cbv zeta.
  destruct (submissionCapReached _ _); [done|]. destruct (insert_submission _ _ d) as [b d1] eqn:Hi.
  assert (db_approvals d1 = db_approvals d) as Hd1 by (unfold insert_submission in Hi; repeat (destruct_match_in Hi; simplify_eq); done).
  destruct b; [|done]. cbn [negb]. destruct (ensureInFlightCapacity _ _); [|done]. destruct (insert_queued _ _ d1) as [d'|] eqn:H; [|done].
  apply insert_queued_rest in H as (_ & H & _). cbn. congruence.
Qed.

Lemma cancel_keeps run now d id a : db_approvals d !! id = Some a → is_pending a = false → db_approvals (RequestRunCancel run now d).2 !! id = Some a.
Proof.
  intros Ha Hp. unfold RequestRunCancel. destruct (ValidateRunID run); [|done]. cbv zeta. destruct (update_run _ is_running _ d) as [[b d1]|] eqn:Hu; [|done].
  apply update_run_rest in Hu as (_ & H1 & _). destruct b; cbn [snd]; [by rewrite H1|]. destruct (update_run _ _ _ d1) as [[c d2]|] eqn:Hc; [|done].
  apply update_run_rest in Hc as (_ & H2 & _). destruct c; cbn; [|by rewrite H2, H1]. rewrite lookup_fmap, H2, H1, Ha. cbn. unfold is_pending in Hp.
  by rewrite Hp, andb_false_r.
Qed.

Lemma audited_step_keeps s d d' id a : audited_step s d d' → db_approvals d !! id = Some a → is_pending a = false → db_approvals d' !! id = Some a.
Proof.
  intros (now & op & Hop & ->) Ha Hp. destruct (on_runs op) eqn:Hon.
  { destruct (op_rest s now op d Hon) as (_ & H & _). by rewrite H. }
  destruct (on_sessions op) eqn:Hos.
  { destruct (op_control s now op d Hos) as (_ & _ & _ & H & _). by rewrite H. }
  destruct op; try discriminate Hon; try discriminate Hop; try discriminate Hos; cbn [apply_op]; try done.
  - by rewrite EnqueueRunOnce_approvals.
  - by apply cancel_keeps.
  - cbn. destruct (insert_approval id0 row d) as [d'|] eqn:H; [|done]. unfold insert_approval in H. destruct (db_approvals d !! id0) eqn:Hno; [done|].
    destruct (by_call _ _ _ d); [done|]. injection H as <-. cbn. rewrite lookup_insert_ne; [done|]. congruence.
  - by apply decideAndResume_keeps.
  - cbn. pose proof (decide_keeps id0 decision actor (UnixMilli now) d id a Ha Hp) as H. destruct (decide_approval _ _ _ _ d). exact H.
  - cbn. repeat destruct_match_goal; done.
  - cbn. repeat destruct_match_goal; done.
  - unfold RenewSessionLease. repeat destruct_match_goal; done.
  - unfold ReleaseSessionLease. repeat destruct_match_goal; done.
Qed.

Lemma audited_star_keeps s d d' id a : rtc (audited_step s) d d' → db_approvals d !! id = Some a → is_pending a = false → db_approvals d' !! id = Some a.
Proof. induction 1 as [|x y z Hstep _ IH]; [done|]. intros Ha Hp. apply IH; [|done]. by eapply audited_step_keeps. Qed.

(** Deciding an approval that is already decided. *)
Lemma decide_again id decision actor now d a record :
  db_approvals d !! id = Some a → is_pending a = false → scanApproval id a = Ok record → decideAndResume id decision actor now d = (Ok (record, false), d).
Proof.
  intros Ha Hp Hs. unfold decideAndResume. rewrite Ha. cbn. rewrite Hs. pose proof (scan_found_ok id a record Hs) as (_ & _ & Hst & _). rewrite Hst.
  unfold is_pending in Hp. by rewrite Hp.
Qed.

Lemma scan_decided id decision now actor a :
  is_ok (scanApproval id a) = true → decision ∈ [ApprovalApproved; ApprovalDenied; ApprovalExpired] →
  ∃ record, scanApproval id (decide_row decision now actor a) = Ok record ∧ ar_Status record = decision ∧ ar_DecidedBy record = actor.
Proof.
  unfold scanApproval, validApprovalStatus. cbn. intros H Hd. rewrite bool_decide_eq_true_2 by set_solver. unfold fail_if in *. cbn.
  destruct (negb _) in H; [done|]. destruct (dec_request _); [|done]. eexists. split; done.
Qed.

(** C22.  An approval is decided once and resumes its run.  When a decision is
    accepted the approval was pending and the run it resumes (the run itself or
    the parent that delegated it) was waiting, of the same owner and not
    cancelled; the approval now carries the decision and its author, and the run
    is queued, its task unclaimed and available at once, in one transaction.
    Whatever happens later short of pruning the approval, a second decision
    changes nothing and answers the first one.  A refused decision changes
    nothing. *)
Theorem approvals_are_decided_once s id decision actor now d :
  match DecideApproval id decision actor now d with
  | (Err _, d') => d' = d
  | (Ok (record, false), d') => d' = d ∧ (∃ a, db_approvals d !! id = Some a ∧ is_pending a = false)
  | (Ok (record, true), d') =>
    (∃ a session run r q, db_approvals d !! id = Some a ∧ is_pending a = true ∧ delegatedApprovalResumeTarget a d = Ok (session, run)
      ∧ db_runs d !! run = Some r ∧ run_of session (ap_tenant a) (ap_subject a) r = true ∧ is_waiting r = true ∧ rr_cancel r = false ∧ db_queue d !! run = Some q
      ∧ db_approvals d' = <[id := decide_row decision (UnixMilli now) actor a]> (db_approvals d)
      ∧ db_runs d' = <[run := set_status RunStatusQueued "" (UnixMilli now) r]> (db_runs d)
      ∧ db_queue d' = <[run := unclaimed (UnixMilli now) (qr_attempt q) q]> (db_queue d))
    ∧ ∀ d2 decision' actor' now', rtc (audited_step s) d' d2 → ∃ record', decideAndResume id decision' actor' now' d2 = (Ok (record', false), d2)
        ∧ ar_Status record' = decision ∧ ar_DecidedBy record' = actor
  end.
Proof.
  unfold DecideApproval. destruct (ValidateApprovalID id); [|done]. destruct (fail_if _ _ _) eqn:Hd; [|done]. destruct (validateApprovalActor actor); [|done].
  destruct (decideAndResume id decision actor now d) as [[[record []]|e] d'] eqn:H; [| |by eapply decideAndResume_rollback].
  - apply decideAndResume_ok in H as (b & session & run & r & q & Hb & Hpb & Hok & Ht & Hr & Hof & Hw & Hc & Hq & _ & _ & _ & Hda & Hdr & Hdq).
    split; [exists b, session, run, r, q; done|]. intros d2 decision' actor' now' Hstar.
    assert (decision ∈ [ApprovalApproved; ApprovalDenied]) as Hdec.
    { apply fail_if_ok in Hd as [Hd _]. apply andb_false_iff in Hd as [Hd|Hd]; bool_to_prop; set_solver. }
    destruct (scan_decided id decision (UnixMilli now) actor b Hok) as (record' & Hs & Hst & Hby); [set_solver|].
    exists record'. split; [|done]. eapply decide_again; [|..|exact Hs].
    + eapply audited_star_keeps; [exact Hstar|rewrite Hda; by rewrite lookup_insert_eq|]. unfold is_pending. cbn. apply bool_decide_eq_false.
      apply elem_of_cons in Hdec as [-> | ->%list_elem_of_singleton]; done.
    + unfold is_pending. cbn. apply bool_decide_eq_false. apply elem_of_cons in Hdec as [-> | ->%list_elem_of_singleton]; done.
  - unfold decideAndResume in H. destruct (db_approvals d !! id) as [b|] eqn:Hb; [|done]. destruct (scan_found (Some (id, b))) as [rec|] eqn:Hs; [|done].
    apply scan_found_ok in Hs as (_ & _ & Hst & _).
    destruct (negb (bool_decide (ar_Status rec = ApprovalPending))) eqn:Hp.
    + cbv iota in H. injection H as _ <-. split; [done|]. exists b. split; [done|]. unfold is_pending. rewrite <-Hst. by apply negb_true_iff.
    + exfalso. bool_to_prop. cbv zeta in H. unfold decide_approval in H. rewrite Hb in H. unfold is_pending in H. rewrite <-Hst, Hp in H.
      repeat (destruct_match_in H; try done).
Qed.

(** ** Cancellation before suspension *)

Lemma life_stuck_waiting t p : rtc life (LWaiting t true) p → p = LWaiting t true ∨ p = LDone RunCancelled.
Proof.
  remember (LWaiting t true) as p0 eqn:E. intros H. revert E. induction H as [|x y z Hxy Hyz IH]; intros ->; [by left|].
  inversion Hxy; subst. right. by apply life_done.
Qed.
Lemma life_stuck_queued t p : rtc life (LQueued t true) p → p = LQueued t true ∨ p = LDone RunCancelled.
Proof.
  remember (LQueued t true) as p0 eqn:E. intros H. revert E. induction H as [|x y z Hxy Hyz IH]; intros ->; [by left|].
  inversion Hxy; subst. right. by apply life_done.
Qed.

(** A transaction other than a request to cancel the run. *)
Definition cancels (id : string) (op : control_op) : bool := match op with OpCancel j => bool_decide (j = id) | _ => false end.
Definition uncancelled_step (id : string) (s : Stores) (d d' : Db) : Prop := ∃ now op, cancels id op = false ∧ d' = apply_op s now op d.

Definition keeps_tasks (d d' : Db) : Prop := ∀ id, is_Some (db_queue d !! id) → is_Some (db_queue d' !! id).

Lemma same_tasks d d' : same_runs d d' → keeps_tasks d d'.
Proof. intros [_ H] id. by rewrite H. Qed.
#[export] Instance keeps_tasks_refl : Reflexive keeps_tasks.
Proof. by intros d id. Qed.
Lemma update_run_tasks id guard f d b d' : update_run id guard f d = Ok (b, d') → db_queue d' = db_queue d.
Proof. intros [[_ ->]|[_ (r & _ & _ & [_ ->]%write_run_ok)]]%update_run_ok; done. Qed.
Lemma update_queue_tasks id guard f d b d' : update_queue id guard f d = (b, d') → keeps_tasks d d'.
Proof.
  intros [[_ ->]|[_ (q & _ & _ & ->)]]%update_queue_cases j Hj; [done|]. cbn.
  destruct (decide (j = id)) as [->|]; [rewrite lookup_insert_eq; by eexists|by rewrite lookup_insert_ne].
Qed.
Lemma insert_queued_tasks run now d d' : insert_queued run now d = Ok d' → keeps_tasks d d'.
Proof.
  unfold insert_queued. cbv zeta. intros (d1 & Hi & H)%rbind_ok j Hj. unfold insert_run in Hi. destruct (db_runs d !! _) in Hi; [done|].
  apply write_run_ok in Hi as [_ ->]. unfold insert_queue in H. cbn in H. destruct (db_queue d !! _) eqn:Hno in H; [done|]. injection H as <-. cbn.
  destruct (decide (j = rn_RunID (qd_run run))) as [->|]; [rewrite lookup_insert_eq; by eexists|by rewrite lookup_insert_ne].
Qed.
Lemma release_claim_tasks id worker generation now f g d : keeps_tasks d (release_claim id worker generation now f g d).2.
Proof.
  destruct (release_claim _ _ _ _ _ _ _) as [[b|e] d'] eqn:H; cbn; [|by rewrite (release_claim_rollback _ _ _ _ _ _ _ _ _ H)].
  apply release_claim_cases in H as [[_ ->]|[_ (r & q & _ & _ & _ & _ & _ & ->)]]; [done|]. intros j Hj. cbn.
  destruct (decide (j = id)) as [->|]; [rewrite lookup_insert_eq; by eexists|by rewrite lookup_insert_ne].
Qed.

(** A task that is removed with its run had a running run. *)
Lemma finish_tasks id guard f d b d' j r :
  (∀ r, guard r = true → is_running r = true) → update_run id guard f d = Ok (b, d') → db_runs d !! j = Some r → is_running r = false →
  b = true → j ≠ id.
Proof. intros Hg [[-> _]|[_ (r' & Hr' & Hgr & _)]]%update_run_ok Hr Hrun Hb ->; [done|]. apply Hg in Hgr. congruence. Qed.

Lemma recover_rows_tasks now claims d j r :
  NoDup claims.*1.*1 → selected claims d → db_runs d !! j = Some r → is_running r = false → is_Some (db_queue d !! j) →
  is_Some (db_queue (recover_rows now claims d) !! j).
Proof.
  intros Hnd Hsel Hr Hrun Hq. revert d Hsel Hr Hq. induction claims as [|[[id x] q] claims IH]; intros d Hsel Hr Hq; [done|].
  assert (j ≠ id) as Hne. { intros ->. destruct (Hsel id x q) as (Hx & Hrx & _); [left|]. congruence. }
  pose proof (selected_tail _ _ _ _ now _ Hnd Hsel) as Htail. apply NoDup_cons in Hnd as [_ Hnd]. cbn. apply IH; [done..| |].
  all: destruct (put_rows_elsewhere id (recovered now x q) d j Hne) as [E1 E2]; rewrite ?E1, ?E2; done.
Qed.

(** No other transaction removes the task of a run that is not running. *)
Lemma op_keeps_task s now op d id r :
  db_runs d !! id = Some r → is_running r = false → cancels id op = false → is_Some (db_queue d !! id) → is_Some (db_queue (apply_op s now op d) !! id).
Proof.
  intros Hr Hrun Hop Hq.
  assert (∀ d', keeps_tasks d d' → is_Some (db_queue d' !! id)) as Hkeep by (intros d' H; by apply H).
  assert (∀ d', same_control d d' → is_Some (db_queue d' !! id)) as Hsame by (intros d' [H _]; by apply Hkeep, same_tasks).
  destruct op; cbn [apply_op cancels] in *;
    try (by apply Hsame; eauto using sql_Create_same, AppendEvents_same, appendEventsFenced_same, repairFenced_same); try (by apply Hkeep, same_tasks).
  - unfold CreateRun. destruct (validateRunRecord record); [|done]. cbv zeta. destruct (ensureInFlightCapacity _ _); [|done].
    destruct (insert_run _ _ d) as [d'|] eqn:H; [|done]. unfold insert_run in H. destruct (db_runs d !! _) in H; [done|]. by apply write_run_ok in H as [_ ->].
  - unfold EnqueueRun. destruct (validateQueuedRun run); [|done]. cbv zeta. destruct (ensureInFlightCapacity _ _); [|done].
    destruct (insert_queued _ _ d) as [d'|] eqn:H; [|done]. by apply Hkeep, (insert_queued_tasks _ _ _ _ H).
  - unfold EnqueueRunOnce. destruct (validateQueuedRun run); [|done]. destruct (validateRunSubmission _ _); [|done]. cbv zeta.
    destruct (submissionCapReached _ _); [done|].
    match goal with |- context [insert_submission ?k ?row d] => pose proof (insert_submission_same k row d) as [_ Hs]; destruct (insert_submission k row d) as [b d1] end.
    destruct b; [|done]. cbn [negb]. destruct (ensureInFlightCapacity _ _); [|done]. destruct (insert_queued _ _ d1) as [d'|] eqn:H; [|done].
    apply (insert_queued_tasks _ _ _ _ H). cbn in Hs. by rewrite Hs.
  - destruct (claim_guard worker ttl); [|done]. unfold claim_once. destruct (first_candidate _ _) as [[[j x] q]|]; [|done].
    destruct (update_run _ _ _ d) as [[[] d1]|] eqn:Hu; [|done..]. cbv zeta. apply update_run_tasks in Hu.
    destruct (update_queue _ _ _ d1) as [b d2] eqn:H. apply (update_queue_tasks _ _ _ _ _ _ H). by rewrite Hu.
  - unfold RenewRunClaim. destruct (validateClaimMutation _ _ _); [|done]. destruct (fail_if _ _ _); [|done]. destruct (_ && _) in |- *; [done|].
    destruct (update_queue _ _ _ d) as [b d1] eqn:H. destruct (negb b); [done|]. destruct (update_run _ _ _ d1) as [[b' d2]|] eqn:Hu; [|done].
    cbn. apply update_run_tasks in Hu. rewrite Hu. by apply (update_queue_tasks _ _ _ _ _ _ H).
  - unfold RetryRunClaim. destruct (validateClaimMutation _ _ _); [|done]. destruct (fail_if _ _ _); [|done]. by apply Hkeep, release_claim_tasks.
  - unfold PauseRunClaim. destruct (validateClaimMutation _ _ _); [|done]. by apply Hkeep, release_claim_tasks.
  - unfold PauseRun. destruct (ValidateRunID _); [|done]. destruct (fail_if _ _ _); [|done]. cbv zeta. destruct (fail_if _ _ _); [|done].
    destruct (validateTraceContext trace); [|done]. destruct (update_run _ _ _ d) as [[[] d1]|] eqn:Hu; [|done..]. cbn [negb]. apply update_run_tasks in Hu.
    destruct (insert_queue _ _ d1) as [d2|] eqn:H; [|done]. unfold insert_queue in H. destruct (db_queue d1 !! _) eqn:Hno in H; [done|]. injection H as <-. cbn.
    rewrite lookup_insert_ne; rewrite Hu in *; [done|]. intros <-. rewrite Hno in Hq. by destruct Hq.
  - unfold FinishRunClaim. destruct (validateClaimMutation _ _ _); [|done]. destruct (validateTerminalRunStatus status); [|done].
    destruct (update_run _ _ _ d) as [[[] d1]|] eqn:Hu; [|done..]. cbn [negb snd].
    assert (id ≠ id0) as Hne by (eapply finish_tasks; [|done..]; cbn; intros; by bool_to_prop). apply update_run_tasks in Hu. rewrite Hu.
    destruct (db_queue d !! id0); [|by rewrite Hu]. destruct (_ && _); [|by rewrite Hu]. cbn. by rewrite Hu, lookup_delete_ne.
  - destruct (IsZero now) eqn:Hz; [unfold RecoverExpiredRunClaims; by rewrite Hz|]. rewrite RecoverExpiredRunClaims_ok by done.
    eapply recover_rows_tasks; [apply expired_claims_nodup|apply expired_selected|done..].
  - unfold FailStaleRuns. by destruct (fail_if _ _ _).
  - bool_to_prop. unfold RequestRunCancel. destruct (ValidateRunID _); [|done]. cbv zeta. destruct (update_run _ is_running _ d) as [[[] d1]|] eqn:Hu; [| |done].
    { apply update_run_tasks in Hu. cbn. by rewrite Hu. }
    apply update_run_tasks in Hu. destruct (update_run _ _ _ d1) as [[b d2]|] eqn:Hu2; [|done]. apply update_run_tasks in Hu2.
    destruct b; cbn; [rewrite lookup_delete_ne by done|]; by rewrite Hu2, Hu.
  - unfold HeartbeatRun. destruct (ValidateRunID _); [|done]. destruct (update_run _ _ _ d) as [[[] d1]|] eqn:Hu; [|done..]. apply update_run_tasks in Hu. cbn. by rewrite Hu.
  - unfold FinishRun. destruct (ValidateRunID _); [|done]. destruct (validateTerminalRunStatus status); [|done].
    destruct (update_run _ _ _ d) as [[[] d1]|] eqn:Hu; [|done..]. cbn.
    assert (id ≠ id0) as Hne by (eapply finish_tasks; [|done..]; done). apply update_run_tasks in Hu. by rewrite Hu, lookup_delete_ne.
  - apply Hkeep, same_tasks. cbn. destruct (insert_approval id0 row d) as [d'|] eqn:H; [|done]. unfold insert_approval in H.
    repeat (destruct_match_in H; try done). by simplify_eq.
  - apply Hkeep. cbn. unfold decideAndResume. destruct (scan_found _) as [record|]; [|done]. destruct (negb _); [done|]. cbv zeta.
    pose proof (decide_approval_same id0 decision actor (UnixMilli now) d) as Hd. destruct (decide_approval _ _ _ _ d) as [b d1]. cbn in Hd.
    destruct (negb b); [done|]. destruct (delegatedApprovalResumeTarget _ d1) as [[session run]|]; [|done].
    destruct (update_run _ _ _ d1) as [[u d2]|] eqn:Hu; [|done]. apply update_run_tasks in Hu. destruct (negb u); [done|].
    destruct (update_queue _ _ _ d2) as [w d3] eqn:H. destruct (negb w); [done|]. cbn. intros j Hj. apply (update_queue_tasks _ _ _ _ _ _ H). rewrite Hu.
    by apply (same_tasks _ _ Hd).
  - apply Hkeep, same_tasks. cbn. pose proof (decide_approval_same id0 decision actor (UnixMilli now) d) as H. destruct (decide_approval _ _ _ _ d). exact H.
  - apply Hkeep, same_tasks. cbn. repeat destruct_match_goal; done.
  - apply Hkeep, same_tasks. cbn. repeat destruct_match_goal; done.
  - apply Hkeep, same_tasks. unfold RenewSessionLease. repeat destruct_match_goal; done.
  - apply Hkeep, same_tasks. unfold ReleaseSessionLease. repeat destruct_match_goal; done.
Qed.

Lemma done_no_task d id status : phase d id = Some (LDone status) → db_queue d !! id = None.
Proof. unfold phase. destruct (db_runs d !! id), (db_queue d !! id); cbn; try done; repeat destruct_match_goal; done. Qed.

(** A suspended run whose cancellation was requested stays as it is. *)
Definition suspended (p : lifecycle) : Prop := match p with LWaiting _ true | LQueued _ true => True | _ => False end.

Lemma suspended_rows d id p : phase d id = Some p → suspended p → ∃ r q, db_runs d !! id = Some r ∧ db_queue d !! id = Some q ∧ is_running r = false
  ∧ (is_queued r || is_waiting r) = true.
Proof.
  unfold phase. destruct (db_runs d !! id) as [r|], (db_queue d !! id) as [q|]; cbn; [| |done|by intros [= <-]].
  - destruct (is_running r) eqn:Hrun; [destruct (is_empty _); [done|by intros [= <-]]|]. destruct (negb _); [done|].
    destruct (is_queued r) eqn:E1; [intros _ _; exists r, q; by rewrite E1|]. destruct (is_waiting r) eqn:E2; [|done]. intros _ _. exists r, q. by rewrite E1, E2.
  - destruct (is_running r); [by intros [= <-]|]. destruct (bool_decide _); [by intros [= <-]|done].
Qed.

Lemma suspended_stays s id p d d' : suspended p → rtc (uncancelled_step id s) d d' → phase d id = Some p → phase d' id = Some p.
Proof.
  intros Hs. induction 1 as [|d d1 d' (now & op & Hop & ->) _ IH]; intros Hp; [done|]. apply IH.
  destruct (op_follows s now op d id p Hp) as (p' & Hp' & Hl). assert (p' = p ∨ p' = LDone RunCancelled) as [->| ->]; [|done|].
  { destruct p as [|t []| | |t []|]; try done; [by apply life_stuck_queued in Hl|by apply life_stuck_waiting in Hl]. }
  destruct (suspended_rows _ _ _ Hp Hs) as (r & q & Hr & Hq & Hrun & _).
  destruct (op_keeps_task s now op d id r Hr Hrun Hop) as [q' Hq']; [by eexists|]. apply done_no_task in Hp'. congruence.
Qed.

(** A request cancels it. *)
Lemma suspended_cancelled id p d now : ValidateRunID id = Ok tt → suspended p → phase d id = Some p →
  ∃ d', RequestRunCancel id now d = (Ok true, d') ∧ phase d' id = Some (LDone RunCancelled).
Proof.
  intros Hid Hs Hp. destruct (suspended_rows _ _ _ Hp Hs) as (r & q & Hr & Hq & Hrun & Hst).
  unfold RequestRunCancel, update_run. rewrite Hid, Hr, Hrun. cbv zeta. rewrite Hr, Hst, write_run_inactive by reflexivity. cbn [rbind].
  eexists. split; [done|]. unfold phase. cbn. by rewrite lookup_insert_eq, lookup_delete_eq.
Qed.

(** The rows of a claimed run. *)
Lemma phase_claimed d id worker lease t c :
  phase d id = Some (LClaimed worker lease t c) →
  ∃ r q, db_runs d !! id = Some r ∧ db_queue d !! id = Some q ∧ is_running r = true ∧ qr_worker q = worker ∧ qr_lease q = lease ∧ task_of q = t ∧ rr_cancel r = c.
Proof.
  unfold phase. destruct (db_runs d !! id) as [r|] eqn:Hr, (db_queue d !! id) as [q|] eqn:Hq; cbn; try done; [|repeat destruct_match_goal; done].
  destruct (is_running r) eqn:Hrun; [|repeat destruct_match_goal; done]. destruct (is_empty _); [done|]. intros [=<- <- <- <-]. by exists r, q.
Qed.

(** Releasing a held claim of the session's only active run. *)
Lemma release_held id worker generation now f g d r q :
  db_runs d !! id = Some r → db_queue d !! id = Some q → is_running r = true → held worker generation now q = true →
  (is_active (f r) = true → other_active id (rr_session (f r)) d = false) →
  release_claim id worker generation now f g d = (Ok true, set_queue (<[id := g q]> (db_queue d)) (set_runs (<[id := f r]> (db_runs d)) d)).
Proof.
  intros Hr Hq Hrun Hh Hact. unfold release_claim, update_run. rewrite Hr, Hrun. unfold claim_held. rewrite Hq, Hh. cbn [andb].
  assert (write_run id (f r) d = Ok (set_runs (<[id := f r]> (db_runs d)) d)) as -> by (by apply write_run_ok). cbn [rbind negb].
  unfold update_queue. cbn [db_queue set_runs]. rewrite Hq, Hh. done.
Qed.

Lemma only_active id r d session : one_active d → db_runs d !! id = Some r → is_active r = true → rr_session r = session → other_active id session d = false.
Proof.
  intros Hone Hr Ha <-. destruct (other_active _ _ _) eqn:E; [|done]. apply other_active_spec in E as (j & s & Hj & Hne & Hs & Has).
  destruct Hne. symmetry. by eapply Hone.
Qed.

(** The request leaves the claim in place, flagged. *)
Lemma cancel_claimed d id worker lease t c now :
  one_active d → phase d id = Some (LClaimed worker lease t c) → ValidateRunID id = Ok tt →
  ∃ d1, RequestRunCancel id now d = (Ok true, d1) ∧ one_active d1 ∧ phase d1 id = Some (LClaimed worker lease t true).
Proof.
  intros Hone Hp Hid. destruct (phase_claimed _ _ _ _ _ _ Hp) as (r & q & Hr & Hq & Hrun & Hw & Hl & Ht & _).
  exists (set_runs (<[id := request_cancel (UnixMilli now) r]> (db_runs d)) d).
  assert (RequestRunCancel id now d = (Ok true, set_runs (<[id := request_cancel (UnixMilli now) r]> (db_runs d)) d)) as Hcancel.
  { unfold RequestRunCancel, update_run. rewrite Hid, Hr, Hrun. cbv zeta.
    assert (write_run id (request_cancel (UnixMilli now) r) d = Ok (set_runs (<[id := request_cancel (UnixMilli now) r]> (db_runs d)) d)) as ->; [|done].
    apply write_run_ok. split; [|done]. intros Ha. by apply (only_active id r). }
  split_and!; [done| |].
  - pose proof (RequestRunCancel_update id now d) as [_ H]. rewrite Hcancel in H. by apply H.
  - unfold phase in *. cbn. rewrite lookup_insert_eq, Hq. rewrite Hr, Hq in Hp. cbn in *.
    replace (is_running (request_cancel (UnixMilli now) r)) with true by (symmetry; exact Hrun). rewrite Hrun in Hp. destruct (is_empty _); [done|].
    injection Hp as <- <- <- _. done.
Qed.

(** The rows after a live claim is released. *)
Lemma release_claimed d id worker lease t c now f g :
  one_active d → phase d id = Some (LClaimed worker lease t c) → now < lease → (∀ r, rr_session (f r) = rr_session r) →
  ∃ r q, db_runs d !! id = Some r ∧ db_queue d !! id = Some q ∧ rr_cancel r = c ∧ task_of q = t
    ∧ release_claim id worker (tk_generation t) now f g d = (Ok true, set_queue (<[id := g q]> (db_queue d)) (set_runs (<[id := f r]> (db_runs d)) d)).
Proof.
  intros Hone Hp Hlive Hs. destruct (phase_claimed _ _ _ _ _ _ Hp) as (r & q & Hr & Hq & Hrun & Hw & Hl & Ht & Hc). exists r, q. split_and!; [done..|].
  apply release_held; [done..| |].
  - unfold held. rewrite Hw, bool_decide_eq_true_2 by done. rewrite <-Ht. cbn. rewrite Z.eqb_refl, Hl. cbn. by apply Z.ltb_lt.
  - intros _. rewrite Hs. apply (only_active id r); [done..| |done]. unfold is_active. by rewrite Hrun.
Qed.

(** C39.  A cancellation accepted just before its run is suspended is lost.  When
    the cancellation of a claimed run is requested (the answer is true) and the
    worker then pauses or retries the claim, the run is waiting, or queued, with
    the cancellation still requested.  No sequence of other transactions - claims,
    recoveries, decisions, expiries, finishes, requests for other runs - changes
    that: the run is never claimed, resumed or ended.  Only a second request for
    the same run cancels it. *)
Theorem cancellation_before_suspension_is_lost s d id worker lease t c now :
  one_active d → phase d id = Some (LClaimed worker lease t c) → UnixMilli now < lease → validateClaimMutation id worker (tk_generation t) = Ok tt →
  ∃ d1, RequestRunCancel id now d = (Ok true, d1)
  ∧ (∃ d2 t', PauseRunClaim id worker (tk_generation t) now d1 = (Ok true, d2)
      ∧ ∀ d3, rtc (uncancelled_step id s) d2 d3 → phase d3 id = Some (LWaiting t' true)
          ∧ ∀ later, ∃ d4, RequestRunCancel id later d3 = (Ok true, d4) ∧ phase d4 id = Some (LDone RunCancelled))
  ∧ (∀ available code, IsZero available = false →
      ∃ d2, RetryRunClaim id worker (tk_generation t) available code now d1 = (Ok true, d2)
      ∧ ∀ d3, rtc (uncancelled_step id s) d2 d3 → phase d3 id = Some (LQueued t true)
          ∧ ∀ later, ∃ d4, RequestRunCancel id later d3 = (Ok true, d4) ∧ phase d4 id = Some (LDone RunCancelled)).
Proof.
  intros Hone Hp Hlive Hv.
  assert (ValidateRunID id = Ok tt) as Hid by (unfold validateClaimMutation in Hv; by destruct (ValidateRunID id) as [[]|]).
  assert (∀ p d2, suspended p → phase d2 id = Some p → ∀ d3, rtc (uncancelled_step id s) d2 d3 → phase d3 id = Some p
            ∧ ∀ later, ∃ d4, RequestRunCancel id later d3 = (Ok true, d4) ∧ phase d4 id = Some (LDone RunCancelled)) as Hstays.
  { intros p d2 Hs Hp2 d3 Hd3. pose proof (suspended_stays s id p d2 d3 Hs Hd3 Hp2) as Hp3. split; [done|]. intros later. by eapply suspended_cancelled. }
  destruct (cancel_claimed d id worker lease t c now Hone Hp Hid) as (d1 & Hd1 & Hone1 & Hp1). exists d1. split; [done|]. split.
  - unfold PauseRunClaim. rewrite Hv.
    match goal with |- context [release_claim _ _ _ _ ?f ?g _] =>
      destruct (release_claimed d1 id worker lease t true (UnixMilli now) f g Hone1 Hp1 Hlive (λ _, eq_refl)) as (r & q & Hr & Hq & Hc & Ht & ->) end.
    eexists _, (mk_task (qr_generation q) (if 0 <? qr_attempt q then qr_attempt q - 1 else 0) (qr_max q)). split; [done|].
    apply (Hstays (LWaiting _ true)); [done|]. unfold phase. cbn. rewrite !lookup_insert_eq. cbn. by rewrite Hc.
  - intros available code Hz. unfold RetryRunClaim. rewrite Hv, Hz. cbn [fail_if].
    match goal with |- context [release_claim _ _ _ _ ?f ?g _] =>
      destruct (release_claimed d1 id worker lease t true (UnixMilli now) f g Hone1 Hp1 Hlive (λ _, eq_refl)) as (r & q & Hr & Hq & Hc & Ht & ->) end.
    eexists. split; [done|]. apply (Hstays (LQueued _ true)); [done|]. unfold phase. cbn. rewrite !lookup_insert_eq. cbn. by rewrite Hc, <-Ht.
Qed.

(** ** Expiry *)

(** C40.  An approval whose run is no longer waiting stops the expiry of all.
    When the pending approval that expired first belongs to a run that has ended
    (or was put back into the queue), expiring approvals stops there with an
    error: nothing is expired, and every other expired approval stays pending
    with its run suspended. *)
Theorem ended_run_blocks_expiry id ids now d a r :
  IsZero now = false → expired_approvals (UnixMilli now) d = id :: ids →
  db_approvals d !! id = Some a → is_ok (scanApproval id a) = true →
  db_runs d !! ap_run a = Some r → run_of (ap_session a) (ap_tenant a) (ap_subject a) r = true → is_waiting r = false →
  (drive (@approval_exec now) (ExpireApprovals now) d).1 = ((0, Some "approval run is not waiting for a decision"), d).
Proof.
  intros Hz Hexp Ha Hok Hr Hof Hw. unfold ExpireApprovals. rewrite Hz. cbn. rewrite Hexp. cbn.
  assert (decideAndResume id ApprovalExpired "system:expiry" now d = (Err "approval run is not waiting for a decision", d)) as ->; [|done].
  unfold decideAndResume. rewrite Ha. destruct (scanApproval id a) as [record|] eqn:Hs; [|done].
  change (scan_found (Some (id, a))) with (scanApproval id a). rewrite Hs. pose proof (scan_found_ok id a record Hs) as (_ & Hrow & Hst & _).
  assert (is_pending a = true) as Hpend.
  { assert (id ∈ expired_approvals (UnixMilli now) d) as Hin by (rewrite Hexp; left). unfold expired_approvals in Hin.
    apply list_elem_of_fmap in Hin as ([i b] & -> & Hin). rewrite merge_sort_Permutation in Hin. apply list_elem_of_In, filter_In in Hin as [Hin Hb].
    apply list_elem_of_In, elem_of_map_to_list in Hin. cbn in *. rewrite Ha in Hin. injection Hin as <-. by bool_to_prop. }
  rewrite Hst. pose proof Hpend as Hp'. unfold is_pending in Hp'. rewrite Hp'. cbn [negb]. cbv zeta. rewrite Hrow. unfold decide_approval. rewrite Ha, Hpend. cbn [negb].
  rewrite resume_target_approvals. unfold delegatedApprovalResumeTarget. rewrite Hr. unfold run_of in Hof. rewrite Hof. cbn [negb fail_if].
  unfold update_run. cbn [db_runs set_approvals]. rewrite Hr. unfold run_of. rewrite Hof, Hw. done.
Qed.

(** ** The claims at work *)

Lemma ex_mutation_w1 : validateClaimMutation "run-1" "w1" (tk_generation (mk_task 1 1 2)) = Ok tt.
Proof. reflexivity. Qed.

(** Another worker and the recovery pass it by: it keeps waiting. *)
Lemma cancellation_before_suspension_is_lost_witness :
  ∃ d1 d2 t', RequestRunCancel "run-1" (ex_t + 2 * second) ex_claimed = (Ok true, d1)
    ∧ PauseRunClaim "run-1" "w1" 1 (ex_t + 2 * second) d1 = (Ok true, d2)
    ∧ phase (apply_op ex_stores (ex_t + 3 * minute) (OpRecover ∅) (apply_op ex_stores (ex_t + 2 * minute) (OpClaim "w2" minute ∅ 0) d2)) "run-1" = Some (LWaiting t' true).
Proof.
  destruct (cancellation_before_suspension_is_lost ex_stores ex_claimed "run-1" "w1" _ (mk_task 1 1 2) false (ex_t + 2 * second) ex_claimed_active ex_claimed_phase
              eq_refl ex_mutation_w1) as (d1 & Hc & (d2 & t' & Hp & Hph) & _).
  exists d1, d2, t'. split; [exact Hc|]. split; [exact Hp|]. apply Hph.
  apply (rtc_l _ _ (apply_op ex_stores (ex_t + 2 * minute) (OpClaim "w2" minute ∅ 0) d2)); [|apply rtc_once].
  - exists (ex_t + 2 * minute), (OpClaim "w2" minute ∅ 0). split; reflexivity.
  - exists (ex_t + 3 * minute), (OpRecover ∅). split; reflexivity.
Defined.

Lemma ex_failed_approval : db_approvals ex_failed !! ex_id "1" = Some (ex_approval "run-1" (UnixMilli (ex_t + 5 * minute))).
Proof. vm_compute. reflexivity. Qed.
Definition ex_failed_row : runRow := mk_run_row "s1" "acme" "ann" RunFailed false "worker_lost" (UnixMilli ex_t) (UnixMilli (ex_t + 2 * minute)) (UnixMilli (ex_t + 2 * minute)).
Lemma ex_failed_run : db_runs ex_failed !! "run-1" = Some ex_failed_row.
Proof. vm_compute. reflexivity. Qed.
Lemma ex_failed_expired : expired_approvals (UnixMilli (ex_t + 6 * minute)) ex_failed = [ex_id "1"].
Proof. vm_compute. reflexivity. Qed.

(** A worker that was lost after it asked: the approval can never expire. *)
Lemma ended_run_blocks_expiry_witness :
  (drive (@approval_exec (ex_t + 6 * minute)) (ExpireApprovals (ex_t + 6 * minute)) ex_failed).1 = ((0, Some "approval run is not waiting for a decision"), ex_failed).
Proof.
  apply (ended_run_blocks_expiry (ex_id "1") [] (ex_t + 6 * minute) ex_failed (ex_approval "run-1" (UnixMilli (ex_t + 5 * minute))) ex_failed_row);
    [reflexivity|exact ex_failed_expired|exact ex_failed_approval|reflexivity|exact ex_failed_run|reflexivity|reflexivity].
Defined.
