(* ===== verification/WriteBehind.v ===== *)
(** * The write-behind flusher: [src/pkg/storage/write_behind.go]

    A live run appends to its session in memory; a [WriteBehind] persists the
    session's log behind it, in the background and on demand.  Its methods take
    a mutex in short regions and write to the store outside it.  Each region is
    a function on the writer's state here; the threads that run [Flush],
    [Checkpoint], [Abort] and the timer callbacks are program counters between
    regions, and the system is the interleaving of their regions with the
    producer, with the timers of the runtime and with other writers of the
    store.  [time.AfterFunc] timers are numbered; [armed] holds those that
    have neither fired nor been stopped, so that stopping a timer whose
    callback has already been started stops nothing, as in Go.  The [changed]
    channel is the number of the channel now installed: every lower one is
    closed. *)
From S2P Require Import Prelude GoString Json Payload Events Message Session SessionLog SessionClaims SessionStore ControlDb RunControl ControlJson SqlSession SessionFence Turn.
From stdpp Require Import gmap strings list.
From Stdlib Require Import ZArith Lia.
Open Scope Z_scope.

(** ** The writer *)

(** What [NewWriteBehind] and [NewFencedWriteBehind] fix. *)
Record writer_config := mk_writer_config { w_fence : option SessionWriteFence; maxDelay : Z; backgroundDisabled : bool }.

Record WriteBehind := mk_writer {
  w_config : writer_config;
  savedVersion : Z; dirty : bool; timer : option nat; flushing : bool; lastErr : option string;
  errorObserver : option nat; closed : bool; changed : nat;
  armed : gset nat; next_timer : nat }.

Definition millisecond : Z := 10 ^ 6.

Definition new_writer (fence : option SessionWriteFence) (startVersion maxDelay : Z) : WriteBehind :=
  mk_writer (mk_writer_config fence (if maxDelay =? 0 then 200 * millisecond else maxDelay) (maxDelay <? 0))
    startVersion false None false None None false 0 ∅ 0.
Definition NewWriteBehind (startVersion maxDelay : Z) : WriteBehind := new_writer None startVersion maxDelay.

(** [fenced] is whether the store implements [FencedSessionAppender]. *)
Definition NewFencedWriteBehind (fenced : bool) (fence : SessionWriteFence) (session : Session) (startVersion maxDelay : Z) : result WriteBehind :=
  let! _ := validateSessionWriteFence fence in
  fail_when negb (bool_decide (s_id session = fn_SessionID fence)) with "write-behind session does not match fenced session" ;;
  fail_when startVersion <? 0 with "fenced write-behind start version must not be negative" ;;
  fail_when Version session <? startVersion with "fenced write-behind start version exceeds session version" ;;
  fail_when negb fenced with "session store does not implement fenced append" ;;
  Ok (new_writer (Some fence) startVersion maxDelay).

Definition set_dirty (b : bool) (w : WriteBehind) : WriteBehind :=
  mk_writer (w_config w) (savedVersion w) b (timer w) (flushing w) (lastErr w) (errorObserver w) (closed w) (changed w) (armed w) (next_timer w).
Definition set_closed (w : WriteBehind) : WriteBehind :=
  mk_writer (w_config w) (savedVersion w) (dirty w) (timer w) (flushing w) (lastErr w) (errorObserver w) true (changed w) (armed w) (next_timer w).
Definition set_flushing (b : bool) (w : WriteBehind) : WriteBehind :=
  mk_writer (w_config w) (savedVersion w) (dirty w) (timer w) b (lastErr w) (errorObserver w) (closed w) (changed w) (armed w) (next_timer w).
Definition set_timer (t : option nat) (on : gset nat) (w : WriteBehind) : WriteBehind :=
  mk_writer (w_config w) (savedVersion w) (dirty w) t (flushing w) (lastErr w) (errorObserver w) (closed w) (changed w) on (next_timer w).
Definition set_saved (v : Z) (w : WriteBehind) : WriteBehind :=
  mk_writer (w_config w) v (dirty w) (timer w) (flushing w) (lastErr w) (errorObserver w) (closed w) (changed w) (armed w) (next_timer w).
Definition set_lastErr (e : string) (w : WriteBehind) : WriteBehind :=
  mk_writer (w_config w) (savedVersion w) (dirty w) (timer w) (flushing w) (Some e) (errorObserver w) (closed w) (changed w) (armed w) (next_timer w).
Definition set_observer (o : option nat) (w : WriteBehind) : WriteBehind :=
  mk_writer (w_config w) (savedVersion w) (dirty w) (timer w) (flushing w) (lastErr w) o (closed w) (changed w) (armed w) (next_timer w).

(** [time.AfterFunc]: a fresh timer, armed and installed. *)
Definition after_func (w : WriteBehind) : WriteBehind :=
  mk_writer (w_config w) (savedVersion w) (dirty w) (Some (next_timer w)) (flushing w) (lastErr w) (errorObserver w) (closed w) (changed w)
    ({[next_timer w]} ∪ armed w) (S (next_timer w)).

(** [w.timer.Stop(); w.timer = nil], when there is one. *)
Definition stop_timer (w : WriteBehind) : WriteBehind :=
  match timer w with None => w | Some id => set_timer None (armed w ∖ {[id]}) w end.

Definition scheduleLocked (w : WriteBehind) : WriteBehind :=
  if backgroundDisabled (w_config w) || closed w || negb (dirty w) || flushing w || bool_decide (is_Some (timer w)) || bool_decide (is_Some (lastErr w))
  then w else after_func w.

Definition signalChangedLocked (w : WriteBehind) : WriteBehind :=
  mk_writer (w_config w) (savedVersion w) (dirty w) (timer w) (flushing w) (lastErr w) (errorObserver w) (closed w) (S (changed w)) (armed w) (next_timer w).

(** ** The regions *)

Definition MarkDirty (w : WriteBehind) : WriteBehind := if closed w then w else scheduleLocked (set_dirty true w).

Definition SavedVersion (w : WriteBehind) : Z := savedVersion w.

(** The observer to notify, with the error. *)
Definition SetErrorObserver (observer : option nat) (w : WriteBehind) : WriteBehind * option (nat * string) :=
  (set_observer observer w, match observer, lastErr w with Some o, Some e => Some (o, e) | _, _ => None end).

(** [flush] up to its loop: [Some] is the answer it returns at once. *)
Definition flush_enter (closeWriter : bool) (version : Z) (w : WriteBehind) : option (option string) * WriteBehind :=
  if closed w && negb closeWriter then (Some (lastErr w), w)
  else
    let w := if closeWriter then set_closed w else w in
    let w := if savedVersion w <? version then set_dirty true w else w in
    (None, stop_timer w).

(** One turn of a loop: the answer, a channel to wait for, or a flush. *)
Inductive turn := TReturn (err : option string) | TWait (channel : nat) | TFlush.

Definition flush_turn (w : WriteBehind) : turn :=
  match lastErr w with
  | Some e => TReturn (Some e)
  | None => if negb (dirty w) then TReturn None else if flushing w then TWait (changed w) else TFlush
  end.

Definition abort_enter (w : WriteBehind) : WriteBehind := stop_timer (set_closed w).
Definition abort_turn (w : WriteBehind) : turn := if flushing w then TWait (changed w) else TReturn (lastErr w).

(** The first region of [flushOnce]: the version to write from, unless there is
    nothing to do. *)
Definition once_enter (w : WriteBehind) : option Z * WriteBehind :=
  if negb (dirty w) || flushing w then (None, w) else (Some (savedVersion w), set_flushing true w).

(** Its last region, with the observer to notify. *)
Definition once_finish (targetVersion version : Z) (err : option string) (w : WriteBehind) : WriteBehind * option (nat * string) :=
  let w := set_flushing false w in
  match err with
  | Some e =>
    match lastErr w with
    | None => (signalChangedLocked (set_lastErr e w), match errorObserver w with Some o => Some (o, e) | None => None end)
    | Some _ => (signalChangedLocked w, None)
    end
  | None => (signalChangedLocked (scheduleLocked (stop_timer (set_dirty (targetVersion <? version) (set_saved targetVersion w)))), None)
  end.

(** The callback of the timer [id], up to its call of [flushOnce]. *)
Definition timer_callback (id : nat) (w : WriteBehind) : WriteBehind :=
  if bool_decide (timer w = Some id) then set_timer None (armed w) w else w.

(** ** The store *)

(** What a store does, as the writer uses it: each operation relates the store
    before, the answer and the store after; a cancelled context may answer an
    error whether or not the write took effect.  [AppendEvents] and
    [AppendEventsFenced] are optional interfaces. *)
Definition store_op (D : Type) : Type := D → option string → D → Prop.
Record SessionStoreOps (D : Type) := mk_ops {
  so_Save : Session → Z → store_op D;
  so_AppendEvents : option (string → Z → list SessionEvent → store_op D);
  so_AppendEventsFenced : option (SessionWriteFence → Z → list SessionEvent → store_op D) }.
Arguments so_Save {D}. Arguments so_AppendEvents {D}. Arguments so_AppendEventsFenced {D}.

(** The write [flushOnce] has prepared: a suffix of the log, or a snapshot. *)
Inductive job :=
| JFenced (fence : SessionWriteFence) (saved : Z) (events : list SessionEvent)
| JAppend (session : string) (saved : Z) (events : list SessionEvent)
| JSave (snapshot : Session) (saved : Z).

(** The middle of [flushOnce]: the job with its target version, or the error of
    [Clone]. *)
Definition prepare_job {D} (ops : SessionStoreOps D) (w : WriteBehind) (session : Session) (saved : Z) : (job * Z) + (Z * string) :=
  let events := EventsFrom session saved in
  let target := saved + Z.of_nat (length events) in
  match w_fence (w_config w) with
  | Some fence => inl (JFenced fence saved events, target)
  | None =>
    match so_AppendEvents ops with
    | Some _ => inl (JAppend (s_id session) saved events, target)
    | None => match Clone session with Ok snapshot => inl (JSave snapshot saved, Version snapshot) | Err e => inr (target, e) end
    end
  end.

Definition do_job {D} (ops : SessionStoreOps D) (j : job) : store_op D :=
  match j with
  | JFenced fence saved events => match so_AppendEventsFenced ops with Some append => append fence saved events | None => λ _ _ _, False end
  | JAppend session saved events => match so_AppendEvents ops with Some append => append session saved events | None => λ _ _ _, False end
  | JSave snapshot saved => so_Save ops snapshot saved
  end.

(** ** The system *)

(** Where a thread is.  [n] is the session's version when its [flush] entered;
    [k] is the [flush] a [flushOnce] returns to, none for a timer callback. *)
Inductive thread :=
| AtFlush (closeWriter : bool) | AtLoop (n : Z) | AtWait (n : Z) (channel : nat)
| AtAbort | AtAbortLoop | AtAbortWait (channel : nat)
| AtTimer (id : nat)
| AtOnce (k : option Z) | AtRead (k : option Z) (saved : Z) | AtWrite (k : option Z) (j : job) (target : Z) | AtFinish (k : option Z) (target : Z) (err : option string)
| Flushed (n : option Z) (err : option string) | Aborted (err : option string) | TimerDone.

Definition once_return (k : option Z) : thread := match k with Some n => AtLoop n | None => TimerDone end.

Section system.
Context {D : Type} (ops : SessionStoreOps D).

(** One region of a thread: the writer, the store and the thread after it. *)
Inductive thread_step (session : Session) : WriteBehind → D → thread → WriteBehind → D → thread → Prop :=
| step_flush_enter w d closeWriter w' :
    flush_enter closeWriter (Version session) w = (None, w') → thread_step session w d (AtFlush closeWriter) w' d (AtLoop (Version session))
| step_flush_closed w d closeWriter r w' :
    flush_enter closeWriter (Version session) w = (Some r, w') → thread_step session w d (AtFlush closeWriter) w' d (Flushed None r)
| step_flush_return w d n r : flush_turn w = TReturn r → thread_step session w d (AtLoop n) w d (Flushed (Some n) r)
| step_flush_wait w d n ch : flush_turn w = TWait ch → thread_step session w d (AtLoop n) w d (AtWait n ch)
| step_flush_once w d n : flush_turn w = TFlush → thread_step session w d (AtLoop n) w d (AtOnce (Some n))
| step_flush_wake w d n ch : (ch < changed w)%nat → thread_step session w d (AtWait n ch) w d (AtLoop n)
| step_flush_cancel w d n ch e : thread_step session w d (AtWait n ch) w d (Flushed (Some n) (Some e))
| step_abort_enter w d : thread_step session w d AtAbort (abort_enter w) d AtAbortLoop
| step_abort_return w d r : abort_turn w = TReturn r → thread_step session w d AtAbortLoop w d (Aborted r)
| step_abort_wait w d ch : abort_turn w = TWait ch → thread_step session w d AtAbortLoop w d (AtAbortWait ch)
| step_abort_wake w d ch : (ch < changed w)%nat → thread_step session w d (AtAbortWait ch) w d AtAbortLoop
| step_abort_cancel w d ch e : thread_step session w d (AtAbortWait ch) w d (Aborted (Some e))
| step_timer w d id : thread_step session w d (AtTimer id) (timer_callback id w) d (AtOnce None)
| step_once_idle w d k w' : once_enter w = (None, w') → thread_step session w d (AtOnce k) w' d (once_return k)
| step_once_start w d k saved w' : once_enter w = (Some saved, w') → thread_step session w d (AtOnce k) w' d (AtRead k saved)
| step_read w d k saved j target : prepare_job ops w session saved = inl (j, target) → thread_step session w d (AtRead k saved) w d (AtWrite k j target)
| step_read_failed w d k saved target e : prepare_job ops w session saved = inr (target, e) → thread_step session w d (AtRead k saved) w d (AtFinish k target (Some e))
| step_write w d k j target r d' : do_job ops j d r d' → thread_step session w d (AtWrite k j target) w d' (AtFinish k target r)
| step_finish w d k target r w' o : once_finish target (Version session) r w = (w', o) → thread_step session w d (AtFinish k target r) w' d (once_return k).

Record system := mk_system { sy_writer : WriteBehind; sy_session : Session; sy_store : D; sy_threads : gmap nat thread }.

(** [admissible] limits the producer to events the store can keep, and
    [others] is what other writers of the store do. *)
Context (admissible : list SessionEvent → Prop) (others : D → D → Prop).

Inductive step : system → system → Prop :=
| step_thread w s d ts t p w' d' p' :
    ts !! t = Some p → thread_step s w d p w' d' p' → step (mk_system w s d ts) (mk_system w' s d' (<[t := p']> ts))
| step_fire w s d ts t id :
    id ∈ armed w → ts !! t = None → step (mk_system w s d ts) (mk_system (set_timer (timer w) (armed w ∖ {[id]}) w) s d (<[t := AtTimer id]> ts))
| step_call_flush w s d ts t closeWriter : ts !! t = None → step (mk_system w s d ts) (mk_system w s d (<[t := AtFlush closeWriter]> ts))
| step_call_abort w s d ts t : ts !! t = None → step (mk_system w s d ts) (mk_system w s d (<[t := AtAbort]> ts))
| step_mark w s d ts : step (mk_system w s d ts) (mk_system (MarkDirty w) s d ts)
| step_observe w s d ts o : step (mk_system w s d ts) (mk_system (fst (SetErrorObserver o w)) s d ts)
| step_append w s d ts clock entries s' events :
    appendBatch clock s entries = Ok (s', events) → admissible events → step (mk_system w s d ts) (mk_system w s' d ts)
| step_other w s d ts d' : others d d' → step (mk_system w s d ts) (mk_system w s d' ts).

End system.
Arguments mk_system {D}. Arguments sy_writer {D}. Arguments sy_session {D}. Arguments sy_store {D}. Arguments sy_threads {D}.
