(* ===== verification/WriterInv.v ===== *)
(** * The invariants of the write-behind flusher

    [SinkLaws] is what the flusher needs of a store; the invariants of every
    reachable system are proved from it alone. *)
From S2P Require Import Prelude GoString Json Payload Events Message Session SessionLog SessionClaims SessionStore ControlDb RunControl ControlJson SqlSession SessionFence Turn WriteBehind.
From stdpp Require Import gmap strings list relations.
From Stdlib Require Import ZArith Lia.
Open Scope Z_scope.

(** ** The contract of a store *)

(** A write of [evs] at version [v] over the log [l]: a success has written them
    at the end of the log, an error has written all or nothing. *)
Definition wrote (l : list SessionEvent) (v : Z) (evs : list SessionEvent) (r : option string) (after : list SessionEvent → Prop) : Prop :=
  match r with
  | None => (evs = [] ∧ after l) ∨ (v = Z.of_nat (length l) ∧ after (l ++ evs))
  | Some _ => after l ∨ (v = Z.of_nat (length l) ∧ after (l ++ evs))
  end.

Class SinkLaws {D : Type} (ops : SessionStoreOps D) (id : string) (good : SessionEvent → Prop) (contents : D → list SessionEvent → Prop) := {
  law_contents d l l' : contents d l → contents d l' → l = l';
  law_append append v evs d r d' l :
    so_AppendEvents ops = Some append → contents d l → Forall good evs → append id v evs d r d' → wrote l v evs r (contents d');
  law_fenced append f v evs d r d' l :
    so_AppendEventsFenced ops = Some append → fn_SessionID f = id → contents d l → Forall good evs → append f v evs d r d' → wrote l v evs r (contents d');
  law_save s v evs d r d' l :
    s_id s = id → contents d l → Forall good (s_events s) → (v = Z.of_nat (length l) → s_events s = l ++ evs) →
    so_Save ops s v d r d' → wrote l v evs r (contents d') }.

Section inv.
Context {D : Type} (ops : SessionStoreOps D) (id : string) (good : SessionEvent → Prop) (contents : D → list SessionEvent → Prop).
Context {laws : SinkLaws ops id good contents}.

(** The store holds [evs], and maybe more. *)
Definition durable (d : D) (evs : list SessionEvent) : Prop := ∃ l, contents d l ∧ evs `prefix_of` l.

(** The log of the store only grows. *)
Definition grows (d d' : D) : Prop := ∀ l, contents d l → ∃ more, contents d' (l ++ more).

Lemma durable_grows d d' evs : grows d d' → durable d evs → durable d' evs.
Proof. intros Hg (l & Hl & Hp). destruct (Hg l Hl) as (more & Hm). exists (l ++ more). split; [done|]. by apply prefix_app_r. Qed.
Lemma grows_refl d : grows d d.
Proof. intros l Hl. exists []. by rewrite app_nil_r. Qed.

Notation sstep := (step ops (Forall good) grows).

(** The first [v] events of a session. *)
Definition upto (s : Session) (v : Z) : list SessionEvent := take (Z.to_nat v) (s_events s).

(** ** Threads *)

Definition busy (p : thread) : bool :=
  match p with AtRead _ _ | AtWrite _ _ _ | AtFinish _ _ _ => true | _ => false end.

(** What a flush that saw version [n] waits for is saved, or known to be dirty. *)
Definition waits_ok (w : WriteBehind) (s : Session) (n : Z) : Prop := n ≤ Version s ∧ (n ≤ savedVersion w ∨ dirty w = true).
Definition back_ok (w : WriteBehind) (s : Session) (k : option Z) : Prop := match k with Some n => waits_ok w s n | None => True end.

(** The job writes the events from the saved version to the target. *)
Definition job_ok (w : WriteBehind) (s : Session) (j : job) (target : Z) : Prop :=
  match j with
  | JFenced f v evs => fn_SessionID f = id ∧ v = savedVersion w ∧ upto s target = upto s v ++ evs
  | JAppend i v evs => i = id ∧ v = savedVersion w ∧ upto s target = upto s v ++ evs
  | JSave snapshot v => s_id snapshot = id ∧ v = savedVersion w ∧ s_events snapshot = upto s target
  end.

Definition thread_ok (w : WriteBehind) (s : Session) (d : D) (p : thread) : Prop :=
  match p with
  | AtLoop n | AtWait n _ => waits_ok w s n
  | AtOnce k => back_ok w s k
  | AtRead k saved => back_ok w s k ∧ saved = savedVersion w
  | AtWrite k j target => back_ok w s k ∧ savedVersion w ≤ target ≤ Version s ∧ job_ok w s j target
  | AtFinish k target None => back_ok w s k ∧ savedVersion w ≤ target ≤ Version s ∧ durable d (upto s target)
  | AtFinish k target (Some _) => back_ok w s k
  | Flushed (Some n) None => n ≤ savedVersion w
  | _ => True
  end.

Record writer_inv (y : system) : Prop := {
  v_id : s_id (sy_session y) = id;
  v_fence f : w_fence (w_config (sy_writer y)) = Some f → fn_SessionID f = id;
  v_good : Forall good (s_events (sy_session y));
  v_saved : 0 ≤ savedVersion (sy_writer y) ≤ Version (sy_session y);
  v_store : durable (sy_store y) (upto (sy_session y) (savedVersion (sy_writer y)));
  v_threads t p : sy_threads y !! t = Some p → thread_ok (sy_writer y) (sy_session y) (sy_store y) p;
  v_one t t' p p' : sy_threads y !! t = Some p → sy_threads y !! t' = Some p' → busy p = true → busy p' = true → t = t';
  v_flushing : flushing (sy_writer y) = true ↔ ∃ t p, sy_threads y !! t = Some p ∧ busy p = true }.

(** How a step may change what the other threads rely on. *)
Record frame (w : WriteBehind) (s : Session) (d : D) (w' : WriteBehind) (s' : Session) (d' : D) : Prop := {
  f_config : w_config w' = w_config w;
  f_log : s_events s `prefix_of` s_events s';
  f_saved : savedVersion w ≤ savedVersion w';
  f_dirty : dirty w = true → dirty w' = true ∨ Version s ≤ savedVersion w';
  f_store : grows d d' }.

Lemma upto_prefix s s' v : s_events s `prefix_of` s_events s' → v ≤ Version s → upto s' v = upto s v.
Proof.
  intros (more & Hm) Hv. unfold upto, Version, s_len in *. rewrite Hm, take_app_le; [done|lia].
Qed.

Lemma prefix_version s s' : s_events s `prefix_of` s_events s' → Version s ≤ Version s'.
Proof. intros H%prefix_length. unfold Version, s_len. lia. Qed.

Lemma waits_frame w s d w' s' d' n : frame w s d w' s' d' → waits_ok w s n → waits_ok w' s' n.
Proof.
  intros [_ Hl Hs Hd _] [Hn Hw]. pose proof (prefix_version _ _ Hl). split; [lia|]. destruct Hw as [Hw|Hw]; [left; lia|].
  destruct (Hd Hw) as [?|?]; [by right|left; lia].
Qed.
Lemma back_frame w s d w' s' d' k : frame w s d w' s' d' → back_ok w s k → back_ok w' s' k.
Proof. destruct k; [apply waits_frame|done]. Qed.

(** A thread that is not writing is not disturbed; one that is must find the
    saved version as it was. *)
Lemma thread_frame w s d w' s' d' p :
  frame w s d w' s' d' → savedVersion w' = savedVersion w ∨ busy p = false → 0 ≤ savedVersion w ≤ Version s →
  thread_ok w s d p → thread_ok w' s' d' p.
Proof.
  intros F Hb Hv. pose proof F as [_ Hl Hs _ Hg]. pose proof (prefix_version _ _ Hl) as Hle.
  destruct p as [|n|n ch| | | | |k|k saved|k j target|k target [e|]|[n|] [e|]| |]; cbn in *; try done.
  - by eapply waits_frame.
  - by eapply waits_frame.
  - by eapply back_frame.
  - destruct Hb as [->|]; [|done]. intros [Hk ?]. split; [by eapply back_frame|done].
  - destruct Hb as [Hb|]; [|done]. rewrite Hb. intros (Hk & Ht & Hj). split; [by eapply back_frame|]. split; [lia|].
    destruct j; cbn in *; rewrite Hb; destruct Hj as (? & -> & Hj); rewrite ?(upto_prefix _ _ _ Hl) by lia; done.
  - by eapply back_frame.
  - destruct Hb as [->|]; [|done]. intros (Hk & Ht & Hj). split; [by eapply back_frame|]. split; [lia|].
    rewrite (upto_prefix _ _ _ Hl) by lia. by eapply durable_grows.
  - lia.
Qed.

Lemma frame_refl w s d : frame w s d w s d.
Proof. split; [done|reflexivity|lia|by left|apply grows_refl]. Qed.

(** ** The regions *)

(** The timers aside. *)
Definition core_of (w : WriteBehind) := (w_config w, savedVersion w, dirty w, flushing w, lastErr w, closed w, changed w).

Lemma core_stop w : core_of (stop_timer w) = core_of w.
Proof. unfold stop_timer. by destruct (timer w). Qed.
Lemma core_schedule w : core_of (scheduleLocked w) = core_of w.
Proof. unfold scheduleLocked. by destruct (_ || _). Qed.
Lemma core_callback n w : core_of (timer_callback n w) = core_of w.
Proof. unfold timer_callback. by case_bool_decide. Qed.

Definition key_of (w : WriteBehind) := (w_config w, savedVersion w, dirty w, flushing w).
Lemma core_key w w' : core_of w' = core_of w → key_of w' = key_of w.
Proof. unfold core_of, key_of. by intros [=-> -> -> -> _ _ _]. Qed.

Lemma frame_key w s d w' : key_of w' = key_of w → frame w s d w' s d.
Proof. unfold key_of. intros [=Hc Hs Hd _]. split; [done|reflexivity|lia|rewrite Hd; by left|apply grows_refl]. Qed.

Lemma core_flush_enter closeWriter v w r w' :
  flush_enter closeWriter v w = (r, w') →
  (w' = w ∧ r = Some (lastErr w) ∧ closed w = true ∧ closeWriter = false)
  ∨ (r = None ∧ core_of w' = (w_config w, savedVersion w, (savedVersion w <? v) || dirty w, flushing w, lastErr w, closeWriter || closed w, changed w)).
Proof.
  unfold flush_enter. destruct (closed w && negb closeWriter) eqn:E; intros [=<- <-].
  - left. apply andb_prop in E as [? ?]. by destruct closeWriter.
  - right. split; [done|]. rewrite core_stop. by destruct closeWriter, (_ <? _).
Qed.

Lemma core_mark w : core_of (MarkDirty w) = if closed w then core_of w else (w_config w, savedVersion w, true, flushing w, lastErr w, closed w, changed w).
Proof. unfold MarkDirty. destruct (closed w) eqn:E; [done|]. rewrite core_schedule. unfold core_of. cbn. by rewrite E. Qed.

Lemma core_finish target v r w w' o :
  once_finish target v r w = (w', o) →
  core_of w' = match r with
               | None => (w_config w, target, target <? v, false, lastErr w, closed w, S (changed w))
               | Some e => (w_config w, savedVersion w, dirty w, false, match lastErr w with Some e' => Some e' | None => Some e end, closed w, S (changed w))
               end.
Proof.
  unfold once_finish. destruct r as [e|].
  - cbn. destruct (lastErr w) eqn:E; intros [=<- <-]; unfold core_of; cbn; by rewrite ?E.
  - intros [=<- <-]. set (u := scheduleLocked _).
    assert (core_of u = (w_config w, target, target <? v, false, lastErr w, closed w, changed w)) as Hu
      by (unfold u; by rewrite core_schedule, core_stop).
    unfold core_of in Hu |- *. injection Hu as H1 H2 H3 H4 H5 H6 H7. cbn [signalChangedLocked w_config savedVersion dirty flushing lastErr closed changed]. congruence.
Qed.

(** ** Writing *)

Lemma Forall_app_1 (P : SessionEvent → Prop) l l' : Forall P (l ++ l') → Forall P l'.
Proof. by intros [_ ?]%Forall_app. Qed.

Lemma upto_all s : upto s (Version s) = s_events s.
Proof. unfold upto, Version, s_len. rewrite Nat2Z.id. by apply firstn_all. Qed.
Lemma upto_length s v : 0 ≤ v ≤ Version s → Z.of_nat (length (upto s v)) = v.
Proof. unfold upto, Version, s_len. intros H. rewrite length_take_le; lia. Qed.
Lemma upto_le s v v' : v ≤ v' → upto s v `prefix_of` upto s v'.
Proof. intros H. unfold upto. exists (drop (Z.to_nat v) (take (Z.to_nat v') (s_events s))). rewrite <- (take_drop (Z.to_nat v) (take (Z.to_nat v') _)) at 1. by rewrite take_take, Nat.min_l by lia. Qed.

Lemma EventsFrom_upto s v : 0 ≤ v ≤ Version s → s_events s = upto s v ++ EventsFrom s v.
Proof.
  intros H. unfold EventsFrom, upto. rewrite (proj2 (Z.ltb_ge v 0)) by lia. unfold Version in H. rewrite (proj2 (Z.ltb_ge (s_len s) v)) by lia.
  cbn [orb]. by rewrite take_drop.
Qed.

Lemma Clone_same s s' : Clone s = Ok s' → s_id s' = s_id s ∧ s_events s' = s_events s.
Proof.
  unfold Clone, RestoreSession. intros H. apply rbind_ok in H as (s0 & H0 & H). apply fail_if_ok in H as [_ H]. apply NewSession_state in H0.
  assert (∀ events a b, rfold restore_event a events = Ok b → s_id b = s_id a ∧ s_events b = s_events a ++ events) as Hall.
  { clear. induction events as [|e events IH]; intros a b H; cbn in H; [injection H as <-; by rewrite app_nil_r|].
    apply rbind_ok in H as (a1 & H1 & H). apply IH in H as [-> ->]. unfold restore_event in H1. apply fail_if_ok in H1 as [_ H1].
    apply rbind_ok in H1 as (? & _ & H1). apply rbind_ok in H1 as (? & _ & H1). apply rbind_ok in H1 as (? & _ & [=<-]). cbn. by rewrite <- app_assoc. }
  apply Hall in H as [-> ->]. by subst s0.
Qed.

Lemma prepare_job_ok w s j target :
  s_id s = id → (∀ f, w_fence (w_config w) = Some f → fn_SessionID f = id) → 0 ≤ savedVersion w ≤ Version s →
  prepare_job ops w s (savedVersion w) = inl (j, target) → savedVersion w ≤ target ≤ Version s ∧ job_ok w s j target.
Proof.
  intros Hid Hf Hv H. pose proof (EventsFrom_upto s (savedVersion w) Hv) as Hev. unfold prepare_job in H. cbv zeta in H.
  assert (savedVersion w + Z.of_nat (length (EventsFrom s (savedVersion w))) = Version s) as Hlen.
  { rewrite <- (upto_length s (savedVersion w) Hv) at 1. rewrite <- Nat2Z.inj_add, <- length_app, <- Hev. done. }
  rewrite Hlen in H. destruct (w_fence (w_config w)) as [f|] eqn:E.
  - injection H as <- <-. split; [lia|]. cbn. rewrite upto_all. auto.
  - destruct (so_AppendEvents ops) eqn:Ea.
    + injection H as <- <-. split; [lia|]. cbn. rewrite upto_all. auto.
    + destruct (Clone s) as [c|] eqn:Ec; [|done]. injection H as <- <-. destruct (Clone_same _ _ Ec) as [Hci Hce].
      assert (Version c = Version s) as -> by (unfold Version, s_len; by rewrite Hce). split; [lia|]. cbn. rewrite upto_all. split_and!; congruence.
Qed.

(** The write of a well-formed job: the store grows, and a success makes the log
    durable up to the target. *)
Lemma do_job_ok w s j target d r d' :
  Forall good (s_events s) → 0 ≤ savedVersion w → savedVersion w ≤ target ≤ Version s → job_ok w s j target →
  durable d (upto s (savedVersion w)) → do_job ops j d r d' → grows d d' ∧ (r = None → durable d' (upto s target)).
Proof.
  intros Hg H0 Hv Hj (l & Hl & Hpre) Hd.
  assert (∀ v, Forall good (upto s v)) as Hgood by (intros; by apply Forall_take).
  assert (Z.of_nat (length l) = savedVersion w → l = upto s (savedVersion w)) as Hall.
  { destruct Hpre as (more & ->). rewrite length_app. pose proof (upto_length s (savedVersion w)). destruct more; [by rewrite app_nil_r|cbn; lia]. }
  assert (∃ evs, upto s target = upto s (savedVersion w) ++ evs ∧ wrote l (savedVersion w) evs r (contents d')) as (evs & Hevs & Hw).
  { destruct j as [f v evs|i v evs|snapshot v]; cbn in Hj, Hd; destruct Hj as (<- & -> & Hj).
    - destruct (so_AppendEventsFenced ops) as [append|] eqn:E; [|done]. exists evs. split; [done|]. eapply law_fenced; [done..| |exact Hd].
      apply (Forall_app_1 good (upto s (savedVersion w))). rewrite <- Hj. apply Hgood.
    - destruct (so_AppendEvents ops) as [append|] eqn:E; [|done]. exists evs. split; [done|]. eapply law_append; [done..| |exact Hd].
      apply (Forall_app_1 good (upto s (savedVersion w))). rewrite <- Hj. apply Hgood.
    - destruct (upto_le s (savedVersion w) target) as (evs & Hevs); [lia|]. exists evs. split; [done|].
      eapply law_save; [done|done|rewrite Hj; apply Hgood| |exact Hd]. intros Hlen. rewrite Hj, Hevs. f_equal. symmetry. apply Hall. lia. }
  assert (∃ more, contents d' (l ++ more) ∧ (r = None → upto s target `prefix_of` l ++ more)) as (more & Hc & Hp).
  { unfold wrote in Hw. destruct r as [e|].
    - destruct Hw as [Hw|[_ Hw]]; [exists []; by rewrite app_nil_r|by exists evs].
    - destruct Hw as [[-> Hw]|[Hlen Hw]]; [exists []; rewrite !app_nil_r in *; rewrite Hevs; auto|].
      exists evs. split; [done|]. intros _. rewrite Hevs, <- Hall by lia. reflexivity. }
  split; [|intros Hr; exists (l ++ more); auto]. intros l' Hl'. rewrite (law_contents d l' l Hl' Hl). eauto.
Qed.

(** ** A thread's region *)

(** Who writes before and after a region. *)
Definition handover (w w' : WriteBehind) (p p' : thread) : Prop :=
  (busy p' = busy p ∧ flushing w' = flushing w)
  ∨ (busy p = false ∧ flushing w = false ∧ busy p' = true ∧ flushing w' = true)
  ∨ (busy p = true ∧ busy p' = false ∧ flushing w' = false).

Record region_ok (w : WriteBehind) (s : Session) (d : D) (p : thread) (w' : WriteBehind) (d' : D) (p' : thread) : Prop := {
  r_frame : frame w s d w' s d';
  r_thread : thread_ok w' s d' p';
  r_saved : savedVersion w' = savedVersion w ∨ (busy p = true ∧ savedVersion w' ≤ Version s ∧ durable d' (upto s (savedVersion w')));
  r_handover : handover w w' p p' }.

Lemma region_idle w s d p w' p' :
  key_of w' = key_of w → busy p' = busy p → thread_ok w s d p' → region_ok w s d p w' d p'.
Proof.
  intros Hc Hb Hok. pose proof (frame_key w s d w' Hc) as F. unfold key_of in Hc. injection Hc as _ Hs Hd Hf.
  split; [done| |by left|by left].
  destruct p' as [|n|n ch| | | | |[n|]|[n|] v|[n|] j v|[n|] v [e|]|[n|] [e|]| |]; cbn in *; unfold waits_ok in *; rewrite ?Hs, ?Hd; try done; destruct j; cbn in *; by rewrite ?Hs.
Qed.

Lemma back_return w s d k : back_ok w s k → thread_ok w s d (once_return k).
Proof. by destruct k. Qed.
Lemma busy_return k : busy (once_return k) = false.
Proof. by destruct k. Qed.

Lemma finish_ok w s d k target r w' o :
  0 ≤ savedVersion w ≤ Version s → thread_ok w s d (AtFinish k target r) → once_finish target (Version s) r w = (w', o) →
  region_ok w s d (AtFinish k target r) w' d (once_return k).
Proof.
  intros Hv Hok H. pose proof (core_finish _ _ _ _ _ _ H) as Hc. unfold core_of in Hc. destruct r as [e|]; injection Hc as Hcf Hsv Hdt Hfl _ _ _.
  - assert (frame w s d w' s d) as F by (split; [done|reflexivity|lia|rewrite Hdt; by left|apply grows_refl]).
    split; [done|apply back_return; by eapply back_frame|by left|right; right; rewrite busy_return; done].
  - destruct Hok as (Hk & Ht & Hd).
    assert (frame w s d w' s d) as F.
    { split; [done|reflexivity|lia| |apply grows_refl]. intros _. rewrite Hdt, Hsv. destruct (Z.ltb_spec target (Version s)); [by left|by right]. }
    split; [done|apply back_return; by eapply back_frame| |right; right; rewrite busy_return; done].
    right. rewrite Hsv. split_and!; [done|lia|done].
Qed.

Lemma thread_step_ok w s d p w' d' p' :
  s_id s = id → (∀ f, w_fence (w_config w) = Some f → fn_SessionID f = id) → Forall good (s_events s) → 0 ≤ savedVersion w ≤ Version s →
  durable d (upto s (savedVersion w)) → (flushing w = false → busy p = false) → thread_ok w s d p →
  thread_step ops s w d p w' d' p' → region_ok w s d p w' d' p'.
Proof.
  intros Hid Hf Hg Hv Hst Hfl Hok H.
  destruct H as [w d cw w' H|w d cw r w' H|w d n r H|w d n ch H|w d n H|w d n ch H|w d n ch e|w d|w d r H|w d ch H|w d ch H|w d ch e|w d i|w d k w' H|w d k v w' H|w d k v j target H|w d k v target e H|w d k j target r d' H|w d k target r w' o H].
  - apply core_flush_enter in H as [(_ & ? & _)|[_ Hc]]; [done|]. unfold core_of in Hc. injection Hc as Hcf Hsv Hdt Hfw _ _ _.
    split.
    + split; [done|reflexivity|lia|intros Hd; rewrite Hdt, Hd, orb_true_r; by left|apply grows_refl].
    + cbn. unfold waits_ok. rewrite Hsv, Hdt. split; [lia|]. destruct (Z.ltb_spec (savedVersion w) (Version s)); [by right|by left].
    + by left.
    + by left.
  - apply core_flush_enter in H as [(-> & _)|[? _]]; [|done]. by apply region_idle.
  - apply region_idle; [done..|]. unfold flush_turn in H. cbn in *. destruct (lastErr w); [by injection H as <-|].
    destruct (dirty w) eqn:E; [by destruct (flushing w)|]. injection H as <-. destruct Hok as [? [?|?]]; [done|congruence].
  - by apply region_idle.
  - by apply region_idle.
  - by apply region_idle.
  - by apply region_idle.
  - unfold abort_enter. apply region_idle; [|done..]. transitivity (key_of (set_closed w)); [|done]. apply core_key, core_stop.
  - by apply region_idle.
  - by apply region_idle.
  - by apply region_idle.
  - by apply region_idle.
  - apply region_idle; [|done..]. apply core_key, core_callback.
  - unfold once_enter in H. destruct (negb (dirty w) || flushing w); [|done]. injection H as <-. apply region_idle; [done|apply busy_return|by apply back_return].
  - unfold once_enter in H. destruct (negb (dirty w) || flushing w) eqn:E; [done|]. injection H as <- <-. apply orb_false_iff in E as [_ E].
    assert (frame w s d (set_flushing true w) s d) as F by (split; [done|reflexivity|cbn; lia|by left|apply grows_refl]).
    split; [done|split; [by eapply back_frame|done]|by left|by right; left].
  - destruct Hok as [Hk ->]. apply region_idle; [done..|]. split; [done|]. by apply prepare_job_ok.
  - destruct Hok as [Hk ->]. by apply region_idle.
  - destruct Hok as (Hk & Ht & Hj). destruct (do_job_ok _ _ _ _ _ _ _ Hg (proj1 Hv) Ht Hj Hst H) as [Hgr Hdur].
    assert (frame w s d w s d') as F by (split; [done|reflexivity|lia|by left|done]).
    split; [done| |by left|by left]. destruct r; cbn; [by eapply back_frame|]. split_and!; [by eapply back_frame|lia..|auto].
  - by eapply finish_ok.
Qed.

(** ** Every step *)

Definition some_busy (ts : gmap nat thread) : Prop := ∃ t p, ts !! t = Some p ∧ busy p = true.

Lemma busy_insert (ts : gmap nat thread) t p p' : ts !! t = Some p → busy p' = busy p → some_busy (<[t := p']> ts) ↔ some_busy ts.
Proof.
  intros Ht Hb. split; intros (t' & q & Hq & Bq).
  - apply lookup_insert_Some in Hq as [[<- <-]|[Hne Hq]]; [exists t, p; by rewrite <- Hb|by exists t', q].
  - destruct (decide (t' = t)) as [->|Hne]; [exists t, p'; rewrite lookup_insert_eq; split; congruence|exists t', q; by rewrite lookup_insert_ne].
Qed.
Lemma busy_fresh (ts : gmap nat thread) t p : ts !! t = None → busy p = false → some_busy (<[t := p]> ts) ↔ some_busy ts.
Proof.
  intros Ht Hb. split; intros (t' & q & Hq & Bq).
  - apply lookup_insert_Some in Hq as [[<- <-]|[Hne Hq]]; [congruence|by exists t', q].
  - exists t', q. rewrite lookup_insert_ne; [done|congruence].
Qed.

Lemma writer_inv_thread w s d ts t p w' d' p' :
  writer_inv (mk_system w s d ts) → ts !! t = Some p → thread_step ops s w d p w' d' p' → writer_inv (mk_system w' s d' (<[t := p']> ts)).
Proof.
  intros [Hid Hf Hg Hv Hst Hts Hone Hfl] Ht H. cbn in *.
  assert (flushing w = false → busy p = false) as Hnb.
  { intros E. destruct (busy p) eqn:Eb; [|done]. rewrite (proj2 Hfl) in E by eauto. done. }
  destruct (thread_step_ok _ _ _ _ _ _ _ Hid Hf Hg Hv Hst Hnb (Hts _ _ Ht) H) as [F Hok Hsv Hh].
  pose proof F as [Hcf _ Hle _ Hgr].
  assert (∀ t' q, t' ≠ t → ts !! t' = Some q → busy p = true → busy q = false) as Hother.
  { intros t' q Hne Hq Hb. destruct (busy q) eqn:E; [|done]. destruct Hne. by eapply Hone. }
  split; cbn.
  - done.
  - by rewrite Hcf.
  - done.
  - destruct Hsv as [->|(_ & ? & _)]; lia.
  - destruct Hsv as [->|(_ & _ & ?)]; [by eapply durable_grows|done].
  - intros t' q. destruct (decide (t' = t)) as [->|Hne]; [rewrite lookup_insert_eq; by intros [=<-]|rewrite lookup_insert_ne by done].
    intros Hq. eapply thread_frame; [exact F| |done|by eapply Hts]. destruct Hsv as [?|(Hb & _)]; [by left|right; eauto].
  - intros t1 t2 q1 q2. rewrite !lookup_insert_Some. intros [[<- <-]|[N1 H1]] [[<- <-]|[N2 H2]] B1 B2; [done| | |by eapply Hone].
    + destruct Hh as [[E _]|[(Hb & Hfw & _)|(_ & Hb & _)]]; [| |congruence].
      * eapply Hone; [exact Ht|exact H2|congruence|done].
      * exfalso. rewrite (proj2 Hfl) in Hfw by eauto. done.
    + destruct Hh as [[E _]|[(Hb & Hfw & _)|(_ & Hb & _)]]; [| |congruence].
      * eapply Hone; [exact H1|exact Ht|done|congruence].
      * exfalso. rewrite (proj2 Hfl) in Hfw by eauto. done.
  - destruct Hh as [[E ->]|[(_ & _ & Hb & ->)|(Hb & Hb' & ->)]].
    + rewrite Hfl. symmetry. by eapply busy_insert.
    + split; [|done]. intros _. exists t, p'. by rewrite lookup_insert_eq.
    + split; [done|]. intros (t' & q & Hq & Bq). apply lookup_insert_Some in Hq as [[_ <-]|[Hne Hq]]; [congruence|]. rewrite (Hother t' q) in Bq; done.
Qed.

(** The producer, other writers and the runtime. *)
Lemma writer_inv_frame w s d ts w' s' d' :
  writer_inv (mk_system w s d ts) → frame w s d w' s' d' → savedVersion w' = savedVersion w → flushing w' = flushing w →
  s_id s' = s_id s → Forall good (s_events s') → writer_inv (mk_system w' s' d' ts).
Proof.
  intros [Hid Hf Hg Hv Hst Hts Hone Hfl] F Hsv Hfw Hid' Hg'. cbn in *. pose proof F as [Hcf Hl _ _ Hgr]. pose proof (prefix_version _ _ Hl).
  split; cbn.
  - congruence.
  - by rewrite Hcf.
  - done.
  - lia.
  - rewrite Hsv, (upto_prefix s s') by (done || lia). by eapply durable_grows.
  - intros t p Hp. eapply thread_frame; [exact F|by left|done|by eapply Hts].
  - exact Hone.
  - by rewrite Hfw.
Qed.

Lemma writer_inv_spawn w s d ts t p :
  writer_inv (mk_system w s d ts) → ts !! t = None → busy p = false → thread_ok w s d p → writer_inv (mk_system w s d (<[t := p]> ts)).
Proof.
  intros [Hid Hf Hg Hv Hst Hts Hone Hfl] Ht Hb Hok. cbn in *. split; cbn; [done..| | |].
  - intros t' q [[_ <-]|[_ Hq]]%lookup_insert_Some; [done|by eapply Hts].
  - intros t1 t2 q1 q2 [[_ <-]|[_ H1]]%lookup_insert_Some [[_ <-]|[_ H2]]%lookup_insert_Some B1 B2; [congruence..|by eapply Hone].
  - rewrite Hfl. symmetry. by apply busy_fresh.
Qed.

Lemma writer_inv_step y y' : writer_inv y → sstep y y' → writer_inv y'.
Proof.
  intros Hi H. destruct H as [w s d ts t p w' d' p' Ht H|w s d ts t i Hi' Ht|w s d ts t cw Ht|w s d ts t Ht|w s d ts|w s d ts o|w s d ts clock entries s' events Ha Hg|w s d ts d' Ho].
  - by eapply writer_inv_thread.
  - apply writer_inv_spawn; [|done..]. eapply writer_inv_frame; [exact Hi|by apply frame_key|done..|apply (v_good _ Hi)].
  - by apply writer_inv_spawn.
  - by apply writer_inv_spawn.
  - pose proof (core_mark w) as Hc. eapply writer_inv_frame; [exact Hi| | | |done|apply (v_good _ Hi)].
    + destruct (closed w); [apply frame_key, core_key, Hc|]. unfold core_of in Hc. injection Hc as ?????. split; [done|reflexivity|lia|by left|apply grows_refl].
    + unfold core_of in Hc. by destruct (closed w); injection Hc.
    + unfold core_of in Hc. by destruct (closed w); injection Hc.
  - eapply writer_inv_frame; [exact Hi|by apply frame_key|done..|apply (v_good _ Hi)].
  - pose proof (appendBatch_id _ _ _ _ _ Ha) as Hid. apply appendBatch_ok in Ha as (ps & _ & _ & _ & _ & Hev).
    eapply writer_inv_frame; [exact Hi| |done..| |].
    + split; [done|rewrite Hev; by apply prefix_app_r|lia|by left|apply grows_refl].
    + done.
    + rewrite Hev. apply Forall_app. split; [apply (v_good _ Hi)|done].
  - eapply writer_inv_frame; [exact Hi| |done..|apply (v_good _ Hi)]. split; [done|reflexivity|lia|by left|done].
Qed.

Lemma writer_inv_steps y y' : rtc sstep y y' → writer_inv y → writer_inv y'.
Proof. induction 1; eauto using writer_inv_step. Qed.

(** A new writer over a store that holds the session up to the start version. *)
Definition started (fence : option SessionWriteFence) (delay : Z) (y : system) : Prop :=
  ∃ start, y = mk_system (new_writer fence start delay) (sy_session y) (sy_store y) ∅ ∧ 0 ≤ start ≤ Version (sy_session y)
    ∧ s_id (sy_session y) = id ∧ (∀ f, fence = Some f → fn_SessionID f = id) ∧ Forall good (s_events (sy_session y))
    ∧ durable (sy_store y) (upto (sy_session y) start).

Lemma started_inv fence delay y : started fence delay y → writer_inv y.
Proof.
  intros (start & -> & Hv & Hid & Hf & Hg & Hd). split; cbn in *; [done..| | |].
  - intros t p. by rewrite lookup_empty.
  - intros t t' p p'. by rewrite lookup_empty.
  - split; [done|]. intros (t & p & Hp & _). by rewrite lookup_empty in Hp.
Qed.

(** ** Work that is pending *)

Definition pending (p : thread) : bool := match p with AtTimer _ | AtOnce _ | AtLoop _ => true | _ => false end.

(** The writer runs in the background and has work to do. *)
Definition owes_flush (w : WriteBehind) : bool :=
  dirty w && negb (flushing w) && negb (backgroundDisabled (w_config w)) && negb (closed w) && negb (bool_decide (is_Some (lastErr w))).

Definition channel_of (p : thread) : option nat := match p with AtWait _ ch | AtAbortWait ch => Some ch | _ => None end.

Record live_inv (y : system (D := D)) : Prop := {
  l_timer i : timer (sy_writer y) = Some i → i ∈ armed (sy_writer y) ∨ ∃ t, sy_threads y !! t = Some (AtTimer i);
  l_pending : owes_flush (sy_writer y) = true → is_Some (timer (sy_writer y)) ∨ ∃ t p, sy_threads y !! t = Some p ∧ pending p = true;
  l_wait t p ch : sy_threads y !! t = Some p → channel_of p = Some ch → (ch < changed (sy_writer y))%nat ∨ (ch = changed (sy_writer y) ∧ flushing (sy_writer y) = true) }.


Lemma owes_spec w :
  owes_flush w = true → dirty w = true ∧ flushing w = false ∧ backgroundDisabled (w_config w) = false ∧ closed w = false ∧ lastErr w = None.
Proof. unfold owes_flush. intros H. bool_to_prop. split_and!; try done. by apply eq_None_not_Some. Qed.

(** What a region of one thread does to the timers and the channel. *)
Record live_region (w : WriteBehind) (p : thread) (w' : WriteBehind) (p' : thread) : Prop := {
  lr_timer i : timer w' = Some i → i ∈ armed w' ∨ (timer w = Some i ∧ armed w' = armed w ∧ p ≠ AtTimer i);
  lr_pending : owes_flush w' = true → is_Some (timer w') ∨ pending p' = true ∨ (owes_flush w = true ∧ timer w' = timer w ∧ pending p = false);
  lr_wait ch : channel_of p' = Some ch → (ch < changed w')%nat ∨ (ch = changed w' ∧ flushing w' = true);
  lr_changed : (changed w < changed w')%nat ∨ (changed w' = changed w ∧ (flushing w = true → flushing w' = true)) }.

(** A region that leaves the writer as it was. *)
Lemma live_same w p p' :
  (∀ i, p ≠ AtTimer i) → (owes_flush w = true → pending p' = true ∨ pending p = false) →
  (∀ ch, channel_of p' = Some ch → ch = changed w ∧ flushing w = true) → live_region w p w p'.
Proof. intros Hp Ho Hc. split; [auto|intros H; destruct (Ho H); auto|auto|auto]. Qed.

Lemma stop_timer_none w : timer (stop_timer w) = None.
Proof. unfold stop_timer. destruct (timer w) eqn:E; [done|exact E]. Qed.
Lemma schedule_timer w i : timer (scheduleLocked w) = Some i → i ∈ armed (scheduleLocked w) ∨ (timer w = Some i ∧ scheduleLocked w = w).
Proof. unfold scheduleLocked. destruct (_ || _); [by right|]. cbn. intros [=<-]. left. set_solver. Qed.
Lemma schedule_owes w : owes_flush (scheduleLocked w) = true → is_Some (timer (scheduleLocked w)).
Proof.
  intros H. unfold scheduleLocked in *. destruct (_ || _) eqn:E; [|by eexists]. unfold owes_flush in H. bool_to_prop.
  repeat match goal with H : ?a || ?b = true |- _ => apply orb_true_iff in H as [H|H] end; bool_to_prop; try congruence.
Qed.

Lemma finish_live target v r w w' o k :
  once_finish target v r w = (w', o) → live_region w (AtFinish k target r) w' (once_return k).
Proof.
  intros H. pose proof (core_finish _ _ _ _ _ _ H) as Hc. unfold core_of in Hc. unfold once_finish in H.
  assert (changed w' = S (changed w)) as Hn by (destruct r; congruence). clear Hc.
  assert (∀ ch, channel_of (once_return k) = Some ch → False) as Hno by (by destruct k). destruct r as [e|].
  - assert (timer w' = timer w ∧ armed w' = armed w ∧ is_Some (lastErr w')) as (Ht & Ha & He).
    { cbn in H. destruct (lastErr w) eqn:E; injection H as <- <-; cbn; split_and!; rewrite ?E; done. }
    split; [|intros Ho; exfalso; unfold owes_flush in Ho; bool_to_prop; done|intros ch Hch; by destruct (Hno ch)|left; rewrite Hn; lia].
    intros i Hi. right. rewrite <- Ht. done.
  - injection H as <- _. set (u := set_dirty _ _) in *. split; [| |intros ch Hch; by destruct (Hno ch)|left; rewrite Hn; lia].
    + intros i Hi. cbn in Hi |- *. apply schedule_timer in Hi as [Hi|[Hi _]]; [by left|]. by rewrite stop_timer_none in Hi.
    + intros Ho. left. apply schedule_owes. exact Ho.
Qed.

Lemma thread_live s w d p w' d' p' : thread_step ops s w d p w' d' p' → live_region w p w' p'.
Proof.
  intros H.
  destruct H as [w d cw w' H|w d cw r w' H|w d n r H|w d n ch H|w d n H|w d n ch H|w d n ch e|w d|w d r H|w d ch H|w d ch H|w d ch e|w d i|w d k w' H|w d k v w' H|w d k v j target H|w d k v target e H|w d k j target r d' H|w d k target r w' o H].
  - pose proof H as Hc. apply core_flush_enter in Hc as [(_ & ? & _)|[_ Hc]]; [done|]. unfold core_of in Hc. injection Hc as _ _ _ Hf _ _ Hch.
    unfold flush_enter in H. destruct (_ && _); [done|]. injection H as <-. split; [intros i; by rewrite stop_timer_none|by right; left|done|right; split; congruence].
  - apply core_flush_enter in H as [(-> & _)|[? _]]; [|done]. by apply live_same; auto.
  - apply live_same; [done| |done]. intros (Hd & Hf & _ & _ & He)%owes_spec. unfold flush_turn in H. by rewrite He, Hd, Hf in H.
  - unfold flush_turn in H. destruct (lastErr w) eqn:He; [done|]. destruct (dirty w); [|done]. destruct (flushing w) eqn:Hf; [|done]. injection H as <-.
    apply live_same; [done| |by intros ? [=<-]]. intros (_ & ? & _)%owes_spec. congruence.
  - apply live_same; auto; done.
  - apply live_same; auto; done.
  - apply live_same; auto; done.
  - unfold abort_enter. assert (core_of (stop_timer (set_closed w)) = core_of (set_closed w)) as Hc by apply core_stop. unfold core_of in Hc. injection Hc as _ _ _ Hf _ Hcl Hch.
    split; [intros i; by rewrite stop_timer_none| |done|right; by split; [|congruence]]. intros (_ & _ & _ & ? & _)%owes_spec. congruence.
  - apply live_same; auto; done.
  - unfold abort_turn in H. destruct (flushing w) eqn:Hf; [|done]. injection H as <-. apply live_same; [done|by right|by intros ? [=<-]].
  - apply live_same; auto; done.
  - apply live_same; auto; done.
  - assert (core_of (timer_callback i w) = core_of w) as Hc by apply core_callback. unfold core_of in Hc. injection Hc as _ _ _ Hf _ _ Hch.
    split; [|by right; left|done|right; by split; [|congruence]]. intros i' Hi. unfold timer_callback in *. case_bool_decide as Ht; [done|]. right. split_and!; [done..|congruence].
  - unfold once_enter in H. destruct (negb (dirty w) || flushing w) eqn:E; [|done]. injection H as <-. apply live_same; [done| |by destruct k].
    intros (Hd & Hf & _)%owes_spec. by rewrite Hd, Hf in E.
  - unfold once_enter in H. destruct (negb (dirty w) || flushing w) eqn:E; [done|]. injection H as <- <-. split; cbn; [by right| |done|by right].
    intros (_ & Hf & _)%owes_spec. done.
  - apply live_same; auto; done.
  - apply live_same; auto; done.
  - apply live_same; auto; done.
  - by eapply finish_live.
Qed.

Lemma live_thread w s d ts t p w' d' p' :
  live_inv (mk_system w s d ts) → ts !! t = Some p → live_region w p w' p' → live_inv (mk_system w' s d' (<[t := p']> ts)).
Proof.
  intros [Ht Ho Hw] Hp [Rt Ro Rw Rc]. cbn in *. split; cbn.
  - intros i Hi. destruct (Rt i Hi) as [?|(Ht' & Ha & Hne)]; [by left|]. destruct (Ht i Ht') as [?|(t' & Ht'')]; [left; congruence|].
    right. exists t'. rewrite lookup_insert_ne; [done|congruence].
  - intros H. destruct (Ro H) as [?|[?|(Ho' & Htm & Hnp)]]; [by left|right; exists t, p'; by rewrite lookup_insert_eq|].
    destruct (Ho Ho') as [?|(t' & q & Hq & Pq)]; [left; congruence|]. right. exists t', q. rewrite lookup_insert_ne; [done|congruence].
  - intros t' q ch [[_ <-]|[_ Hq]]%lookup_insert_Some Hch; [by apply Rw|].
    destruct (Hw _ _ _ Hq Hch) as [?|[-> ?]]; destruct Rc as [?|[Hc ?]]; rewrite ?Hc; auto with lia.
Qed.

(** Steps outside the threads, and new threads. *)
Lemma live_spawn w s d ts t p : live_inv (mk_system w s d ts) → ts !! t = None → channel_of p = None → live_inv (mk_system w s d (<[t := p]> ts)).
Proof.
  intros [Ht Ho Hw] Hn Hc. cbn in *.
  assert (∀ t' q, ts !! t' = Some q → <[t := p]> ts !! t' = Some q) as Hk by (intros t' q Hq; rewrite lookup_insert_ne; [done|congruence]).
  split; cbn; [naive_solver|naive_solver|]. intros t' q ch [[_ <-]|[_ Hq]]%lookup_insert_Some Hch; [congruence|by eapply Hw].
Qed.

Lemma live_fire w s d ts t i :
  live_inv (mk_system w s d ts) → ts !! t = None → live_inv (mk_system (set_timer (timer w) (armed w ∖ {[i]}) w) s d (<[t := AtTimer i]> ts)).
Proof.
  intros H Hn. apply (live_spawn _ _ _ _ t (AtTimer i)) in H as [Ht Ho Hw]; [|done..]. cbn in *. split; cbn; [|exact Ho|exact Hw].
  intros i' Hi. destruct (decide (i' = i)) as [->|Hne]; [right; exists t; apply lookup_insert_eq|]. destruct (Ht i' Hi); [left; set_solver|by right].
Qed.

Lemma live_mark w s d ts : live_inv (mk_system w s d ts) → live_inv (mk_system (MarkDirty w) s d ts).
Proof.
  intros [Ht Ho Hw]. cbn in *. unfold MarkDirty. destruct (closed w) eqn:E; [by split|].
  assert (core_of (scheduleLocked (set_dirty true w)) = core_of (set_dirty true w)) as Hc by apply core_schedule.
  unfold core_of in Hc. injection Hc as _ _ _ Hf _ _ Hch. split; cbn.
  - intros i Hi. apply schedule_timer in Hi as [?|[Hi Heq]]; [by left|]. rewrite Heq. exact (Ht i Hi).
  - intros H. left. by apply schedule_owes.
  - intros t p ch Hp Hc'. rewrite Hf, Hch. by eapply Hw.
Qed.

Lemma live_inv_step y y' : live_inv y → sstep y y' → live_inv y'.
Proof.
  intros Hi H. destruct H as [w s d ts t p w' d' p' Ht H|w s d ts t i Hi' Ht|w s d ts t cw Ht|w s d ts t Ht|w s d ts|w s d ts o|w s d ts clock entries s' events Ha Hg|w s d ts d' Ho].
  - apply (live_thread w s d ts t p); [done..|]. by eapply thread_live.
  - by apply live_fire.
  - by apply live_spawn.
  - by apply live_spawn.
  - by apply live_mark.
  - by destruct Hi.
  - by destruct Hi.
  - by destruct Hi.
Qed.

Lemma live_inv_steps y y' : rtc sstep y y' → live_inv y → live_inv y'.
Proof. induction 1; eauto using live_inv_step. Qed.

Lemma started_live fence delay y : started fence delay y → live_inv y.
Proof. intros (start & -> & _). split; cbn; [done..|]. intros t p ch Hp. by rewrite lookup_empty in Hp. Qed.

End inv.
