(* ===== verification/WriterClaims.v ===== *)
(** * What the write-behind flusher promises

    The SQL session store and the memory store discharge the contract of the
    flusher; the properties follow from the contract. *)
From S2P Require Import Prelude GoString Json Payload Events Message Session SessionLog SessionClaims SessionStore ControlDb RunControl ControlJson SqlSession SessionFence RunSystem ControlExamples FenceFacts FenceClaims Turn WriteBehind WriterInv.
From stdpp Require Import gmap strings list relations.
From Stdlib Require Import ZArith Lia.
Open Scope Z_scope.

(** ** The SQL session store *)

(** The transaction's outcome as the caller sees it: its answer, or the error of
    a cancelled context or a lost connection, after which a transaction that
    succeeded may have been committed. *)
Definition err_of {A} (r : result A) : option string := match r with Ok _ => None | Err e => Some e end.
Definition outcome {D} (ran : result unit * D) : store_op D :=
  λ d r d', (r = err_of ran.1 ∧ d' = ran.2) ∨ (∃ e, r = Some e ∧ (d' = d ∨ (ran.1 = Ok tt ∧ d' = ran.2))).

Definition sql_ops (s : SQLSessionStore) : SessionStoreOps Db :=
  mk_ops Db
    (λ session v d r d', ∃ now, outcome (sql_Save s session v now d) d r d')
    (Some (λ session v events d r d', ∃ now, outcome (AppendEvents s session v events now d) d r d'))
    (Some (λ f v events d r d', ∃ t0 t1 t2, outcome (appendEventsFenced s f v events t0 t1 t2 d) d r d')).

Definition sql_contents (id : string) (d : Db) (l : list SessionEvent) : Prop := ∃ header, stored d id header l.

(** A transaction that appends [evs] or does nothing. *)
Lemma outcome_wrote {D} (contents : D → list SessionEvent → Prop) (ran : result unit * D) d r d' l v evs :
  contents d l →
  (∀ e, ran.1 = Err e → ran.2 = d) →
  (ran.1 = Ok tt → (evs = [] ∧ contents ran.2 l) ∨ (v = Z.of_nat (length l) ∧ contents ran.2 (l ++ evs))) →
  outcome ran d r d' → wrote l v evs r (contents d').
Proof.
  intros Hl Herr Hok. destruct ran as [[[]|e] dn]; cbn in *; unfold outcome; cbn.
  - intros [[-> ->]|(e & -> & [->|[_ ->]])]; cbn; [by apply Hok|by left|]. destruct (Hok eq_refl) as [[_ ?]|?]; auto.
  - rewrite (Herr e eq_refl). intros [[-> ->]|(e' & -> & [->|[? _]])]; [by left|by left|done].
Qed.

Lemma stored_det d id h h' l l' : stored d id h l → stored d id h' l' → l = l'.
Proof. intros (r & _ & _ & _ & H) (r' & _ & _ & _ & H'). congruence. Qed.

Lemma AppendEvents_rollback s id v evs now d e d' : AppendEvents s id v evs now d = (Err e, d') → d' = d.
Proof. unfold AppendEvents. repeat destruct_match_goal; naive_solver. Qed.

Lemma AppendEvents_wrote s id v evs now d d' l :
  sql_contents id d l → Forall (λ e, event_stable e = true) evs → AppendEvents s id v evs now d = (Ok tt, d') →
  v = Z.of_nat (length l) ∧ sql_contents id d' (l ++ evs).
Proof.
  intros (h & Hst) Hg H. assert (forallb event_stable evs = true) as Hst' by (apply forallb_forall; intros x Hx; rewrite Forall_forall in Hg; apply Hg; by apply list_elem_of_In).
  destruct evs as [|e evs].
  - rewrite app_nil_r. unfold AppendEvents in H. destruct (ValidateSessionID id); [|done]. cbn [validateAppendEvents] in H.
    destruct Hst as (row & Hrow & Hv & Hh & Hd). rewrite Hrow in H. destruct (sn_version row =? v) eqn:E; [|done]. apply Z.eqb_eq in E. cbn [negb] in H.
    rewrite Z.eqb_refl in H. injection H as <-. split; [lia|]. exists h, (set_tip (v + 0) (UnixMilli now) row). cbn.
    rewrite lookup_insert_eq. split_and!; [done|lia|done|done].
  - apply AppendEvents_ok in H as (row & options & d1 & d2 & Hid & Hrow & Hv & Hc & He & ->); [|done].
    assert (v = Z.of_nat (length l)) as ->. { destruct Hst as (r & Hr & Hvr & _). rewrite Hrow in Hr. injection Hr as <-. lia. }
    split; [done|]. exists h. exact (proj1 (tip_stored _ _ _ _ _ _ _ _ _ _ row (UnixMilli now) Hst Hst' Hc He Hrow)).
Qed.

Lemma fenced_rollback s f v evs t0 t1 t2 d e d' : appendEventsFenced s f v evs t0 t1 t2 d = (Err e, d') → d' = d.
Proof.
  unfold appendEventsFenced. destruct (validateFencedAppend _ _ _); [|naive_solver]. destruct evs; [naive_solver|].
  destruct (fenced_options _ _ _ _ _ _); [apply write_fenced_rollback|naive_solver].
Qed.

Lemma fenced_wrote s f v evs t0 t1 t2 d d' l :
  sql_contents (fn_SessionID f) d l → Forall (λ e, event_stable e = true) evs → appendEventsFenced s f v evs t0 t1 t2 d = (Ok tt, d') →
  (evs = [] ∧ sql_contents (fn_SessionID f) d' l) ∨ (v = Z.of_nat (length l) ∧ sql_contents (fn_SessionID f) d' (l ++ evs)).
Proof.
  intros (h & Hst) Hg. assert (forallb event_stable evs = true) as Hst' by (apply forallb_forall; intros x Hx; rewrite Forall_forall in Hg; apply Hg; by apply list_elem_of_In).
  unfold appendEventsFenced. destruct (validateFencedAppend _ _ _); [|done]. destruct evs as [|e evs]; [intros [=<-]; left; split; [done|by exists h]|].
  remember (e :: evs) as es. destruct (fenced_options _ _ _ _ _ _) as [options|]; [|done].
  intros (d1 & d2 & row & Hc & He & Hrow & Hm & _ & ->)%write_fenced_ok. right.
  assert (v = Z.of_nat (length l)) as ->.
  { destruct Hst as (r & Hr & Hvr & _). rewrite Hrow in Hr. injection Hr as <-. unfold session_matches in Hm. bool_to_prop. lia. }
  split; [done|]. exists h. exact (proj1 (tip_stored _ _ _ _ _ _ _ _ _ _ row t2 Hst Hst' Hc He Hrow)).
Qed.

#[export] Instance sql_laws s id : SinkLaws (sql_ops s) id (λ e, event_stable e = true) (sql_contents id).
Proof.
  split.
  - intros d l l' (h & H) (h' & H'). by eapply stored_det.
  - intros append v evs d r d' l [=<-] Hl Hg (now & Ho). eapply outcome_wrote; [done| | |exact Ho].
    + intros e He. eapply AppendEvents_rollback. by rewrite <- He, <- surjective_pairing.
    + intros He. right. eapply AppendEvents_wrote; [done..|]. by rewrite <- He, <- surjective_pairing.
  - intros append f v evs d r d' l [=<-] <- Hl Hg (t0 & t1 & t2 & Ho). eapply outcome_wrote; [done| | |exact Ho].
    + intros e He. eapply fenced_rollback. by rewrite <- He, <- surjective_pairing.
    + intros He. eapply fenced_wrote; [done..|]. by rewrite <- He, <- surjective_pairing.
  - intros x v evs d r d' l <- Hl Hg Hx (now & Ho). eapply outcome_wrote; [done| | |exact Ho]; unfold sql_Save in *.
    + intros e He. destruct (Version x <? v); [done|]. eapply AppendEvents_rollback. by rewrite <- He, <- surjective_pairing.
    + intros He. right. destruct (Version x <? v) eqn:E; [done|].
      assert (Forall (λ e, event_stable e = true) (EventsFrom x v)) as Hgf by (unfold EventsFrom; destruct (_ || _); [done|by apply Forall_drop]).
      destruct (AppendEvents_wrote s (s_id x) v (EventsFrom x v) now d _ l Hl Hgf (eq_trans (surjective_pairing _) (f_equal2 pair He eq_refl))) as [Hv Hc].
      split; [done|]. assert (EventsFrom x v = evs) as <-; [|done]. unfold EventsFrom. rewrite Hv. rewrite (proj2 (Z.ltb_ge _ 0)) by lia.
      rewrite (Hx Hv). unfold Version, s_len in *. rewrite (Hx Hv), length_app in *. rewrite (proj2 (Z.ltb_ge _ _)) by lia. cbn [orb]. by rewrite Nat2Z.id, drop_app_length.
Qed.

(** ** The memory store *)

Definition memory_ops : SessionStoreOps MemorySessionStore :=
  mk_ops MemorySessionStore
    (λ session v d r d', match store_Save d session v with Ok st => r = None ∧ d' = st | Err e => r = Some e ∧ d' = d end)
    None None.

Definition memory_contents (id : string) (d : MemorySessionStore) (l : list SessionEvent) : Prop :=
  ∃ s, sessions d !! id = Some s ∧ s_events s = l.

#[export] Instance memory_laws id : SinkLaws memory_ops id (λ _, True) (memory_contents id).
Proof.
  split; [intros d l l' (s & H & <-) (s' & H' & <-); congruence|done|done|].
  intros s v evs d r d' l <- (old & Ho & <-) _ Hx H. cbn in H. destruct (store_Save d s v) as [st|e] eqn:E; destruct H as [-> ->].
  - right. unfold store_Save in E. apply rbind_ok in E as (c & Hc & E). rewrite Ho in E. apply fail_if_ok in E as [Hv [=<-]]. bool_to_prop.
    unfold Version, s_len in Hv. split; [done|]. exists c. cbn. rewrite lookup_insert_eq. split; [done|]. rewrite (proj2 (Clone_same _ _ Hc)). apply Hx. done.
  - left. by exists old.
Qed.

(** ** The properties *)

Section claims.
Context {D : Type} (ops : SessionStoreOps D) (id : string) (good : SessionEvent → Prop) (contents : D → list SessionEvent → Prop).
Context {laws : SinkLaws ops id good contents}.
Notation sstep := (step ops (Forall good) (grows contents)).

Lemma closed_stays y y' : sstep y y' → closed (sy_writer y) = true → closed (sy_writer y') = true.
Proof.
  assert (∀ w w', core_of w' = core_of w → closed w' = closed w) as Hcore by (unfold core_of; congruence).
  destruct 1 as [w s d ts t p w' d' p' Ht H|w s d ts t i Hi' Ht|w s d ts t cw Ht|w s d ts t Ht|w s d ts|w s d ts o|w s d ts clock entries s' events Ha Hg|w s d ts d' Ho]; cbn; try done.
  - destruct H as [w d cw w' H|w d cw r w' H| | | | | |w d| | | | |w d i|w d k w' H|w d k v w' H| | | |w d k target r w' o H]; try done.
    + apply core_flush_enter in H as [(-> & _)|[_ Hc]]; [done|]. unfold core_of in Hc. injection Hc as _ _ _ _ _ -> _. intros ->. apply orb_true_r.
    + apply core_flush_enter in H as [(-> & _)|[? _]]; done.
    + unfold abort_enter. by rewrite (Hcore _ _ (core_stop _)).
    + by rewrite (Hcore _ _ (core_callback _ _)).
    + unfold once_enter in H. destruct (_ || _); by simplify_eq.
    + unfold once_enter in H. destruct (_ || _); by simplify_eq.
    + apply core_finish in H. unfold core_of in H. destruct r; by injection H as _ _ _ _ _ -> _.
  - unfold MarkDirty. intros E. by rewrite E.
Qed.

(** Where the thread of a [flush] is, called when the session had [v] events. *)
Definition since (v : Z) (closeWriter : bool) (y : system) (p : thread) : Prop :=
  match p with
  | AtFlush b => b = closeWriter
  | AtLoop n | AtWait n _ | AtOnce (Some n) | AtRead (Some n) _ | AtWrite (Some n) _ _ | AtFinish (Some n) _ _ | Flushed (Some n) _ => v ≤ n
  | Flushed None _ => closeWriter = false ∧ closed (sy_writer (D := D) y) = true
  | _ => False
  end.

Lemma since_step v b y y' t p :
  v ≤ Version (sy_session y) → sstep y y' → sy_threads y !! t = Some p → since v b y p →
  ∃ p', sy_threads y' !! t = Some p' ∧ since v b y' p'.
Proof.
  intros Hv H Hp Hs. pose proof (closed_stays _ _ H) as Hcl.
  assert (sy_threads y' !! t = Some p → ∃ p', sy_threads y' !! t = Some p' ∧ since v b y' p') as Hsame.
  { intros E. exists p. split; [done|]. destruct p as [| | | | | | |[]|[]|[]|[]|[] | |]; cbn in *; try done. destruct Hs. auto. }
  destruct H as [w s d ts t0 p0 w' d' p' Ht H|w s d ts t0 i Hi' Ht|w s d ts t0 cw Ht|w s d ts t0 Ht|w s d ts|w s d ts o|w s d ts clock entries s' events Ha Hg|w s d ts d' Ho];
    cbn in *; try by apply Hsame.
  2-4: apply Hsame; rewrite lookup_insert_ne; [done|congruence].
  destruct (decide (t0 = t)) as [->|Hne]; [|apply Hsame; by rewrite lookup_insert_ne]. exists p'. rewrite lookup_insert_eq. split; [done|].
  rewrite Hp in Ht. injection Ht as <-.
  destruct H as [w d cw w' H|w d cw r w' H|w d n r H|w d n ch H|w d n H|w d n ch H|w d n ch e|w d|w d r H|w d ch H|w d ch H|w d ch e|w d i|w d k w' H|w d k n w' H|w d k n j target H|w d k n target e H|w d k j target r d' H|w d k target r w' o H];
    cbn in *; try done; try (by destruct k).
  apply core_flush_enter in H as [(-> & _ & ? & ->)|[? _]]; [|done]. by rewrite <- Hs.
Qed.

Lemma version_step y y' : sstep y y' → s_events (sy_session y) `prefix_of` s_events (sy_session y').
Proof.
  destruct 1 as [| | | | | |w s d ts clock entries s' events Ha Hg|]; try done. cbn. apply appendBatch_ok in Ha as (ps & _ & _ & _ & _ & ->). by apply prefix_app_r.
Qed.

Lemma since_steps v b y y' t p :
  rtc sstep y y' → v ≤ Version (sy_session y) → sy_threads y !! t = Some p → since v b y p →
  s_events (sy_session y) `prefix_of` s_events (sy_session y') ∧ ∃ p', sy_threads y' !! t = Some p' ∧ since v b y' p'.
Proof.
  intros Hr. revert p. induction Hr as [|y y1 y2 H _ IH]; intros p Hv Hp Hs; [by split; [|exists p]|].
  destruct (since_step _ _ _ _ _ _ Hv H Hp Hs) as (p1 & Hp1 & Hs1). pose proof (version_step _ _ H) as Hpre. pose proof (prefix_version _ _ Hpre).
  destruct (IH p1) as [Hpre' IH']; [lia|done..|]. split; [by etrans|done].
Qed.

Lemma reached_inv fence delay y0 y : started id good contents fence delay y0 → rtc sstep y0 y → writer_inv id good contents y ∧ live_inv y.
Proof.
  intros Hst Hr. split.
  - eapply writer_inv_steps; [exact laws|exact Hr|]. eapply started_inv, Hst.
  - eapply live_inv_steps; [exact laws|exact Hr|]. eapply started_live, Hst.
Qed.

(** C31.  What [Flush], and [Checkpoint] on an open writer, answer is durable.
    Whatever the producer, the timers, other flushes, aborts and other writers of
    the store do in between, and whether or not earlier writes failed: when a
    flush returns without an error, the store holds all the events the session
    had when it was called, in order and from the start.  The one exception is a
    [Checkpoint] that finds the writer closed, by a [Flush] or by an [Abort],
    when it enters (recorded by [Flushed None]): such a call answers the retained
    error, nil after a clean [Abort], and writes nothing, although its comment
    says that it persists everything pending. *)
Theorem flushed_events_are_durable fence delay y0 y1 t closeWriter :
  started id good contents fence delay y0 → rtc sstep y0 y1 → sy_threads y1 !! t = Some (AtFlush closeWriter) →
  (∀ y2 m, rtc sstep y1 y2 → sy_threads y2 !! t = Some (Flushed m None) →
    durable contents (sy_store y2) (s_events (sy_session y1)) ∨ (m = None ∧ closeWriter = false ∧ closed (sy_writer y2) = true))
  ∧ (closeWriter = false → closed (sy_writer y1) = true →
     sstep y1 (mk_system (sy_writer y1) (sy_session y1) (sy_store y1) (<[t := Flushed None (lastErr (sy_writer y1))]> (sy_threads y1)))).
Proof.
  intros Hst H1 Ht1. split.
  - intros y2 m H2 Ht2. assert (rtc sstep y0 y2) as Hr by (by etrans).
    destruct (reached_inv _ _ _ _ Hst Hr) as [[_ _ _ Hv Hd Hts _ _] _].
    destruct (since_steps (Version (sy_session y1)) closeWriter _ _ t _ H2 (Z.le_refl _) Ht1 eq_refl) as (Hpre & p & Hp & Hs). rewrite Ht2 in Hp. injection Hp as <-.
    destruct m as [n|]; [left|by right]. pose proof (Hts _ _ Ht2) as Hn. cbn in Hn, Hs. destruct Hd as (l & Hl & Hpl). exists l. split; [done|].
    rewrite <- (upto_all (sy_session y1)), <- (upto_prefix _ _ _ Hpre) by lia. etrans; [|exact Hpl]. apply upto_le. lia.
  - intros -> Hcl. destruct y1 as [w s d ts]. cbn in *. eapply step_thread; [done|]. apply step_flush_closed. unfold flush_enter. by rewrite Hcl.
Qed.

(** C32.  No work is forgotten.  In every reachable state: a writer that is dirty,
    open, without an error and with background flushing has an armed timer or a
    thread on its way to flush, unless a flush is running; at most one thread
    writes to the store at a time; a [Flush] or [Abort] that waits has been
    signalled or a thread is writing, which signals when it is done; and the
    saved version is durable. *)
Theorem writer_never_stalls fence delay y0 y :
  started id good contents fence delay y0 → rtc sstep y0 y →
  (owes_flush (sy_writer y) = true →
    (∃ i, timer (sy_writer y) = Some i ∧ i ∈ armed (sy_writer y)) ∨ ∃ t p, sy_threads y !! t = Some p ∧ pending p = true)
  ∧ (∀ t t' p p', sy_threads y !! t = Some p → sy_threads y !! t' = Some p' → busy p = true → busy p' = true → t = t')
  ∧ (∀ t p ch, sy_threads y !! t = Some p → channel_of p = Some ch →
      (ch < changed (sy_writer y))%nat ∨ ∃ t' p', sy_threads y !! t' = Some p' ∧ busy p' = true)
  ∧ durable contents (sy_store y) (upto (sy_session y) (SavedVersion (sy_writer y))).
Proof.
  intros Hst Hr. destruct (reached_inv _ _ _ _ Hst Hr) as [[_ _ _ Hv Hd Hts Hone Hfl] [Lt Lp Lw]].
  split_and!; [|done| |done].
  - intros Ho. destruct (Lp Ho) as [[i Hi]|?]; [|by right]. destruct (Lt i Hi) as [?|(t & Ht)]; [left; eauto|right; eauto].
  - intros t p ch Hp Hc. destruct (Lw _ _ _ Hp Hc) as [?|[_ Hf]]; [by left|right]. by apply Hfl.
Qed.
End claims.

(** ** A flush through the fence, and an abort that is too late *)

Definition ex_writer_run : Db :=
  apply_op ex_stores (ex_t + second) (OpClaim "w1" minute ∅ 0) (apply_op ex_stores ex_t (OpEnqueueRun empty_db (ex_queued "r1" 2)) empty_db).
Definition ex_leased : Db :=
  set_leases {["s1" := mk_lease "node-a" (UnixMilli (ex_t + minute))]} (sql_Create (ses ex_stores) ex_new ex_t ex_writer_run).2.
Definition ex_writer_fence : SessionWriteFence := mk_fence "s1" "r1" "acme" "ann" "w1" 1 "node-a".
Definition ex_ms : Z := UnixMilli (ex_t + 2 * second).
Definition ex_written : Db := (appendEventsFenced (ses ex_stores) ex_writer_fence 0 ex_events ex_ms ex_ms ex_ms ex_leased).2.

Lemma ex_writer_stored : sql_contents "s1" ex_leased [].
Proof. exists ex_options. eexists. split; [vm_compute; reflexivity|]. split_and!; vm_compute; reflexivity. Qed.
Lemma ex_written_ok : appendEventsFenced (ses ex_stores) ex_writer_fence 0 ex_events ex_ms ex_ms ex_ms ex_leased = (Ok tt, ex_written).
Proof. vm_compute. reflexivity. Qed.
Lemma ex_session_good : Forall (λ e, event_stable e = true) (s_events ex_session).
Proof. apply Forall_forall. intros e He. apply (proj1 (forallb_forall _ _) ex_events_stable). by apply list_elem_of_In. Qed.

Definition ex_writer : WriteBehind := new_writer (Some ex_writer_fence) 0 0.
Definition ex_called : system := mk_system ex_writer ex_session ex_leased {[0%nat := AtFlush true]}.
Definition ex_flushed : system :=
  let w := (flush_enter true (Version ex_session) ex_writer).2 in
  mk_system (once_finish 8 (Version ex_session) None (set_flushing true w)).1 ex_session ex_written {[0%nat := Flushed (Some 8) None]}.

Notation ex_sstep := (step (sql_ops (ses ex_stores)) (Forall (λ e, event_stable e = true)) (grows (sql_contents "s1"))).

Lemma ex_writer_started : started "s1" (λ e, event_stable e = true) (sql_contents "s1") (Some ex_writer_fence) 0 (mk_system ex_writer ex_session ex_leased ∅).
Proof.
  exists 0. split; [done|]. split; [vm_compute; split; congruence|]. split; [reflexivity|]. split; [by intros f [=<-]|]. split; [apply ex_session_good|].
  exists []. split; [apply ex_writer_stored|]. apply prefix_nil.
Qed.

(** One region of the only thread. *)
Ltac region tac := eapply rtc_l; [eapply (step_thread _ _ _ _ _ _ _ 0%nat); [apply lookup_singleton_eq|tac]|rewrite insert_singleton_eq].

Lemma ex_prepared w : w_config w = w_config ex_writer → prepare_job (sql_ops (ses ex_stores)) w ex_session 0 = inl (JFenced ex_writer_fence 0 ex_events, 8).
Proof. intros E. unfold prepare_job. rewrite E. vm_compute. reflexivity. Qed.
Lemma ex_job : do_job (sql_ops (ses ex_stores)) (JFenced ex_writer_fence 0 ex_events) ex_leased None ex_written.
Proof. exists ex_ms, ex_ms, ex_ms. rewrite ex_written_ok. by left. Qed.
Lemma ex_version : Version ex_session = 8.
Proof. vm_compute. reflexivity. Qed.

Lemma ex_flush_runs : rtc ex_sstep ex_called ex_flushed.
Proof.
  unfold ex_called, ex_flushed. cbv zeta. rewrite ex_version.
  region ltac:(eapply step_flush_enter; rewrite ex_version; reflexivity). region ltac:(eapply step_flush_once; reflexivity).
  region ltac:(eapply step_once_start; reflexivity). region ltac:(eapply step_read, ex_prepared; reflexivity).
  region ltac:(eapply step_write, ex_job).
  region ltac:(eapply step_finish; rewrite ex_version; reflexivity). region ltac:(eapply step_flush_return; reflexivity).
  rewrite ex_version. apply rtc_refl.
Qed.

Lemma flushed_events_are_durable_witness : durable (sql_contents "s1") ex_written (s_events ex_session).
Proof.
  destruct (flushed_events_are_durable (sql_ops (ses ex_stores)) "s1" (λ e, event_stable e = true) (sql_contents "s1") (Some ex_writer_fence) 0
              (mk_system ex_writer ex_session ex_leased ∅) ex_called 0 true) as [H0 _].
  - exact ex_writer_started.
  - apply rtc_once. apply (step_call_flush _ _ _ ex_writer ex_session ex_leased ∅ 0%nat true). reflexivity.
  - reflexivity.
  - destruct (H0 ex_flushed (Some 8) ex_flush_runs eq_refl) as [H|(H & _)]; [exact H|discriminate H].
Defined.

Lemma writer_never_stalls_witness :
  (∃ i, timer (MarkDirty ex_writer) = Some i ∧ i ∈ armed (MarkDirty ex_writer)) ∨ ∃ t p, (∅ : gmap nat thread) !! t = Some p ∧ pending p = true.
Proof.
  refine (proj1 (writer_never_stalls (sql_ops (ses ex_stores)) "s1" (λ e, event_stable e = true) (sql_contents "s1") (Some ex_writer_fence) 0
    (mk_system ex_writer ex_session ex_leased ∅) (mk_system (MarkDirty ex_writer) ex_session ex_leased ∅) ex_writer_started _) eq_refl).
  apply rtc_once. constructor.
Defined.

(** ** A callback that outlives the abort *)

Definition ex_memory_writer : WriteBehind := NewWriteBehind 0 0.
Definition ex_memory_start : system := mk_system ex_memory_writer ex_session ex_store ∅.
(** The timer has fired, [Abort] has been called and has returned. *)
Definition ex_aborted : system :=
  mk_system (abort_enter (set_timer (Some 0%nat) ∅ (MarkDirty ex_memory_writer))) ex_session ex_store {[0%nat := AtTimer 0; 1%nat := Aborted None]}.

(** [Abort] does not stop a callback that has already been started.  Its
    comment says that it waits for a running flush so that callers do not
    release a session lease while the writer can still change the store.  But a
    callback whose timer has fired and which has not yet taken the lock is not
    waited for, [flushOnce] does not look at [closed], and it writes the dirty
    suffix to the store after [Abort] has returned without an error. *)
Theorem aborted_writer_still_writes :
  ∃ w' d', let y := mk_system w' ex_session d' {[0%nat := TimerDone; 1%nat := Aborted None]} in
  rtc (step memory_ops (Forall (λ _, True)) (grows (memory_contents "s1"))) ex_memory_start ex_aborted
  ∧ rtc (step memory_ops (Forall (λ _, True)) (λ _ _, False)) ex_aborted y
  ∧ memory_contents "s1" (sy_store ex_aborted) [] ∧ memory_contents "s1" (sy_store y) ex_events.
Proof.
  assert (∃ st snapshot, Clone ex_session = Ok snapshot ∧ store_Save ex_store snapshot 0 = Ok st ∧ memory_contents "s1" st ex_events) as (st & snapshot & Hc & Hs & Hm).
  { do 2 eexists. split; [vm_compute; reflexivity|]. split; [vm_compute; reflexivity|]. eexists. split; vm_compute; reflexivity. }
  assert (Version snapshot = 8) as Hv by (rewrite <- ex_version; unfold Version, s_len; by rewrite (proj2 (Clone_same _ _ Hc))).
  assert (∀ w, w_config w = w_config ex_memory_writer → prepare_job memory_ops w ex_session 0 = inl (JSave snapshot 0, 8)) as Hj.
  { intros w E. unfold prepare_job. rewrite E, Hc, Hv. reflexivity. }
  assert (do_job memory_ops (JSave snapshot 0) ex_store None st) as Hd.
  { cbn [do_job memory_ops so_Save]. rewrite Hs. split; reflexivity. }
  do 2 eexists. cbv zeta. split_and!.
  - eapply rtc_l; [apply step_mark|]. eapply rtc_l; [apply (step_fire _ _ _ _ _ _ _ 0%nat 0%nat); [vm_compute; reflexivity|reflexivity]|].
    eapply rtc_l; [apply (step_call_abort _ _ _ _ _ _ _ 1%nat); reflexivity|].
    eapply rtc_l; [eapply (step_thread _ _ _ _ _ _ _ 1%nat); [reflexivity|apply step_abort_enter]|].
    eapply rtc_l; [eapply (step_thread _ _ _ _ _ _ _ 1%nat); [reflexivity|apply step_abort_return; reflexivity]|].
    apply rtc_refl.
  - eapply rtc_l; [eapply (step_thread _ _ _ _ _ _ _ 0%nat); [reflexivity|apply step_timer]|].
    eapply rtc_l; [eapply (step_thread _ _ _ _ _ _ _ 0%nat); [reflexivity|eapply step_once_start; reflexivity]|].
    eapply rtc_l; [eapply (step_thread _ _ _ _ _ _ _ 0%nat); [reflexivity|eapply (step_read _ _ _ _ _ _ (JSave snapshot 0) 8); apply Hj; reflexivity]|].
    eapply rtc_l; [eapply (step_thread _ _ _ _ _ _ _ 0%nat); [reflexivity|eapply step_write, Hd]|].
    eapply rtc_l; [eapply (step_thread _ _ _ _ _ _ _ 0%nat); [reflexivity|eapply step_finish; rewrite ex_version; reflexivity]|].
    apply rtc_refl.
  - eexists. split; vm_compute; reflexivity.
  - exact Hm.
Qed.
