(* ===== verification/QueueWorker.v ===== *)
(** * The queue worker: [src/pkg/server/server_run_worker.go]

    A worker claims a queued run and executes it: it keeps the claim alive,
    takes the session's lease, loads and repairs the session, resolves who the
    run belongs to, composes a runtime, runs or resumes the turn behind a fenced
    writer and settles the claim, or gives the run back for another attempt.
    Everything the worker asks of the rest of the server is an effect of
    [workerE]; the claim's monitor runs concurrently, so each look at its
    verdict is an effect of its own.  An error is the list of the errors in its
    tree, none for [nil]: [errors.Is] looks for one of them and [errors.Join]
    appends.  The turn's writer appears with the calls the worker makes of it,
    [NewFencedWriteBehind], [Flush] and [Abort]: that the turn marks it dirty and
    that its timer flushes in the background, during the turn and until it is
    closed, is not an effect of this model.  Those flushes are the subject of
    [WriteBehind], and the fence of each of them is the subject of
    [SessionFence].  Telemetry, logging and route evidence are left out. *)
From S2P Require Import Prelude Prog GoString Json Scope Principal Payload Events Message Session SessionLog Capability Guard Agent ControlDb RunControl ControlJson ApprovalStore SqlSession SessionFence WriteBehind.
From stdpp Require Import gmap strings list.
From Stdlib Require Import ZArith Lia Ascii.
Open Scope Z_scope.

(** ** Errors *)

Definition werr : Type := list string.
Definition nil_err (e : werr) : bool := bool_decide (e = []).
Definition errors_Is (e : werr) (target : string) : bool := bool_decide (target ∈ e).
Definition error_message (e : werr) : string := String.concat (String (ascii_of_nat 10) "") e.

Definition errRunClaimLost := "run claim ownership lost".
(** [PermanentRunError] in the chain. *)
Definition PermanentRunError := "permanent queued run failure".

Definition permanentQueuedPrincipalError (e : werr) : bool :=
  errors_Is e "queued principal is unavailable" || errors_Is e "queued principal identity does not match"
  || errors_Is e "queued principal is inactive" || errors_Is e "queued principal is invalid".

Definition nativeQueuedCompletedToolRecoveryPermanent (e : werr) : bool :=
  errors_Is e "completed tool result proof invalid" || errors_Is e "native queued completed-tool recovery is unavailable".

(** ** Delays *)

Definition ms : Z := 10 ^ 6.
Definition queuedRunRetryDelay (attempt : Z) : Z :=
  let attempt := if attempt <? 1 then 1 else attempt in
  let shift := attempt - 1 in
  let shift := if 7 <? shift then 7 else shift in
  let delay := 250 * ms * Z.shiftl 1 shift in
  if 30 * 1000 * ms <? delay then 30 * 1000 * ms else delay.

Definition nextWorkerPoll (current base max : Z) : Z :=
  let base := if base <=? 0 then 250 * ms else base in
  let max := if max <? base then base else max in
  if current <? base then base
  else if max <=? current then max
  else
    let next := wrap_int64 (current * 2) in
    if (next <? current) || (max <? next) then max else next.

Definition leaseRenewInterval (ttl : Z) : Z :=
  let interval := Z.quot ttl 3 in
  if interval <=? 0 then 1 else interval.

(** ** Reading the log *)

Definition effectiveRunStatus (status : string) (runErr : werr) : string :=
  if negb (is_empty status) then status else if nil_err runErr then RunCompleted else RunFailed.

Fixpoint last_error_code (events : list SessionEvent) (runID : string) : string :=
  match events with
  | [] => ""
  | event :: events =>
    if negb (bool_decide (RunID event = runID)) || negb (bool_decide (ev_Type event = EvRunError)) then last_error_code events runID
    else match unmarshal (dec_struct error_fields) (mk_error "" "" false) (ev_Data event) with
         | Some data => Code data
         | None => last_error_code events runID
         end
  end.
Definition runTerminalErrorCode (session : Session) (runID : string) : string := last_error_code (rev (s_events session)) runID.

(** The loop of [sumRunUsageEvents]. *)
Fixpoint sum_usage (events : list SessionEvent) (runID : string) (total : TokenUsage) : result TokenUsage :=
  match events with
  | [] => Ok total
  | event :: events =>
    if bool_decide (ev_Type event = EvRunUsage) && bool_decide (RunID event = runID) then
      match unmarshal (dec_struct usage_fields) (mk_usage 0 0 "") (ev_Data event) with
      | Some usage =>
        fail_when (max_int64 - tu_Input total <? InputTokens usage) || (max_int64 - tu_Output total <? OutputTokens usage) with "run usage total overflows" ;;
        sum_usage events runID (mk_tokens (tu_Input total + InputTokens usage) (tu_Output total + OutputTokens usage))
      | None => sum_usage events runID total
      end
    else sum_usage events runID total
  end.
Definition sumRunUsageEvents (events : list SessionEvent) (runID : string) : result TokenUsage := sum_usage events runID (mk_tokens 0 0).

(** ** Effects *)

(** What the principal resolver of the host does. *)
Inductive resolver_answer := ResolverPanics | ResolverFails (e : werr) | ResolverAnswers (p : Principal).

(** How a turn is run. *)
Inductive turn_kind := RunTheTurn (text : string) | ResumeTheTurn | ContinueTheTurn.

Inductive workerE : Type → Type :=
| MonitorQueuedRunClaim : workerE unit
| ReasonIsLost : workerE bool            (** claim.reason.Load() == claimStopLost *)
| ReasonIsNone : workerE bool            (** claim.reason.Load() == claimStopNone *)
| StoreLost : workerE unit
| StopMonitor : workerE unit
| CancelRun : workerE unit
| AcquireRunLease (session run : string) (generation : Z) : workerE (string * bool * werr)
| ReleaseLease (holder : string) : workerE unit
| LoadSession (session : string) : workerE (Session + werr)
| ResolveRunPrincipal (tenant subject : string) : workerE resolver_answer
| RecoverCompleted (session : Session) : workerE (option Session * werr)
| RepairFenced (fence : SessionWriteFence) (session : Session) : workerE (Session + werr)
| WriterStore : workerE (bool * werr)    (** whether it implements FencedSessionAppender *)
| RuntimeFor (principal : Principal) (profile : string) : workerE werr
| ToolCheckpoint : workerE werr
| ResolveExecutor (continuing : bool) : workerE (bool * werr)   (** whether it is the built-in sequential executor *)
| RequireProjectionAware : workerE werr
| Turn (kind : turn_kind) (session : Session) : workerE (string * werr * Session)
| RunCtxErr : workerE bool
| WorkerCtxErr : workerE werr
| CheckpointFailed : workerE bool
| FlushWriter (session : Session) : workerE werr
| AbortWriter : workerE werr
| AppendFenced (fence : SessionWriteFence) (version : Z) (events : list SessionEvent) : workerE werr
| GetApproval (approval : string) : workerE (option ApprovalRecord)
| Now : workerE Time
| FinishRunClaim (status code : string) : workerE (bool * werr)
| PauseRunClaim : workerE (bool * werr)
| RetryRunClaim (at_ : Time) (code : string) : workerE (bool * werr).

(** What the server is configured with. *)
Record WorkerServer := mk_worker_server {
  ws_leaser : bool; ws_approvals : bool; ws_principals : bool; ws_fenced : bool; ws_maxWriteDelay : Z; ws_clock : Z → string }.

(** The run a worker has claimed. *)
Record claimed := mk_claimed { c_task : QueuedRun; c_worker : string }.
Definition c_run (c : claimed) : string := rn_RunID (qd_run (c_task c)).

(** ** Settling *)

Definition finishQueuedRunClaim (status code : string) : prog workerE werr :=
  let* (finished, err) := ask (FinishRunClaim status code) in
  Ret (if negb (nil_err err) then err else if negb finished then [errRunClaimLost] else []).

(** [stopQueuedFencedWriter]; [writer] is whether there is one. *)
Definition stopQueuedFencedWriter (writer : bool) (cause : werr) : prog workerE werr :=
  let* _ := ask StoreLost in
  let* _ := ask StopMonitor in
  let* _ := ask CancelRun in
  let* cause := if writer then let* abortErr := ask AbortWriter in Ret (if nil_err cause then abortErr else cause) else Ret cause in
  Ret (errRunClaimLost :: cause).

Section worker.
Context (srv : WorkerServer) (c : claimed).

(** The decision that closes a pending approval. *)
Definition closing_decision (errorCode : string) (pending : ApprovalRequestedData) : prog workerE ApprovalResolvedData :=
  let* now := ask Now in
  let fallback := (ApprovalDenied, now, "system:" +:+ errorCode) in
  let* found := if ws_approvals srv then ask (GetApproval (ar_ApprovalID pending)) else Ret None in
  let '(decision, resolvedAt, resolvedBy) :=
    match found with
    | None => fallback
    | Some approval => (ar_Status approval, (if ar_DecidedAt approval =? zeroTime then now else ar_DecidedAt approval),
                        (if is_empty (ar_DecidedBy approval) then "system:" +:+ errorCode else ar_DecidedBy approval))
    end in
  Ret (mk_ares (ar_ApprovalID pending) (tc_ID (ar_ToolCall pending)) decision (time_text resolvedAt) resolvedBy).

(** [session.Append], its error as an error of the worker. *)
Definition append_to (session : Session) (kind : SessionEventType) (data : EventData) : Session + werr :=
  match Append (ws_clock srv) session (c_run c) kind data with Ok (s, _) => inl s | Err e => inr [e] end.

(** [core.NewRuntimeErrorData] of an error of the worker. *)
Definition runtime_error (code : string) (cause : werr) : RuntimeErrorData :=
  mk_error code (if nil_err cause then "unknown runtime error" else boundedText (error_message cause) MaxRuntimeErrorMessageBytes) false.

(** [appendWaitingSessionClosure]: the version before and the session after, if
    it changed.  The session itself is changed as far as the appends went. *)
Definition appendWaitingSessionClosure (session : Session) (terminal errorCode : string) (cause : werr) : prog workerE (Session * (option Z + werr)) :=
  let '(status, exists_) := RunStatus session (c_run c) in
  if negb exists_ || negb (bool_decide (status = RunWaitingApproval)) then Ret (session, inl None)
  else
    let expectedVersion := Version session in
    match PendingApproval session (c_run c) with
    | Err e => Ret (session, inr [e])
    | Ok pending =>
      let* resolved := match pending with
                       | None => Ret (inl session)
                       | Some pending => let* data := closing_decision errorCode pending in Ret (append_to session EvApprovalResolved (DApprovalResolved data))
                       end in
      match resolved with
      | inr e => Ret (session, inr e)
      | inl session =>
        match append_to session EvRunError (DRuntimeError (runtime_error errorCode cause)) with
        | inr e => Ret (session, inr e)
        | inl session =>
          match append_to session EvRunEnd (DRunEnd (mk_end terminal)) with
          | inr e => Ret (session, inr e)
          | inl session => Ret (session, inl (Some expectedVersion))
          end
        end
      end
    end.

Definition closeWaitingSessionValueFenced (session : Session) (fence : option SessionWriteFence) (writer : bool) (terminal errorCode : string) (cause : werr) :
    prog workerE werr :=
  let* (session, closure) := appendWaitingSessionClosure session terminal errorCode cause in
  match closure with
  | inr e => Ret e
  | inl None => Ret []
  | inl (Some expectedVersion) =>
    if writer then ask (FlushWriter session)
    else match fence with
         | None => Ret ["fenced waiting-session close is missing a session write fence"]
         | Some fence =>
           if negb (ws_fenced srv) then Ret ["queued session store does not implement fenced append"]
           else ask (AppendFenced fence expectedVersion (EventsFrom session expectedVersion))
         end
  end.

Definition settleQueuedPreparationFailure (session : option Session) (fence : option SessionWriteFence) (writer waiting : bool)
    (errorCode : string) (cause : werr) (permanent : bool) : prog workerE werr :=
  if errors_Is cause ErrSessionWriteFenceLost then Ret (errRunClaimLost :: cause)
  else
    let* stopped := ask WorkerCtxErr in
    if negb (nil_err stopped) then Ret (cause ++ stopped)
    else if permanent || (qd_MaxAttempts (c_task c) <=? qd_Attempt (c_task c)) then
      let* sessionErr := match session with
                         | Some session => if waiting then closeWaitingSessionValueFenced session fence writer RunFailed errorCode cause else Ret []
                         | None => Ret []
                         end in
      if errors_Is sessionErr ErrSessionWriteFenceLost then Ret (errRunClaimLost :: cause ++ sessionErr)
      else if negb (nil_err sessionErr) then Ret (cause ++ sessionErr)
      else let* controlErr := finishQueuedRunClaim RunFailed errorCode in Ret (cause ++ controlErr)
    else
      let* now := ask Now in
      let* (retried, err) := ask (RetryRunClaim (now + queuedRunRetryDelay (qd_Attempt (c_task c))) errorCode) in
      Ret (if negb (nil_err err) then cause ++ err else if negb retried then cause ++ [errRunClaimLost] else cause).

(** [closeOpenSessionFailureFenced] *)
Definition closeOpenSessionFailureFenced (session : Session) (fence : SessionWriteFence) (errorCode : string) (cause : werr) : prog workerE werr :=
  let '(status, exists_) := RunStatus session (c_run c) in
  if negb exists_ || negb (is_empty status) then Ret ["native queued recovery close requires an open run"]
  else
    let expectedVersion := Version session in
    match append_to session EvRunError (DRuntimeError (runtime_error errorCode cause)) with
    | inr e => Ret e
    | inl session =>
      match append_to session EvRunEnd (DRunEnd (mk_end RunFailed)) with
      | inr e => Ret e
      | inl session =>
        if negb (ws_fenced srv) then Ret ["native queued recovery close requires fenced session append"]
        else ask (AppendFenced fence expectedVersion (EventsFrom session expectedVersion))
      end
    end.

Definition settleNativeQueuedCompletedToolRecoveryFailure (session : Session) (fence : SessionWriteFence) (cause : werr) (errorCode : string) (permanent : bool) :
    prog workerE werr :=
  let* lost := if errors_Is cause ErrSessionWriteFenceLost then Ret true else ask ReasonIsLost in
  if (lost : bool) then stopQueuedFencedWriter false cause
  else
    let* _ := ask StopMonitor in
    if negb permanent then settleQueuedPreparationFailure (Some session) (Some fence) false false errorCode cause false
    else
      let* err := closeOpenSessionFailureFenced session fence errorCode cause in
      if negb (nil_err err) then
        if errors_Is err ErrSessionWriteFenceLost then stopQueuedFencedWriter false (cause ++ err) else Ret (cause ++ err)
      else let* controlErr := finishQueuedRunClaim RunFailed errorCode in Ret (cause ++ controlErr).

(** ** Executing a claimed run *)

(** [resolveQueuedPrincipal] *)
Definition resolveQueuedPrincipal : prog workerE (Principal + werr) :=
  let task := qd_run (c_task c) in
  if negb (ws_principals srv) then Ret (inr ["run principal resolver is not configured"])
  else
    let* answer := ask (ResolveRunPrincipal (rn_TenantID task) (rn_SubjectID task)) in
    Ret (match answer with
         | ResolverPanics => inr ["run principal resolver panicked"]
         | ResolverFails err => inr err
         | ResolverAnswers p =>
           if negb (bool_decide (TenantID p = rn_TenantID task)) || negb (bool_decide (SubjectID p = rn_SubjectID task))
           then inr ["resolved principal identity does not match queued owner"] else inl p
         end).

(** The end of every failed preparation: the monitor is stopped, and a claim that
    was lost meanwhile is given up instead of settled. *)
Definition unless_lost (writer : bool) (cause : werr) (settle : prog workerE werr) : prog workerE werr :=
  let* _ := ask StopMonitor in
  let* lost := ask ReasonIsLost in
  if (lost : bool) then stopQueuedFencedWriter writer cause else settle.

(** A look at the monitor between two steps. *)
Definition check_claim (k : prog workerE werr) : prog workerE werr :=
  let* lost := ask ReasonIsLost in
  if (lost : bool) then Ret [errRunClaimLost] else k.

(** [claim.reason is lost || (runCtx.Err() != nil && claim.reason is none && !checkpointFailure.Failed())] *)
Definition given_up : prog workerE bool :=
  let* lost := ask ReasonIsLost in
  if (lost : bool) then Ret true
  else
    let* cancelled := ask RunCtxErr in
    if negb cancelled then Ret false
    else
      let* none := ask ReasonIsNone in
      if negb none then Ret false
      else let* failed := ask CheckpointFailed in Ret (negb failed).

(** From the turn's end to the settled claim. *)
Definition settle_turn (status : string) (session : Session) : prog workerE werr :=
  let* stop := given_up in
  if (stop : bool) then stopQueuedFencedWriter true []
  else
    let* flushErr := ask (FlushWriter session) in
    let* _ := ask StopMonitor in
    if errors_Is flushErr ErrSessionWriteFenceLost then stopQueuedFencedWriter true flushErr
    else
      let* stop := given_up in
      if (stop : bool) then stopQueuedFencedWriter true []
      else if negb (nil_err flushErr) then let* _ := finishQueuedRunClaim RunFailed "store_error" in Ret flushErr
      else if bool_decide (status = RunWaitingApproval) then
        let* (paused, err) := ask PauseRunClaim in
        Ret (if negb (nil_err err) then err else if negb paused then [errRunClaimLost] else [])
      else finishQueuedRunClaim status (runTerminalErrorCode session (c_run c)).

(** From the new writer to the turn. *)
Definition run_claimed_turn (fence : SessionWriteFence) (principal : Principal) (session : Session) (resume recovered : bool) : prog workerE werr :=
  let settle := settleQueuedPreparationFailure (Some session) (Some fence) true resume in
  let* err := ask (RuntimeFor principal (s_profileID session)) in
  if negb (nil_err err) then unless_lost true err (settle "control_plane_refresh_failed" err false)
  else
    let* err := ask ToolCheckpoint in
    if negb (nil_err err) then unless_lost true err (settle "tool_checkpoint_init_failed" err false)
    else
      let* (sequential, err) := ask (ResolveExecutor (resume || recovered)) in
      if negb (nil_err err) then
        unless_lost true err
          (if recovered then settleNativeQueuedCompletedToolRecoveryFailure session fence err "native_completed_tool_recovery_unsupported" true
           else settle "executor_selection_failed" err true)
      else if recovered && negb sequential then
        let* _ := ask StopMonitor in
        settleNativeQueuedCompletedToolRecoveryFailure session fence ["native queued completed-tool recovery requires the built-in sequential executor"]
          "native_completed_tool_recovery_unsupported" true
      else
        let* err := ask RequireProjectionAware in
        if negb (nil_err err) then unless_lost true err (settle "execution_projection_unavailable" err false)
        else
          let kind := if recovered then ContinueTheTurn else if resume then ResumeTheTurn else RunTheTurn (qd_Message (c_task c)) in
          let* (status, runErr, session) := ask (Turn kind session) in
          settle_turn (effectiveRunStatus status runErr) session.

(** From the repaired session to the new writer: a run that is in the log and is
    neither waiting nor recovered is only settled. *)
Definition execute_repaired (fence : SessionWriteFence) (principal : Principal) (session : Session) (resume recovered : bool) : prog workerE werr :=
  let '(existing, exists_) := RunStatus session (c_run c) in
  let waiting := exists_ && bool_decide (existing = RunWaitingApproval) in
  if exists_ && negb waiting && negb (recovered && is_empty existing) then
    unless_lost false []
      (let existing := if is_empty existing then RunFailed else existing in
       let code := runTerminalErrorCode session (c_run c) in
       let code := if is_empty code && bool_decide (existing = RunFailed) then "run_already_started" else code in
       finishQueuedRunClaim existing code)
  else
    let resume := resume || waiting in
    let* (fenced, err) := ask WriterStore in
    if negb (nil_err err) then
      unless_lost false err (settleQueuedPreparationFailure (Some session) (Some fence) false resume "fenced_writer_init_failed" err true)
    else match NewFencedWriteBehind fenced fence session (Version session) (ws_maxWriteDelay srv) with
         | Err e => unless_lost false [e] (settleQueuedPreparationFailure (Some session) (Some fence) false resume "fenced_writer_init_failed" [e] true)
         | Ok _ => run_claimed_turn fence principal session resume recovered
         end.

Definition executeQueuedRunWithFence (fence : SessionWriteFence) : prog workerE werr :=
  let task := qd_run (c_task c) in
  check_claim
    (let* loaded := ask (LoadSession (rn_SessionID task)) in
     match loaded with
     | inr err => unless_lost false err (settleQueuedPreparationFailure None None false false "session_load_failed" err false)
     | inl session =>
       check_claim
         (let owner := s_principal session in
          let '(status, exists_) := RunStatus session (c_run c) in
          let resume := exists_ && bool_decide (status = RunWaitingApproval) in
          let* resolved := resolveQueuedPrincipal in
          match resolved with
          | inr err =>
            unless_lost false err (settleQueuedPreparationFailure (Some session) (Some fence) false resume "principal_resolution_failed" err
                                     (errors_Is err PermanentRunError || permanentQueuedPrincipalError err))
          | inl principal =>
            if negb (bool_decide (SubjectID owner = rn_SubjectID task)) || negb (bool_decide (TenantID owner = rn_TenantID task))
               || negb (Scope.Equal (p_Scope owner) (p_Scope principal)) then
              unless_lost false [] (settleQueuedPreparationFailure (Some session) (Some fence) false resume "session_owner_mismatch"
                                      ["queued run owner does not match session owner"] true)
            else
              check_claim
                (let* (recovered, recoveryErr) := ask (RecoverCompleted session) in
                 if negb (nil_err recoveryErr) then
                   let* _ := ask StopMonitor in
                   let* lost := ask ReasonIsLost in
                   if lost || errors_Is recoveryErr ErrSessionWriteFenceLost then stopQueuedFencedWriter false recoveryErr
                   else settleNativeQueuedCompletedToolRecoveryFailure session fence recoveryErr "native_completed_tool_recovery_failed"
                          (nativeQueuedCompletedToolRecoveryPermanent recoveryErr)
                 else match recovered with
                      | Some session => execute_repaired fence principal session resume true
                      | None =>
                        let* repaired := ask (RepairFenced fence session) in
                        match repaired with
                        | inl session => execute_repaired fence principal session resume false
                        | inr err =>
                          let* _ := ask StopMonitor in
                          let* lost := ask ReasonIsLost in
                          if lost || errors_Is err ErrSessionWriteFenceLost then stopQueuedFencedWriter false err
                          else settleQueuedPreparationFailure None (Some fence) false resume "session_repair_failed" err false
                        end
                      end)
          end)
     end).

Definition executeQueuedRun : prog workerE werr :=
  let task := qd_run (c_task c) in
  let* _ := ask MonitorQueuedRunClaim in
  let* result :=
    check_claim
      (if negb (ws_leaser srv) then let* _ := ask StopMonitor in Ret ["queued run requires a session leaser"]
       else
         let* (holder, acquired, err) := ask (AcquireRunLease (rn_SessionID task) (rn_RunID task) (qd_Generation (c_task c))) in
         if negb (nil_err err) || negb acquired then
           unless_lost false err
             (settleQueuedPreparationFailure None None false false "session_lease_unavailable"
                (if nil_err err then ["session lease is unavailable"] else err) false)
         else
           let fence := mk_fence (rn_SessionID task) (rn_RunID task) (rn_TenantID task) (rn_SubjectID task) (c_worker c) (qd_Generation (c_task c)) holder in
           let* result := executeQueuedRunWithFence fence in
           let* _ := ask (ReleaseLease holder) in
           Ret result) in
  let* _ := ask StopMonitor in
  let* _ := ask CancelRun in
  Ret result.

End worker.

(** ** Keeping the claim *)

Inductive claim_reason := claimStopNone | claimStopCancelled | claimStopLost.

(** The renewal callback of [monitorQueuedRunClaim]: [ctx] is whether the
    callback's context is done, [renew] and [requested] what the queue answered.
    The new reason, whether the run is cancelled, and the error, which makes the
    scheduler report the task as lost. *)
Definition renew_claim (reason : claim_reason) (ctx : bool) (renew : bool * werr) (requested : bool * werr) : claim_reason * bool * werr :=
  let '(renewed, renewErr) := renew in
  let '(requested, renewErr) := if nil_err renewErr && renewed then requested else (false, renewErr) in
  let swap r := match reason with claimStopNone => r | _ => reason end in
  if (requested : bool) then (swap claimStopCancelled, true, [])
  else if negb (nil_err renewErr) || negb renewed then
    if ctx && (errors_Is renewErr "context canceled" || errors_Is renewErr "context deadline exceeded") then (reason, false, [])
    else (swap claimStopLost, false, ["queued run claim renewal failed"])
  else (reason, false, []).

(** ** The loop of a worker *)

(** [runWorkerOnce] after the projection lease: [claim] is what [ClaimRun] answered. *)
Definition runWorkerOnce (srv : WorkerServer) (worker : string) (claim : option QueuedRun * werr) : prog workerE (bool * werr) :=
  let '(task, err) := claim in
  if negb (nil_err err) then Ret (match task with Some _ => true | None => false end, err)
  else match task with
       | None => Ret (false, [])
       | Some task => let* err := executeQueuedRun srv (mk_claimed task worker) in Ret (true, err)
       end.

(** One iteration of [runWorkerLoopWith]: how long it waits, if it does, and the
    next poll. *)
Definition worker_iteration (runWorkerPoll poll : Z) (claimed : bool) (err : werr) : option Z * Z :=
  let base := if runWorkerPoll <=? 0 then 250 * ms else runWorkerPoll in
  let max := if 1000 * ms <? base then base else 1000 * ms in
  if claimed then (None, base)
  else (Some poll, if negb (nil_err err) then base else nextWorkerPoll poll base max).
