(* ===== verification/WorkerRules.v ===== *)
(** * The rules a queue worker follows

    A watcher reads the effects of a worker one by one and stops at the first
    that breaks a rule; [executeQueuedRun] never does, whatever it is answered. *)
From S2P Require Import Prelude Prog GoString Json Scope Principal Payload Events Message Session SessionLog Capability Guard Agent ControlDb RunControl ControlJson ApprovalStore SqlSession SessionFence WriteBehind QueueWorker.
From stdpp Require Import gmap strings list.
From Stdlib Require Import ZArith Lia.
Open Scope Z_scope.

(** ** Effects *)

Definition is_settlement (ev : event workerE) : bool :=
  match ev with Ev e _ => match e with FinishRunClaim _ _ | PauseRunClaim | RetryRunClaim _ _ => true | _ => false end end.
Definition is_turn (ev : event workerE) : bool := match ev with Ev e _ => match e with Turn _ _ => true | _ => false end end.
(** The writes to the session that the worker itself waits for. *)
Definition is_write (ev : event workerE) : bool :=
  match ev with Ev e _ => match e with FlushWriter _ | AppendFenced _ _ _ | RepairFenced _ _ | RecoverCompleted _ => true | _ => false end end.
(** The two ways in which the worker closes its writer; only the second drops
    what is not yet written. *)
Definition is_final_flush (ev : event workerE) : bool := match ev with Ev e _ => match e with FlushWriter _ => true | _ => false end end.
Definition is_abort (ev : event workerE) : bool := match ev with Ev e _ => match e with AbortWriter => true | _ => false end end.
Definition is_release (ev : event workerE) : bool := match ev with Ev e _ => match e with ReleaseLease _ => true | _ => false end end.

Definition fence_error (e : werr) : bool := errors_Is e ErrSessionWriteFenceLost.

(** The worker learns that the claim or the fence is lost. *)
Definition is_loss (ev : event workerE) : bool :=
  match ev with
  | @Ev _ B e b =>
    match e in workerE B' return B' → bool with
    | ReasonIsLost => λ lost, lost
    | StoreLost => λ _, true
    | FlushWriter _ => λ err, fence_error err
    | AppendFenced _ _ _ => λ err, fence_error err
    | RepairFenced _ _ => λ answer, match answer with inr err => fence_error err | inl _ => false end
    | RecoverCompleted _ => λ answer, fence_error answer.2
    | _ => λ _, false
    end b
  end.

(** Everything the turn appended has been flushed. *)
Definition is_flush (ev : event workerE) : bool :=
  match ev with
  | @Ev _ B e b => match e in workerE B' return B' → bool with FlushWriter _ => λ err, nil_err err | _ => λ _, false end b
  end.

(** The session as it was repaired or recovered. *)
Definition settled_log (ev : event workerE) : option Session :=
  match ev with
  | @Ev _ B e b =>
    match e in workerE B' return B' → option Session with
    | RepairFenced _ _ => λ answer, match answer with inl s => Some s | inr _ => None end
    | RecoverCompleted _ => λ answer, answer.1
    | _ => λ _, None
    end b
  end.

Definition told_time (ev : event workerE) : option Time :=
  match ev with @Ev _ B e b => match e in workerE B' return B' → option Time with Now => λ t, Some t | _ => λ _, None end b end.

(** ** The watcher *)

(** [owes] is whether a writer the turn has marked dirty is still to be closed,
    or, once the claim is lost, to be aborted. *)
Record watch := mk_watch { lost : bool; settled : bool; turned : bool; owes : bool; flushed : bool; in_log : option Session; now_is : option Time }.
Definition fresh_watch : watch := mk_watch false false false false false None None.

Section rules.
Context (c : claimed).

(** What a settlement, a turn, a write or the end of the lease needs. *)
Definition allowed (ev : event workerE) (s : watch) : bool :=
  match ev with
  | Ev e _ =>
    match e with
    | Turn kind session =>
      negb (settled s) && negb (turned s) &&
      match kind with
      | RunTheTurn _ => negb (snd (RunStatus session (c_run c)))
      | ResumeTheTurn => let '(status, exists_) := RunStatus session (c_run c) in negb exists_ || bool_decide (status = RunWaitingApproval)
      | ContinueTheTurn => let '(status, exists_) := RunStatus session (c_run c) in negb exists_ || is_empty status || bool_decide (status = RunWaitingApproval)
      end
    | FinishRunClaim status _ =>
      negb (settled s) &&
      (bool_decide (status = RunFailed) || flushed s
       || match in_log s with Some session => bool_decide (RunStatus session (c_run c) = (status, true)) | None => false end)
    | PauseRunClaim => negb (settled s) && flushed s
    | RetryRunClaim at_ _ =>
      negb (settled s) && negb (turned s) && (qd_Attempt (c_task c) <? qd_MaxAttempts (c_task c)) &&
      match now_is s with Some t => (250 * ms <=? at_ - t) && (at_ - t <=? 30 * 1000 * ms) | None => false end
    | FlushWriter _ | AppendFenced _ _ _ | RepairFenced _ _ | RecoverCompleted _ => negb (settled s)
    | ReleaseLease _ => negb (owes s)
    | _ => true
    end
  end.

Definition watch_next (ev : event workerE) (s : watch) : watch :=
  mk_watch (lost s || is_loss ev) (settled s || is_settlement ev) (turned s || is_turn ev)
    (negb (is_abort ev) && (is_turn ev || (turned s && is_loss ev) || (owes s && negb (is_final_flush ev))))
    (flushed s || (turned s && is_flush ev))
    (match settled_log ev with Some session => Some session | None => in_log s end)
    (match told_time ev with Some t => Some t | None => now_is s end).

Definition watch_event (ev : event workerE) (s : watch) : option watch :=
  if (is_settlement ev || is_turn ev || is_write ev) && lost s then None
  else if negb (allowed ev s) then None
  else Some (watch_next ev s).

Lemma watch_pass ev s (Q : watch → Prop) :
  lost s = false → allowed ev s = true → Q (watch_next ev s) → ∃ s', watch_event ev s = Some s' ∧ Q s'.
Proof. intros Hl Ha HQ. exists (watch_next ev s). unfold watch_event. by rewrite Hl, andb_false_r, Ha. Qed.

Fixpoint watch_all (tr : list (event workerE)) (s : watch) : option watch :=
  match tr with [] => Some s | ev :: tr => match watch_event ev s with Some s' => watch_all tr s' | None => None end end.

(** ** Programs that follow the rules *)

Fixpoint follows_rules {A} (p : prog workerE A) (s : watch) (Q : A → watch → Prop) : Prop :=
  match p with
  | Ret a => Q a s
  | Vis e k => ∀ b, ∃ s', watch_event (Ev e b) s = Some s' ∧ follows_rules (k b) s' Q
  end.

Lemma rules_mono {A} (p : prog workerE A) : ∀ s (Q R : A → watch → Prop), (∀ a s, Q a s → R a s) → follows_rules p s Q → follows_rules p s R.
Proof. induction p as [a|B e k IH]; intros s Q R HQR H; cbn in *; [auto|]. intros b. destruct (H b) as (s' & Hs & Hk). exists s'. split; [done|]. by eapply IH. Qed.

Lemma rules_bind {A B} (p : prog workerE A) (k : A → prog workerE B) :
  ∀ s R, follows_rules p s (λ a s', follows_rules (k a) s' R) → follows_rules (pbind p k) s R.
Proof. induction p as [a|C e f IH]; intros s R H; cbn in *; [done|]. intros b. destruct (H b) as (s' & Hs & Hk). exists s'. split; [done|]. by apply IH. Qed.

Lemma rules_runs {A} (p : prog workerE A) : ∀ s Q tr a, follows_rules p s Q → runs p tr a → ∃ s', watch_all tr s = Some s' ∧ Q a s'.
Proof.
  induction p as [a|B e k IH]; intros s Q tr a' H Hr; cbn in *; [destruct Hr as [-> ->]; by exists s|].
  destruct Hr as (b & tr' & -> & Hr). destruct (H b) as (s' & Hs & Hk). cbn. rewrite Hs. by eapply IH.
Qed.

Lemma rules_ask {A B} (e : workerE B) (k : B → prog workerE A) s Q :
  (∀ b, ∃ s', watch_event (Ev e b) s = Some s' ∧ follows_rules (k b) s' Q) → follows_rules (pbind (ask e) k) s Q.
Proof. done. Qed.
End rules.

(** One effect, with the watcher's state computed. *)
Ltac watch_one :=
  match goal with
  | |- follows_rules _ (pbind (ask _) _) _ _ => apply rules_ask; intros ?b; eexists; split; [reflexivity|]; unfold watch_next; cbn [lost settled turned owes flushed in_log now_is negb orb andb is_loss is_settlement is_turn is_flush is_abort is_final_flush settled_log told_time]
  | |- follows_rules _ (pbind _ _) _ _ => apply rules_bind
  | |- follows_rules _ (Ret _) _ _ => reflexivity
  end.

(** Nothing is owed. *)
Definition done_rules {A} : A → watch → Prop := λ _ s, owes s = false.

(** Giving up is always allowed, and after a turn it aborts the writer. *)
Lemma rules_stop c writer cause s :
  writer = true ∨ (turned s = false ∧ owes s = false) → follows_rules c (stopQueuedFencedWriter writer cause) s done_rules.
Proof.
  intros H. unfold stopQueuedFencedWriter. do 3 watch_one. apply rules_bind. destruct writer; [watch_one; done|].
  destruct H as [?|[Ht Ho]]; [done|]. cbn. unfold done_rules. cbn. by rewrite Ht, Ho.
Qed.
Lemma rules_stop_before c writer cause l st fl lg nw :
  follows_rules c (stopQueuedFencedWriter writer cause) (mk_watch l st false false fl lg nw) done_rules.
Proof. apply rules_stop. by right. Qed.

(** A claim that can be settled. *)
Lemma rules_finish c status code tu fl lg nw :
  status = RunFailed ∨ fl = true ∨ (∃ session, lg = Some session ∧ RunStatus session (c_run c) = (status, true)) →
  follows_rules c (finishQueuedRunClaim status code) (mk_watch false false tu false fl lg nw) done_rules.
Proof.
  intros H. unfold finishQueuedRunClaim. apply rules_ask. intros [finished err]. apply watch_pass; [done| |unfold done_rules; cbn; by rewrite andb_false_r].
  cbn [allowed settled flushed in_log negb andb].
  assert (bool_decide (status = RunFailed) || fl || match lg with Some session => bool_decide (RunStatus session (c_run c) = (status, true)) | None => false end = true) as ->; [|reflexivity].
  destruct H as [->|[->|(session & -> & ->)]]; [done|by rewrite orb_true_r|]. apply orb_true_iff. right. by apply bool_decide_eq_true_2.
Qed.

Lemma retry_delay_bounds attempt : 250 * ms ≤ queuedRunRetryDelay attempt ≤ 30 * 1000 * ms.
Proof.
  unfold queuedRunRetryDelay. cbv zeta. set (a := if attempt <? 1 then 1 else attempt).
  assert (1 ≤ a) by (unfold a; destruct (Z.ltb_spec attempt 1); lia).
  set (n := if 7 <? a - 1 then 7 else a - 1). assert (0 ≤ n) by (unfold n; destruct (Z.ltb_spec 7 (a - 1)); lia).
  rewrite Z.shiftl_1_l. assert (1 ≤ 2 ^ n) by (pose proof (Z.pow_pos_nonneg 2 n); lia).
  destruct (Z.ltb_spec (30 * 1000 * ms) (250 * ms * 2 ^ n)); unfold ms in *; lia.
Qed.

(** ** Before the turn *)

(** A claim that is neither lost nor settled, and whose turn has not been run. *)
Definition before_turn (lg : option Session) (nw : option Time) : watch := mk_watch false false false false false lg nw.

(** After a write of the worker, whose error tells whether the fence was lost. *)
Definition wrote_one (lg : option Session) (err : werr) (s : watch) : Prop :=
  ∃ l nw, s = mk_watch l false false false false lg nw ∧ (l = true → fence_error err = true).

Lemma rules_append c f v evs lg nw : follows_rules c (ask (AppendFenced f v evs)) (before_turn lg nw) (wrote_one lg).
Proof. intros err. eexists. split; [reflexivity|]. by exists (fence_error err), nw. Qed.
Lemma rules_flush c session lg nw : follows_rules c (ask (FlushWriter session)) (before_turn lg nw) (wrote_one lg).
Proof. intros err. eexists. split; [reflexivity|]. exists (fence_error err), nw. split; done. Qed.

Lemma wrote_nothing lg nw err : wrote_one lg err (before_turn lg nw).
Proof. by exists false, nw. Qed.

Lemma rules_decision srv c code pending lg nw (Q : ApprovalResolvedData → watch → Prop) :
  (∀ data nw', Q data (before_turn lg nw')) → follows_rules c (closing_decision srv code pending) (before_turn lg nw) Q.
Proof.
  intros HQ. unfold closing_decision. watch_one. apply rules_bind. destruct (ws_approvals srv).
  - intros found. eexists. split; [reflexivity|]. destruct found; cbn; apply HQ.
  - cbn. apply HQ.
Qed.

Lemma rules_closure srv c session terminal code cause lg nw :
  follows_rules c (appendWaitingSessionClosure srv c session terminal code cause) (before_turn lg nw) (λ _ s, ∃ nw', s = before_turn lg nw').
Proof.
  assert (∀ r : Session * (option Z + werr), ∀ nw', follows_rules c (Ret r) (before_turn lg nw') (λ _ s, ∃ nw', s = before_turn lg nw')) as Hret by (intros; by eexists).
  unfold appendWaitingSessionClosure. destruct (RunStatus session (c_run c)) as [status ex]. destruct (_ || _); [apply Hret|].
  destruct (PendingApproval session (c_run c)) as [pending|]; [|apply Hret].
  assert (∀ (r : Session + werr) nw', follows_rules c
    (match r with
     | inl s1 => match append_to srv c s1 EvRunError (DRuntimeError (runtime_error code cause)) with
                 | inl s2 => match append_to srv c s2 EvRunEnd (DRunEnd (mk_end terminal)) with
                             | inl s3 => Ret (s3, inl (Some (Version session))) | inr e => Ret (s2, inr e) end
                 | inr e => Ret (s1, inr e) end
     | inr e => Ret (session, inr e) end) (before_turn lg nw') (λ _ s, ∃ nw', s = before_turn lg nw')) as Hrest.
  { intros [s1|e] nw'; [|apply Hret]. destruct (append_to _ _ s1 _ _) as [s2|e]; [|apply Hret]. destruct (append_to _ _ s2 _ _); apply Hret. }
  apply rules_bind. destruct pending as [pending|]; [|apply Hrest]. apply rules_bind, rules_decision. intros data nw'. apply Hrest.
Qed.

Lemma rules_close_waiting srv c session fence writer terminal code cause lg nw :
  follows_rules c (closeWaitingSessionValueFenced srv c session fence writer terminal code cause) (before_turn lg nw) (wrote_one lg).
Proof.
  unfold closeWaitingSessionValueFenced. apply rules_bind. eapply rules_mono; [|apply rules_closure]. intros [session' closure] s (nw' & ->).
  destruct closure as [[v|]|e]; [|apply wrote_nothing|apply wrote_nothing]. destruct writer; [apply rules_flush|].
  destruct fence as [f|]; [|apply wrote_nothing]. destruct (negb _); [apply wrote_nothing|apply rules_append].
Qed.

Lemma rules_settle srv c session fence writer waiting code cause permanent lg nw :
  follows_rules c (settleQueuedPreparationFailure srv c session fence writer waiting code cause permanent) (before_turn lg nw) done_rules.
Proof.
  unfold settleQueuedPreparationFailure. destruct (errors_Is cause _); [done|]. watch_one. destruct (negb (nil_err b)); [done|].
  destruct (permanent || _) eqn:E.
  - apply rules_bind. apply (rules_mono _ _ _ (wrote_one lg)).
    + intros err s (l & nw' & -> & Hl). unfold fence_error in Hl. destruct (errors_Is err _); [done|]. destruct (negb (nil_err err)); [done|].
      destruct l; [by specialize (Hl eq_refl)|]. apply rules_bind. eapply rules_mono; [|apply rules_finish; by left]. by intros.
    + destruct session as [session|]; [|apply wrote_nothing]. destruct waiting; [apply rules_close_waiting|apply wrote_nothing].
  - apply orb_false_iff in E as [_ E]. apply Z.leb_gt in E. watch_one. apply rules_ask. intros [retried err]. apply watch_pass; [done| |done].
    cbn [allowed settled turned negb andb now_is]. pose proof (retry_delay_bounds (qd_Attempt (c_task c))) as Hd.
    rewrite (proj2 (Z.ltb_lt _ _) E), (proj2 (Z.leb_le _ _)), (proj2 (Z.leb_le _ _)) by lia. reflexivity.
Qed.

Lemma rules_close_open srv c session fence code cause lg nw :
  follows_rules c (closeOpenSessionFailureFenced srv c session fence code cause) (before_turn lg nw) (wrote_one lg).
Proof.
  unfold closeOpenSessionFailureFenced. destruct (RunStatus session (c_run c)) as [status ex]. destruct (_ || _); [apply wrote_nothing|].
  destruct (append_to _ _ _ _ _); [|apply wrote_nothing]. destruct (append_to _ _ _ _ _); [|apply wrote_nothing].
  destruct (negb _); [apply wrote_nothing|apply rules_append].
Qed.

Lemma rules_settle_native srv c session fence cause code permanent lg nw :
  follows_rules c (settleNativeQueuedCompletedToolRecoveryFailure srv c session fence cause code permanent) (before_turn lg nw) done_rules.
Proof.
  unfold settleNativeQueuedCompletedToolRecoveryFailure. apply rules_bind.
  apply (rules_mono _ _ _ (λ (l : bool) s, s = mk_watch (if l then lost s else false) false false false false lg nw)).
  - intros [] s Hs; rewrite Hs; [apply rules_stop_before|]. watch_one. destruct (negb permanent); [apply rules_settle|]. apply rules_bind.
    eapply rules_mono; [|apply rules_close_open]. intros err s' (l & nw' & -> & Hl). unfold fence_error in Hl. destruct (nil_err err) eqn:En; cbn [negb]; [|destruct (errors_Is err _); [apply rules_stop_before|done]].
    destruct l; [exfalso|apply rules_bind; eapply rules_mono; [|apply rules_finish; by left]; by intros].
    specialize (Hl eq_refl). unfold nil_err in En. apply bool_decide_eq_true in En as ->. done.
  - destruct (errors_Is cause _); [done|]. intros l. eexists. split; [reflexivity|]. by destruct l.
Qed.

Lemma rules_unless_lost c writer cause settle lg nw :
  follows_rules c settle (before_turn lg nw) done_rules → follows_rules c (unless_lost writer cause settle) (before_turn lg nw) done_rules.
Proof. intros H. unfold unless_lost. do 2 watch_one. destruct b0; [apply rules_stop_before|exact H]. Qed.

Lemma rules_check c k lg nw : follows_rules c k (before_turn lg nw) done_rules → follows_rules c (check_claim k) (before_turn lg nw) done_rules.
Proof. intros H. unfold check_claim. watch_one. destruct b; [done|exact H]. Qed.

(** ** After the turn *)

(** An effect that tells the watcher nothing. *)
Lemma rules_quiet {A B} c (e : workerE B) (k : B → prog workerE A) s Q :
  (∀ b, watch_event c (Ev e b) s = Some s) → (∀ b, follows_rules c (k b) s Q) → follows_rules c (pbind (ask e) k) s Q.
Proof. intros He Hk. apply rules_ask. intros b. exists s. split; [apply He|apply Hk]. Qed.

Lemma rules_given_up c st tu ow fl lg nw (Q : bool → watch → Prop) :
  (∀ s, Q true s) → Q false (mk_watch false st tu ow fl lg nw) → follows_rules c given_up (mk_watch false st tu ow fl lg nw) Q.
Proof.
  intros Ht Hf. unfold given_up. apply rules_ask. intros b. eexists. split; [reflexivity|]. destruct b; [apply Ht|].
  replace (watch_next _ _) with (mk_watch false st tu ow fl lg nw) by (by destruct st, tu, ow, fl).
  apply rules_quiet; [by destruct st, tu, ow, fl|intros []; [|apply Hf]]. apply rules_quiet; [by destruct st, tu, ow, fl|intros []; [|apply Hf]].
  apply rules_quiet; [by destruct st, tu, ow, fl|intros []; [apply Hf|apply Ht]].
Qed.

Lemma rules_settle_turn c status session lg nw :
  follows_rules c (settle_turn c status session) (mk_watch false false true true false lg nw) done_rules.
Proof.
  unfold settle_turn. apply rules_bind, rules_given_up; [intros; apply rules_stop; by left|].
  apply rules_ask. intros err. eexists. split; [reflexivity|]. unfold watch_next; cbn [lost settled turned owes flushed in_log now_is negb orb andb is_loss is_settlement is_turn is_flush is_abort is_final_flush settled_log told_time].
  watch_one. rewrite !orb_false_r. unfold fence_error. destruct (errors_Is err _); [apply rules_stop; by left|].
  apply rules_bind, rules_given_up; [intros; apply rules_stop; by left|]. destruct (nil_err err) eqn:En; cbn [negb].
  - case_bool_decide as Hw; [|apply rules_finish; by right; left]. apply rules_ask. intros [paused e]. eexists. split; [reflexivity|done].
  - apply rules_bind. eapply rules_mono; [|apply rules_finish; by left]. by intros.
Qed.

(** ** The whole run *)

Lemma rules_turn srv c fence principal session resume recovered lg nw :
  (recovered = false → resume = false → snd (RunStatus session (c_run c)) = false) →
  (let '(status, ex) := RunStatus session (c_run c) in ex = false ∨ status = RunWaitingApproval ∨ (recovered = true ∧ is_empty status = true)) →
  follows_rules c (run_claimed_turn srv c fence principal session resume recovered) (before_turn lg nw) done_rules.
Proof.
  intros Hrun Hlog. unfold run_claimed_turn. watch_one. destruct (negb (nil_err b)); [apply rules_unless_lost, rules_settle|].
  watch_one. destruct (negb (nil_err b0)); [apply rules_unless_lost, rules_settle|].
  apply rules_ask. intros [sequential err]. eexists. split; [reflexivity|]. destruct (negb (nil_err err)).
  { apply rules_unless_lost. destruct recovered; [apply rules_settle_native|apply rules_settle]. }
  destruct (recovered && negb sequential); [watch_one; apply rules_settle_native|].
  watch_one. destruct (negb (nil_err b1)); [apply rules_unless_lost, rules_settle|].
  apply rules_ask. intros [[status runErr] session']. eexists. split; [|apply rules_settle_turn].
  unfold watch_event. cbn [is_settlement is_turn is_write orb andb lost allowed settled turned negb]. destruct (RunStatus session (c_run c)) as [st ex]. cbn in Hrun.
  assert (match (if recovered then ContinueTheTurn else if resume then ResumeTheTurn else RunTheTurn (qd_Message (c_task c))) with
          | RunTheTurn _ => negb (st, ex).2
          | ResumeTheTurn => negb ex || bool_decide (st = RunWaitingApproval)
          | ContinueTheTurn => negb ex || is_empty st || bool_decide (st = RunWaitingApproval) end = true) as ->; [|reflexivity].
  destruct recovered, resume; cbn; destruct Hlog as [->|[->|[? He]]]; try done; rewrite ?He, ?orb_true_r; try done; by rewrite Hrun.
Qed.

Lemma rules_repaired srv c fence principal session resume recovered nw :
  follows_rules c (execute_repaired srv c fence principal session resume recovered) (before_turn (Some session) nw) done_rules.
Proof.
  unfold execute_repaired. destruct (RunStatus session (c_run c)) as [existing ex] eqn:Hrs.
  set (waiting := ex && bool_decide (existing = RunWaitingApproval)).
  destruct (ex && negb waiting && negb (recovered && is_empty existing)) eqn:E.
  - apply rules_unless_lost, rules_finish. destruct (is_empty existing); [by left|]. right. right. exists session. bool_to_prop. by subst ex.
  - apply rules_ask. intros [fenced err]. eexists. split; [reflexivity|]. destruct (negb (nil_err err)); [apply rules_unless_lost, rules_settle|].
    destruct (NewFencedWriteBehind _ _ _ _ _); [|apply rules_unless_lost, rules_settle]. apply rules_turn.
    + intros -> Hr. rewrite Hrs. cbn. unfold waiting in *. destruct ex; [|done]. cbn in E, Hr.
      destruct resume; [done|]. cbn in Hr. rewrite Hr in E. done.
    + rewrite Hrs. unfold waiting in E. destruct ex; [|by left]. right. case_bool_decide; [by left|]. right. cbn in E. destruct recovered; [|done]. by destruct (is_empty existing).
Qed.

Lemma rules_with_fence srv c fence : follows_rules c (executeQueuedRunWithFence srv c fence) fresh_watch done_rules.
Proof.
  unfold executeQueuedRunWithFence. apply rules_check. watch_one. destruct b as [session|err]; [|apply rules_unless_lost, rules_settle].
  apply rules_check. destruct (RunStatus session (c_run c)) as [status ex]. set (resume := ex && _). apply rules_bind.
  apply (rules_mono _ _ _ (λ _ s, s = fresh_watch)).
  2:{ unfold resolveQueuedPrincipal. destruct (negb _); [done|]. apply rules_ask. intros answer. eexists. split; [reflexivity|]. done. }
  intros [principal|err] s ->; [|apply rules_unless_lost, rules_settle]. destruct (_ || _); [apply rules_unless_lost, rules_settle|].
  apply rules_check. apply rules_ask. intros [recovered err]. eexists. split; [reflexivity|].
  unfold watch_next; cbn [lost settled turned owes flushed in_log now_is negb orb andb is_loss is_settlement is_turn is_flush is_abort is_final_flush settled_log told_time fst snd].
  destruct (nil_err err) eqn:En; cbn [negb].
  - unfold nil_err in En. apply bool_decide_eq_true in En as ->. destruct recovered as [session'|]; [apply rules_repaired|].
    apply rules_ask. intros repaired. eexists. split; [reflexivity|].
    unfold watch_next; cbn [lost settled turned owes flushed in_log now_is negb orb andb is_loss is_settlement is_turn is_flush is_abort is_final_flush settled_log told_time fst snd].
    destruct repaired as [session'|err]; [apply rules_repaired|]. do 2 watch_one. unfold fence_error. destruct b0; [apply rules_stop_before|].
    cbn [orb]. destruct (errors_Is err _); [apply rules_stop_before|apply rules_settle].
  - do 2 watch_one. unfold fence_error. destruct b0; [apply rules_stop_before|]. cbn [orb]. destruct (errors_Is err _); [apply rules_stop_before|].
    destruct recovered; apply rules_settle_native.
Qed.

Lemma rules_execute srv c : follows_rules c (executeQueuedRun srv c) fresh_watch done_rules.
Proof.
  assert (∀ s, owes s = false → turned s && false || owes s && true = false) as Hq by (intros s ->; by rewrite andb_false_r).
  assert (∀ r s, owes s = false → follows_rules c (let* _ := ask StopMonitor in let* _ := ask CancelRun in Ret (r : werr)) s done_rules) as Hend.
  { intros r s H. do 2 watch_one. unfold done_rules. cbn. rewrite (Hq s H). by rewrite ?andb_false_r. }
  unfold executeQueuedRun. watch_one. apply rules_bind. eapply rules_mono; [intros r s H; apply Hend, H|]. apply rules_check.
  destruct (negb _); [watch_one; done|]. apply rules_ask. intros [[holder acquired] err]. eexists. split; [reflexivity|].
  destruct (_ || _); [apply rules_unless_lost, rules_settle|]. apply rules_bind. eapply rules_mono; [|apply rules_with_fence].
  intros r s H. apply rules_ask. intros []. exists (watch_next (Ev (ReleaseLease holder) tt) s).
  split; [unfold watch_event; cbn; by rewrite H|]. unfold done_rules. cbn. by apply Hq.
Qed.
