(* ===== verification/WorkerClaims.v ===== *)
(** * What the queue worker promises

    The rules of [WorkerRules] as properties of traces, the worker's statistics
    and delays, and the run that is failed without closing its session. *)
From S2P Require Import Prelude Prog GoString Json Scope Principal Policy Payload Events Message Session SessionLog SessionClaims SessionQueries Capability Guard Agent ControlDb RunControl ControlJson ApprovalStore SqlSession SessionFence WriteBehind QueueWorker WorkerRules.
From stdpp Require Import gmap strings list.
From Stdlib Require Import ZArith Lia.
Open Scope Z_scope.

(** ** From the watcher to the trace *)

(** A flush without an error after the turn. *)
Definition flushed_turn (tr : list (event workerE)) : Prop :=
  ∃ tr1 ev tr2, tr = tr1 ++ ev :: tr2 ∧ is_flush ev = true ∧ existsb is_turn tr1 = true.

(** The turn's writer is closed behind it: by a flush or by an abort, and by an
    abort behind every sign of a lost claim. *)
Definition writer_closed (tr : list (event workerE)) : Prop :=
  (∀ tr1 ev tr2, tr = tr1 ++ ev :: tr2 → is_turn ev = true → existsb is_final_flush tr2 || existsb is_abort tr2 = true)
  ∧ (∀ tr1 ev tr2, tr = tr1 ++ ev :: tr2 → existsb is_turn tr1 = true → is_loss ev = true → existsb is_abort tr2 = true).

Lemma split_snoc {A} (tr tr1 tr2 : list A) ev x : tr ++ [x] = tr1 ++ ev :: tr2 → (tr = tr1 ∧ x = ev ∧ tr2 = []) ∨ ∃ tr3, tr = tr1 ++ ev :: tr3 ∧ tr2 = tr3 ++ [x].
Proof.
  destruct tr2 as [|y tr2 _] using rev_ind; intros H; [left|right].
  - apply app_inj_tail in H as [-> ->]. done.
  - exists tr2. rewrite app_comm_cons, app_assoc in H. apply app_inj_tail in H as [-> ->]. done.
Qed.

(** The ways in which a trace gets closed or stays so. *)
Lemma closed_nil : writer_closed [].
Proof. split; intros tr1 e tr2 H; by destruct tr1. Qed.
Lemma closed_unturned tr ev : existsb is_turn tr = false → is_turn ev = false → writer_closed (tr ++ [ev]).
Proof.
  intros Hn Ht. split; intros tr1 e tr2 [(-> & -> & ->)|(tr3 & -> & ->)]%split_snoc; intros; try congruence;
    rewrite existsb_app in Hn; cbn in Hn; apply orb_false_iff in Hn as [? [? _]%orb_false_iff]; congruence.
Qed.
Lemma closed_abort tr ev : is_abort ev = true → is_turn ev = false → is_loss ev = false → writer_closed (tr ++ [ev]).
Proof.
  intros Ha Ht Hl. split; intros tr1 e tr2 [(-> & -> & ->)|(tr3 & -> & ->)]%split_snoc; try congruence; intros; rewrite ?existsb_app; cbn; by rewrite Ha, ?orb_true_r.
Qed.
Lemma closed_flush tr ev : is_final_flush ev = true → is_turn ev = false → is_loss ev = false → existsb is_loss tr = false → writer_closed (tr ++ [ev]).
Proof.
  intros Ha Ht Hl Hn. split; intros tr1 e tr2 [(-> & -> & ->)|(tr3 & -> & ->)]%split_snoc; try congruence; intros.
  - rewrite existsb_app. cbn. by rewrite Ha, ?orb_true_r.
  - rewrite existsb_app in Hn. cbn in Hn. apply orb_false_iff in Hn as [_ [Hn _]%orb_false_iff]. congruence.
Qed.
Lemma closed_snoc tr ev : writer_closed tr → is_turn ev = false → existsb is_turn tr && is_loss ev = false → writer_closed (tr ++ [ev]).
Proof.
  intros [H1 H2] Ht Hl. split; intros tr1 e tr2 [(-> & -> & ->)|(tr3 & -> & ->)]%split_snoc; try congruence; intros.
  - specialize (H1 _ _ _ eq_refl ltac:(eassumption)). rewrite !existsb_app. apply orb_prop in H1 as [->| ->]; by rewrite ?orb_true_r.
  - by rewrite H, H0 in Hl.
  - rewrite existsb_app. by rewrite (H2 _ _ _ eq_refl).
Qed.

Record describes (tr : list (event workerE)) (s : watch) : Prop := {
  ds_lost : lost s = existsb is_loss tr;
  ds_settled : settled s = existsb is_settlement tr;
  ds_turned : turned s = existsb is_turn tr;
  ds_owes : owes s = false → writer_closed tr;
  ds_flushed : flushed s = true → flushed_turn tr;
  ds_log session : in_log s = Some session → ∃ ev, ev ∈ tr ∧ settled_log ev = Some session;
  ds_now t : now_is s = Some t → ∃ ev, ev ∈ tr ∧ told_time ev = Some t }.

Lemma owes_step tr s ev :
  (owes s = false → writer_closed tr) → lost s = existsb is_loss tr → turned s = existsb is_turn tr →
  (is_settlement ev || is_turn ev || is_write ev) && lost s = false → owes (watch_next ev s) = false → writer_closed (tr ++ [ev]).
Proof.
  intros Ho Hl Ht Hw H. cbn in H. destruct (is_abort ev) eqn:Ea.
  { apply closed_abort; [done|destruct ev as [B e b]; by destruct e..]. }
  cbn in H. apply orb_false_iff in H as [[H1 H2]%orb_false_iff H3]. rewrite Ht in H2. destruct (owes s) eqn:Eo; [|by apply closed_snoc; auto].
  cbn in H3. apply negb_false_iff in H3. assert (is_write ev = true) as Hi by (destruct ev as [B e b]; by destruct e).
  rewrite Hi, orb_true_r in Hw. cbn in Hw. destruct (is_loss ev) eqn:El; [|apply closed_flush; congruence].
  rewrite andb_true_r in H2. by apply closed_unturned.
Qed.

Lemma describes_step c tr s ev s' : describes tr s → watch_event c ev s = Some s' → describes (tr ++ [ev]) s'.
Proof.
  intros [Hl Hs Ht Ho Hf Hg Hn] H. unfold watch_event in H. destruct (_ && _) eqn:Hw; [done|]. destruct (negb _); [done|]. injection H as <-.
  split; [| | |by eapply owes_step|..]; cbn; rewrite ?existsb_app; cbn; rewrite ?orb_false_r; [congruence..| | |].
  - intros [H|[H1 H2]%andb_prop]%orb_prop.
    + destruct (Hf H) as (tr1 & e & tr2 & -> & He & Hb). exists tr1, e, (tr2 ++ [ev]). by rewrite <- app_assoc.
    + exists tr, ev, []. split_and!; [done|done|congruence].
  - intros session H. destruct (settled_log ev) as [x|] eqn:E; [exists ev; split; [|congruence]; set_solver|]. destruct (Hg _ H) as (e & He & ?). exists e. split; [set_solver|done].
  - intros t H. destruct (told_time ev) as [x|] eqn:E; [exists ev; split; [|congruence]; set_solver|]. destruct (Hn _ H) as (e & He & ?). exists e. split; [set_solver|done].
Qed.

Lemma watch_all_app c tr1 tr2 s : watch_all c (tr1 ++ tr2) s = match watch_all c tr1 s with Some s' => watch_all c tr2 s' | None => None end.
Proof. revert s. induction tr1 as [|ev tr1 IH]; intros s; cbn; [done|]. destruct (watch_event c ev s); [apply IH|done]. Qed.

Lemma describes_all c tr s : watch_all c tr fresh_watch = Some s → describes tr s.
Proof.
  revert s. induction tr as [|ev tr IH] using rev_ind; intros s H; [injection H as <-; split; try done; intros _; apply closed_nil|].
  rewrite watch_all_app in H. destruct (watch_all c tr fresh_watch) as [s1|]; [|done]. cbn in H. destruct (watch_event c ev s1) as [s2|] eqn:E; [|done]. injection H as <-.
  eapply describes_step; [by apply IH|exact E].
Qed.

(** An effect of a watched trace, with what was seen before it. *)
Lemma watched_at c tr1 ev tr2 s :
  watch_all c (tr1 ++ ev :: tr2) fresh_watch = Some s →
  ∃ s1, describes tr1 s1 ∧ allowed c ev s1 = true ∧ (is_settlement ev || is_turn ev || is_write ev = true → lost s1 = false).
Proof.
  rewrite watch_all_app. destruct (watch_all c tr1 fresh_watch) as [s1|] eqn:E; [|done]. cbn. unfold watch_event.
  destruct (_ && lost s1) eqn:El; [done|]. destruct (allowed c ev s1) eqn:Ea; [|done]. intros _. exists s1. split; [by eapply describes_all|]. split; [done|].
  intros H. rewrite H in El. done.
Qed.

Lemma watched_later c tr1 ev tra e trb s :
  watch_all c (tr1 ++ ev :: tra ++ e :: trb) fresh_watch = Some s →
  ∃ s1, describes (tr1 ++ ev :: tra) s1 ∧ allowed c e s1 = true ∧ (is_settlement e || is_turn e || is_write e = true → lost s1 = false).
Proof. rewrite app_comm_cons, app_assoc. apply watched_at. Qed.

Lemma worker_watched srv c tr r : runs (executeQueuedRun srv c) tr r → ∃ s, watch_all c tr fresh_watch = Some s ∧ owes s = false.
Proof. intros H. exact (rules_runs c _ _ _ _ _ (rules_execute srv c) H). Qed.

Definition acts (ev : event workerE) : bool := is_settlement ev || is_turn ev || is_write ev.

Lemma allowed_settled c ev s : allowed c ev s = true → acts ev = true → settled s = false.
Proof. destruct ev as [B e b]. destruct e; cbn; intros H Ha; try done; bool_to_prop; done. Qed.
Lemma allowed_turned c ev s : allowed c ev s = true → is_turn ev = true → turned s = false.
Proof. destruct ev as [B e b]. destruct e; cbn; intros H Ha; try done; bool_to_prop; done. Qed.

(** Nothing of a kind in the rest of a trace. *)
Lemma rest_quiet {A} (P : A → bool) (tr2 : list A) : (∀ tra ev trb, tr2 = tra ++ ev :: trb → P ev = false) → Forall (λ ev, P ev = false) tr2.
Proof. intros H. apply Forall_forall. intros ev Hev. apply list_elem_of_split in Hev as (tra & trb & ->). by eapply H. Qed.

(** C30.  A worker settles a claim at most once, stops when it is lost and
    leaves no open writer behind.  Whatever the rest of the server answers: once
    the worker has settled the claim (finished, paused or given it back), or has
    learned from its monitor or from a write that the claim or its fence is lost,
    it neither settles it, nor runs a turn, nor itself writes to the session
    again (a flush of the writer, a fenced append, a repair or the recovery of a
    completed tool); it runs at most one turn; and before it releases the
    session's lease, and in any case before it returns, it has closed the writer
    of its turn, by a flush or by an abort, and has aborted it after every sign,
    during or after the turn, that the claim or the fence is lost.  The
    background flushes of the writer are not effects of this model. *)
Theorem worker_settles_once srv c tr r :
  runs (executeQueuedRun srv c) tr r →
  writer_closed tr
  ∧ ∀ tr1 ev tr2, tr = tr1 ++ ev :: tr2 →
    (is_settlement ev || is_loss ev = true → Forall (λ e, acts e = false) tr2)
    ∧ (is_turn ev = true → Forall (λ e, is_turn e = false) tr2)
    ∧ (is_release ev = true → writer_closed tr1).
Proof.
  intros (s & Hs & Ho)%worker_watched. split; [by apply (ds_owes _ _ (describes_all _ _ _ Hs))|]. intros tr1 ev tr2 ->.
  split_and!; [intros He; apply rest_quiet; intros tra e trb ->..|].
  - destruct (acts e) eqn:Ea; [|done]. exfalso. apply watched_later in Hs as (s1 & [Hl Hst _ _ _ _ _] & Hal & Hlost).
    rewrite existsb_app in Hl, Hst. cbn in Hl, Hst. apply orb_prop in He as [He|He]; rewrite He in *; rewrite ?orb_true_r in *; cbn in *; rewrite ?orb_true_r in *.
    + rewrite (allowed_settled _ _ _ Hal Ea) in Hst. done.
    + rewrite Hlost in Hl by exact Ea. done.
  - destruct (is_turn e) eqn:Ea; [|done]. exfalso. apply watched_later in Hs as (s1 & [_ _ Ht _ _ _ _] & Hal & _).
    rewrite existsb_app in Ht. cbn in Ht. rewrite He, orb_true_r in Ht. rewrite (allowed_turned _ _ _ Hal Ea) in Ht. done.
  - intros Hr. apply watched_at in Hs as (s1 & [_ _ _ Hc _ _ _] & Hal & _). apply Hc. destruct ev as [B e b]. destruct e; try done. cbn in Hal. by apply negb_true_iff.
Qed.

(** Every settlement has its reason.  A run is finished with a status other
    than failed only after its turn's events were flushed without an error, or
    when the repaired log already has that status; it is paused only after such
    a flush; it is given back only before any turn, with attempts left, and at
    a time between a quarter of a second and thirty seconds ahead; and a turn is
    run from its message only when the log has no trace of the run, and resumed
    only when it waits for an approval or is not in the log. *)
Theorem worker_settlements_are_justified srv c tr r tr1 ev tr2 :
  runs (executeQueuedRun srv c) tr r → tr = tr1 ++ ev :: tr2 →
  (∀ status code b, ev = Ev (FinishRunClaim status code) b →
     status = RunFailed ∨ flushed_turn tr1 ∨ ∃ e session, e ∈ tr1 ∧ settled_log e = Some session ∧ RunStatus session (c_run c) = (status, true))
  ∧ (∀ b, ev = Ev PauseRunClaim b → flushed_turn tr1)
  ∧ (∀ at_ code b, ev = Ev (RetryRunClaim at_ code) b →
       existsb is_turn tr1 = false ∧ qd_Attempt (c_task c) < qd_MaxAttempts (c_task c)
       ∧ ∃ e t, e ∈ tr1 ∧ told_time e = Some t ∧ 250 * ms ≤ at_ - t ≤ 30 * 1000 * ms)
  ∧ (∀ text session b, ev = Ev (Turn (RunTheTurn text) session) b → snd (RunStatus session (c_run c)) = false)
  ∧ (∀ session b, ev = Ev (Turn ResumeTheTurn session) b →
       snd (RunStatus session (c_run c)) = false ∨ fst (RunStatus session (c_run c)) = RunWaitingApproval).
Proof.
  intros (s & Hs & _)%worker_watched ->. apply watched_at in Hs as (s1 & [_ _ Ht _ Hf Hg Hn] & Hal & _). split_and!.
  - intros status code b ->. cbn in Hal. apply andb_prop in Hal as [_ Hal]. apply orb_prop in Hal as [Hal|Hal]; [apply orb_prop in Hal as [Hal|Hal]; bool_to_prop; [by left|right; left; auto]|].
    destruct (in_log s1) as [session|] eqn:E; [|done]. bool_to_prop. destruct (Hg _ eq_refl) as (e & He & Hlog). right. right. by exists e, session.
  - intros b ->. cbn in Hal. bool_to_prop. auto.
  - intros at_ code b ->. cbn in Hal. bool_to_prop. destruct (now_is s1) as [t|] eqn:E; [|done]. bool_to_prop. split; [congruence|]. split; [done|].
    destruct (Hn _ eq_refl) as (e & He & Htold). by exists e, t.
  - intros text session b ->. cbn in Hal. by bool_to_prop.
  - intros session b ->. cbn in Hal. destruct (RunStatus session (c_run c)) as [st ex]. apply andb_prop in Hal as [_ Hal]. cbn. destruct ex; [right; by apply bool_decide_eq_true in Hal|by left].
Qed.

(** ** Statistics *)

Lemma usage_data_fmap (x : option RunUsageData) : usage_data (DRunUsage <$> x) = x.
Proof. by destruct x. Qed.

Lemma sum_usage_exact run events : ∀ total,
  Forall (λ u, 0 ≤ InputTokens u ∧ 0 ≤ OutputTokens u) (usages_of run events) →
  tu_Input total + sum_z (InputTokens <$> usages_of run events) ≤ max_int64 → tu_Output total + sum_z (OutputTokens <$> usages_of run events) ≤ max_int64 →
  sum_usage events run total
    = Ok (mk_tokens (tu_Input total + sum_z (InputTokens <$> usages_of run events)) (tu_Output total + sum_z (OutputTokens <$> usages_of run events))).
Proof.
  assert (∀ l : list Z, Forall (λ x, 0 ≤ x) l → 0 ≤ sum_z l) as Hpos by (induction 1; cbn; [done|]; fold (sum_z l); lia).
  induction events as [|e events IH]; intros total Hnn Hi Ho; [cbn; rewrite !Z.add_0_r; by destruct total|]. cbn [sum_usage].
  assert (usages_of run (e :: events) = match usage_of run e with Some u => u :: usages_of run events | None => usages_of run events end) as Hu by done.
  rewrite Hu in *. unfold usage_of in *.
  destruct (decide (RunID e = run)) as [Hr|Hr]; [rewrite (bool_decide_eq_true_2 _ Hr) in *|rewrite (bool_decide_eq_false_2 _ Hr) in *; rewrite andb_false_r; by apply IH].
  destruct (decide (ev_Type e = EvRunUsage)) as [Ht|Ht];
    [rewrite (bool_decide_eq_true_2 _ Ht), Ht in *|rewrite (bool_decide_eq_false_2 _ Ht); cbn [andb]; destruct (ev_Type e); try done; by apply IH].
  cbn [andb decode_payload] in *. rewrite usage_data_fmap in *. destruct (unmarshal (dec_struct usage_fields) (mk_usage 0 0 "") (ev_Data e)) as [u|]; [|by apply IH].
  apply Forall_cons in Hnn as [[Hu1 Hu2] Hnn]. rewrite !fmap_cons in *.
  assert (0 ≤ sum_z (InputTokens <$> usages_of run events) ∧ 0 ≤ sum_z (OutputTokens <$> usages_of run events)) as [Hp1 Hp2].
  { split; apply Hpos, Forall_fmap; eapply Forall_impl; [exact Hnn| |exact Hnn|]; by intros ? []. }
  change (sum_z (InputTokens u :: (InputTokens <$> usages_of run events))) with (InputTokens u + sum_z (InputTokens <$> usages_of run events)) in *.
  change (sum_z (OutputTokens u :: (OutputTokens <$> usages_of run events))) with (OutputTokens u + sum_z (OutputTokens <$> usages_of run events)) in *.
  unfold fail_if. rewrite (proj2 (Z.ltb_ge _ _)), (proj2 (Z.ltb_ge _ _)) by lia. cbn [orb]. rewrite IH; cbn; [|done|lia..]. by rewrite !Z.add_assoc.
Qed.

Lemma usages_nonneg s run : log_inv s → Forall (λ u, 0 ≤ InputTokens u ∧ 0 ≤ OutputTokens u) (usages_of run (s_events s)).
Proof.
  intros Hi. apply Forall_forall. intros u Hu. apply list_elem_of_omap in Hu as (e & He & Hue). unfold usage_of in Hue. case_bool_decide; [|done].
  destruct (ev_Type e) eqn:Ht; try done. pose proof (li_valid _ Hi e He) as Hv. rewrite Ht in Hv. unfold validateSessionEvent in Hv.
  apply rbind_ok in Hv as (_ & _ & Hv). do 3 apply fail_if_ok in Hv as [_ Hv]. destruct (decode_payload _ _) as [[]|]; cbn in Hue; try done. injection Hue as ->.
  cbn in Hv. unfold validateRunUsageData in Hv. apply fail_if_ok in Hv as [Hv _]. apply orb_false_iff in Hv as [?%Z.ltb_ge ?%Z.ltb_ge]. done.
Qed.

(** The statistics of a run are its ledger: for every session the kernel can
    build, summing the usage events of a run from their JSON, as the worker does
    for its statistics, gives exactly the total the session keeps
    incrementally, and the guard against overflow never fires. *)
Theorem run_stats_are_the_ledger s run : reach s → sumRunUsageEvents (s_events s) run = Ok (runUsageTotal s run).
Proof.
  intros Hr. pose proof (reach_log_inv _ Hr) as Hi. pose proof (li_usage _ Hi run) as Hu. destruct (li_bounded _ Hi run) as [Hb1 Hb2]. rewrite Hu in Hb1, Hb2. cbn in Hb1, Hb2.
  unfold sumRunUsageEvents, runUsageTotal. rewrite Hu. rewrite sum_usage_exact; [done|by apply usages_nonneg|cbn; lia..].
Qed.

Lemma run_stats_are_the_ledger_witness : sumRunUsageEvents ex_events "r1" = Ok (runUsageTotal ex_session "r1").
Proof. exact (run_stats_are_the_ledger ex_session "r1" ex_session_reach). Defined.

(** The poll of an idle worker stays between its base and its maximum and at
    most doubles, also where doubling would overflow. *)
Lemma poll_bounds current base max : 0 < base ≤ max → max ≤ max_int64 → base ≤ nextWorkerPoll current base max ≤ max.
Proof.
  intros Hb Hm. unfold nextWorkerPoll. rewrite (proj2 (Z.leb_gt base 0)) by lia. rewrite (proj2 (Z.ltb_ge max base)) by lia. cbv zeta.
  destruct (Z.ltb_spec current base); [lia|]. destruct (Z.leb_spec max current); [lia|].
  destruct (Z.ltb_spec (wrap_int64 (current * 2)) current); cbn [orb]; [lia|]. destruct (Z.ltb_spec max (wrap_int64 (current * 2))); lia.
Qed.

(** ** A worker at work *)

Record worker_env := mk_worker_env { we_session : Session; we_repair : Session → Session + werr; we_status : string; we_flush : werr }.

Definition worker_answers (B : Type) (e : workerE B) (env : worker_env) : B * worker_env :=
  (match e in workerE B' return B' with
   | MonitorQueuedRunClaim => tt
   | ReasonIsLost => false
   | ReasonIsNone => true
   | StoreLost => tt
   | StopMonitor => tt
   | CancelRun => tt
   | AcquireRunLease _ _ _ => ("node-a", true, [])
   | ReleaseLease _ => tt
   | LoadSession _ => inl (we_session env)
   | ResolveRunPrincipal _ _ => ResolverAnswers (s_principal (we_session env))
   | RecoverCompleted _ => (None, [])
   | RepairFenced _ s => we_repair env s
   | WriterStore => (true, [])
   | RuntimeFor _ _ => []
   | ToolCheckpoint => []
   | ResolveExecutor _ => (true, [])
   | RequireProjectionAware => []
   | Turn _ s => (we_status env, [], s)
   | RunCtxErr => false
   | WorkerCtxErr => []
   | CheckpointFailed => false
   | FlushWriter _ => we_flush env
   | AbortWriter => []
   | AppendFenced _ _ _ => []
   | GetApproval _ => None
   | Now => 0
   | FinishRunClaim _ _ => (true, [])
   | PauseRunClaim => (true, [])
   | RetryRunClaim _ _ => (true, [])
   end, env).

Definition ex_server : WorkerServer := mk_worker_server true true true true 0 ex_clock.
Definition ex_task (attempt : Z) : claimed :=
  mk_claimed (mk_queued_run (mk_run_record "r1" "s1" "acme" "ann" "running" false "" 0 0 0) "hello" 0 "w1" 0 attempt 3 1 (mk_trace "" "")) "w1".
Definition ex_done : worker_env := mk_worker_env ex_new inl RunCompleted [].
(** The fence is lost while the turn runs. *)
Definition ex_lost : worker_env := mk_worker_env ex_new inl RunCompleted [ErrSessionWriteFenceLost].
Definition ex_trace (attempt : Z) (env : worker_env) : list (event workerE) := (drive worker_answers (executeQueuedRun ex_server (ex_task attempt)) env).2.

Lemma ex_trace_runs attempt env : ∃ r, runs (executeQueuedRun ex_server (ex_task attempt)) (ex_trace attempt env) r.
Proof. eexists. apply drive_trace. Qed.

Definition ex_finish : event workerE := Ev (FinishRunClaim RunCompleted "") (true, []).
Definition ex_at : nat := 22.
Lemma ex_trace_finish : ex_trace 1 ex_done !! ex_at = Some ex_finish.
Proof. vm_compute. reflexivity. Qed.

Definition ex_flush_at : nat := 18.
Lemma ex_trace_flush : ∃ session, ex_trace 1 ex_lost !! ex_flush_at = Some (Ev (FlushWriter session) [ErrSessionWriteFenceLost]).
Proof. eexists. vm_compute. reflexivity. Qed.

Lemma worker_settles_once_witness :
  Forall (λ e, acts e = false) (drop 23 (ex_trace 1 ex_done)) ∧ existsb is_abort (drop 19 (ex_trace 1 ex_lost)) = true.
Proof.
  destruct (ex_trace_runs 1 ex_done) as (r & Hr). destruct (ex_trace_runs 1 ex_lost) as (r' & Hr'). split.
  - exact (proj1 (proj2 (worker_settles_once ex_server (ex_task 1) (ex_trace 1 ex_done) r Hr)
             _ ex_finish _ (eq_sym (take_drop_middle _ _ _ ex_trace_finish))) eq_refl).
  - destruct ex_trace_flush as (session & Hf).
    exact (proj2 (proj1 (worker_settles_once ex_server (ex_task 1) (ex_trace 1 ex_lost) r' Hr'))
             _ _ _ (eq_sym (take_drop_middle _ _ _ Hf)) ltac:(vm_compute; reflexivity) eq_refl).
Defined.

Lemma worker_settlements_are_justified_witness :
  RunCompleted = RunFailed ∨ flushed_turn (take ex_at (ex_trace 1 ex_done))
  ∨ ∃ e session, e ∈ take ex_at (ex_trace 1 ex_done) ∧ settled_log e = Some session ∧ RunStatus session "r1" = (RunCompleted, true).
Proof.
  destruct (ex_trace_runs 1 ex_done) as (r & Hr).
  exact (proj1 (worker_settlements_are_justified ex_server (ex_task 1) (ex_trace 1 ex_done) r (take ex_at (ex_trace 1 ex_done)) ex_finish (drop (S ex_at) (ex_trace 1 ex_done))
                  Hr (eq_sym (take_drop_middle _ _ _ ex_trace_finish))) RunCompleted "" (true, []) eq_refl).
Defined.

(** ** A session left waiting *)

(** The session waits for an approval; on the last attempt its repair fails, for
    example because the run's context was cancelled. *)
Definition ex_repair_fails : worker_env := mk_worker_env ex_session (λ _, inr ["context canceled"]) RunCompleted [].

Definition closes_session (ev : event workerE) : bool :=
  match ev with Ev e _ => match e with AppendFenced _ _ _ | FlushWriter _ => true | _ => false end end.

(** A failed repair leaves the session waiting.  When a queued run can no
    longer be prepared the worker closes the approval the session waits for and
    then fails the run.  The error of the repair, however, has replaced the
    session by [nil] ([session, _, err = RepairInterruptedSessionFenced(...)]),
    so on the last attempt the run is finished as failed while the log of its
    session, which waits for an approval, is never closed. *)
Theorem failed_repair_leaves_the_session_waiting :
  RunStatus ex_session "r1" = (RunWaitingApproval, true)
  ∧ (∃ r, runs (executeQueuedRun ex_server (ex_task 3)) (ex_trace 3 ex_repair_fails) r)
  ∧ Ev (FinishRunClaim RunFailed "session_repair_failed") (true, []) ∈ ex_trace 3 ex_repair_fails
  ∧ Forall (λ ev, closes_session ev = false) (ex_trace 3 ex_repair_fails).
Proof.
  split; [vm_compute; reflexivity|]. split; [apply ex_trace_runs|].
  assert (ex_trace 3 ex_repair_fails !! 13%nat = Some (Ev (FinishRunClaim RunFailed "session_repair_failed") (true, []))) as H by (vm_compute; reflexivity).
  split; [by eapply list_elem_of_lookup_2|]. apply Forall_forall. intros ev Hev.
  assert (forallb (λ ev, negb (closes_session ev)) (ex_trace 3 ex_repair_fails) = true) as Hall by (vm_compute; reflexivity).
  rewrite forallb_forall in Hall. apply negb_true_iff, Hall. by apply list_elem_of_In.
Qed.
