(* ===== verification/Credential.v ===== *)
(** * Credentials: [src/pkg/core/credential.go]

    A registry of layered secret references.  A binding provides, replaces or
    disables a reference at a scope; the effective one for a target is found by
    walking from the root to the target at call time, and its provider answers
    with the value.  Providers of the host, and the environment of the process,
    are parameters. *)
From S2P Require Import Prelude GoString Json Scope Registry Principal Payload Policy Capability CapabilityClaims.
From stdpp Require Import gmap strings list.
From Stdlib Require Import ZArith Lia.
Open Scope Z_scope.

Definition ErrCredentialNotFound := "credential not found".

Record CredentialValue := mk_credential { cv_Value : string; cv_Source : string }.

Inductive CredentialProvider :=
| StaticCredentialProvider (value source : string)
| EnvironmentCredentialProvider (name : string)
| HostCredentialProvider (name : string).

Inductive CredentialBindingMode := CredentialProvide | CredentialReplace | CredentialDisable | CredentialModeOther (mode : string).
#[export] Instance CredentialBindingMode_eq_dec : EqDecision CredentialBindingMode.
Proof. solve_decision. Defined.

(** The empty mode is [CredentialProvide]. *)
Definition credential_mode (mode : string) : CredentialBindingMode :=
  if is_empty mode then CredentialProvide
  else if bool_decide (mode = "provide") then CredentialProvide
  else if bool_decide (mode = "replace") then CredentialReplace
  else if bool_decide (mode = "disable") then CredentialDisable else CredentialModeOther mode.

Record CredentialBinding := mk_cred {
  cr_Scope : ScopePath; cr_Ref : string; cr_Mode : CredentialBindingMode; cr_Provider : option CredentialProvider; cr_Protected : bool }.

#[export] Instance CredentialBinding_keyed : Keyed CredentialBinding := {| key_of b := path_string (cr_Scope b) |}.
Notation CredentialRegistry := (Registry CredentialBinding).

Definition validateCredentialRef (ref : string) : result unit := ValidateNamespacedID ref.

(** The guards of [Mount], and the binding it stores. *)
Definition check_credential (b : CredentialBinding) : result CredentialBinding :=
  fail_when Depth (cr_Scope b) =? 0 with "credential binding has an empty scope" ;;
  let! _ := validateCredentialRef (cr_Ref b) in
  match cr_Mode b with
  | CredentialProvide | CredentialReplace => fail_when negb (bool_decide (is_Some (cr_Provider b))) with "credential has no provider" ;; Ok b
  | CredentialDisable => Ok (mk_cred (cr_Scope b) (cr_Ref b) (cr_Mode b) None (cr_Protected b))
  | CredentialModeOther _ => Err "credential has unknown binding mode"
  end.

Definition cred_Mount (b : CredentialBinding) (r : CredentialRegistry) : result (CredentialRegistry * Handle) :=
  let! b := check_credential b in reg_mount b r.

Record CredentialRefView := mk_ref_view { rv_Ref : string; rv_Scope : ScopePath; rv_Mode : CredentialBindingMode }.

(** The bindings on the way to a target, root first. *)
Definition credentials_at (r : CredentialRegistry) (prefixes : list ScopePath) : list CredentialBinding :=
  mjoin ((λ prefix, st_val <$> reg_at r (path_string prefix)) <$> prefixes).
Definition path_credentials (r : CredentialRegistry) (target : ScopePath) : list CredentialBinding := credentials_at r (Prefixes target).

Definition cred_List (r : CredentialRegistry) (target : ScopePath) : result (list CredentialRefView) :=
  fail_when Depth target =? 0 with "target scope is empty" ;;
  Ok ((λ b, mk_ref_view (cr_Ref b) (cr_Scope b) (cr_Mode b)) <$> path_credentials r target).

Record effectiveCredential := mk_effective { ef_provider : option CredentialProvider; ef_scope : ScopePath; ef_protected : bool }.

(** One binding of the walk. *)
Definition apply_credential (ref : string) (effective : option effectiveCredential) (b : CredentialBinding) : result (option effectiveCredential) :=
  if negb (bool_decide (cr_Ref b = ref)) then Ok effective
  else
    let this := Some (mk_effective (cr_Provider b) (cr_Scope b) (cr_Protected b)) in
    match cr_Mode b with
    | CredentialProvide => match effective with Some _ => Err "credential is already provided; use replace explicitly" | None => Ok this end
    | CredentialReplace =>
      match effective with
      | None => Err "credential cannot replace a missing credential"
      | Some e => fail_when ef_protected e && negb (Equal (ef_scope e) (cr_Scope b)) with "credential is protected by scope" ;; Ok this
      end
    | CredentialDisable =>
      match effective with
      | None => Ok None
      | Some e => fail_when ef_protected e && negb (Equal (ef_scope e) (cr_Scope b)) with "credential is protected by scope" ;; Ok None
      end
    | CredentialModeOther _ => Ok effective
    end.

Definition effective_credential (r : CredentialRegistry) (target : ScopePath) (ref : string) : result (option effectiveCredential) :=
  rfold (apply_credential ref) None (path_credentials r target).

Section resolve.
(** [os.LookupEnv], and the providers of the host: none when they panic. *)
Context (lookup_env : string → option string) (host : string → Principal → option (result CredentialValue)).

(** [safeCredentialProviderResolve] of the three providers. *)
Definition safeCredentialProviderResolve (p : CredentialProvider) (principal : Principal) : result CredentialValue :=
  match p with
  | StaticCredentialProvider value source => if is_empty value then Err ErrCredentialNotFound else Ok (mk_credential value source)
  | EnvironmentCredentialProvider name =>
    match lookup_env name with
    | Some value => if is_empty value then Err ErrCredentialNotFound else Ok (mk_credential value ("env:" +:+ name))
    | None => Err ErrCredentialNotFound
    end
  | HostCredentialProvider name => match host name principal with Some answer => answer | None => Err "credential provider panicked" end
  end.

Definition ResolveCredential (r : CredentialRegistry) (principal : Principal) (target : ScopePath) (ref : string) : result CredentialValue :=
  fail_when negb (IsAncestorOf (p_Scope principal) target) with "principal scope does not own credential target" ;;
  let! _ := validateCredentialRef ref in
  let! effective := effective_credential r target ref in
  match effective with
  | Some (mk_effective (Some provider) _ _) =>
    let! value := safeCredentialProviderResolve provider (clonePrincipal principal) in
    fail_when is_empty (cv_Value value) with ErrCredentialNotFound ;; Ok value
  | _ => Err ErrCredentialNotFound
  end.

(** The registry as the resolver of capability calls. *)
Definition credential_resolver (r : CredentialRegistry) (principal : Principal) (target : ScopePath) (ref : string) : option string :=
  match ResolveCredential r principal target ref with Ok value => Some (cv_Value value) | Err _ => None end.

End resolve.

(** [callCredentialAccessor.Resolve]: only what the capability declared. *)
Definition accessor_Resolve (values : list (string * string)) (ref : string) : result string :=
  match list_to_map (M := gmap string string) values !! ref with Some value => Ok value | None => Err ErrCredentialNotFound end.

(** ** Reachable registries *)

Inductive cred_reach : CredentialRegistry * list Handle → Prop :=
| cred_init max : cred_reach (mk_registry ∅ 0 max, [])
| cred_mount r hs x r' h :
    cred_reach (r, hs) → valid_path (cr_Scope x) → cred_Mount x r = Ok (r', h) → reg_next r' < 2 ^ 64 - 1 → cred_reach (r', hs ++ [h])
| cred_unmount r hs i h r' h' :
    cred_reach (r, hs) → hs !! i = Some h → reg_unmount h r = (r', h') → cred_reach (r', <[i := h']> hs).

(** What is stored was checked, and sits at its own scope. *)
Definition credential_ok (b : CredentialBinding) : Prop :=
  valid_path (cr_Scope b) ∧ validateCredentialRef (cr_Ref b) = Ok tt
  ∧ match cr_Mode b with
    | CredentialProvide | CredentialReplace => is_Some (cr_Provider b)
    | CredentialDisable => cr_Provider b = None
    | CredentialModeOther _ => False
    end.

Lemma check_credential_ok b b' : valid_path (cr_Scope b) → check_credential b = Ok b' → credential_ok b' ∧ cr_Scope b' = cr_Scope b.
Proof.
  intros Hv. unfold check_credential. intros H. apply fail_if_ok in H as [_ H]. apply rbind_ok in H as ([] & Href & H). unfold credential_ok.
  destruct (cr_Mode b) eqn:Hm; [apply fail_if_ok in H as [Hp [=<-]]|apply fail_if_ok in H as [Hp [=<-]]|injection H as <-; cbn; done|done];
    bool_to_prop; rewrite Hm; done.
Qed.

Lemma cred_reach_inv s : cred_reach s → reg_inv s.1 ∧ ∀ k, Forall (λ l, credential_ok (st_val l) ∧ path_string (cr_Scope (st_val l)) = k) (reg_at s.1 k).
Proof.
  induction 1 as [max|r hs x r' h _ [IHi IHv] Hx Hm Hn|r hs i h r' h' _ [IHi IHv] _ Hu]; cbn in *.
  - split; [apply (reg_reach_inv (mk_registry ∅ 0 max, [])); constructor|]. intros k. unfold reg_at. cbn. by rewrite lookup_empty.
  - apply rbind_ok in Hm as (b & Hb & Hm). destruct (check_credential_ok _ _ Hx Hb) as [Hok Hsc].
    eapply reg_mount_inv in Hm as (Hi & _ & _ & Hat); [|done..]. split; [done|]. intros k. rewrite Hat. apply Forall_app. split; [done|].
    case_decide as Hk; [|by apply Forall_nil]. apply Forall_singleton. by split.
  - eapply reg_unmount_inv in Hu as (Hi & _ & Hat); [|done]. split; [done|]. intros k. rewrite Hat. destruct (h_done h); [done|].
    case_decide; [by apply Forall_filter_sub|done].
Qed.

(** ** The walk *)

Definition of_binding (b : CredentialBinding) : effectiveCredential := mk_effective (cr_Provider b) (cr_Scope b) (cr_Protected b).

Definition of_ref (ref : string) (b : CredentialBinding) : Prop := cr_Ref b = ref.
#[export] Instance of_ref_dec ref b : Decision (of_ref ref b).
Proof. unfold of_ref. apply _. Defined.

Lemma path_elem r hs ps : cred_reach (r, hs) → Forall valid_path ps → Forall (λ b, credential_ok b ∧ cr_Scope b ∈ ps) (credentials_at r ps).
Proof.
  intros Hr Ht. apply Forall_forall. intros b Hb. unfold credentials_at in Hb. apply list_elem_of_join in Hb as (l & Hb & Hl). apply list_elem_of_fmap in Hl as (p & -> & Hp).
  apply list_elem_of_fmap in Hb as (s & -> & Hs). destruct (cred_reach_inv _ Hr) as [_ Hv]. specialize (Hv (path_string p)). rewrite Forall_forall in Hv.
  destruct (Hv s Hs) as [Hok Hk]. split; [done|]. assert (cr_Scope (st_val s) = p) as ->; [|done].
  apply path_string_injective; [apply Hok| |done]. rewrite Forall_forall in Ht. by apply Ht.
Qed.

(** The effective credential is the last binding of the reference, unless that
    disables it. *)
Lemma effective_last ref l : ∀ eff,
  Forall credential_ok l → rfold (apply_credential ref) None l = Ok eff →
  match last (filter (of_ref ref) l) with
  | None => eff = None
  | Some b => eff = if bool_decide (cr_Mode b = CredentialDisable) then None else Some (of_binding b)
  end.
Proof.
  induction l as [|b l IH] using rev_ind; intros eff Hok H; [by injection H as <-|]. apply Forall_app in Hok as [Hok [Hb _]%Forall_cons].
  rewrite rfold_app in H. apply rbind_ok in H as (e & He & H). specialize (IH _ Hok He). cbn in H. apply rbind_ok in H as (e' & H & [=<-]).
  unfold apply_credential in H. rewrite filter_app, filter_cons, filter_nil. destruct (decide (of_ref ref b)) as [Hr|Hr].
  - rewrite bool_decide_eq_true_2 in H by done. cbn in H. rewrite last_snoc. destruct Hb as (_ & _ & Hm). destruct (cr_Mode b); cbn.
    + destruct e; [done|]. by injection H as <-.
    + destruct e; [|done]. by apply fail_if_ok in H as [_ [=<-]].
    + destruct e; [by apply fail_if_ok in H as [_ [=<-]]|by injection H as <-].
    + done.
  - rewrite bool_decide_eq_false_2 in H by done. injection H as <-. by rewrite app_nil_r.
Qed.

Lemma effective_protected ref e l : ∀ eff,
  ef_protected e = true → Forall (λ b, cr_Scope b ≠ ef_scope e) l → Forall credential_ok l →
  rfold (apply_credential ref) (Some e) l = Ok eff → eff = Some e.
Proof.
  induction l as [|b l IH]; intros eff Hp Hs Hok H; [by injection H as <-|]. apply Forall_cons in Hs as [Hne Hs]. apply Forall_cons in Hok as [Hb Hok].
  cbn in H. apply rbind_ok in H as (e' & H1 & H). assert (e' = Some e) as ->; [|by apply IH].
  unfold apply_credential in H1. destruct (negb _); [by injection H1 as <-|]. rewrite Hp in H1.
  assert (Equal (ef_scope e) (cr_Scope b) = false) as Heq by (apply not_true_iff_false; rewrite Equal_eq; congruence). rewrite Heq in H1.
  destruct (cr_Mode b); cbn in H1; try done. by injection H1 as <-.
Qed.

Lemma effective_found r hs t ref e :
  cred_reach (r, hs) → valid_path t → effective_credential r t ref = Ok (Some e) →
  ∃ b, last (filter (of_ref ref) (path_credentials r t)) = Some b ∧ cr_Mode b ≠ CredentialDisable ∧ e = of_binding b ∧ credential_ok b ∧ cr_Scope b ∈ Prefixes t.
Proof.
  intros Hr Ht He. pose proof (path_elem r hs (Prefixes t) Hr (valid_prefixes t Ht)) as Hall. fold (path_credentials r t) in Hall.
  pose proof (effective_last ref _ _ (Forall_impl _ _ _ Hall (λ b H, proj1 H)) He) as Hlast.
  destruct (last (filter (of_ref ref) (path_credentials r t))) as [b|] eqn:El; [|done]. exists b. case_bool_decide; [done|]. injection Hlast as ->.
  rewrite Forall_forall in Hall. assert (b ∈ path_credentials r t) as Hin by (apply last_Some_elem_of, list_elem_of_filter in El; apply El).
  by destruct (Hall b Hin).
Qed.

(** A protected credential that is effective at a scope is effective below it. *)
Lemma protected_below r hs s t ref e eff :
  cred_reach (r, hs) → valid_path s → valid_path t → IsAncestorOf s t = true →
  effective_credential r s ref = Ok (Some e) → ef_protected e = true → effective_credential r t ref = Ok eff → eff = Some e.
Proof.
  intros Hr Hs Ht Hanc He Hp Heff. destruct (Prefixes_split s t Hanc) as (rest & Hpre & Hrest).
  destruct (effective_found _ _ _ _ _ Hr Hs He) as (b & _ & _ & -> & _ & Hb). apply Prefixes_spec in Hb as [_ Hb%IsAncestorOf_prefix%prefix_length].
  pose proof (valid_prefixes t Ht) as Hvt. rewrite Hpre in Hvt. apply Forall_app in Hvt as [_ Hvr]. pose proof (path_elem r hs rest Hr Hvr) as Hall.
  unfold effective_credential, path_credentials, credentials_at in *. rewrite Hpre, fmap_app, join_app, rfold_app, He in Heff. cbn [rbind] in Heff.
  eapply effective_protected; [done| |eapply Forall_impl; [exact Hall|by intros ? []]|exact Heff].
  eapply Forall_impl; [exact Hall|]. intros x [_ Hx] Heq. rewrite Forall_forall in Hrest. apply Hrest in Hx. cbn in Heq. rewrite Heq in Hx. lia.
Qed.

(** ** The properties *)

(** A credential is the nearest one, and a protected one is final.  When a
    reference resolves for a target, the principal owns the target, and the value
    comes, not empty, from the provider of the last binding of the reference on
    the way from the root to the target, which does not disable it.  If at some
    scope on the way a protected binding was effective, it is that binding:
    nothing below can replace or disable it. *)
Theorem credentials_are_layered lookup_env host r hs principal target ref value :
  cred_reach (r, hs) → valid_path target → ResolveCredential lookup_env host r principal target ref = Ok value →
  IsAncestorOf (p_Scope principal) target = true
  ∧ ∃ b provider,
      last (filter (of_ref ref) (path_credentials r target)) = Some b ∧ cr_Mode b ≠ CredentialDisable ∧ IsAncestorOf (cr_Scope b) target = true
      ∧ cr_Provider b = Some provider ∧ safeCredentialProviderResolve lookup_env host provider (clonePrincipal principal) = Ok value ∧ cv_Value value ≠ ""
      ∧ ∀ s e, valid_path s → IsAncestorOf s target = true → effective_credential r s ref = Ok (Some e) → ef_protected e = true → e = of_binding b.
Proof.
  intros Hr Ht H. unfold ResolveCredential in H. apply fail_if_ok in H as [Hanc H]. apply negb_false_iff in Hanc. split; [done|].
  apply rbind_ok in H as ([] & _ & H). apply rbind_ok in H as (eff & He & H). destruct eff as [e|]; [|done].
  pose proof (effective_found _ _ _ _ _ Hr Ht He) as (b & Hl & Hm & -> & Hok & Hin). cbn in H. destruct (cr_Provider b) as [p|] eqn:Hp; [|done].
  apply rbind_ok in H as (v & Hv & H). apply fail_if_ok in H as [Hne [=->]]. exists b, p. apply Prefixes_spec in Hin as [_ Hin].
  split_and!; try done; [unfold is_empty in Hne; by bool_to_prop|]. intros s e Hs Hsa Hes Hpe.
  pose proof (protected_below _ _ _ _ _ _ _ Hr Hs Ht Hsa Hes Hpe He) as [=->]. done.
Qed.

(** A call sees exactly the credentials its capability declares. *)
Lemma accessor_least (resolve : Principal → ScopePath → string → option string) principal target refs values ref :
  resolveCallCredentials resolve principal target refs = Some values →
  match accessor_Resolve values ref with
  | Ok v => ref ∈ refs ∧ resolve principal target ref = Some v
  | Err _ => ref ∉ refs
  end.
Proof.
  revert values. induction refs as [|x refs IH]; intros values H; cbn in H; [injection H as <-; unfold accessor_Resolve; cbn; rewrite lookup_empty; apply not_elem_of_nil|].
  destruct (resolve principal target x) as [v|] eqn:Hx; [|done]. destruct (resolveCallCredentials _ _ _ refs) as [vs|]; [|done]. injection H as <-.
  specialize (IH vs eq_refl). unfold accessor_Resolve in *. cbn. destruct (decide (x = ref)) as [->|Hne].
  - rewrite lookup_insert_eq. split; [left|done].
  - rewrite lookup_insert_ne by done. destruct (_ !! ref); [destruct IH; split; [by right|done]|]. intros [?|?]%elem_of_cons; [congruence|done].
Qed.

(** ** A witness *)

Definition ex_cred_root : CredentialBinding := mk_cred ex_tenant "acme.api" CredentialProvide (Some (StaticCredentialProvider "s3cret" "vault")) true.
Definition ex_credentials : CredentialRegistry := match cred_Mount ex_cred_root (mk_registry ∅ 0 0) with Ok (r, _) => r | Err _ => mk_registry ∅ 0 0 end.
Lemma ex_credentials_reach : ∃ h, cred_reach (ex_credentials, [h]).
Proof.
  eexists. apply (cred_mount (mk_registry ∅ 0 0) [] ex_cred_root); [constructor|exact ex_tenant_valid|vm_compute; reflexivity|vm_compute; reflexivity].
Qed.

Lemma credentials_are_layered_witness :
  ∃ b, last (filter (of_ref "acme.api") (path_credentials ex_credentials ex_user)) = Some b ∧ cr_Mode b ≠ CredentialDisable.
Proof.
  destruct ex_credentials_reach as (h & Hr).
  destruct (credentials_are_layered (λ _, None) (λ _ _, None) ex_credentials [h] ex_principal ex_user "acme.api" (mk_credential "s3cret" "vault") Hr ex_user_valid) as (_ & b & p & Hb & Hm & _).
  - vm_compute. reflexivity.
  - exists b. split; [exact Hb|exact Hm].
Defined.
