(* ===== verification/TrustGate.v ===== *)
(** * The trust gate: [src/pkg/core/trust_gate.go]

    A provider that must not run outside the guard asks for a proof: the kernel
    mints one for every journaled call, and [RequireAcceptedInvocation] compares
    it with the request the provider was handed.  The proof is minted from the
    session, the request from the capability snapshot; what follows says when
    the two agree. *)
From S2P Require Import Prelude GoString Json Scope Registry Principal Sha256 Payload Events Message Session SessionLog SessionClaims Policy Capability CapabilityClaims ModelCall Journal Guard Agent TurnReport TurnClaims Profile ProfileClaims Runtime RuntimeClaims.
From stdpp Require Import gmap strings list.
From Stdlib Require Import ZArith Lia.
Open Scope Z_scope.

(** The proof; a value whose seal is nil is no proof, [None]. *)
Record AcceptedInvocation := mk_accepted { ac_invocation : ToolInvocation; ac_scope : ScopePath; ac_principal : Principal }.

Definition mintAcceptedInvocation (i : ToolInvocation) (scope : ScopePath) (principal : Principal) : AcceptedInvocation :=
  mk_accepted i scope (clonePrincipal principal).

(** [digestArgs] of the canonical arguments. *)
Definition digestArgs (args : gmap string json) : string := sha256_hex (json_text (json_of_any_map args)).

(** [request.Context.Accepted] and the session and run of
    [request.Context.Invocation] come with the context of the call. *)
Definition RequireAcceptedInvocation (accepted : option AcceptedInvocation) (sessionID runID : string) (rq : CapabilityRequest) : result unit :=
  match accepted with
  | None => Err "accepted tool invocation is required"
  | Some ac =>
    let i := ac_invocation ac in
    match ValidateToolInvocation i with
    | Err _ => Err "accepted tool invocation is required: invalid proof"
    | Ok _ =>
      fail_when (Depth (ac_scope ac) =? 0) || (Depth (rq_Scope rq) =? 0) with "accepted tool invocation is required: scope is empty" ;;
      fail_when negb (Equal (ac_scope ac) (rq_Scope rq)) with "accepted tool invocation is required: scope mismatch" ;;
      fail_when negb (samePrincipal (ac_principal ac) (rq_Principal rq)) with "accepted tool invocation is required: principal mismatch" ;;
      fail_when is_empty (rq_CapabilityID rq) || is_empty (rq_CallID rq) with "accepted tool invocation is required: request identity is incomplete" ;;
      fail_when negb (bool_decide (ti_TenantID i = TenantID (rq_Principal rq))) || negb (bool_decide (ti_SubjectID i = SubjectID (rq_Principal rq)))
        || negb (bool_decide (ti_SessionID i = sessionID)) || negb (bool_decide (ti_RunID i = runID))
        || negb (bool_decide (ti_CallID i = rq_CallID rq)) || negb (bool_decide (ti_CapabilityID i = rq_CapabilityID rq))
        with "accepted tool invocation is required: invocation identity mismatch" ;;
      fail_when negb (bool_decide (ArgsDigest i = digestArgs (rq_Args rq))) with "accepted tool invocation is required: argument digest mismatch" ;; Ok tt
    end
  end.

(** What the guard mints for a journaled call of an agent on [session]. *)
Definition guard_proof (session : Session) (info : RunInfo) (i : ToolInvocation) : AcceptedInvocation :=
  mintAcceptedInvocation i (s_scope session) (in_Principal info).

(** ** The identity a proof binds *)

Lemma validate_identity i : ValidateToolInvocation i = Ok tt → ti_CallID i ≠ "" ∧ ti_CapabilityID i ≠ "".
Proof.
  unfold ValidateToolInvocation. intros H. do 3 (apply rbind_ok in H as ([] & ? & H)). apply rbind_ok in H as ([] & Hcap & _).
  split; intros E; [rewrite E in *|rewrite E in Hcap]; done.
Qed.

(** A proof passes for one principal, session, run, call, capability, scope and
    digest of arguments. *)
Lemma accepted_is_bound ac sessionID runID rq :
  RequireAcceptedInvocation (Some ac) sessionID runID rq = Ok tt →
  ac_scope ac = rq_Scope rq ∧ samePrincipal (ac_principal ac) (rq_Principal rq) = true
  ∧ journal_key (ac_invocation ac) = (sessionID, runID, rq_CallID rq) ∧ ti_CapabilityID (ac_invocation ac) = rq_CapabilityID rq
  ∧ ti_TenantID (ac_invocation ac) = TenantID (rq_Principal rq) ∧ ti_SubjectID (ac_invocation ac) = SubjectID (rq_Principal rq)
  ∧ ArgsDigest (ac_invocation ac) = digestArgs (rq_Args rq).
Proof.
  cbn [RequireAcceptedInvocation]. cbv zeta. destruct (ValidateToolInvocation _); [|done]. rewrite !fail_if_ok. intros (_ & Hs & Hp & _ & Hi & Hd & _).
  apply negb_false_iff in Hs, Hp. apply Equal_eq in Hs. bool_to_prop. unfold journal_key. split_and!; congruence.
Qed.

(** ** The request of a composed agent *)

Lemma rebuild_identity clock s entries provs :
  cs_Scope (rebuild clock s entries provs) = cs_Scope s ∧ cs_principal (rebuild clock s entries provs) = clonePrincipal (cs_principal s).
Proof. unfold rebuild. by destruct (snapshotDigest _ _ _). Qed.

(** A snapshot of [principal] at [scope]. *)
Definition snapshot_for (principal : Principal) (scope : ScopePath) (s : CapabilitySnapshot) : Prop :=
  cs_Scope s = scope ∧ clonePrincipal (cs_principal s) = clonePrincipal principal.

Lemma filters_keep_identity clock principal scope s : snapshot_for principal scope s →
  (∀ permissions, snapshot_for principal scope (FilterByPermissions clock s permissions))
  ∧ (∀ f, snapshot_for principal scope (FilterByPredicate clock s f))
  ∧ (∀ ids s', snap_Filter clock s ids = Ok s' → snapshot_for principal scope s').
Proof.
  intros [<- Hp].
  assert (∀ entries provs, snapshot_for principal (cs_Scope s) (rebuild clock s entries provs)) as Hr.
  { intros entries provs. destruct (rebuild_identity clock s entries provs) as [? E]. split; [done|]. by rewrite E, clonePrincipal_idem. }
  split_and!.
  - intros permissions. apply Hr.
  - intros [f|]; [apply Hr|done].
  - intros ids s'. unfold snap_Filter. rewrite (surjective_pairing (keep_entries _ _)), fail_if_ok. intros [_ [=<-]]. apply Hr.
Qed.

Lemma compose_identity resolve_model resolve_fast clock rt registry principal s scope metadata override filter emit profile opts :
  compose_with resolve_model resolve_fast clock rt registry principal s scope metadata override filter emit profile = inl opts →
  snapshot_for principal scope (g_Tools (a_guard opts)).
Proof.
  unfold compose_with. destruct (coded _ (cap_resolve _ _ _ _ _)) as [all|] eqn:Hall; [|done]. apply coded_inl, cap_resolve_ok in Hall as (? & ? & _ & _ & _ & ->).
  destruct (coded _ (FilterCapabilities _ _ _)) as [sel|] eqn:Hsel; [|done]. apply coded_inl in Hsel. cbv zeta.
  destruct (coded _ (narrow_by_policy _ _ _ _ _ _ _)) as [[[[tools permissions] steps] calls]|] eqn:Hpol; [|done]. apply coded_inl in Hpol.
  destruct (coded _ (resolve_model _)) as [model|]; [|done]. destruct (coded _ (match resolve_fast with _ => _ end)) as [fast|]; [|done].
  intros Hnew%coded_inl. assert (g_Tools (a_guard opts) = FilterByPredicate clock tools filter) as ->.
  { unfold NewAgent in Hnew. cbv zeta in Hnew. rewrite !fail_if_ok in Hnew. destruct Hnew as (_ & _ & _ & _ & Hnew). by apply rbind_ok in Hnew as (? & _ & [=<-]). }
  assert (snapshot_for principal scope sel) as Hs.
  { eapply filters_keep_identity; [|exact Hsel]. split; [done|]. apply clonePrincipal_idem. }
  apply filters_keep_identity. pose proof (proj1 (filters_keep_identity clock _ _ _ Hs) (Grants principal)) as Hg.
  unfold narrow_by_policy in Hpol. destruct (r_Policy rt) as [policies|]; [|by injection Hpol as <- _ _ _].
  apply rbind_ok in Hpol as (policy & _ & Hpol). injection Hpol as <- _ _ _. by apply filters_keep_identity.
Qed.

Lemma gate_on_request resolve_credential snap principal scope (s : Session) info call idempotent i p m rq :
  snapshot_for principal scope snap → valid_path (s_scope s) → any_map_stable (tc_Args call) = true →
  NewToolInvocation info call idempotent = Ok i → prepare_execution resolve_credential snap call = inr (p, m, rq) →
  RequireAcceptedInvocation (Some (guard_proof s info i)) (in_SessionID info) (in_RunID info) rq = Ok tt
  ↔ scope = s_scope s ∧ samePrincipal (clonePrincipal (in_Principal info)) (clonePrincipal principal) = true.
Proof.
  intros [<- Hp] Hv Hst Hi Hrq. pose proof (prepare_ok _ _ _ _ _ _ Hrq) as (_ & _ & _ & Hcall & Hcap & Hsc & Hpr & _).
  assert (rq_Args rq = tc_Args call) as Hargs.
  { unfold prepare_execution in Hrq. destruct (validateToolCall call); [|done]. destruct (providers snap !! _) as [[pv|]|]; [|done..].
    destruct (negb _); [done|]. destruct (manifestInternal _ _); [|done]. destruct (resolveCallCredentials _ _ _ _); [|done].
    unfold cloneCallArgs in Hrq. destruct (fail_if _ _ _) as [args|] eqn:E; [|done]. apply fail_if_ok in E as [_ [=<-]]. injection Hrq as _ _ <-. by apply cloneMap_stable. }
  apply rbind_ok in Hi as ([] & Hval & [=<-]). pose proof (validate_identity _ Hval) as [Hid Hcid]. cbn [ti_CallID ti_CapabilityID] in Hid, Hcid.
  split.
  - intros H. apply accepted_is_bound in H as (Hs & Hsame & _). rewrite Hsc in Hs. by rewrite Hpr, Hp in Hsame.
  - intros [Hs Hsame]. cbn [RequireAcceptedInvocation guard_proof mintAcceptedInvocation ac_invocation ac_scope ac_principal]. cbv zeta. rewrite Hval.
    rewrite Hcall, Hcap, Hsc, Hpr, Hp, Hs, Hargs, Hsame, (proj2 (Equal_eq _ _) eq_refl). cbn [ti_TenantID ti_SubjectID ti_SessionID ti_RunID ti_CallID ti_CapabilityID ArgsDigest].
    assert (Depth (s_scope s) =? 0 = false) as ->.
    { unfold Depth. destruct Hv as [Hne _]. destruct (segments (s_scope s)); [done|done]. }
    unfold is_empty. rewrite (bool_decide_eq_false_2 (tc_Name call = "")), (bool_decide_eq_false_2 (tc_ID call = "")) by done.
    unfold samePrincipal in Hsame. bool_to_prop. cbn [clonePrincipal TenantID SubjectID] in *. unfold digestArgs.
    rewrite !bool_decide_eq_true_2 by done. done.
Qed.

(** ** The property *)

(** The bindings a turn brings along. *)
Definition run_bindings (q : RuntimeRequest) : list CapabilityBinding := match q with RtRun i => RunCapabilities i | _ => [] end.

(** They were mounted. *)
Definition run_surface_mounted (rc : string → option (string → bool)) (rt : Runtime) (s : Session) (q : RuntimeRequest) : bool :=
  match q with RtRun i => is_ok (mountRunCapabilities rc (RunCapabilities i) (s_scope s) (ti_Run i) (r_Capabilities rt)).2 | _ => true end.

Lemma surface_is_the_session rc rt s q :
  run_surface_mounted rc rt s q = true → (rt_surface rc rt s q).2 = s_scope s ↔ run_bindings q = [].
Proof.
  destruct q as [i|i|i]; cbn [run_surface_mounted rt_surface run_bindings]; [|done..]. unfold mountRunCapabilities.
  destruct (RunCapabilities i) as [|b bs]; cbn [snd].
  { intros _. split; [done|]. intros _. by destruct (negb _). }
  destruct (is_empty (ti_Run i)); [done|]. destruct (Child _ _) as [scope|] eqn:Hc; [|done]. destruct (mount_bindings _ _ _ _ _) as [r [hs|]]; [|done]. cbn.
  intros _. split; [|done]. intros H. exfalso. unfold Child in Hc. apply NewScopePath_ok in Hc as [-> _].
  destruct (Equal _ _) eqn:Heq; cbn in H; [apply Equal_eq in Heq|].
  - apply (f_equal (λ p, length (segments p))) in Heq. cbn in Heq. rewrite length_app in Heq. cbn in Heq. lia.
  - apply (f_equal (λ p, length (segments p))) in H. cbn in H. rewrite length_app in H. cbn in H. lia.
Qed.

(** What the trust gate admits.  In a turn of the runtime - composed for a
    principal, on a session, with the bindings the turn brings along - a
    provider that is handed a journaled call with the proof minted for it passes
    [RequireAcceptedInvocation] exactly when the turn brought no bindings and the
    principal is, grants and attributes included, the one the session was
    created for.  A turn with run capabilities resolves its snapshot in
    <session>/run/<id> while the proof names the session's scope, so every
    provider behind the gate is refused in it; and so is every provider of a
    session whose owner's grants changed since. *)
Theorem trust_gate_admits_the_session_surface regexp_Compile resolve_credential resolve_model resolve_fast clock rt principal (a : agentState) q emit profile opts
    call idempotent i p m rq :
  let s := ag_session a in
  valid_path (s_scope s) → run_surface_mounted regexp_Compile rt s q = true →
  compose_with resolve_model resolve_fast clock rt (rt_surface regexp_Compile rt s q).1 principal s (rt_surface regexp_Compile rt s q).2
    (rt_metadata q) (rt_override q) (rt_filter q) emit profile = inl opts →
  any_map_stable (tc_Args call) = true →
  NewToolInvocation (run_info a) call idempotent = Ok i → prepare_execution resolve_credential (g_Tools (a_guard opts)) call = inr (p, m, rq) →
  RequireAcceptedInvocation (Some (guard_proof s (run_info a) i)) (Session.s_id s) (ag_runID a) rq = Ok tt
  ↔ run_bindings q = [] ∧ samePrincipal (clonePrincipal (s_principal s)) (clonePrincipal principal) = true.
Proof.
  intros s Hv Hm Hc Hst Hi Hrq. apply compose_identity in Hc.
  pose proof (gate_on_request _ _ _ _ s _ _ _ _ _ _ _ Hc Hv Hst Hi Hrq) as Hg. cbn [run_info in_SessionID in_RunID in_Principal] in Hg.
  rewrite clonePrincipal_idem in Hg. rewrite <- (surface_is_the_session regexp_Compile rt s q Hm). exact Hg.
Qed.

(** ** A witness *)

(** The run of the runtime's example, with its one binding. *)
Definition ex_gate_agent : agentState := mk_agent ex_rt_session "r9" ∅ 0 ∅ ∅ "".
Definition ex_gate_options : AgentOptions + (string * string) :=
  compose_with (λ _, Ok ex_adapter) None ex_now ex_runtime (rt_surface no_regexp ex_runtime ex_rt_session (RtRun ex_rt_input)).1 ex_principal ex_rt_session
    (rt_surface no_regexp ex_runtime ex_rt_session (RtRun ex_rt_input)).2 ∅ 3 None true ex_rt_profile.
Definition ex_gate_prepared : option (AgentOptions * ToolInvocation * (Provider * CapabilityManifest * CapabilityRequest)) :=
  match ex_gate_options, NewToolInvocation (run_info ex_gate_agent) ex_guard_call false with
  | inl opts, Ok i => match prepare_execution (λ _ _ _, None) (g_Tools (a_guard opts)) ex_guard_call with inr x => Some (opts, i, x) | inl _ => None end
  | _, _ => None
  end.
Lemma ex_gate_prepares : bool_decide (is_Some ex_gate_prepared) = true.
Proof. vm_compute. reflexivity. Qed.

Lemma trust_gate_admits_the_session_surface_witness :
  ∃ i rq, NewToolInvocation (run_info ex_gate_agent) ex_guard_call false = Ok i
    ∧ RequireAcceptedInvocation (Some (guard_proof ex_rt_session (run_info ex_gate_agent) i)) "s1" "r9" rq ≠ Ok tt.
Proof.
  pose proof ex_gate_prepares as H%bool_decide_eq_true. destruct H as [[[opts i] [[p m] rq]] H]. unfold ex_gate_prepared in H.
  destruct ex_gate_options as [opts'|] eqn:Ho; [|discriminate H]. destruct (NewToolInvocation _ _ _) as [i'|] eqn:Hi; [|discriminate H].
  destruct (prepare_execution _ _ _) as [|x] eqn:Hp; [discriminate H|]. injection H as -> -> ->. exists i, rq. split; [reflexivity|]. intros Hg.
  apply (trust_gate_admits_the_session_surface no_regexp (λ _ _ _, None) (λ _, Ok ex_adapter) None ex_now ex_runtime ex_principal ex_gate_agent (RtRun ex_rt_input) true ex_rt_profile
    opts ex_guard_call false i p m rq ex_rt_scope_valid) in Hg; [destruct Hg as [Hg _]; discriminate Hg|vm_compute; reflexivity|exact Ho|vm_compute; reflexivity|exact Hi|exact Hp].
Defined.
