(* ===== verification/Plugin.v ===== *)
(** * Plugins: [src/pkg/core/plugin.go]

    A plugin contributes capabilities, profiles, credentials and policies to the
    host's registries through a mount fixed to one scope.  [MountPlugin] installs
    it and undoes everything when the installation fails; [Close] undoes it
    later.  The registries are shared with the rest of the host, which mounts and
    unmounts contributions of its own at any moment.

    The four registries meet the plugin through one interface, [ScopedStore]. *)
From S2P Require Import Prelude GoString Json Scope Registry Principal Policy Payload Capability CapabilityClaims Profile ProfileClaims Credential.
From stdpp Require Import gmap strings list relations.
From Stdlib Require Import ZArith Lia Ascii.
Open Scope Z_scope.

(** ** What a registry promises *)

Class ScopedStore (R V : Type) := {
  ss_mount : V → R → result (R * Handle);
  ss_unmount : Handle → R → R * Handle;
  ss_at : R → string → list (stored V);
  ss_next : R → Z;
  ss_inv : R → Prop;
  ss_scope : V → ScopePath }.

(** A handle only ever removes what sits at its key. *)
Definition genuine {R V} `{ScopedStore R V} (r : R) (h : Handle) : Prop :=
  0 < h_order h ≤ ss_next r ∧ ∀ k s, s ∈ ss_at r k → st_order s = h_order h → k = h_key h.

Class StoreLaws (R V : Type) `{ScopedStore R V} := {
  sl_mount x (r r' : R) h :
    ss_inv r → valid_path (ss_scope x) → ss_mount x r = Ok (r', h) → ss_next r' < 2 ^ 64 - 1 →
    ss_inv r' ∧ ss_next r' = ss_next r + 1 ∧ h_order h = ss_next r + 1 ∧ h_done h = false
    ∧ ∃ v, ∀ k, ss_at r' k = ss_at r k ++ (if decide (h_key h = k) then [mk_stored v (h_order h)] else []);
  sl_unmount h (r r' : R) h' :
    ss_inv r → genuine r h → h_done h = false → ss_unmount h r = (r', h') →
    ss_inv r' ∧ ss_next r' = ss_next r ∧ ∀ k, ss_at r' k = filter (λ s, st_order s ≠ h_order h) (ss_at r k);
  sl_orders (r : R) k s : ss_inv r → s ∈ ss_at r k → 0 < st_order s ≤ ss_next r;
  sl_next (r : R) : ss_inv r → 0 ≤ ss_next r;
  sl_count x (r r' : R) h : ss_inv r → ss_mount x r = Ok (r', h) → ss_next r' ≤ ss_next r + 1 }.

(** The keyed registries. *)
Section keyed.
Context {V : Type} `{Keyed V} (mount : V → Registry V → result (Registry V * Handle)) (scope : V → ScopePath).
Hypothesis mount_reg : ∀ x r r' h, mount x r = Ok (r', h) → ∃ y, reg_mount y r = Ok (r', h).

Definition keyed_store : ScopedStore (Registry V) V :=
  {| ss_mount := mount; ss_unmount := reg_unmount; ss_at := reg_at; ss_next := reg_next; ss_inv := reg_inv; ss_scope := scope |}.

Lemma keyed_laws : @StoreLaws (Registry V) V keyed_store.
Proof using mount_reg.
  split.
  - intros x r r' h Hi _ Hm Hn. apply mount_reg in Hm as (y & Hm). apply reg_mount_inv in Hm as (? & ? & -> & Hat); [|done..]. cbn. split_and!; try done. by exists y.
  - intros h r r' h' Hi [_ Hg] Hd Hu. apply reg_unmount_inv in Hu as (? & ? & Hat); [|done]. split_and!; try done. intros k. cbn in *. rewrite Hat, Hd.
    case_decide as Hk; [done|]. symmetry. apply filter_all, Forall_forall. intros s Hs Ho. by apply Hk; symmetry; eapply Hg.
  - intros r k s (Hsl & _) Hs. destruct (Hsl k) as [_ Hf]. rewrite Forall_forall in Hf. by apply Hf.
  - intros r (_ & ? & _). cbn. lia.
  - intros x r r' h (_ & ? & _) Hm. cbn in Hm. apply mount_reg in Hm as (y & Hm). apply fail_if_ok in Hm as [_ Hm]. injection Hm as <- _. cbn.
    unfold uint64. apply Z.mod_le; lia.
Qed.
End keyed.

#[export] Instance capability_store (regexp_Compile : string → option (string → bool)) : ScopedStore CapabilityRegistry CapabilityBinding :=
  keyed_store (cap_Mount regexp_Compile) cb_Scope.
#[export] Instance capability_laws regexp_Compile : @StoreLaws CapabilityRegistry CapabilityBinding (capability_store regexp_Compile).
Proof. apply keyed_laws. intros x r r' h Hm. apply rbind_ok in Hm as (y & _ & Hm). by exists y. Qed.

#[export] Instance credential_store : ScopedStore CredentialRegistry CredentialBinding := keyed_store cred_Mount cr_Scope.
#[export] Instance credential_laws : StoreLaws CredentialRegistry CredentialBinding.
Proof. apply keyed_laws. intros x r r' h Hm. apply rbind_ok in Hm as (y & _ & Hm). by exists y. Qed.

#[export] Instance policy_store : ScopedStore PolicyRegistry PolicyLayer := keyed_store policy_Mount pl_Scope.
#[export] Instance policy_laws : StoreLaws PolicyRegistry PolicyLayer.
Proof. apply keyed_laws. intros x r r' h Hm. apply rbind_ok in Hm as (y & _ & Hm). by exists x. Qed.

(** The profile registry. *)
#[export] Instance profile_store : ScopedStore AgentProfileRegistry AgentProfileLayer :=
  {| ss_mount := profile_Mount; ss_unmount := profile_unmount; ss_at := layers_at; ss_next := pr_next; ss_inv := profile_inv; ss_scope := l_Scope |}.

Lemma layers_flat r s : profile_inv r → s ∈ pr_flat r ↔ s ∈ layers_at r (stored_key s).
Proof. intros (Hix & _). rewrite Hix, list_elem_of_filter. tauto. Qed.

#[export] Instance profile_laws : StoreLaws AgentProfileRegistry AgentProfileLayer.
Proof.
  split.
  - intros x r r' h Hi Hv Hm Hn. cbn in *. pose proof (mount_inv x r r' h [] Hi (Forall_nil_2 _) Hv Hm Hn) as [Hi' _]. split; [done|].
    unfold profile_Mount in Hm. apply rbind_ok in Hm as ([] & _ & Hm). apply fail_if_ok in Hm as [_ Hm]. injection Hm as <- <-. cbn [pr_next h_order h_key h_done] in *.
    destruct Hi as (_ & _ & _ & Hnext & _). assert (uint64 (pr_next r + 1) = pr_next r + 1) as Hu by (unfold uint64; apply Z.mod_small; lia). rewrite Hu in *.
    split; [done|]. split; [done|]. split; [done|]. exists (cloneProfileLayer x). intros k.
    rewrite layers_at_insert. case_decide as Hk; [by subst|]. by rewrite app_nil_r.
  - intros h r r' h' Hi [Ho Hg] Hd Hu. cbn in *. pose proof Hi as (Hix & Hs & Hf & Hnext & _).
    assert (handle_ok r h) as Hok.
    { split; [lia|]. apply Forall_forall. intros s Hs' Heq. apply (Hg (stored_key s) s); [by apply layers_flat|done]. }
    destruct (unmount_inv _ _ _ _ Hi Hok Hu) as (Hi' & ? & _). split_and!; try done. intros k.
    destruct Hi' as (Hix' & _). rewrite Hix'. unfold profile_unmount in Hu. rewrite Hd in Hu. injection Hu as <- _. cbn [pr_flat].
    by rewrite remove_first_order, filter_comm, <- Hix by done.
  - intros r k s Hi Hs. cbn in *. destruct Hi as (Hix & _ & Hf & _). rewrite Hix, list_elem_of_filter in Hs. destruct Hs as [_ Hs]. rewrite Forall_forall in Hf. by apply Hf.
  - intros r (_ & _ & _ & ? & _). cbn. lia.
  - intros x r r' h (_ & _ & _ & ? & _) Hm. cbn in Hm. apply rbind_ok in Hm as ([] & _ & Hm). apply fail_if_ok in Hm as [_ Hm]. injection Hm as <- _. cbn.
    unfold uint64. apply Z.mod_le; lia.
Qed.

(** ** The mount *)

Record PluginManifest := mk_plugin_manifest { pm_ID : string; pm_Version : string; pm_Description : string; pm_Metadata : gmap string string }.

(** The registries of the host; the credential and the policy registry are
    optional. *)
Record Registries := mk_registries {
  ph_Capabilities : CapabilityRegistry; ph_Profiles : AgentProfileRegistry; ph_Credentials : option CredentialRegistry; ph_Policies : option PolicyRegistry }.

(** The unmount functions, each with the registry it closes over. *)
Inductive Unmount := UnmountCapability (h : Handle) | UnmountProfile (h : Handle) | UnmountCredential (h : Handle) | UnmountPolicy (h : Handle).

(** A cleanup function of the plugin and what its one call answers: an error or
    nil, nothing when it panics. *)
Record Cleanup := mk_cleanup { cl_name : string; cl_outcome : option (option string) }.

Record PluginMount := mk_mount { pm_scope : ScopePath; cleanups : list Cleanup; unmounts : list Unmount; closed : bool }.

Definition set_binding_scope (scope : ScopePath) (b : CapabilityBinding) : CapabilityBinding :=
  mk_binding scope (cb_Mode b) (cb_Manifest b) (cb_Provider b) (Protected b).
Definition set_profile_scope (scope : ScopePath) (l : AgentProfileLayer) : AgentProfileLayer :=
  mk_profile_layer scope (l_ProfileID l) (Extends l) (l_Name l) (l_Description l) (l_Model l) (l_MaxSteps l) (l_MaxToolCalls l)
    (AddCapabilities l) (RemoveCapabilities l) (PutFragments l) (RemoveFragments l) (l_Metadata l).
Definition set_credential_scope (scope : ScopePath) (b : CredentialBinding) : CredentialBinding :=
  mk_cred scope (cr_Ref b) (cr_Mode b) (cr_Provider b) (cr_Protected b).
Definition set_policy_scope (scope : ScopePath) (l : PolicyLayer) : PolicyLayer :=
  mk_layer scope (AllowPermissions l) (DenyPermissions l) (pl_MaxSteps l) (pl_MaxToolCalls l).

Definition set_capabilities (r : CapabilityRegistry) (g : Registries) : Registries := mk_registries r (ph_Profiles g) (ph_Credentials g) (ph_Policies g).
Definition set_profiles (r : AgentProfileRegistry) (g : Registries) : Registries := mk_registries (ph_Capabilities g) r (ph_Credentials g) (ph_Policies g).
Definition set_credentials (r : CredentialRegistry) (g : Registries) : Registries := mk_registries (ph_Capabilities g) (ph_Profiles g) (Some r) (ph_Policies g).
Definition set_policies (r : PolicyRegistry) (g : Registries) : Registries := mk_registries (ph_Capabilities g) (ph_Profiles g) (ph_Credentials g) (Some r).

Definition add_unmount (u : Unmount) (m : PluginMount) : PluginMount := mk_mount (pm_scope m) (cleanups m) (unmounts m ++ [u]) (closed m).

(** What a plugin may ask of its mount.  [Capability] takes the manifest the
    capability answered, or the nil capability. *)
Inductive MountCall :=
| CallCapability (capability : option (CapabilityManifest * Provider))
| CallCapabilityBinding (binding : CapabilityBinding)
| CallProfile (layer : AgentProfileLayer)
| CallCredential (binding : CredentialBinding)
| CallPolicy (layer : PolicyLayer)
| CallOnUnmount (cleanup : option Cleanup).

Section Plugin.
Context (regexp_Compile : string → option (string → bool)).

Definition mount_state : Type := Registries * PluginMount.

Definition mount_CapabilityBinding (b : CapabilityBinding) (s : mount_state) : result mount_state :=
  let '(g, m) := s in
  fail_when closed m with "plugin mount is closed" ;;
  let! (r, h) := cap_Mount regexp_Compile (set_binding_scope (pm_scope m) b) (ph_Capabilities g) in
  Ok (set_capabilities r g, add_unmount (UnmountCapability h) m).

Definition mount_Capability (capability : option (CapabilityManifest * Provider)) (s : mount_state) : result mount_state :=
  match capability with
  | None => Err "plugin capability is nil"
  | Some (manifest, provider) => mount_CapabilityBinding (mk_binding (mk_path []) BindingProvide manifest (Some provider) false) s
  end.

Definition mount_Profile (l : AgentProfileLayer) (s : mount_state) : result mount_state :=
  let '(g, m) := s in
  fail_when closed m with "plugin mount is closed" ;;
  let! (r, h) := profile_Mount (set_profile_scope (pm_scope m) l) (ph_Profiles g) in
  Ok (set_profiles r g, add_unmount (UnmountProfile h) m).

Definition mount_Credential (b : CredentialBinding) (s : mount_state) : result mount_state :=
  let '(g, m) := s in
  fail_when closed m with "plugin mount is closed" ;;
  match ph_Credentials g with
  | None => Err "plugin host credential registry is nil"
  | Some r =>
    let! (r, h) := cred_Mount (set_credential_scope (pm_scope m) b) r in
    Ok (set_credentials r g, add_unmount (UnmountCredential h) m)
  end.

Definition mount_Policy (l : PolicyLayer) (s : mount_state) : result mount_state :=
  let '(g, m) := s in
  fail_when closed m with "plugin mount is closed" ;;
  match ph_Policies g with
  | None => Err "plugin host policy registry is nil"
  | Some r =>
    let! (r, h) := policy_Mount (set_policy_scope (pm_scope m) l) r in
    Ok (set_policies r g, add_unmount (UnmountPolicy h) m)
  end.

(** Not guarded by [closed]. *)
Definition OnUnmount (cleanup : option Cleanup) (s : mount_state) : mount_state :=
  match cleanup with
  | None => s
  | Some c => (s.1, mk_mount (pm_scope s.2) (cleanups s.2 ++ [c]) (unmounts s.2) (closed s.2))
  end.

Definition mount_call (c : MountCall) (s : mount_state) : result mount_state :=
  match c with
  | CallCapability capability => mount_Capability capability s
  | CallCapabilityBinding b => mount_CapabilityBinding b s
  | CallProfile l => mount_Profile l s
  | CallCredential b => mount_Credential b s
  | CallPolicy l => mount_Policy l s
  | CallOnUnmount cleanup => Ok (OnUnmount cleanup s)
  end.

(** ** Installation and removal *)

(** [Install] of a plugin: its calls on the mount, each continued with the
    answer, and its own answer, nothing when it panics. *)
Inductive install := IDone (answer : option (result unit)) | ICall (c : MountCall) (k : result unit → install).

Fixpoint run_install (i : install) (s : mount_state) : result unit * mount_state :=
  match i with
  | IDone None => (Err "plugin install panicked", s)
  | IDone (Some answer) => (answer, s)
  | ICall c k => match mount_call c s with Ok s => run_install (k (Ok tt)) s | Err e => run_install (k (Err e)) s end
  end.

(** One unmount function; a registry that is not there was never mounted on. *)
Definition safePluginUnmount (u : Unmount) (g : Registries) : Registries :=
  match u with
  | UnmountCapability h => set_capabilities (reg_unmount h (ph_Capabilities g)).1 g
  | UnmountProfile h => set_profiles (profile_unmount h (ph_Profiles g)).1 g
  | UnmountCredential h => match ph_Credentials g with Some r => set_credentials (reg_unmount h r).1 g | None => g end
  | UnmountPolicy h => match ph_Policies g with Some r => set_policies (reg_unmount h r).1 g | None => g end
  end.

Definition safePluginCleanup (c : Cleanup) : option string :=
  match cl_outcome c with Some err => err | None => Some "plugin cleanup panicked" end.

(** The first error is kept. *)
Definition first_error (err : option string) (c : Cleanup) : option string :=
  match err with Some e => Some e | None => safePluginCleanup c end.

(** An installed plugin; [mp_once] and [mp_err] are its [sync.Once] and the
    error [Close] keeps answering. *)
Record MountedPlugin := mk_mounted { mp_Manifest : PluginManifest; mp_mount : PluginMount; mp_once : bool; mp_err : option string }.

(** [Close]: the answer, the plugin, the registries and the cleanups it called. *)
Definition Close (p : MountedPlugin) (g : Registries) : option string * MountedPlugin * Registries * list Cleanup :=
  if mp_once p then (mp_err p, p, g, [])
  else
    let m := mp_mount p in
    let g := foldl (λ g u, safePluginUnmount u g) g (reverse (unmounts m)) in
    let err := foldl first_error (mp_err p) (reverse (cleanups m)) in
    (err, mk_mounted (mp_Manifest p) (mk_mount (pm_scope m) (cleanups m) (unmounts m) true) true err, g, reverse (cleanups m)).

Definition newline : string := String "010"%char "".
Definition join_errors (err : string) (other : option string) : string := match other with Some e => err +:+ newline +:+ e | None => err end.

(** [MountPlugin]: [manifest] is what the plugin's method answers, nothing when
    it panics. *)
Definition MountPlugin (host : option CapabilityRegistry * option AgentProfileRegistry * option CredentialRegistry * option PolicyRegistry) (scope : ScopePath)
    (plugin : option (option PluginManifest * install)) : result MountedPlugin * option (Registries * list Cleanup) :=
  match host with
  | (Some capabilities, Some profiles, credentials, policies) =>
    let g := mk_registries capabilities profiles credentials policies in
    match plugin with
    | None => (Err "plugin is nil", Some (g, []))
    | Some (None, _) => (Err "plugin manifest panicked", Some (g, []))
    | Some (Some manifest, i) =>
      if negb (is_ok (ValidateNamespacedID (pm_ID manifest))) || is_empty (pm_Version manifest)
      then (Err "plugin manifest requires a namespaced id and version", Some (g, []))
      else
        let '(answer, (g, m)) := run_install i (g, mk_mount scope [] [] false) in
        let installed := mk_mounted manifest m false None in
        match answer with
        | Ok _ => (Ok installed, Some (g, []))
        | Err e =>
          let '(err, _, g, ran) := Close installed g in
          (Err ("install plugin " +:+ pm_ID manifest +:+ ": " +:+ join_errors e err), Some (g, ran))
        end
    end
  | _ => (Err "plugin host registries are incomplete", None)
  end.
End Plugin.
