(* ===== verification/PluginClaims.v ===== *)
(** * What mounting a plugin leaves behind

    A plugin shares its registries with the rest of the host.  The section
    [Share] proves, against the interface of one registry, that the host's own
    contributions are undisturbed while the plugin mounts and unmounts; the
    relation [pstep] interleaves the plugin's calls, the locked regions of
    [Close] and the host's own operations. *)
From S2P Require Import Prelude GoString Json Scope Registry Principal Policy Payload Capability CapabilityClaims Profile ProfileClaims Credential Plugin.
From stdpp Require Import gmap strings list relations.
From Stdlib Require Import ZArith Lia.
Open Scope Z_scope.

(** ** One registry, shared *)

Section Share.
Context {R V : Type} `{StoreLaws R V}.

(** The contributions of the host alone. *)
Notation view := (string → list (stored V)).

(** What the host does on its own, on the registry and on the view: it mounts,
    or it unmounts. *)
Inductive other_step : R * view → R * view → Prop :=
| other_mount r (g g' : view) x r' h v :
    valid_path (ss_scope x) → ss_mount x r = Ok (r', h) → ss_next r' < 2 ^ 64 - 1 →
    (∀ k, ss_at r' k = ss_at r k ++ (if decide (h_key h = k) then [mk_stored v (h_order h)] else [])) →
    (∀ k, g' k = g k ++ (if decide (h_key h = k) then [mk_stored v (h_order h)] else [])) → other_step (r, g) (r', g')
| other_unmount r (g g' : view) h r' h' :
    genuine r h → h_done h = false → ss_unmount h r = (r', h') →
    (∀ k, g' k = filter (λ s, st_order s ≠ h_order h) (g k)) → other_step (r, g) (r', g').

(** The registry is the view and the plugin's live contributions. *)
Definition shared (g : view) (r : R) (own : list Handle) : Prop :=
  ss_inv r ∧ Forall (λ h, h_done h = false ∧ genuine r h) own ∧ ∀ k, g k = filter (λ s, st_order s ∉ h_order <$> own) (ss_at r k).

Lemma shared_init r : ss_inv r → shared (ss_at r) r [].
Proof. intros Hi. split_and!; [done|constructor|]. intros k. symmetry. apply filter_all, Forall_forall. intros s _. apply not_elem_of_nil. Qed.

Lemma shared_all g r : shared g r [] → ∀ k, ss_at r k = g k.
Proof. intros (_ & _ & Hg) k. rewrite Hg. symmetry. apply filter_all, Forall_forall. intros s _. apply not_elem_of_nil. Qed.

Lemma shared_sub g r own : shared g r own → ∀ k, g k `sublist_of` ss_at r k.
Proof. intros (_ & _ & Hg) k. rewrite Hg. apply sublist_filter. Qed.

(** Mounting keeps the handles genuine. *)
Lemma genuine_mount (r r' : R) h v f : ss_next r' = ss_next r + 1 → h_order h = ss_next r + 1 →
  (∀ k, ss_at r' k = ss_at r k ++ (if decide (h_key h = k) then [mk_stored v (h_order h)] else [])) → genuine r f → genuine r' f.
Proof.
  intros Hn Ho Hat [Hf Hg]. split; [lia|]. intros k s. rewrite Hat. intros [Hs|Hs]%elem_of_app; [by apply Hg|].
  case_decide; [|by apply elem_of_nil in Hs]. apply list_elem_of_singleton in Hs as ->. cbn. lia.
Qed.

Lemma genuine_new (r r' : R) h v : ss_inv r → ss_next r' = ss_next r + 1 → h_order h = ss_next r + 1 → 0 ≤ ss_next r →
  (∀ k, ss_at r' k = ss_at r k ++ (if decide (h_key h = k) then [mk_stored v (h_order h)] else [])) → genuine r' h.
Proof.
  intros Hi Hn Ho Hz Hat. split; [lia|]. intros k s. rewrite Hat. intros [Hs|Hs]%elem_of_app; [apply sl_orders in Hs; [lia|done]|].
  case_decide; [done|by apply elem_of_nil in Hs].
Qed.

Lemma genuine_unmount (r r' : R) o f : ss_next r' = ss_next r → (∀ k, ss_at r' k = filter (λ s, st_order s ≠ o) (ss_at r k)) → genuine r f → genuine r' f.
Proof. intros Hn Hat [Hf Hg]. split; [lia|]. intros k s. rewrite Hat. intros [_ Hs]%list_elem_of_filter. by apply Hg. Qed.

Lemma shared_own_mount g r own x r' h :
  shared g r own → valid_path (ss_scope x) → ss_mount x r = Ok (r', h) → ss_next r' < 2 ^ 64 - 1 → shared g r' (own ++ [h]).
Proof.
  intros (Hi & Ho & Hg) Hv Hm Hn. pose proof (sl_next r Hi) as Hz. apply sl_mount in Hm as (Hi' & Hnext & Hord & Hd & v & Hat); [|done..]. split_and!; [done| |].
  - apply Forall_app. split; [|apply Forall_singleton; split; [done|by apply (genuine_new r r' h v)]].
    eapply Forall_impl; [exact Ho|]. intros f [? ?]. split; [done|]. by eapply genuine_mount.
  - intros k. rewrite Hat, filter_app, Hg.
    assert (filter (λ s, st_order s ∉ h_order <$> own ++ [h]) (if decide (h_key h = k) then [mk_stored v (h_order h)] else []) = []) as ->.
    { case_decide; [|done]. rewrite filter_cons, decide_False; [done|]. rewrite fmap_app. cbn. set_solver. }
    rewrite app_nil_r. apply filter_agree. intros s Hs. rewrite fmap_app, not_elem_of_app. cbn. rewrite list_elem_of_singleton.
    apply sl_orders in Hs; [|done]. intuition lia.
Qed.

Lemma shared_own_unmount g r own h r' h' : shared g r (own ++ [h]) → ss_unmount h r = (r', h') → shared g r' own.
Proof.
  intros (Hi & [Ho [[Hd Hh] _]%Forall_cons]%Forall_app & Hg) Hu. apply sl_unmount in Hu as (Hi' & Hn & Hat); [|done..]. split_and!; [done| |].
  - eapply Forall_impl; [exact Ho|]. intros f [? ?]. split; [done|]. by eapply genuine_unmount.
  - intros k. rewrite Hat, Hg, list_filter_filter. apply filter_agree. intros s _. rewrite fmap_app, not_elem_of_app. cbn. rewrite list_elem_of_singleton. tauto.
Qed.

Lemma shared_other g r own g' r' : shared g r own → other_step (r, g) (r', g') → shared g' r' own.
Proof.
  intros (Hi & Ho & Hg) Hstep. inversion Hstep as [? ? ? x ? h v Hv Hm Hn Hat Hg'|? ? ? h ? h' Hgen Hd Hu Hg']; subst.
  - apply sl_mount in Hm as (Hi' & Hnext & Hord & Hd & _); [|done..]. split_and!; [done| |].
    + eapply Forall_impl; [exact Ho|]. intros f [? ?]. split; [done|]. by eapply genuine_mount.
    + intros k. rewrite Hg', Hat, filter_app, Hg. f_equal. symmetry. apply filter_all. case_decide; [|constructor]. apply Forall_singleton. cbn.
      intros (f & Hf & Hin)%list_elem_of_fmap. rewrite Forall_forall in Ho. destruct (Ho f Hin) as [_ [? _]]. lia.
  - apply sl_unmount in Hu as (Hi' & Hn & Hat); [|done..]. split_and!; [done| |].
    + eapply Forall_impl; [exact Ho|]. intros f [? ?]. split; [done|]. by eapply genuine_unmount.
    + intros k. rewrite Hg', Hat, Hg, !list_filter_filter. apply filter_agree. intros s _. tauto.
Qed.
End Share.

(** ** The host *)

(** The contributions of the host alone, registry by registry. *)
Record Views := mk_views {
  vw_caps : string → list (stored CapabilityBinding); vw_profiles : string → list (stored AgentProfileLayer);
  vw_creds : string → list (stored CredentialBinding); vw_policies : string → list (stored PolicyLayer) }.

(** A plugin on a host: [ps_work] is what [Close] still has to do once its first
    locked region ran, [ps_ran] the cleanups it called. *)
Record pstate := mk_plugged {
  ps_regs : Registries; ps_mount : PluginMount; ps_work : option (list Unmount * list Cleanup); ps_ran : list Cleanup; ps_views : Views }.

Definition caps_of (us : list Unmount) : list Handle := omap (λ u, match u with UnmountCapability h => Some h | _ => None end) us.
Definition profiles_of (us : list Unmount) : list Handle := omap (λ u, match u with UnmountProfile h => Some h | _ => None end) us.
Definition creds_of (us : list Unmount) : list Handle := omap (λ u, match u with UnmountCredential h => Some h | _ => None end) us.
Definition policies_of (us : list Unmount) : list Handle := omap (λ u, match u with UnmountPolicy h => Some h | _ => None end) us.

(** The counters are below the top of their type, with room for [n] mounts. *)
Definition room (n : Z) (g : Registries) : Prop :=
  reg_next (ph_Capabilities g) + n < 2 ^ 64 - 1 ∧ pr_next (ph_Profiles g) + n < 2 ^ 64 - 1
  ∧ (∀ r, ph_Credentials g = Some r → reg_next r + n < 2 ^ 64 - 1) ∧ (∀ r, ph_Policies g = Some r → reg_next r + n < 2 ^ 64 - 1).

Section Host.
Context (regexp_Compile : string → option (string → bool)).

Definition caps_shared := @shared _ _ (capability_store regexp_Compile).
Definition caps_other := @other_step _ _ (capability_store regexp_Compile).

(** What the host does on its own. *)
Inductive host_step : Registries * Views → Registries * Views → Prop :=
| host_caps g v r w : caps_other (ph_Capabilities g, vw_caps v) (r, w) →
    host_step (g, v) (set_capabilities r g, mk_views w (vw_profiles v) (vw_creds v) (vw_policies v))
| host_profiles g v r w : other_step (ph_Profiles g, vw_profiles v) (r, w) →
    host_step (g, v) (set_profiles r g, mk_views (vw_caps v) w (vw_creds v) (vw_policies v))
| host_creds g v r r' w : ph_Credentials g = Some r → other_step (r, vw_creds v) (r', w) →
    host_step (g, v) (set_credentials r' g, mk_views (vw_caps v) (vw_profiles v) w (vw_policies v))
| host_policies g v r r' w : ph_Policies g = Some r → other_step (r, vw_policies v) (r', w) →
    host_step (g, v) (set_policies r' g, mk_views (vw_caps v) (vw_profiles v) (vw_creds v) w).

Inductive pstep : pstate → pstate → Prop :=
(** a call on the mount, during the installation or by a plugin that kept it *)
| p_call c g m work ran v g' m' : mount_call regexp_Compile c (g, m) = Ok (g', m') → room 0 g' →
    pstep (mk_plugged g m work ran v) (mk_plugged g' m' work ran v)
| p_host g m work ran v g' v' : host_step (g, v) (g', v') → pstep (mk_plugged g m work ran v) (mk_plugged g' m work ran v')
(** [Close]: the locked region, then one unmount or cleanup at a time *)
| p_close g m ran v :
    pstep (mk_plugged g m None ran v)
          (mk_plugged g (mk_mount (pm_scope m) (cleanups m) (unmounts m) true) (Some (reverse (unmounts m), reverse (cleanups m))) ran v)
| p_unmount g m u us cs ran v :
    pstep (mk_plugged g m (Some (u :: us, cs)) ran v) (mk_plugged (safePluginUnmount u g) m (Some (us, cs)) ran v)
| p_cleanup g m c cs ran v :
    pstep (mk_plugged g m (Some ([], c :: cs)) ran v) (mk_plugged g m (Some ([], cs)) (ran ++ [c]) v).

(** ** The invariant *)

(** The unmount functions not called yet, in the order of the mounts. *)
Definition live (s : pstate) : list Unmount := match ps_work s with None => unmounts (ps_mount s) | Some (us, _) => reverse us end.

Definition regs_shared (v : Views) (g : Registries) (us : list Unmount) : Prop :=
  caps_shared (vw_caps v) (ph_Capabilities g) (caps_of us) ∧ shared (vw_profiles v) (ph_Profiles g) (profiles_of us)
  ∧ match ph_Credentials g with Some r => shared (vw_creds v) r (creds_of us) | None => creds_of us = [] end
  ∧ match ph_Policies g with Some r => shared (vw_policies v) r (policies_of us) | None => policies_of us = [] end.

Definition mount_ok (s : pstate) : Prop :=
  match ps_work s with
  | None => closed (ps_mount s) = false ∧ ps_ran s = []
  | Some (_, cs) => closed (ps_mount s) = true ∧ ∃ before late, cleanups (ps_mount s) = before ++ late ∧ ps_ran s ++ cs = reverse before
  end.

Record pinv (scope : ScopePath) (s : pstate) : Prop := {
  pi_scope : pm_scope (ps_mount s) = scope;
  pi_regs : regs_shared (ps_views s) (ps_regs s) (live s);
  pi_mount : mount_ok s }.

Lemma caps_of_snoc us u : caps_of (us ++ [u]) = caps_of us ++ caps_of [u].
Proof. apply omap_app. Qed.
Lemma profiles_of_snoc us u : profiles_of (us ++ [u]) = profiles_of us ++ profiles_of [u].
Proof. apply omap_app. Qed.
Lemma creds_of_snoc us u : creds_of (us ++ [u]) = creds_of us ++ creds_of [u].
Proof. apply omap_app. Qed.
Lemma policies_of_snoc us u : policies_of (us ++ [u]) = policies_of us ++ policies_of [u].
Proof. apply omap_app. Qed.

Ltac split_unmounts := unfold regs_shared; rewrite ?caps_of_snoc, ?profiles_of_snoc, ?creds_of_snoc, ?policies_of_snoc; cbn [caps_of profiles_of creds_of policies_of omap list_omap]; rewrite ?app_nil_r.

(** A successful call: what it mounted is the plugin's. *)
Definition called (m m' : PluginMount) (g g' : Registries) (new : list Unmount) : Prop :=
  pm_scope m' = pm_scope m ∧ closed m' = closed m ∧ unmounts m' = unmounts m ++ new
  ∧ (∃ late, cleanups m' = cleanups m ++ late) ∧ (closed m = true → new = [] ∧ g' = g).

Lemma binding_shared v g m us b g' m' :
  regs_shared v g us → valid_path (pm_scope m) → mount_CapabilityBinding regexp_Compile b (g, m) = Ok (g', m') → room 0 g' →
  ∃ new, called m m' g g' new ∧ regs_shared v g' (us ++ new).
Proof.
  intros (Hc & Hp & Hr & Ho) Hv H (Hn & _). unfold mount_CapabilityBinding in H. apply fail_if_ok in H as [Hcl H]. apply rbind_ok in H as ([r h] & H & [=<- <-]).
  exists [UnmountCapability h]. split; [split_and!; try done; [by exists []; rewrite app_nil_r|congruence]|].
  split_unmounts. split_and!; [|done..]. cbn [ph_Capabilities set_capabilities]. eapply (@shared_own_mount _ _ (capability_store regexp_Compile)); [apply _|exact Hc| |exact H|cbn in *; lia]. done.
Qed.

Lemma call_shared v g m us c g' m' :
  regs_shared v g us → valid_path (pm_scope m) → mount_call regexp_Compile c (g, m) = Ok (g', m') → room 0 g' →
  ∃ new, called m m' g g' new ∧ regs_shared v g' (us ++ new).
Proof.
  intros Hs Hv H Hn. destruct c as [cap|b|l|b|l|cleanup]; cbn [mount_call] in H.
  - destruct cap as [[manifest provider]|]; [|done]. by eapply binding_shared.
  - by eapply binding_shared.
  - destruct Hs as (Hc & Hp & Hr & Ho). destruct Hn as (_ & Hn & _). apply fail_if_ok in H as [Hcl H]. apply rbind_ok in H as ([r h] & H & [=<- <-]).
    exists [UnmountProfile h]. split; [split_and!; try done; [by exists []; rewrite app_nil_r|congruence]|].
    split_unmounts. split_and!; [done| |done..]. eapply shared_own_mount; [exact Hp| |exact H|cbn in *; lia]. done.
  - destruct Hs as (Hc & Hp & Hr & Ho). destruct Hn as (_ & _ & Hn & _). apply fail_if_ok in H as [Hcl H]. destruct (ph_Credentials g) as [r0|]; [|done].
    apply rbind_ok in H as ([r h] & H & [=<- <-]). specialize (Hn r eq_refl).
    exists [UnmountCredential h]. split; [split_and!; try done; [by exists []; rewrite app_nil_r|congruence]|].
    split_unmounts. split_and!; [done..| |done]. eapply shared_own_mount; [exact Hr| |exact H|cbn in *; lia]. done.
  - destruct Hs as (Hc & Hp & Hr & Ho). destruct Hn as (_ & _ & _ & Hn). apply fail_if_ok in H as [Hcl H]. destruct (ph_Policies g) as [r0|]; [|done].
    apply rbind_ok in H as ([r h] & H & [=<- <-]). specialize (Hn r eq_refl).
    exists [UnmountPolicy h]. split; [split_and!; try done; [by exists []; rewrite app_nil_r|congruence]|].
    split_unmounts. split_and!; [done..|]. eapply shared_own_mount; [exact Ho| |exact H|cbn in *; lia]. done.
  - exists []. rewrite app_nil_r. destruct cleanup as [cl|]; injection H as <- <-; (split; [|done]); (split_and!; [done|done|by rewrite app_nil_r| |done]).
    + by exists [cl].
    + exists []. by rewrite app_nil_r.
Qed.

Lemma unmount_shared v g us u : regs_shared v g (us ++ [u]) → regs_shared v (safePluginUnmount u g) us.
Proof.
  destruct u as [h|h|h|h]; split_unmounts; intros (Hc & Hp & Hr & Ho); cbn [safePluginUnmount].
  - split_and!; [|done..]. eapply (@shared_own_unmount _ _ (capability_store regexp_Compile)); [apply _|exact Hc|apply surjective_pairing].
  - split_and!; [done| |done..]. eapply shared_own_unmount; [exact Hp|apply surjective_pairing].
  - destruct (ph_Credentials g) as [r|] eqn:E; [|by apply app_nil in Hr as [_ ?]]. split_and!; [done..| |done].
    eapply shared_own_unmount; [exact Hr|apply surjective_pairing].
  - destruct (ph_Policies g) as [r|] eqn:E; [|by apply app_nil in Ho as [_ ?]]. split_and!; [done..|].
    eapply shared_own_unmount; [exact Ho|apply surjective_pairing].
Qed.

Lemma host_shared v g us v' g' : regs_shared v g us → host_step (g, v) (g', v') → regs_shared v' g' us.
Proof.
  intros (Hc & Hp & Hr & Ho) Hs. inversion Hs as [? ? r w H|? ? r w H|? ? r r' w E H|? ? r r' w E H]; subst; split_and!; try done.
  - eapply (@shared_other _ _ (capability_store regexp_Compile)); [apply _|exact Hc|exact H].
  - by eapply shared_other.
  - cbn. rewrite E in Hr. by eapply shared_other.
  - cbn. rewrite E in Ho. by eapply shared_other.
Qed.

Lemma pstep_inv scope s s' : valid_path scope → pinv scope s → pstep s s' → pinv scope s'.
Proof.
  intros Hv [Hsc Hr Hm] Hs. destruct Hs as [c g m work ran v g' m' H Hn|g m work ran v g' v' H|g m ran v|g m u us cs ran v|g m c cs ran v];
    cbn [ps_mount ps_views ps_regs ps_work ps_ran] in *; unfold live, mount_ok in *; cbn [ps_mount ps_views ps_regs ps_work ps_ran] in *.
  - subst scope. destruct (call_shared _ _ _ _ _ _ _ Hr Hv H Hn) as (new & (Hsc & Hcl & Hun & (late & Hlate) & Hclosed) & Hsh).
    split; unfold live, mount_ok; cbn [ps_mount ps_views ps_regs ps_work ps_ran]; [done| |]; destruct work as [[us cs]|].
    + destruct Hm as [Hm _]. destruct (Hclosed Hm) as [-> ->]. by rewrite app_nil_r in Hsh.
    + by rewrite Hun.
    + destruct Hm as (Hm & before & late0 & Hb & Hran). split; [congruence|]. exists before, (late0 ++ late). split; [by rewrite Hlate, Hb, app_assoc|done].
    + by rewrite Hcl.
  - split; [done| |done]. by eapply host_shared.
  - split; [done| |]; unfold live, mount_ok; cbn [ps_mount ps_views ps_regs ps_work ps_ran].
    + by rewrite reverse_involutive.
    + destruct Hm as [_ ->]. split; [done|]. exists (cleanups m), []. by rewrite app_nil_r.
  - split; [done| |done]. unfold live. cbn. rewrite reverse_cons in Hr. by apply unmount_shared.
  - split; [done|done|]. unfold mount_ok. cbn. by rewrite <- app_assoc.
Qed.

(** ** The functions follow the steps *)

(** At most [n] calls, whatever the answers. *)
Fixpoint calls_within (n : nat) (i : install) : Prop :=
  match i, n with
  | IDone _, _ => True
  | ICall _ _, O => False
  | ICall _ k, S n => ∀ answer, calls_within n (k answer)
  end.

Lemma room_less n' n g : n' ≤ n → room n g → room n' g.
Proof. intros Hle (? & ? & H1 & H2). split_and!; try lia; intros r E; [specialize (H1 r E)|specialize (H2 r E)]; lia. Qed.

Lemma call_room v g us c m g' m' n : regs_shared v g us → mount_call regexp_Compile c (g, m) = Ok (g', m') → room (n + 1) g → 0 ≤ n → room n g'.
Proof.
  intros (Hc & Hp & Hr & Ho) H Hroom Hn.
  assert (room n g) as Hless by (apply (room_less n (n + 1)); [lia|done]).
  assert (∀ b, mount_CapabilityBinding regexp_Compile b (g, m) = Ok (g', m') → room n g') as Hb.
  { intros b Hb. apply fail_if_ok in Hb as [_ Hb]. apply rbind_ok in Hb as ([r h] & Hb & [=<- _]).
    destruct Hless as (_ & Hr'). split; [|exact Hr']. destruct Hroom as [Hroom _]. destruct Hc as [Hi _].
    apply (sl_count (StoreLaws := capability_laws regexp_Compile)) in Hb; [|exact Hi]. cbn in *. lia. }
  destruct Hless as (R1 & R2 & R3 & R4). destruct c as [cap|b|l|b|l|cleanup]; cbn [mount_call] in H.
  - destruct cap as [[manifest provider]|]; [|done]. by eapply Hb.
  - by eapply Hb.
  - apply fail_if_ok in H as [_ H]. apply rbind_ok in H as ([r h] & H & [=<- _]). split_and!; try done. destruct Hp as [Hi _].
    apply (sl_count (StoreLaws := profile_laws)) in H; [|exact Hi]. destruct Hroom as (_ & Hroom & _). cbn in *. lia.
  - apply fail_if_ok in H as [_ H]. destruct (ph_Credentials g) as [r0|] eqn:E; [|done]. apply rbind_ok in H as ([r h] & H & [=<- _]). split_and!; try done.
    intros ? [=<-]. destruct Hr as [Hi _]. apply (sl_count (StoreLaws := credential_laws)) in H; [|exact Hi]. destruct Hroom as (_ & _ & Hroom & _). specialize (Hroom _ E). cbn in *. lia.
  - apply fail_if_ok in H as [_ H]. destruct (ph_Policies g) as [r0|] eqn:E; [|done]. apply rbind_ok in H as ([r h] & H & [=<- _]). split_and!; try done.
    intros ? [=<-]. destruct Ho as [Hi _]. apply (sl_count (StoreLaws := policy_laws)) in H; [|exact Hi]. destruct Hroom as (_ & _ & _ & Hroom). specialize (Hroom _ E). cbn in *. lia.
  - destruct cleanup; injection H as <- _; split_and!; done.
Qed.

Lemma install_steps scope i : ∀ n g m ran v answer g' m',
  valid_path scope → pinv scope (mk_plugged g m None ran v) → calls_within n i → room (Z.of_nat n) g →
  run_install regexp_Compile i (g, m) = (answer, (g', m')) → rtc pstep (mk_plugged g m None ran v) (mk_plugged g' m' None ran v).
Proof.
  induction i as [a|c k IH]; intros n g m ran v answer g' m' Hv Hi Hn Hroom H; cbn [run_install] in H.
  - destruct a; injection H as _ <- <-; apply rtc_refl.
  - destruct n as [|n]; [done|]. destruct (mount_call regexp_Compile c (g, m)) as [[g1 m1]|e] eqn:Hc.
    + assert (room (Z.of_nat n) g1) as Hroom1. { eapply call_room; [apply Hi|exact Hc| |lia]. apply (room_less _ (Z.of_nat (S n))); [lia|done]. }
      assert (pstep (mk_plugged g m None ran v) (mk_plugged g1 m1 None ran v)) as Hstep.
      { eapply p_call; [exact Hc|]. apply (room_less _ (Z.of_nat n)); [lia|done]. }
      eapply rtc_l; [exact Hstep|]. eapply IH; [done|by eapply pstep_inv|apply Hn|exact Hroom1|exact H].
    + eapply IH; [done|done|apply Hn| |exact H]. apply (room_less _ (Z.of_nat (S n))); [lia|done].
Qed.

Lemma unmounts_steps us : ∀ g m cs ran v,
  rtc pstep (mk_plugged g m (Some (us, cs)) ran v) (mk_plugged (foldl (λ g u, safePluginUnmount u g) g us) m (Some ([], cs)) ran v).
Proof. induction us as [|u us IH]; intros g m cs ran v; [apply rtc_refl|]. eapply rtc_l; [apply p_unmount|]. cbn [foldl]. apply IH. Qed.

Lemma cleanups_steps cs : ∀ g m ran v, rtc pstep (mk_plugged g m (Some ([], cs)) ran v) (mk_plugged g m (Some ([], [])) (ran ++ cs) v).
Proof.
  induction cs as [|c cs IH]; intros g m ran v; [rewrite app_nil_r; apply rtc_refl|]. eapply rtc_l; [apply p_cleanup|].
  specialize (IH g m (ran ++ [c]) v). by rewrite <- app_assoc in IH.
Qed.

Lemma close_steps p g err p' g' ran v :
  mp_once p = false → Close p g = (err, p', g', ran) →
  rtc pstep (mk_plugged g (mp_mount p) None [] v) (mk_plugged g' (mp_mount p') (Some ([], [])) ran v) ∧ mp_once p' = true ∧ mp_err p' = err.
Proof.
  intros Ho H. unfold Close in H. rewrite Ho in H. cbv zeta in H. injection H as <- <- <- <-. split; [|done]. cbn [mp_mount].
  eapply rtc_l; [apply p_close|]. etrans; [apply unmounts_steps|]. apply cleanups_steps.
Qed.

(** ** The property *)

Definition regs_inv (g : Registries) : Prop :=
  reg_inv (ph_Capabilities g) ∧ profile_inv (ph_Profiles g)
  ∧ (∀ r, ph_Credentials g = Some r → reg_inv r) ∧ (∀ r, ph_Policies g = Some r → reg_inv r).

Definition views_of (g : Registries) : Views :=
  mk_views (reg_at (ph_Capabilities g)) (layers_at (ph_Profiles g))
    (match ph_Credentials g with Some r => reg_at r | None => λ _, [] end) (match ph_Policies g with Some r => reg_at r | None => λ _, [] end).

(** Every registry holds the host's contributions, in their order, or nothing
    else. *)
Definition registries_are (rel : ∀ V, list (stored V) → list (stored V) → Prop) (v : Views) (g : Registries) : Prop :=
  ∀ k, rel _ (vw_caps v k) (reg_at (ph_Capabilities g) k) ∧ rel _ (vw_profiles v k) (layers_at (ph_Profiles g) k)
    ∧ (∀ r, ph_Credentials g = Some r → rel _ (vw_creds v k) (reg_at r k)) ∧ (∀ r, ph_Policies g = Some r → rel _ (vw_policies v k) (reg_at r k)).
Definition holds_the_host : Views → Registries → Prop := registries_are (λ _ l k, l `sublist_of` k).
Definition holds_only_the_host : Views → Registries → Prop := registries_are (λ _ l k, l = k).

Definition fresh_mount (g : Registries) (scope : ScopePath) : pstate := mk_plugged g (mk_mount scope [] [] false) None [] (views_of g).

Lemma fresh_inv g scope : regs_inv g → pinv scope (fresh_mount g scope).
Proof.
  intros (H1 & H2 & H3 & H4). split; [done| |done]. split_and!; cbn.
  - by apply (@shared_init _ _ (capability_store regexp_Compile)).
  - by apply (@shared_init _ _ profile_store).
  - destruct (ph_Credentials g); [|done]. apply (@shared_init _ _ credential_store). by apply H3.
  - destruct (ph_Policies g); [|done]. apply (@shared_init _ _ policy_store). by apply H4.
Qed.

Lemma rtc_inv scope s s' : valid_path scope → pinv scope s → rtc pstep s s' → pinv scope s'.
Proof. intros Hv Hi. induction 1; eauto using pstep_inv. Qed.

Lemma shared_contains v g us : regs_shared v g us → holds_the_host v g.
Proof.
  intros (H1 & H2 & H3 & H4) k. split_and!.
  - by eapply (@shared_sub _ _ (capability_store regexp_Compile)).
  - by eapply (@shared_sub _ _ profile_store).
  - intros r E. rewrite E in H3. by eapply (@shared_sub _ _ credential_store).
  - intros r E. rewrite E in H4. by eapply (@shared_sub _ _ policy_store).
Qed.

Lemma shared_exactly v g : regs_shared v g [] → holds_only_the_host v g.
Proof.
  intros (H1 & H2 & H3 & H4) k. split_and!.
  - symmetry. by apply (@shared_all _ _ (capability_store regexp_Compile)).
  - symmetry. by apply (@shared_all _ _ profile_store).
  - intros r E. rewrite E in H3. symmetry. by apply (@shared_all _ _ credential_store).
  - intros r E. rewrite E in H4. symmetry. by apply (@shared_all _ _ policy_store).
Qed.

Lemma closed_inert c g m g' m' : closed m = true → mount_call regexp_Compile c (g, m) = Ok (g', m') → g' = g.
Proof.
  intros Hc H. destruct c as [[[? ?]|]|?|?|?|?|[cl|]]; cbn [mount_call mount_Capability mount_CapabilityBinding mount_Profile mount_Credential mount_Policy OnUnmount] in H; rewrite ?Hc in H;
    cbn in H; try discriminate H; by injection H as <- _.
Qed.

Lemma failed_install_restores n g scope i answer g' m' :
  regs_inv g → valid_path scope → calls_within n i → room (Z.of_nat n) g →
  run_install regexp_Compile i (g, mk_mount scope [] [] false) = (answer, (g', m')) →
  ∀ manifest err p' g'' ran, Close (mk_mounted manifest m' false None) g' = (err, p', g'', ran) →
  holds_only_the_host (views_of g) g'' ∧ ran = reverse (cleanups m').
Proof.
  intros Hg Hv Hn Hroom H manifest err p' g'' ran Hc. pose proof (fresh_inv g scope Hg) as Hi.
  pose proof (install_steps scope i n g _ [] (views_of g) answer g' m' Hv Hi Hn Hroom H) as Hpath.
  pose proof (close_steps (mk_mounted manifest m' false None) _ _ _ _ _ (views_of g) eq_refl Hc) as [Hclose _]. cbn [mp_mount] in Hclose.
  pose proof (rtc_inv _ _ _ Hv (rtc_inv _ _ _ Hv Hi Hpath) Hclose) as [_ Hr _].
  split; [by apply shared_exactly|]. unfold Close in Hc. cbn in Hc. by injection Hc as _ _ _ <-.
Qed.
End Host.

(** C35.  A plugin leaves no trace.  However the plugin's calls, [Close] and the
    host's own mounts and unmounts interleave: the four registries always hold
    every contribution of the host, in its order; once [Close] is done they hold
    nothing else, and the cleanups registered before it were called once each, in
    reverse order; and a mount that was closed no longer changes any registry.
    [MountPlugin] is transactional: when it fails, whatever the plugin did before
    it failed or panicked, every registry holds what it held before. *)
Theorem plugin_leaves_no_trace regexp_Compile g scope :
  regs_inv g → valid_path scope →
  (∀ s, rtc (pstep regexp_Compile) (fresh_mount g scope) s →
     holds_the_host (ps_views s) (ps_regs s)
     ∧ (ps_work s = Some ([], []) → holds_only_the_host (ps_views s) (ps_regs s)
          ∧ ∃ before late, cleanups (ps_mount s) = before ++ late ∧ ps_ran s = reverse before)
     ∧ (closed (ps_mount s) = true → ∀ c g' m', mount_call regexp_Compile c (ps_regs s, ps_mount s) = Ok (g', m') → g' = ps_regs s))
  ∧ (∀ n manifest i e g' ran, calls_within n i → room (Z.of_nat n) g →
       MountPlugin regexp_Compile (Some (ph_Capabilities g), Some (ph_Profiles g), ph_Credentials g, ph_Policies g) scope (Some (manifest, i)) = (Err e, Some (g', ran)) →
       holds_only_the_host (views_of g) g').
Proof.
  intros Hg Hv. split.
  - intros s Hs. destruct (rtc_inv _ _ _ _ Hv (fresh_inv regexp_Compile g scope Hg) Hs) as [_ Hr Hm]. split; [by eapply shared_contains|]. split.
    + intros Hw. unfold live, mount_ok in *. rewrite Hw in Hr, Hm. split; [by eapply shared_exactly|]. destruct Hm as (_ & before & late & Hc & Hran).
      exists before, late. split; [done|]. by rewrite app_nil_r in Hran.
    + intros Hc c g' m' H. by eapply closed_inert.
  - intros n manifest i e g' ran Hn Hroom H. cbn [MountPlugin] in H. assert (mk_registries (ph_Capabilities g) (ph_Profiles g) (ph_Credentials g) (ph_Policies g) = g) as Eg by by destruct g.
    rewrite Eg in H. assert (holds_only_the_host (views_of g) g) as Hsame.
    { apply (shared_exactly regexp_Compile). apply (fresh_inv regexp_Compile g scope Hg). }
    destruct manifest as [manifest|]; [|by injection H as _ <- _]. destruct (_ || _); [by injection H as _ <- _|].
    destruct (run_install _ _ _) as [answer [g1 m1]] eqn:Hi. destruct answer as [|e0]; [done|].
    destruct (Close _ _) as [[[err p'] g2] ran'] eqn:Hc. injection H as _ <- _. by eapply failed_install_restores.
Qed.

(** ** A witness *)

(** A plugin that contributes a credential and a policy, registers a cleanup and
    then panics. *)
Definition ex_plugin : install :=
  ICall (CallCredential (mk_cred (mk_path []) "desk.key" CredentialProvide (Some (StaticCredentialProvider "k" "plugin")) false)) (λ _,
  ICall (CallPolicy (mk_layer (mk_path []) [] ["data.write"] (Some 2) None)) (λ _,
  ICall (CallOnUnmount (Some (mk_cleanup "stop" (Some None)))) (λ _, IDone None))).
Definition ex_plugin_regs : Registries := mk_registries ex_cap_registry ex_profiles (Some ex_credentials) (Some ex_registry).
Definition ex_plugin_run :=
  MountPlugin no_regexp (Some ex_cap_registry, Some ex_profiles, Some ex_credentials, Some ex_registry) ex_user (Some (Some (mk_plugin_manifest "acme.desk" "1.0" "" ∅), ex_plugin)).

Lemma ex_plugin_regs_inv : regs_inv ex_plugin_regs.
Proof.
  destruct ex_credentials_reach as (h & Hr). split_and!.
  - apply (cap_reach_inv no_regexp (ex_cap_registry, [ex_handle]) ex_cap_reach).
  - apply (profile_reach_inv _ ex_profiles_reach).
  - intros r [=<-]. apply (cred_reach_inv _ Hr).
  - intros r [=<-]. apply (policy_reach_inv _ ex_reach).
Qed.

Lemma ex_plugin_installs : (length <$> (unmounts <$> Some (run_install no_regexp ex_plugin (ex_plugin_regs, mk_mount ex_user [] [] false)).2.2)) = Some 2%nat.
Proof. vm_compute. reflexivity. Qed.

Lemma plugin_leaves_no_trace_witness :
  ∃ e g ran, ex_plugin_run = (Err e, Some (g, ran)) ∧ cl_name <$> ran = ["stop"] ∧ holds_only_the_host (views_of ex_plugin_regs) g.
Proof.
  destruct ex_plugin_run as [[|e] [[g ran]|]] eqn:E; [vm_compute in E; discriminate E..| |vm_compute in E; discriminate E].
  exists e, g, ran. split; [reflexivity|]. split.
  - assert (cl_name <$> (match ex_plugin_run.2 with Some (_, r) => r | None => [] end) = ["stop"]) as H by (vm_compute; reflexivity). rewrite E in H. exact H.
  - destruct (plugin_leaves_no_trace no_regexp ex_plugin_regs ex_user ex_plugin_regs_inv ex_user_valid) as [_ H].
    refine (H 3%nat (Some (mk_plugin_manifest "acme.desk" "1.0" "" ∅)) ex_plugin e g ran _ _ E).
    + intros a b c. exact I.
    + split; [vm_compute; reflexivity|]. split; [vm_compute; reflexivity|]. split; intros r [=<-]; vm_compute; reflexivity.
Defined.
