(* ===== verification/Disclose.v ===== *)
(** * The tool library: [src/pkg/core/disclose.go]

    With disclosure on, the model is not given the schema of every tool.  It
    sees the tools of the always-present kinds and one library tool with which
    it searches, lists and describes the others; the schemas of what it
    discovered recently are added to the next calls, rebuilt each time from the
    messages.  Authority is untouched: a call is still resolved, guarded and
    executed by the snapshot.

    [strings.ToLower] is exact on ASCII; the case table of the other runes is
    the parameter [lower_other].  [parse_json] is [json.Unmarshal] of arbitrary
    text.  A nil schema and an empty one are identified. *)
From S2P Require Import Prelude GoString Json Schema Scope Registry Principal Sha256 Payload Events Message Session Capability CapabilityClaims ModelCall Guard.
From stdpp Require Import gmap strings list sorting.
From Stdlib Require Import ZArith Lia Ascii SpecFloat.
Open Scope Z_scope.

Definition disclosedLibraryID := "harness.tool.library".
Definition discloseListLimit : Z := 20.
Definition discloseMaxListLimit : Z := 50.
Definition discloseSearchTopK : Z := 8.
Definition discloseMaxSearchTopK : Z := 32.
Definition discloseSummaryRunes : Z := 240.
Definition discloseActiveLimit : nat := 8.

(** ** Text *)

(** [utf8.AppendRune] *)
Definition encode_rune (r : N) : list ascii :=
  (if r <? 0x80 then [ascii_of_N r]
   else if r <? 0x800 then [ascii_of_N (0xC0 + N.shiftr r 6); ascii_of_N (0x80 + N.land r 0x3F)]
   else if in_range 0xD800 0xDFFF r || (0x10FFFF <? r) then replacement
   else if r <? 0x10000 then [ascii_of_N (0xE0 + N.shiftr r 12); ascii_of_N (0x80 + N.land (N.shiftr r 6) 0x3F); ascii_of_N (0x80 + N.land r 0x3F)]
   else [ascii_of_N (0xF0 + N.shiftr r 18); ascii_of_N (0x80 + N.land (N.shiftr r 12) 0x3F); ascii_of_N (0x80 + N.land (N.shiftr r 6) 0x3F); ascii_of_N (0x80 + N.land r 0x3F)])%N.
Definition of_runes (l : list N) : string := of_bytes (mjoin (encode_rune <$> l)).

Fixpoint drop_while (p : N → bool) (l : list N) : list N := match l with r :: l' => if p r then drop_while p l' else l | [] => [] end.
Definition trim_runes (p : N → bool) (l : list N) : list N := reverse (drop_while p (reverse (drop_while p l))).

(** [strings.Fields]: the maximal runs of runes that are not spaces. *)
Fixpoint split_fields (l word : list N) : list (list N) :=
  match l with
  | [] => match word with [] => [] | _ => [reverse word] end
  | r :: l => if is_space r then match word with [] => split_fields l [] | _ => reverse word :: split_fields l [] end else split_fields l (r :: word)
  end.

(** The characters the replacer turns into spaces: - _ / and the period. *)
Definition is_separator (r : N) : bool := ((r =? 45) || (r =? 95) || (r =? 47) || (r =? 46))%N.
(** The cutset .,;:!? *)
Definition is_punctuation (r : N) : bool := ((r =? 46) || (r =? 44) || (r =? 59) || (r =? 58) || (r =? 33) || (r =? 63))%N.

Definition discloseStopwords : list string := ["a"; "an"; "the"; "to"; "for"; "of"; "and"; "or"; "in"; "on"; "with"; "into"].
Definition is_stopword (t : string) : bool := bool_decide (t ∈ discloseStopwords).

(** The loop of [discloseSummary]; [room] counts down. *)
Fixpoint summary_runes (room : nat) (l : list N) : list N :=
  match room, l with
  | O, _ | _, [] => []
  | S room', r :: l =>
    if ((r =? 10) || (r =? 9))%N then 32%N :: summary_runes room' l
    else if ((r <? 0x20) || in_range 0x7f 0x9f r)%N then summary_runes room l
    else r :: summary_runes room' l
  end.
Definition discloseSummary (text : string) : string := of_runes (summary_runes (Z.to_nat discloseSummaryRunes) (runes text)).

(** ** The library *)

Record libraryDoc := mk_doc {
  ld_ID : string; ld_Library : string; ld_Name : string; ld_Description : string; ld_Schema : gmap string json; ld_NotFor : list string;
  nameTokens : gset string; descTokens : gset string; notTokens : gset string; allTokens : gset string }.

Record libraryIndex := mk_index { docs : list libraryDoc; byID : gmap string nat; byName : gmap string (list nat) }.

Record disclosedRuntime := mk_disclosed { d_inner : CapabilitySnapshot; d_index : libraryIndex; hotSchemas : list ToolSchema }.

Definition hotKind (kind : string) : bool := bool_decide (kind ∈ ["memory"; "agent"; "workflow"; "router"; "knowledge"]).

(** The name of a tool: its id after the last period, unless that is empty. *)
Definition last_period (l : list ascii) : option nat :=
  foldl (λ last ic, if bool_decide (snd ic = "."%char) then Some (fst ic) else last) None (imap pair l).
Definition tool_name (id : string) : string :=
  match last_period (bytes id) with
  | Some i => if (S i <? length (bytes id))%nat then of_bytes (drop (S i) (bytes id)) else id
  | None => id
  end.

Definition tool_parameters (m : CapabilityManifest) (tool : ToolExposure) : gmap string json := match Parameters tool with Some p => p | None => InputSchema m end.

(** One capability of the snapshot: skipped, always shown, or in the library. *)
Definition disclose_entry (snap : CapabilitySnapshot) (e : SnapshotEntry) : option (ToolSchema + libraryDoc) :=
  let m := se_Manifest e in
  if negb (executable snap (m_ID m)) then None
  else match Tool m with
  | None => None
  | Some tool =>
    if hotKind (m_Kind m) then
      let description := if negb (is_empty (te_Description tool)) then te_Description tool else if negb (is_empty (m_Description m)) then m_Description m else m_Name m in
      Some (inl (mk_toolschema (m_ID m) description (tool_parameters m tool)))
    else
      let description := if is_empty (te_Description tool) then m_Description m else te_Description tool in
      Some (inr (mk_doc (m_ID m) (m_Kind m) (tool_name (m_ID m)) description (tool_parameters m tool) [] ∅ ∅ ∅ ∅))
  end.

Section Disclose.
Context (lower_other : N → N) (parse_json : string → option json).

Definition to_lower (r : N) : N := (if in_range 65 90 r then r + 32 else if r <? 0x80 then r else lower_other r)%N.

(** [discloseTokens] *)
Definition token_runes (text : string) : list (list N) :=
  trim_runes is_punctuation <$> split_fields ((λ r, if is_separator r then 32%N else r) <$> (to_lower <$> runes text)) [].
Definition discloseTokens (text : string) : gset string := list_to_set (of_runes <$> token_runes text) ∖ {[ "" ]}.

Definition discloseQueryTokens (text : string) : gset string :=
  let tokens := discloseTokens text in
  let filtered := filter (λ t, is_stopword t = false) tokens in
  if bool_decide (filtered = ∅) then tokens else filtered.

Definition discloseMergeTokens (a b : gset string) : gset string := a ∪ b.
Definition discloseOverlap (query doc : gset string) : Z := Z.of_nat (size (query ∩ doc)).

Fixpoint join_with (sep : string) (l : list string) : string := match l with [] => "" | [x] => x | x :: l => x +:+ sep +:+ join_with sep l end.

(** The indices of each name, in order. *)
Definition name_buckets (ds : list libraryDoc) : gmap string (list nat) :=
  foldl (λ m id, <[ld_Name (snd id) := default [] (m !! ld_Name (snd id)) ++ [fst id]]> m) ∅ (imap pair ds).

Definition with_not_for (d : libraryDoc) (tokens : list string) : libraryDoc :=
  mk_doc (ld_ID d) (ld_Library d) (ld_Name d) (ld_Description d) (ld_Schema d) (ld_NotFor d ++ tokens) (nameTokens d) (descTokens d) (notTokens d) (allTokens d).

(** What the siblings of a tool are about and the tool is not.  Go ranges over
    a map, so the order of the words is not determined; only the set of their
    tokens is used. *)
Definition sibling_words (ds : list libraryDoc) (i : nat) (d : libraryDoc) : gset string :=
  let mine := discloseTokens (ld_Description d +:+ " " +:+ ld_Name d) in
  list_to_set (mjoin ((λ jd, if bool_decide (fst jd ≠ i) && bool_decide (ld_Name (snd jd) = ld_Name d)
                             then elements (filter (λ t, t ∉ mine ∧ is_stopword t = false) (discloseTokens (ld_Description (snd jd)))) else [])
                      <$> imap pair ds)).
Definition deriveSiblingNotFor (ds : list libraryDoc) : list libraryDoc :=
  imap (λ i d, if (length (default [] (name_buckets ds !! ld_Name d)) <? 2)%nat then d else with_not_for d (elements (sibling_words ds i d))) ds.

Definition index_doc (d : libraryDoc) : libraryDoc :=
  let name := discloseTokens (ld_Name d) in
  let desc := discloseTokens (ld_Description d +:+ " ") in
  mk_doc (ld_ID d) (ld_Library d) (ld_Name d) (ld_Description d) (ld_Schema d) (ld_NotFor d) name desc
    (discloseTokens (join_with " " (ld_NotFor d))) (discloseMergeTokens name desc).

Definition newLibraryIndex (ds : list libraryDoc) : libraryIndex :=
  mk_index (index_doc <$> ds) (foldl (λ m id, <[ld_ID (snd id) := fst id]> m) ∅ (imap pair ds)) (name_buckets ds).

(** [discloseToolRuntime] of a snapshot: nothing when it is left as it is. *)
Definition discloseToolRuntime (snap : CapabilitySnapshot) : option disclosedRuntime :=
  match providers snap !! disclosedLibraryID with
  | Some _ => None
  | None =>
    let entries := omap (disclose_entry snap) (capabilities snap) in
    let ds := omap (λ x, match x with inr d => Some d | inl _ => None end) entries in
    let hot := omap (λ x, match x with inl s => Some s | inr _ => None end) entries in
    match ds with [] => None | _ => Some (mk_disclosed snap (newLibraryIndex (deriveSiblingNotFor ds)) hot) end
  end.

(** ** The runtime *)

Definition discloseLibrarySchema : gmap string json :=
  list_to_map [("type", JStr "object");
    ("properties", JObj [("action", JObj [("enum", JArr [JStr "search"; JStr "list"; JStr "describe"]); ("type", JStr "string")]);
                         ("id", JObj [("type", JStr "string")]);
                         ("limit", JObj [("maximum", json_of_z discloseMaxListLimit); ("minimum", json_of_z 1); ("type", JStr "integer")]);
                         ("name", JObj [("type", JStr "string")]);
                         ("offset", JObj [("minimum", json_of_z 0); ("type", JStr "integer")]);
                         ("query", JObj [("type", JStr "string")]);
                         ("top_k", JObj [("maximum", json_of_z discloseMaxSearchTopK); ("minimum", json_of_z 1); ("type", JStr "integer")])]);
    ("required", JArr [JStr "action"])].

Definition discloseLibraryManifest (count : Z) : CapabilityManifest :=
  mk_manifest disclosedLibraryID "1.0.0" disclosedLibraryID
    ("Tool library over " +:+ z_text count +:+ " capabilities. Search, then describe one id, then call that id.")
    "knowledge" "harness.tool.library/v1" [] [] ∅ ∅ 0 0 0 false false (Some (mk_tool "" (Some discloseLibrarySchema))) None ∅.

Definition d_Schemas (d : disclosedRuntime) : list ToolSchema :=
  cloneToolSchemas (hotSchemas d)
  ++ [mk_toolschema disclosedLibraryID "Search the tool library, then describe one id. Call discovered tools by their qualified id." discloseLibrarySchema].

Definition d_Authorized (d : disclosedRuntime) (name : string) : bool := if bool_decide (name = disclosedLibraryID) then true else Authorized (d_inner d) name.
Definition d_MaxCallBudget (d : disclosedRuntime) : Z := MaxCallBudget (d_inner d).
Definition d_ManifestFor (d : disclosedRuntime) (name : string) : option CapabilityManifest :=
  if bool_decide (name = disclosedLibraryID) then Some (discloseLibraryManifest (Z.of_nat (length (docs (d_index d))))) else ManifestFor (d_inner d) name.
Definition d_BudgetFor (d : disclosedRuntime) (name : string) : Z := if bool_decide (name = disclosedLibraryID) then 0 else BudgetFor (d_inner d) name.

(** *** What the messages show was discovered *)

Definition string_arg (args : gmap string json) (key : string) : string := match args !! key with Some (JStr s) => s | _ => "" end.

(** [struct{ Status, ID string }] *)
Definition status_fields : fields (string * string) :=
  [field "Status" dec_str fst (λ x t, (x, snd t)); field "ID" dec_str snd (λ x t, (fst t, x))].

(** A paired library call: the id its result describes, if it is one the
    library has and the call asked for. *)
Definition described_id (d : disclosedRuntime) (call : ToolCall) (content : string) : option string :=
  if negb (bool_decide (tc_Args call !! "action" = Some (JStr "describe"))) || (MaxCapabilityManifestBytes <? str_len content) then None
  else match parse_json content with
  | None => None
  | Some j =>
    match dec_struct status_fields j ("", "") with
    | None => None
    | Some (status, id) =>
      if negb (bool_decide (status = "ok")) then None
      else match byID (d_index d) !! id with
      | None => None
      | Some i =>
        let requested := trim_space (string_arg (tc_Args call) "id") in
        let name := trim_space (string_arg (tc_Args call) "name") in
        let known := match docs (d_index d) !! i with Some doc => ld_Name doc | None => "" end in
        if (negb (is_empty requested) && negb (bool_decide (requested = id))) || (is_empty requested && negb (bool_decide (name = known))) then None else Some id
      end
    end
  end.

(** The selection, oldest first: a tool used again moves to the end, the oldest
    makes room for a new one. *)
Definition select (selected : list nat) (i : nat) : list nat :=
  if bool_decide (i ∈ selected) then remove_first (λ j, Nat.eqb j i) selected ++ [i]
  else if (length selected =? discloseActiveLimit)%nat then tail selected ++ [i] else selected ++ [i].

(** One message of the loop. *)
Definition message_calls (m : ChatMessage) : list ToolCall :=
  match m_ToolCalls m with [] => match m_ToolCall m with Some c => [c] | None => [] end | calls => calls end.
Definition see_message (d : disclosedRuntime) (state : list nat * gmap string ToolCall) (m : ChatMessage) : list nat * gmap string ToolCall :=
  let '(selected, pending) := state in
  if bool_decide (Role m = RoleAssistant) then (selected, foldl (λ p c, <[tc_ID c := c]> p) pending (message_calls m))
  else if negb (bool_decide (Role m = RoleTool)) then (selected, pending)
  else
    let next := delete (ToolCallID m) pending in
    match pending !! ToolCallID m with
    | None => (selected, next)
    | Some call =>
      let id := if bool_decide (tc_Name call = disclosedLibraryID) then described_id d call (m_Content m) else Some (tc_Name call) in
      match id with
      | None => (selected, next)
      | Some id => match byID (d_index d) !! id with None => (selected, next) | Some i => (select selected i, next) end
      end
    end.

Definition doc_schema (doc : libraryDoc) : ToolSchema := mk_toolschema (ld_ID doc) (ld_Description doc) (cloneMap (ld_Schema doc)).

Definition schemasForMessages (d : disclosedRuntime) (messages : list ChatMessage) : list ToolSchema :=
  let '(selected, _) := foldl (see_message d) ([], ∅) messages in
  d_Schemas d ++ omap (λ i, match docs (d_index d) !! i with Some doc => Some (doc_schema doc) | None => None end) selected.

(** *** The library's actions *)

(** The value of a [float64] as an [int], when it is one. *)
Definition float_to_int (f : spec_float) : option Z :=
  match f with
  | S754_zero _ => Some 0
  | S754_finite s m e =>
    if float_integral f then
      let z := (if s then Z.opp else id) (if 0 <=? e then Z.pos m * 2 ^ e else Z.pos m / 2 ^ (- e)) in if in_int64 z then Some z else None
    else None
  | _ => None
  end.

Definition discloseIntArg (args : gmap string json) (key : string) (fallback : Z) : option Z :=
  match args !! key with
  | None | Some JNull => Some fallback
  | Some (JNum lit) => float_to_int (float_of_literal lit)
  | Some _ => None
  end.

Definition discloseJSON (value : json) (metadata : gmap string json) : CapabilityResult := mk_result (json_text value) true metadata.

Definition discloseCards (ds : list libraryDoc) : json :=
  JArr ((λ doc, JObj [("description", json_of_str (discloseSummary (ld_Description doc))); ("id", json_of_str (ld_ID doc));
                      ("library", json_of_str (ld_Library doc)); ("name", json_of_str (ld_Name doc))]) <$> ds).

Definition list_page (d : disclosedRuntime) (offset limit : Z) : list libraryDoc :=
  let total := Z.of_nat (length (docs (d_index d))) in
  let offset := if total <? offset then total else offset in
  let stop := if total <? offset + limit then total else offset + limit in
  take (Z.to_nat (stop - offset)) (drop (Z.to_nat offset) (docs (d_index d))).

Definition library_list (d : disclosedRuntime) (args : gmap string json) : CapabilityResult :=
  match discloseIntArg args "offset" 0 with
  | None => deniedResult CodeInvalidArgs "tool library offset must be >= 0"
  | Some offset =>
    if offset <? 0 then deniedResult CodeInvalidArgs "tool library offset must be >= 0"
    else match discloseIntArg args "limit" discloseListLimit with
    | None => deniedResult CodeInvalidArgs "tool library limit must be between 1 and 50"
    | Some limit =>
      if (limit <? 1) || (discloseMaxListLimit <? limit) then deniedResult CodeInvalidArgs "tool library limit must be between 1 and 50"
      else
        let total := Z.of_nat (length (docs (d_index d))) in
        let page := list_page d offset limit in
        discloseJSON (JObj [("limit", json_of_z limit); ("offset", json_of_z (if total <? offset then total else offset)); ("status", JStr "ok");
                            ("tools", discloseCards page); ("total", json_of_z total)])
          (list_to_map [("library.action", JStr "list"); ("library.hits", json_of_z (Z.of_nat (length page))); ("library.total", json_of_z total)])
    end
  end.

Record libraryHit := mk_hit { lh_doc : libraryDoc; Score : Z; SameName : list string }.

Definition hit_le (a b : libraryHit) : Prop := Score b < Score a ∨ (Score a = Score b ∧ String.le (ld_ID (lh_doc a)) (ld_ID (lh_doc b))).
#[export] Instance hit_le_dec : RelDecision hit_le.
Proof. intros a b. unfold hit_le. apply _. Defined.

(** The tests of the loop of [search]: the hit of a document, if it is one. *)
Definition match_doc (ix : libraryIndex) (query : gset string) (doc : libraryDoc) : option libraryHit :=
  let nameScore := discloseOverlap query (nameTokens doc) in
  let descScore := discloseOverlap query (descTokens doc) in
  let covered := discloseOverlap query (allTokens doc) in
  let notScore := discloseOverlap query (notTokens doc) in
  let n := Z.of_nat (size query) in
  if (0 <? notScore) && (descScore <=? notScore) && (nameScore <=? notScore) then None
  else if covered <=? 0 then None
  else if (2 <=? n) && (descScore =? 0) && (covered <? n) then None
  else if (2 <=? n) && (covered * 2 <? n) then None
  else Some (mk_hit doc (descScore * 3 + nameScore)
               (omap (λ i, match docs ix !! i with Some other => if bool_decide (ld_ID other = ld_ID doc) then None else Some (ld_ID other) | None => None end)
                     (default [] (byName ix !! ld_Name doc)))).

(** [libraryIndex.search]; nothing when the query has no token. *)
Definition index_search (ix : libraryIndex) (query : string) (topK : Z) : option (list libraryHit) :=
  let tokens := discloseQueryTokens query in
  if bool_decide (tokens = ∅) then None
  else
    let hits := merge_sort hit_le (omap (match_doc ix tokens) (docs ix)) in
    Some (if (0 <? topK) && (topK <? Z.of_nat (length hits)) then take (Z.to_nat topK) hits else hits).

Definition hit_to_json (h : libraryHit) : json :=
  let doc := lh_doc h in
  JObj ([("id", json_of_str (ld_ID doc))] ++ omit_if (is_empty (ld_Library doc)) "library" (json_of_str (ld_Library doc))
        ++ [("name", json_of_str (ld_Name doc)); ("description", json_of_str (discloseSummary (ld_Description doc))); ("score", json_of_z (Score h))]
        ++ omit_if (bool_decide (SameName h = [])) "ambiguous" (JBool true)
        ++ omit_if (bool_decide (SameName h = [])) "same_name" (JArr (json_of_str <$> SameName h))).

Definition library_search (d : disclosedRuntime) (args : gmap string json) : CapabilityResult :=
  let query := trim_space (string_arg args "query") in
  if is_empty query then deniedResult CodeInvalidArgs "tool library search requires a query"
  else match discloseIntArg args "top_k" discloseSearchTopK with
  | None => deniedResult CodeInvalidArgs "tool library top_k must be between 1 and 32"
  | Some topK =>
    if (topK <? 1) || (discloseMaxSearchTopK <? topK) then deniedResult CodeInvalidArgs "tool library top_k must be between 1 and 32"
    else
      let hits := index_search (d_index d) query topK in
      let found := default [] hits in
      discloseJSON (JObj [("query", json_of_str query); ("status", JStr "ok"); ("tools", match hits with Some l => JArr (hit_to_json <$> l) | None => JNull end)])
        (list_to_map [("library.action", JStr "search"); ("library.hits", json_of_z (Z.of_nat (length found))); ("library.query", JStr (discloseSummary query));
                      ("library.hit_ids", JArr (JStr <$> take 8 ((λ h, ld_ID (lh_doc h)) <$> found)))])
  end.

Definition describe_json (doc : libraryDoc) : json :=
  JObj [("description", json_of_str (ld_Description doc)); ("id", json_of_str (ld_ID doc)); ("input_schema", json_of_any_map (cloneMap (ld_Schema doc)));
        ("library", json_of_str (ld_Library doc)); ("name", json_of_str (ld_Name doc)); ("status", JStr "ok")].
Definition describe_doc (doc : libraryDoc) : CapabilityResult :=
  discloseJSON (describe_json doc) (list_to_map [("library.action", JStr "describe"); ("library.id", JStr (ld_ID doc)); ("library.hits", json_of_z 1)]).

Definition library_describe (d : disclosedRuntime) (args : gmap string json) : CapabilityResult :=
  let id := trim_space (string_arg args "id") in
  let name := trim_space (string_arg args "name") in
  if negb (is_empty id) then
    match byID (d_index d) !! id with
    | None => deniedResult CodeInvalidArgs "tool library has no such id"
    | Some i => match docs (d_index d) !! i with Some doc => describe_doc doc | None => deniedResult CodeInvalidArgs "tool library has no such id" end
    end
  else if is_empty name then deniedResult CodeInvalidArgs "tool library describe requires id or name"
  else match omap (λ i, docs (d_index d) !! i) (default [] (byName (d_index d) !! name)) with
  | [] => deniedResult CodeInvalidArgs "tool library has no such tool"
  | [doc] => describe_doc doc
  | found =>
    discloseJSON (JObj [("reason", JStr "multiple tools share this name; describe one id then call that id"); ("status", JStr "explore"); ("tools", discloseCards found)])
      (list_to_map [("library.action", JStr "explore"); ("library.hits", json_of_z (Z.of_nat (length found))); ("library.explore", JBool true)])
  end.

Definition executeLibrary (d : disclosedRuntime) (call : ToolCall) : CapabilityResult :=
  let action := trim_space (string_arg (tc_Args call) "action") in
  if bool_decide (action = "search") then library_search d (tc_Args call)
  else if bool_decide (action = "list") then library_list d (tc_Args call)
  else if bool_decide (action = "describe") then library_describe d (tc_Args call)
  else deniedResult CodeInvalidArgs "tool library action must be search, list, or describe".

End Disclose.
