(* ===== verification/DiscloseClaims.v ===== *)
(** * What the tool library shows

    The schemas added to a model call are those of the tools the messages show
    were discovered or used last, each of them executable in the snapshot; a
    description is discovered by the message that holds it; a search answers the
    best matches. *)
From S2P Require Import Prelude GoString Json Schema Scope Registry Principal Policy Sha256 Payload Events Message Session Capability CapabilityClaims ModelCall Guard Disclose.
From stdpp Require Import gmap strings list sorting.
From Stdlib Require Import ZArith Lia Ascii.
Open Scope Z_scope.

(** ** The selection *)

(** The last [n] elements. *)
Definition last_n {A} (n : nat) (l : list A) : list A := drop (length l - n) l.

Lemma last_n_snoc {A} n (l : list A) x : last_n (S n) (l ++ [x]) = last_n n l ++ [x].
Proof. unfold last_n. rewrite length_app. cbn. rewrite drop_app_le by lia. do 2 f_equal. lia. Qed.
Lemma last_n_length {A} n (l : list A) : (length (last_n n l) ≤ n)%nat.
Proof. unfold last_n. rewrite length_drop. lia. Qed.
Lemma last_n_split {A} n (l : list A) : ∃ old, l = old ++ last_n n l.
Proof. exists (take (length l - n) l). unfold last_n. by rewrite take_drop. Qed.
Lemma last_n_all {A} n (l : list A) : (length l ≤ n)%nat → last_n n l = l.
Proof. intros H. unfold last_n. replace (length l - n)%nat with O by lia. done. Qed.
Lemma last_n_app {A} n (l k : list A) : (n ≤ length k)%nat → last_n n (l ++ k) = last_n n k.
Proof. intros H. unfold last_n. rewrite length_app, drop_app_ge by lia. f_equal. lia. Qed.

Lemma remove_dups_cons (l : list nat) x : remove_dups (x :: l) = if decide (x ∈ l) then remove_dups l else x :: remove_dups l.
Proof. reflexivity. Qed.

Lemma remove_dups_snoc (l : list nat) x : remove_dups (l ++ [x]) = filter (λ y, y ≠ x) (remove_dups l) ++ [x].
Proof.
  induction l as [|y l IH]; [done|]. rewrite <- app_comm_cons, !remove_dups_cons.
  destruct (decide (y = x)) as [->|Hne].
  - rewrite decide_True by set_solver. rewrite IH. case_decide; [done|]. by rewrite filter_cons, decide_False by (intros Hf; by apply Hf).
  - destruct (decide (y ∈ l)) as [Hy|Hy].
    + rewrite decide_True by set_solver. done.
    + rewrite decide_False by set_solver. rewrite IH, filter_cons, decide_True by done. done.
Qed.

Lemma remove_first_nodup (l : list nat) i : NoDup l → remove_first (λ j, Nat.eqb j i) l = filter (λ y, y ≠ i) l.
Proof.
  induction 1 as [|y l Hy _ IH]; [done|]. cbn [remove_first]. rewrite filter_cons. destruct (Nat.eqb_spec y i) as [->|Hne].
  - rewrite decide_False by (intros Hf; by apply Hf). symmetry. apply filter_all, Forall_forall. by intros z Hz ->.
  - by rewrite decide_True, IH.
Qed.

Lemma filter_absent (l : list nat) i : i ∉ l → filter (λ y, y ≠ i) l = l.
Proof. intros H. apply filter_all, Forall_forall. by intros y Hy ->. Qed.

(** The selection is the most recent distinct tools. *)
Lemma select_last (l : list nat) : foldl select [] l = last_n discloseActiveLimit (remove_dups l).
Proof.
  induction l as [|x l IH] using rev_ind; [done|]. rewrite foldl_app. cbn [foldl]. rewrite IH, remove_dups_snoc. unfold discloseActiveLimit. rewrite last_n_snoc.
  pose proof (NoDup_remove_dups l) as Hnd. set (r := remove_dups l) in *. destruct (last_n_split 8 r) as [old Hr]. set (sel := last_n 8 r) in *.
  assert (NoDup old ∧ NoDup sel ∧ ∀ y, y ∈ old → y ∉ sel) as (_ & Hns & Hdis).
  { rewrite Hr in Hnd. apply NoDup_app in Hnd as (? & ? & ?). by split_and!. }
  pose proof (last_n_length 8 r) as Hlen. fold sel in Hlen.
  assert ((length r ≤ 8)%nat → old = []) as Hold.
  { intros Hle. assert (sel = r) as E by (by apply last_n_all). rewrite E in Hr. apply (f_equal length) in Hr. rewrite length_app in Hr. destruct old; [done|]. cbn in Hr. lia. }
  assert ((length sel < 8)%nat → old = []) as Hshort.
  { intros Hlt. apply Hold. unfold sel, last_n in Hlt. rewrite length_drop in Hlt. lia. }
  unfold select. case_bool_decide as Hin; f_equal.
  - rewrite remove_first_nodup by done. rewrite Hr, filter_app, (filter_absent old) by (intros Hf; by apply Hdis in Hf).
    apply list_elem_of_split in Hin as (a & b & Hab). rewrite Hab in Hns |- *. apply NoDup_app in Hns as (_ & Hna & Hnb). apply NoDup_cons in Hnb as [Hnb _].
    rewrite filter_app, filter_cons, decide_False by (intros Hf; by apply Hf). rewrite (filter_absent b), (filter_absent a) by (try done; intros Hf; apply (Hna _ Hf); left).
    rewrite Hab, length_app in Hlen, Hshort. cbn in Hlen, Hshort. destruct (decide (length a + length b = 7)%nat) as [E|E].
    + rewrite last_n_app by (rewrite length_app; lia). symmetry. apply last_n_all. rewrite length_app. lia.
    + rewrite Hshort by lia. cbn [app]. symmetry. apply last_n_all. rewrite length_app. lia.
  - unfold discloseActiveLimit. destruct (Nat.eqb_spec (length sel) 8) as [E|E]; f_equal.
    + rewrite Hr, filter_app, (filter_absent sel) by done. rewrite last_n_app by lia. unfold last_n. rewrite E. by destruct sel.
    + rewrite Hr, Hshort, filter_app, (filter_absent sel) by (done || lia). cbn [app]. symmetry. apply last_n_all. lia.
Qed.

(** ** The library of a snapshot *)

Section Library.
Context (lower_other : N → N) (parse_json : string → option json).

(** A document speaks for a tool of the snapshot. *)
Definition doc_of (snap : CapabilitySnapshot) (doc : libraryDoc) : Prop :=
  ∃ e tool, e ∈ capabilities snap ∧ Tool (se_Manifest e) = Some tool ∧ executable snap (m_ID (se_Manifest e)) = true
    ∧ ld_ID doc = m_ID (se_Manifest e) ∧ ld_Schema doc = tool_parameters (se_Manifest e) tool.

Lemma imap_pair_snoc {A} (l : list A) x : imap pair (l ++ [x]) = imap pair l ++ [(length l, x)].
Proof. rewrite imap_app. cbn. by rewrite Nat.add_0_r. Qed.

Lemma byID_doc ds id i : byID (newLibraryIndex lower_other ds) !! id = Some i → ∃ doc, docs (newLibraryIndex lower_other ds) !! i = Some doc ∧ ld_ID doc = id.
Proof.
  cbn [newLibraryIndex byID docs]. intros H. assert (∃ d0, ds !! i = Some d0 ∧ ld_ID d0 = id) as (d0 & Hd & Hid).
  { revert H. induction ds as [|x l IH] using rev_ind; [done|]. rewrite imap_pair_snoc, foldl_app. cbn. intros [[E <-]|[_ H]]%lookup_insert_Some.
    - exists x. split; [|done]. by rewrite lookup_app_r, Nat.sub_diag.
    - destruct (IH H) as (d0 & Hd & Hid). exists d0. split; [|done]. by apply lookup_app_l_Some. }
  exists (index_doc lower_other d0). split; [|done]. by rewrite list_lookup_fmap, Hd.
Qed.

Lemma disclosed_docs snap d : discloseToolRuntime lower_other snap = Some d →
  d_inner d = snap ∧ (∀ i doc, docs (d_index d) !! i = Some doc → doc_of snap doc)
  ∧ (∀ id i, byID (d_index d) !! id = Some i → ∃ doc, docs (d_index d) !! i = Some doc ∧ ld_ID doc = id)
  ∧ Forall (λ s, ∃ e tool, e ∈ capabilities snap ∧ Tool (se_Manifest e) = Some tool ∧ executable snap (m_ID (se_Manifest e)) = true
              ∧ ts_Name s = m_ID (se_Manifest e) ∧ ts_Parameters s = tool_parameters (se_Manifest e) tool) (hotSchemas d).
Proof.
  unfold discloseToolRuntime. destruct (providers snap !! disclosedLibraryID); [done|]. cbv zeta.
  set (entries := omap (disclose_entry snap) (capabilities snap)). set (ds := omap (λ x, match x with inr d => Some d | inl _ => None end) entries).
  destruct ds as [|d0 ds0] eqn:Eds; [done|]. intros [=<-]. cbn [d_inner d_index hotSchemas]. split; [done|]. split_and!.
  - intros i doc. cbn [newLibraryIndex docs]. rewrite list_lookup_fmap. intros (x & Hx & ->)%fmap_Some_1. unfold deriveSiblingNotFor in Hx. rewrite list_lookup_imap in Hx.
    apply fmap_Some_1 in Hx as (y & Hy & ->). rewrite <- Eds in Hy. apply list_elem_of_lookup_2 in Hy. unfold ds in Hy. apply list_elem_of_omap in Hy as ([s|z] & Hz & E); [done|].
    injection E as ->. apply list_elem_of_omap in Hz as (e & He & Hz). unfold disclose_entry in Hz. destruct (executable snap _) eqn:Hex; [|done]. cbn in Hz.
    destruct (Tool (se_Manifest e)) as [tool|] eqn:Ht; [|done]. destruct (hotKind _); [done|]. injection Hz as <-. exists e, tool. split_and!; try done; by destruct (_ <? 2)%nat.
  - intros id i. apply byID_doc.
  - apply Forall_forall. intros s Hs. apply list_elem_of_omap in Hs as ([t|z] & Hz & E); [|done]. injection E as ->.
    apply list_elem_of_omap in Hz as (e & He & Hz). unfold disclose_entry in Hz. destruct (executable snap _) eqn:Hex; [|done]. cbn in Hz.
    destruct (Tool (se_Manifest e)) as [tool|] eqn:Ht; [|done]. destruct (hotKind _); [|done]. injection Hz as <-. by exists e, tool.
Qed.

(** ** What the messages show *)

(** The calls waiting for their result after a message. *)
Definition waiting (pending : gmap string ToolCall) (m : ChatMessage) : gmap string ToolCall :=
  if bool_decide (Role m = RoleAssistant) then foldl (λ p c, <[tc_ID c := c]> p) pending (message_calls m)
  else if bool_decide (Role m = RoleTool) then delete (ToolCallID m) pending else pending.

(** The position of the tool a message shows was used or described. *)
Definition shown_by (d : disclosedRuntime) (pending : gmap string ToolCall) (m : ChatMessage) : option nat :=
  if bool_decide (Role m = RoleAssistant) || negb (bool_decide (Role m = RoleTool)) then None
  else match pending !! ToolCallID m with
  | None => None
  | Some call =>
    match (if bool_decide (tc_Name call = disclosedLibraryID) then described_id parse_json d call (m_Content m) else Some (tc_Name call)) with
    | None => None
    | Some id => byID (d_index d) !! id
    end
  end.

(** The tools used or described, oldest first. *)
Fixpoint discoveries (d : disclosedRuntime) (pending : gmap string ToolCall) (ms : list ChatMessage) : list nat :=
  match ms with [] => [] | m :: ms => match shown_by d pending m with Some i => [i] | None => [] end ++ discoveries d (waiting pending m) ms end.

Lemma see_discoveries d ms : ∀ sel pending, (foldl (see_message parse_json d) (sel, pending) ms).1 = foldl select sel (discoveries d pending ms).
Proof.
  induction ms as [|m ms IH]; intros sel pending; [done|]. cbn [foldl discoveries]. rewrite foldl_app.
  assert (see_message parse_json d (sel, pending) m = (foldl select sel (match shown_by d pending m with Some i => [i] | None => [] end), waiting pending m)) as ->; [|apply IH].
  unfold see_message, shown_by, waiting. destruct (bool_decide (Role m = RoleAssistant)); [done|]. destruct (bool_decide (Role m = RoleTool)); [|done]. cbn [negb orb].
  destruct (pending !! ToolCallID m) as [call|]; [|done]. destruct (if bool_decide (tc_Name call = disclosedLibraryID) then _ else _) as [id|]; [|done].
  by destruct (byID (d_index d) !! id).
Qed.

Lemma discoveries_app d ms1 : ∀ pending ms2, discoveries d pending (ms1 ++ ms2) = discoveries d pending ms1 ++ discoveries d (foldl waiting pending ms1) ms2.
Proof. induction ms1 as [|m ms1 IH]; intros pending ms2; [done|]. cbn [discoveries app foldl]. by rewrite IH, app_assoc. Qed.

(** The documents of the last [discloseActiveLimit] of them. *)
Definition recent (d : disclosedRuntime) (ms : list ChatMessage) : list libraryDoc :=
  omap (λ i, docs (d_index d) !! i) (last_n discloseActiveLimit (remove_dups (discoveries d ∅ ms))).

Lemma schemas_recent d ms : schemasForMessages parse_json d ms = d_Schemas d ++ (doc_schema <$> recent d ms).
Proof.
  unfold schemasForMessages. pose proof (see_discoveries d ms [] ∅) as H. destruct (foldl _ _ ms) as [sel pending]. cbn [fst] in H. rewrite H, select_last. f_equal. unfold recent.
  induction (last_n _ _) as [|i l IH]; [done|]. cbn [omap list_omap]. destruct (docs (d_index d) !! i); [|done]. rewrite fmap_cons. by f_equal.
Qed.

Lemma recent_length d ms : (length (recent d ms) ≤ discloseActiveLimit)%nat.
Proof.
  unfold recent. etrans; [|apply (last_n_length discloseActiveLimit (remove_dups (discoveries d ∅ ms)))].
  induction (last_n _ _) as [|i l IH]; [done|]. cbn [omap list_omap length]. destruct (docs (d_index d) !! i); cbn; lia.
Qed.

(** ** Descriptions *)

Lemma describe_decodes doc : dec_struct status_fields (describe_json doc) ("", "") = Some ("ok", coerce_utf8 (ld_ID doc)).
Proof. reflexivity. Qed.

(** A call that describes a document by its id, and the answer to it. *)
Record describes (d : disclosedRuntime) (call : ToolCall) (i : nat) (doc : libraryDoc) : Prop := {
  dc_name : tc_Name call = disclosedLibraryID;
  dc_action : tc_Args call !! "action" = Some (JStr "describe");
  dc_id : tc_Args call !! "id" = Some (JStr (ld_ID doc));
  dc_doc : docs (d_index d) !! i = Some doc;
  dc_index : byID (d_index d) !! ld_ID doc = Some i;
  dc_trimmed : trim_space (ld_ID doc) = ld_ID doc;
  dc_nonempty : ld_ID doc ≠ "";
  dc_valid : valid_utf8 (ld_ID doc) = true;
  dc_short : str_len (json_text (describe_json doc)) ≤ MaxCapabilityManifestBytes;
  dc_parsed : parse_json (json_text (describe_json doc)) = Some (describe_json doc) }.

Lemma describe_answers d call i doc : describes d call i doc → executeLibrary lower_other d call = describe_doc doc.
Proof.
  intros [_ Ha Hid Hdoc Hix Ht Hne _ _ _]. unfold executeLibrary, library_describe, string_arg. rewrite Ha, Hid, Ht.
  assert (trim_space "describe" = "describe") as -> by reflexivity. unfold is_empty. rewrite (bool_decide_eq_false_2 (ld_ID doc = "")) by done. by rewrite Hix, Hdoc.
Qed.

Lemma describe_discovers d call i doc : describes d call i doc → described_id parse_json d call (r_Content (describe_doc doc)) = Some (ld_ID doc).
Proof.
  intros [_ Ha Hid Hdoc Hix Ht Hne Hv Hs Hp]. unfold described_id. rewrite Ha, bool_decide_eq_true_2 by done. cbn [negb orb describe_doc discloseJSON r_Content].
  assert (MaxCapabilityManifestBytes <? str_len (json_text (describe_json doc)) = false) as -> by (apply Z.ltb_ge; lia).
  rewrite Hp, describe_decodes, coerce_utf8_id by done. cbn [negb]. rewrite bool_decide_eq_true_2 by done. cbn [negb]. rewrite Hix. cbv zeta. unfold string_arg. rewrite Hid, Ht.
  unfold is_empty. rewrite (bool_decide_eq_false_2 (ld_ID doc = "")), bool_decide_eq_true_2 by done. done.
Qed.

Lemma shown_last d ms call i doc asks answer :
  describes d call i doc → Role asks = RoleAssistant → message_calls asks = [call] →
  Role answer = RoleTool → ToolCallID answer = tc_ID call → m_Content answer = r_Content (describe_doc doc) →
  ∃ before, recent d (ms ++ [asks; answer]) = before ++ [doc].
Proof.
  intros Hd Ha Hcalls Ht Hid Hcontent. unfold recent. rewrite discoveries_app. cbn [discoveries].
  assert (∀ p, shown_by d p asks = None) as Hnone by (intros p; unfold shown_by; by rewrite Ha). rewrite Hnone. cbn [app].
  set (p := waiting _ asks). assert (p !! tc_ID call = Some call) as Hp by (unfold p, waiting; rewrite Ha, Hcalls, bool_decide_eq_true_2 by done; cbn; by rewrite lookup_insert_eq).
  assert (shown_by d p answer = Some i) as ->.
  { unfold shown_by. rewrite Ht, Hid, Hp. cbn [negb orb bool_decide]. rewrite bool_decide_eq_false_2, bool_decide_eq_true_2 by done. cbn [negb orb].
    rewrite (dc_name _ _ _ _ Hd), bool_decide_eq_true_2, Hcontent, (describe_discovers _ _ _ _ Hd) by done. apply (dc_index _ _ _ _ Hd). }
  cbn [app]. rewrite remove_dups_snoc. unfold discloseActiveLimit. rewrite last_n_snoc, omap_app. cbn [omap list_omap]. rewrite (dc_doc _ _ _ _ Hd). by eexists.
Qed.

(** ** Search *)

Lemma merge_hits_sorted l : StronglySorted hit_le (merge_sort hit_le l).
Proof.
  assert (Transitive hit_le). { intros a b c. unfold hit_le. intros [?|[? H1]] [?|[? H2]]; [left; lia..|]. right. split; [lia|]. by etrans. }
  assert (Total hit_le).
  { intros a b. unfold hit_le. destruct (decide (Score a < Score b)); [right; left; lia|]. destruct (decide (Score b < Score a)); [left; left; lia|].
    destruct (total String.le (ld_ID (lh_doc a)) (ld_ID (lh_doc b))); [left|right]; right; split; (lia || done). }
  apply Sorted_StronglySorted; [done|]. apply (Sorted_merge_sort _).
Qed.

(** A search answers at most [topK] of the matching documents, in order, and
    everything it leaves out ranks after everything it answers. *)
Theorem search_answers_the_best ix query topK hits :
  1 ≤ topK → index_search lower_other ix query topK = Some hits →
  StronglySorted hit_le hits ∧ Z.of_nat (length hits) ≤ topK
  ∧ (∀ h, h ∈ hits → lh_doc h ∈ docs ix ∧ match_doc ix (discloseQueryTokens lower_other query) (lh_doc h) = Some h)
  ∧ ∀ doc h, doc ∈ docs ix → match_doc ix (discloseQueryTokens lower_other query) doc = Some h → h ∈ hits ∨ Forall (λ k, hit_le k h) hits.
Proof.
  intros Hk. unfold index_search. case_bool_decide; [done|]. set (all := omap (match_doc ix _) (docs ix)). set (sorted := merge_sort hit_le all).
  pose proof (merge_hits_sorted all) as Hs. fold sorted in Hs. assert (∀ h, h ∈ sorted ↔ h ∈ all) as Hin by (intros h; unfold sorted; by rewrite merge_sort_Permutation).
  assert (∀ h, h ∈ all → lh_doc h ∈ docs ix ∧ match_doc ix (discloseQueryTokens lower_other query) (lh_doc h) = Some h) as Hall.
  { intros h (doc & Hdoc & Hm)%list_elem_of_omap. assert (lh_doc h = doc) as ->; [|done]. unfold match_doc in Hm. cbv zeta in Hm.
    repeat match type of Hm with (if ?c then _ else _) = _ => destruct c; [done|] end. by injection Hm as <-. }
  intros [=<-]. destruct ((0 <? topK) && (topK <? Z.of_nat (length sorted))) eqn:Ecut.
  - bool_to_prop. rewrite <- (take_drop (Z.to_nat topK) sorted) in Hs. apply StronglySorted_app in Hs as (Hcross & Hs & _). split_and!; [done|rewrite length_take; lia| |].
    + intros h Hh. apply Hall, Hin. by eapply elem_of_take in Hh as (? & ? & _); eapply list_elem_of_lookup_2.
    + intros doc h Hdoc Hm. assert (h ∈ sorted) as Hh by (apply Hin, list_elem_of_omap; by exists doc). rewrite <- (take_drop (Z.to_nat topK) sorted) in Hh.
      apply elem_of_app in Hh as [Hh|Hh]; [by left|right]. apply Forall_forall. intros k Hkk. by apply Hcross.
  - split_and!; [done| | |].
    + apply andb_false_iff in Ecut as [E|E]; bool_to_prop; lia.
    + intros h Hh. by apply Hall, Hin.
    + intros doc h Hdoc Hm. left. apply Hin, list_elem_of_omap. by exists doc.
Qed.
End Library.

(** ** The property *)

(** Disclosure is presentation only.  For every history, the schemas given
    to the model are those of the always-present tools, the library itself and at
    most eight more: the tools the history shows were described or used last,
    each once, in the order of their last appearance.  Every one of them but the
    library belongs to a capability of the current snapshot that the snapshot
    would execute, and has that capability's own parameters, whatever an old
    message says.  A description answered to the model makes its tool the last of
    them at the next call. *)
Theorem disclosure_shows_recent_tools lower_other parse_json snap d ms :
  discloseToolRuntime lower_other snap = Some d →
  schemasForMessages parse_json d ms = d_Schemas d ++ (doc_schema <$> recent parse_json d ms) ∧ (length (recent parse_json d ms) ≤ discloseActiveLimit)%nat
  ∧ (∀ s, s ∈ schemasForMessages parse_json d ms → ts_Name s = disclosedLibraryID
       ∨ ∃ e tool, e ∈ capabilities snap ∧ m_ID (se_Manifest e) = ts_Name s ∧ Authorized snap (ts_Name s) = true
           ∧ Tool (se_Manifest e) = Some tool ∧ ts_Parameters s = cloneMap (tool_parameters (se_Manifest e) tool))
  ∧ (∀ call i doc asks answer, describes parse_json d call i doc → Role asks = RoleAssistant → message_calls asks = [call] →
       Role answer = RoleTool → ToolCallID answer = tc_ID call → m_Content answer = r_Content (executeLibrary lower_other d call) →
       ∃ before, schemasForMessages parse_json d (ms ++ [asks; answer]) = before ++ [doc_schema doc]).
Proof.
  intros Hd. pose proof (disclosed_docs _ _ _ Hd) as (_ & Hdocs & _ & Hhot). split; [apply schemas_recent|]. split; [apply recent_length|]. split.
  - intros s. rewrite schemas_recent. unfold d_Schemas. rewrite !elem_of_app, list_elem_of_singleton. intros [[Hs|Hs]|Hs]; [|by left; rewrite Hs|].
    + right. unfold cloneToolSchemas in Hs. apply list_elem_of_fmap in Hs as (t & -> & Ht). rewrite Forall_forall in Hhot. destruct (Hhot t Ht) as (e & tool & He & Htool & Hex & Hname & Hp).
      exists e, tool. cbn [ts_Name ts_Parameters]. unfold Authorized. rewrite Hname, Hp. by split_and!.
    + right. apply list_elem_of_fmap in Hs as (doc & -> & Hdoc). apply list_elem_of_omap in Hdoc as (i & _ & Hi). destruct (Hdocs i doc Hi) as (e & tool & He & Htool & Hex & Hid & Hp).
      exists e, tool. cbn [ts_Name ts_Parameters doc_schema]. unfold Authorized. rewrite Hid, Hp. by split_and!.
  - intros call i doc asks answer Hdesc Ha Hcalls Ht Hid Hcontent. rewrite (describe_answers _ _ _ _ _ _ Hdesc) in Hcontent.
    destruct (shown_last _ _ ms _ _ _ _ _ Hdesc Ha Hcalls Ht Hid Hcontent) as (before & Hb). rewrite schemas_recent, Hb, fmap_app, app_assoc. by eexists.
Qed.

(** ** A witness *)

Definition ex_snapshot : CapabilitySnapshot :=
  match cap_Resolve "2024-01-01T00:00:00Z" ex_cap_registry ex_cap_principal ex_user with Ok s => s | Err _ => mk_snapshot "" "" ex_user [] ∅ ex_cap_principal end.
Definition ex_disclosed : option disclosedRuntime := discloseToolRuntime (λ r, r) ex_snapshot.
Definition ex_describe : ToolCall := mk_call "c1" disclosedLibraryID (list_to_map [("action", JStr "describe"); ("id", JStr "data.lookup")]) "".
Definition ex_asks : ChatMessage := mk_msg RoleAssistant "" (Some ex_describe) [ex_describe] "" 1 None.

Definition ex_library : disclosedRuntime :=
  match ex_disclosed with Some d => d | None => mk_disclosed ex_snapshot (mk_index [] ∅ ∅) [] end.
Definition ex_doc : libraryDoc := match docs (d_index ex_library) with doc :: _ => doc | [] => mk_doc "" "" "" "" ∅ [] ∅ ∅ ∅ ∅ end.
Definition ex_answer : ChatMessage := mk_msg RoleTool (r_Content (executeLibrary (λ r, r) ex_library ex_describe)) None [] "c1" 2 None.
(** A decoder that knows one text. *)
Definition ex_parse (text : string) : option json := if bool_decide (text = json_text (describe_json ex_doc)) then Some (describe_json ex_doc) else None.

Lemma ex_disclosed_ok : ex_disclosed = Some ex_library.
Proof. vm_compute. reflexivity. Qed.
Lemma ex_doc_short : (str_len (json_text (describe_json ex_doc)) <=? MaxCapabilityManifestBytes) = true.
Proof. vm_compute. reflexivity. Qed.

Lemma ex_describes : describes ex_parse ex_library ex_describe 0 ex_doc.
Proof.
  split; try (vm_compute; reflexivity).
  - vm_compute. discriminate.
  - apply Z.leb_le, ex_doc_short.
Qed.

Lemma disclosure_shows_recent_tools_witness :
  ld_ID ex_doc = "data.lookup" ∧ ∃ before, schemasForMessages ex_parse ex_library [ex_asks; ex_answer] = before ++ [doc_schema ex_doc].
Proof.
  split; [vm_compute; reflexivity|].
  destruct (disclosure_shows_recent_tools (λ r, r) ex_parse ex_snapshot ex_library [] ex_disclosed_ok) as (_ & _ & _ & H).
  apply (H ex_describe 0%nat ex_doc ex_asks ex_answer ex_describes); reflexivity.
Defined.
