(* ===== verification/GraphContract.v ===== *)
(** * Graph contract: definitions, checkpoints, transitions

    [pkg/extensions/graph/contract.go] and [checkpoint.go]: the declarative
    graph, the checkpoint of a graph run, the transition appended with each
    checkpoint, and their validation.

    A closed Go string type is an inductive type with one more constructor for
    the other strings.  An error is its sentinel ([ErrInvalidCheckpoint], ...);
    the detail text behind it is left out.  A stored JSON value is its length,
    whether its bytes are valid UTF-8, and the value its text denotes. *)
From S2P Require Import Prelude GoString Json Sha256.
From stdpp Require Import gmap strings list sorting.
From Stdlib Require Import ZArith Lia.
Open Scope Z_scope.

Definition MaxDefinitionBytes : Z := 262144.
Definition MaxGraphIDBytes : Z := 128.
Definition MaxGraphVersionBytes : Z := 64.
Definition MaxNodeIDBytes : Z := 128.
Definition MaxNodeKindBytes : Z := 128.
Definition MaxNodes : Z := 128.
Definition MaxEdges : Z := 512.
Definition MaxStateFields : Z := 64.
Definition MaxStateFieldBytes : Z := 65536.
Definition MaxStateBytes : Z := 524288.
Definition MaxNodeConfigBytes : Z := 16384.
Definition MaxRegistryEntries : Z := 256.
Definition MaxSteps : Z := 1024.
Definition MaxVisitsPerNode : Z := 128.
Definition MaxRetryAttempts : Z := 10.
(** Durations are nanoseconds. *)
Definition MaxNodeTimeout : Z := 300000000000.
Definition ReducerTopLevelJSONPatch : string := "top-level-json-patch/v1".

(** A [json.RawMessage] of the graph state or of a node configuration. *)
Record StateValue := mk_value { sv_len : Z; sv_utf8 : bool; sv_value : option json }.

#[export] Instance StateValue_eq_dec : EqDecision StateValue.
Proof. solve_decision. Defined.

(** [type State map[string]json.RawMessage]. *)
Notation State := (gmap string StateValue).

(** Decoding one value with [UseNumber] and encoding it again: the text and the
    canonical value. *)
Definition canonical_value (j : json) : json := json_of_any (any_of_json j).
Definition encoded_value (j : json) : StateValue := mk_value (json_len j) true (Some j).

(** ** Layers and context contracts of a node *)

(** [type LayerKind string]. *)
Definition LayerCurrentInput : string := "current_input".
Definition LayerRequiredState : string := "required_state".
Definition LayerPendingApproval : string := "pending_approval".
Definition LayerRecentHistory : string := "recent_history".
Definition LayerSummary : string := "summary".
Definition LayerArtifact : string := "artifact".
Definition LayerRetrieval : string := "retrieval".

Record ContextView := mk_view { cv_StateFields : list string; cv_Layers : list string }.

Record ContextBudget := mk_budget {
  cb_TotalTokens : Z; cb_OutputReserve : Z; cb_StablePrefixTokens : Z; cb_LayerBudgets : gmap string Z }.

#[export] Instance ContextView_eq_dec : EqDecision ContextView.
Proof. solve_decision. Defined.
#[export] Instance ContextBudget_eq_dec : EqDecision ContextBudget.
Proof. solve_decision. Defined.

(** ** Definitions *)

Inductive EdgeKind := EdgeDefault | EdgeConditional | EdgeError | EdgeOther (s : string).

#[export] Instance EdgeKind_eq_dec : EqDecision EdgeKind.
Proof. solve_decision. Defined.

Definition edge_text (k : EdgeKind) : string :=
  match k with EdgeDefault => "default" | EdgeConditional => "conditional" | EdgeError => "error" | EdgeOther s => s end.

Inductive StateValueType := StateString | StateNumber | StateBoolean | StateObject | StateArray | StateOther (s : string).

Definition state_type_text (t : StateValueType) : string :=
  match t with
  | StateString => "string" | StateNumber => "number" | StateBoolean => "boolean"
  | StateObject => "object" | StateArray => "array" | StateOther s => s
  end.

(** The empty policy is [PolicyOther ""]. *)
Inductive ApprovalDeniedPolicy := ApprovalDeniedFail | ApprovalDeniedResumeWithDecision | PolicyOther (s : string).

#[export] Instance ApprovalDeniedPolicy_eq_dec : EqDecision ApprovalDeniedPolicy.
Proof. solve_decision. Defined.

Definition policy_text (p : ApprovalDeniedPolicy) : string :=
  match p with ApprovalDeniedFail => "failed" | ApprovalDeniedResumeWithDecision => "resume_with_decision" | PolicyOther s => s end.

Record RetryPolicy := mk_retry { rp_MaxAttempts : Z; rp_Backoff : Z }.
Record Limits := mk_limits { li_MaxSteps : Z; li_MaxVisitsPerNode : Z }.

Record NodeSpec := mk_node {
  n_ID : string; n_Kind : string; n_KindVersion : string; n_Config : option StateValue;
  n_ContextView : ContextView; n_ContextBudget : ContextBudget; n_Retry : RetryPolicy; n_Timeout : Z;
  n_Terminal : bool; n_UsesSandbox : bool; n_ApprovalDeniedPolicy : ApprovalDeniedPolicy }.

Record EdgeSpec := mk_edge {
  e_From : string; e_To : string; e_Kind : EdgeKind; e_Predicate : string; e_PredicateVersion : string }.

Record StateField := mk_field {
  f_Name : string; f_Type : StateValueType; f_Required : bool; f_Sensitive : bool; f_MaxBytes : Z }.

Record StateSchema := mk_schema { ss_Reducer : string; ss_ReducerVersion : string; ss_Fields : list StateField }.

(** [Redaction.StateFields] is the only field of the redaction schema. *)
Record Definition_ := mk_definition {
  d_ID : string; d_Version : string; d_Revision : string; d_EntryNode : string;
  d_Nodes : list NodeSpec; d_Edges : list EdgeSpec; d_State : StateSchema; d_Limits : Limits;
  d_Redaction : list string }.

(** ** Checkpoints *)

Definition MaxCheckpointIDBytes : Z := 128.
Definition MaxCheckpointTransitions : Z := 4096.
Definition MaxTransitionPageSize : Z := 256.
Definition MaxCheckpointVersionPageSize : Z := 256.
Definition MaxCheckpointFailureBytes : Z := 128.
Definition MaxCheckpointEdgeNameBytes : Z := 128.
Definition MaxApprovalActorBytes : Z := 128.
Definition MaxApprovalBasisBytes : Z := 256.

Definition ErrCheckpointConflict : string := "graph checkpoint conflict".
Definition ErrCheckpointNotFound : string := "graph checkpoint not found".
Definition ErrInvalidCheckpoint : string := "invalid graph checkpoint".
Definition ErrInvalidTransition : string := "invalid graph transition".
Definition ErrCheckpointCapacity : string := "graph checkpoint capacity exceeded".

Inductive CommitDisposition := CommitUnknown | CommitApplied | CommitReplayed.

Definition disposition_valid (d : CommitDisposition) : bool :=
  match d with CommitUnknown => false | CommitApplied | CommitReplayed => true end.

Record CheckpointKey := mk_key { k_TenantID : string; k_SessionID : string; k_RunID : string }.

#[export] Instance CheckpointKey_eq_dec : EqDecision CheckpointKey.
Proof. solve_decision. Defined.
#[export] Instance CheckpointKey_countable : Countable CheckpointKey.
Proof.
  refine (inj_countable' (λ k, (k_TenantID k, k_SessionID k, k_RunID k)) (λ p, mk_key p.1.1 p.1.2 p.2) _). by intros [].
Defined.

(** The empty status, the source of the first transition, is [StatusOther ""]. *)
Inductive CheckpointStatus :=
| CheckpointReady | CheckpointExecuting | CheckpointWaitingApproval | CheckpointCompleted
| CheckpointFailed | CheckpointCancelled | CheckpointUnknown | StatusOther (s : string).

#[export] Instance CheckpointStatus_eq_dec : EqDecision CheckpointStatus.
Proof. solve_decision. Defined.

Definition status_text (s : CheckpointStatus) : string :=
  match s with
  | CheckpointReady => "ready" | CheckpointExecuting => "executing" | CheckpointWaitingApproval => "waiting_approval"
  | CheckpointCompleted => "completed" | CheckpointFailed => "failed" | CheckpointCancelled => "cancelled"
  | CheckpointUnknown => "unknown" | StatusOther s => s
  end.

Record EdgeEvidence := mk_evidence { ee_From : string; ee_To : string; ee_Kind : EdgeKind; ee_Predicate : string }.

#[export] Instance EdgeEvidence_eq_dec : EqDecision EdgeEvidence.
Proof. solve_decision. Defined.

Record ApprovalEvidence := mk_approval {
  ae_TenantID : string; ae_ApprovalID : string; ae_Decision : string; ae_Revision : Z;
  ae_SourceSegmentID : string; ae_ActorID : string; ae_AuthorizationBasis : string }.

#[export] Instance ApprovalEvidence_eq_dec : EqDecision ApprovalEvidence.
Proof. solve_decision. Defined.

Record Checkpoint := mk_checkpoint {
  cp_Key : CheckpointKey; cp_SegmentID : string; cp_GraphID : string; cp_DefinitionRevision : string;
  cp_CompositionRevision : string; cp_ImplementationRevision : string; cp_HostGeneration : Z;
  cp_CurrentNodeID : string; cp_Attempt : Z; cp_AttemptID : string; cp_Steps : Z; cp_Visits : gmap string Z;
  cp_Revision : Z; cp_State : State; cp_LastEdge : option EdgeEvidence; cp_PendingApprovalID : string;
  cp_ResolvedApproval : option ApprovalEvidence; cp_Status : CheckpointStatus; cp_FailureCode : string }.

#[export] Instance Checkpoint_eq_dec : EqDecision Checkpoint.
Proof. solve_decision. Defined.

Record Transition := mk_transition {
  t_ID : string; t_Key : CheckpointKey; t_Revision : Z; t_From : CheckpointStatus; t_To : CheckpointStatus;
  t_SegmentID : string; t_SourceSegmentID : string; t_SourceHostGeneration : Z; t_SourceNodeID : string;
  t_SourceAttemptID : string; t_CurrentNodeID : string; t_AttemptID : string; t_OutcomeCode : string;
  t_Edge : option EdgeEvidence; t_Approval : option ApprovalEvidence }.

#[export] Instance Transition_eq_dec : EqDecision Transition.
Proof. solve_decision. Defined.

Inductive CheckpointVersionOrigin :=
| CheckpointVersionOriginCommit | CheckpointVersionOriginMigrationFloor | CheckpointVersionOriginFork | OriginOther (s : string).

Record CheckpointVersionInfo := mk_info {
  vi_ID : string; vi_ParentID : string; vi_Origin : CheckpointVersionOrigin; vi_Key : CheckpointKey;
  vi_Revision : Z; vi_CheckpointHash : string; vi_CreatedAt : Z }.

Record CheckpointVersion := mk_version { cv_Info : CheckpointVersionInfo; cv_Checkpoint : Checkpoint }.

(** [uint64] arithmetic. *)
Definition u64_succ (z : Z) : Z := (z + 1) `mod` 2 ^ 64.
Definition u64_pred (z : Z) : Z := (z - 1) `mod` 2 ^ 64.

Definition nul : string := String (Ascii.ascii_of_N 0) EmptyString.

Definition key_String (k : CheckpointKey) : string :=
  k_TenantID k +:+ "/" +:+ k_SessionID k +:+ "/" +:+ k_RunID k.

Definition TransitionID (key : CheckpointKey) (revision : Z) : string :=
  sha256_hex (k_TenantID key +:+ nul +:+ k_SessionID key +:+ nul +:+ k_RunID key +:+ nul +:+ z_text revision).

Definition CheckpointVersionID (key : CheckpointKey) (revision : Z) : string :=
  sha256_hex ("checkpoint-version" +:+ nul +:+ k_TenantID key +:+ nul +:+ k_SessionID key +:+ nul +:+ k_RunID key
              +:+ nul +:+ z_text revision).

(** ** Validation *)

(** [unicode.IsControl]. *)
Definition is_control (r : N) : bool := ((r <? 0x20) || ((0x7f <=? r) && (r <? 0xa0)))%N.
Definition contains_control (value : string) : bool := existsb is_control (runes value).
Definition contains_space (value : string) : bool := existsb is_space (runes value).

(** Non-empty, bounded, valid UTF-8, without outer white space or control runes. *)
Definition validCheckpointText (value : string) (max : Z) : bool :=
  if bool_decide (value = "") || (max <? str_len value) || negb (valid_utf8 value) || negb (bool_decide (trim_space value = value))
  then false else negb (contains_control value).

Definition validateCheckpointIdentifier (value : string) (maximum : Z) : bool :=
  if bool_decide (value = "") || (maximum <? str_len value) || negb (valid_utf8 value)
     || negb (bool_decide (trim_space value = value)) || contains_control value
  then false else negb (contains_space value).

Definition validateCheckpointKey (key : CheckpointKey) : bool :=
  validateCheckpointIdentifier (k_TenantID key) MaxCheckpointIDBytes
  && validateCheckpointIdentifier (k_SessionID key) MaxCheckpointIDBytes
  && validateCheckpointIdentifier (k_RunID key) MaxCheckpointIDBytes.

Definition ValidateCheckpointKey (key : CheckpointKey) : result unit :=
  if validateCheckpointKey key then Ok tt else Err ErrInvalidCheckpoint.

Definition validateCheckpointStatus (s : CheckpointStatus) : bool :=
  match s with StatusOther _ => false | _ => true end.

Definition legalTransition (from to : CheckpointStatus) : bool :=
  match from with
  | StatusOther s => bool_decide (s = "") && bool_decide (to = CheckpointReady)
  | CheckpointReady => match to with CheckpointExecuting | CheckpointCancelled => true | _ => false end
  | CheckpointExecuting =>
      match to with
      | CheckpointReady | CheckpointWaitingApproval | CheckpointCompleted | CheckpointFailed
      | CheckpointCancelled | CheckpointUnknown => true
      | _ => false
      end
  | CheckpointWaitingApproval => match to with CheckpointReady | CheckpointFailed => true | _ => false end
  | _ => false
  end.

Definition validateEdgeEvidence (edge : EdgeEvidence) : bool :=
  validateCheckpointIdentifier (ee_From edge) MaxCheckpointEdgeNameBytes
  && validateCheckpointIdentifier (ee_To edge) MaxCheckpointEdgeNameBytes
  && match ee_Kind edge with
     | EdgeDefault | EdgeError => bool_decide (ee_Predicate edge = "")
     | EdgeConditional => validateCheckpointIdentifier (ee_Predicate edge) MaxCheckpointEdgeNameBytes
     | EdgeOther _ => false
     end.

(** The text checks common to the two approval validations. *)
Definition approval_texts_ok (evidence : ApprovalEvidence) (checkpoint : Checkpoint) : bool :=
  negb (bool_decide (ae_TenantID evidence = ""))
  && bool_decide (ae_TenantID evidence = k_TenantID (cp_Key checkpoint))
  && validCheckpointText (ae_TenantID evidence) MaxCheckpointIDBytes
  && validCheckpointText (ae_ApprovalID evidence) MaxCheckpointIDBytes
  && validCheckpointText (ae_SourceSegmentID evidence) MaxCheckpointIDBytes
  && validCheckpointText (ae_ActorID evidence) MaxApprovalActorBytes
  && validCheckpointText (ae_AuthorizationBasis evidence) MaxApprovalBasisBytes.

Definition validateCheckpointApproval (evidence : ApprovalEvidence) (checkpoint : Checkpoint) : bool :=
  approval_texts_ok evidence checkpoint
  && (bool_decide (ae_Decision evidence = "approved") || bool_decide (ae_Decision evidence = "denied"))
  && negb (ae_Revision evidence =? 0).

Definition validateApprovalEvidence (evidence : ApprovalEvidence) (transition : Transition) (checkpoint : Checkpoint) : bool :=
  approval_texts_ok evidence checkpoint
  && negb (bool_decide (t_SourceSegmentID transition = ""))
  && bool_decide (ae_SourceSegmentID evidence = t_SourceSegmentID transition)
  && (bool_decide (ae_Decision evidence = "approved") || bool_decide (ae_Decision evidence = "denied"))
  && negb (ae_Revision evidence =? 0)
  && (u64_succ (ae_Revision evidence) =? cp_Revision checkpoint)
  && implb (bool_decide (ae_Decision evidence = "approved"))
       (bool_decide (t_From transition = CheckpointWaitingApproval) && bool_decide (cp_Status checkpoint = CheckpointReady)
        && bool_decide (t_OutcomeCode transition = "approval_approved"))
  && implb (bool_decide (ae_Decision evidence = "denied"))
       (bool_decide (t_From transition = CheckpointWaitingApproval)
        && (bool_decide (cp_Status checkpoint = CheckpointFailed) || bool_decide (cp_Status checkpoint = CheckpointReady))
        && bool_decide (t_OutcomeCode transition = "approval_denied")).

(** [json.Marshal] of a map of raw values: every value is written compactly. *)
Definition state_json (s : State) : json :=
  JObj (sorted_entries (put_entries ∅ (map (λ '(k, v), (coerce_utf8 k, default JNull (sv_value v))) (map_to_list s)))).

(** One field of [canonicalCheckpointState]. *)
Definition canonicalCheckpointField (key : string) (raw : StateValue) : option StateValue :=
  if negb (validateCheckpointIdentifier key MaxNodeIDBytes) then None
  else if (sv_len raw =? 0) || (MaxStateFieldBytes <? sv_len raw) || negb (sv_utf8 raw) then None
  else match sv_value raw with
       | None => None
       | Some value => let canonical := encoded_value (canonical_value value) in
                       if MaxStateFieldBytes <? sv_len canonical then None else Some canonical
       end.

Definition canonicalCheckpointState (input : State) : option State :=
  if MaxStateFields <? Z.of_nat (size input) then None
  else if bool_decide (map_Forall (λ key raw, is_Some (canonicalCheckpointField key raw)) input)
       then let out := map_imap (λ key raw, canonicalCheckpointField key raw) input in
            if MaxStateBytes <? json_len (state_json out) then None else Some out
       else None.

(** [checkpoint.State = canonical] *)
Definition set_state (s : State) (c : Checkpoint) : Checkpoint :=
  mk_checkpoint (cp_Key c) (cp_SegmentID c) (cp_GraphID c) (cp_DefinitionRevision c) (cp_CompositionRevision c)
    (cp_ImplementationRevision c) (cp_HostGeneration c) (cp_CurrentNodeID c) (cp_Attempt c) (cp_AttemptID c)
    (cp_Steps c) (cp_Visits c) (cp_Revision c) s (cp_LastEdge c) (cp_PendingApprovalID c) (cp_ResolvedApproval c)
    (cp_Status c) (cp_FailureCode c).

Definition identifiers_ok (c : Checkpoint) : bool :=
  forallb (λ value, validateCheckpointIdentifier value MaxCheckpointIDBytes)
    [cp_SegmentID c; cp_GraphID c; cp_DefinitionRevision c; cp_CompositionRevision c; cp_ImplementationRevision c; cp_CurrentNodeID c].

Definition visits_ok (visits : gmap string Z) : bool :=
  (Z.of_nat (size visits) <=? MaxNodes)
  && bool_decide (map_Forall (λ node n, validateCheckpointIdentifier node MaxNodeIDBytes = true ∧ 0 ≤ n ≤ MaxVisitsPerNode) visits).

Definition failure_ok (c : Checkpoint) : bool :=
  match cp_Status c with
  | CheckpointFailed | CheckpointCancelled | CheckpointUnknown => negb (bool_decide (cp_FailureCode c = ""))
  | _ => bool_decide (cp_FailureCode c = "")
  end.

Definition outcome_text_ok (code : string) : bool :=
  (str_len code <=? MaxCheckpointFailureBytes) && valid_utf8 code && negb (contains_control code).

Definition needs_attempt (s : CheckpointStatus) : bool :=
  match s with CheckpointExecuting | CheckpointWaitingApproval | CheckpointUnknown => true | _ => false end.
Definition forbids_attempt (s : CheckpointStatus) : bool :=
  match s with CheckpointCompleted | CheckpointFailed | CheckpointCancelled => true | _ => false end.

Definition ValidateCheckpoint (checkpoint : Checkpoint) : result Checkpoint :=
  let! _ := ValidateCheckpointKey (cp_Key checkpoint) in
  fail_when negb (identifiers_ok checkpoint) with ErrInvalidCheckpoint ;;
  fail_when (cp_Revision checkpoint =? 0) || (cp_Attempt checkpoint <? 0) || (MaxRetryAttempts <? cp_Attempt checkpoint)
            || (cp_Steps checkpoint <? 0) || (MaxSteps <? cp_Steps checkpoint) with ErrInvalidCheckpoint ;;
  fail_when negb (bool_decide (cp_AttemptID checkpoint = ""))
            && negb (validateCheckpointIdentifier (cp_AttemptID checkpoint) MaxCheckpointIDBytes) with ErrInvalidCheckpoint ;;
  fail_when needs_attempt (cp_Status checkpoint)
            && ((cp_Attempt checkpoint <=? 0) || bool_decide (cp_AttemptID checkpoint = "")) with ErrInvalidCheckpoint ;;
  fail_when negb (visits_ok (cp_Visits checkpoint)) with ErrInvalidCheckpoint ;;
  fail_when negb (validateCheckpointStatus (cp_Status checkpoint)) with ErrInvalidCheckpoint ;;
  fail_when negb (failure_ok checkpoint) with ErrInvalidCheckpoint ;;
  fail_when negb (bool_decide (cp_PendingApprovalID checkpoint = ""))
            && negb (validateCheckpointIdentifier (cp_PendingApprovalID checkpoint) MaxCheckpointIDBytes) with ErrInvalidCheckpoint ;;
  fail_when bool_decide (cp_Status checkpoint = CheckpointWaitingApproval) && bool_decide (cp_PendingApprovalID checkpoint = "")
    with ErrInvalidCheckpoint ;;
  fail_when negb (bool_decide (cp_Status checkpoint = CheckpointWaitingApproval))
            && negb (bool_decide (cp_PendingApprovalID checkpoint = "")) with ErrInvalidCheckpoint ;;
  fail_when negb (bool_decide (cp_PendingApprovalID checkpoint = "")) && bool_decide (is_Some (cp_ResolvedApproval checkpoint))
    with ErrInvalidCheckpoint ;;
  fail_when match cp_ResolvedApproval checkpoint with
            | Some approval => bool_decide (cp_Status checkpoint = CheckpointWaitingApproval)
                               || negb (validateCheckpointApproval approval checkpoint)
            | None => false
            end with ErrInvalidCheckpoint ;;
  fail_when forbids_attempt (cp_Status checkpoint) && negb (bool_decide (cp_AttemptID checkpoint = "")) with ErrInvalidCheckpoint ;;
  fail_when negb (outcome_text_ok (cp_FailureCode checkpoint)) with ErrInvalidCheckpoint ;;
  fail_when match cp_LastEdge checkpoint with Some edge => negb (validateEdgeEvidence edge) | None => false end
    with ErrInvalidCheckpoint ;;
  match canonicalCheckpointState (cp_State checkpoint) with
  | None => Err ErrInvalidCheckpoint
  | Some canonical => Ok (set_state canonical checkpoint)
  end.

(** ** Encoding and digests *)

Definition json_of_key (k : CheckpointKey) : json :=
  JObj [("tenant_id", json_of_str (k_TenantID k)); ("session_id", json_of_str (k_SessionID k)); ("run_id", json_of_str (k_RunID k))].

Definition json_of_evidence (e : EdgeEvidence) : json :=
  JObj ([("from", json_of_str (ee_From e)); ("to", json_of_str (ee_To e)); ("kind", json_of_str (edge_text (ee_Kind e)))]
        ++ omit_if (bool_decide (ee_Predicate e = "")) "predicate" (json_of_str (ee_Predicate e)))%list.

Definition json_of_approval (a : ApprovalEvidence) : json :=
  JObj [("tenant_id", json_of_str (ae_TenantID a)); ("approval_id", json_of_str (ae_ApprovalID a));
        ("decision", json_of_str (ae_Decision a)); ("revision", json_of_z (ae_Revision a));
        ("source_segment_id", json_of_str (ae_SourceSegmentID a)); ("actor_id", json_of_str (ae_ActorID a));
        ("authorization_basis", json_of_str (ae_AuthorizationBasis a))].

Definition json_of_z_map (m : gmap string Z) : json :=
  JObj (sorted_entries (put_entries ∅ (map (λ '(k, v), (coerce_utf8 k, json_of_z v)) (map_to_list m)))).

Definition json_of_checkpoint (c : Checkpoint) : json :=
  JObj ([("key", json_of_key (cp_Key c)); ("segment_id", json_of_str (cp_SegmentID c)); ("graph_id", json_of_str (cp_GraphID c));
         ("definition_revision", json_of_str (cp_DefinitionRevision c));
         ("composition_revision", json_of_str (cp_CompositionRevision c));
         ("implementation_revision", json_of_str (cp_ImplementationRevision c));
         ("host_generation", json_of_z (cp_HostGeneration c)); ("current_node_id", json_of_str (cp_CurrentNodeID c));
         ("attempt", json_of_z (cp_Attempt c))]
        ++ omit_if (bool_decide (cp_AttemptID c = "")) "attempt_id" (json_of_str (cp_AttemptID c))
        ++ [("steps", json_of_z (cp_Steps c)); ("visits", json_of_z_map (cp_Visits c)); ("revision", json_of_z (cp_Revision c));
            ("state", state_json (cp_State c))]
        ++ match cp_LastEdge c with Some e => [("last_edge", json_of_evidence e)] | None => [] end
        ++ omit_if (bool_decide (cp_PendingApprovalID c = "")) "pending_approval_id" (json_of_str (cp_PendingApprovalID c))
        ++ match cp_ResolvedApproval c with Some a => [("resolved_approval", json_of_approval a)] | None => [] end
        ++ [("status", json_of_str (status_text (cp_Status c)))]
        ++ omit_if (bool_decide (cp_FailureCode c = "")) "failure_code" (json_of_str (cp_FailureCode c)))%list.

Definition CheckpointDigest (checkpoint : Checkpoint) : result string :=
  let! canonical := ValidateCheckpoint checkpoint in
  Ok (sha256_hex (json_text (json_of_checkpoint canonical))).

(** [len(value) == 64 && isLowerHex(value)]: hexadecimal digits are single bytes. *)
Definition validCheckpointVersionID (value : string) : bool :=
  (str_len value =? 64) && forallb is_lower_hex (runes value).

Definition ValidateCheckpointVersionInfo (info : CheckpointVersionInfo) : result CheckpointVersionInfo :=
  let! _ := ValidateCheckpointKey (vi_Key info) in
  fail_when (vi_Revision info =? 0) || negb (bool_decide (vi_ID info = CheckpointVersionID (vi_Key info) (vi_Revision info)))
    with ErrInvalidCheckpoint ;;
  fail_when match vi_Origin info with
            | CheckpointVersionOriginCommit =>
                (vi_Revision info =? 1) && negb (bool_decide (vi_ParentID info = ""))
                || (1 <? vi_Revision info)
                   && negb (bool_decide (vi_ParentID info = CheckpointVersionID (vi_Key info) (u64_pred (vi_Revision info))))
            | CheckpointVersionOriginMigrationFloor => negb (bool_decide (vi_ParentID info = ""))
            | CheckpointVersionOriginFork =>
                negb (vi_Revision info =? 1) || negb (validCheckpointVersionID (vi_ParentID info))
                || bool_decide (vi_ParentID info = vi_ID info)
            | OriginOther _ => true
            end with ErrInvalidCheckpoint ;;
  fail_when negb (validCheckpointVersionID (vi_CheckpointHash info)) with ErrInvalidCheckpoint ;;
  fail_when vi_CreatedAt info <=? 0 with ErrInvalidCheckpoint ;;
  Ok info.

Definition ValidateCheckpointVersion (version : CheckpointVersion) : result CheckpointVersion :=
  let! checkpoint := ValidateCheckpoint (cv_Checkpoint version) in
  let! info := ValidateCheckpointVersionInfo (cv_Info version) in
  fail_when negb (bool_decide (vi_Key info = cp_Key checkpoint)) || negb (vi_Revision info =? cp_Revision checkpoint)
    with ErrInvalidCheckpoint ;;
  let! hash := CheckpointDigest checkpoint in
  fail_when negb (bool_decide (vi_CheckpointHash info = hash)) with ErrInvalidCheckpoint ;;
  Ok (mk_version info checkpoint).

(** ** Transitions *)

(** An optional identifier of a transition. *)
Definition optional_identifier (value : string) : bool :=
  bool_decide (value = "") || validateCheckpointIdentifier value MaxCheckpointIDBytes.

Definition approval_outcome (code : string) : bool :=
  bool_decide (code = "approval_approved") || bool_decide (code = "approval_denied").

Definition ValidateTransition (transition : Transition) (checkpoint : Checkpoint) : result Transition :=
  fail_when negb (is_ok (ValidateCheckpointKey (t_Key transition))) || negb (bool_decide (t_Key transition = cp_Key checkpoint))
    with ErrInvalidTransition ;;
  fail_when negb (t_Revision transition =? cp_Revision checkpoint) || (t_Revision transition =? 0)
            || negb (bool_decide (t_ID transition = TransitionID (t_Key transition) (t_Revision transition))) with ErrInvalidTransition ;;
  fail_when negb (bool_decide (t_To transition = cp_Status checkpoint))
            || negb (bool_decide (t_SegmentID transition = cp_SegmentID checkpoint))
            || negb (bool_decide (t_CurrentNodeID transition = cp_CurrentNodeID checkpoint))
            || negb (bool_decide (t_AttemptID transition = cp_AttemptID checkpoint)) with ErrInvalidTransition ;;
  fail_when negb (optional_identifier (t_SourceNodeID transition)) with ErrInvalidTransition ;;
  fail_when negb (optional_identifier (t_SourceSegmentID transition)) with ErrInvalidTransition ;;
  fail_when negb (optional_identifier (t_SourceAttemptID transition)) with ErrInvalidTransition ;;
  fail_when negb (legalTransition (t_From transition) (t_To transition)) with ErrInvalidTransition ;;
  fail_when bool_decide (t_To transition = CheckpointReady) && negb (bool_decide (t_AttemptID transition = ""))
            && (negb (bool_decide (t_From transition = CheckpointWaitingApproval)) || negb (approval_outcome (t_OutcomeCode transition)))
    with ErrInvalidTransition ;;
  fail_when negb (outcome_text_ok (t_OutcomeCode transition)) with ErrInvalidTransition ;;
  fail_when match t_Edge transition with Some edge => negb (validateEdgeEvidence edge) | None => false end with ErrInvalidTransition ;;
  fail_when match t_Approval transition with Some a => negb (validateApprovalEvidence a transition checkpoint) | None => false end
    with ErrInvalidTransition ;;
  Ok transition.
