(* ===== verification/GraphContext.v ===== *)
(** * Context contracts of graph nodes

    [pkg/extensions/graph/context.go]: the view a node declares, its token
    budget, and the plan a planner returns for it.

    [math.MaxInt64] overflow tests are kept; a slice is its elements, so a nil
    and an empty slice are the same. *)
From S2P Require Import Prelude GoString Json GraphContract.
From stdpp Require Import gmap strings list sorting.
From Stdlib Require Import ZArith Lia.
Open Scope Z_scope.

Definition MaxContextTotalTokens : Z := 1000000.
Definition MaxContextViewLayers : Z := 7.
Definition MaxContextStateFields : Z := 64.
Definition MaxContextSources : Z := 256.
Definition MaxContextSummaryRefs : Z := 256.
Definition MaxContextIDBytes : Z := 256.
Definition MaxContextRevisionBytes : Z := 256.
Definition MaxContextReasonBytes : Z := 1024.
Definition MaxContextViewBytes : Z := 16384.
Definition MaxContextPlanBytes : Z := 131072.
Definition MaxContextSourceTokens : Z := 1000000.

Definition ErrInvalidContextView : string := "invalid context view".
Definition ErrInvalidContextBudget : string := "invalid context budget".
Definition ErrInvalidContextPlan : string := "invalid context plan".

Record ContextSourceRef := mk_ref { cr_Layer : string; cr_SourceID : string; cr_Revision : string }.
Record ContextSource := mk_source {
  cs_Layer : string; cs_SourceID : string; cs_Revision : string; cs_EstimatedTokens : Z; cs_Required : bool;
  cs_SummaryOf : list ContextSourceRef }.
Record ContextPlan := mk_plan {
  pl_DefinitionRevision : string; pl_PlanRevision : string; pl_View : ContextView; pl_Budget : ContextBudget;
  pl_Sources : list ContextSource; pl_CompactionReason : string }.

Definition validLayer (layer : string) : bool :=
  bool_decide (layer ∈ [LayerCurrentInput; LayerRequiredState; LayerPendingApproval; LayerRecentHistory; LayerSummary;
                        LayerArtifact; LayerRetrieval]).

Definition isCanonicalLayer (layer : string) : bool :=
  bool_decide (layer ∈ [LayerCurrentInput; LayerRequiredState; LayerPendingApproval]).

(** [strings.ToLower(strings.TrimSpace(s))], as far as it can be ASCII. *)
Definition lowered (s : string) : list N := lower_rune <$> runes (trim_space s).

Definition isNonCanonicalID (id : string) : bool :=
  existsb (λ p, is_prefix (runes p) (lowered id)) ["artifact/"; "artifact:"; "retrieval/"; "retrieval:"].

Definition isWildcardName (value : string) : bool :=
  existsb (λ w, bool_decide (lowered value = runes w)) [""; "*"; "all"; "global"; "all_state"; "global_state"].

Definition validateContextText (value : string) (maxBytes : Z) (allowEmpty : bool) : bool :=
  negb (negb allowEmpty && bool_decide (value = "")) && (str_len value <=? maxBytes) && valid_utf8 value
  && negb (contains_control value).

Definition validateContextName (value : string) (maxBytes : Z) : bool :=
  validateContextText value maxBytes false && negb (contains_space value).

(** [addContextBytes(&total, amount)]. *)
Definition addContextBytes (total amount : Z) : option Z :=
  if (amount <? 0) || (max_int64 - amount <? total) then None else Some (total + amount).

(** ** Views and budgets *)

Definition json_of_view (v : ContextView) : json :=
  JObj (omit_if (bool_decide (cv_StateFields v = [])) "state_fields" (JArr (json_of_str <$> cv_StateFields v))
        ++ omit_if (bool_decide (cv_Layers v = [])) "layers" (JArr (json_of_str <$> cv_Layers v)))%list.

Definition json_of_budget (b : ContextBudget) : json :=
  JObj [("total_tokens", json_of_z (cb_TotalTokens b)); ("output_reserve", json_of_z (cb_OutputReserve b));
        ("stable_prefix_tokens", json_of_z (cb_StablePrefixTokens b)); ("layer_budgets", json_of_z_map (cb_LayerBudgets b))].

Definition view_field (seen : gset string) (field : string) : result (gset string) :=
  fail_when negb (validateContextName field MaxContextIDBytes) with ErrInvalidContextView ;;
  fail_when has_byte (λ b, (b =? 42)%N || (b =? 63)%N) field || isWildcardName field with ErrInvalidContextView ;;
  fail_when bool_decide (field ∈ seen) with ErrInvalidContextView ;;
  Ok ({[field]} ∪ seen).

Definition view_layer (seen : gset string) (layer : string) : result (gset string) :=
  fail_when negb (validLayer layer) || isWildcardName layer with ErrInvalidContextView ;;
  fail_when bool_decide (layer ∈ seen) with ErrInvalidContextView ;;
  Ok ({[layer]} ∪ seen).

Definition ValidateContextView (view : ContextView) : result unit :=
  fail_when MaxContextStateFields <? Z.of_nat (length (cv_StateFields view)) with ErrInvalidContextView ;;
  fail_when MaxContextViewLayers <? Z.of_nat (length (cv_Layers view)) with ErrInvalidContextView ;;
  let! _ := rfold view_field ∅ (cv_StateFields view) in
  let! seenLayers := rfold view_layer ∅ (cv_Layers view) in
  fail_when (0 <? Z.of_nat (length (cv_StateFields view))) && negb (bool_decide (LayerRequiredState ∈ seenLayers))
    with ErrInvalidContextView ;;
  fail_when MaxContextViewBytes <? json_len (json_of_view view) with ErrInvalidContextView ;;
  Ok tt.

Definition sortedBudgetLayers (budgets : gmap string Z) : list (string * Z) := sorted_entries budgets.

Definition budget_layer (layerTotal : Z) (entry : string * Z) : result Z :=
  fail_when negb (validLayer entry.1) with ErrInvalidContextBudget ;;
  fail_when (entry.2 <? 0) || (MaxContextSourceTokens <? entry.2) with ErrInvalidContextBudget ;;
  fail_when max_int64 - layerTotal <? entry.2 with ErrInvalidContextBudget ;;
  Ok (layerTotal + entry.2).

Definition ValidateContextBudget (budget : ContextBudget) : result unit :=
  fail_when (cb_TotalTokens budget <? 0) || (MaxContextTotalTokens <? cb_TotalTokens budget) with ErrInvalidContextBudget ;;
  fail_when (cb_OutputReserve budget <? 0) || (cb_StablePrefixTokens budget <? 0) with ErrInvalidContextBudget ;;
  fail_when cb_TotalTokens budget <? cb_OutputReserve budget with ErrInvalidContextBudget ;;
  fail_when cb_TotalTokens budget - cb_OutputReserve budget <? cb_StablePrefixTokens budget with ErrInvalidContextBudget ;;
  fail_when MaxContextViewLayers <? Z.of_nat (size (cb_LayerBudgets budget)) with ErrInvalidContextBudget ;;
  let! layerTotal := rfold budget_layer 0 (sortedBudgetLayers (cb_LayerBudgets budget)) in
  fail_when cb_TotalTokens budget - cb_OutputReserve budget <? layerTotal with ErrInvalidContextBudget ;;
  Ok tt.

(** ** Plans *)

Definition json_of_ref (r : ContextSourceRef) : json :=
  JObj [("layer", json_of_str (cr_Layer r)); ("source_id", json_of_str (cr_SourceID r)); ("revision", json_of_str (cr_Revision r))].

Definition json_of_source (s : ContextSource) : json :=
  JObj ([("layer", json_of_str (cs_Layer s)); ("source_id", json_of_str (cs_SourceID s)); ("revision", json_of_str (cs_Revision s));
         ("estimated_tokens", json_of_z (cs_EstimatedTokens s)); ("required", JBool (cs_Required s))]
        ++ omit_if (bool_decide (length (cs_SummaryOf s) = 0%nat)) "summary_of" (JArr (json_of_ref <$> cs_SummaryOf s)))%list.

Definition json_of_plan (p : ContextPlan) : json :=
  JObj ([("definition_revision", json_of_str (pl_DefinitionRevision p)); ("plan_revision", json_of_str (pl_PlanRevision p));
         ("view", json_of_view (pl_View p)); ("budget", json_of_budget (pl_Budget p));
         ("sources", JArr (json_of_source <$> pl_Sources p))]
        ++ omit_if (bool_decide (pl_CompactionReason p = "")) "compaction_reason" (json_of_str (pl_CompactionReason p)))%list.

(** The accumulators of the loop over the sources. *)
Record plan_acc := mk_acc {
  pa_seen : gset (string * string); pa_ids : gset string; pa_totals : gmap string Z; pa_required : gset string;
  pa_summary : bool; pa_rough : Z }.

Definition add_rough (total amount : Z) : result Z :=
  match addContextBytes total amount with Some t => Ok t | None => Err ErrInvalidContextPlan end.

(** One lineage reference of a summary source. *)
Definition plan_ref (source : ContextSource) (acc : gset (string * string) * Z) (ref : ContextSourceRef) :
    result (gset (string * string) * Z) :=
  fail_when negb (validLayer (cr_Layer ref)) || bool_decide (cr_Layer ref = LayerSummary) with ErrInvalidContextPlan ;;
  fail_when negb (validateContextName (cr_SourceID ref) MaxContextIDBytes) with ErrInvalidContextPlan ;;
  fail_when negb (validateContextName (cr_Revision ref) MaxContextRevisionBytes) with ErrInvalidContextPlan ;;
  let! rough := add_rough acc.2 (str_len (cr_SourceID ref)) in
  let! rough := add_rough rough (str_len (cr_Revision ref)) in
  fail_when MaxContextPlanBytes <? rough with ErrInvalidContextPlan ;;
  fail_when bool_decide (cr_SourceID ref = cs_SourceID source) && bool_decide (cr_Revision ref = cs_Revision source)
    with ErrInvalidContextPlan ;;
  fail_when bool_decide ((cr_SourceID ref, cr_Revision ref) ∈ acc.1) with ErrInvalidContextPlan ;;
  Ok ({[(cr_SourceID ref, cr_Revision ref)]} ∪ acc.1, rough).

Definition plan_lineage (source : ContextSource) (rough : Z) : result Z :=
  if bool_decide (cs_Layer source = LayerSummary) then
    fail_when bool_decide (length (cs_SummaryOf source) = 0%nat) with ErrInvalidContextPlan ;;
    let! (_, rough) := rfold (plan_ref source) (∅, rough) (cs_SummaryOf source) in Ok rough
  else fail_when negb (bool_decide (length (cs_SummaryOf source) = 0%nat)) with ErrInvalidContextPlan ;; Ok rough.

Definition plan_source (layers : list string) (acc : plan_acc) (source : ContextSource) : result plan_acc :=
  fail_when MaxContextSummaryRefs <? Z.of_nat (length (cs_SummaryOf source)) with ErrInvalidContextPlan ;;
  fail_when negb (bool_decide (cs_Layer source ∈ layers)) with ErrInvalidContextPlan ;;
  fail_when negb (validLayer (cs_Layer source)) with ErrInvalidContextPlan ;;
  fail_when negb (validateContextName (cs_SourceID source) MaxContextIDBytes) with ErrInvalidContextPlan ;;
  fail_when negb (validateContextName (cs_Revision source) MaxContextRevisionBytes) with ErrInvalidContextPlan ;;
  let! rough := add_rough (pa_rough acc) (str_len (cs_SourceID source)) in
  let! rough := add_rough rough (str_len (cs_Revision source)) in
  let! rough := add_rough rough (Z.of_nat (length (cs_SummaryOf source)) * 32) in
  fail_when MaxContextPlanBytes <? rough with ErrInvalidContextPlan ;;
  fail_when (cs_EstimatedTokens source <? 0) || (MaxContextSourceTokens <? cs_EstimatedTokens source) with ErrInvalidContextPlan ;;
  fail_when bool_decide ((cs_SourceID source, cs_Revision source) ∈ pa_seen acc) with ErrInvalidContextPlan ;;
  fail_when bool_decide (cs_SourceID source ∈ pa_ids acc) with ErrInvalidContextPlan ;;
  fail_when isCanonicalLayer (cs_Layer source) && isNonCanonicalID (cs_SourceID source) with ErrInvalidContextPlan ;;
  let! rough := plan_lineage source rough in
  let total := default 0 (pa_totals acc !! cs_Layer source) in
  fail_when max_int64 - total <? cs_EstimatedTokens source with ErrInvalidContextPlan ;;
  Ok (mk_acc ({[(cs_SourceID source, cs_Revision source)]} ∪ pa_seen acc) ({[cs_SourceID source]} ∪ pa_ids acc)
        (<[cs_Layer source := total + cs_EstimatedTokens source]> (pa_totals acc))
        (if cs_Required source then {[cs_Layer source]} ∪ pa_required acc else pa_required acc)
        (bool_decide (cs_Layer source = LayerSummary) || pa_summary acc) rough).

Definition plan_layer (plan : ContextPlan) (acc : plan_acc) (layer : string) : result unit :=
  let budget := default 0 (cb_LayerBudgets (pl_Budget plan) !! layer) in
  fail_when (bool_decide (layer = LayerCurrentInput)
             || (bool_decide (layer = LayerRequiredState) && (0 <? Z.of_nat (length (cv_StateFields (pl_View plan))))))
            && (budget <=? 0) with ErrInvalidContextPlan ;;
  fail_when isCanonicalLayer layer && negb (bool_decide (layer ∈ pa_required acc)) with ErrInvalidContextPlan ;;
  fail_when budget <? default 0 (pa_totals acc !! layer) with ErrInvalidContextPlan ;;
  Ok tt.

Definition add_estimate (total : Z) (entry : string * Z) : result Z :=
  fail_when max_int64 - total <? entry.2 with ErrInvalidContextPlan ;; Ok (total + entry.2).

Definition ValidateContextPlan (plan : ContextPlan) : result unit :=
  fail_when MaxContextSources <? Z.of_nat (length (pl_Sources plan)) with ErrInvalidContextPlan ;;
  fail_when MaxContextReasonBytes <? str_len (pl_CompactionReason plan) with ErrInvalidContextPlan ;;
  fail_when negb (validateContextName (pl_DefinitionRevision plan) MaxContextRevisionBytes) with ErrInvalidContextPlan ;;
  fail_when negb (validateContextName (pl_PlanRevision plan) MaxContextRevisionBytes) with ErrInvalidContextPlan ;;
  fail_when negb (is_ok (ValidateContextView (pl_View plan))) with ErrInvalidContextPlan ;;
  fail_when negb (is_ok (ValidateContextBudget (pl_Budget plan))) with ErrInvalidContextPlan ;;
  fail_when negb (validateContextText (pl_CompactionReason plan) MaxContextReasonBytes true) with ErrInvalidContextPlan ;;
  fail_when negb (forallb (λ layer, bool_decide (is_Some (cb_LayerBudgets (pl_Budget plan) !! layer))) (cv_Layers (pl_View plan)))
    with ErrInvalidContextPlan ;;
  fail_when negb (bool_decide (map_Forall (λ layer tokens, tokens ≠ 0 → layer ∈ cv_Layers (pl_View plan)) (cb_LayerBudgets (pl_Budget plan))))
    with ErrInvalidContextPlan ;;
  let! rough := add_rough (str_len (pl_DefinitionRevision plan) + str_len (pl_PlanRevision plan) + str_len (pl_CompactionReason plan))
                  (Z.of_nat (length (pl_Sources plan)) * 64) in
  let! acc := rfold (plan_source (cv_Layers (pl_View plan))) (mk_acc ∅ ∅ ∅ ∅ false rough) (pl_Sources plan) in
  let! _ := check_all (plan_layer plan acc) (cv_Layers (pl_View plan)) in
  fail_when pa_summary acc && blank (pl_CompactionReason plan) with ErrInvalidContextPlan ;;
  let! total := rfold add_estimate 0 (map_to_list (pa_totals acc)) in
  fail_when cb_TotalTokens (pl_Budget plan) - cb_OutputReserve (pl_Budget plan) <? total with ErrInvalidContextPlan ;;
  fail_when MaxContextPlanBytes <? json_len (json_of_plan plan) with ErrInvalidContextPlan ;;
  Ok tt.
