(* ===== verification/GraphState.v ===== *)
(** * Graph state and patches

    [pkg/extensions/graph/state.go]: the bounded state of a graph run, its
    validation against the schema, and the built-in reducer.

    Loops over Go maps run here over [map_to_list]; whether they succeed does
    not depend on the order. *)
From S2P Require Import Prelude GoString Json GraphContract.
From stdpp Require Import gmap strings list sorting.
From Stdlib Require Import ZArith Lia.
Open Scope Z_scope.

Record StatePatch := mk_patch { sp_Set : gmap string StateValue; sp_Delete : list string }.

(** [validateIdentifier] of validator.go. *)
Definition validateIdentifier (value : string) (maximum : Z) : bool :=
  if bool_decide (value = "") || (maximum <? str_len value) || negb (valid_utf8 value) || negb (bool_decide (trim_space value = value))
  then false else negb (existsb (λ r, is_control r || is_space r) (runes value)).

Definition valid_state_type (t : StateValueType) : bool := match t with StateOther _ => false | _ => true end.

(** [addBoundedBytes(&total, amount, limit)]: the new total, or the refusal. *)
Definition addBoundedBytes (total amount limit : Z) : option Z :=
  if (amount <? 0) || (limit - total <? amount) then None else Some (total + amount).

Definition add_all (total : Z) (amounts : list Z) (limit : Z) : option Z :=
  foldl (λ acc n, match acc with Some t => addBoundedBytes t n limit | None => None end) (Some total) amounts.

Definition index_field (fields : gmap string StateField) (field : StateField) : result (gmap string StateField) :=
  fail_when negb (validateIdentifier (f_Name field) MaxNodeIDBytes) with "state field is invalid" ;;
  fail_when bool_decide (is_Some (fields !! f_Name field)) with "state field is duplicate" ;;
  fail_when negb (valid_state_type (f_Type field)) with "state field has invalid type" ;;
  fail_when (f_MaxBytes field <=? 0) || (MaxStateFieldBytes <? f_MaxBytes field) with "state field max_bytes is out of bounds" ;;
  Ok (<[f_Name field := field]> fields).

Definition indexStateFields (schema : StateSchema) : result (gmap string StateField) :=
  fail_when MaxStateFields <? Z.of_nat (length (ss_Fields schema)) with "state field count exceeds" ;;
  rfold index_field ∅ (ss_Fields schema).

Definition preflight_entry (fields : gmap string StateField) (rough : Z) (entry : string * StateValue) : result Z :=
  match fields !! entry.1 with
  | None => Err "state has undeclared field"
  | Some field =>
    fail_when f_MaxBytes field <? sv_len entry.2 with "state field exceeds bytes" ;;
    match add_all rough [str_len entry.1; sv_len entry.2; 4] MaxStateBytes with
    | None => Err "state rough size exceeds bytes"
    | Some rough => Ok rough
    end
  end.

Definition preflightState (fields : gmap string StateField) (state : State) : result unit :=
  fail_when (Z.of_nat (size fields) <? Z.of_nat (size state)) || (MaxStateFields <? Z.of_nat (size state))
    with "state field count exceeds schema bounds" ;;
  let! _ := rfold (preflight_entry fields) 2 (map_to_list state) in Ok tt.

Definition preflight_delete (fields : gmap string StateField) (set : gmap string StateValue) (deletes : gset string) (key : string) :
    result (gset string) :=
  match fields !! key with
  | None => Err "state patch deletes undeclared field"
  | Some field =>
    fail_when f_Required field with "state patch deletes required field" ;;
    fail_when bool_decide (key ∈ deletes) with "state patch deletes field twice" ;;
    fail_when bool_decide (is_Some (set !! key)) with "state patch both sets and deletes field" ;;
    Ok ({[key]} ∪ deletes)
  end.

Definition preflightPatch (fields : gmap string StateField) (patch : StatePatch) : result unit :=
  fail_when (MaxStateFields <? Z.of_nat (size (sp_Set patch))) || (MaxStateFields <? Z.of_nat (length (sp_Delete patch)))
    with "state patch field count exceeds" ;;
  let! _ := rfold (preflight_entry fields) 2 (map_to_list (sp_Set patch)) in
  let! _ := rfold (preflight_delete fields (sp_Set patch)) ∅ (sp_Delete patch) in Ok tt.

Definition has_type (t : StateValueType) (j : json) : bool :=
  match t, j with
  | StateString, JStr _ | StateNumber, JNum _ | StateBoolean, JBool _ | StateObject, JObj _ | StateArray, JArr _ => true
  | _, _ => false
  end.

Definition canonicalizeStateValue (field : StateField) (raw : StateValue) : result StateValue :=
  fail_when f_MaxBytes field <? sv_len raw with "state field exceeds bytes" ;;
  fail_when negb (sv_utf8 raw) with "state field is not valid UTF-8" ;;
  match sv_value raw with
  | None => Err "state field is not one JSON value"
  | Some value =>
    fail_when negb (has_type (f_Type field) value) with "state field does not have type" ;;
    let canonical := encoded_value (canonical_value value) in
    fail_when f_MaxBytes field <? sv_len canonical with "state field exceeds bytes after canonicalization" ;;
    Ok canonical
  end.

Definition validateCanonicalState (fields : gmap string StateField) (state : State) : result unit :=
  fail_when negb (bool_decide (map_Forall (λ name field, f_Required field = true → is_Some (state !! name)) fields))
    with "state is missing required field" ;;
  fail_when MaxStateBytes <? json_len (state_json state) with "state exceeds bytes" ;;
  Ok tt.

Definition canonicalize_entry (fields : gmap string StateField) (out : State) (entry : string * StateValue) : result State :=
  match fields !! entry.1 with
  | None => Err "state has undeclared field"
  | Some field =>
    fail_when f_MaxBytes field <? sv_len entry.2 with "state field exceeds bytes" ;;
    let! canonical := canonicalizeStateValue field entry.2 in Ok (<[entry.1 := canonical]> out)
  end.

Definition canonicalizeAndValidateState (fields : gmap string StateField) (state : State) : result State :=
  let! out := rfold (canonicalize_entry fields) ∅ (map_to_list state) in
  let! _ := validateCanonicalState fields out in Ok out.

Definition ValidateState (schema : StateSchema) (input : State) : result State :=
  let! fields := indexStateFields schema in
  let! _ := preflightState fields input in
  canonicalizeAndValidateState fields input.

(** [fields[key]] of an undeclared key is the zero field; [preflightPatch] has
    refused it before. *)
Definition zero_field : StateField := mk_field "" (StateOther "") false false 0.

Definition set_entry (fields : gmap string StateField) (out : State) (entry : string * StateValue) : result State :=
  let! canonical := canonicalizeStateValue (default zero_field (fields !! entry.1)) entry.2 in Ok (<[entry.1 := canonical]> out).

Definition ApplyStatePatch (schema : StateSchema) (input : State) (patch : StatePatch) : result State :=
  fail_when negb (bool_decide (ss_Reducer schema = ReducerTopLevelJSONPatch)) || negb (bool_decide (ss_ReducerVersion schema = "1"))
    with "built-in state patch requires reducer" ;;
  let! fields := indexStateFields schema in
  let! _ := preflightPatch fields patch in
  let! _ := preflightState fields input in
  let! out := canonicalizeAndValidateState fields input in
  let! out := rfold (set_entry fields) out (map_to_list (sp_Set patch)) in
  let out := foldl (λ out key, delete key out) out (sp_Delete patch) in
  let! _ := validateCanonicalState fields out in
  Ok out.
