(* ===== verification/GraphStateFacts.v ===== *)
(** * Facts about graph states

    What [ValidateState] and [ApplyStatePatch] return, and when a returned state
    is accepted again unchanged. *)
From S2P Require Import Prelude GoString Json GraphContract GraphState.
From stdpp Require Import gmap strings list sorting.
From Stdlib Require Import ZArith Lia Ascii Wf_nat.

(** ** Canonical JSON

    Decoding a JSON value and encoding it again gives a canonical value: its
    strings are valid UTF-8 and its objects have unique, sorted keys.  Doing so
    a second time changes nothing. *)

(** ** Coercing to UTF-8 *)

(** The bytes of a decoded rune are a whole rune. *)
Lemma unit_bytes_good l r bs : URune r bs ∈ decode_units l → forallb unit_good (decode_units bs) = true.
Proof.
  induction l as [l IH] using (induction_ltof1 _ (@length _)). unfold ltof in IH.
  destruct l as [|c0 l1]; cbn [decode_units]; [by intros ?%not_elem_of_nil|].
  repeat (destruct_match_goal; subst); rewrite elem_of_cons; intros [Hu|Hu];
    try (by eapply IH in Hu; [done|simpl; lia]); try discriminate Hu; injection Hu as -> ->;
    cbn [decode_units]; repeat match goal with E : ?c = true |- context [?c] => rewrite E | E : ?c = false |- context [?c] => rewrite E end; done.
Qed.

Lemma replaced_good (us : list unit_dec) :
  (∀ r bs, URune r bs ∈ us → forallb unit_good (decode_units bs) = true) →
  forallb unit_good (decode_units (mjoin ((λ u, match u with URune _ bs => bs | UBad _ => replacement end) <$> us))) = true.
Proof.
  induction us as [|u us IH]; intros H; [done|].
  assert (forallb unit_good (decode_units (match u with URune _ bs => bs | UBad _ => replacement end)) = true) as Hu.
  { destruct u as [r bs|c]; [apply (H r); left|done]. }
  rewrite fmap_cons. change (mjoin (?x :: ?l)) with (x ++ mjoin l)%list.
  rewrite decode_units_app, forallb_app, Hu by done. cbn. apply IH. intros r bs Hin. apply (H r). by right.
Qed.

Lemma coerce_utf8_valid s : valid_utf8 (coerce_utf8 s) = true.
Proof.
  unfold valid_utf8, coerce_utf8, units. rewrite String.list_ascii_of_string_of_list_ascii.
  apply replaced_good. intros r bs Hin. by eapply unit_bytes_good.
Qed.

(** ** Canonical values *)

Fixpoint canonical (j : json) : Prop :=
  match j with
  | JStr s => valid_utf8 s = true
  | JArr l => (fix go l := match l with [] => True | x :: l => canonical x ∧ go l end) l
  | JObj l => (∃ m : gmap string json, l = sorted_entries m)
              ∧ (fix go l := match l with [] => True | (k, x) :: l => (valid_utf8 k = true ∧ canonical x) ∧ go l end) l
  | _ => True
  end.

Lemma canonical_arr l : canonical (JArr l) ↔ Forall canonical l.
Proof. cbn. induction l as [|x l IH]; [done|]. rewrite Forall_cons, <- IH. done. Qed.

Lemma canonical_obj l :
  canonical (JObj l) ↔ (∃ m : gmap string json, l = sorted_entries m) ∧ Forall (λ kv, valid_utf8 kv.1 = true ∧ canonical kv.2) l.
Proof.
  cbn [canonical]. enough (H : (fix go l := match l with [] => True | (k, x) :: l => (valid_utf8 k = true ∧ canonical x) ∧ go l end) l
    ↔ Forall (λ kv, valid_utf8 kv.1 = true ∧ canonical kv.2) l) by by rewrite H.
  induction l as [|[k x] l IH]; [done|]. rewrite Forall_cons, <- IH. done.
Qed.

(** What is stored under a key came from an entry. *)
Lemma put_entries_from {V} (l : list (string * V)) m k v :
  put_entries m l !! k = Some v → (k, v) ∈ l ∨ m !! k = Some v.
Proof.
  unfold put_entries. revert m. induction l as [|[k' v'] l IH]; intros m H; [by right|].
  apply IH in H as [H|H]; [left; by right|]. cbn in H. apply lookup_insert_Some in H as [[<- <-]|[_ H]]; [left; left|by right].
Qed.

Lemma json_of_any_canonical j : canonical (json_of_any j).
Proof.
  induction j as [|b|s|s|l IH|l IH] using json_ind; cbn [json_of_any]; try done.
  - cbn. apply coerce_utf8_valid.
  - apply canonical_arr. by apply Forall_fmap.
  - apply canonical_obj. split; [by eexists|]. apply Forall_forall. intros [k v] Hin.
    rewrite sorted_entries_perm in Hin. apply elem_of_map_to_list in Hin.
    apply put_entries_from in Hin as [Hin|Hin]; [|by rewrite lookup_empty in Hin].
    apply list_elem_of_In, in_map_iff in Hin as ([k0 v0] & [= <- <-] & Hin%list_elem_of_In). cbn.
    split; [apply coerce_utf8_valid|]. rewrite Forall_forall in IH. exact (IH _ Hin).
Qed.

Lemma map_id_in {A} (f : A → A) l : Forall (λ x, f x = x) l → map f l = l.
Proof. induction 1 as [|x l Hx _ IH]; cbn; congruence. Qed.

Lemma canonical_stable j : canonical j → any_of_json j = j ∧ json_of_any j = j.
Proof.
  induction j as [|b|s|s|l IH|l IH] using json_ind; try done.
  - intros H. split; [done|]. cbn. by rewrite coerce_utf8_id.
  - rewrite canonical_arr. intros H. rewrite Forall_forall in IH, H. cbn [any_of_json json_of_any].
    split; f_equal; apply map_id_in, Forall_forall; intros x Hx; by apply IH, H.
  - rewrite canonical_obj. intros [[m ->] H]. rewrite Forall_forall in IH, H. cbn [any_of_json json_of_any].
    split; rewrite map_id_in, put_entries_sorted; try done; apply Forall_forall; intros [k x] Hx;
      destruct (H _ Hx) as [Hk Hc]; cbn in Hk, Hc; destruct (IH _ Hx Hc) as [Ha Hj]; cbn in Ha, Hj; [by rewrite Ha|].
    by rewrite Hj, coerce_utf8_id.
Qed.

(** Canonicalising twice is canonicalising once. *)
Lemma canonical_idem j : json_of_any (any_of_json (json_of_any (any_of_json j))) = json_of_any (any_of_json j).
Proof. destruct (canonical_stable _ (json_of_any_canonical (any_of_json j))) as [-> ->]. done. Qed.

Open Scope Z_scope.

(** ** Loops that fill a map *)

Section Fill.
Context {V W : Type} (g : string → V → result W).

Definition fill (out : gmap string W) (e : string * V) : result (gmap string W) := let! c := g e.1 e.2 in Ok (<[e.1 := c]> out).

Lemma fill_list l : NoDup l.*1 → ∀ out out', rfold fill out l = Ok out' →
  (∀ k v, (k, v) ∈ l → ∃ c, g k v = Ok c ∧ out' !! k = Some c) ∧ (∀ k, k ∉ l.*1 → out' !! k = out !! k).
Proof.
  induction l as [|[k v] l IH]; intros Hnd out out' H; cbn [rfold] in H.
  { injection H as ->. split; [by intros ?? ?%not_elem_of_nil|done]. }
  rewrite fmap_cons in Hnd. apply NoDup_cons in Hnd as [Hk Hnd].
  apply rbind_ok in H as (out1 & H1 & H). unfold fill in H1. apply rbind_ok in H1 as (c & Hc & [= <-]).
  destruct (IH Hnd _ _ H) as [Hin Hout]. split.
  - intros k' v' [[= -> ->]|Hl]%elem_of_cons; [|by apply Hin]. exists c. split; [done|]. rewrite Hout by done. by rewrite lookup_insert_eq.
  - intros k' Hk'. rewrite fmap_cons, not_elem_of_cons in Hk'. cbn in Hk'. rewrite Hout by apply Hk'. by rewrite lookup_insert_ne by (intros ->; tauto).
Qed.

Lemma fill_total l : (∀ k v, (k, v) ∈ l → ∃ c, g k v = Ok c) → ∀ out, ∃ out', rfold fill out l = Ok out'.
Proof.
  induction l as [|[k v] l IH]; intros H out; [by eexists|]. cbn [rfold]. unfold fill at 1. cbn.
  destruct (H k v) as [c ->]; [left|]. cbn. apply IH. intros ???. apply H. by right.
Qed.

Lemma fill_map (m : gmap string V) out out' : rfold fill out (map_to_list m) = Ok out' →
  (∀ k v, m !! k = Some v → ∃ c, g k v = Ok c ∧ out' !! k = Some c) ∧ (∀ k, m !! k = None → out' !! k = out !! k).
Proof.
  intros H. apply fill_list in H as [H1 H2]; [|apply NoDup_fst_map_to_list]. split.
  - intros k v Hk. apply H1. by apply elem_of_map_to_list.
  - intros k Hk. apply H2. intros ([k' v] & -> & Hin)%list_elem_of_fmap. apply elem_of_map_to_list in Hin. cbn in Hk. congruence.
Qed.
End Fill.

Lemma rfold_ext {A S} (f f' : S → A → result S) s l : (∀ s a, f s a = f' s a) → rfold f s l = rfold f' s l.
Proof. intros H. revert s. induction l as [|a l IH]; intros s; [done|]. cbn. rewrite H. destruct (f' s a); [apply IH|done]. Qed.

(** ** Sizes *)

Definition entry_size (e : string * StateValue) : Z := str_len e.1 + sv_len e.2 + 4.
Definition entries_size (l : list (string * StateValue)) : Z := foldr (λ e n, entry_size e + n) 0 l.

Lemma entries_size_perm l l' : l ≡ₚ l' → entries_size l = entries_size l'.
Proof. unfold entries_size. induction 1; cbn in *; lia. Qed.

Definition nonneg_entry (e : string * StateValue) : Prop := 0 ≤ sv_len e.2.

Lemma str_len_nonneg s : 0 ≤ str_len s.
Proof. unfold str_len. lia. Qed.

Lemma entries_size_nonneg l : Forall nonneg_entry l → 0 ≤ entries_size l.
Proof.
  unfold entries_size. induction 1 as [|e l He _ IH]; cbn; [done|]. unfold nonneg_entry, entry_size in *.
  pose proof (str_len_nonneg e.1). lia.
Qed.

Lemma add_all_entry rough e : nonneg_entry e →
  add_all rough [str_len e.1; sv_len e.2; 4] MaxStateBytes
  = if MaxStateBytes <? rough + entry_size e then None else Some (rough + entry_size e).
Proof.
  unfold nonneg_entry, entry_size. intros He. pose proof (str_len_nonneg e.1). unfold add_all, addBoundedBytes. cbn [foldl].
  repeat (case_match; simplify_eq; rewrite ?orb_true_iff, ?orb_false_iff in *; bool_to_prop); try done; try f_equal; lia.
Qed.

(** Success of the preflight: every field is declared and within its bound, and
    the rough size fits. *)
Definition declared (fields : gmap string StateField) (e : string * StateValue) : Prop :=
  ∃ field, fields !! e.1 = Some field ∧ sv_len e.2 ≤ f_MaxBytes field.

Lemma preflight_list_ok fields l rough : Forall (declared fields) l → Forall nonneg_entry l → rough + entries_size l ≤ MaxStateBytes →
  rfold (preflight_entry fields) rough l = Ok (rough + entries_size l).
Proof.
  revert rough. induction l as [|e l IH]; intros rough Hd Hn Hs; [cbn; by rewrite Z.add_0_r|].
  change (entries_size (e :: l)) with (entry_size e + entries_size l) in *. cbn [rfold].
  apply Forall_cons in Hd as [(field & Hf & Hb) Hd]. apply Forall_cons in Hn as [Hn Hn'].
  pose proof (entries_size_nonneg l Hn').
  unfold preflight_entry at 1. rewrite Hf. unfold fail_if. case_match; bool_to_prop; [exfalso; lia|].
  rewrite add_all_entry by done. destruct (Z.ltb_spec MaxStateBytes (rough + entry_size e)); [exfalso; lia|]. cbn [rbind]. rewrite IH by (done || lia). f_equal. lia.
Qed.

Lemma preflight_list_bound fields l : Forall nonneg_entry l → ∀ rough r, rough ≤ MaxStateBytes →
  rfold (preflight_entry fields) rough l = Ok r → r = rough + entries_size l ∧ r ≤ MaxStateBytes.
Proof.
  induction 1 as [|e l He _ IH]; intros rough r Hr H; [injection H as <-; cbn; lia|].
  cbn [rfold] in H. apply rbind_ok in H as (r1 & H1 & H). unfold preflight_entry in H1.
  destruct (fields !! e.1) as [field|]; [|done]. apply fail_if_ok in H1 as [_ H1]. rewrite add_all_entry in H1 by done.
  destruct (Z.ltb_spec MaxStateBytes (rough + entry_size e)); [done|]. injection H1 as <-.
  apply IH in H as [-> Hb]; [|lia]. change (entries_size (e :: l)) with (entry_size e + entries_size l). lia.
Qed.

(** The size the preflight estimates for a state. *)
Definition rough_size (s : State) : Z := 2 + entries_size (map_to_list s).

(** ** Canonical states *)

Lemma has_type_canonical t j : has_type t (canonical_value j) = has_type t j.
Proof. by destruct t, j. Qed.

Lemma canonical_value_idem j : canonical_value (canonical_value j) = canonical_value j.
Proof. apply canonical_idem. Qed.

Lemma canonicalizeStateValue_idem field v c : canonicalizeStateValue field v = Ok c → canonicalizeStateValue field c = Ok c.
Proof.
  unfold canonicalizeStateValue. rewrite !fail_if_ok. intros (_ & _ & H). destruct (sv_value v) as [j|]; [|done].
  cbv zeta in H. rewrite !fail_if_ok in H. destruct H as (Ht & Hl & [= <-]).
  split; [done|]. split; [done|]. cbn [encoded_value sv_value]. rewrite has_type_canonical, Ht, canonical_value_idem, Hl. done.
Qed.

(** Every value is declared, in bounds and canonical. *)
Definition good_state (fields : gmap string StateField) (s : State) : Prop :=
  map_Forall (λ k v, ∃ field, fields !! k = Some field ∧ canonicalizeStateValue field v = Ok v) s.

Definition canonical_field (fields : gmap string StateField) (k : string) (v : StateValue) : result StateValue :=
  match fields !! k with
  | None => Err "state has undeclared field"
  | Some field => fail_when f_MaxBytes field <? sv_len v with "state field exceeds bytes" ;; canonicalizeStateValue field v
  end.

Lemma canonicalize_entry_fill fields out e : canonicalize_entry fields out e = fill (canonical_field fields) out e.
Proof.
  unfold canonicalize_entry, fill, canonical_field. destruct (fields !! e.1); [|done]. unfold fail_if. by case_match.
Qed.

Lemma canonical_field_ok fields k v c :
  canonical_field fields k v = Ok c ↔ ∃ field, fields !! k = Some field ∧ canonicalizeStateValue field v = Ok c.
Proof.
  unfold canonical_field. destruct (fields !! k) as [field|]; [|split; [done|by intros (? & ? & _)]].
  rewrite fail_if_ok. split; [intros [_ H]; by exists field|]. intros (field' & [= <-] & H). split; [|done].
  unfold canonicalizeStateValue in H. by apply fail_if_ok in H as [-> _].
Qed.

(** What [canonicalizeAndValidateState] returns. *)
Lemma canonicalize_spec fields s out : canonicalizeAndValidateState fields s = Ok out →
  validateCanonicalState fields out = Ok tt
  ∧ (∀ k v, s !! k = Some v → ∃ c, canonical_field fields k v = Ok c ∧ out !! k = Some c)
  ∧ (∀ k, s !! k = None → out !! k = None).
Proof.
  unfold canonicalizeAndValidateState. rewrite (rfold_ext _ (fill (canonical_field fields))) by apply canonicalize_entry_fill.
  intros H. apply rbind_ok in H as (out1 & H1 & H). apply rbind_ok in H as ([] & H2 & [= ->]).
  apply fill_map in H1 as [H1 H3]. split; [done|]. split; [done|]. intros k Hk. rewrite H3 by done. apply lookup_empty.
Qed.

Lemma canonicalize_good fields s out : canonicalizeAndValidateState fields s = Ok out → good_state fields out.
Proof.
  intros (_ & H1 & H2)%canonicalize_spec k c Hc. destruct (s !! k) as [v|] eqn:Hk; [|rewrite H2 in Hc; done].
  destruct (H1 k v Hk) as (c' & Hcf & Hc'). assert (c' = c) as -> by congruence.
  apply canonical_field_ok in Hcf as (field & Hf & Hv). exists field. split; [done|]. by eapply canonicalizeStateValue_idem.
Qed.

(** A good state is its own canonical form. *)
Lemma good_revalidates fields s :
  good_state fields s → validateCanonicalState fields s = Ok tt → canonicalizeAndValidateState fields s = Ok s.
Proof.
  intros Hg Hv. unfold canonicalizeAndValidateState. rewrite (rfold_ext _ (fill (canonical_field fields))) by apply canonicalize_entry_fill.
  destruct (fill_total (canonical_field fields) (map_to_list s)) with (out := ∅ : State) as [out Hout].
  { intros k v Hin%elem_of_map_to_list. exists v. apply canonical_field_ok. by apply Hg. }
  assert (out = s) as ->; [|rewrite Hout; cbn; by rewrite Hv].
  apply fill_map in Hout as [H1 H2]. apply map_eq. intros k. destruct (s !! k) as [v|] eqn:Hk; [|etrans; [by apply H2|]; etrans; [apply lookup_empty|done]].
  destruct (H1 k v Hk) as (c & Hc & ->). destruct (Hg k v Hk) as (field & Hf & Hv').
  apply canonical_field_ok in Hc as (field' & Hf' & Hc). congruence.
Qed.

Lemma good_entries fields s : good_state fields s →
  Forall (declared fields) (map_to_list s) ∧ Forall nonneg_entry (map_to_list s).
Proof.
  intros Hg. split; apply Forall_forall; intros [k v] Hin%elem_of_map_to_list; destruct (Hg k v Hin) as (field & Hf & Hv);
    unfold canonicalizeStateValue in Hv; apply fail_if_ok in Hv as [Hl Hv]; bool_to_prop.
  - by exists field.
  - apply fail_if_ok in Hv as [_ Hv]. destruct (sv_value v); [|done]. cbv zeta in Hv.
    rewrite !fail_if_ok in Hv. destruct Hv as (_ & _ & [= <-]). unfold nonneg_entry. cbn. unfold json_len. lia.
Qed.

Lemma good_size fields s : good_state fields s → (size s ≤ size fields)%nat.
Proof.
  intros Hg. rewrite <- !size_dom. apply subseteq_size. intros k. rewrite !elem_of_dom. intros [v Hv].
  destruct (Hg k v Hv) as (field & -> & _). by eexists.
Qed.

Lemma rfold_index_size l : ∀ fields fields', rfold index_field fields l = Ok fields' → (size fields' ≤ size fields + length l)%nat.
Proof.
  induction l as [|f l IH]; intros fields fields' H; [injection H as ->; cbn; lia|].
  cbn [rfold] in H. apply rbind_ok in H as (f1 & H1 & H). apply IH in H. unfold index_field in H1. rewrite !fail_if_ok in H1.
  destruct H1 as (_ & _ & _ & _ & [= <-]). rewrite map_size_insert in H. cbn [length]. case_match; cbn in H; lia.
Qed.

(** A good state has no more fields than its schema. *)
Lemma good_bounds schema fields s : indexStateFields schema = Ok fields → good_state fields s →
  Z.of_nat (size s) ≤ Z.of_nat (size fields) ∧ Z.of_nat (size s) ≤ MaxStateFields.
Proof.
  intros Hi Hg. pose proof (good_size _ _ Hg) as Hs. split; [lia|]. unfold indexStateFields in Hi. apply fail_if_ok in Hi as [Hl Hi]. bool_to_prop.
  apply rfold_index_size in Hi. rewrite map_size_empty in Hi. lia.
Qed.

(** A good, complete state is accepted unchanged exactly when its rough size fits. *)
Lemma good_validates schema fields s :
  indexStateFields schema = Ok fields → good_state fields s → validateCanonicalState fields s = Ok tt →
  ValidateState schema s = Ok s ↔ rough_size s ≤ MaxStateBytes.
Proof.
  intros Hi Hg Hv. unfold ValidateState. rewrite Hi. cbn [rbind].
  destruct (good_entries _ _ Hg) as [Hd Hn]. destruct (good_bounds _ _ _ Hi Hg) as [Hs Hf].
  unfold preflightState, fail_if.
  assert ((Z.of_nat (size fields) <? Z.of_nat (size s)) || (MaxStateFields <? Z.of_nat (size s)) = false) as ->.
  { apply orb_false_iff. split; apply Z.ltb_ge; lia. }
  unfold rough_size. split.
  - intros H. apply rbind_ok in H as ([] & H & _). apply rbind_ok in H as (r & H & _).
    apply preflight_list_bound in H as [-> H]; [done|done|]. unfold MaxStateBytes. lia.
  - intros H. rewrite preflight_list_ok by done. cbn [rbind]. by apply good_revalidates.
Qed.

Definition to_option {A} (r : result A) : option A := match r with Ok a => Some a | Err _ => None end.

(** The state the built-in reducer means: deleted fields are gone, set fields
    have the canonical form of their new value, the others of their old one. *)
Definition patched_field (fields : gmap string StateField) (s : State) (p : StatePatch) (k : string) : option StateValue :=
  if decide (k ∈ sp_Delete p) then None
  else match sp_Set p !! k with
       | Some v => to_option (canonical_field fields k v)
       | None => s !! k ≫= λ v, to_option (canonical_field fields k v)
       end.

Lemma foldl_delete_lookup l : ∀ (s : State) k, foldl (λ out key, delete key out) s l !! k = if decide (k ∈ l) then None else s !! k.
Proof.
  induction l as [|x l IH]; intros s k; cbn [foldl]; [by rewrite decide_False by apply not_elem_of_nil|].
  rewrite IH. destruct (decide (k ∈ l)); [by rewrite decide_True by by right|].
  destruct (decide (k = x)) as [->|]; [by rewrite lookup_delete_eq, decide_True by left|].
  rewrite lookup_delete_ne by done. by rewrite decide_False by (rewrite not_elem_of_cons; tauto).
Qed.

Lemma preflight_declared fields l : ∀ rough r, rfold (preflight_entry fields) rough l = Ok r → Forall (declared fields) l.
Proof.
  induction l as [|e l IH]; intros rough r H; [done|]. cbn [rfold] in H. apply rbind_ok in H as (r1 & H1 & H).
  constructor; [|by eapply IH]. unfold preflight_entry in H1. destruct (fields !! e.1) as [field|] eqn:Hf; [|done].
  apply fail_if_ok in H1 as [Hb _]. bool_to_prop. by exists field.
Qed.

Lemma set_entry_fill fields l out : Forall (declared fields) l →
  rfold (set_entry fields) out l = rfold (fill (canonical_field fields)) out l.
Proof.
  intros H. revert out. induction H as [|e l (field & Hf & Hb) _ IH]; intros out; [done|]. cbn [rfold].
  assert (set_entry fields out e = fill (canonical_field fields) out e) as ->.
  { unfold set_entry, fill, canonical_field. rewrite Hf. cbn [default]. unfold fail_if. case_match; bool_to_prop; [lia|done]. }
  destruct (fill _ out e); [apply IH|done].
Qed.

Lemma ApplyStatePatch_spec schema s p s' : ApplyStatePatch schema s p = Ok s' →
  ∃ fields, indexStateFields schema = Ok fields ∧ good_state fields s' ∧ validateCanonicalState fields s' = Ok tt
            ∧ ∀ k, s' !! k = patched_field fields s p k.
Proof.
  unfold ApplyStatePatch. intros H. apply fail_if_ok in H as [_ H]. apply rbind_ok in H as (fields & Hi & H).
  apply rbind_ok in H as ([] & Hp & H). apply rbind_ok in H as ([] & _ & H). apply rbind_ok in H as (out & Hc & H).
  apply rbind_ok in H as (out2 & Hset & H). cbv zeta in H. apply rbind_ok in H as ([] & Hv & [= <-]).
  unfold preflightPatch in Hp. apply fail_if_ok in Hp as [_ Hp]. apply rbind_ok in Hp as (r & Hd%preflight_declared & _).
  rewrite set_entry_fill in Hset by done. apply fill_map in Hset as [Hs1 Hs2].
  pose proof (canonicalize_good _ _ _ Hc) as Hg. apply canonicalize_spec in Hc as (_ & Hc1 & Hc2).
  exists fields. split; [done|]. split; [|split; [done|]].
  - intros k c. rewrite foldl_delete_lookup. destruct (decide (k ∈ sp_Delete p)); [done|]. intros Hk.
    destruct (sp_Set p !! k) as [v|] eqn:Hv'.
    + destruct (Hs1 k v Hv') as (c' & Hc' & Hk'). assert (c' = c) as -> by congruence.
      apply canonical_field_ok in Hc' as (field & Hf & Hv''). exists field. split; [done|]. by eapply canonicalizeStateValue_idem.
    + apply Hg. by rewrite <- Hs2.
  - intros k. rewrite foldl_delete_lookup. unfold patched_field. destruct (decide (k ∈ sp_Delete p)); [done|].
    destruct (sp_Set p !! k) as [v|] eqn:Hv'.
    + by destruct (Hs1 k v Hv') as (c' & -> & ->).
    + rewrite Hs2 by done. destruct (s !! k) as [v|] eqn:Hk; [by destruct (Hc1 k v Hk) as (c & Hcf & ->); cbn; rewrite Hcf|by apply Hc2].
Qed.

(** ** What the built-in reducer guarantees *)

(** C13.  A patch means exactly its deletions and assignments.  When the built-in
    reducer accepts a patch, the new state has no deleted field, the canonical
    form of every assigned value, and the canonical form of every other old
    value; nothing else changes.  The new state is accepted again, unchanged, by
    [ValidateState] (which every later node and every reload of the checkpoint
    applies to it) exactly when its rough size fits the state limit. *)
Theorem patches_are_exact schema s p s' : ApplyStatePatch schema s p = Ok s' →
  ∃ fields, indexStateFields schema = Ok fields ∧ (∀ k, s' !! k = patched_field fields s p k)
            ∧ (ValidateState schema s' = Ok s' ↔ rough_size s' ≤ MaxStateBytes).
Proof.
  intros (fields & Hi & Hg & Hv & Hk)%ApplyStatePatch_spec. exists fields. split; [done|]. split; [done|]. by apply good_validates with fields.
Qed.

Definition ex_patch_schema : StateSchema :=
  mk_schema ReducerTopLevelJSONPatch "1" [mk_field "note" StateString true false 100; mk_field "n" StateNumber false false 100].
Definition ex_old_state : State := {["note" := encoded_value (JStr "old"); "n" := encoded_value (JNum "1")]}.
Definition ex_new_state : State := {["note" := encoded_value (JStr "new")]}.
Definition ex_patch : StatePatch := mk_patch {["note" := mk_value 7 true (Some (JStr "new"))]} ["n"].

Lemma patches_are_exact_witness : ValidateState ex_patch_schema ex_new_state = Ok ex_new_state.
Proof.
  destruct (patches_are_exact ex_patch_schema ex_old_state ex_patch ex_new_state ltac:(vm_compute; reflexivity)) as (_ & _ & _ & Hiff).
  apply Hiff. vm_compute. discriminate.
Defined.

(** ** The limit itself *)

(** The fields of a schema have identifiers for names, and bounds. *)
Definition field_ok (name : string) (field : StateField) : Prop :=
  validateIdentifier name MaxNodeIDBytes = true ∧ f_MaxBytes field ≤ MaxStateFieldBytes.

Lemma index_fields_ok schema fields : indexStateFields schema = Ok fields → map_Forall field_ok fields.
Proof.
  unfold indexStateFields. intros [_ H]%fail_if_ok. enough (∀ l fs, map_Forall field_ok fs → rfold index_field fs l = Ok fields → map_Forall field_ok fields) as Hf.
  { by eapply Hf; [apply map_Forall_empty|exact H]. }
  clear. induction l as [|f l IH]; intros fs Hfs H; [by injection H as <-|]. cbn [rfold] in H. apply rbind_ok in H as (f1 & H1 & H).
  eapply IH; [|done]. unfold index_field in H1. rewrite !fail_if_ok in H1. destruct H1 as (Hn & _ & _ & Hb & [= <-]).
  apply map_Forall_insert_2; [|done]. apply negb_false_iff in Hn. apply orb_false_iff in Hb as [_ Hb]. split; [done|]. by apply Z.ltb_ge.
Qed.

Lemma identifier_utf8 k n : validateIdentifier k n = true → valid_utf8 k = true.
Proof. unfold validateIdentifier. destruct (valid_utf8 k); [done|]. by rewrite orb_true_r. Qed.

Lemma identifier_checkpoint k n : validateIdentifier k n = true → validateCheckpointIdentifier k n = true.
Proof.
  unfold validateIdentifier, validateCheckpointIdentifier, contains_control, contains_space. destruct (_ || _ || _ || _); [done|]. cbn [orb].
  intros H%negb_true_iff. induction (runes k) as [|r l IH]; [done|]. cbn in *. apply orb_false_iff in H as [[Hc Hs]%orb_false_iff Hl].
  rewrite Hc, Hs. by apply IH.
Qed.

(** A value of a good state is the compact text of its tree. *)
Lemma good_value field v : canonicalizeStateValue field v = Ok v →
  sv_len v ≤ f_MaxBytes field ∧ ∃ j, v = encoded_value j ∧ canonical_value j = j.
Proof.
  unfold canonicalizeStateValue. intros [Hl [_ H]%fail_if_ok]%fail_if_ok. destruct (sv_value v) as [j|]; [|done]. cbv zeta in H.
  rewrite !fail_if_ok in H. destruct H as (_ & _ & [= <-]). bool_to_prop. split; [done|]. eexists. split; [done|]. apply canonical_value_idem.
Qed.

(** The encoded entries of a state with names in UTF-8. *)
Lemma state_entries (s : State) : map_Forall (λ k _, valid_utf8 k = true) s →
  put_entries ∅ (map (λ '(k, v), (coerce_utf8 k, default JNull (sv_value v))) (map_to_list s)) = (λ v, default JNull (sv_value v)) <$> s.
Proof.
  intros Hu. rewrite <- (put_entries_fmap _ s (map_to_list s)) by done. f_equal.
  apply list_fmap_ext. intros i [k v] Hi%list_elem_of_lookup_2%elem_of_map_to_list. cbn. by rewrite coerce_utf8_id by by eapply Hu.
Qed.

(** The length of an object is a sum over its entries. *)
Definition member_len (e : string * json) : Z := Z.of_nat (length (quoted e.1)) + json_len e.2 + 2.
Definition members_len (l : list (string * json)) : Z := foldr (λ e n, member_len e + n) 0 l.

Lemma members_len_perm l l' : l ≡ₚ l' → members_len l = members_len l'.
Proof. unfold members_len. induction 1; cbn in *; lia. Qed.

Lemma object_len l : l ≠ [] → json_len (JObj l) = 1 + members_len l.
Proof.
  intros Hl. unfold json_len. cbn [json_bytes]. rewrite !length_app. change (length (bytes "{")) with 1%nat. change (length (bytes "}")) with 1%nat.
  enough (Z.of_nat (length (sep_by (bytes ",") (map (λ '(k, v), quoted k ++ bytes ":" ++ json_bytes v) l))) + 1 = members_len l) by lia.
  destruct l as [|e l]; [done|]. clear Hl. revert e. induction l as [|e' l IH]; intros [k v]; cbn [map].
  - cbn [sep_by]. unfold members_len, member_len, json_len. cbn [foldr fst snd]. rewrite !length_app. change (length (bytes ":")) with 1%nat. lia.
  - specialize (IH e'). cbn [map] in IH. change (sep_by (bytes ",") (?x :: ?y :: ?r)) with (x ++ bytes "," ++ sep_by (bytes ",") (y :: r)).
    rewrite !length_app. change (length (bytes ":")) with 1%nat. change (length (bytes ",")) with 1%nat.
    change (members_len ((k, v) :: e' :: l)) with (member_len (k, v) + members_len (e' :: l)). unfold member_len at 1, json_len at 1. cbn [fst snd]. lia.
Qed.

(** A name that JSON writes without escapes. *)
Definition plain (name : string) : Prop := json_len (JStr name) = str_len name + 2.
#[export] Instance plain_dec name : Decision (plain name) := decide (json_len (JStr name) = str_len name + 2).

(** The rough size of a good state is its encoded size and one more: the
    estimate counts a comma after the last entry too. *)
Lemma rough_is_encoded fields s : map_Forall field_ok fields → good_state fields s → s ≠ ∅ → map_Forall (λ name _, plain name) s →
  rough_size s = json_len (state_json s) + 1.
Proof.
  intros Hf Hg Hne Hp. unfold state_json. rewrite state_entries.
  2: { intros k v Hk. destruct (Hg k v Hk) as (field & Hfk & _). eapply identifier_utf8. by apply (Hf k field). }
  set (m := _ <$> s). rewrite object_len.
  2: { intros Hnil%(f_equal length). rewrite (Permutation_length (sorted_entries_perm m)), length_map_to_list in Hnil. unfold m in Hnil.
       rewrite map_size_fmap in Hnil. by apply map_size_empty_inv in Hnil. }
  rewrite (members_len_perm _ _ (sorted_entries_perm m)). unfold m. rewrite map_to_list_fmap. unfold rough_size.
  enough (entries_size (map_to_list s) = members_len (prod_map id (λ v, default JNull (sv_value v)) <$> map_to_list s)) by lia.
  assert (Forall (λ e, plain e.1 ∧ ∃ j, e.2 = encoded_value j) (map_to_list s)) as Hall.
  { apply Forall_forall. intros [k v] Hin%elem_of_map_to_list. split; [exact (Hp k v Hin)|]. destruct (Hg k v Hin) as (field & _ & Hv).
    apply good_value in Hv as (_ & j & ? & _). by exists j. }
  induction Hall as [|[k v] l [Hk [j Hv]] _ IH]; [done|]. cbn in Hk, Hv. subst v. rewrite fmap_cons.
  change (entry_size (k, encoded_value j) + entries_size l = member_len (k, j) + members_len (prod_map id (λ v, default JNull (sv_value v)) <$> l)).
  rewrite IH. unfold plain, json_len in Hk. cbn [json_bytes] in Hk. unfold entry_size, member_len. cbn [fst snd encoded_value sv_len]. lia.
Qed.

(** A preflight that fails on declared fields within their bounds fails on the
    rough size. *)
Lemma preflight_list_over fields l rough : Forall (declared fields) l → Forall nonneg_entry l → rough ≤ MaxStateBytes → MaxStateBytes < rough + entries_size l →
  rfold (preflight_entry fields) rough l = Err "state rough size exceeds bytes".
Proof.
  revert rough. induction l as [|e l IH]; intros rough Hd Hn Hr Hs; [cbn in Hs; lia|].
  change (entries_size (e :: l)) with (entry_size e + entries_size l) in *. cbn [rfold].
  apply Forall_cons in Hd as [(field & Hf & Hb) Hd]. apply Forall_cons in Hn as [Hn Hn'].
  unfold preflight_entry at 1. rewrite Hf. unfold fail_if. case_match; bool_to_prop; [exfalso; lia|].
  rewrite add_all_entry by done. destruct (Z.ltb_spec MaxStateBytes (rough + entry_size e)); [done|]. cbn [rbind]. apply IH; [done|done|lia|lia].
Qed.

Lemma over_refused schema fields s :
  indexStateFields schema = Ok fields → good_state fields s → MaxStateBytes < rough_size s → ValidateState schema s = Err "state rough size exceeds bytes".
Proof.
  intros Hi Hg Hr. destruct (good_entries _ _ Hg) as [Hd Hn]. unfold ValidateState, preflightState, fail_if. rewrite Hi. cbn [rbind].
  pose proof (good_bounds _ _ _ Hi Hg) as [Hs Hm]. rewrite (proj2 (orb_false_iff _ _)) by (split; by apply Z.ltb_ge).
  by rewrite preflight_list_over by (done || unfold rough_size in *; unfold MaxStateBytes; lia).
Qed.

Lemma canonical_checkpoint_state s :
  Z.of_nat (size s) ≤ MaxStateFields → map_imap (λ key raw, canonicalCheckpointField key raw) s = s →
  json_len (state_json s) ≤ MaxStateBytes → canonicalCheckpointState s = Some s.
Proof.
  intros Hs Hm Hl. unfold canonicalCheckpointState. destruct (Z.ltb_spec MaxStateFields (Z.of_nat (size s))); [lia|].
  rewrite Hm. destruct (Z.ltb_spec MaxStateBytes (json_len (state_json s))); [lia|].
  rewrite bool_decide_true; [done|]. intros k v Hk. pose proof Hk as Hk'. rewrite <- Hm, map_lookup_imap, Hk in Hk'. by eexists.
Qed.

Lemma good_canonical schema fields s :
  indexStateFields schema = Ok fields → good_state fields s → map_Forall (λ _ v, sv_len v ≠ 0) s → json_len (state_json s) ≤ MaxStateBytes →
  canonicalCheckpointState s = Some s.
Proof.
  intros Hi Hg H0 Hl. pose proof (index_fields_ok _ _ Hi) as Hf. apply canonical_checkpoint_state; [|apply map_eq; intros k|done].
  { by apply (good_bounds schema fields). }
  rewrite map_lookup_imap. destruct (s !! k) as [v|] eqn:Hk; [|done]. cbn. destruct (Hg k v Hk) as (field & Hfk & Hv).
  destruct (Hf k field Hfk) as [Hid Hb]. specialize (H0 k v Hk). cbn in H0. apply good_value in Hv as (Hlen & j & -> & Hc). unfold canonicalCheckpointField.
  rewrite (identifier_checkpoint _ _ Hid), (proj2 (Z.eqb_neq _ _) H0), (proj2 (Z.ltb_ge _ _)) by lia. cbn. rewrite Hc. cbn in Hlen.
  by rewrite (proj2 (Z.ltb_ge _ _)) by lia.
Qed.

(** C15.  The two size limits of a state differ by one byte.  For every non-empty
    state that the built-in reducer returns, with names that JSON writes without
    escapes, the rough size is the encoded size plus one.  So the state is
    accepted again by [ValidateState] exactly when it encodes to less than
    [MaxStateBytes]; a state that encodes to exactly [MaxStateBytes] is accepted
    by the reducer and by the checkpoint's own validation, which bound the encoded
    size, and then refused whenever it is validated again: by the next patch and
    by every later load of the committed checkpoint. *)
Theorem full_state_is_refused_later schema s p s' :
  ApplyStatePatch schema s p = Ok s' → s' ≠ ∅ → map_Forall (λ name v, plain name ∧ sv_len v ≠ 0) s' →
  rough_size s' = json_len (state_json s') + 1
  ∧ (ValidateState schema s' = Ok s' ↔ json_len (state_json s') < MaxStateBytes)
  ∧ canonicalCheckpointState s' = Some s'
  ∧ (json_len (state_json s') = MaxStateBytes → ValidateState schema s' = Err "state rough size exceeds bytes").
Proof.
  intros (fields & Hi & Hg & Hv & _)%ApplyStatePatch_spec Hne Hall. pose proof (index_fields_ok _ _ Hi) as Hf.
  assert (map_Forall (λ name _, plain name) s') as Hp by (intros k v Hk; by apply (Hall k v)).
  assert (map_Forall (λ _ v, sv_len v ≠ 0) s') as H0 by (intros k v Hk; by apply (Hall k v)). pose proof (rough_is_encoded _ _ Hf Hg Hne Hp) as Hr. pose proof Hv as Hlen. unfold validateCanonicalState in Hlen. rewrite !fail_if_ok in Hlen.
  destruct Hlen as (_ & Hlen%Z.ltb_ge & _). split; [done|]. split; [rewrite (good_validates _ _ _ Hi Hg Hv); lia|].
  split; [by eapply good_canonical|]. intros Heq. eapply over_refused; [done|done|lia].
Qed.

(** A state of exactly the maximal size. *)
Fixpoint digits (n : nat) : string := match n with O => EmptyString | S n => String (Ascii.ascii_of_N 49) (digits n) end.

Definition full_names : list string := ["a"; "b"; "c"; "d"; "e"; "f"; "g"; "h"].
Definition full_schema : StateSchema :=
  mk_schema ReducerTopLevelJSONPatch "1" ((λ name, mk_field name StateNumber false false MaxStateFieldBytes) <$> full_names).
(** Seven numbers of 65536 digits and one of 65495. *)
Definition full_value (name : string) : StateValue :=
  encoded_value (JNum (digits (if bool_decide (name = "h") then Z.to_nat 65495 else Z.to_nat 65536))).
Definition full_state : State := list_to_map ((λ name, (name, full_value name)) <$> full_names).
(** The state before the last number is assigned. *)
Definition almost_full_state : State := delete "h" full_state.

#[export] Instance result_eq_dec {A} `{EqDecision A} : EqDecision (result A).
Proof. solve_decision. Defined.

Lemma full_patch : ApplyStatePatch full_schema almost_full_state (mk_patch {["h" := full_value "h"]} []) = Ok full_state.
Proof. apply (bool_decide_eq_true_1 _); vm_compute; reflexivity. Qed.

Lemma full_len : json_len (state_json full_state) = MaxStateBytes.
Proof. vm_compute. reflexivity. Qed.

Lemma full_names_plain : map_Forall (λ name v, plain name ∧ sv_len v ≠ 0) full_state.
Proof. apply (bool_decide_eq_true_1 _). vm_compute. reflexivity. Qed.

Lemma full_state_is_refused_later_witness :
  canonicalCheckpointState full_state = Some full_state ∧ ValidateState full_schema full_state = Err "state rough size exceeds bytes".
Proof.
  destruct (full_state_is_refused_later full_schema almost_full_state (mk_patch {["h" := full_value "h"]} []) full_state full_patch
              ltac:(intros H; apply (f_equal size) in H; vm_compute in H; discriminate H) full_names_plain) as (_ & _ & H1 & H2).
  split; [exact H1|exact (H2 full_len)].
Defined.
