(* ===== verification/GraphValidate.v ===== *)
(** * Validation of graph definitions

    [pkg/extensions/graph/validator.go] and [registry.go].  The loops over the
    node map take the order in which Go visits it as an argument ([order], a
    list of the node identifiers): the theorems hold for every order.  The
    worklist loops carry fuel; [fuel_for] is always enough. *)
From S2P Require Import Prelude GoString Json Sha256 GraphContract GraphContext GraphState.
From stdpp Require Import gmap strings list sorting.
From Stdlib Require Import ZArith Lia.
Open Scope Z_scope.

(** ** Registries *)

(** [ReducerMetadata], [NodeKindMetadata] and [PredicateMetadata] have the same
    fields, and the three registries differ in the built-in reducer only. *)
Record Metadata := mk_meta { md_ID : string; md_Version : string }.

Definition validateRegistryMetadata (id version : string) : bool :=
  validateIdentifier id MaxNodeKindBytes && validateIdentifier version MaxGraphVersionBytes.

Definition register (entries : gmap string Metadata) (entry : Metadata) : result (gmap string Metadata) :=
  fail_when negb (validateRegistryMetadata (md_ID entry) (md_Version entry)) with "registry entry is invalid" ;;
  fail_when bool_decide (is_Some (entries !! md_ID entry)) with "registry entry is duplicate" ;;
  Ok (<[md_ID entry := entry]> entries).

Definition NewReducerRegistry (entries : list Metadata) : result (gmap string Metadata) :=
  fail_when MaxRegistryEntries - 1 <? Z.of_nat (length entries) with "reducer count exceeds" ;;
  rfold register {[ReducerTopLevelJSONPatch := mk_meta ReducerTopLevelJSONPatch "1"]} entries.

Definition NewNodeKindRegistry (entries : list Metadata) : result (gmap string Metadata) :=
  fail_when MaxRegistryEntries <? Z.of_nat (length entries) with "node kind count exceeds" ;;
  rfold register ∅ entries.

Definition NewPredicateRegistry (entries : list Metadata) : result (gmap string Metadata) :=
  fail_when MaxRegistryEntries <? Z.of_nat (length entries) with "predicate count exceeds" ;;
  rfold register ∅ entries.

(** ** Parts of a definition *)

Definition canonicalJSON (raw : StateValue) : option StateValue :=
  if (sv_len raw =? 0) || negb (sv_utf8 raw) then None
  else match sv_value raw with Some value => Some (encoded_value (canonical_value value)) | None => None end.

Definition validateLimits (limits : Limits) : bool :=
  (0 <? li_MaxSteps limits) && (li_MaxSteps limits <=? MaxSteps)
  && (0 <=? li_MaxVisitsPerNode limits) && (li_MaxVisitsPerNode limits <=? MaxVisitsPerNode).

Definition validateStateSchema (schema : StateSchema) (reducers : gmap string Metadata) : result (gmap string StateField) :=
  fail_when negb (validateIdentifier (ss_Reducer schema) MaxNodeKindBytes) with "state reducer is invalid" ;;
  fail_when negb (validateIdentifier (ss_ReducerVersion schema) MaxGraphVersionBytes) with "state reducer version is invalid" ;;
  match reducers !! ss_Reducer schema with
  | None => Err "state reducer is not registered"
  | Some metadata =>
    fail_when negb (bool_decide (md_Version metadata = ss_ReducerVersion schema)) with "state reducer version does not match" ;;
    fail_when MaxStateFields <? Z.of_nat (length (ss_Fields schema)) with "state field count exceeds" ;;
    rfold index_field ∅ (ss_Fields schema)
  end.

Definition redact_field (fields : gmap string StateField) (seen : gset string) (field : string) : result (gset string) :=
  fail_when negb (validateIdentifier field MaxNodeIDBytes) with "redacted state field is invalid" ;;
  fail_when negb (bool_decide (is_Some (fields !! field))) with "redacted state field is not declared" ;;
  fail_when bool_decide (field ∈ seen) with "redacted state field is duplicate" ;;
  Ok ({[field]} ∪ seen).

Definition validateRedaction (redaction : list string) (fields : gmap string StateField) : result unit :=
  fail_when MaxStateFields <? Z.of_nat (length redaction) with "redaction field count exceeds" ;;
  let! seen := rfold (redact_field fields) ∅ redaction in
  fail_when negb (bool_decide (map_Forall (λ name field, f_Sensitive field = true → name ∈ seen) fields))
    with "sensitive state field must be redacted" ;;
  Ok tt.

Definition validateContext (view : ContextView) (budget : ContextBudget) (fields : gmap string StateField) : result unit :=
  let! _ := ValidateContextView view in
  let! _ := ValidateContextBudget budget in
  fail_when negb (bool_decide (LayerCurrentInput ∈ cv_Layers view)) || (default 0 (cb_LayerBudgets budget !! LayerCurrentInput) <=? 0)
    with "context view requires current_input with a positive budget" ;;
  fail_when negb (forallb (λ name, validateIdentifier name MaxNodeIDBytes && bool_decide (is_Some (fields !! name))) (cv_StateFields view))
    with "context state field is not declared" ;;
  fail_when negb (bool_decide (map_Forall (λ name field, f_Required field = true → name ∈ cv_StateFields view) fields))
    with "context view must include required state field" ;;
  Ok tt.

Definition validateNode (node : NodeSpec) (fields : gmap string StateField) (kinds : gmap string Metadata) : result unit :=
  fail_when negb (validateIdentifier (n_ID node) MaxNodeIDBytes) with "node id is invalid" ;;
  fail_when negb (validateIdentifier (n_Kind node) MaxNodeKindBytes) with "node kind is invalid" ;;
  match kinds !! n_Kind node with
  | None => Err "node kind is not registered"
  | Some metadata =>
    fail_when negb (validateIdentifier (n_KindVersion node) MaxGraphVersionBytes) with "node kind version is invalid" ;;
    fail_when negb (bool_decide (md_Version metadata = n_KindVersion node)) with "node kind version does not match" ;;
    fail_when match n_Config node with
              | Some config => (MaxNodeConfigBytes <? sv_len config) || (0 <? sv_len config) && negb (bool_decide (is_Some (canonicalJSON config)))
              | None => false
              end with "node config" ;;
    let! _ := validateContext (n_ContextView node) (n_ContextBudget node) fields in
    fail_when (rp_MaxAttempts (n_Retry node) <? 0) || (MaxRetryAttempts <? rp_MaxAttempts (n_Retry node))
              || (rp_Backoff (n_Retry node) <? 0) || (MaxNodeTimeout <? rp_Backoff (n_Retry node)) with "retry policy is out of bounds" ;;
    fail_when (n_Timeout node <=? 0) || (MaxNodeTimeout <? n_Timeout node) with "timeout must be positive" ;;
    fail_when negb (bool_decide (n_ApprovalDeniedPolicy node ∈ [PolicyOther ""; ApprovalDeniedFail; ApprovalDeniedResumeWithDecision]))
      with "invalid approval denied policy" ;;
    Ok tt
  end.

Definition validateEdge (edge : EdgeSpec) (nodes : gmap string NodeSpec) (predicates : gmap string Metadata) : result unit :=
  fail_when negb (validateIdentifier (e_From edge) MaxNodeIDBytes) with "edge from is invalid" ;;
  fail_when negb (validateIdentifier (e_To edge) MaxNodeIDBytes) with "edge to is invalid" ;;
  fail_when negb (bool_decide (is_Some (nodes !! e_From edge))) with "source node does not exist" ;;
  fail_when negb (bool_decide (is_Some (nodes !! e_To edge))) with "target node does not exist" ;;
  match e_Kind edge with
  | EdgeDefault | EdgeError =>
    fail_when negb (bool_decide (e_Predicate edge = "")) || negb (bool_decide (e_PredicateVersion edge = ""))
      with "edge cannot name a predicate or predicate version" ;; Ok tt
  | EdgeConditional =>
    fail_when negb (validateIdentifier (e_Predicate edge) MaxNodeKindBytes) with "edge predicate is invalid" ;;
    fail_when negb (validateIdentifier (e_PredicateVersion edge) MaxGraphVersionBytes) with "edge predicate version is invalid" ;;
    match predicates !! e_Predicate edge with
    | None => Err "predicate is not registered"
    | Some metadata =>
      fail_when negb (bool_decide (md_Version metadata = e_PredicateVersion edge)) with "predicate version does not match" ;; Ok tt
    end
  | EdgeOther _ => Err "edge kind is invalid"
  end.

(** ** Walks over the graph *)

(** A Go [map[string][]string]. *)
Notation adjacency := (gmap string (list string)).
Definition successors_of (edges : adjacency) (n : string) : list string := default [] (edges !! n).
Definition add_edge (edges : adjacency) (from to : string) : adjacency := <[from := successors_of edges from ++ [to]]> edges.

(** The inner loop of a breadth-first walk: unseen targets are marked and queued. *)
Definition enqueue (acc : gset string * list string) (next : string) : gset string * list string :=
  if decide (next ∈ acc.1) then acc else ({[next]} ∪ acc.1, acc.2 ++ [next]).

Fixpoint walk (fuel : nat) (edges : adjacency) (seen : gset string) (queue : list string) : option (gset string) :=
  match fuel, queue with
  | _, [] => Some seen
  | O, _ :: _ => None
  | S fuel, current :: queue =>
    let '(seen, queue) := foldl enqueue (seen, queue) (successors_of edges current) in walk fuel edges seen queue
  end.

(** Every node enters the queue at most once. *)
Definition fuel_for (nodes : gmap string NodeSpec) : nat := S (size nodes).

Definition validateReachability (entry : string) (nodes : gmap string NodeSpec) (edges : adjacency) : option (result unit) :=
  match walk (fuel_for nodes) edges {[entry]} [entry] with
  | None => None
  | Some seen => Some (if bool_decide (map_Forall (λ id _, id ∈ seen) nodes) then Ok tt else Err "node is unreachable from entry")
  end.

(** The reverse adjacency, [edges] being visited in the order of [order]. *)
Definition reverse_edges (order : list string) (edges : adjacency) : adjacency :=
  foldl (λ rev from, foldl (λ rev to, add_edge rev to from) rev (successors_of edges from)) ∅ order.

Definition is_terminal (nodes : gmap string NodeSpec) (id : string) : bool :=
  match nodes !! id with Some n => n_Terminal n | None => false end.

Definition validateTerminalPaths (order : list string) (nodes : gmap string NodeSpec) (edges : adjacency) : option (result unit) :=
  let terminal := filter (λ id, is_terminal nodes id = true) order in
  if bool_decide (terminal = []) then Some (Err "graph has no terminal node")
  else match walk (fuel_for nodes) (reverse_edges order edges) (list_to_set terminal) terminal with
       | None => None
       | Some canReach =>
         Some (if bool_decide (map_Forall (λ id node, n_Terminal node = true ∨ id ∈ canReach) nodes) then Ok tt
               else Err "non-terminal node has no success path to a terminal")
       end.

(** The depth-first search of [graphHasCycle]: colours 1 (on the path) and 2
    (done); [None] when the fuel is gone, otherwise the colours and the answer. *)
Fixpoint visit (fuel : nat) (edges : adjacency) (color : gmap string Z) (id : string) : option (gmap string Z * bool) :=
  match fuel with
  | O => None
  | S fuel =>
    (fix each (color : gmap string Z) (targets : list string) : option (gmap string Z * bool) :=
       match targets with
       | [] => Some (<[id := 2]> color, false)
       | next :: targets =>
         let c := default 0 (color !! next) in
         if c =? 1 then Some (color, true)
         else if c =? 0 then
           match visit fuel edges color next with
           | None => None
           | Some (color, true) => Some (color, true)
           | Some (color, false) => each color targets
           end
         else each color targets
       end) (<[id := 1]> color) (successors_of edges id)
  end.

Fixpoint search_cycle (fuel : nat) (edges : adjacency) (color : gmap string Z) (order : list string) : option bool :=
  match order with
  | [] => Some false
  | id :: order =>
    if default 0 (color !! id) =? 0 then
      match visit fuel edges color id with
      | None => None
      | Some (_, true) => Some true
      | Some (color, false) => search_cycle fuel edges color order
      end
    else search_cycle fuel edges color order
  end.

Definition graphHasCycle (order : list string) (nodes : gmap string NodeSpec) (edges : adjacency) : option bool :=
  search_cycle (fuel_for nodes) edges ∅ order.

(** ** The definition *)

(** What the loop over the edges collects. *)
Record edge_acc := mk_edge_acc {
  ea_kinds : gset (string * string); ea_predicates : gset (string * string); ea_all : adjacency; ea_success : adjacency }.

Definition collect_edge (nodes : gmap string NodeSpec) (predicates : gmap string Metadata) (acc : edge_acc) (edge : EdgeSpec) : result edge_acc :=
  let! _ := validateEdge edge nodes predicates in
  let single := match e_Kind edge with EdgeDefault | EdgeError => true | _ => false end in
  fail_when single && bool_decide ((e_From edge, edge_text (e_Kind edge)) ∈ ea_kinds acc) with "node has more than one edge of a kind" ;;
  let conditional := match e_Kind edge with EdgeConditional => true | _ => false end in
  fail_when conditional && bool_decide ((e_From edge, e_Predicate edge) ∈ ea_predicates acc) with "node repeats conditional predicate" ;;
  Ok (mk_edge_acc
        (if single then {[(e_From edge, edge_text (e_Kind edge))]} ∪ ea_kinds acc else ea_kinds acc)
        (if conditional then {[(e_From edge, e_Predicate edge)]} ∪ ea_predicates acc else ea_predicates acc)
        (add_edge (ea_all acc) (e_From edge) (e_To edge))
        (match e_Kind edge with EdgeError => ea_success acc | _ => add_edge (ea_success acc) (e_From edge) (e_To edge) end)).

Definition collect_node (fields : gmap string StateField) (kinds : gmap string Metadata) (nodes : gmap string NodeSpec) (node : NodeSpec) :
    result (gmap string NodeSpec) :=
  let! _ := validateNode node fields kinds in
  fail_when bool_decide (is_Some (nodes !! n_ID node)) with "node is duplicate" ;;
  Ok (<[n_ID node := node]> nodes).

Definition outgoing_ok (acc : edge_acc) (id : string) (node : NodeSpec) : bool :=
  if n_Terminal node then bool_decide (successors_of (ea_all acc) id = []) else negb (bool_decide (successors_of (ea_success acc) id = [])).

(** [order] is the order in which Go visits the node map; an answer [None] is
    lack of fuel. *)
Definition check_shape (order : list string) (def : Definition_) (nodes : gmap string NodeSpec) (acc : edge_acc) : option (result unit) :=
  if negb (bool_decide (map_Forall (λ id node, outgoing_ok acc id node = true) nodes)) then Some (Err "outgoing edges") else
  match validateReachability (d_EntryNode def) nodes (ea_all acc) with
  | None => None
  | Some (Err e) => Some (Err e)
  | Some (Ok _) =>
    match validateTerminalPaths order nodes (ea_success acc) with
    | None => None
    | Some (Err e) => Some (Err e)
    | Some (Ok _) =>
      match graphHasCycle order nodes (ea_all acc) with
      | None => None
      | Some cyclic =>
        Some (fail_when cyclic && (li_MaxVisitsPerNode (d_Limits def) <=? 0) with "cyclic graph requires a positive max_visits_per_node" ;; Ok tt)
      end
    end
  end.

(** The nodes and edges of a definition, once every part is valid. *)
Definition collect (def : Definition_) (kinds reducers predicates : gmap string Metadata) : result (gmap string NodeSpec * edge_acc) :=
  fail_when negb (validateIdentifier (d_ID def) MaxGraphIDBytes) with "graph id is invalid" ;;
  fail_when negb (validateIdentifier (d_Version def) MaxGraphVersionBytes) with "graph version is invalid" ;;
  fail_when negb (bool_decide (d_Revision def = "")) && negb (validCheckpointVersionID (d_Revision def))
    with "graph revision is not a SHA-256 hex string" ;;
  fail_when negb (validateIdentifier (d_EntryNode def) MaxNodeIDBytes) with "entry node is invalid" ;;
  fail_when bool_decide (length (d_Nodes def) = 0%nat) || (MaxNodes <? Z.of_nat (length (d_Nodes def))) with "node count" ;;
  fail_when MaxEdges <? Z.of_nat (length (d_Edges def)) with "edge count exceeds" ;;
  fail_when negb (validateLimits (d_Limits def)) with "limits" ;;
  let! fields := validateStateSchema (d_State def) reducers in
  let! _ := validateRedaction (d_Redaction def) fields in
  let! nodes := rfold (collect_node fields kinds) ∅ (d_Nodes def) in
  fail_when negb (bool_decide (is_Some (nodes !! d_EntryNode def))) with "entry node does not exist" ;;
  let! acc := rfold (collect_edge nodes predicates) (mk_edge_acc ∅ ∅ ∅ ∅) (d_Edges def) in
  Ok (nodes, acc).

Definition validateDefinition (order : list string) (def : Definition_) (kinds reducers predicates : gmap string Metadata) :
    option (result unit) :=
  match collect def kinds reducers predicates with
  | Err e => Some (Err e)
  | Ok (nodes, acc) => check_shape order def nodes acc
  end.

(** ** Canonical form and revision *)

Definition str_sort : list string → list string := merge_sort String.le.

Definition canonical_config (config : option StateValue) : option StateValue :=
  match config with
  | Some raw => if 0 <? sv_len raw then canonicalJSON raw else Some raw
  | None => None
  end.

Definition canonical_node (n : NodeSpec) : NodeSpec :=
  mk_node (n_ID n) (n_Kind n) (n_KindVersion n) (canonical_config (n_Config n))
    (mk_view (str_sort (cv_StateFields (n_ContextView n))) (str_sort (cv_Layers (n_ContextView n))))
    (n_ContextBudget n) (n_Retry n) (n_Timeout n) (n_Terminal n) (n_UsesSandbox n)
    (match n_ApprovalDeniedPolicy n with ApprovalDeniedFail => PolicyOther "" | p => p end).

Definition edge_key (e : EdgeSpec) : string :=
  e_From e +:+ nul +:+ edge_text (e_Kind e) +:+ nul +:+ e_Predicate e +:+ nul +:+ e_PredicateVersion e +:+ nul +:+ e_To e.

(** [sort.Slice] by a text key.  The keys of validated nodes and fields are
    distinct, and edges with the same key are equal, so the order is unique. *)
Definition sort_by {A} (key : A → string) : list A → list A := merge_sort (λ a b, String.le (key a) (key b)).

Definition canonicalizeDefinition (d : Definition_) : Definition_ :=
  mk_definition (d_ID d) (d_Version d) (d_Revision d) (d_EntryNode d)
    (sort_by n_ID (canonical_node <$> d_Nodes d)) (sort_by edge_key (d_Edges d))
    (mk_schema (ss_Reducer (d_State d)) (ss_ReducerVersion (d_State d)) (sort_by f_Name (ss_Fields (d_State d))))
    (d_Limits d) (str_sort (d_Redaction d)).

(** A slice cloned with [append(nil, ...)]: an empty one is nil and encodes as null. *)
Definition json_of_slice {A} (f : A → json) (l : list A) : json := match l with [] => JNull | _ => JArr (f <$> l) end.

Definition json_of_node (n : NodeSpec) : json :=
  JObj ([("id", json_of_str (n_ID n)); ("kind", json_of_str (n_Kind n)); ("kind_version", json_of_str (n_KindVersion n))]
        ++ match n_Config n with
           | Some raw => omit_if (sv_len raw =? 0) "config" (default JNull (sv_value raw))
           | None => []
           end
        ++ [("context_view", json_of_view (n_ContextView n)); ("context_budget", json_of_budget (n_ContextBudget n));
            ("retry", JObj (omit_if (rp_MaxAttempts (n_Retry n) =? 0) "max_attempts" (json_of_z (rp_MaxAttempts (n_Retry n)))
                            ++ omit_if (rp_Backoff (n_Retry n) =? 0) "backoff" (json_of_z (rp_Backoff (n_Retry n))))%list);
            ("timeout", json_of_z (n_Timeout n)); ("terminal", JBool (n_Terminal n)); ("uses_sandbox", JBool (n_UsesSandbox n))]
        ++ omit_if (bool_decide (policy_text (n_ApprovalDeniedPolicy n) = "")) "approval_denied_policy"
             (json_of_str (policy_text (n_ApprovalDeniedPolicy n))))%list.

Definition json_of_edge (e : EdgeSpec) : json :=
  JObj ([("from", json_of_str (e_From e)); ("to", json_of_str (e_To e)); ("kind", json_of_str (edge_text (e_Kind e)))]
        ++ omit_if (bool_decide (e_Predicate e = "")) "predicate" (json_of_str (e_Predicate e))
        ++ omit_if (bool_decide (e_PredicateVersion e = "")) "predicate_version" (json_of_str (e_PredicateVersion e)))%list.

Definition json_of_field (f : StateField) : json :=
  JObj ([("name", json_of_str (f_Name f)); ("type", json_of_str (state_type_text (f_Type f)))]
        ++ omit_if (negb (f_Required f)) "required" (JBool true) ++ omit_if (negb (f_Sensitive f)) "sensitive" (JBool true)
        ++ [("max_bytes", json_of_z (f_MaxBytes f))])%list.

(** The revision field is empty, so omitted. *)
Definition json_of_definition (d : Definition_) : json :=
  JObj [("id", json_of_str (d_ID d)); ("version", json_of_str (d_Version d)); ("entry_node", json_of_str (d_EntryNode d));
        ("nodes", json_of_slice json_of_node (d_Nodes d)); ("edges", json_of_slice json_of_edge (d_Edges d));
        ("state", JObj [("reducer", json_of_str (ss_Reducer (d_State d))); ("reducer_version", json_of_str (ss_ReducerVersion (d_State d)));
                        ("fields", json_of_slice json_of_field (ss_Fields (d_State d)))]);
        ("limits", JObj ([("max_steps", json_of_z (li_MaxSteps (d_Limits d)))]
                         ++ omit_if (li_MaxVisitsPerNode (d_Limits d) =? 0) "max_visits_per_node" (json_of_z (li_MaxVisitsPerNode (d_Limits d))))%list);
        ("redaction", JObj (omit_if (bool_decide (d_Redaction d = [])) "state_fields" (JArr (json_of_str <$> d_Redaction d))))].

Definition definitionRevision (d : Definition_) : result string :=
  fail_when MaxDefinitionBytes <? json_len (json_of_definition d) with "canonical definition exceeds bytes" ;;
  Ok (sha256_hex (json_text (json_of_definition d))).

(** ** Preflight *)

Definition config_len (n : NodeSpec) : Z := match n_Config n with Some raw => sv_len raw | None => 0 end.

Definition node_amounts (n : NodeSpec) : list Z :=
  ([str_len (n_ID n); str_len (n_Kind n); str_len (n_KindVersion n); config_len n; 64]
   ++ (str_len <$> cv_StateFields (n_ContextView n)) ++ (str_len <$> cv_Layers (n_ContextView n))
   ++ (map_to_list (cb_LayerBudgets (n_ContextBudget n)) ≫= λ kv, [str_len kv.1; 24]))%list.

Definition preflight_node (size : option Z) (n : NodeSpec) : option Z :=
  match size with
  | None => None
  | Some size =>
    if (MaxNodeConfigBytes <? config_len n) || (MaxContextStateFields <? Z.of_nat (length (cv_StateFields (n_ContextView n))))
       || (MaxContextViewLayers <? Z.of_nat (length (cv_Layers (n_ContextView n))))
       || (MaxContextViewLayers <? Z.of_nat (stdpp.base.size (cb_LayerBudgets (n_ContextBudget n)))) then None
    else add_all size (node_amounts n) MaxDefinitionBytes
  end.

Definition edge_amounts (e : EdgeSpec) : list Z :=
  [str_len (e_From e); str_len (e_To e); str_len (edge_text (e_Kind e)); str_len (e_Predicate e); str_len (e_PredicateVersion e); 16].
Definition field_amounts (f : StateField) : list Z := [str_len (f_Name f); str_len (state_type_text (f_Type f)); 24].

Definition preflightDefinition (d : Definition_) : result unit :=
  fail_when bool_decide (length (d_Nodes d) = 0%nat) || (MaxNodes <? Z.of_nat (length (d_Nodes d))) with "node count" ;;
  fail_when MaxEdges <? Z.of_nat (length (d_Edges d)) with "edge count exceeds" ;;
  fail_when (MaxStateFields <? Z.of_nat (length (ss_Fields (d_State d)))) || (MaxStateFields <? Z.of_nat (length (d_Redaction d)))
    with "state or redaction field count exceeds" ;;
  let size := add_all 0 [str_len (d_ID d); str_len (d_Version d); str_len (d_Revision d); str_len (d_EntryNode d);
                         str_len (ss_Reducer (d_State d)); str_len (ss_ReducerVersion (d_State d))] MaxDefinitionBytes in
  let size := foldl preflight_node size (d_Nodes d) in
  match size with
  | None => Err "rough definition size exceeds bytes"
  | Some size =>
    match add_all size ((d_Edges d ≫= edge_amounts) ++ (ss_Fields (d_State d) ≫= field_amounts) ++ (str_len <$> d_Redaction d))%list MaxDefinitionBytes with
    | None => Err "rough definition size exceeds bytes"
    | Some _ => Ok tt
    end
  end.

(** ** ValidateDefinition *)

Definition ErrInvalidDefinition : string := "invalid graph definition".

Definition set_revision (r : string) (d : Definition_) : Definition_ :=
  mk_definition (d_ID d) (d_Version d) r (d_EntryNode d) (d_Nodes d) (d_Edges d) (d_State d) (d_Limits d) (d_Redaction d).

(** The frozen definition: [ValidatedDefinition.Definition()] and [Revision()]
    return it and its revision. *)
Definition ValidateDefinition (order : list string) (def : Definition_) (kinds reducers predicates : gmap string Metadata) :
    option (result Definition_) :=
  if negb (is_ok (preflightDefinition def)) then Some (Err ErrInvalidDefinition) else
  match validateDefinition order def kinds reducers predicates with
  | None => None
  | Some (Err _) => Some (Err ErrInvalidDefinition)
  | Some (Ok _) =>
    let def := canonicalizeDefinition def in
    Some (match definitionRevision def with
          | Err _ => Err ErrInvalidDefinition
          | Ok revision =>
            fail_when negb (bool_decide (d_Revision def = "")) && negb (bool_decide (d_Revision def = revision)) with ErrInvalidDefinition ;;
            Ok (set_revision revision def)
          end)
  end.
