(* ===== verification/GraphExample.v ===== *)
(** * A small graph for the witnesses

    Three nodes: [a] leads to [b]; [b] goes back to [a] while the predicate
    [again] holds and ends in the terminal [c] otherwise; errors of [a] end in
    [c] too. *)
From S2P Require Import Prelude GoString Json GraphContract GraphContext GraphState GraphValidate.
From stdpp Require Import gmap strings list.
From Stdlib Require Import ZArith Lia.
Open Scope Z_scope.

Definition ex_view : ContextView := mk_view ["note"] [LayerCurrentInput; LayerRequiredState].
Definition ex_budget : ContextBudget := mk_budget 100 10 0 {[LayerCurrentInput := 40; LayerRequiredState := 40]}.
Definition ex_node (id : string) (terminal : bool) (retries : Z) : NodeSpec :=
  mk_node id "work" "1" None ex_view ex_budget (mk_retry retries 0) 1000 terminal false (PolicyOther "").
Definition ex_schema : StateSchema := mk_schema ReducerTopLevelJSONPatch "1" [mk_field "note" StateString false false 1000].
Definition ex_edges : list EdgeSpec :=
  [mk_edge "a" "b" EdgeDefault "" ""; mk_edge "b" "a" EdgeConditional "again" "1"; mk_edge "b" "c" EdgeDefault "" "";
   mk_edge "a" "c" EdgeError "" ""].
Definition ex_graph_def : Definition_ :=
  mk_definition "demo" "1" "" "a" [ex_node "a" false 2; ex_node "b" false 0; ex_node "c" true 0] ex_edges ex_schema (mk_limits 10 3) [].
Definition ex_kinds : gmap string Metadata := {["work" := mk_meta "work" "1"]}.
Definition ex_reducers : gmap string Metadata := {[ReducerTopLevelJSONPatch := mk_meta ReducerTopLevelJSONPatch "1"]}.
Definition ex_predicates : gmap string Metadata := {["again" := mk_meta "again" "1"]}.
Definition ex_order : list string := ["c"; "a"; "b"].

(** The frozen definition. *)
Definition ex_frozen : Definition_ :=
  match ValidateDefinition ex_order ex_graph_def ex_kinds ex_reducers ex_predicates with Some (Ok d) => d | _ => ex_graph_def end.

Lemma ex_graph_accepted : validateDefinition ex_order ex_graph_def ex_kinds ex_reducers ex_predicates = Some (Ok tt).
Proof. vm_compute. reflexivity. Qed.

Lemma ex_frozen_accepted : ValidateDefinition ex_order ex_graph_def ex_kinds ex_reducers ex_predicates = Some (Ok ex_frozen).
Proof. vm_compute. reflexivity. Qed.

(** ** A run of it, created and started *)

Definition ex_run : CheckpointKey := mk_key "tenant" "session" "run".
Definition ex_note (text : string) : StateValue := encoded_value (JStr text).
Definition ex_checkpoint (revision : Z) (status : CheckpointStatus) (attempt : Z) (attemptID : string) : Checkpoint :=
  mk_checkpoint ex_run "segment" "demo" (d_Revision ex_frozen) "composition" "implementation" 1 "a" attempt attemptID attempt
    (if attempt =? 0 then ∅ else {["a" := attempt]}) revision {["note" := ex_note "hello"]} None "" None status "".
Definition ex_ready : Checkpoint := ex_checkpoint 1 CheckpointReady 0 "".
Definition ex_executing : Checkpoint := ex_checkpoint 2 CheckpointExecuting 1 "attempt-1".
Definition ex_created : Transition :=
  mk_transition (TransitionID ex_run 1) ex_run 1 (StatusOther "") CheckpointReady "segment" "" 0 "" "" "a" "" "created" None None.
Definition ex_started : Transition :=
  mk_transition (TransitionID ex_run 2) ex_run 2 CheckpointReady CheckpointExecuting "segment" "segment" 1 "a" "" "a" "attempt-1" "node_started" None None.
