(* ===== verification/GraphShape.v ===== *)
(** * Accepted definitions are well-shaped

    The reference reading of a graph definition, in terms of its own node and
    edge lists, and the equivalence of the validator with it. *)
From S2P Require Import Prelude GoString Json GraphContract GraphContext GraphState GraphValidate GraphExample.
From stdpp Require Import gmap strings list relations.
From Stdlib Require Import ZArith Lia.

(** ** The graph walks compute what they are meant to

    The breadth-first walk of the validator returns exactly the nodes reachable
    from its start, and its depth-first search answers exactly whether some node
    lies on a cycle; both stop within the fuel they are given. *)

(** One step along an edge. *)
Definition edge_rel (edges : adjacency) (x y : string) : Prop := y ∈ successors_of edges x.

(** A finite set of nodes that no edge leaves. *)
Definition closed_in (edges : adjacency) (N : gset string) : Prop := ∀ x y, x ∈ N → edge_rel edges x y → y ∈ N.

(** ** Breadth-first *)

Lemma enqueue_spec l : ∀ seen queue seen' queue', foldl enqueue (seen, queue) l = (seen', queue') →
  ∃ new, queue' = queue ++ new ∧ seen' = seen ∪ list_to_set new ∧ NoDup new
         ∧ (∀ x, x ∈ new ↔ x ∈ l ∧ x ∉ seen).
Proof.
  induction l as [|y l IH]; intros seen queue seen' queue' H; cbn [foldl] in H.
  { injection H as <- <-. exists []. rewrite app_nil_r. split; [done|]. split; [set_solver|]. split; [constructor|set_solver]. }
  unfold enqueue at 2 in H. cbn [fst snd] in H. destruct (decide (y ∈ seen)) as [Hy|Hy].
  - apply IH in H as (new & -> & -> & Hnd & Hin). exists new. split; [done|]. split; [done|]. split; [done|]. set_solver.
  - apply IH in H as (new & -> & -> & Hnd & Hin). exists (y :: new). split; [by rewrite <- app_assoc|]. split; [set_solver|].
    split; [constructor; [|done]; set_solver|]. intros x. destruct (decide (x = y)); set_solver.
Qed.

Section Walk.
Context (edges : adjacency).

(** Marked nodes are still queued or have all their successors marked. *)
Definition frontier (seen : gset string) (queue : list string) : Prop :=
  ∀ x y, x ∈ seen → edge_rel edges x y → x ∈ queue ∨ y ∈ seen.

Lemma walk_spec (start : gset string) fuel : ∀ seen queue s',
  frontier seen queue → (∀ x, x ∈ queue → x ∈ seen) → start ⊆ seen → (∀ y, y ∈ seen → ∃ x, x ∈ start ∧ rtc (edge_rel edges) x y) →
  walk fuel edges seen queue = Some s' → ∀ y, y ∈ s' ↔ ∃ x, x ∈ start ∧ rtc (edge_rel edges) x y.
Proof.
  induction fuel as [|fuel IH]; intros seen [|c queue] s' Hf Hq Hst Hr H; cbn [walk] in H; try done.
  1, 2: injection H as <-; intros y; split; [apply Hr|]; intros (x & Hx & Hxy); apply Hst in Hx;
      induction Hxy as [x|x z y Hxz _ IHr]; [done|]; destruct (Hf x z Hx Hxz) as [Hin%not_elem_of_nil|Hz]; [done|by apply IHr].
  destruct (foldl enqueue (seen, queue) (successors_of edges c)) as [seen1 queue1] eqn:He.
  apply enqueue_spec in He as (new & -> & -> & _ & Hnew).
  eapply IH; [| | | |exact H].
  - intros x y Hx Hxy. apply elem_of_union in Hx as [Hx|Hx%elem_of_list_to_set].
    + destruct (Hf x y Hx Hxy) as [[->|Hxq]%elem_of_cons|Hy]; [|left; apply elem_of_app; by left|right; set_solver].
      right. destruct (decide (y ∈ seen)); [set_solver|]. apply elem_of_union_r, elem_of_list_to_set, Hnew. done.
    + left. apply elem_of_app. by right.
  - intros x Hx. apply elem_of_app in Hx as [Hx|Hx]; [apply elem_of_union_l, Hq; by right|apply elem_of_union_r; by apply elem_of_list_to_set].
  - set_solver.
  - intros y [Hy|Hy%elem_of_list_to_set]%elem_of_union; [by apply Hr|]. apply Hnew in Hy as [Hy _].
    destruct (Hr c) as (x & Hx & Hxc); [apply Hq; left|]. exists x. split; [done|]. by eapply rtc_r.
Qed.

(** Each node enters the queue once, so the walk ends. *)
Lemma walk_total N fuel : closed_in edges N → ∀ seen queue, seen ⊆ N → (∀ x, x ∈ queue → x ∈ N) →
  (length queue + size (N ∖ seen) ≤ fuel)%nat → is_Some (walk fuel edges seen queue).
Proof.
  intros HN. induction fuel as [|fuel IH]; intros seen [|c queue] Hs Hq Hf; cbn [walk]; try (by eexists); [cbn in Hf; lia|].
  destruct (foldl enqueue (seen, queue) (successors_of edges c)) as [seen1 queue1] eqn:He.
  apply enqueue_spec in He as (new & -> & -> & Hnd & Hnew).
  assert (∀ x, x ∈ new → x ∈ N) as HnN. { intros x [Hx _]%Hnew. eapply HN; [|exact Hx]. apply Hq. left. }
  apply IH.
  - intros x [Hx|Hx%elem_of_list_to_set]%elem_of_union; [by apply Hs|by apply HnN].
  - intros x [Hx|Hx]%elem_of_app; [apply Hq; by right|by apply HnN].
  - rewrite length_app. cbn in Hf.
    assert (size (N ∖ (seen ∪ list_to_set new)) + length new = size (N ∖ seen))%nat as Hsz; [|lia].
    rewrite <- (size_list_to_set (C:=gset string) new) by done. rewrite <- size_union; [f_equal|set_solver].
    apply set_eq. intros x. rewrite elem_of_union, !elem_of_difference, elem_of_union. rewrite elem_of_list_to_set.
    destruct (decide (x ∈ new)) as [Hx|Hx]; [|set_solver]. pose proof (HnN x Hx). destruct (proj1 (Hnew x) Hx) as [_ Hns]. tauto.
Qed.
End Walk.

(** ** Depth-first *)

Section Cycle.
Context (edges : adjacency).
Notation E := (edge_rel edges).

Definition gray (color : gmap string Z) (x : string) : Prop := color !! x = Some 1%Z.
Definition black (color : gmap string Z) (x : string) : Prop := color !! x = Some 2%Z.

(** Only the two colours are stored; finished nodes have finished successors and
    lie on no cycle. *)
Definition color_inv (color : gmap string Z) : Prop :=
  (∀ x c, color !! x = Some c → c = 1%Z ∨ c = 2%Z)
  ∧ (∀ x y, black color x → E x y → black color y) ∧ (∀ x, black color x → ¬ tc E x x).

Definition finished (color color' : gmap string Z) : Prop :=
  color_inv color' ∧ (∀ x, gray color' x ↔ gray color x) ∧ (∀ x, black color x → black color' x).

Lemma black_tc color x y : color_inv color → black color x → tc E x y → black color y.
Proof. intros (_ & Hc & _) Hx H. induction H as [x y H|x y z H _ IH]; [by eapply Hc|]. apply IH. by eapply Hc. Qed.

(** Finishing a node whose successors are finished. *)
Lemma finish_node color id : color_inv color → gray color id → (∀ y, E id y → black color y) → color_inv (<[id := 2%Z]> color).
Proof.
  intros Hi Hg Hs. pose proof Hi as (Hv & Hc & Hn). unfold color_inv, black in *. split; [|split].
  - intros x c Hx. apply lookup_insert_Some in Hx as [[_ <-]|[_ Hx]]; [by right|by eapply Hv].
  - intros x y Hx Hxy. destruct (decide (y = id)) as [->|Hy]; [by rewrite lookup_insert_eq|]. rewrite lookup_insert_ne by done.
    apply lookup_insert_Some in Hx as [[<- _]|[_ Hx]]; [by apply Hs|by eapply Hc].
  - intros x Hx Ht. apply lookup_insert_Some in Hx as [[<- _]|[_ Hx]]; [|by eapply Hn].
    assert (black color id) as Hb; [|unfold gray, black in *; congruence].
    inversion Ht as [? ? H|? y ? H Ht']; subst; [by apply Hs|]. eapply black_tc; [done|by apply Hs|done].
Qed.

Definition grays (color : gmap string Z) : gset string := dom (filter (λ kv, kv.2 = 1%Z) color).

Lemma elem_of_grays color x : x ∈ grays color ↔ gray color x.
Proof.
  unfold grays, gray. rewrite elem_of_dom. split.
  - intros [c Hc]. apply map_lookup_filter_Some in Hc as [Hc Hc1]. cbn in Hc1. by subst c.
  - intros Hx. exists 1%Z. by apply map_lookup_filter_Some.
Qed.

(** One more node on the path leaves one fewer to be coloured. *)
Lemma grays_left N color cur id : id ∈ N → color !! id = None → (∀ x, gray cur x ↔ x = id ∨ gray color x) →
  size (N ∖ grays color) = S (size (N ∖ grays cur)).
Proof.
  intros HN Hid Hc. 
  replace (S (size (N ∖ grays cur))) with (size ({[id]} : gset string) + size (N ∖ grays cur))%nat by (rewrite size_singleton; lia).
  rewrite <- size_union.
  - f_equal. apply set_eq. intros x. rewrite elem_of_union, !elem_of_difference, elem_of_singleton, !elem_of_grays, Hc.
    destruct (decide (x = id)) as [->|]; [|tauto]. unfold gray. rewrite Hid. split; [by left|]. intros _. by split.
  - intros x. rewrite elem_of_singleton, elem_of_difference, elem_of_grays, Hc. tauto.
Qed.

Context (N : gset string) (HN : closed_in edges N).

Lemma visit_spec fuel : ∀ color id, id ∈ N → color !! id = None → color_inv color → (∀ g, gray color g → rtc E g id) →
  match visit fuel edges color id with
  | None => (fuel < size (N ∖ grays color))%nat
  | Some (_, true) => ∃ x, tc E x x
  | Some (color', false) => finished color color' ∧ black color' id
  end.
Proof.
  induction fuel as [|fuel IH]; intros color id HidN Hid Hi Hg; cbn [visit].
  { assert (id ∈ N ∖ grays color) as Hin; [|destruct (size (N ∖ grays color)) eqn:Hz; [apply size_empty_inv in Hz; set_solver|lia]].
    apply elem_of_difference. rewrite elem_of_grays. unfold gray. by rewrite Hid. }
  assert (Hloop : ∀ targets cur, (∀ y, y ∈ targets → E id y) → (∀ y, E id y → y ∈ targets ∨ black cur y) →
    color_inv cur → (∀ x, gray cur x ↔ x = id ∨ gray color x) → (∀ x, black color x → black cur x) →
    match (fix each (color : gmap string Z) (targets : list string) : option (gmap string Z * bool) :=
       match targets with
       | [] => Some (<[id := 2%Z]> color, false)
       | next :: targets =>
         let c := default 0%Z (color !! next) in
         if (c =? 1)%Z then Some (color, true)
         else if (c =? 0)%Z then
           match visit fuel edges color next with
           | None => None
           | Some (color, true) => Some (color, true)
           | Some (color, false) => each color targets
           end
         else each color targets
       end) cur targets with
    | None => (S fuel < size (N ∖ grays color))%nat
    | Some (_, true) => ∃ x, tc E x x
    | Some (color', false) => finished color color' ∧ black color' id
    end).
  { induction targets as [|next targets IHt]; intros cur Ht Hs Hci Hcg Hcb.
    - assert (gray cur id) as Hgi by (apply Hcg; by left). split; [|by unfold black; rewrite lookup_insert_eq]. split; [|split].
      + apply finish_node; [done|done|]. intros y Hy. destruct (Hs y Hy) as [?%not_elem_of_nil|]; done.
      + intros x. unfold gray in *. destruct (decide (x = id)) as [->|Hx].
        * rewrite lookup_insert_eq, Hid. split; discriminate.
        * rewrite lookup_insert_ne by done. rewrite Hcg. tauto.
      + intros x Hx. unfold black in *. rewrite lookup_insert_ne by (intros <-; congruence). by apply Hcb.
    - cbv zeta. assert (E id next) as Hn by (apply Ht; left).
      assert (∀ g, gray cur g → rtc E g next) as Hgn.
      { intros g [->|Hgg]%Hcg; [by apply rtc_once|]. eapply rtc_r; [by apply Hg|done]. }
      destruct (cur !! next) as [c|] eqn:Hc; cbn [default].
      + destruct (proj1 Hci _ _ Hc) as [-> | ->]; cbn.
        * exists next. destruct (Hcg next) as [Hgr _]. destruct (Hgr Hc) as [->|Hgg]; [by apply tc_once|].
          eapply tc_rtc_l; [by apply Hg|]. by apply tc_once.
        * apply IHt; try done; [intros y Hy; apply Ht; by right|]. intros y Hy.
          destruct (Hs y Hy) as [[->|Hin]%elem_of_cons|Hb]; [by right|by left|by right].
      + cbn. pose proof (IH cur next (HN _ _ HidN Hn) Hc Hci Hgn) as Hv.
        destruct (visit fuel edges cur next) as [[cur' []]|]; [done| |rewrite (grays_left N color cur id) by done; lia].
        destruct Hv as ((Hci' & Hg' & Hb') & Hbn). apply IHt; [intros y Hy; apply Ht; by right| |done| |].
        * intros y Hy. destruct (Hs y Hy) as [[->|Hin]%elem_of_cons|Hb]; [by right|by left|right; by apply Hb'].
        * intros x. by rewrite Hg', Hcg.
        * intros x Hx. by apply Hb', Hcb. }
  apply Hloop.
  - done.
  - intros y Hy. by left.
  - destruct Hi as (Hv & Hc & Hn). unfold color_inv, black in *. split; [|split].
    + intros x c Hx. apply lookup_insert_Some in Hx as [[_ <-]|[_ Hx]]; [by left|by eapply Hv].
    + intros x y Hx Hxy. apply lookup_insert_Some in Hx as [[_ ?]|[_ Hx]]; [done|].
      specialize (Hc x y Hx Hxy). rewrite lookup_insert_ne; [done|]. intros <-. congruence.
    + intros x Hx. apply lookup_insert_Some in Hx as [[_ ?]|[_ Hx]]; [done|by apply Hn].
  - intros x. unfold gray. rewrite lookup_insert_Some. destruct (decide (id = x)) as [->|]; [tauto|]. split; [tauto|]. intros [->|]; tauto.
  - intros x Hx. unfold black in *. rewrite lookup_insert_ne; [done|]. intros <-. congruence.
Qed.

Lemma search_cycle_spec fuel order : ∀ color, (∀ x, x ∈ order → x ∈ N) → color_inv color → (∀ x, ¬ gray color x) → (size N ≤ fuel)%nat →
  match search_cycle fuel edges color order with
  | None => False
  | Some true => ∃ x, tc E x x
  | Some false => ∀ x, x ∈ order → ¬ tc E x x
  end.
Proof.
  induction order as [|id order IH]; intros color HoN Hi Hg Hf; cbn [search_cycle]; [by intros ? ?%not_elem_of_nil|].
  assert (∀ x, x ∈ order → x ∈ N) as HoN' by (intros ??; apply HoN; by right).
  assert (Hnext : ∀ cur, color_inv cur → (∀ x, ¬ gray cur x) → black cur id →
    match search_cycle fuel edges cur order with
    | None => False | Some true => ∃ x, tc E x x | Some false => ∀ x, x ∈ id :: order → ¬ tc E x x end).
  { intros cur Hci Hcg Hb. specialize (IH cur HoN' Hci Hcg Hf). destruct (search_cycle fuel edges cur order) as [[]|]; [done| |done].
    intros x [->|Hx]%elem_of_cons; [by apply Hci|by apply IH]. }
  destruct (color !! id) as [c|] eqn:Hc; cbn [default].
  - destruct (proj1 Hi _ _ Hc) as [-> | ->]; cbn; [by destruct (Hg id)|by apply Hnext].
  - cbn. pose proof (visit_spec fuel color id (HoN id ltac:(left)) Hc Hi (λ g Hgg, False_ind _ (Hg g Hgg))) as Hv.
    destruct (visit fuel edges color id) as [[color' []]|]; [done| |].
    + destruct Hv as ((Hi' & Hg' & _) & Hb). apply Hnext; [done| |done]. intros x Hx. by apply (Hg x), Hg'.
    + assert (size (N ∖ grays color) ≤ size N)%nat by (apply subseteq_size; set_solver). lia.
Qed.
End Cycle.

(** The search answers whether there is a cycle, whatever the order. *)
Lemma graphHasCycle_spec order nodes edges :
  (∀ x, x ∈ order ↔ is_Some (nodes !! x)) → (∀ x y, edge_rel edges x y → is_Some (nodes !! x) ∧ is_Some (nodes !! y)) →
  ∃ b, graphHasCycle order nodes edges = Some b ∧ (b = true ↔ ∃ x, tc (edge_rel edges) x x).
Proof.
  intros Ho He. unfold graphHasCycle, fuel_for. set (N := dom nodes).
  assert (closed_in edges N) as HN. { intros x y _ Hxy. unfold N. rewrite elem_of_dom. by apply He in Hxy as [_ ?]. }
  assert (color_inv edges ∅) as Hi. { split; [by intros ?? ?%lookup_empty_Some|]. split; by intros ? ? ?%lookup_empty_Some || intros ? ?%lookup_empty_Some. }
  pose proof (search_cycle_spec edges N HN (S (size nodes)) order ∅) as H. unfold N in H. rewrite size_dom in H.
  specialize (H (λ x Hx, proj2 (elem_of_dom nodes x) (proj1 (Ho x) Hx)) Hi). specialize (H ltac:(by intros x ?%lookup_empty_Some) ltac:(lia)).
  destruct (search_cycle (S (size nodes)) edges ∅ order) as [b|]; [|done]. exists b. split; [done|]. destruct b; [done|].
  split; [done|]. intros (x & Hx). exfalso. refine (H x _ Hx). apply Ho.
  assert (∃ y, edge_rel edges x y) as (y & Hy) by (inversion Hx; eauto). by apply He in Hy as [? _].
Qed.

(** ** The two walks of the validator *)

Lemma add_edge_rel edges from to x y : edge_rel (add_edge edges from to) x y ↔ edge_rel edges x y ∨ (x = from ∧ y = to).
Proof.
  unfold edge_rel, add_edge. destruct (decide (x = from)) as [->|Hx].
  - unfold successors_of at 1. rewrite lookup_insert_eq. cbn. rewrite elem_of_app, list_elem_of_singleton. tauto.
  - unfold successors_of at 1. rewrite lookup_insert_ne by done. fold (successors_of edges x). tauto.
Qed.

Lemma reverse_inner from l : ∀ rev x y, edge_rel (foldl (λ rev to, add_edge rev to from) rev l) x y ↔ edge_rel rev x y ∨ (x ∈ l ∧ y = from).
Proof.
  induction l as [|to l IH]; intros rev x y; cbn [foldl]; [split; [by left|]; by intros [?|[?%not_elem_of_nil _]]|].
  rewrite IH, add_edge_rel, elem_of_cons. tauto.
Qed.

Lemma reverse_rel order edges x y : edge_rel (reverse_edges order edges) y x ↔ x ∈ order ∧ edge_rel edges x y.
Proof.
  unfold reverse_edges. assert (∀ rev, edge_rel (foldl (λ rev from, foldl (λ rev to, add_edge rev to from) rev (successors_of edges from)) rev order) y x
    ↔ edge_rel rev y x ∨ (x ∈ order ∧ edge_rel edges x y)) as ->.
  { induction order as [|from order IH]; intros rev; cbn [foldl]; [split; [by left|]; by intros [?|[?%not_elem_of_nil _]]|].
    rewrite IH, reverse_inner, elem_of_cons. unfold edge_rel at 2. split; [intros [[?|[? ->]]|?]; tauto|]. intros [?|[[->|?] ?]]; tauto. }
  split; [intros [H|H]; [|done]|by right]. unfold edge_rel, successors_of in H. rewrite lookup_empty in H. by apply not_elem_of_nil in H.
Qed.

Section Validator.
Context (nodes : gmap string NodeSpec) (edges : adjacency).
Context (Hedges : ∀ x y, edge_rel edges x y → is_Some (nodes !! x) ∧ is_Some (nodes !! y)).

Lemma validateReachability_spec entry : is_Some (nodes !! entry) →
  ∃ r, validateReachability entry nodes edges = Some r ∧ (r = Ok tt ↔ ∀ id, is_Some (nodes !! id) → rtc (edge_rel edges) entry id).
Proof.
  intros He. unfold validateReachability.
  destruct (walk_total edges (dom nodes) (fuel_for nodes)) with (seen := {[entry]} : gset string) (queue := [entry]) as [seen Hw].
  - intros x y _ Hxy. apply elem_of_dom. by apply Hedges in Hxy as [_ ?].
  - intros x ->%elem_of_singleton. by apply elem_of_dom.
  - intros x ->%list_elem_of_singleton. by apply elem_of_dom.
  - unfold fuel_for. assert (size (dom nodes ∖ {[entry]}) ≤ size (dom nodes))%nat as Hs by (apply subseteq_size; set_solver).
    rewrite size_dom in Hs. cbn. lia.
  - rewrite Hw. eexists. split; [done|].
    pose proof (walk_spec edges {[entry]} (fuel_for nodes) {[entry]} [entry] seen) as Hs. specialize (Hs ltac:(intros x y ->%elem_of_singleton _; left; left)
      ltac:(intros x ->%list_elem_of_singleton; by apply elem_of_singleton) ltac:(done)).
    specialize (Hs ltac:(intros y ->%elem_of_singleton; exists entry; split; [set_solver|done]) Hw).
    case_bool_decide as Hall; (split; [|done || intros H]).
    + intros _ id [n Hn]. apply Hall, Hs in Hn as (x & ->%elem_of_singleton & ?). done.
    + done.
    + exfalso. apply Hall. intros id n Hn. apply Hs. exists entry. split; [set_solver|]. apply H. by eexists.
Qed.

Lemma is_terminal_lookup id : is_terminal nodes id = true ↔ ∃ n, nodes !! id = Some n ∧ n_Terminal n = true.
Proof. unfold is_terminal. destruct (nodes !! id) as [n|]; [|split; [done|by intros (? & ? & _)]]. split; [eauto|]. by intros (? & [= <-] & ?). Qed.

Lemma rtc_reversed order x y : (∀ x, x ∈ order ↔ is_Some (nodes !! x)) →
  rtc (edge_rel (reverse_edges order edges)) y x ↔ rtc (edge_rel edges) x y.
Proof.
  intros Ho. split.
  - induction 1 as [x|y z x H _ IH]; [done|]. apply reverse_rel in H as [_ H]. by eapply rtc_r.
  - induction 1 as [x|x z y H _ IH]; [done|]. eapply rtc_r; [exact IH|]. apply reverse_rel. split; [|done]. apply Ho. by apply Hedges in H as [? _].
Qed.

Lemma validateTerminalPaths_spec order : NoDup order → (∀ x, x ∈ order ↔ is_Some (nodes !! x)) →
  ∃ r, validateTerminalPaths order nodes edges = Some r
       ∧ (r = Ok tt ↔ (∃ t, is_terminal nodes t = true)
                      ∧ ∀ id, is_Some (nodes !! id) → ∃ t, is_terminal nodes t = true ∧ rtc (edge_rel edges) id t).
Proof.
  intros Hnd Ho. unfold validateTerminalPaths. set (terminal := filter (λ id, is_terminal nodes id = true) order). cbv zeta.
  assert (∀ x, x ∈ terminal ↔ is_terminal nodes x = true) as Ht.
  { intros x. unfold terminal. rewrite list_elem_of_filter. split; [tauto|]. intros H. split; [done|]. apply Ho.
    apply is_terminal_lookup in H as (n & -> & _). by eexists. }
  case_bool_decide as Hempty.
  { eexists. split; [done|]. split; [done|]. intros [(t & Htt%Ht) _]. rewrite Hempty in Htt. by apply not_elem_of_nil in Htt. }
  assert (∀ x, x ∈ terminal → x ∈ dom nodes) as Htn. { intros x Hx. apply elem_of_dom. apply Ht, is_terminal_lookup in Hx as (n & -> & _). by eexists. }
  destruct (walk_total (reverse_edges order edges) (dom nodes) (fuel_for nodes)) with (seen := list_to_set terminal : gset string) (queue := terminal) as [seen Hw].
  - intros x y _ Hxy. apply elem_of_dom. apply reverse_rel in Hxy as [? _]. by apply Ho.
  - intros x Hx%elem_of_list_to_set. by apply Htn.
  - done.
  - unfold fuel_for. rewrite <- (size_list_to_set (C:=gset string) terminal) by (by apply NoDup_filter).
    rewrite size_difference by (intros x Hx%elem_of_list_to_set; by apply Htn). rewrite size_dom.
    assert (size (list_to_set terminal : gset string) ≤ size (dom nodes))%nat as Hs by (apply subseteq_size; intros x Hx%elem_of_list_to_set; by apply Htn).
    rewrite size_dom in Hs. lia.
  - rewrite Hw. eexists. split; [done|].
    pose proof (walk_spec (reverse_edges order edges) (list_to_set terminal) (fuel_for nodes) (list_to_set terminal) terminal seen) as Hs.
    specialize (Hs ltac:(intros x y Hx%elem_of_list_to_set _; by left) ltac:(intros x Hx; by apply elem_of_list_to_set) ltac:(done)).
    specialize (Hs ltac:(intros y Hy; exists y; split; [done|apply rtc_refl]) Hw).
    assert (∀ y, y ∈ seen ↔ ∃ t, is_terminal nodes t = true ∧ rtc (edge_rel edges) y t) as Hseen.
    { intros y. rewrite Hs. split; intros (t & Htt & Hr); exists t; rewrite ?elem_of_list_to_set, ?Ht in *; split; try done; by apply (rtc_reversed order). }
    clear Hs Hw. case_bool_decide as Hall; (split; [|done || intros [_ H]]).
    + intros _. split. { destruct terminal as [|t ?]; [done|]. exists t. apply Ht. left. }
      intros id [n Hn]. destruct (Hall _ _ Hn) as [Hterm|?%Hseen]; [|done]. exists id. split; [|done]. apply is_terminal_lookup. eauto.
    + done.
    + exfalso. apply Hall. intros id n Hn. right. apply Hseen, H. by eexists.
Qed.
End Validator.

Open Scope Z_scope.

Definition node_of (d : Definition_) (id : string) (n : NodeSpec) : Prop := n ∈ d_Nodes d ∧ n_ID n = id.
Definition all_rel (d : Definition_) (x y : string) : Prop := ∃ e, e ∈ d_Edges d ∧ e_From e = x ∧ e_To e = y.
Definition success_rel (d : Definition_) (x y : string) : Prop := ∃ e, e ∈ d_Edges d ∧ e_Kind e ≠ EdgeError ∧ e_From e = x ∧ e_To e = y.
Definition terminal_of (d : Definition_) (id : string) : Prop := ∃ n, node_of d id n ∧ n_Terminal n = true.

(** The shape a graph must have to be executed. *)
Record well_shaped (d : Definition_) : Prop := {
  ws_terminal : ∀ id n, node_of d id n → n_Terminal n = true → ∀ y, ¬ all_rel d id y;
  ws_progress : ∀ id n, node_of d id n → n_Terminal n = false → ∃ y, success_rel d id y;
  ws_reachable : ∀ id n, node_of d id n → rtc (all_rel d) (d_EntryNode d) id;
  ws_ends : ∃ t, terminal_of d t;
  ws_ending : ∀ id n, node_of d id n → ∃ t, terminal_of d t ∧ rtc (success_rel d) id t;
  ws_cycles : (∃ x, tc (all_rel d) x x) → 0 < li_MaxVisitsPerNode (d_Limits d) }.

(** The keys under which at most one edge may leave a node. *)
Definition single_key (e : EdgeSpec) : option (string * EdgeKind) :=
  match e_Kind e with EdgeDefault | EdgeError => Some (e_From e, e_Kind e) | _ => None end.
Definition conditional_key (e : EdgeSpec) : option (string * string) :=
  match e_Kind e with EdgeConditional => Some (e_From e, e_Predicate e) | _ => None end.

(** ** The loops of the validator *)

Lemma collect_nodes_spec fields kinds l : ∀ nodes nodes', rfold (collect_node fields kinds) nodes l = Ok nodes' →
  (∀ n, n ∈ l → nodes !! n_ID n = None ∧ validateNode n fields kinds = Ok tt) ∧ NoDup (n_ID <$> l)
  ∧ ∀ id n, nodes' !! id = Some n ↔ nodes !! id = Some n ∨ (n ∈ l ∧ n_ID n = id).
Proof.
  induction l as [|m l IH]; intros nodes nodes' H; cbn [rfold] in H.
  { injection H as <-. split; [by intros ? ?%not_elem_of_nil|]. split; [constructor|]. intros id n. split; [by left|]. by intros [?|[?%not_elem_of_nil _]]. }
  apply rbind_ok in H as (n1 & H1 & H). unfold collect_node in H1. apply rbind_ok in H1 as ([] & Hv & H1).
  apply fail_if_ok in H1 as [Hd [= <-]]. bool_to_prop. apply eq_None_not_Some in Hd.
  apply IH in H as (Hl & Hnd & Hin). split; [|split].
  - intros n [->|Hn]%elem_of_cons; [done|]. destruct (Hl n Hn) as [Hi ?]. split; [|done]. by apply lookup_insert_None in Hi as [? _].
  - rewrite fmap_cons. constructor; [|done]. intros (n & Heq & Hn)%list_elem_of_fmap. destruct (Hl n Hn) as [Hi _].
    rewrite <- Heq, lookup_insert_eq in Hi. done.
  - intros id n. rewrite Hin, lookup_insert_Some, elem_of_cons. split.
    + intros [[[<- <-]|[_ ?]]|[? ?]]; [right; tauto|by left|right; tauto].
    + intros [Hn|[[->|Hn] <-]]; [|by left; left|by right]. left. right. split; [intros <-; congruence|done].
Qed.

Definition acc_keys (acc : edge_acc) (l : list EdgeSpec) : Prop :=
  (∀ e, e ∈ l → (∀ f k, single_key e = Some (f, k) → (f, edge_text k) ∉ ea_kinds acc)
               ∧ (∀ p, conditional_key e = Some p → p ∉ ea_predicates acc))
  ∧ NoDup (omap single_key l) ∧ NoDup (omap conditional_key l).

Lemma collect_edges_spec nodes predicates l : ∀ acc acc', rfold (collect_edge nodes predicates) acc l = Ok acc' →
  (∀ e, e ∈ l → validateEdge e nodes predicates = Ok tt) ∧ acc_keys acc l
  ∧ (∀ x y, edge_rel (ea_all acc') x y ↔ edge_rel (ea_all acc) x y ∨ ∃ e, e ∈ l ∧ e_From e = x ∧ e_To e = y)
  ∧ (∀ x y, edge_rel (ea_success acc') x y ↔ edge_rel (ea_success acc) x y ∨ ∃ e, e ∈ l ∧ e_Kind e ≠ EdgeError ∧ e_From e = x ∧ e_To e = y).
Proof.
  induction l as [|e l IH]; intros acc acc' H; cbn [rfold] in H.
  { injection H as <-. split; [by intros ? ?%not_elem_of_nil|]. split; [|by split; intros x y; (split; [by left|]); intros [?|(? & ?%not_elem_of_nil & _)]].
    split; [by intros ? ?%not_elem_of_nil|]. split; constructor. }
  apply rbind_ok in H as (acc1 & H1 & H). unfold collect_edge in H1. cbv zeta in H1. apply rbind_ok in H1 as ([] & Hv & H1).
  rewrite !fail_if_ok in H1. destruct H1 as (Hk & Hp & Heq).
  apply IH in H as (Hl & (Hkeys & Hnd1 & Hnd2) & Hall & Hsucc).
  assert (Hacc : ea_all acc1 = add_edge (ea_all acc) (e_From e) (e_To e)
    ∧ ea_success acc1 = match e_Kind e with EdgeError => ea_success acc | _ => add_edge (ea_success acc) (e_From e) (e_To e) end
    ∧ (∀ p, p ∈ ea_kinds acc → p ∈ ea_kinds acc1) ∧ (∀ p, p ∈ ea_predicates acc → p ∈ ea_predicates acc1)
    ∧ (∀ f k, single_key e = Some (f, k) → (f, edge_text k) ∉ ea_kinds acc ∧ (f, edge_text k) ∈ ea_kinds acc1)
    ∧ (∀ p, conditional_key e = Some p → p ∉ ea_predicates acc ∧ p ∈ ea_predicates acc1)).
  { injection Heq as <-. cbn [ea_all ea_success ea_kinds ea_predicates]. unfold single_key, conditional_key. split; [done|]. split; [done|].
    destruct (e_Kind e) eqn:Hke; cbn in Hk, Hp; bool_to_prop; (split; [set_solver|]); (split; [set_solver|]); split; intros;
      simplify_eq; cbn; split; set_solver. }
  destruct Hacc as (Ha & Hs & Hmk & Hmp & Hsk & Hck). split; [|split; [|split]].
  - intros e' [->|He]%elem_of_cons; [done|by apply Hl].
  - split; [|split].
    + intros e' [->|He]%elem_of_cons; [split; intros; [by eapply Hsk|by eapply Hck]|].
      destruct (Hkeys e' He) as [H1 H2]. split; [intros f k Hf Hin; by apply (H1 f k Hf), Hmk|intros p Hpp Hin; by apply (H2 p Hpp), Hmp].
    + cbn. destruct (single_key e) as [[f k]|] eqn:Hse; [|done]. constructor; [|done].
      intros (e' & He' & Hke')%list_elem_of_omap. destruct (Hkeys e' He') as [H1 _]. apply (H1 f k Hke'). by eapply Hsk.
    + cbn. destruct (conditional_key e) as [p|] eqn:Hce; [|done]. constructor; [|done].
      intros (e' & He' & Hke')%list_elem_of_omap. destruct (Hkeys e' He') as [_ H2]. apply (H2 p Hke'). by eapply Hck.
  - intros x y. rewrite Hall, Ha, add_edge_rel. setoid_rewrite elem_of_cons. split.
    + intros [[?|[-> ->]]|(e' & ? & ?)]; [by left|right; exists e; tauto|right; exists e'; tauto].
    + intros [?|(e' & [->|?] & ? & ?)]; [by left; left|left; right; by split|right; exists e'; tauto].
  - intros x y. rewrite Hsucc, Hs. setoid_rewrite elem_of_cons.
    assert (edge_rel (match e_Kind e with EdgeError => ea_success acc | _ => add_edge (ea_success acc) (e_From e) (e_To e) end) x y
      ↔ edge_rel (ea_success acc) x y ∨ (e_Kind e ≠ EdgeError ∧ x = e_From e ∧ y = e_To e)) as ->.
    { destruct (e_Kind e); rewrite ?add_edge_rel; intuition congruence. }
    split.
    + intros [[?|(? & -> & ->)]|(e' & ? & ?)]; [by left|right; exists e; tauto|right; exists e'; tauto].
    + intros [?|(e' & [->|?] & ? & ? & ?)]; [by left; left|left; right; by split|right; exists e'; tauto].
Qed.

Lemma empty_rel x y : ¬ edge_rel ∅ x y.
Proof. unfold edge_rel, successors_of. rewrite lookup_empty. apply not_elem_of_nil. Qed.

Lemma validateEdge_nodes e nodes predicates : validateEdge e nodes predicates = Ok tt → is_Some (nodes !! e_From e) ∧ is_Some (nodes !! e_To e).
Proof. unfold validateEdge. rewrite !fail_if_ok. intros (_ & _ & H1 & H2 & _). by bool_to_prop. Qed.

(** What acceptance of the parts says of the definition. *)
Lemma collect_spec d kinds reducers predicates nodes acc : collect d kinds reducers predicates = Ok (nodes, acc) →
  NoDup (n_ID <$> d_Nodes d) ∧ is_Some (nodes !! d_EntryNode d)
  ∧ (∀ id n, nodes !! id = Some n ↔ node_of d id n)
  ∧ (∀ e, e ∈ d_Edges d → is_Some (nodes !! e_From e) ∧ is_Some (nodes !! e_To e))
  ∧ (∀ x y, edge_rel (ea_all acc) x y ↔ all_rel d x y) ∧ (∀ x y, edge_rel (ea_success acc) x y ↔ success_rel d x y)
  ∧ NoDup (omap single_key (d_Edges d)) ∧ NoDup (omap conditional_key (d_Edges d)).
Proof.
  unfold collect. rewrite !fail_if_ok. intros (_ & _ & _ & _ & _ & _ & _ & H).
  apply rbind_ok in H as (fields & _ & H). apply rbind_ok in H as ([] & _ & H). apply rbind_ok in H as (nodes' & Hn & H).
  apply fail_if_ok in H as [He H]. apply rbind_ok in H as (acc' & Hacc & [= -> ->]). bool_to_prop.
  apply collect_nodes_spec in Hn as (_ & Hnd & Hin). apply collect_edges_spec in Hacc as (Hv & (_ & Hk1 & Hk2) & Hall & Hsucc).
  split; [done|]. split; [done|]. split; [|split; [|split; [|split; [|done]]]].
  - intros id n. rewrite Hin, lookup_empty. unfold node_of. split; [by intros [?|?]|by right].
  - intros e Hin'. by eapply validateEdge_nodes, Hv.
  - intros x y. rewrite Hall. cbn. unfold all_rel. split; [intros [?%empty_rel|?]; done|by right].
  - intros x y. rewrite Hsucc. cbn. unfold success_rel. split; [intros [?%empty_rel|?]; done|by right].
Qed.

Lemma rel_equiv (R S : string → string → Prop) : (∀ x y, R x y ↔ S x y) → (∀ x y, rtc R x y ↔ rtc S x y) ∧ (∀ x y, tc R x y ↔ tc S x y).
Proof.
  intros H. assert (∀ (P Q : string → string → Prop), (∀ x y, P x y → Q x y) → ∀ x y, rtc P x y → rtc Q x y) as Hr.
  { intros P Q HPQ x y Hxy. induction Hxy; [done|]. eapply rtc_l; [by apply HPQ|done]. }
  assert (∀ (P Q : string → string → Prop), (∀ x y, P x y → Q x y) → ∀ x y, tc P x y → tc Q x y) as Ht.
  { intros P Q HPQ x y Hxy. induction Hxy; [by apply tc_once, HPQ|]. eapply tc_l; [by apply HPQ|done]. }
  split; intros x y; split; (apply Hr || apply Ht); intros; by apply H.
Qed.

Lemma no_successors (edges : adjacency) x : successors_of edges x = [] ↔ ∀ y, ¬ edge_rel edges x y.
Proof.
  unfold edge_rel. split; [intros -> y; apply not_elem_of_nil|]. intros H. destruct (successors_of edges x) as [|y l]; [done|]. destruct (H y). left.
Qed.

(** The checks of the outgoing edges. *)
Lemma outgoing_spec d (nodes : gmap string NodeSpec) acc :
  (∀ id n, nodes !! id = Some n ↔ node_of d id n) → (∀ x y, edge_rel (ea_all acc) x y ↔ all_rel d x y) →
  (∀ x y, edge_rel (ea_success acc) x y ↔ success_rel d x y) →
  map_Forall (λ id node, outgoing_ok acc id node = true) nodes ↔
  (∀ id n, node_of d id n → n_Terminal n = true → ∀ y, ¬ all_rel d id y) ∧ (∀ id n, node_of d id n → n_Terminal n = false → ∃ y, success_rel d id y).
Proof.
  intros Hn Ha Hs. unfold outgoing_ok. split.
  - intros H. split; intros id n Hid%Hn Ht; specialize (H id n Hid); cbn in H; rewrite Ht in H; bool_to_prop.
    + intros y Hy%Ha. apply (proj1 (no_successors _ _) H y Hy).
    + destruct (successors_of (ea_success acc) id) as [|y l] eqn:Hl; [done|]. exists y. apply Hs. unfold edge_rel. rewrite Hl. left.
  - intros [H1 H2] id n Hid. cbn. destruct (n_Terminal n) eqn:Ht.
    + apply bool_decide_eq_true, no_successors. intros y Hy%Ha. by eapply H1; [apply Hn|..].
    + apply negb_true_iff, bool_decide_eq_false. intros Hemp. destruct (H2 id n) as [y Hy%Hs]; [by apply Hn|done|]. by apply (proj1 (no_successors _ _) Hemp y).
Qed.

(** An order in which Go may visit the node map. *)
Definition visits_nodes (d : Definition_) (order : list string) : Prop := NoDup order ∧ ∀ id, id ∈ order ↔ ∃ n, node_of d id n.

Lemma check_shape_spec d kinds reducers predicates nodes acc order :
  visits_nodes d order → collect d kinds reducers predicates = Ok (nodes, acc) →
  ∃ r, check_shape order d nodes acc = Some r ∧ (r = Ok tt ↔ well_shaped d).
Proof.
  intros [Hnd Ho] (_ & Hentry & Hn & He & Ha & Hs & _)%collect_spec. unfold check_shape.
  assert (∀ id, is_Some (nodes !! id) ↔ ∃ n, node_of d id n) as Hsome. { intros id. split; intros [n H]; exists n; by apply Hn. }
  assert (∀ x y, all_rel d x y → is_Some (nodes !! x) ∧ is_Some (nodes !! y)) as Hends by (intros x y (e & Hin & <- & <-); by apply He).
  assert (∀ x y, edge_rel (ea_all acc) x y → is_Some (nodes !! x) ∧ is_Some (nodes !! y)) as HeA by (intros ?? ?%Ha; by apply Hends).
  assert (∀ x y, edge_rel (ea_success acc) x y → is_Some (nodes !! x) ∧ is_Some (nodes !! y)) as HeS.
  { intros x y (e & Hin & _ & <- & <-)%Hs. by apply He. }
  assert (∀ x, x ∈ order ↔ is_Some (nodes !! x)) as Ho' by (intros x; by rewrite Ho, Hsome).
  pose proof (outgoing_spec d nodes acc Hn Ha Hs) as Hout.
  destruct (rel_equiv _ _ Ha) as [HrA HtA]. destruct (rel_equiv _ _ Hs) as [HrS _].
  assert (∀ t, is_terminal nodes t = true ↔ terminal_of d t) as Hterm.
  { intros t. rewrite is_terminal_lookup. split; intros (n & H1 & H2); exists n; (split; [by apply Hn|done]). }
  case_bool_decide as Hok; cbn [negb].
  2: { eexists. split; [done|]. split; [done|]. intros W. destruct Hok. apply Hout. split; apply W. }
  apply Hout in Hok as [Ht Hp].
  destruct (validateReachability_spec nodes (ea_all acc) HeA (d_EntryNode d) Hentry) as (r1 & -> & Hr1).
  destruct r1 as [[]|e1].
  2: { eexists. split; [done|]. split; [done|]. intros W. destruct Hr1 as [_ Hr1]. discriminate Hr1. intros id (n & Hid)%Hsome. apply HrA. by apply (ws_reachable d W id n). }
  destruct (validateTerminalPaths_spec nodes (ea_success acc) HeS order Hnd Ho') as (r2 & -> & Hr2).
  destruct r2 as [[]|e2].
  2: { eexists. split; [done|]. split; [done|]. intros W. destruct Hr2 as [_ Hr2]. discriminate Hr2.
       split; [destruct (ws_ends d W) as [t Htt]; exists t; by apply Hterm|]. intros id (n & Hid)%Hsome.
       destruct (ws_ending d W id n Hid) as (t & Htt & Hr). exists t. split; [by apply Hterm|by apply HrS]. }
  destruct (graphHasCycle_spec order nodes (ea_all acc) Ho' HeA) as (b & -> & Hb).
  eexists. split; [done|]. unfold fail_if.
  assert ((∃ x, tc (edge_rel (ea_all acc)) x x) ↔ ∃ x, tc (all_rel d) x x) as Hcyc by (split; intros [x Hx]; exists x; by apply HtA).
  destruct Hr1 as [Hr1 _]. destruct Hr2 as [Hr2 _]. specialize (Hr1 eq_refl). destruct (Hr2 eq_refl) as [[t Htt] Hend].
  split.
  - intros Hfin. split; [done|done| |exists t; by apply Hterm| |].
    + intros id n Hid. apply HrA, Hr1, Hsome. by exists n.
    + intros id n Hid. destruct (Hend id) as (t' & Ht' & Hr'); [apply Hsome; by exists n|]. exists t'. split; [by apply Hterm|by apply HrS].
    + intros Hx%Hcyc%Hb. rewrite Hx in Hfin. cbn in Hfin. destruct (Z.leb_spec (li_MaxVisitsPerNode (d_Limits d)) 0); [done|lia].
  - intros W. destruct b; [|done]. cbn. destruct (Z.leb_spec (li_MaxVisitsPerNode (d_Limits d)) 0); [|done].
    pose proof (ws_cycles d W (proj1 Hcyc (proj1 Hb eq_refl))). lia.
Qed.

(** C12.  The graph validator accepts exactly the well-shaped graphs.  Whatever
    the order in which the node map is visited, validation ends with an answer,
    and the answer is acceptance exactly when every part is valid on its own and
    the graph is well-shaped: terminal nodes have no outgoing edge, every other
    node has a success edge, every node is reachable from the entry and reaches
    a terminal node over success edges, and a graph with a cycle bounds the
    visits of a node. *)
Theorem validator_accepts_well_shaped_graphs order d kinds reducers predicates :
  visits_nodes d order →
  ∃ r, validateDefinition order d kinds reducers predicates = Some r
       ∧ (r = Ok tt ↔ is_ok (collect d kinds reducers predicates) = true ∧ well_shaped d).
Proof.
  intros Ho. unfold validateDefinition. destruct (collect d kinds reducers predicates) as [[nodes acc]|e] eqn:Hc.
  - destruct (check_shape_spec _ _ _ _ _ _ _ Ho Hc) as (r & -> & Hr). exists r. split; [done|]. rewrite Hr. cbn. tauto.
  - eexists. split; [done|]. split; [done|]. by intros [? _].
Qed.

Lemma ex_visits : visits_nodes ex_graph_def ex_order.
Proof.
  split; [by apply (bool_decide_unpack _); vm_compute|]. intros id. unfold node_of, ex_order, ex_graph_def. cbn [d_Nodes].
  rewrite !elem_of_cons. setoid_rewrite elem_of_cons. setoid_rewrite elem_of_cons. setoid_rewrite elem_of_cons.
  pose proof (λ n : NodeSpec, not_elem_of_nil n). pose proof (not_elem_of_nil id). split.
  - intros [->|[->|[->|?]]]; [eexists (ex_node "c" true 0)|eexists (ex_node "a" false 2)|eexists (ex_node "b" false 0)|done]; naive_solver.
  - intros (n & [->|[->|[->|?]]] & <-); naive_solver.
Qed.

Lemma validator_accepts_well_shaped_graphs_witness : well_shaped ex_graph_def.
Proof.
  destruct (validator_accepts_well_shaped_graphs ex_order ex_graph_def ex_kinds ex_reducers ex_predicates ex_visits) as (r & Hr & Hiff).
  rewrite ex_graph_accepted in Hr. injection Hr as <-. apply Hiff. reflexivity.
Defined.
