(* ===== verification/GraphStore.v ===== *)
(** * The in-memory checkpoint store

    [pkg/adapter/memory/graphcheckpoint/store.go], and the contract of a
    checkpoint store that graph execution relies on ([graph.Store]).

    An operation takes what the context answers when it is first checked and
    when the lock is held ([ctx], [ctx']), and the time ([now], nanoseconds). *)
From S2P Require Import Prelude GoString Json Sha256 GraphContract.
From stdpp Require Import gmap strings list sorting.
From Stdlib Require Import ZArith Lia.
Open Scope Z_scope.

(** ** The contract *)

(** What a commit leaves of the submitted checkpoint: its state canonical. *)
Definition stored_as (submitted stored : Checkpoint) : Prop := ValidateCheckpoint submitted = Ok stored.

(** The current head can be replaced by [next] with transition [t]. *)
Record may_follow (head next : Checkpoint) (t : Transition) : Prop := {
  mf_key : cp_Key next = cp_Key head;
  mf_revision : cp_Revision next = u64_succ (cp_Revision head);
  mf_identity : t_Revision t = cp_Revision next ∧ t_AttemptID t = cp_AttemptID next;
  mf_from : t_From t = cp_Status head;
  mf_to : t_To t = cp_Status next;
  mf_legal : legalTransition (cp_Status head) (cp_Status next) = true;
  mf_source : t_SourceSegmentID t = cp_SegmentID head ∧ t_SourceHostGeneration t = cp_HostGeneration head
              ∧ t_SourceNodeID t = cp_CurrentNodeID head ∧ t_SourceAttemptID t = cp_AttemptID head;
  mf_resume : cp_Status head = CheckpointWaitingApproval → cp_Status next = CheckpointReady →
              cp_AttemptID next = cp_AttemptID head ∧ approval_outcome (t_OutcomeCode t) = true }.

(** A store with its heads and transition logs; the log of a run is in the
    order of the commits. *)
Class CheckpointStore (St : Type) := {
  st_head : St → CheckpointKey → option Checkpoint;
  st_log : St → CheckpointKey → list Transition;
  st_inv : St → Prop;
  st_load : CheckpointKey → St → result Checkpoint → Prop;
  st_create : Checkpoint → Transition → St → result (Checkpoint * CommitDisposition) → St → Prop;
  st_cas : CheckpointKey → Z → Checkpoint → Transition → St → result (Checkpoint * CommitDisposition) → St → Prop }.

(** Everything but the run of [key] is as before. *)
Definition same_elsewhere `{CheckpointStore St} (key : CheckpointKey) (s s' : St) : Prop :=
  ∀ k, k ≠ key → st_head s' k = st_head s k ∧ st_log s' k = st_log s k.

Definition unchanged `{CheckpointStore St} (s s' : St) : Prop := ∀ k, st_head s' k = st_head s k ∧ st_log s' k = st_log s k.

Class CheckpointStoreLaws (St : Type) `{CheckpointStore St} := {
  law_load : ∀ key s c, st_load key s (Ok c) → st_head s key = Some c;
  law_create : ∀ c t s c' d s', st_inv s → st_create c t s (Ok (c', d)) s' →
    stored_as c c' ∧ cp_Revision c' = 1 ∧ cp_Status c' = CheckpointReady ∧
    (d = CommitApplied ∧ st_head s (cp_Key c) = None ∧ st_head s' (cp_Key c) = Some c' ∧ st_log s' (cp_Key c) = [t] ∧ same_elsewhere (cp_Key c) s s'
     ∨ d = CommitReplayed ∧ unchanged s s' ∧ st_head s (cp_Key c) = Some c');
  law_create_error : ∀ c t s e s', st_inv s → st_create c t s (Err e) s' → unchanged s s';
  law_cas : ∀ key expected next t s c' d s', st_inv s → st_cas key expected next t s (Ok (c', d)) s' →
    stored_as next c' ∧ cp_Key c' = key ∧
    (d = CommitApplied ∧ (∃ head, st_head s key = Some head ∧ cp_Revision head = expected ∧ may_follow head c' t)
       ∧ st_head s' key = Some c' ∧ st_log s' key = st_log s key ++ [t] ∧ same_elsewhere key s s'
     ∨ d = CommitReplayed ∧ unchanged s s' ∧ st_head s key = Some c');
  law_cas_error : ∀ key expected next t s e s', st_inv s → st_cas key expected next t s (Err e) s' → unchanged s s';
  law_head : ∀ s key c, st_inv s → st_head s key = Some c → cp_Key c = key ∧ stored_as c c ∧ 0 < cp_Revision c < 2 ^ 63;
  law_create_inv : ∀ c t s r s', st_inv s → st_create c t s r s' → st_inv s';
  law_cas_inv : ∀ key expected next t s r s', st_inv s → st_cas key expected next t s r s' → st_inv s' }.

(** ** The implementation *)

Record record_ := mk_record { r_checkpoint : Checkpoint; r_transitions : gmap Z Transition; r_versions : gmap Z CheckpointVersion }.

Record Store := mk_store {
  s_maxCheckpoints : Z; s_maxTransitions : Z; s_records : gmap CheckpointKey record_; s_transitions : Z }.

Definition DefaultMaxCheckpoints : Z := 1024.
Definition DefaultMaxTransitions : Z := MaxCheckpointTransitions.

Definition New (maxCheckpoints maxTransitions : Z) : result Store :=
  fail_when (maxCheckpoints <=? 0) || (MaxCheckpointTransitions <? maxCheckpoints) || (maxTransitions <=? 0)
            || (MaxCheckpointTransitions <? maxTransitions) || (maxTransitions <? maxCheckpoints)
    with "graph memory checkpoint capacities are invalid" ;;
  Ok (mk_store maxCheckpoints maxTransitions ∅ 0).

Definition Load (ctx : result unit) (key : CheckpointKey) (s : Store) : result Checkpoint :=
  let! _ := ctx in
  let! _ := ValidateCheckpointKey key in
  match s_records s !! key with
  | None => Err ErrCheckpointNotFound
  | Some record => Ok (r_checkpoint record)
  end.

Definition sameCheckpoint (left right : Checkpoint) : bool := bool_decide (left = right).

(** A missing transition is the zero value, which no valid transition equals. *)
Definition sameTransition (left : option Transition) (right : Transition) : bool := bool_decide (left = Some right).

Definition versionForCheckpoint (now : Z) (checkpoint : Checkpoint) (parentID : string) (origin : CheckpointVersionOrigin) : result CheckpointVersion :=
  let! hash := CheckpointDigest checkpoint in
  ValidateCheckpointVersion
    (mk_version (mk_info (CheckpointVersionID (cp_Key checkpoint) (cp_Revision checkpoint)) parentID origin (cp_Key checkpoint)
                   (cp_Revision checkpoint) hash now) checkpoint).

Definition validateTransitionSource (t : Transition) (previous : Checkpoint) : bool :=
  bool_decide (cp_CurrentNodeID previous = "")
  || (bool_decide (t_SourceSegmentID t = cp_SegmentID previous) && (t_SourceHostGeneration t =? cp_HostGeneration previous)
      && bool_decide (t_SourceNodeID t = cp_CurrentNodeID previous) && bool_decide (t_SourceAttemptID t = cp_AttemptID previous)).

(** The checks of [Create] before the lock is taken. *)
Definition create_checks (checkpoint : Checkpoint) (t : Transition) : result (Checkpoint * Transition) :=
  let! checkpoint := ValidateCheckpoint checkpoint in
  fail_when negb (cp_Revision checkpoint =? 1) || negb (bool_decide (cp_Status checkpoint = CheckpointReady)) with ErrInvalidCheckpoint ;;
  let! t := ValidateTransition t checkpoint in
  Ok (checkpoint, t).

Definition Create (ctx ctx' : result unit) (now : Z) (checkpoint : Checkpoint) (t : Transition) (s : Store) :
    result (Checkpoint * CommitDisposition) * Store :=
  match (let! _ := ctx in let! ct := create_checks checkpoint t in let! _ := ctx' in Ok ct) with
  | Err e => (Err e, s)
  | Ok (checkpoint, t) =>
    match s_records s !! cp_Key checkpoint with
    | Some existing =>
      if sameCheckpoint (r_checkpoint existing) checkpoint && sameTransition (r_transitions existing !! t_Revision t) t
      then (Ok (r_checkpoint existing, CommitReplayed), s) else (Err ErrCheckpointConflict, s)
    | None =>
      if (s_maxCheckpoints s <=? Z.of_nat (size (s_records s))) || (s_maxTransitions s <=? s_transitions s)
      then (Err ErrCheckpointCapacity, s)
      else match versionForCheckpoint now checkpoint "" CheckpointVersionOriginCommit with
           | Err e => (Err e, s)
           | Ok version =>
             (Ok (checkpoint, CommitApplied),
              mk_store (s_maxCheckpoints s) (s_maxTransitions s)
                (<[cp_Key checkpoint := mk_record checkpoint {[t_Revision t := t]} {[cp_Revision checkpoint := version]}]> (s_records s))
                (s_transitions s + 1))
           end
    end
  end.

(** The checks of [CompareAndSwap] before the lock is taken. *)
Definition cas_checks (key : CheckpointKey) (expectedRevision : Z) (next : Checkpoint) (t : Transition) : result (Checkpoint * Transition) :=
  let! _ := ValidateCheckpointKey key in
  let! next := ValidateCheckpoint next in
  fail_when negb (bool_decide (cp_Key next = key)) || (expectedRevision =? 0) || negb (cp_Revision next =? u64_succ expectedRevision)
    with ErrInvalidCheckpoint ;;
  let! t := ValidateTransition t next in
  Ok (next, t).

(** The checks against the current head. *)
Definition head_checks (s : Store) (record : record_) (next : Checkpoint) (t : Transition) : result unit :=
  fail_when negb (validateTransitionSource t (r_checkpoint record)) with ErrInvalidTransition ;;
  fail_when bool_decide (cp_Status (r_checkpoint record) = CheckpointWaitingApproval) && bool_decide (cp_Status next = CheckpointReady)
            && (negb (bool_decide (cp_AttemptID next = cp_AttemptID (r_checkpoint record))) || negb (approval_outcome (t_OutcomeCode t)))
    with ErrInvalidTransition ;;
  fail_when negb (bool_decide (t_From t = cp_Status (r_checkpoint record))) with ErrInvalidTransition ;;
  fail_when s_maxTransitions s <=? s_transitions s with ErrCheckpointCapacity ;;
  fail_when bool_decide (is_Some (r_transitions record !! cp_Revision next)) with ErrCheckpointConflict ;;
  Ok tt.

Definition CompareAndSwap (ctx ctx' : result unit) (now : Z) (key : CheckpointKey) (expectedRevision : Z) (next : Checkpoint) (t : Transition)
    (s : Store) : result (Checkpoint * CommitDisposition) * Store :=
  match (let! _ := ctx in let! nt := cas_checks key expectedRevision next t in let! _ := ctx' in Ok nt) with
  | Err e => (Err e, s)
  | Ok (next, t) =>
    match s_records s !! key with
    | None => (Err ErrCheckpointNotFound, s)
    | Some record =>
      if negb (cp_Revision (r_checkpoint record) =? expectedRevision) then
        if (cp_Revision (r_checkpoint record) =? cp_Revision next) && sameCheckpoint (r_checkpoint record) next
           && sameTransition (r_transitions record !! cp_Revision next) t
        then (Ok (r_checkpoint record, CommitReplayed), s) else (Err ErrCheckpointConflict, s)
      else match (let! _ := head_checks s record next t in
                  versionForCheckpoint now next (CheckpointVersionID key expectedRevision) CheckpointVersionOriginCommit) with
           | Err e => (Err e, s)
           | Ok version =>
             (Ok (next, CommitApplied),
              mk_store (s_maxCheckpoints s) (s_maxTransitions s)
                (<[key := mk_record next (<[cp_Revision next := t]> (r_transitions record)) (<[cp_Revision next := version]> (r_versions record))]>
                   (s_records s))
                (s_transitions s + 1))
           end
    end
  end.

(** ** Reading the history *)

(** The revisions after [after], sorted, at most [limit] of them. *)
Definition page_revisions {V} (m : gmap Z V) (after limit : Z) : list Z :=
  take (Z.to_nat limit) (merge_sort Z.le (filter (λ r, after < r) (map_to_list m).*1)).

Definition ListTransitions (ctx : result unit) (key : CheckpointKey) (afterRevision limit : Z) (s : Store) : result (list Transition) :=
  let! _ := ctx in
  let! _ := ValidateCheckpointKey key in
  fail_when (limit <=? 0) || (MaxTransitionPageSize <? limit) with ErrInvalidTransition ;;
  match s_records s !! key with
  | None => Err ErrCheckpointNotFound
  | Some record => Ok (omap (λ revision, r_transitions record !! revision) (page_revisions (r_transitions record) afterRevision limit))
  end.

Definition LoadVersion (ctx : result unit) (key : CheckpointKey) (revision : Z) (s : Store) : result CheckpointVersion :=
  let! _ := ctx in
  let! _ := ValidateCheckpointKey key in
  fail_when revision =? 0 with ErrInvalidCheckpoint ;;
  match s_records s !! key with
  | None => Err ErrCheckpointNotFound
  | Some record => match r_versions record !! revision with
                   | None => Err ErrCheckpointNotFound
                   | Some version => ValidateCheckpointVersion version
                   end
  end.

Definition list_infos (versions : gmap Z CheckpointVersion) (out : list CheckpointVersionInfo) (revision : Z) : result (list CheckpointVersionInfo) :=
  match versions !! revision with
  | None => Err ErrInvalidCheckpoint
  | Some version => let! info := ValidateCheckpointVersionInfo (cv_Info version) in Ok (out ++ [info])
  end.

Definition ListVersions (ctx : result unit) (key : CheckpointKey) (afterRevision limit : Z) (s : Store) : result (list CheckpointVersionInfo) :=
  let! _ := ctx in
  let! _ := ValidateCheckpointKey key in
  fail_when (limit <=? 0) || (MaxCheckpointVersionPageSize <? limit) with ErrInvalidCheckpoint ;;
  match s_records s !! key with
  | None => Err ErrCheckpointNotFound
  | Some record => rfold (list_infos (r_versions record)) [] (page_revisions (r_versions record) afterRevision limit)
  end.
