(* ===== verification/GraphStoreFacts.v ===== *)
(** * The in-memory store keeps its contract

    The invariant of the store, and that [Create] and [CompareAndSwap] preserve
    it and implement the laws of [CheckpointStore]. *)
From S2P Require Import Prelude GoString Json Sha256 GraphStateFacts GraphContract GraphState GraphExample GraphStore.
From stdpp Require Import gmap strings list sorting.
From Stdlib Require Import ZArith Lia.
Open Scope Z_scope.

(** The last of a chain of conjuncts. *)
Ltac last_of H := repeat match type of H with _ ∧ _ => destruct H as [_ H] end.

(** ** Validation changes the state only, and only once *)

Lemma set_state_id c : set_state (cp_State c) c = c.
Proof. by destruct c. Qed.

Lemma ValidateCheckpoint_ok c c' : ValidateCheckpoint c = Ok c' → ∃ st, canonicalCheckpointState (cp_State c) = Some st ∧ c' = set_state st c.
Proof.
  unfold ValidateCheckpoint. intros H. apply rbind_ok in H as ([] & _ & H). rewrite !fail_if_ok in H. last_of H.
  destruct (canonicalCheckpointState (cp_State c)) as [st|]; [|done]. exists st. split; [done|]. by injection H as <-.
Qed.

Lemma canonicalCheckpointField_twice k raw c c' :
  canonicalCheckpointField k raw = Some c → canonicalCheckpointField k c = Some c' → c' = c.
Proof.
  unfold canonicalCheckpointField. repeat case_match; try done; simplify_eq. intros [= <-] [= <-]. cbn in *. simplify_eq.
  f_equal. apply canonical_value_idem.
Qed.

Lemma canonicalCheckpointState_twice s s' s'' :
  canonicalCheckpointState s = Some s' → canonicalCheckpointState s' = Some s'' → s'' = s'.
Proof.
  unfold canonicalCheckpointState. repeat (case_match; try done). intros [= <-] [= <-]. apply map_eq. intros k.
  rewrite !map_lookup_imap. destruct (s !! k) as [raw|] eqn:Hk; cbn; [|done].
  destruct (canonicalCheckpointField k raw) as [c|] eqn:Hc; [|done]. cbn.
  match goal with Hb : bool_decide (map_Forall _ (map_imap _ _)) = true |- _ => apply bool_decide_eq_true in Hb; destruct (Hb k c) as [c' Hc'] end.
  { by rewrite map_lookup_imap, Hk. }
  rewrite Hc'. f_equal. by eapply canonicalCheckpointField_twice.
Qed.

Lemma ValidateCheckpoint_twice c c' c'' : ValidateCheckpoint c = Ok c' → ValidateCheckpoint c' = Ok c'' → c'' = c'.
Proof.
  intros (st & Hs & ->)%ValidateCheckpoint_ok (st' & Hs' & ->)%ValidateCheckpoint_ok.
  rewrite (canonicalCheckpointState_twice _ _ _ Hs Hs'). done.
Qed.

Lemma identifier_nonempty v m : validateCheckpointIdentifier v m = true → v ≠ "".
Proof. unfold validateCheckpointIdentifier. intros H ->. cbn in H. done. Qed.

Lemma stored_fields c c' : stored_as c c' →
  c' = set_state (cp_State c') c ∧ cp_CurrentNodeID c ≠ "" ∧ cp_Revision c ≠ 0.
Proof.
  intros H. pose proof (ValidateCheckpoint_ok _ _ H) as (st & _ & ->). split; [done|].
  unfold stored_as, ValidateCheckpoint in H. apply rbind_ok in H as ([] & _ & H). rewrite !fail_if_ok in H.
  destruct H as (Hid & Hrev & _). split.
  - apply negb_false_iff in Hid. unfold identifiers_ok in Hid. cbn [forallb] in Hid. rewrite !andb_true_iff in Hid. by eapply identifier_nonempty, Hid.
  - rewrite !orb_false_iff in Hrev. destruct Hrev as ((((Hr & _) & _) & _) & _). by apply Z.eqb_neq in Hr.
Qed.

(** ** The invariant *)

Record record_inv (key : CheckpointKey) (total : Z) (r : record_) : Prop := {
  ri_key : cp_Key (r_checkpoint r) = key;
  ri_node : cp_CurrentNodeID (r_checkpoint r) ≠ "";
  ri_revision : 1 ≤ cp_Revision (r_checkpoint r) ≤ total;
  ri_transitions : ∀ i, is_Some (r_transitions r !! i) ↔ 1 ≤ i ≤ cp_Revision (r_checkpoint r);
  ri_versions : ∀ i, is_Some (r_versions r !! i) ↔ 1 ≤ i ≤ cp_Revision (r_checkpoint r);
  ri_head : ∃ info, r_versions r !! cp_Revision (r_checkpoint r) = Some (mk_version info (r_checkpoint r));
  ri_valid : ∀ i v, r_versions r !! i = Some v → ValidateCheckpointVersion v = Ok v ∧ cp_Key (cv_Checkpoint v) = key ∧ cp_Revision (cv_Checkpoint v) = i;
  ri_first : ∀ v t, r_versions r !! 1 = Some v → r_transitions r !! 1 = Some t → cp_Status (cv_Checkpoint v) = CheckpointReady ∧ t_To t = CheckpointReady;
  ri_chain : ∀ i v v' t, r_versions r !! i = Some v → r_versions r !! (i + 1) = Some v' → r_transitions r !! (i + 1) = Some t →
             may_follow (cv_Checkpoint v) (cv_Checkpoint v') t }.

Definition store_inv (s : Store) : Prop :=
  0 ≤ s_transitions s ≤ s_maxTransitions s ∧ s_maxTransitions s ≤ MaxCheckpointTransitions
  ∧ ∀ key r, s_records s !! key = Some r → record_inv key (s_transitions s) r.

Lemma New_inv maxCheckpoints maxTransitions s : New maxCheckpoints maxTransitions = Ok s → store_inv s.
Proof.
  unfold New. rewrite fail_if_ok, !orb_false_iff. intros (((((_ & _) & H1) & H2) & _) & [= <-]).
  split; [|split]; cbn; [| |by intros ?? ?%lookup_empty_Some]; bool_to_prop; lia.
Qed.

Lemma record_inv_mono key n n' r : n ≤ n' → record_inv key n r → record_inv key n' r.
Proof. intros Hn []. split; try done. lia. Qed.

(** A version that is built validates to itself. *)
Lemma versionForCheckpoint_ok now c0 c parent origin v :
  ValidateCheckpoint c0 = Ok c → versionForCheckpoint now c parent origin = Ok v →
  cv_Checkpoint v = c ∧ ValidateCheckpointVersion v = Ok v.
Proof.
  intros Hc. unfold versionForCheckpoint, CheckpointDigest. intros H. apply rbind_ok in H as (hash & Hh & H).
  apply rbind_ok in Hh as (c1 & Hc1 & [= <-]). pose proof (ValidateCheckpoint_twice _ _ _ Hc Hc1) as ->.
  revert H. unfold ValidateCheckpointVersion at 1. cbn [cv_Checkpoint cv_Info]. rewrite Hc1. cbn [rbind].
  intros H. apply rbind_ok in H as (info & Hi & H). rewrite fail_if_ok in H. destruct H as (Hk & H).
  unfold CheckpointDigest in H. rewrite Hc1 in H. cbn [rbind] in H. apply fail_if_ok in H as [Hh [= <-]].
  split; [done|]. unfold ValidateCheckpointVersion. cbn [cv_Checkpoint cv_Info]. rewrite Hc1. cbn [rbind].
  assert (ValidateCheckpointVersionInfo info = Ok info) as ->.
  { unfold ValidateCheckpointVersionInfo in *. apply rbind_ok in Hi as ([] & Hi0 & Hi). rewrite !fail_if_ok in Hi.
    destruct Hi as (? & ? & ? & ? & [= <-]). rewrite Hi0. cbn [rbind]. rewrite !fail_if_ok. done. }
  cbn [rbind]. unfold fail_if. rewrite Hk. unfold CheckpointDigest. rewrite Hc1. cbn [rbind]. by rewrite Hh.
Qed.

(** The checkpoint of a valid version is valid and canonical. *)
Lemma valid_version_stored v : ValidateCheckpointVersion v = Ok v → stored_as (cv_Checkpoint v) (cv_Checkpoint v).
Proof.
  unfold ValidateCheckpointVersion. intros H. apply rbind_ok in H as (c & Hc & H). apply rbind_ok in H as (info & _ & H).
  apply fail_if_ok in H as [_ H]. apply rbind_ok in H as (d & _ & H). apply fail_if_ok in H as [_ [= H]]. unfold stored_as. rewrite Hc.
  by rewrite <- H.
Qed.

Lemma u64_succ_small z : 0 ≤ z ≤ MaxCheckpointTransitions → u64_succ z = z + 1.
Proof. unfold u64_succ, MaxCheckpointTransitions. intros. rewrite Z.mod_small; lia. Qed.

(** ** What the checks establish *)

Record describes (t : Transition) (c : Checkpoint) : Prop := {
  ds_key : t_Key t = cp_Key c;
  ds_revision : t_Revision t = cp_Revision c;
  ds_to : t_To t = cp_Status c;
  ds_attempt : t_AttemptID t = cp_AttemptID c;
  ds_legal : legalTransition (t_From t) (t_To t) = true;
  ds_ready : t_To t = CheckpointReady → t_AttemptID t ≠ "" → t_From t = CheckpointWaitingApproval ∧ approval_outcome (t_OutcomeCode t) = true }.

Lemma ValidateTransition_ok t c t' : ValidateTransition t c = Ok t' → t' = t ∧ describes t c.
Proof.
  unfold ValidateTransition. rewrite !fail_if_ok. intros (Hk & Hr & Hd & _ & _ & _ & Hl & Ha & _ & _ & _ & [= <-]). split; [done|].
  rewrite !orb_false_iff in *. destruct Hk as [_ Hk]. destruct Hr as [[Hr _] _]. destruct Hd as [[[Ht _] _] Hat]. bool_to_prop.
  split; try done. intros Hto Hne. rewrite Hto in Ha. rewrite !bool_decide_true in Ha by done. rewrite bool_decide_false in Ha by done.
  cbn in Ha. apply orb_false_iff in Ha as [Ha1 Ha2]. by bool_to_prop.
Qed.

Lemma cas_checks_ok key expected next t next' t' : cas_checks key expected next t = Ok (next', t') →
  stored_as next next' ∧ t' = t ∧ cp_Key next' = key ∧ expected ≠ 0 ∧ cp_Revision next' = u64_succ expected ∧ describes t next'.
Proof.
  unfold cas_checks. intros H. apply rbind_ok in H as ([] & _ & H). apply rbind_ok in H as (c & Hc & H).
  apply fail_if_ok in H as [Hf H]. apply rbind_ok in H as (t1 & Ht & [= -> ->]). apply ValidateTransition_ok in Ht as [-> Hd].
  rewrite !orb_false_iff in Hf. destruct Hf as [[H1 H2] H3]. bool_to_prop. done.
Qed.

Lemma create_checks_ok c t c' t' : create_checks c t = Ok (c', t') →
  stored_as c c' ∧ t' = t ∧ cp_Revision c' = 1 ∧ cp_Status c' = CheckpointReady ∧ describes t c'.
Proof.
  unfold create_checks. intros H. apply rbind_ok in H as (c1 & Hc & H). apply fail_if_ok in H as [Hf H].
  apply rbind_ok in H as (t1 & Ht & [= -> ->]). apply ValidateTransition_ok in Ht as [-> Hd].
  rewrite !orb_false_iff in Hf. destruct Hf as [H1 H2]. bool_to_prop. done.
Qed.

Lemma head_checks_ok s r next t : head_checks s r next t = Ok tt → cp_CurrentNodeID (r_checkpoint r) ≠ "" → describes t next →
  cp_Key next = cp_Key (r_checkpoint r) → cp_Revision next = u64_succ (cp_Revision (r_checkpoint r)) →
  may_follow (r_checkpoint r) next t ∧ s_transitions s < s_maxTransitions s ∧ r_transitions r !! cp_Revision next = None.
Proof.
  unfold head_checks. rewrite !fail_if_ok. intros (Hsrc & Hres & Hfrom & Hcap & Hfree & _) Hne [Hk Hr Hto Hat Hl _] Hkey Hrev.
  unfold validateTransitionSource in Hsrc. rewrite bool_decide_false in Hsrc by done. cbn in Hsrc.
  apply negb_false_iff in Hsrc. rewrite !andb_true_iff in Hsrc. destruct Hsrc as [[[H1 H2] H3] H4]. bool_to_prop. split; [|split; [done|]].
  - split; try done; [congruence|]. intros Hw Hrd. rewrite Hw, Hrd in Hres. rewrite !bool_decide_true in Hres by done. cbn in Hres.
    apply orb_false_iff in Hres as [Hres1 Hres2]. by bool_to_prop.
  - by apply eq_None_not_Some.
Qed.

(** ** The operations *)

Lemma CompareAndSwap_cases ctx ctx' now key expected next t s r s' :
  store_inv s → CompareAndSwap ctx ctx' now key expected next t s = (r, s') →
  (∃ e, r = Err e ∧ s' = s)
  ∨ (∃ rec, r = Ok (r_checkpoint rec, CommitReplayed) ∧ s' = s ∧ s_records s !! key = Some rec
            ∧ stored_as next (r_checkpoint rec) ∧ r_transitions rec !! cp_Revision (r_checkpoint rec) = Some t)
  ∨ (∃ rec c v, r = Ok (c, CommitApplied) ∧ s_records s !! key = Some rec ∧ stored_as next c
       ∧ cp_Revision (r_checkpoint rec) = expected ∧ cp_Revision c = expected + 1 ∧ describes t c ∧ may_follow (r_checkpoint rec) c t
       ∧ cv_Checkpoint v = c ∧ ValidateCheckpointVersion v = Ok v ∧ s_transitions s < s_maxTransitions s
       ∧ s' = mk_store (s_maxCheckpoints s) (s_maxTransitions s)
                (<[key := mk_record c (<[cp_Revision c := t]> (r_transitions rec)) (<[cp_Revision c := v]> (r_versions rec))]> (s_records s))
                (s_transitions s + 1)).
Proof.
  intros Hinv. unfold CompareAndSwap. case_match eqn:Hpre; [|intros [= <- <-]; left; eauto]. case_match; subst.
  apply rbind_ok in Hpre as ([] & _ & Hpre). apply rbind_ok in Hpre as ([next' t'] & Hck & Hpre). apply rbind_ok in Hpre as ([] & _ & [= -> ->]).
  apply cas_checks_ok in Hck as (Hst & -> & Hkey & Hexp & Hrev & Hd).
  destruct (s_records s !! key) as [rec|] eqn:Hrec; [|intros [= <- <-]; left; eauto].
  pose proof (proj2 (proj2 Hinv) key rec Hrec) as Hri.
  destruct (Z.eqb_spec (cp_Revision (r_checkpoint rec)) expected) as [Heq|Hneq]; cbn [negb].
  - case_match eqn:Hhd; [|intros [= <- <-]; left; eauto]. intros [= <- <-]. right; right.
    apply rbind_ok in Hhd as ([] & Hhc & Hver). apply (versionForCheckpoint_ok _ next) in Hver as [Hv1 Hv2]; [|done].
    assert (cp_Revision c = expected + 1) as Hrev'.
    { rewrite Hrev. apply u64_succ_small. rewrite <- Heq. pose proof (ri_revision _ _ _ Hri). destruct Hinv as (? & ? & _). lia. }
    apply head_checks_ok in Hhc as (Hmf & Hlt & _); [|apply Hri|done|by rewrite (ri_key _ _ _ Hri)|by rewrite Heq].
    by eexists rec, c, _.
  - case_match eqn:Hrp; intros [= <- <-]; [|left; eauto]. right; left. rewrite !andb_true_iff in Hrp. destruct Hrp as [[_ H1] H2].
    unfold sameCheckpoint, sameTransition in *. bool_to_prop. subst. by exists rec.
Qed.

Lemma interval_insert {V} (m : gmap Z V) n v : (∀ i, is_Some (m !! i) ↔ 1 ≤ i ≤ n) → 0 ≤ n → ∀ i, is_Some (<[n + 1 := v]> m !! i) ↔ 1 ≤ i ≤ n + 1.
Proof.
  intros H Hn i. destruct (decide (i = n + 1)) as [->|Hi].
  - rewrite lookup_insert_eq. split; [lia|]. by eexists.
  - rewrite lookup_insert_ne by done. rewrite H. lia.
Qed.

(** Extending a record by a commit that follows its head. *)
Lemma record_inv_extend key n r c t v : record_inv key n r → may_follow (r_checkpoint r) c t → cp_CurrentNodeID c ≠ "" →
  cp_Revision c = cp_Revision (r_checkpoint r) + 1 → cv_Checkpoint v = c → ValidateCheckpointVersion v = Ok v →
  record_inv key (n + 1) (mk_record c (<[cp_Revision c := t]> (r_transitions r)) (<[cp_Revision c := v]> (r_versions r))).
Proof.
  intros [Hk Hnode Hrev Htr Hvr [info Hhead] Hval Hfirst Hchain] Hmf Hne Hc Hv Hvv. remember (cp_Revision (r_checkpoint r)) as R eqn:HR.
  rewrite Hc. split; cbn [r_checkpoint r_transitions r_versions]; rewrite ?Hc.
  - rewrite <- Hk. apply Hmf.
  - done.
  - lia.
  - apply interval_insert; [done|lia].
  - apply interval_insert; [done|lia].
  - exists (cv_Info v). rewrite lookup_insert_eq. subst c. by destruct v.
  - intros i w. rewrite lookup_insert_Some. intros [[<- <-]|[_ Hw]]; [|by apply Hval]. split; [done|]. rewrite Hv. split; [|done]. rewrite <- Hk. apply Hmf.
  - intros w u. rewrite !lookup_insert_ne by lia. apply Hfirst.
  - intros i w w' u Hw Hw' Hu. destruct (decide (i = R)) as [->|Hi].
    + rewrite lookup_insert_eq in Hw'. rewrite lookup_insert_eq in Hu. rewrite lookup_insert_ne in Hw by lia.
      rewrite Hhead in Hw. simplify_eq. done.
    + rewrite lookup_insert_ne in Hw' by lia. rewrite lookup_insert_ne in Hu by lia. apply lookup_insert_Some in Hw as [[<- _]|[_ Hw]]; [|by eapply Hchain].
      assert (1 ≤ R + 1 + 1 ≤ R) as Hbad; [apply Hvr; by eexists|lia].
Qed.

Lemma CompareAndSwap_inv ctx ctx' now key expected next t s r s' :
  store_inv s → CompareAndSwap ctx ctx' now key expected next t s = (r, s') → store_inv s'.
Proof.
  intros Hinv H. destruct (CompareAndSwap_cases _ _ _ _ _ _ _ _ _ _ Hinv H) as [(e & _ & ->)|[(rec & _ & -> & _)|Happ]]; [done|done|].
  destruct Happ as (rec & c & v & _ & Hrec & Hst & He & Hc & _ & Hmf & Hv1 & Hv2 & Hlt & ->).
  destruct Hinv as (Hn & Hm & Hrs). split; [cbn; lia|]. split; [done|]. cbn. intros k rk. rewrite lookup_insert_Some. intros [[<- <-]|[_ Hk]].
  - apply record_inv_extend; try done; [by apply Hrs| |by rewrite He]. destruct (stored_fields _ _ Hst) as (-> & ? & _). done.
  - eapply record_inv_mono; [|by apply Hrs]. lia.
Qed.

Lemma Create_cases ctx ctx' now c t s r s' :
  Create ctx ctx' now c t s = (r, s') →
  (∃ e, r = Err e ∧ s' = s)
  ∨ (∃ rec, r = Ok (r_checkpoint rec, CommitReplayed) ∧ s' = s ∧ s_records s !! cp_Key c = Some rec ∧ stored_as c (r_checkpoint rec)
            ∧ describes t (r_checkpoint rec) ∧ cp_Revision (r_checkpoint rec) = 1 ∧ cp_Status (r_checkpoint rec) = CheckpointReady)
  ∨ (∃ c' v, r = Ok (c', CommitApplied) ∧ s_records s !! cp_Key c = None ∧ stored_as c c' ∧ cp_Revision c' = 1 ∧ cp_Status c' = CheckpointReady
       ∧ describes t c' ∧ cv_Checkpoint v = c' ∧ ValidateCheckpointVersion v = Ok v ∧ s_transitions s < s_maxTransitions s
       ∧ s' = mk_store (s_maxCheckpoints s) (s_maxTransitions s) (<[cp_Key c := mk_record c' {[1 := t]} {[1 := v]}]> (s_records s)) (s_transitions s + 1)).
Proof.
  unfold Create. case_match eqn:Hpre; [|intros [= <- <-]; left; eauto]. case_match; subst.
  apply rbind_ok in Hpre as ([] & _ & Hpre). apply rbind_ok in Hpre as ([c1 t1] & Hck & Hpre). apply rbind_ok in Hpre as ([] & _ & [= -> ->]).
  apply create_checks_ok in Hck as (Hst & -> & Hrev & Hsta & Hd).
  assert (cp_Key c0 = cp_Key c) as Hkey by (destruct (stored_fields _ _ Hst) as (-> & _); done). rewrite Hkey.
  destruct (s_records s !! cp_Key c) as [rec|] eqn:Hrec.
  - case_match eqn:Hsame; intros [= <- <-]; [|left; eauto]. right; left. rewrite andb_true_iff in Hsame. destruct Hsame as [H1 _].
    unfold sameCheckpoint in H1. bool_to_prop. subst c0. by exists rec.
  - destruct ((s_maxCheckpoints s <=? Z.of_nat (size (s_records s))) || (s_maxTransitions s <=? s_transitions s)) eqn:Hcap; [intros [= <- <-]; left; eauto|].
    case_match eqn:Hver; [|intros [= <- <-]; left; eauto]. intros [= <- <-]. right; right. apply (versionForCheckpoint_ok _ c) in Hver as [Hv1 Hv2]; [|done].
    apply orb_false_iff in Hcap as [_ Hcap]. bool_to_prop. rewrite (ds_revision _ _ Hd), Hrev. by eexists c0, _.
Qed.

Lemma Create_inv ctx ctx' now c t s r s' : store_inv s → Create ctx ctx' now c t s = (r, s') → store_inv s'.
Proof.
  intros (Hn & Hm & Hrs) H. destruct (Create_cases _ _ _ _ _ _ _ _ H) as [(e & _ & ->)|[(rec & _ & -> & _)|Happ]]; [done|done|].
  destruct Happ as (c' & v & _ & Hnone & Hst & Hrev & Hsta & Hd & Hv1 & Hv2 & Hlt & ->).
  split; [cbn; lia|]. split; [done|]. cbn. intros k rk. rewrite lookup_insert_Some. intros [[<- <-]|[_ Hk]].
  2: { eapply record_inv_mono; [|by apply Hrs]. lia. }
  destruct (stored_fields _ _ Hst) as (Heq & Hne & _). assert (cp_Key c' = cp_Key c) as Hkey by by rewrite Heq.
  assert (∀ (V : Type) (x : V) i, is_Some (({[1 := x]} : gmap Z V) !! i) ↔ 1 ≤ i ≤ 1) as Hone.
  { intros V x i. rewrite lookup_singleton_is_Some. lia. }
  split; cbn [r_checkpoint r_transitions r_versions]; rewrite ?Hrev; try done.
  - by rewrite Heq.
  - lia.
  - exists (cv_Info v). rewrite lookup_singleton_eq. subst c'. by destruct v.
  - intros i w [<- <-]%lookup_singleton_Some. by rewrite Hv1.
  - intros w u [_ <-]%lookup_singleton_Some [_ <-]%lookup_singleton_Some. rewrite Hv1. split; [done|]. by rewrite (ds_to _ _ Hd).
  - intros i w w' u [<- _]%lookup_singleton_Some [? _]%lookup_singleton_Some. lia.
Qed.

(** ** The laws *)

(** The transitions of a run in the order of their revisions. *)
Definition run_log (s : Store) (key : CheckpointKey) : list Transition :=
  match s_records s !! key with
  | Some r => omap (λ i, r_transitions r !! i) (seqZ 1 (cp_Revision (r_checkpoint r)))
  | None => []
  end.

#[export] Instance memory_store : CheckpointStore Store := {
  st_head s key := match s_records s !! key with Some r => Some (r_checkpoint r) | None => None end;
  st_log := run_log;
  st_inv := store_inv;
  st_load key s r := ∃ ctx, Load ctx key s = r;
  st_create c t s r s' := ∃ ctx ctx' now, Create ctx ctx' now c t s = (r, s');
  st_cas key expected next t s r s' := ∃ ctx ctx' now, CompareAndSwap ctx ctx' now key expected next t s = (r, s') }.

Lemma omap_seqZ_insert {V} (m : gmap Z V) n v : 0 ≤ n → omap (λ i, <[n + 1 := v]> m !! i) (seqZ 1 (n + 1)) = omap (λ i, m !! i) (seqZ 1 n) ++ [v].
Proof.
  intros Hn. rewrite seqZ_app by lia. rewrite omap_app. replace (seqZ (1 + n) 1) with [n + 1].
  2: { rewrite (Z.add_comm n 1). unfold seqZ. cbn. done. }
  f_equal; [|cbn; by rewrite lookup_insert_eq].
  assert (∀ l, Forall (λ i, i ≤ n) l → omap (λ i, <[n + 1 := v]> m !! i) l = omap (λ i, m !! i) l) as Hl.
  { induction 1 as [|i l Hi _ IH]; [done|]. cbn. rewrite lookup_insert_ne by lia. by rewrite IH. }
  apply Hl, Forall_forall. intros i Hi%elem_of_seqZ. lia.
Qed.

#[export] Instance memory_store_laws : CheckpointStoreLaws Store.
Proof.
  split; cbn.
  - intros key s c (ctx & H). unfold Load in H. apply rbind_ok in H as ([] & _ & H). apply rbind_ok in H as ([] & _ & H). by destruct (s_records s !! key); simplify_eq.
  - intros c t s c' d s' Hinv (ctx & ctx' & now & H). destruct (Create_cases _ _ _ _ _ _ _ _ H) as [(? & ? & _)|[Hrep|Happ]]; [done| |].
    + destruct Hrep as (rec & [= -> ->] & -> & Hrec & Hst & Hd & Hr & Hs). split; [done|]. split; [done|]. split; [done|]. right.
      split; [done|]. split; [done|]. by rewrite Hrec.
    + destruct Happ as (c1 & v & [= <- <-] & Hnone & Hst & Hrev & Hsta & Hd & Hv1 & Hv2 & Hlt & ->).
      split; [done|]. split; [done|]. split; [done|]. left. split; [done|]. rewrite Hnone. split; [done|]. cbn. rewrite lookup_insert_eq. cbn.
      split; [done|]. unfold run_log. cbn. rewrite lookup_insert_eq. cbn. rewrite Hrev. split; [vm_compute; done|].
      intros k Hk. cbn. unfold run_log. cbn. by rewrite !lookup_insert_ne by congruence.
  - intros c t s e s' Hinv (ctx & ctx' & now & H). destruct (Create_cases _ _ _ _ _ _ _ _ H) as [(? & _ & ->)|[(? & ? & _)|(? & ? & ? & _)]]; done.
  - intros key expected next t s c' d s' Hinv (ctx & ctx' & now & H).
    destruct (CompareAndSwap_cases _ _ _ _ _ _ _ _ _ _ Hinv H) as [(? & ? & _)|[Hrep|Happ]]; [done| |].
    + destruct Hrep as (rec & [= -> ->] & -> & Hrec & Hst & Ht). split; [done|].
      split; [by rewrite (ri_key _ _ _ (proj2 (proj2 Hinv) key rec Hrec))|]. right. split; [done|]. split; [done|]. by rewrite Hrec.
    + destruct Happ as (rec & c & v & [= <- <-] & Hrec & Hst & He & Hc & Hd & Hmf & Hv1 & Hv2 & Hlt & ->).
      pose proof (proj2 (proj2 Hinv) key rec Hrec) as Hri. split; [done|]. split; [by rewrite (mf_key _ _ _ Hmf), (ri_key _ _ _ Hri)|]. left.
      split; [done|]. rewrite Hrec. split; [by eexists|]. cbn. rewrite lookup_insert_eq. cbn. split; [done|]. unfold run_log. cbn.
      rewrite lookup_insert_eq, Hrec. cbn. pose proof (ri_revision _ _ _ Hri). rewrite He in *. rewrite Hc. split; [by apply omap_seqZ_insert; lia|].
      intros k Hk. cbn. unfold run_log. cbn. by rewrite !lookup_insert_ne by congruence.
  - intros key expected next t s e s' Hinv (ctx & ctx' & now & H).
    destruct (CompareAndSwap_cases _ _ _ _ _ _ _ _ _ _ Hinv H) as [(? & _ & ->)|[(? & ? & _)|(? & ? & ? & ? & _)]]; done.
  - intros s key c (Hn & Hm & Hrs) Hh. destruct (s_records s !! key) as [r|] eqn:Hr; [|done]. injection Hh as <-. specialize (Hrs key r Hr).
    split; [apply Hrs|]. split; [|pose proof (ri_revision _ _ _ Hrs); unfold MaxCheckpointTransitions in *; lia].
    destruct (ri_head _ _ _ Hrs) as [info Hi]. destruct (ri_valid _ _ _ Hrs _ _ Hi) as [Hv _]. by eapply valid_version_stored in Hv.
  - intros c t s r s' Hinv (ctx & ctx' & now & H). by eapply Create_inv.
  - intros key expected next t s r s' Hinv (ctx & ctx' & now & H). by eapply CompareAndSwap_inv.
Qed.

(** ** What the in-memory checkpoint store guarantees *)

(** The states of a store between operations, whatever the contexts and clocks. *)
Inductive memory_reach : Store → Prop :=
| reach_new maxCheckpoints maxTransitions s : New maxCheckpoints maxTransitions = Ok s → memory_reach s
| reach_create ctx ctx' now c t s : memory_reach s → memory_reach (Create ctx ctx' now c t s).2
| reach_cas ctx ctx' now key expected next t s : memory_reach s → memory_reach (CompareAndSwap ctx ctx' now key expected next t s).2.

Lemma memory_reach_inv s : memory_reach s → store_inv s.
Proof.
  induction 1 as [? ? s H|ctx ctx' now c t s _ IH|ctx ctx' now key ex next t s _ IH]; [by eapply New_inv| |].
  - destruct (Create ctx ctx' now c t s) as [r s'] eqn:H. by eapply Create_inv.
  - destruct (CompareAndSwap ctx ctx' now key ex next t s) as [r s'] eqn:H. by eapply CompareAndSwap_inv.
Qed.

(** ** Pages *)

Lemma sorted_seqZ n m : StronglySorted Z.le (seqZ n m).
Proof.
  unfold seqZ. generalize (Z.to_nat m). intros k. generalize 0%nat. induction k as [|k IH]; intros i; cbn; constructor; [apply IH|].
  apply Forall_fmap, Forall_forall. intros j Hj%elem_of_seq. cbn. lia.
Qed.

Lemma page_interval {V} (m : gmap Z V) R after limit : (∀ i, is_Some (m !! i) ↔ 1 ≤ i ≤ R) → 0 ≤ after ≤ R →
  page_revisions m after limit = take (Z.to_nat limit) (seqZ (after + 1) (R - after)).
Proof.
  intros Hm Ha. unfold page_revisions. f_equal. apply (StronglySorted_unique Z.le).
  - apply StronglySorted_merge_sort; apply _.
  - apply sorted_seqZ.
  - rewrite merge_sort_Permutation. apply NoDup_Permutation.
    + apply NoDup_filter, NoDup_fst_map_to_list.
    + apply NoDup_seqZ.
    + intros i. rewrite list_elem_of_filter, elem_of_seqZ, list_elem_of_fmap. split.
      * intros [Hi ([j v] & -> & Hj%elem_of_map_to_list)]. cbn in *. assert (1 ≤ j ≤ R) by (apply Hm; by eexists). lia.
      * intros Hi. split; [lia|]. assert (is_Some (m !! i)) as [v Hv] by (apply Hm; lia). exists (i, v). split; [done|]. by apply elem_of_map_to_list.
Qed.

Lemma next_transition r key n t i : record_inv key n r → 0 ≤ i < cp_Revision (r_checkpoint r) → r_transitions r !! (i + 1) = Some t →
  omap (λ revision, r_transitions r !! revision) (page_revisions (r_transitions r) i 1) = [t].
Proof.
  intros Hr Hi Ht. rewrite (page_interval _ (cp_Revision (r_checkpoint r))); [|apply Hr|lia].
  rewrite seqZ_cons by lia. change (Z.to_nat 1) with 1%nat. cbn [take omap list_omap]. unfold omap. cbn [list_omap]. by rewrite Ht.
Qed.

(** C11.  The history of a graph run is a legal chain.  In every reachable state
    of the checkpoint store, every revision of a run from 1 to its head can be
    loaded as a validated version of that run, the first one is ready and was
    recorded by a transition to ready, the last one is the head, and each version
    follows its predecessor by the recorded transition: revision plus one, a legal
    status change from the predecessor's status, the predecessor's segment,
    generation, node and attempt as source, and an approval resolution keeps the
    suspended attempt. *)
Theorem checkpoint_history_is_legal s key c i :
  memory_reach s → Load (Ok tt) key s = Ok c → 1 ≤ i ≤ cp_Revision c →
  ∃ v, LoadVersion (Ok tt) key i s = Ok v ∧ cp_Key (cv_Checkpoint v) = key ∧ cp_Revision (cv_Checkpoint v) = i
       ∧ (i = 1 → cp_Status (cv_Checkpoint v) = CheckpointReady ∧ ∃ t, ListTransitions (Ok tt) key 0 1 s = Ok [t] ∧ t_To t = CheckpointReady)
       ∧ (i = cp_Revision c → cv_Checkpoint v = c)
       ∧ (i < cp_Revision c → ∃ v' t, LoadVersion (Ok tt) key (i + 1) s = Ok v' ∧ ListTransitions (Ok tt) key i 1 s = Ok [t]
            ∧ may_follow (cv_Checkpoint v) (cv_Checkpoint v') t).
Proof.
  intros Hs Hload Hi. apply memory_reach_inv in Hs. unfold Load in Hload. cbn [rbind] in Hload. apply rbind_ok in Hload as ([] & Hkey & Hload).
  destruct (s_records s !! key) as [r|] eqn:Hrec; [|done]. injection Hload as <-. pose proof (proj2 (proj2 Hs) _ _ Hrec) as Hr.
  assert (Hver : ∀ j, 1 ≤ j ≤ cp_Revision (r_checkpoint r) → ∃ v, r_versions r !! j = Some v ∧ LoadVersion (Ok tt) key j s = Ok v).
  { intros j Hj. apply (ri_versions _ _ _ Hr) in Hj as Hsome. destruct Hsome as [v Hv]. exists v. split; [done|]. unfold LoadVersion. rewrite Hkey. cbn [rbind].
    unfold fail_if. destruct (Z.eqb_spec j 0); [lia|]. rewrite Hrec, Hv. by apply (ri_valid _ _ _ Hr) in Hv as [? _]. }
  assert (Htr : ∀ j, 0 ≤ j < cp_Revision (r_checkpoint r) → ∃ t, r_transitions r !! (j + 1) = Some t ∧ ListTransitions (Ok tt) key j 1 s = Ok [t]).
  { intros j Hj. assert (is_Some (r_transitions r !! (j + 1))) as [t Ht] by (apply (ri_transitions _ _ _ Hr); lia). exists t. split; [done|].
    unfold ListTransitions. rewrite Hkey, Hrec. cbn [rbind]. apply fail_if_ok. split; [reflexivity|]. f_equal. eapply next_transition; [done|lia|done]. }
  destruct (Hver i Hi) as (v & Hv & Hlv). destruct (ri_valid _ _ _ Hr i v Hv) as (_ & Hk & Hrev). exists v. do 3 (split; [done|]). split; [|split].
  - intros ->. destruct (Htr 0 ltac:(lia)) as (t & Ht & Hlt). destruct (ri_first _ _ _ Hr v t Hv Ht) as [? ?]. split; [done|]. by exists t.
  - intros ->. destruct (ri_head _ _ _ Hr) as [info Hh]. rewrite Hh in Hv. by injection Hv as <-.
  - intros Hlt. destruct (Hver (i + 1) ltac:(lia)) as (v' & Hv' & Hlv'). destruct (Htr i ltac:(lia)) as (t & Ht & Hlt').
    exists v', t. split; [done|]. split; [done|]. by eapply (ri_chain _ _ _ Hr).
Qed.

(** Commits are idempotent.  Once a compare-and-swap has been applied,
    submitting the same checkpoint and transition again is answered as a replay
    with the stored checkpoint and changes nothing, while any other submission
    for the same expected revision is refused. *)
Theorem commits_are_idempotent ctx ctx' now key expected next t s c s' now' next2 t2 :
  memory_reach s → CompareAndSwap ctx ctx' now key expected next t s = (Ok (c, CommitApplied), s') →
  CompareAndSwap (Ok tt) (Ok tt) now' key expected next t s' = (Ok (c, CommitReplayed), s')
  ∧ (ValidateCheckpoint next2 ≠ Ok c ∨ t2 ≠ t →
     ∃ e, CompareAndSwap (Ok tt) (Ok tt) now' key expected next2 t2 s' = (Err e, s')).
Proof.
  intros Hs%memory_reach_inv H. pose proof (CompareAndSwap_inv _ _ _ _ _ _ _ _ _ _ Hs H) as Hs'.
  destruct (CompareAndSwap_cases _ _ _ _ _ _ _ _ _ _ Hs H) as [(? & ? & _)|[(? & ? & _)|Happ]]; [done|done|].
  destruct Happ as (rec & c1 & v & [= <-] & Hrec & Hst & He & Hc & Hd & Hmf & Hv1 & Hv2 & Hlt & Heq).
  assert (s_records s' !! key = Some (mk_record c (<[cp_Revision c:=t]> (r_transitions rec)) (<[cp_Revision c:=v]> (r_versions rec)))) as Hrec'.
  { rewrite Heq. cbn. by rewrite lookup_insert_eq. }
  split.
  - assert (cas_checks key expected next t = Ok (c, t)) as Hck.
    { unfold CompareAndSwap in H. destruct ctx as [[]|]; [|done]. cbn [rbind] in H.
      destruct (cas_checks key expected next t) as [[n0 t0]|] eqn:Hck; [|done]. apply cas_checks_ok in Hck as (Hst0 & -> & _).
      unfold stored_as in *. rewrite Hst in Hst0. by injection Hst0 as ->. }
    clear H. unfold CompareAndSwap. cbn [rbind]. rewrite Hck. cbn [rbind]. rewrite Hrec'. cbn [r_checkpoint r_transitions].
    destruct (Z.eqb_spec (cp_Revision c) expected) as [?|_]; [lia|]. cbn [negb].
    rewrite Z.eqb_refl. unfold sameCheckpoint, sameTransition. rewrite lookup_insert_eq, !bool_decide_true by done. done.
  - intros Hdiff. destruct (CompareAndSwap (Ok tt) (Ok tt) now' key expected next2 t2 s') as [r2 s2] eqn:H2.
    destruct (CompareAndSwap_cases _ _ _ _ _ _ _ _ _ _ Hs' H2) as [(e & -> & ->)|[Hrep|Happ2]]; [by exists e| |].
    + destruct Hrep as (rec2 & _ & _ & Hrec2 & Hst2 & Ht2). rewrite Hrec' in Hrec2. injection Hrec2 as <-. cbn in Hst2, Ht2.
      rewrite lookup_insert_eq in Ht2. injection Ht2 as ->. by destruct Hdiff.
    + destruct Happ2 as (rec2 & c2 & v2 & _ & Hrec2 & _ & He2 & _). rewrite Hrec' in Hrec2. injection Hrec2 as <-. cbn in He2. lia.
Qed.

(** ** Witnesses *)

Definition ex_store0 : Store := mk_store 4 16 ∅ 0.
Definition ex_store1 : Store := (Create (Ok tt) (Ok tt) 5 ex_ready ex_created ex_store0).2.
Definition ex_store2 : Store := (CompareAndSwap (Ok tt) (Ok tt) 6 ex_run 1 ex_executing ex_started ex_store1).2.

Lemma ex_store1_reach : memory_reach ex_store1.
Proof. apply reach_create. by apply (reach_new 4 16). Qed.
Lemma ex_store2_reach : memory_reach ex_store2.
Proof. apply reach_cas, ex_store1_reach. Qed.

Lemma ex_cas_applied :
  CompareAndSwap (Ok tt) (Ok tt) 6 ex_run 1 ex_executing ex_started ex_store1 = (Ok (ex_executing, CommitApplied), ex_store2).
Proof.
  unfold ex_store2.
  assert ((CompareAndSwap (Ok tt) (Ok tt) 6 ex_run 1 ex_executing ex_started ex_store1).1 = Ok (ex_executing, CommitApplied)) as H by (vm_compute; reflexivity).
  destruct (CompareAndSwap _ _ _ _ _ _ _ _) as [r s']. cbn in *. by rewrite H.
Qed.

Lemma load_head ctx key s c : ctx = Ok tt → ValidateCheckpointKey key = Ok tt → st_head s key = Some c → Load ctx key s = Ok c.
Proof. intros -> Hk H. unfold Load. rewrite Hk. cbn in *. destruct (s_records s !! key); by simplify_eq. Qed.

Lemma cas_head ctx ctx' now key expected next t s c s' :
  store_inv s → CompareAndSwap ctx ctx' now key expected next t s = (Ok (c, CommitApplied), s') → st_head s' key = Some c.
Proof.
  intros Hs H. destruct (CompareAndSwap_cases _ _ _ _ _ _ _ _ _ _ Hs H) as [(? & ? & _)|[(? & ? & _)|(rec & c1 & v & [= <-] & Happ)]]; [done|done|].
  last_of Happ. rewrite Happ. cbn. by rewrite lookup_insert_eq.
Qed.

Lemma ex_run_valid : ValidateCheckpointKey ex_run = Ok tt.
Proof. vm_compute. reflexivity. Qed.

Lemma ex_store2_head : Load (Ok tt) ex_run ex_store2 = Ok ex_executing.
Proof.
  apply load_head; [done|exact ex_run_valid|].
  exact (cas_head (Ok tt) (Ok tt) 6 ex_run 1 ex_executing ex_started ex_store1 ex_executing ex_store2 (memory_reach_inv _ ex_store1_reach) ex_cas_applied).
Qed.

Lemma checkpoint_history_is_legal_witness : ∃ v, LoadVersion (Ok tt) ex_run 1 ex_store2 = Ok v ∧ cp_Status (cv_Checkpoint v) = CheckpointReady.
Proof.
  destruct (checkpoint_history_is_legal ex_store2 ex_run ex_executing 1 ex_store2_reach ex_store2_head ltac:(cbn; lia)) as (v & H1 & _ & _ & H2 & _).
  exists v. split; [exact H1|exact (proj1 (H2 eq_refl))].
Defined.

Lemma commits_are_idempotent_witness :
  CompareAndSwap (Ok tt) (Ok tt) 9 ex_run 1 ex_executing ex_started ex_store2 = (Ok (ex_executing, CommitReplayed), ex_store2).
Proof.
  exact (proj1 (commits_are_idempotent (Ok tt) (Ok tt) 6 ex_run 1 ex_executing ex_started ex_store1 ex_executing ex_store2 9 ex_executing ex_started
                  ex_store1_reach ex_cas_applied)).
Defined.
