(* ===== verification/GraphExecutor.v ===== *)
(** * The graph executor

    [pkg/execution/graph]: [executor.go], [bindings.go] and [ports.go].  An
    executor is a program over the effects of its ports (checkpoint store, lease,
    planner, sandbox, approval, observer), the node, predicate and reducer
    implementations, its context and the clock.  A port call can panic; the
    [safe...] wrappers turn that into an error.

    An error is the list of sentinels joined in it, empty for nil.  An
    implementation is identified by its binding.  [drive] carries fuel; enough is
    given by [drive_fuel]. *)
From S2P Require Import Prelude Prog GoString Json Sha256 GraphContract GraphContext GraphState GraphValidate GraphStore.
From stdpp Require Import gmap strings list.
From Stdlib Require Import ZArith Lia.
Open Scope Z_scope.

(** ** Field updates of a checkpoint *)

Definition set_SegmentID (v : string) (c : Checkpoint) : Checkpoint :=
  mk_checkpoint (cp_Key c) v (cp_GraphID c) (cp_DefinitionRevision c) (cp_CompositionRevision c) (cp_ImplementationRevision c) (cp_HostGeneration c)
    (cp_CurrentNodeID c) (cp_Attempt c) (cp_AttemptID c) (cp_Steps c) (cp_Visits c) (cp_Revision c) (cp_State c) (cp_LastEdge c) (cp_PendingApprovalID
    c) (cp_ResolvedApproval c) (cp_Status c) (cp_FailureCode c).
Definition set_HostGeneration (v : Z) (c : Checkpoint) : Checkpoint :=
  mk_checkpoint (cp_Key c) (cp_SegmentID c) (cp_GraphID c) (cp_DefinitionRevision c) (cp_CompositionRevision c) (cp_ImplementationRevision c) v
    (cp_CurrentNodeID c) (cp_Attempt c) (cp_AttemptID c) (cp_Steps c) (cp_Visits c) (cp_Revision c) (cp_State c) (cp_LastEdge c) (cp_PendingApprovalID
    c) (cp_ResolvedApproval c) (cp_Status c) (cp_FailureCode c).
Definition set_CurrentNodeID (v : string) (c : Checkpoint) : Checkpoint :=
  mk_checkpoint (cp_Key c) (cp_SegmentID c) (cp_GraphID c) (cp_DefinitionRevision c) (cp_CompositionRevision c) (cp_ImplementationRevision c)
    (cp_HostGeneration c) v (cp_Attempt c) (cp_AttemptID c) (cp_Steps c) (cp_Visits c) (cp_Revision c) (cp_State c) (cp_LastEdge c)
    (cp_PendingApprovalID c) (cp_ResolvedApproval c) (cp_Status c) (cp_FailureCode c).
Definition set_Attempt (v : Z) (c : Checkpoint) : Checkpoint :=
  mk_checkpoint (cp_Key c) (cp_SegmentID c) (cp_GraphID c) (cp_DefinitionRevision c) (cp_CompositionRevision c) (cp_ImplementationRevision c)
    (cp_HostGeneration c) (cp_CurrentNodeID c) v (cp_AttemptID c) (cp_Steps c) (cp_Visits c) (cp_Revision c) (cp_State c) (cp_LastEdge c)
    (cp_PendingApprovalID c) (cp_ResolvedApproval c) (cp_Status c) (cp_FailureCode c).
Definition set_AttemptID (v : string) (c : Checkpoint) : Checkpoint :=
  mk_checkpoint (cp_Key c) (cp_SegmentID c) (cp_GraphID c) (cp_DefinitionRevision c) (cp_CompositionRevision c) (cp_ImplementationRevision c)
    (cp_HostGeneration c) (cp_CurrentNodeID c) (cp_Attempt c) v (cp_Steps c) (cp_Visits c) (cp_Revision c) (cp_State c) (cp_LastEdge c)
    (cp_PendingApprovalID c) (cp_ResolvedApproval c) (cp_Status c) (cp_FailureCode c).
Definition set_Steps (v : Z) (c : Checkpoint) : Checkpoint :=
  mk_checkpoint (cp_Key c) (cp_SegmentID c) (cp_GraphID c) (cp_DefinitionRevision c) (cp_CompositionRevision c) (cp_ImplementationRevision c)
    (cp_HostGeneration c) (cp_CurrentNodeID c) (cp_Attempt c) (cp_AttemptID c) v (cp_Visits c) (cp_Revision c) (cp_State c) (cp_LastEdge c)
    (cp_PendingApprovalID c) (cp_ResolvedApproval c) (cp_Status c) (cp_FailureCode c).
Definition set_Visits (v : gmap string Z) (c : Checkpoint) : Checkpoint :=
  mk_checkpoint (cp_Key c) (cp_SegmentID c) (cp_GraphID c) (cp_DefinitionRevision c) (cp_CompositionRevision c) (cp_ImplementationRevision c)
    (cp_HostGeneration c) (cp_CurrentNodeID c) (cp_Attempt c) (cp_AttemptID c) (cp_Steps c) v (cp_Revision c) (cp_State c) (cp_LastEdge c)
    (cp_PendingApprovalID c) (cp_ResolvedApproval c) (cp_Status c) (cp_FailureCode c).
Definition set_Revision (v : Z) (c : Checkpoint) : Checkpoint :=
  mk_checkpoint (cp_Key c) (cp_SegmentID c) (cp_GraphID c) (cp_DefinitionRevision c) (cp_CompositionRevision c) (cp_ImplementationRevision c)
    (cp_HostGeneration c) (cp_CurrentNodeID c) (cp_Attempt c) (cp_AttemptID c) (cp_Steps c) (cp_Visits c) v (cp_State c) (cp_LastEdge c)
    (cp_PendingApprovalID c) (cp_ResolvedApproval c) (cp_Status c) (cp_FailureCode c).
Definition set_LastEdge (v : option EdgeEvidence) (c : Checkpoint) : Checkpoint :=
  mk_checkpoint (cp_Key c) (cp_SegmentID c) (cp_GraphID c) (cp_DefinitionRevision c) (cp_CompositionRevision c) (cp_ImplementationRevision c)
    (cp_HostGeneration c) (cp_CurrentNodeID c) (cp_Attempt c) (cp_AttemptID c) (cp_Steps c) (cp_Visits c) (cp_Revision c) (cp_State c) v
    (cp_PendingApprovalID c) (cp_ResolvedApproval c) (cp_Status c) (cp_FailureCode c).
Definition set_PendingApprovalID (v : string) (c : Checkpoint) : Checkpoint :=
  mk_checkpoint (cp_Key c) (cp_SegmentID c) (cp_GraphID c) (cp_DefinitionRevision c) (cp_CompositionRevision c) (cp_ImplementationRevision c)
    (cp_HostGeneration c) (cp_CurrentNodeID c) (cp_Attempt c) (cp_AttemptID c) (cp_Steps c) (cp_Visits c) (cp_Revision c) (cp_State c) (cp_LastEdge c)
    v (cp_ResolvedApproval c) (cp_Status c) (cp_FailureCode c).
Definition set_ResolvedApproval (v : option ApprovalEvidence) (c : Checkpoint) : Checkpoint :=
  mk_checkpoint (cp_Key c) (cp_SegmentID c) (cp_GraphID c) (cp_DefinitionRevision c) (cp_CompositionRevision c) (cp_ImplementationRevision c)
    (cp_HostGeneration c) (cp_CurrentNodeID c) (cp_Attempt c) (cp_AttemptID c) (cp_Steps c) (cp_Visits c) (cp_Revision c) (cp_State c) (cp_LastEdge c)
    (cp_PendingApprovalID c) v (cp_Status c) (cp_FailureCode c).
Definition set_Status (v : CheckpointStatus) (c : Checkpoint) : Checkpoint :=
  mk_checkpoint (cp_Key c) (cp_SegmentID c) (cp_GraphID c) (cp_DefinitionRevision c) (cp_CompositionRevision c) (cp_ImplementationRevision c)
    (cp_HostGeneration c) (cp_CurrentNodeID c) (cp_Attempt c) (cp_AttemptID c) (cp_Steps c) (cp_Visits c) (cp_Revision c) (cp_State c) (cp_LastEdge c)
    (cp_PendingApprovalID c) (cp_ResolvedApproval c) v (cp_FailureCode c).
Definition set_FailureCode (v : string) (c : Checkpoint) : Checkpoint :=
  mk_checkpoint (cp_Key c) (cp_SegmentID c) (cp_GraphID c) (cp_DefinitionRevision c) (cp_CompositionRevision c) (cp_ImplementationRevision c)
    (cp_HostGeneration c) (cp_CurrentNodeID c) (cp_Attempt c) (cp_AttemptID c) (cp_Steps c) (cp_Visits c) (cp_Revision c) (cp_State c) (cp_LastEdge c)
    (cp_PendingApprovalID c) (cp_ResolvedApproval c) (cp_Status c) v.

(** ** Ports *)

Definition ErrExecutionFailed : string := "graph execution failed".
Definition ErrUnknownOutcome : string := "graph execution outcome is unknown".
Definition ErrApprovalPending : string := "graph execution is waiting for approval".
Definition ErrSegmentMismatch : string := "graph execution segment mismatch".
Definition ErrEdgeAmbiguous : string := "graph conditional edge selection is ambiguous".
Definition ErrExecutionInProgress : string := "graph execution is already in progress".
Definition ErrExecutionReplay : string := "graph execution commit was replayed".
Definition ErrNodePanic : string := "graph node panicked".
Definition ErrReducerPanic : string := "graph reducer panicked".
Definition ErrPredicatePanic : string := "graph predicate panicked".
Definition ErrPlannerPanic : string := "graph context planner panicked".
Definition ErrSandboxPanic : string := "graph sandbox authorizer panicked".
Definition ErrLeasePanic : string := "graph segment lease panicked".
Definition ErrLeaseUnavailable : string := "graph segment lease is unavailable".
Definition ErrContextUnavailable : string := "graph context planner is unavailable".
Definition ErrApprovalUnavailable : string := "graph approval authorization is unavailable".
Definition ErrApprovalAuthorizationFail : string := "graph approval authorization failed".
Definition ErrInvalidApproval : string := "invalid graph approval decision".
Definition ErrApprovalPanic : string := "graph approval authorizer panicked".
Definition ErrBindingMismatch : string := "graph implementation binding mismatch".
Definition Canceled : string := "context canceled".

Record LeaseRequest := mk_lease { lr_Key : CheckpointKey; lr_SegmentID : string; lr_HostGeneration : Z }.
Record ContextRequest := mk_context_request {
  cq_Key : CheckpointKey; cq_DefinitionRevision : string; cq_NodeID : string; cq_View : ContextView; cq_Budget : ContextBudget;
  cq_State : State; cq_PendingApprovalID : string; cq_ResolvedApproval : option ApprovalEvidence }.
Record SandboxRequest := mk_sandbox { sr_Lease : LeaseRequest; sr_NodeID : string; sr_Attempt : string }.

Inductive ApprovalDecisionCode := ApprovalDecisionApproved | ApprovalDecisionDenied | DecisionOther (s : string).
Definition decision_text (d : ApprovalDecisionCode) : string :=
  match d with ApprovalDecisionApproved => "approved" | ApprovalDecisionDenied => "denied" | DecisionOther s => s end.

Record ApprovalDecision := mk_decision {
  ad_TenantID : string; ad_Key : CheckpointKey; ad_ApprovalID : string; ad_Decision : ApprovalDecisionCode; ad_Revision : Z;
  ad_SourceSegmentID : string; ad_ActorID : string; ad_AuthorizationBasis : string }.

Record ApprovalAuthorizationRequest := mk_authorization {
  aq_Key : CheckpointKey; aq_PendingApprovalID : string; aq_CurrentRevision : Z; aq_SegmentID : string; aq_HostGeneration : Z;
  aq_Decision : ApprovalDecision }.

(** [unicode.In(r, unicode.Cf, unicode.Cs, unicode.Co)]; surrogates cannot be decoded. *)
Definition is_format_or_private (r : N) : bool :=
  existsb (λ p, in_range p.1 p.2 r)
    [(0xAD, 0xAD); (0x600, 0x605); (0x61C, 0x61C); (0x6DD, 0x6DD); (0x70F, 0x70F); (0x890, 0x891); (0x8E2, 0x8E2); (0x180E, 0x180E);
     (0x200B, 0x200F); (0x202A, 0x202E); (0x2060, 0x2064); (0x2066, 0x206F); (0xFEFF, 0xFEFF); (0xFFF9, 0xFFFB); (0x110BD, 0x110BD);
     (0x110CD, 0x110CD); (0x13430, 0x1343F); (0x1BCA0, 0x1BCA3); (0x1D173, 0x1D17A); (0xE0001, 0xE0001); (0xE0020, 0xE007F);
     (0xE000, 0xF8FF); (0xF0000, 0xFFFFD); (0x100000, 0x10FFFD)]%N.

Definition validApprovalText (value : string) (max : Z) : bool :=
  if bool_decide (value = "") || (max <? str_len value) || negb (valid_utf8 value) || negb (bool_decide (trim_space value = value))
  then false else negb (existsb (λ r, is_control r || is_format_or_private r) (runes value)).

Definition decision_Validate (d : ApprovalDecision) : result unit :=
  fail_when negb (validateCheckpointKey (ad_Key d)) with ErrInvalidApproval ;;
  fail_when bool_decide (ad_TenantID d = "") || negb (bool_decide (ad_TenantID d = k_TenantID (ad_Key d)))
            || negb (validApprovalText (ad_TenantID d) MaxCheckpointIDBytes) with ErrInvalidApproval ;;
  fail_when negb (validApprovalText (ad_ApprovalID d) MaxCheckpointIDBytes) || (ad_Revision d =? 0)
            || negb (validApprovalText (ad_SourceSegmentID d) MaxCheckpointIDBytes) || negb (validApprovalText (ad_ActorID d) MaxApprovalActorBytes)
            || negb (validApprovalText (ad_AuthorizationBasis d) MaxApprovalBasisBytes) with ErrInvalidApproval ;;
  match ad_Decision d with DecisionOther _ => Err ErrInvalidApproval | _ => Ok tt end.

(** ** Bindings *)

(** Metadata of a bound implementation; [ib_bound] says that it is not nil. *)
Record Binding := mk_binding { ib_ID : string; ib_Version : string; ib_Revision : string; ib_bound : bool }.
Record Bindings := mk_bindings {
  b_definitionRevision : string; b_compositionRevision : string; b_implementationRevision : string;
  b_nodes : gmap string Binding; b_reducer : Binding; b_predicates : gmap string Binding }.

Definition bindingKey (id version : string) : string := id +:+ nul +:+ version.

Definition validBindingID (value : string) : bool :=
  if bool_decide (value = "") || (MaxCheckpointIDBytes <? str_len value) || negb (valid_utf8 value) || negb (bool_decide (trim_space value = value))
  then false else negb (existsb (λ r, is_control r || is_space r) (runes value)).

Definition BuiltinReducerBinding (revision : string) : Binding := mk_binding ReducerTopLevelJSONPatch "1" revision false.

Definition bind (bound : gmap string Binding) (b : Binding) : result (gmap string Binding) :=
  fail_when negb (validBindingID (ib_ID b)) || negb (validBindingID (ib_Version b)) || negb (validBindingID (ib_Revision b)) || negb (ib_bound b)
    with ErrBindingMismatch ;;
  fail_when bool_decide (is_Some (bound !! bindingKey (ib_ID b) (ib_Version b))) with ErrBindingMismatch ;;
  Ok (<[bindingKey (ib_ID b) (ib_Version b) := b]> bound).

Definition json_of_binding (kind : string) (b : Binding) : json :=
  JObj [("Type", json_of_str kind); ("ID", json_of_str (ib_ID b)); ("Version", json_of_str (ib_Version b)); ("Revision", json_of_str (ib_Revision b))].
(** The sort key [Type \0 ID \0 Version]. *)
Definition binding_sort_key (p : string * Binding) : string := p.1 +:+ nul +:+ bindingKey (ib_ID p.2) (ib_Version p.2).

Definition implementationSetRevision (nodes predicates : gmap string Binding) (reducer : Binding) : string :=
  let items := ((λ kv : string * Binding, ("node", kv.2)) <$> map_to_list nodes) ++ [("reducer", reducer)]
               ++ ((λ kv : string * Binding, ("predicate", kv.2)) <$> map_to_list predicates) in
  sha256_hex (json_text (JArr ((λ p, json_of_binding p.1 p.2) <$> sort_by binding_sort_key items))).

Definition NewBindings (definition : Definition_) (compositionRevision : string) (nodes : list Binding) (reducer : Binding) (predicates : list Binding) :
    result Bindings :=
  fail_when bool_decide (d_Revision definition = "") || negb (validBindingID compositionRevision) with ErrBindingMismatch ;;
  fail_when bool_decide (length nodes = 0%nat) || (MaxRegistryEntries <? Z.of_nat (length nodes)) || (MaxRegistryEntries <? Z.of_nat (length predicates))
    with ErrBindingMismatch ;;
  let! bound := rfold bind ∅ nodes in
  fail_when negb (validBindingID (ib_ID reducer)) || negb (validBindingID (ib_Version reducer)) || negb (validBindingID (ib_Revision reducer))
    with ErrBindingMismatch ;;
  fail_when negb (bool_decide (ib_ID reducer = ReducerTopLevelJSONPatch)) && negb (ib_bound reducer) with ErrBindingMismatch ;;
  let! preds := rfold bind ∅ predicates in
  fail_when negb (bool_decide (ib_ID reducer = ss_Reducer (d_State definition)))
            || negb (bool_decide (ib_Version reducer = ss_ReducerVersion (d_State definition))) with ErrBindingMismatch ;;
  fail_when negb (forallb (λ spec, bool_decide (is_Some (bound !! bindingKey (n_Kind spec) (n_KindVersion spec)))) (d_Nodes definition))
    with ErrBindingMismatch ;;
  fail_when negb (forallb (λ edge, match e_Kind edge with
                                   | EdgeConditional => bool_decide (is_Some (preds !! bindingKey (e_Predicate edge) (e_PredicateVersion edge)))
                                   | _ => true
                                   end) (d_Edges definition)) with ErrBindingMismatch ;;
  Ok (mk_bindings (d_Revision definition) compositionRevision (implementationSetRevision bound preds reducer) bound reducer preds).

(** ** Outcome codes and events *)

Definition OutcomeCreated : string := "created".
Definition OutcomeNodeStarted : string := "node_started".
Definition OutcomeApprovalPending : string := "approval_pending".
Definition OutcomeRetry : string := "retry".
Definition OutcomeErrorEdge : string := "error_edge".
Definition OutcomeEdgeSelected : string := "edge_selected".
Definition OutcomeCompleted : string := "completed".
Definition OutcomeCancelled : string := "cancelled".
Definition OutcomeRecoveryUnknown : string := "recovery_unknown".
Definition OutcomeInterruptedUnknown : string := "interrupted_unknown".
Definition OutcomeNodeTimeout : string := "node_timeout".
Definition OutcomeNodeFailed : string := "node_failed".
Definition OutcomeBindingMissing : string := "binding_missing".
Definition OutcomeLeaseUnavailable : string := "lease_unavailable".
Definition OutcomeSandboxUnavailable : string := "sandbox_unavailable".
Definition OutcomeSandboxDenied : string := "sandbox_denied".
Definition OutcomeContextUnavailable : string := "context_unavailable".
Definition OutcomeInvalidApproval : string := "invalid_approval".
Definition OutcomeReducerFailed : string := "reducer_failed".
Definition OutcomeEdgeSelectionFailed : string := "edge_selection_failed".
Definition OutcomeStepLimit : string := "step_limit".
Definition OutcomeVisitLimit : string := "visit_limit".
Definition OutcomeUnknownNode : string := "unknown_node".
Definition OutcomeApprovalApproved : string := "approval_approved".
Definition OutcomeApprovalDenied : string := "approval_denied".
Definition OutcomePreflightFailed : string := "preflight_failed".
Definition OutcomeUnknown : string := "unknown".

Definition ValidOutcomeCode (value : string) : bool :=
  bool_decide (value ∈ [OutcomeCreated; OutcomeNodeStarted; OutcomeApprovalPending; OutcomeRetry; OutcomeErrorEdge; OutcomeEdgeSelected;
    OutcomeCompleted; OutcomeCancelled; OutcomeRecoveryUnknown; OutcomeInterruptedUnknown; OutcomeNodeTimeout; OutcomeNodeFailed;
    OutcomePreflightFailed; OutcomeBindingMissing; OutcomeLeaseUnavailable; OutcomeSandboxUnavailable; OutcomeSandboxDenied;
    OutcomeContextUnavailable; OutcomeInvalidApproval; OutcomeReducerFailed; OutcomeEdgeSelectionFailed; OutcomeStepLimit; OutcomeVisitLimit;
    OutcomeUnknownNode; OutcomeApprovalApproved; OutcomeApprovalDenied; OutcomeUnknown]).

Definition NormalizeOutcomeCode (value : string) : string := if ValidOutcomeCode value then value else OutcomeUnknown.

Record Event := mk_event {
  ev_Kind : string; ev_GraphID : string; ev_DefinitionRevision : string; ev_NodeID : string; ev_NodeKind : string;
  ev_Status : CheckpointStatus; ev_CheckpointRevision : Z; ev_Step : Z; ev_Attempt : Z; ev_OutcomeCode : string;
  ev_EdgeKind : EdgeKind; ev_Key : CheckpointKey; ev_SegmentID : string; ev_AttemptID : string; ev_Duration : Z;
  ev_ContextPlanRevision : string; ev_ContextEstimatedTokens : Z }.

(** ** Requests and results *)

Record StartRequest := mk_start { sq_Key : CheckpointKey; sq_SegmentID : string; sq_HostGeneration : Z; sq_InitialState : State }.
Record ResumeRequest := mk_resume {
  rq_Key : CheckpointKey; rq_SegmentID : string; rq_HostGeneration : Z; rq_ApprovalID : string; rq_Approved : bool; rq_Decision : ApprovalDecision }.

Record NodeRequest := mk_node_request {
  nr_Spec : NodeSpec; nr_State : State; nr_Context : ContextPlan; nr_ResolvedApproval : option ApprovalEvidence; nr_AttemptID : string;
  nr_SegmentID : string }.

(** What the executor asks of a node's error: [errors.Is(err, DeadlineExceeded)],
    [errors.As(err, *ApprovalPendingError)], [errors.Is(err, ErrNodePanic)] and
    [errors.As(err, RetryableError)] with its answer. *)
Record NodeError := mk_node_error { ne_deadline : bool; ne_pending : option string; ne_panic : bool; ne_retryable : bool }.

(** The zero checkpoint of an empty [Result] is [None]. *)
Record outcome := mk_outcome { o_Checkpoint : option Checkpoint; o_Suspended : bool; o_error : list string }.

(** ** Effects *)

Inductive call (A : Type) : Type := Returns (r : result A) | Panics.
Arguments Returns {A} r.
Arguments Panics {A}.

(** A deferred [recover]. *)
Definition safely {A} (panic : string) (c : call A) : result A := match c with Returns r => r | Panics => Err panic end.

Inductive NodeAnswer := NodeReturns (patch : StatePatch) | NodeFails (e : NodeError) | NodePanics.

Definition safeNodeExecute (a : NodeAnswer) : StatePatch + NodeError :=
  match a with
  | NodeReturns patch => inl patch
  | NodeFails e => inr e
  | NodePanics => inr (mk_node_error false None true false)
  end.

(** [durable] marks a context that does not inherit the caller's cancellation. *)
Inductive GE : Type → Type :=
| CtxErr : GE bool
| StoreLoad (key : CheckpointKey) : GE (result Checkpoint)
| StoreCreate (c : Checkpoint) (t : Transition) : GE (result (Checkpoint * CommitDisposition))
| StoreCAS (durable : bool) (key : CheckpointKey) (expected : Z) (next : Checkpoint) (t : Transition) : GE (result (Checkpoint * CommitDisposition))
| LeaseVerify (durable : bool) (req : LeaseRequest) : GE (call unit)
| LeaseRelease (req : LeaseRequest) : GE (call unit)
| PlanContext (req : ContextRequest) : GE (call ContextPlan)
| SandboxAuthorize (req : SandboxRequest) : GE (call unit)
| ApprovalAuthorize (req : ApprovalAuthorizationRequest) : GE (call unit)
| NodeExecute (binding : Binding) (req : NodeRequest) : GE NodeAnswer
| AttemptClock : GE (Z * bool)
| ReduceState (binding : Binding) (s : State) (p : StatePatch) : GE (call State)
| EvaluatePredicate (binding : Binding) (s : State) : GE (call bool)
| Observe (e : Event) : GE (call unit)
| Backoff (d : Z) : GE bool.

Record Executor := mk_executor {
  x_definition : Definition_; x_bindings : Bindings; x_observer : bool; x_lease : bool; x_planner : bool; x_sandbox : bool; x_approval : bool }.

Definition NewExecutorWithOptions (definition : Definition_) (bindings : Bindings) (observer lease planner sandbox approval : bool) : result Executor :=
  fail_when bool_decide (d_Revision definition = "") with ErrBindingMismatch ;;
  fail_when negb (bool_decide (b_definitionRevision bindings = d_Revision definition)) with ErrBindingMismatch ;;
  Ok (mk_executor definition bindings observer lease planner sandbox approval).

(** ** Pure helpers *)

Fixpoint find_node (nodes : list NodeSpec) (id : string) : option NodeSpec :=
  match nodes with [] => None | n :: nodes => if bool_decide (n_ID n = id) then Some n else find_node nodes id end.
Definition findNode (def : Definition_) (id : string) : option NodeSpec := find_node (d_Nodes def) id.

Fixpoint find_error_edge (edges : list EdgeSpec) (from : string) : option EdgeSpec :=
  match edges with
  | [] => None
  | e :: edges => if bool_decide (e_From e = from) && bool_decide (e_Kind e = EdgeError) then Some e else find_error_edge edges from
  end.
Definition errorEdge (def : Definition_) (from : string) : option EdgeSpec := find_error_edge (d_Edges def) from.

Definition attempts (spec : NodeSpec) : Z := if rp_MaxAttempts (n_Retry spec) =? 0 then 1 else rp_MaxAttempts (n_Retry spec).

Definition failureCode (e : NodeError) : string := if ne_deadline e then OutcomeNodeTimeout else OutcomeNodeFailed.

Definition terminalError (c : Checkpoint) : list string :=
  match cp_Status c with
  | CheckpointUnknown => [ErrUnknownOutcome]
  | CheckpointFailed => [ErrExecutionFailed]
  | CheckpointCancelled => [Canceled]
  | _ => []
  end.

Definition stableAttemptID (key : CheckpointKey) (nodeID : string) (attempt revision : Z) : string :=
  "a-" +:+ sha256_hex (key_String key +:+ nul +:+ nodeID +:+ nul +:+ z_text attempt +:+ nul +:+ z_text revision).

Definition leaseForCheckpoint (c : Checkpoint) : LeaseRequest := mk_lease (cp_Key c) (cp_SegmentID c) (cp_HostGeneration c).

Definition moveTo (c : Checkpoint) (edge : EdgeSpec) : Checkpoint :=
  set_LastEdge (Some (mk_evidence (e_From edge) (e_To edge) (e_Kind edge) (e_Predicate edge)))
    (set_ResolvedApproval None (set_FailureCode "" (set_AttemptID "" (set_Attempt 0 (set_CurrentNodeID (e_To edge) (set_Status CheckpointReady c)))))).

(** [previous] is [None] for the zero checkpoint of a creation. *)
Definition transitionFor (previous : option Checkpoint) (next : Checkpoint) (code : string) : Transition :=
  let sourced := match previous with Some p => negb (bool_decide (cp_CurrentNodeID p = "")) | None => false end in
  let source {A} (f : Checkpoint → A) (zero : A) := match previous with Some p => if sourced then f p else zero | None => zero end in
  mk_transition (TransitionID (cp_Key next) (cp_Revision next)) (cp_Key next) (cp_Revision next)
    (match previous with Some p => cp_Status p | None => StatusOther "" end) (cp_Status next) (cp_SegmentID next)
    (source cp_SegmentID "") (source cp_HostGeneration 0) (source cp_CurrentNodeID "") (source cp_AttemptID "")
    (cp_CurrentNodeID next) (cp_AttemptID next) code
    (if bool_decide (code = OutcomeEdgeSelected) || bool_decide (code = OutcomeErrorEdge) then cp_LastEdge next else None) None.

Definition set_approval (a : option ApprovalEvidence) (t : Transition) : Transition :=
  mk_transition (t_ID t) (t_Key t) (t_Revision t) (t_From t) (t_To t) (t_SegmentID t) (t_SourceSegmentID t) (t_SourceHostGeneration t)
    (t_SourceNodeID t) (t_SourceAttemptID t) (t_CurrentNodeID t) (t_AttemptID t) (t_OutcomeCode t) (t_Edge t) a.

Definition projectState (input : State) (fields : list string) : State := filter (λ kv, kv.1 ∈ fields) input.

(** An [int64] sum; a validated plan stays far below its range. *)
Definition contextEstimate (plan : ContextPlan) : Z := foldr (λ s n, cs_EstimatedTokens s + n) 0 (pl_Sources plan).

Definition no_plan : ContextPlan := mk_plan "" "" (mk_view [] []) (mk_budget 0 0 0 ∅) [] "".

Definition eventForAttempt (kind : string) (def : Definition_) (c : Checkpoint) (spec : option NodeSpec) (attempt : string) (duration : Z)
    (plan : ContextPlan) (code : string) : Event :=
  mk_event kind (d_ID def) (cp_DefinitionRevision c) (match spec with Some s => n_ID s | None => "" end)
    (match spec with Some s => n_Kind s | None => "" end) (cp_Status c) (cp_Revision c) (cp_Steps c) (cp_Attempt c) code (EdgeOther "")
    (cp_Key c) (cp_SegmentID c) attempt duration (pl_PlanRevision plan) (contextEstimate plan).

Definition eventFor (kind : string) (def : Definition_) (c : Checkpoint) (code : string) : Event :=
  eventForAttempt kind def c (findNode def (cp_CurrentNodeID c)) (cp_AttemptID c) 0 no_plan code.

Definition edgeEvent (def : Definition_) (c : Checkpoint) (spec : NodeSpec) (attempt : string) (duration : Z) (plan : ContextPlan) (edge : EdgeSpec) : Event :=
  let e := eventForAttempt "node_end" def c (Some spec) attempt duration plan OutcomeEdgeSelected in
  mk_event (ev_Kind e) (ev_GraphID e) (ev_DefinitionRevision e) (ev_NodeID e) (ev_NodeKind e) (ev_Status e) (ev_CheckpointRevision e)
    (ev_Step e) (ev_Attempt e) (ev_OutcomeCode e) (e_Kind edge) (ev_Key e) (ev_SegmentID e) (ev_AttemptID e) (ev_Duration e)
    (ev_ContextPlanRevision e) (ev_ContextEstimatedTokens e).

Definition evidence_of (d : ApprovalDecision) : ApprovalEvidence :=
  mk_approval (ad_TenantID d) (ad_ApprovalID d) (decision_text (ad_Decision d)) (ad_Revision d) (ad_SourceSegmentID d) (ad_ActorID d)
    (ad_AuthorizationBasis d).

(** ** The executor *)

Section Exec.
Context (e : Executor).
Notation def := (x_definition e).
Notation gprog := (prog GE).

Definition emit (ev : Event) : gprog unit :=
  if x_observer e then let* _ := ask (Observe ev) in Ret tt else Ret tt.

Definition verifyLease (durable : bool) (req : LeaseRequest) : gprog (result unit) :=
  if negb (x_lease e) then Ret (Err ErrLeaseUnavailable) else
  let* r := ask (LeaseVerify durable req) in
  Ret (match safely ErrLeasePanic r with Ok _ => Ok tt | Err _ => Err ErrLeaseUnavailable end).

(** The joined error of a release, empty when it succeeds. *)
Definition releaseLease (req : LeaseRequest) : gprog (list string) :=
  if negb (x_lease e) then Ret [ErrLeaseUnavailable] else
  let* r := ask (LeaseRelease req) in
  Ret (match safely ErrLeasePanic r with Ok _ => [] | Err _ => [ErrLeaseUnavailable] end).

Definition commitWithEvidence (durable : bool) (previous next : Checkpoint) (code : string) (approval : option ApprovalEvidence) (lease : LeaseRequest) :
    gprog (result (Checkpoint * CommitDisposition)) :=
  let next := set_Revision (u64_succ (cp_Revision previous)) next in
  let t := set_approval approval (transitionFor (Some previous) next code) in
  let* lv := verifyLease durable lease in
  match lv with
  | Err err => Ret (Err err)
  | Ok _ =>
    let* r := ask (StoreCAS durable (cp_Key previous) (cp_Revision previous) next t) in
    Ret (match r with
         | Err err => Err err
         | Ok (committed, disposition) => if disposition_valid disposition then Ok (committed, disposition) else Err ErrExecutionFailed
         end)
  end.

Definition commit (durable : bool) (previous next : Checkpoint) (code : string) (lease : LeaseRequest) : gprog (result (Checkpoint * CommitDisposition)) :=
  commitWithEvidence durable previous next code None lease.

Definition commitWithApproval (previous next : Checkpoint) (code : string) (decision : ApprovalDecision) (lease : LeaseRequest) :
    gprog (result (Checkpoint * CommitDisposition)) :=
  commitWithEvidence false previous next code (Some (evidence_of decision)) lease.

(** Emission of an event of a commit that this call applied. *)
Definition emit_applied (d : CommitDisposition) (ev : Event) : gprog unit :=
  match d with CommitApplied => emit ev | _ => Ret tt end.

(** The second commit of [fail]; [c] is executing. *)
Definition fail_executing (c : Checkpoint) (code : string) : gprog outcome :=
  let next := set_ResolvedApproval None (set_AttemptID "" (set_FailureCode code (set_Status CheckpointFailed c))) in
  let* r := commit true c next code (leaseForCheckpoint c) in
  match r with
  | Err err => Ret (mk_outcome (Some c) false [err])
  | Ok (committed, disposition) =>
    let* _ := emit_applied disposition (eventForAttempt "failed" def committed (findNode def (cp_CurrentNodeID c)) (cp_AttemptID c) 0 no_plan code) in
    Ret (mk_outcome (Some committed) false [ErrExecutionFailed])
  end.

Definition fail (c : Checkpoint) (code : string) : gprog outcome :=
  match cp_Status c with
  | CheckpointReady =>
    let attempt := cp_Attempt c + 1 in
    let executing := set_AttemptID (stableAttemptID (cp_Key c) (cp_CurrentNodeID c) attempt (u64_succ (cp_Revision c)))
                       (set_Attempt attempt (set_Status CheckpointExecuting c)) in
    let* r := commit true c executing OutcomePreflightFailed (leaseForCheckpoint c) in
    match r with
    | Err err => Ret (mk_outcome (Some c) false [err])
    | Ok (committed, CommitReplayed) => Ret (mk_outcome (Some committed) false [ErrExecutionInProgress])
    | Ok (committed, _) => fail_executing committed code
    end
  | _ => fail_executing c code
  end.

Definition cancel (c : Checkpoint) : gprog outcome :=
  match cp_Status c with
  | CheckpointReady | CheckpointExecuting =>
    let next := set_ResolvedApproval None (set_AttemptID "" (set_FailureCode OutcomeCancelled (set_Status CheckpointCancelled c))) in
    let* r := commit true c next OutcomeCancelled (leaseForCheckpoint c) in
    match r with
    | Err err => Ret (mk_outcome (Some c) false [err])
    | Ok (committed, disposition) =>
      let* _ := emit_applied disposition
                  (eventForAttempt "cancelled" def committed (findNode def (cp_CurrentNodeID c)) (cp_AttemptID c) 0 no_plan OutcomeCancelled) in
      Ret (mk_outcome (Some committed) false [Canceled])
    end
  | _ => Ret (mk_outcome (Some c) false (terminalError c))
  end.

Definition reduce (s : State) (patch : StatePatch) : gprog (result State) :=
  if bool_decide (ib_ID (b_reducer (x_bindings e)) = ReducerTopLevelJSONPatch) then Ret (ApplyStatePatch (d_State def) s patch)
  else let* r := ask (ReduceState (b_reducer (x_bindings e)) s patch) in
       Ret (match safely ErrReducerPanic r with Ok next => ValidateState (d_State def) next | Err err => Err err end).

(** The loop of [selectEdge]; [inr] is the error. *)
Fixpoint select_edge (edges : list EdgeSpec) (from : string) (s : State) (fallback selected : option EdgeSpec) : gprog (EdgeSpec + string) :=
  match edges with
  | [] => Ret (match selected, fallback with Some edge, _ => inl edge | None, Some edge => inl edge | None, None => inr "no edge selected" end)
  | edge :: edges =>
    if negb (bool_decide (e_From edge = from)) || bool_decide (e_Kind edge = EdgeError) then select_edge edges from s fallback selected
    else if bool_decide (e_Kind edge = EdgeDefault) then select_edge edges from s (Some edge) selected
    else match b_predicates (x_bindings e) !! bindingKey (e_Predicate edge) (e_PredicateVersion edge) with
         | None => Ret (inr ErrBindingMismatch)
         | Some binding =>
           let* r := ask (EvaluatePredicate binding s) in
           match safely ErrPredicatePanic r with
           | Err err => Ret (inr err)
           | Ok false => select_edge edges from s fallback selected
           | Ok true => match selected with
                        | Some _ => Ret (inr ErrEdgeAmbiguous)
                        | None => select_edge edges from s fallback (Some edge)
                        end
           end
         end
  end.
Definition selectEdge (from : string) (s : State) : gprog (EdgeSpec + string) := select_edge (d_Edges def) from s None None.

Definition plan (c : Checkpoint) (spec : NodeSpec) : gprog (result ContextPlan) :=
  if negb (x_planner e) then Ret (Err ErrContextUnavailable) else
  let* r := ask (PlanContext (mk_context_request (cp_Key c) (cp_DefinitionRevision c) (n_ID spec) (n_ContextView spec) (n_ContextBudget spec)
                                (projectState (cp_State c) (cv_StateFields (n_ContextView spec))) (cp_PendingApprovalID c) (cp_ResolvedApproval c))) in
  Ret (match safely ErrPlannerPanic r with
       | Err err => Err err
       | Ok p => if negb (is_ok (ValidateContextPlan p)) || negb (bool_decide (pl_DefinitionRevision p = cp_DefinitionRevision c))
                    || negb (bool_decide (pl_View p = n_ContextView spec)) || negb (bool_decide (pl_Budget p = n_ContextBudget spec))
                 then Err ErrContextUnavailable else Ok p
       end).

(** The rest of an iteration either ends the run ([inl]) or goes on with the next
    ready checkpoint ([inr]). *)
Notation step := (gprog (outcome + Checkpoint)).

Definition stop (p : gprog outcome) : step := let* o := p in Ret (inl o).

(** A commit that leads to the next iteration, with its event. *)
Definition advance (executing next : Checkpoint) (code : string) (lease : LeaseRequest) (ev : Checkpoint → Event) (k : Checkpoint → step) : step :=
  let* r := commit false executing next code lease in
  match r with
  | Err err => Ret (inl (mk_outcome (Some executing) false [err]))
  | Ok (next, CommitReplayed) => Ret (inl (mk_outcome (Some next) false [ErrExecutionReplay]))
  | Ok (next, _) => let* _ := emit (ev next) in k next
  end.

Definition suspend (executing : Checkpoint) (spec : NodeSpec) (lease : LeaseRequest) (duration : Z) (p : ContextPlan) (approvalID : string) : gprog outcome :=
  if negb (validBindingID approvalID) then fail executing OutcomeInvalidApproval else
  let next := set_ResolvedApproval None (set_PendingApprovalID approvalID (set_Status CheckpointWaitingApproval executing)) in
  let* r := commit false executing next OutcomeApprovalPending lease in
  match r with
  | Err err => Ret (mk_outcome (Some executing) false [err])
  | Ok (next, disposition) =>
    let* _ := emit_applied disposition (eventForAttempt "suspended" def next (Some spec) (cp_AttemptID executing) duration p OutcomeApprovalPending) in
    let* released := releaseLease lease in
    Ret (mk_outcome (Some next) true (ErrApprovalPending :: released))
  end.

Definition retry (executing : Checkpoint) (spec : NodeSpec) (lease : LeaseRequest) (duration : Z) (p : ContextPlan) (err : NodeError) : step :=
  advance executing (set_AttemptID "" (set_Status CheckpointReady executing)) OutcomeRetry lease
    (λ next, eventForAttempt "retry" def next (Some spec) (cp_AttemptID executing) duration p (failureCode err))
    (λ next, if 0 <? rp_Backoff (n_Retry spec)
             then let* done := ask (Backoff (rp_Backoff (n_Retry spec))) in
                  if (done : bool) then stop (cancel next) else Ret (inr next)
             else Ret (inr next)).

Definition node_error (executing : Checkpoint) (spec : NodeSpec) (lease : LeaseRequest) (duration : Z) (p : ContextPlan) (err : NodeError) : step :=
  match ne_pending err with
  | Some approvalID => stop (suspend executing spec lease duration p approvalID)
  | None =>
    if ne_panic err then Ret (inl (mk_outcome (Some executing) false [ErrNodePanic]))
    else if ne_retryable err && (cp_Attempt executing <? attempts spec) then retry executing spec lease duration p err
    else match errorEdge def (n_ID spec) with
         | Some edge => advance executing (moveTo executing edge) OutcomeErrorEdge lease
                          (λ next, edgeEvent def next spec (cp_AttemptID executing) duration p edge) (λ next, Ret (inr next))
         | None => stop (fail executing (failureCode err))
         end
  end.

Definition node_success (executing : Checkpoint) (spec : NodeSpec) (lease : LeaseRequest) (duration : Z) (p : ContextPlan) (patch : StatePatch) : step :=
  let* reduced := reduce (cp_State executing) patch in
  let* cancelled := ask CtxErr in
  if (cancelled : bool) then stop (cancel executing) else
  match reduced with
  | Err _ => stop (fail executing OutcomeReducerFailed)
  | Ok state =>
    if n_Terminal spec then
      let next := set_ResolvedApproval None (set_AttemptID "" (set_state state (set_Status CheckpointCompleted executing))) in
      let* r := commit false executing next OutcomeCompleted lease in
      match r with
      | Err err => Ret (inl (mk_outcome (Some executing) false [err]))
      | Ok (next, disposition) =>
        let* _ := emit_applied disposition (eventForAttempt "completed" def next (Some spec) (cp_AttemptID executing) duration p OutcomeCompleted) in
        Ret (inl (mk_outcome (Some next) false []))
      end
    else
      let* chosen := selectEdge (n_ID spec) state in
      let* cancelled := ask CtxErr in
      if (cancelled : bool) then stop (cancel executing) else
      match chosen with
      | inr err =>
        let kind := if bool_decide (err = ErrEdgeAmbiguous) then "edge_ambiguous" else "node_error" in
        let* _ := emit (eventForAttempt kind def executing (Some spec) (cp_AttemptID executing) duration p OutcomeEdgeSelectionFailed) in
        stop (fail executing OutcomeEdgeSelectionFailed)
      | inl edge => advance executing (set_state state (moveTo executing edge)) OutcomeEdgeSelected lease
                      (λ next, edgeEvent def next spec (cp_AttemptID executing) duration p edge) (λ next, Ret (inr next))
      end
  end.

(** The node has run: its context, lease and answer. *)
Definition settle (executing : Checkpoint) (spec : NodeSpec) (lease : LeaseRequest) (p : ContextPlan) (answer : NodeAnswer) (duration : Z) (timedOut : bool) : step :=
  let* cancelled := ask CtxErr in
  if (cancelled : bool) then stop (cancel executing) else
  let* lv := verifyLease false lease in
  match lv with
  | Err err => Ret (inl (mk_outcome (Some executing) false [err]))
  | Ok _ =>
    if timedOut then
      let* _ := emit (eventForAttempt "timeout" def executing (Some spec) (cp_AttemptID executing) duration p OutcomeNodeTimeout) in
      node_error executing spec lease duration p (mk_node_error true None false false)
    else match safeNodeExecute answer with
         | inr err => node_error executing spec lease duration p err
         | inl patch => node_success executing spec lease duration p patch
         end
  end.

(** The attempt is committed as executing: preflight, then the node. *)
Definition run_attempt (executing : Checkpoint) (spec : NodeSpec) (lease : LeaseRequest) : step :=
  match b_nodes (x_bindings e) !! bindingKey (n_Kind spec) (n_KindVersion spec) with
  | None => stop (fail executing OutcomeBindingMissing)
  | Some binding =>
    let* lv := verifyLease false lease in
    match lv with
    | Err err => Ret (inl (mk_outcome (Some executing) false [err]))
    | Ok _ =>
      let* refused := if n_UsesSandbox spec then
                        if negb (x_sandbox e) then Ret (Some OutcomeSandboxUnavailable)
                        else let* r := ask (SandboxAuthorize (mk_sandbox lease (n_ID spec) (cp_AttemptID executing))) in
                             Ret (match safely ErrSandboxPanic r with Ok _ => None | Err _ => Some OutcomeSandboxDenied end)
                      else Ret None in
      match refused with
      | Some code => stop (fail executing code)
      | None =>
        let* planned := plan executing spec in
        match planned with
        | Err _ => let* cancelled := ask CtxErr in
                   if (cancelled : bool) then stop (cancel executing) else stop (fail executing OutcomeContextUnavailable)
        | Ok p =>
          let* answer := ask (NodeExecute binding (mk_node_request spec (projectState (cp_State executing) (cv_StateFields (n_ContextView spec))) p
                                                     (cp_ResolvedApproval executing) (cp_AttemptID executing) (cp_SegmentID executing))) in
          let* (duration, timedOut) := ask AttemptClock in
          settle executing spec lease p answer duration timedOut
        end
      end
    end
  end.

(** The executing checkpoint of a new attempt, or of the resumed one. *)
Definition start_attempt (c : Checkpoint) (spec : NodeSpec) : Checkpoint :=
  let executing := set_Status CheckpointExecuting c in
  if bool_decide (cp_AttemptID c = "") then
    let attempt := cp_Attempt c + 1 in
    set_Visits (<[n_ID spec := default 0 (cp_Visits c !! n_ID spec) + 1]> (cp_Visits c))
      (set_Steps (cp_Steps c + 1)
        (set_AttemptID (stableAttemptID (cp_Key c) (n_ID spec) attempt (u64_succ (cp_Revision c))) (set_Attempt attempt executing)))
  else executing.

Definition begin_attempt (c : Checkpoint) (spec : NodeSpec) : step :=
  let lease := leaseForCheckpoint c in
  let* r := commit false c (start_attempt c spec) OutcomeNodeStarted lease in
  match r with
  | Err err => Ret (inl (mk_outcome (Some c) false [err]))
  | Ok (executing, CommitReplayed) => Ret (inl (mk_outcome (Some executing) false [ErrExecutionInProgress]))
  | Ok (executing, _) =>
    let* _ := emit (eventFor "node_start" def executing "") in
    run_attempt executing spec lease
  end.

(** One iteration on a ready checkpoint. *)
Definition iterate (c : Checkpoint) : step :=
  match findNode def (cp_CurrentNodeID c) with
  | None => stop (fail c OutcomeUnknownNode)
  | Some spec =>
    if bool_decide (cp_AttemptID c = "") && (li_MaxSteps (d_Limits def) <=? cp_Steps c) then stop (fail c OutcomeStepLimit)
    else if bool_decide (cp_AttemptID c = "") && (0 <? li_MaxVisitsPerNode (d_Limits def))
            && (li_MaxVisitsPerNode (d_Limits def) <=? default 0 (cp_Visits c !! n_ID spec)) then stop (fail c OutcomeVisitLimit)
    else begin_attempt c spec
  end.

Fixpoint drive (fuel : nat) (c : Checkpoint) : gprog (option outcome) :=
  match fuel with
  | O => Ret None
  | S fuel =>
    let* cancelled := ask CtxErr in
    if (cancelled : bool) then let* o := cancel c in Ret (Some o) else
    match cp_Status c with
    | CheckpointCompleted => Ret (Some (mk_outcome (Some c) false []))
    | CheckpointWaitingApproval => Ret (Some (mk_outcome (Some c) true [ErrApprovalPending]))
    | CheckpointFailed | CheckpointCancelled | CheckpointUnknown => Ret (Some (mk_outcome (Some c) false (terminalError c)))
    | CheckpointExecuting => Ret (Some (mk_outcome (Some c) false [ErrUnknownOutcome]))
    | StatusOther _ => Ret (Some (mk_outcome (Some c) false [ErrExecutionFailed]))
    | CheckpointReady =>
      let* r := iterate c in
      match r with inl o => Ret (Some o) | inr next => drive fuel next end
    end
  end.

(** Enough iterations: one per step left, one for a resumed attempt, one for the end. *)
Definition drive_fuel : nat := Z.to_nat MaxSteps + 3.

(** ** Entry points *)

Definition edge_matches (edge : EdgeSpec) (last : EdgeEvidence) : bool :=
  bool_decide (e_From edge = ee_From last) && bool_decide (e_To edge = ee_To last) && bool_decide (e_Kind edge = ee_Kind last)
  && bool_decide (e_Predicate edge = ee_Predicate last).

Definition verifyFrozenCheckpoint (c : Checkpoint) : result unit :=
  fail_when negb (bool_decide (cp_GraphID c = d_ID def)) || negb (bool_decide (cp_DefinitionRevision c = d_Revision def))
            || negb (bool_decide (cp_CompositionRevision c = b_compositionRevision (x_bindings e)))
            || negb (bool_decide (cp_ImplementationRevision c = b_implementationRevision (x_bindings e))) with ErrBindingMismatch ;;
  fail_when match ValidateState (d_State def) (cp_State c) with Ok s => negb (bool_decide (s = cp_State c)) | Err _ => true end with ErrBindingMismatch ;;
  fail_when negb (bool_decide (is_Some (findNode def (cp_CurrentNodeID c)))) with ErrBindingMismatch ;;
  fail_when negb (bool_decide (map_Forall (λ nodeID visits, is_Some (findNode def nodeID)
                     ∧ (0 < li_MaxVisitsPerNode (d_Limits def) → visits ≤ li_MaxVisitsPerNode (d_Limits def))) (cp_Visits c)))
    with ErrBindingMismatch ;;
  fail_when match cp_LastEdge c with
            | None => false
            | Some last => negb (bool_decide (ee_To last = cp_CurrentNodeID c)) || negb (existsb (λ edge, edge_matches edge last) (d_Edges def))
            end with ErrBindingMismatch ;;
  Ok tt.

Definition verifyCheckpoint (c : Checkpoint) (segment : string) (generation : Z) : result unit :=
  let! _ := verifyFrozenCheckpoint c in
  fail_when negb (bool_decide (cp_Status c = CheckpointWaitingApproval))
            && (negb (bool_decide (cp_SegmentID c = segment)) || negb (cp_HostGeneration c =? generation)) with ErrSegmentMismatch ;;
  Ok tt.

Definition create (request : StartRequest) : gprog (result (Checkpoint * CommitDisposition)) :=
  match ValidateState (d_State def) (sq_InitialState request) with
  | Err err => Ret (Err err)
  | Ok state =>
    let c := mk_checkpoint (sq_Key request) (sq_SegmentID request) (d_ID def) (d_Revision def) (b_compositionRevision (x_bindings e))
               (b_implementationRevision (x_bindings e)) (sq_HostGeneration request) (d_EntryNode def) 0 "" 0 ∅ 1 state None "" None CheckpointReady "" in
    let t := transitionFor None c OutcomeCreated in
    let* lv := verifyLease false (mk_lease (sq_Key request) (sq_SegmentID request) (sq_HostGeneration request)) in
    match lv with
    | Err err => Ret (Err err)
    | Ok _ =>
      let* r := ask (StoreCreate c t) in
      match r with
      | Err err => Ret (Err err)
      | Ok (created, disposition) =>
        if negb (disposition_valid disposition) then Ret (Err ErrExecutionFailed) else
        let* _ := emit_applied disposition
                    (eventForAttempt "started" def created (findNode def (cp_CurrentNodeID created)) "" 0 no_plan OutcomeCreated) in
        Ret (Ok (created, disposition))
      end
    end
  end.

Definition recoverUnknown (c : Checkpoint) (request : StartRequest) : gprog outcome :=
  if bool_decide (sq_SegmentID request = "") || bool_decide (sq_SegmentID request = cp_SegmentID c) || (sq_HostGeneration request <=? cp_HostGeneration c)
  then Ret (mk_outcome (Some c) false [ErrSegmentMismatch]) else
  let lease := mk_lease (sq_Key request) (sq_SegmentID request) (sq_HostGeneration request) in
  let* lv := verifyLease false lease in
  match lv with
  | Err err => Ret (mk_outcome (Some c) false [err])
  | Ok _ =>
    let next := set_FailureCode OutcomeInterruptedUnknown (set_Status CheckpointUnknown
                  (set_HostGeneration (sq_HostGeneration request) (set_SegmentID (sq_SegmentID request) c))) in
    let* r := commit true c next OutcomeRecoveryUnknown lease in
    match r with
    | Err err => Ret (mk_outcome (Some c) false [err])
    | Ok (next, disposition) =>
      let* _ := emit_applied disposition (eventFor "unknown" def next OutcomeInterruptedUnknown) in
      let* released := releaseLease lease in
      Ret (mk_outcome (Some next) false (ErrUnknownOutcome :: released))
    end
  end.

(** [Run] after the checkpoint has been loaded or created. *)
Definition run_loaded (fuel : nat) (c : Checkpoint) (request : StartRequest) : gprog (option outcome) :=
  match verifyFrozenCheckpoint c with
  | Err err => Ret (Some (mk_outcome (Some c) false [err]))
  | Ok _ =>
    match cp_Status c with
    | CheckpointExecuting => let* o := recoverUnknown c request in Ret (Some o)
    | status =>
      match verifyCheckpoint c (sq_SegmentID request) (sq_HostGeneration request) with
      | Err err => Ret (Some (mk_outcome (Some c) false [err]))
      | Ok _ =>
        let* lv := match status with
                   | CheckpointReady => verifyLease false (mk_lease (sq_Key request) (sq_SegmentID request) (sq_HostGeneration request))
                   | _ => Ret (Ok tt)
                   end in
        match lv with
        | Err err => Ret (Some (mk_outcome (Some c) false [err]))
        | Ok _ => drive fuel c
        end
      end
    end
  end.

Definition Run (fuel : nat) (request : StartRequest) : gprog (option outcome) :=
  let* loaded := ask (StoreLoad (sq_Key request)) in
  match loaded with
  | Ok c => run_loaded fuel c request
  | Err err =>
    if bool_decide (err = ErrCheckpointNotFound) then
      let* lv := verifyLease false (mk_lease (sq_Key request) (sq_SegmentID request) (sq_HostGeneration request)) in
      match lv with
      | Err err => Ret (Some (mk_outcome None false [err]))
      | Ok _ =>
        let* created := create request in
        match created with
        | Err err => Ret (Some (mk_outcome None false [err]))
        | Ok (c, _) => run_loaded fuel c request
        end
      end
    else Ret (Some (mk_outcome None false [err]))
  end.

Definition authorizeApproval (c : Checkpoint) (request : ResumeRequest) : gprog (result unit) :=
  if negb (x_approval e) then Ret (Err ErrApprovalUnavailable) else
  match decision_Validate (rq_Decision request) with
  | Err err => Ret (Err err)
  | Ok _ =>
    let d := rq_Decision request in
    if negb (bool_decide (ad_Key d = cp_Key c)) || negb (bool_decide (ad_TenantID d = k_TenantID (cp_Key c)))
       || negb (bool_decide (ad_ApprovalID d = cp_PendingApprovalID c)) || negb (bool_decide (ad_ApprovalID d = rq_ApprovalID request))
       || negb (ad_Revision d =? cp_Revision c) || negb (bool_decide (ad_SourceSegmentID d = cp_SegmentID c))
    then Ret (Err ErrInvalidApproval) else
    let* r := ask (ApprovalAuthorize (mk_authorization (cp_Key c) (cp_PendingApprovalID c) (cp_Revision c) (rq_SegmentID request)
                                        (rq_HostGeneration request) d)) in
    Ret (match safely ErrApprovalPanic r with
         | Ok _ => Ok tt
         | Err err => if bool_decide (err = ErrApprovalPanic) then Err err else Err ErrApprovalAuthorizationFail
         end)
  end.

(** The ready checkpoint of a resolved approval, and [drive] from it. *)
Definition resume_ready (fuel : nat) (c next : Checkpoint) (code : string) (request : ResumeRequest) (lease : LeaseRequest) : gprog (option outcome) :=
  let* r := commitWithApproval c (set_FailureCode "" (set_Status CheckpointReady next)) code (rq_Decision request) lease in
  match r with
  | Err err => Ret (Some (mk_outcome (Some c) false [err]))
  | Ok (next, disposition) =>
    let* _ := emit_applied disposition (eventFor "approval_resolved" def next code) in
    let* _ := emit_applied disposition (eventFor "resumed" def next code) in
    drive fuel next
  end.

Definition resume_denied (c next : Checkpoint) (request : ResumeRequest) (lease : LeaseRequest) : gprog (option outcome) :=
  let next := set_AttemptID "" (set_FailureCode OutcomeApprovalDenied (set_Status CheckpointFailed next)) in
  let* r := commitWithApproval c next OutcomeApprovalDenied (rq_Decision request) lease in
  match r with
  | Err err => Ret (Some (mk_outcome (Some c) false [err]))
  | Ok (next, disposition) =>
    let* _ := emit_applied disposition (eventFor "approval_resolved" def next OutcomeApprovalDenied) in
    let* _ := emit_applied disposition (eventFor "failed" def next OutcomeApprovalDenied) in
    let* released := releaseLease lease in
    Ret (Some (mk_outcome (Some next) false (ErrExecutionFailed :: released)))
  end.

Definition denied_policy (c : Checkpoint) : ApprovalDeniedPolicy :=
  match findNode def (cp_CurrentNodeID c) with Some spec => n_ApprovalDeniedPolicy spec | None => PolicyOther "" end.

Definition resume_loaded (fuel : nat) (c : Checkpoint) (request : ResumeRequest) : gprog (option outcome) :=
  let stop_with err := Ret (Some (mk_outcome (Some c) false [err])) in
  match verifyFrozenCheckpoint c with
  | Err err => stop_with err
  | Ok _ =>
    if negb (bool_decide (cp_Status c = CheckpointWaitingApproval)) then stop_with ErrSegmentMismatch
    else if negb (bool_decide (cp_PendingApprovalID c = rq_ApprovalID request)) || bool_decide (rq_ApprovalID request = "")
            || bool_decide (rq_SegmentID request = "") || (rq_HostGeneration request <=? cp_HostGeneration c) then stop_with ErrSegmentMismatch
    else
      let* authorized := authorizeApproval c request in
      match authorized with
      | Err err => stop_with err
      | Ok _ =>
        let lease := mk_lease (rq_Key request) (rq_SegmentID request) (rq_HostGeneration request) in
        let* lv := verifyLease false lease in
        match lv with
        | Err err => stop_with err
        | Ok _ =>
          let next := set_ResolvedApproval (Some (evidence_of (rq_Decision request)))
                        (set_PendingApprovalID "" (set_HostGeneration (rq_HostGeneration request) (set_SegmentID (rq_SegmentID request) c))) in
          match ad_Decision (rq_Decision request) with
          | ApprovalDecisionApproved => resume_ready fuel c next OutcomeApprovalApproved request lease
          | _ => if bool_decide (denied_policy c = ApprovalDeniedResumeWithDecision)
                 then resume_ready fuel c next OutcomeApprovalDenied request lease
                 else resume_denied c next request lease
          end
        end
      end
  end.

Definition Resume (fuel : nat) (request : ResumeRequest) : gprog (option outcome) :=
  let* loaded := ask (StoreLoad (rq_Key request)) in
  match loaded with
  | Err err => Ret (Some (mk_outcome None false [err]))
  | Ok c => resume_loaded fuel c request
  end.
End Exec.
