(* ===== verification/GraphDiscipline.v ===== *)
(** * The discipline of the graph executor

    What every execution of [Run] and [Resume] obeys, effect by effect: commits
    are made on top of a checkpoint the store has returned, by one of the steps
    below; a node is started only behind its own applied commit, a lease
    verification after it, the sandbox authorisation it declares and a valid
    context plan. *)
From S2P Require Import Prelude Prog GoString Json Sha256 GraphContract GraphContext GraphState GraphValidate GraphStore GraphStoreFacts GraphExecutor.
From stdpp Require Import gmap strings list.
From Stdlib Require Import ZArith Lia.
Open Scope Z_scope.

(** ** Programs under a history *)

Section Wp.
Context {E : Type → Type} (P : list (event E) → ∀ B, E B → Prop) (Q : ∀ B, E B → B → Prop).

(** As long as the answers satisfy [Q], every effect the program asks satisfies
    [P] of the history before it, and its result [Φ] of the history then. *)
Fixpoint wp {A} (h : list (event E)) (p : prog E A) (Φ : list (event E) → A → Prop) : Prop :=
  match p with
  | Ret a => Φ h a
  | Vis g k => P h _ g ∧ ∀ b, Q _ g b → wp (h ++ [Ev g b]) (k b) Φ
  end.

Lemma wp_mono {A} (p : prog E A) h Φ Ψ : (∀ h' a, Φ h' a → Ψ h' a) → wp h p Φ → wp h p Ψ.
Proof. intros HΦ. revert h. induction p as [a|B g k IH]; intros h; cbn; [apply HΦ|]. intros [Hg Hk]. split; [done|]. intros b Hb. apply IH, Hk, Hb. Qed.

Lemma wp_bind {A B} (p : prog E A) (k : A → prog E B) h Φ : wp h p (λ h' a, wp h' (k a) Φ) → wp h (pbind p k) Φ.
Proof. revert h. induction p as [a|C g f IH]; intros h; cbn; [done|]. intros [Hg Hf]. split; [done|]. intros b Hb. apply IH, Hf, Hb. Qed.

Lemma wp_ask {B} (g : E B) h Φ : P h B g → (∀ b, Q B g b → Φ (h ++ [Ev g b]) b) → wp h (ask g) Φ.
Proof. done. Qed.

(** The post-condition of a complete execution. *)
Lemma wp_runs {A} (p : prog E A) h Φ tr a :
  wp h p Φ → runs p tr a → Forall (λ ev, match ev with @Ev _ B g b => Q B g b end) tr → Φ (h ++ tr) a.
Proof.
  revert h tr. induction p as [x|B g k IH]; intros h tr; cbn.
  - intros H [-> ->] _. by rewrite app_nil_r.
  - intros [_ Hk] (b & tr' & -> & Hr) Hq. apply Forall_cons_1 in Hq as [Hb Hq]. rewrite cons_middle, app_assoc. by eapply IH; [apply Hk| |].
Qed.

(** An event of a history whose effect satisfied [P] of what came before it. *)
Definition ok_event (h : list (event E)) (ev : event E) : Prop := match ev with @Ev _ B g _ => P h B g end.

Lemma ok_event_snoc h ev : (∀ h1 ev' h2, h = h1 ++ ev' :: h2 → ok_event h1 ev') → ok_event h ev →
  ∀ h1 ev' h2, h ++ [ev] = h1 ++ ev' :: h2 → ok_event h1 ev'.
Proof.
  intros Hl Hg h1 ev' h2 Heq. destruct h2 as [|x h2 _] using rev_ind.
  - by apply app_inj_tail in Heq as [-> ->].
  - rewrite app_comm_cons, app_assoc in Heq. apply app_inj_tail in Heq as [-> _]. by eapply Hl.
Qed.
End Wp.

(** ** What a thread knows *)

(** The checkpoints the store returned to a thread. *)
Definition returned (ev : event GE) : option Checkpoint :=
  match ev with
  | @Ev _ _ g b =>
    match g in GE B return B → option Checkpoint with
    | StoreLoad _ => λ r, match r with Ok c => Some c | Err _ => None end
    | StoreCreate _ _ => λ r, match r with Ok (c, _) => Some c | Err _ => None end
    | StoreCAS _ _ _ _ _ => λ r, match r with Ok (c, _) => Some c | Err _ => None end
    | _ => λ _, None
    end b
  end.
Definition known (h : list (event GE)) (c : Checkpoint) : Prop := c ∈ omap returned h.

Lemma known_app h h' c : known (h ++ h') c ↔ known h c ∨ known h' c.
Proof. unfold known. by rewrite omap_app, elem_of_app. Qed.

(** What a store keeping its contract can answer: a commit returns what was
    submitted, with its state canonical; what is loaded was committed so. *)
Definition honest (B : Type) (g : GE B) : B → Prop :=
  match g in GE B return B → Prop with
  | StoreLoad key => λ r, match r with Ok c => cp_Key c = key ∧ ∃ c0, stored_as c0 c | Err _ => True end
  | StoreCreate c _ => λ r, match r with Ok (c', _) => stored_as c c' | Err _ => True end
  | StoreCAS _ _ _ next _ => λ r, match r with Ok (c', _) => stored_as next c' | Err _ => True end
  | _ => λ _, True
  end.

(** ** The gate of a node start *)

(** A started attempt that has not run its node yet. *)
Record gate := mk_gate { g_checkpoint : Checkpoint; g_leased : bool; g_sandbox : bool; g_plan : option ContextPlan }.

Definition arm (st : option gate) (ev : event GE) : option gate :=
  match ev with
  | @Ev _ _ g b =>
    match g in GE B return B → option gate with
    | StoreCAS _ _ _ _ t => λ r,
        match r with
        | Ok (c, CommitApplied) => if bool_decide (t_OutcomeCode t = OutcomeNodeStarted) then Some (mk_gate c false false None) else None
        | _ => None
        end
    | NodeExecute _ _ => λ _, None
    | LeaseVerify _ req => λ r,
        match st, r with
        | Some gt, Returns (Ok _) =>
          if decide (lr_Key req = cp_Key (g_checkpoint gt) ∧ lr_SegmentID req = cp_SegmentID (g_checkpoint gt)
                     ∧ lr_HostGeneration req = cp_HostGeneration (g_checkpoint gt))
          then Some (mk_gate (g_checkpoint gt) true (g_sandbox gt) (g_plan gt)) else st
        | _, _ => st
        end
    | SandboxAuthorize req => λ r,
        match st, r with
        | Some gt, Returns (Ok _) =>
          if bool_decide (sr_Attempt req = cp_AttemptID (g_checkpoint gt)) then Some (mk_gate (g_checkpoint gt) (g_leased gt) true (g_plan gt)) else st
        | _, _ => st
        end
    | PlanContext _ => λ r,
        match st, r with Some gt, Returns (Ok p) => Some (mk_gate (g_checkpoint gt) (g_leased gt) (g_sandbox gt) (Some p)) | _, _ => st end
    | _ => λ _, st
    end b
  end.
Definition armed (h : list (event GE)) : option gate := foldl arm None h.

Lemma armed_snoc h ev : armed (h ++ [ev]) = arm (armed h) ev.
Proof. unfold armed. by rewrite foldl_app. Qed.

(** ** Steps of an executor *)

(** A transition that starts a node, and one that starts a new attempt of it. *)
Definition is_start (t : Transition) : bool := bool_decide (t_OutcomeCode t = OutcomeNodeStarted).
Definition fresh_start (t : Transition) : bool := is_start t && bool_decide (t_SourceAttemptID t = "").
Definition is_approval (t : Transition) : bool := approval_outcome (t_OutcomeCode t).

(** ** Counting *)

Definition count {A} (f : A → bool) (l : list A) : nat := length (filter (λ x, f x = true) l).

Lemma count_app {A} (f : A → bool) l l' : count f (l ++ l') = (count f l + count f l')%nat.
Proof. unfold count. by rewrite filter_app, length_app. Qed.
Lemma count_one {A} (f : A → bool) x : count f [x] = if f x then 1%nat else 0%nat.
Proof. unfold count. rewrite filter_cons. cbn. destruct (f x) eqn:Hx; [by rewrite decide_True|by rewrite decide_False]. Qed.

(** Node executions of attempts in [a]. *)
Definition executes (a : string → bool) (ev : event GE) : bool :=
  match ev with @Ev _ _ g _ => match g with NodeExecute _ req => a (nr_AttemptID req) | _ => false end end.

Section Discipline.
Context (D : Definition_).

(** How an executor of definition [D] moves a run from [prev] to [next]. *)
Record exec_step (prev next : Checkpoint) (t : Transition) : Prop := {
  es_key : cp_Key next = cp_Key prev;
  es_revision : cp_Revision next = u64_succ (cp_Revision prev);
  es_attempt : t_AttemptID t = cp_AttemptID next;
  es_frozen : cp_GraphID next = cp_GraphID prev ∧ cp_DefinitionRevision next = cp_DefinitionRevision prev;
  es_start : is_start t = true → cp_Status prev = CheckpointReady ∧ cp_Status next = CheckpointExecuting ∧ is_approval t = false;
  es_fresh : is_start t = true → cp_AttemptID prev = "" → cp_Steps next = cp_Steps prev + 1 ∧ cp_Steps prev < li_MaxSteps (d_Limits D);
  es_resumed : is_start t = true → cp_AttemptID prev ≠ "" → cp_Steps next = cp_Steps prev;
  es_other : is_start t = false → cp_Steps next = cp_Steps prev;
  es_ready : cp_Status next = CheckpointReady → cp_AttemptID next ≠ "" → is_approval t = true ∧ cp_Status prev = CheckpointWaitingApproval;
  es_owner : cp_SegmentID next = cp_SegmentID prev ∧ cp_HostGeneration next = cp_HostGeneration prev
             ∨ cp_HostGeneration prev < cp_HostGeneration next ∧ is_start t = false }.

(** The lease of the owner of [c] was verified by the last effect. *)
Definition fenced (h : list (event GE)) (c : Checkpoint) : Prop :=
  ∃ h0 durable u, h = h0 ++ [Ev (LeaseVerify durable (leaseForCheckpoint c)) (Returns (Ok u))].

(** The discipline; [K] is the run the thread works on. *)
Definition rule (K : CheckpointKey) (h : list (event GE)) (B : Type) (g : GE B) : Prop :=
  match g with
  | StoreLoad key => key = K
  | StoreCreate c t =>
      fenced h c ∧ cp_Key c = K ∧ cp_Steps c = 0 ∧ cp_AttemptID c = "" ∧ is_start t = false ∧ is_approval t = false
  | StoreCAS _ key expected next t => fenced h next ∧ ∃ prev, known h prev ∧ key = cp_Key prev ∧ expected = cp_Revision prev ∧ exec_step prev next t
  | NodeExecute _ req =>
      ∃ gt, armed h = Some gt ∧ g_leased gt = true ∧ (n_UsesSandbox (nr_Spec req) = true → g_sandbox gt = true)
            ∧ g_plan gt = Some (nr_Context req) ∧ ValidateContextPlan (nr_Context req) = Ok tt
            ∧ nr_AttemptID req = cp_AttemptID (g_checkpoint gt) ∧ nr_SegmentID req = cp_SegmentID (g_checkpoint gt)
            ∧ nr_Spec req ∈ d_Nodes D
  | _ => True
  end.
End Discipline.

(** ** Every execution obeys the discipline

    [Run] and [Resume] follow [rule] under every answer of their ports
    that keeps the contract of the store, and return: the fuel of [drive] does
    not run out. *)

#[local] Opaque stableAttemptID TransitionID.

Section Discipline.
Context (e : Executor) (K : CheckpointKey).
Notation D := (x_definition e).
Notation WP := (wp (rule D K) honest).

(** The history [h'] extends what is known in [h]. *)
Definition extends (h h' : list (event GE)) : Prop := ∀ c, known h c → known h' c.

Lemma extends_refl h : extends h h.
Proof. by intros c. Qed.
Lemma extends_app h tr : extends h (h ++ tr).
Proof. intros c Hc. apply known_app. by left. Qed.

(** ** Effects without a rule *)

(** Effects that no rule restricts and that do not move the gate. *)
Definition free (B : Type) (g : GE B) : Prop :=
  match g with
  | CtxErr | Observe _ | LeaseVerify _ _ | LeaseRelease _ | PlanContext _ | ApprovalAuthorize _ | ReduceState _ _ _ | EvaluatePredicate _ _ | Backoff _
  | AttemptClock | SandboxAuthorize _ => True
  | _ => False
  end.

Lemma wp_free {A} (p : prog GE A) h Φ : every free p → (∀ h' a, extends h h' → Φ h' a) → WP h p Φ.
Proof.
  revert h. induction p as [a|B g k IH]; intros h Hp HΦ; cbn.
  - apply HΦ, extends_refl.
  - destruct Hp as [Hg Hp]. split; [by destruct g|]. intros b _. apply IH; [done|]. intros h' a Hh. apply HΦ. intros c Hc. by apply Hh, extends_app.
Qed.

Lemma emit_free ev : every free (emit e ev).
Proof. unfold emit. destruct (x_observer e); [|done]. by apply every_bind. Qed.
Lemma emit_applied_free d ev : every free (emit_applied e d ev).
Proof. destruct d; [done|apply emit_free|done]. Qed.
Lemma verifyLease_free d req : every free (verifyLease e d req).
Proof. unfold verifyLease. destruct (negb (x_lease e)); [done|]. by apply every_bind. Qed.
Lemma releaseLease_free req : every free (releaseLease e req).
Proof. unfold releaseLease. destruct (negb (x_lease e)); [done|]. by apply every_bind. Qed.
Lemma reduce_free s p : every free (reduce e s p).
Proof. unfold reduce. case_match; [done|]. by apply every_bind. Qed.
Lemma select_edge_free edges from s f sel : every free (select_edge e edges from s f sel).
Proof.
  revert f sel. induction edges as [|edge edges IH]; intros f sel; cbn [select_edge]; [done|].
  destruct (negb _ || _); [apply IH|]. destruct (bool_decide (e_Kind edge = EdgeDefault)); [apply IH|].
  destruct (b_predicates (x_bindings e) !! _); [|done]. apply every_bind; [done|]. intros r.
  destruct (safely ErrPredicatePanic r) as [[]|]; [destruct sel; [done|apply IH]|apply IH|done].
Qed.
Lemma authorizeApproval_free c req : every free (authorizeApproval e c req).
Proof.
  unfold authorizeApproval. destruct (negb (x_approval e)); [done|]. destruct (decision_Validate (rq_Decision req)); [|done].
  case_match; [done|]. by apply every_bind.
Qed.
Lemma ask_free {B} (g : GE B) : free B g → every free (ask g).
Proof. done. Qed.

(** ** Commits *)

Notation committed prev next := (set_Revision (u64_succ (cp_Revision prev)) next).

Lemma wp_verifyLease d lease h Φ :
  (∀ h' err, extends h h' → Φ h' (Err err)) → (∀ u, Φ (h ++ [Ev (LeaseVerify d lease) (Returns (Ok u))]) (Ok tt)) → WP h (verifyLease e d lease) Φ.
Proof.
  intros He Ho. unfold verifyLease. destruct (negb (x_lease e)); [apply He, extends_refl|]. apply wp_bind, wp_ask; [done|]. intros r _.
  destruct r as [[u|]|]; cbn; [apply Ho|apply He, extends_app..].
Qed.

Lemma wp_commit durable prev next code appr lease h Φ :
  known h prev → lease = leaseForCheckpoint next →
  exec_step D prev (committed prev next) (set_approval appr (transitionFor (Some prev) (committed prev next) code)) →
  (∀ h' err, extends h h' → Φ h' (Err err)) →
  (∀ h' c d, extends h h' → known h' c → stored_as (committed prev next) c → d = CommitApplied ∨ d = CommitReplayed →
     armed h' = match d with CommitApplied => if bool_decide (code = OutcomeNodeStarted) then Some (mk_gate c false false None) else None | _ => None end →
     Φ h' (Ok (c, d))) →
  WP h (commitWithEvidence e durable prev next code appr lease) Φ.
Proof.
  intros Hk -> Hs He Ho. unfold commitWithEvidence. cbv zeta. apply wp_bind, wp_verifyLease; [done|]. intros u.
  set (h1 := h ++ _). assert (extends h h1) as Hh by apply extends_app.
  apply wp_bind, wp_ask; [split; [by eexists h, durable, u|exists prev; split; [by apply Hh|done]]|]. intros r Hr.
  assert (extends h (h1 ++ [Ev (StoreCAS durable (cp_Key prev) (cp_Revision prev) (committed prev next)
            (set_approval appr (transitionFor (Some prev) (committed prev next) code))) r])) as Hg.
  { intros c Hc. by apply extends_app, Hh. }
  destruct r as [[c d]|err]; cbn; [|by apply He]. destruct d; cbn; try by apply He.
  all: apply Ho; [done| |done|by auto|by rewrite armed_snoc]; apply known_app; right; unfold known; cbn; by left.
Qed.

(** ** Steps that start no node *)

Lemma quiet_step prev next code appr :
  cp_Key next = cp_Key prev → cp_GraphID next = cp_GraphID prev → cp_DefinitionRevision next = cp_DefinitionRevision prev →
  cp_Steps next = cp_Steps prev → bool_decide (code = OutcomeNodeStarted) = false →
  (cp_Status next = CheckpointReady → cp_AttemptID next ≠ "" → approval_outcome code = true ∧ cp_Status prev = CheckpointWaitingApproval) →
  (cp_SegmentID next = cp_SegmentID prev ∧ cp_HostGeneration next = cp_HostGeneration prev ∨ cp_HostGeneration prev < cp_HostGeneration next) →
  exec_step D prev (committed prev next) (set_approval appr (transitionFor (Some prev) (committed prev next) code)).
Proof.
  intros Hk Hg Hd Hs Hc Hr Ho.
  split; unfold is_start, is_approval; cbn; rewrite ?Hc; try done.
  destruct Ho; [by left|by right].
Qed.

(** A commit under the same owner that neither starts a node nor leaves a
    started attempt ready. *)
Lemma wp_quiet durable prev next code lease h Φ :
  known h prev → lease = leaseForCheckpoint prev → bool_decide (code = OutcomeNodeStarted) = false → cp_Status next ≠ CheckpointReady ∨ cp_AttemptID next = "" →
  cp_Key next = cp_Key prev → cp_GraphID next = cp_GraphID prev → cp_DefinitionRevision next = cp_DefinitionRevision prev →
  cp_Steps next = cp_Steps prev → cp_SegmentID next = cp_SegmentID prev → cp_HostGeneration next = cp_HostGeneration prev →
  (∀ h' err, extends h h' → Φ h' (Err err)) →
  (∀ h' c d, extends h h' → known h' c → stored_as (committed prev next) c → d = CommitApplied ∨ d = CommitReplayed → Φ h' (Ok (c, d))) →
  WP h (commit e durable prev next code lease) Φ.
Proof.
  intros Hk -> Hc Hr Ek ? ? ? Es Eg He Ho. apply wp_commit; [done|by unfold leaseForCheckpoint; rewrite Ek, Es, Eg| |done|by auto]. apply quiet_step; try done; [|by left]. intros ? ?. by destruct Hr.
Qed.

(** The side conditions of a commit that starts no node. *)
Ltac quiet := apply wp_bind, wp_quiet; [done|done|done|first [by left|by right]|reflexivity|reflexivity|reflexivity|reflexivity|reflexivity|reflexivity|done|].

Lemma wp_fail_executing c code h : known h c → bool_decide (code = OutcomeNodeStarted) = false → WP h (fail_executing e c code) (λ _ _, True).
Proof.
  intros Hk Hc. unfold fail_executing. cbv zeta. quiet. intros h' c' d _ _ _ _.
  apply wp_bind, wp_free; [apply emit_applied_free|done].
Qed.

Lemma wp_fail c code h : known h c → bool_decide (code = OutcomeNodeStarted) = false → WP h (fail e c code) (λ _ _, True).
Proof.
  intros Hk Hc. unfold fail. destruct (cp_Status c); [|by apply wp_fail_executing..]. cbv zeta.
  quiet. intros h' c' d _ Hk' _ Hd. destruct d; [by apply wp_fail_executing| |done]. by apply wp_fail_executing.
Qed.

Lemma wp_cancel c h : known h c → WP h (GraphExecutor.cancel e c) (λ _ _, True).
Proof.
  intros Hk. unfold GraphExecutor.cancel. destruct (cp_Status c); try done; cbv zeta.
  all: quiet; intros h' c' d _ _ _ _; apply wp_bind, wp_free; [apply emit_applied_free|done].
Qed.

(** ** After the node has run *)

(** The next ready checkpoint of an iteration that spent [steps] steps. *)
Definition goes_on (steps : Z) (h : list (event GE)) (r : outcome + Checkpoint) : Prop :=
  match r with inl _ => True | inr next => known h next ∧ cp_AttemptID next = "" ∧ cp_Steps next = steps end.

Lemma wp_stop_any p h Φ : (∀ h' o, Φ h' (inl o)) → WP h p (λ _ _, True) → WP h (stop p) Φ.
Proof. intros HΦ Hp. apply wp_bind. eapply wp_mono; [|exact Hp]. intros. apply HΦ. Qed.
Lemma wp_stop p steps h : WP h p (λ _ _, True) → WP h (stop p) (goes_on steps).
Proof. by apply wp_stop_any. Qed.

Lemma wp_suspend c spec lease duration p id h : known h c → lease = leaseForCheckpoint c → WP h (suspend e c spec lease duration p id) (λ _ _, True).
Proof.
  intros Hk Hle. unfold suspend. destruct (negb (validBindingID id)); [by apply wp_fail|]. cbv zeta. quiet. intros h' c' d _ _ _ _.
  apply wp_bind, wp_free; [apply emit_applied_free|]. intros h1 _ _. apply wp_bind, wp_free; [apply releaseLease_free|done].
Qed.

Lemma wp_advance c next code lease ev k h :
  known h c → lease = leaseForCheckpoint c → bool_decide (code = OutcomeNodeStarted) = false → cp_AttemptID next = "" → cp_Key next = cp_Key c → cp_GraphID next = cp_GraphID c →
  cp_DefinitionRevision next = cp_DefinitionRevision c → cp_Steps next = cp_Steps c → cp_SegmentID next = cp_SegmentID c →
  cp_HostGeneration next = cp_HostGeneration c →
  (∀ h' c', known h' c' → cp_AttemptID c' = "" → cp_Steps c' = cp_Steps c → WP h' (k c') (goes_on (cp_Steps c))) →
  WP h (advance e c next code lease ev k) (goes_on (cp_Steps c)).
Proof.
  intros ? Hle ? Ha ? ? ? Hs ? ? Hkont. unfold advance. apply wp_bind, wp_quiet; try done; [by right|]. intros h' c' d _ Hk Hst Hd.
  destruct (stored_fields _ _ Hst) as (Heq & _ & _). destruct d; [by destruct Hd| |done].
  apply wp_bind, wp_free; [apply emit_free|]. intros h1 _ Hg. apply Hkont; [by apply Hg| |]; by rewrite Heq.
Qed.

Lemma wp_retry c spec lease duration p err h : known h c → lease = leaseForCheckpoint c → WP h (retry e c spec lease duration p err) (goes_on (cp_Steps c)).
Proof.
  intros Hk Hle. unfold retry. apply wp_advance; try done. intros h' c' Hk' Ha Hs. destruct (0 <? _); [|done].
  apply wp_bind, wp_free; [by apply ask_free|]. intros h1 b Hg. destruct b; [apply wp_stop, wp_cancel; by apply Hg|]. split; [by apply Hg|done].
Qed.

Lemma failureCode_quiet err : bool_decide (failureCode err = OutcomeNodeStarted) = false.
Proof. unfold failureCode. by destruct (ne_deadline err). Qed.

Lemma wp_node_error c spec lease duration p err h : known h c → lease = leaseForCheckpoint c → WP h (node_error e c spec lease duration p err) (goes_on (cp_Steps c)).
Proof.
  intros Hk Hle. unfold node_error. destruct (ne_pending err); [by apply wp_stop, wp_suspend|]. destruct (ne_panic err); [done|].
  destruct (ne_retryable err && _); [by apply wp_retry|]. destruct (errorEdge D (n_ID spec)).
  - by apply wp_advance.
  - apply wp_stop, wp_fail; [done|apply failureCode_quiet].
Qed.

Lemma wp_node_success c spec lease duration p patch h : known h c → lease = leaseForCheckpoint c → WP h (node_success e c spec lease duration p patch) (goes_on (cp_Steps c)).
Proof.
  intros Hk Hle. unfold node_success. apply wp_bind, wp_free; [apply reduce_free|]. intros h1 red H1.
  apply wp_bind, wp_free; [by apply ask_free|]. intros h2 b H2. assert (known h2 c) as Hk2 by by apply H2, H1. clear h1 h H1 H2 Hk.
  destruct b; [by apply wp_stop, wp_cancel|]. destruct red; [|by apply wp_stop, wp_fail]. destruct (n_Terminal spec).
  - cbv zeta. quiet. intros h' c' d _ _ _ _. apply wp_bind, wp_free; [apply emit_applied_free|done].
  - apply wp_bind, wp_free; [apply select_edge_free|]. intros h3 ch H3. apply wp_bind, wp_free; [by apply ask_free|]. intros h4 b H4.
    assert (known h4 c) as Hk4 by by apply H4, H3. destruct b; [by apply wp_stop, wp_cancel|]. destruct ch; [by apply wp_advance|].
    cbv zeta. apply wp_bind, wp_free; [apply emit_free|]. intros h5 _ H5. apply wp_stop, wp_fail; [by apply H5|done].
Qed.

Lemma wp_settle c spec lease p answer duration timedOut h :
  known h c → lease = leaseForCheckpoint c → WP h (settle e c spec lease p answer duration timedOut) (goes_on (cp_Steps c)).
Proof.
  intros Hk Hle. unfold settle. apply wp_bind, wp_free; [by apply ask_free|]. intros h1 b H1. destruct b; [apply wp_stop, wp_cancel; by apply H1|].
  apply wp_bind, wp_free; [apply verifyLease_free|]. intros h2 lv H2. assert (known h2 c) as Hk2 by by apply H2, H1.
  destruct lv; [|done]. destruct timedOut; [|destruct (safeNodeExecute answer); [by apply wp_node_success|by apply wp_node_error]].
  apply wp_bind, wp_free; [apply emit_free|]. intros h3 _ H3. apply wp_node_error; [by apply H3|done].
Qed.

(** ** The gate before a node *)

(** A gate for [c], with the context plan [p] and the sandbox authorised when [sandbox]. *)
Definition gated (h : list (event GE)) (c : Checkpoint) (leased sandbox : bool) (p : option ContextPlan) : Prop :=
  known h c ∧ armed h = Some (mk_gate c leased sandbox p).

Lemma gated_snoc h c leased sandbox p ev leased' sandbox' p' :
  gated h c leased sandbox p → arm (Some (mk_gate c leased sandbox p)) ev = Some (mk_gate c leased' sandbox' p') → gated (h ++ [ev]) c leased' sandbox' p'.
Proof. intros [Hk Ha] Hev. split; [by apply extends_app|]. by rewrite armed_snoc, Ha. Qed.

Lemma wp_emit_gated ev h c l s p Φ : gated h c l s p → (∀ h', gated h' c l s p → Φ h' tt) → WP h (emit e ev) Φ.
Proof.
  intros Hg HΦ. unfold emit. destruct (x_observer e); [|by apply HΦ]. apply wp_bind, wp_ask; [done|]. intros b _. apply HΦ. by eapply gated_snoc.
Qed.

Lemma wp_lease_gated d lease h c s p Φ :
  gated h c false s p → lr_Key lease = cp_Key c ∧ lr_SegmentID lease = cp_SegmentID c ∧ lr_HostGeneration lease = cp_HostGeneration c →
  (∀ h' err, Φ h' (Err err)) → (∀ h', gated h' c true s p → Φ h' (Ok tt)) → WP h (verifyLease e d lease) Φ.
Proof.
  intros Hg Hl He Ho. unfold verifyLease. destruct (negb (x_lease e)); [apply He|]. apply wp_bind, wp_ask; [done|]. intros r _.
  destruct r as [[u|]|]; cbn; [|apply He..]. apply Ho. eapply gated_snoc; [done|]. cbn. by rewrite decide_True.
Qed.

Lemma wp_plan_gated spec h c l s Φ :
  gated h c l s None → (∀ h' err, extends h h' → Φ h' (Err err)) → (∀ h' p, gated h' c l s (Some p) → ValidateContextPlan p = Ok tt → Φ h' (Ok p)) →
  WP h (plan e c spec) Φ.
Proof.
  intros Hg He Ho. unfold plan. destruct (negb (x_planner e)); [apply He, extends_refl|]. apply wp_bind, wp_ask; [done|]. intros r _.
  destruct r as [[p|]|]; cbn; [|by apply He, extends_app..]. case_match eqn:Hok; [by apply He, extends_app|]. apply Ho; [by eapply gated_snoc|].
  rewrite !orb_false_iff in Hok. destruct Hok as (((Hv & _) & _) & _). by destruct (ValidateContextPlan p) as [[]|].
Qed.

(** The sandbox authorisation of a node that declares it. *)
Definition authorise (c : Checkpoint) (spec : NodeSpec) (lease : LeaseRequest) : prog GE (option string) :=
  if n_UsesSandbox spec then
    if negb (x_sandbox e) then Ret (Some OutcomeSandboxUnavailable)
    else let* r := ask (SandboxAuthorize (mk_sandbox lease (n_ID spec) (cp_AttemptID c))) in
         Ret (match safely ErrSandboxPanic r with Ok _ => None | Err _ => Some OutcomeSandboxDenied end)
  else Ret None.

Lemma wp_authorise_gated spec lease h c l p Φ :
  gated h c l false p →
  (∀ h' code, extends h h' → bool_decide (code = OutcomeNodeStarted) = false → Φ h' (Some code)) → (∀ h', gated h' c l (n_UsesSandbox spec) p → Φ h' None) →
  WP h (authorise c spec lease) Φ.
Proof.
  intros Hg He. unfold authorise. destruct (n_UsesSandbox spec); intros Ho; [|by apply Ho]. destruct (negb (x_sandbox e)); [by apply He; [apply extends_refl|]|].
  apply wp_bind, wp_ask; [done|]. intros r _. destruct r as [[u|]|]; cbn; [|by apply He; [apply extends_app|]..].
  apply Ho. eapply gated_snoc; [done|]. cbn. by rewrite bool_decide_true.
Qed.

Lemma find_node_in nodes id spec : find_node nodes id = Some spec → spec ∈ nodes.
Proof. induction nodes as [|n nodes IH]; cbn; [done|]. destruct (bool_decide _); [intros [= ->]; left|]. intros H. right. by apply IH. Qed.

(** ** Attempts *)

Lemma wp_run_attempt c spec lease h :
  gated h c false false None → lr_Key lease = cp_Key c ∧ lr_SegmentID lease = cp_SegmentID c ∧ lr_HostGeneration lease = cp_HostGeneration c →
  spec ∈ d_Nodes D → WP h (run_attempt e c spec lease) (goes_on (cp_Steps c)).
Proof.
  intros Hg Hl Hn. assert (lease = leaseForCheckpoint c) as Hle.
  { destruct lease. cbn in Hl. by destruct Hl as (-> & -> & ->). }
  unfold run_attempt. destruct (b_nodes (x_bindings e) !! _) as [binding|]; [|apply wp_stop, wp_fail; [apply Hg|done]].
  apply wp_bind. eapply wp_lease_gated; [done|done|done|]. intros h1 H1.
  apply wp_bind. apply (wp_authorise_gated spec lease h1 c true None); [done| |].
  { intros h' code Hh Hc. apply wp_stop, wp_fail; [|done]. apply Hh, H1. }
  intros h2 H2. apply wp_bind. eapply wp_plan_gated; [done| |].
  { intros h' err Hh. assert (known h' c) as Hk by apply Hh, H2. apply wp_bind, wp_free; [by apply ask_free|]. intros h3 b H3.
    destruct b; [apply wp_stop, wp_cancel|apply wp_stop, wp_fail; [|done]]; by apply H3. }
  intros h3 p [H3 Ha] Hv. apply wp_bind, wp_ask.
  { exists (mk_gate c true (n_UsesSandbox spec) (Some p)). done. }
  intros answer _. apply wp_bind, wp_free; [by apply ask_free|]. intros h4 [duration timedOut] H4. apply wp_settle; [by apply H4, extends_app|done].
Qed.

Lemma start_step c spec : cp_Status c = CheckpointReady → (cp_AttemptID c = "" → cp_Steps c < li_MaxSteps (d_Limits D)) →
  exec_step D c (committed c (start_attempt c spec)) (set_approval None (transitionFor (Some c) (committed c (start_attempt c spec)) OutcomeNodeStarted)).
Proof.
  intros Hs Hlim. unfold start_attempt. destruct (bool_decide_reflect (cp_AttemptID c = "")) as [Ha|Ha].
  all: split; cbn; try done; try by left. all: intros; try done. split; [done|by apply Hlim].
Qed.

Lemma start_lease c spec : leaseForCheckpoint c = leaseForCheckpoint (start_attempt c spec).
Proof. unfold start_attempt. by destruct (bool_decide _). Qed.

Lemma wp_begin_attempt c spec h :
  known h c → cp_Status c = CheckpointReady → (cp_AttemptID c = "" → cp_Steps c < li_MaxSteps (d_Limits D)) → spec ∈ d_Nodes D →
  WP h (begin_attempt e c spec) (goes_on (cp_Steps c + if bool_decide (cp_AttemptID c = "") then 1 else 0)).
Proof.
  intros Hk Hs Hlim Hn. unfold begin_attempt. apply wp_bind, wp_commit; [done|by apply start_lease|by apply start_step|done|]. intros h' c' d _ Hk' Hst Hd Ha.
  destruct d; [by destruct Hd| |done]. cbn in Ha. apply wp_bind, (wp_emit_gated _ _ c' false false None); [done|]. intros h1 H1.
  assert (cp_Key c' = cp_Key c ∧ cp_SegmentID c' = cp_SegmentID c ∧ cp_HostGeneration c' = cp_HostGeneration c
          ∧ cp_Steps c' = cp_Steps c + if bool_decide (cp_AttemptID c = "") then 1 else 0) as (Hkey & Hseg & Hgen & Hsteps).
  { destruct (stored_fields _ _ Hst) as (-> & _ & _). unfold start_attempt. destruct (bool_decide (cp_AttemptID c = "")); cbn; split_and!; first [done|lia]. }
  rewrite <- Hsteps. by apply wp_run_attempt.
Qed.

(** The iterations a run can still take. *)
Definition left_steps (c : Checkpoint) : Z := Z.max 0 (li_MaxSteps (d_Limits D) - cp_Steps c) + if bool_decide (cp_AttemptID c = "") then 0 else 1.

Lemma wp_iterate c h : known h c → cp_Status c = CheckpointReady →
  WP h (iterate e c) (λ h' r, match r with inl _ => True | inr next => known h' next ∧ left_steps next < left_steps c end).
Proof.
  intros Hk Hs. unfold iterate. destruct (findNode D (cp_CurrentNodeID c)) as [spec|] eqn:Hf; [|by apply wp_stop_any, wp_fail].
  destruct (bool_decide_reflect (cp_AttemptID c = "")) as [Ha|Ha]; cbn [andb].
  - destruct (Z.leb_spec (li_MaxSteps (d_Limits D)) (cp_Steps c)); [by apply wp_stop_any, wp_fail|].
    destruct ((0 <? _) && _); [by apply wp_stop_any, wp_fail|].
    eapply wp_mono; [|by apply wp_begin_attempt; try done; eapply find_node_in]. intros h' [o|next]; [done|]. intros (Hn & Hna & Hst). split; [done|].
    unfold left_steps. rewrite Hst, bool_decide_true by done. rewrite !bool_decide_true by done. lia.
  - eapply wp_mono; [|by apply wp_begin_attempt; try done; eapply find_node_in]. intros h' [o|next]; [done|]. intros (Hn & Hna & Hst). split; [done|].
    unfold left_steps. rewrite Hst, (bool_decide_false (cp_AttemptID c = "")) by done. rewrite bool_decide_true by done. lia.
Qed.

Lemma left_steps_nonneg c : 0 ≤ left_steps c.
Proof. unfold left_steps. destruct (bool_decide _); lia. Qed.

(** ** Node executions of a call *)

(** Effects other than a node, and programs that run at most one node. *)
Definition idle (B : Type) (g : GE B) : Prop := match g with NodeExecute _ _ => False | _ => True end.
Fixpoint once {A} (p : prog GE A) : Prop :=
  match p with
  | Ret _ => True
  | Vis g k => match g with NodeExecute _ _ => ∀ b, every idle (k b) | _ => ∀ b, once (k b) end
  end.
Notation nodes h := (count (executes (λ _, true)) h).

Lemma idle_event B (g : GE B) b : idle B g → executes (λ _, true) (Ev g b) = false.
Proof. by destruct g. Qed.
Lemma free_idle {A} (p : prog GE A) : every free p → every idle p.
Proof. induction p as [a|B g k IH]; cbn; [done|]. intros [Hg Hk]. split; [by destruct g|]. intros b. by apply IH. Qed.
Lemma once_bind {A B} (p : prog GE A) (k : A → prog GE B) : every idle p → (∀ a, once (k a)) → once (pbind p k).
Proof. intros Hp Hk. induction p as [a|C g f IH]; cbn in *; [done|]. destruct Hp as [Hg Hp]. destruct g; try done; intros b; by apply IH. Qed.
Lemma idle_once {A} (p : prog GE A) : every idle p → once p.
Proof. induction p as [a|B g k IH]; cbn; [done|]. intros [Hg Hk]. destruct g; try done; intros b; by apply IH. Qed.

Lemma wp_idle {A} (p : prog GE A) h Φ : every idle p → WP h p Φ → WP h p (λ h' r, Φ h' r ∧ nodes h' = nodes h).
Proof.
  revert h. induction p as [a|B g k IH]; intros h; cbn; [done|]. intros [Hg Hp] [Hr Hk]. split; [done|]. intros b Hb.
  eapply wp_mono; [|by apply IH, Hk]. cbn. intros h' r [? ->]. split; [done|]. rewrite count_app, count_one, idle_event by done. lia.
Qed.
Lemma wp_once {A} (p : prog GE A) h Φ : once p → WP h p Φ → WP h p (λ h' r, Φ h' r ∧ nodes h' ≤ nodes h + 1)%nat.
Proof.
  revert h. induction p as [a|B g k IH]; intros h; cbn; [intros _ ?; split; [done|lia]|]. intros Ho [Hr Hk]. split; [done|]. intros b Hb.
  specialize (Hk b Hb). assert (idle B g ∧ once (k b) ∨ every idle (k b)) as [[Hg Hkb]|Hkb] by (destruct g; first [by right; apply Ho|by left; split; [|apply Ho]]).
  - eapply wp_mono; [|by apply IH]. cbn. intros h' r [? Hle]. split; [done|]. rewrite count_app, count_one, idle_event in Hle by done. lia.
  - eapply wp_mono; [|by apply wp_idle]. cbn. intros h' r [? ->]. split; [done|]. rewrite count_app, count_one. destruct (executes _ _); lia.
Qed.
Lemma wp_bind_idle {A B} (p : prog GE A) (k : A → prog GE B) h Φ :
  every idle p → WP h p (λ h' a, nodes h' = nodes h → WP h' (k a) Φ) → WP h (pbind p k) Φ.
Proof. intros Hp Hw. apply wp_bind. eapply wp_mono; [|by apply wp_idle]. cbn. intros h' a [Hk Hn]. by apply Hk. Qed.

(** What the executor does around a node runs no other. *)
Create HintDb idle.
#[local] Hint Resolve free_idle emit_free emit_applied_free verifyLease_free releaseLease_free reduce_free select_edge_free authorizeApproval_free : idle.
Ltac idle := repeat first [done | by eauto 3 with idle | apply every_bind; [|intros] | split; [done|] | case_match | progress cbv zeta | progress intros].

Lemma commit_idle durable prev next code appr lease : every idle (commitWithEvidence e durable prev next code appr lease).
Proof. unfold commitWithEvidence. idle. Qed.
#[local] Hint Resolve commit_idle : idle.
Lemma fail_executing_idle c code : every idle (fail_executing e c code).
Proof. unfold fail_executing, commit. idle. Qed.
#[local] Hint Resolve fail_executing_idle : idle.
Lemma fail_idle c code : every idle (fail e c code).
Proof. unfold fail, commit. idle. Qed.
Lemma cancel_idle c : every idle (GraphExecutor.cancel e c).
Proof. unfold GraphExecutor.cancel, commit. idle. Qed.
#[local] Hint Resolve fail_idle cancel_idle : idle.
Lemma settle_idle c spec lease p answer duration timedOut : every idle (settle e c spec lease p answer duration timedOut).
Proof. unfold settle, node_success, node_error, retry, suspend, advance, stop, commit, selectEdge. idle. Qed.
Lemma plan_idle c spec : every idle (plan e c spec).
Proof. unfold plan. idle. Qed.
Lemma run_attempt_once c spec lease : once (run_attempt e c spec lease).
Proof.
  unfold run_attempt. case_match; [|apply idle_once; unfold stop; idle]. apply once_bind; [idle|]. intros [u|]; [|done].
  apply once_bind; [idle|]. intros [code|]; [apply idle_once; unfold stop; idle|]. apply once_bind; [apply plan_idle|].
  intros [p|]; [|apply idle_once; unfold stop; idle]. intros answer. split; [done|]. intros [duration timedOut]. apply settle_idle.
Qed.
Lemma begin_attempt_once c spec : once (begin_attempt e c spec).
Proof.
  unfold begin_attempt, commit. apply once_bind; [idle|]. intros [[c' d]|]; [|done].
  destruct d; try done; (apply once_bind; [idle|]; intros; apply run_attempt_once).
Qed.

(** An iteration runs a node only when the definition leaves a step for it. *)
Lemma wp_iterate_nodes c h : known h c → cp_Status c = CheckpointReady →
  WP h (iterate e c) (λ h' r, match r with inl _ => True | inr next => known h' next ∧ left_steps next < left_steps c end
                              ∧ Z.of_nat (nodes h') ≤ Z.of_nat (nodes h) + Z.min 1 (left_steps c)).
Proof.
  intros Hk Hs. destruct (Z.eqb_spec (left_steps c) 0) as [H0|H0].
  - eapply wp_mono; [|apply wp_idle; [|by apply wp_iterate]].
    + cbn. intros h' r [? ->]. split; [done|lia].
    + unfold left_steps in H0. unfold iterate, stop. destruct (findNode D _); [|idle]. destruct (bool_decide (cp_AttemptID c = "")); cbn [andb]; [|lia].
      rewrite (proj2 (Z.leb_le _ _)) by lia. idle.
  - pose proof (left_steps_nonneg c). eapply wp_mono; [|apply wp_once; [|by apply wp_iterate]].
    + cbn. intros h' r [? ?]. split; [done|lia].
    + unfold iterate, stop. destruct (findNode D _); [|apply idle_once; idle].
      destruct (_ && (_ <=? cp_Steps c)); [apply idle_once; idle|]. destruct (_ && _); [apply idle_once; idle|]. apply begin_attempt_once.
Qed.

Lemma wp_drive fuel c h : known h c → left_steps c < Z.of_nat fuel →
  WP h (drive e fuel c) (λ h' r, is_Some r ∧ Z.of_nat (nodes h') ≤ Z.of_nat (nodes h) + left_steps c).
Proof.
  revert c h. induction fuel as [|fuel IH]; intros c h Hk Hf; pose proof (left_steps_nonneg c); [lia|]. cbn [drive].
  apply wp_bind_idle; [done|]. apply wp_free; [by apply ask_free|]. intros h1 b H1 Hn1. assert (known h1 c) as Hk1 by by apply H1. rewrite <- Hn1.
  destruct b.
  { apply wp_bind_idle; [idle|]. eapply wp_mono; [|by apply wp_cancel]. cbn. intros h' o _ ->. split; [by eexists|lia]. }
  destruct (cp_Status c) eqn:Hs; try (split; [by eexists|lia]). apply wp_bind. eapply wp_mono; [|by apply wp_iterate_nodes]. cbn.
  intros h2 [o|next] [Hr Hn]; [split; [by eexists|lia]|]. destruct Hr as [Hnk Hl]. eapply wp_mono; [|apply IH; [done|lia]].
  cbn. intros h' r [? ?]. split; [done|lia].
Qed.

(** ** Entry points *)

(** One iteration for each step of the definition, one for a resumed attempt and
    one to notice the end. *)
Hypothesis limits_ok : 0 ≤ li_MaxSteps (d_Limits D).
Context (fuel : nat) (fuel_ok : li_MaxSteps (d_Limits D) + 1 < Z.of_nat fuel).

(** The call has returned, and has run no more nodes than the definition has
    steps, plus a resumed attempt. *)
Definition concludes (h : list (event GE)) (r : option outcome) : Prop := is_Some r ∧ Z.of_nat (nodes h) ≤ li_MaxSteps (d_Limits D) + 1.

Lemma stored_steps c0 c : stored_as c0 c → 0 ≤ cp_Steps c.
Proof.
  intros Hst. destruct (stored_fields _ _ Hst) as (-> & _ & _). unfold stored_as, ValidateCheckpoint in Hst. apply rbind_ok in Hst as ([] & _ & H).
  rewrite !fail_if_ok in H. destruct H as (_ & Hrev & _). rewrite !orb_false_iff in Hrev. destruct Hrev as ((((_ & _) & _) & Hr) & _). bool_to_prop. cbn. lia.
Qed.

Lemma wp_drive_stored c0 c h : known h c → stored_as c0 c → nodes h = 0%nat → WP h (drive e fuel c) concludes.
Proof.
  intros Hk Hst%stored_steps Hn. assert (left_steps c ≤ li_MaxSteps (d_Limits D) + 1) by (unfold left_steps; destruct (bool_decide _); lia).
  eapply wp_mono; [|apply wp_drive; [done|lia]]. cbn. intros h' r [? ?]. split; [done|lia].
Qed.

(** A call that ends before its loop. *)
Lemma concluded h o : nodes h = 0%nat → concludes h (Some o).
Proof. intros Hn. split; [by eexists|lia]. Qed.

Lemma create_idle request : every idle (create e request).
Proof. unfold create. idle. Qed.
Lemma recoverUnknown_idle c request : every idle (recoverUnknown e c request).
Proof. unfold recoverUnknown, commit. idle. Qed.

Lemma wp_create request h : sq_Key request = K →
  WP h (create e request) (λ h' r, match r with Ok (c, _) => known h' c ∧ cp_Key c = K ∧ ∃ c0, stored_as c0 c | Err _ => True end).
Proof.
  intros HK. unfold create. destruct (ValidateState _ _) as [state|]; [|done]. cbv zeta.
  apply wp_bind, wp_verifyLease; [done|]. intros u. apply wp_bind, wp_ask; [split; [by eexists _, _, u|done]|].
  intros r Hr. destruct r as [[c d]|]; cbn; [|done]. destruct (negb _); [done|].
  apply wp_bind, wp_free; [apply emit_applied_free|]. intros h2 _ H2. split; [|split; [|by eexists]].
  2: { destruct (stored_fields _ _ Hr) as (-> & _ & _). done. }
  apply H2, known_app. right. unfold known. cbn. by left.
Qed.

Lemma wp_recoverUnknown c request h : known h c → sq_Key request = cp_Key c → WP h (recoverUnknown e c request) (λ _ _, True).
Proof.
  intros Hk HK. unfold recoverUnknown. destruct (_ || _) eqn:Hg; [done|]. rewrite !orb_false_iff in Hg. destruct Hg as [_ Hgen]. bool_to_prop. cbv zeta.
  apply wp_bind, wp_free; [apply verifyLease_free|]. intros h1 lv H1. destruct lv; [|done].
  apply wp_bind, wp_commit; [by apply H1|by rewrite HK| |done|].
  { apply quiet_step; try done. by right. }
  intros h2 c' d _ _ _ _ _. apply wp_bind, wp_free; [apply emit_applied_free|]. intros h3 _ _. apply wp_bind, wp_free; [apply releaseLease_free|done].
Qed.

(** A free part of a call: what is known stays known, and no node runs. *)
Lemma wp_pass {A B} (p : prog GE A) (k : A → prog GE B) h Φ :
  every free p → nodes h = 0%nat → (∀ h' a, extends h h' → nodes h' = 0%nat → WP h' (k a) Φ) → WP h (pbind p k) Φ.
Proof. intros Hp Hn Hk. apply wp_bind_idle; [by apply free_idle|]. apply wp_free; [done|]. intros h' a Hh Hn'. apply Hk; [done|congruence]. Qed.

Lemma wp_run_loaded c0 c request h :
  known h c → stored_as c0 c → sq_Key request = cp_Key c → nodes h = 0%nat → WP h (run_loaded e fuel c request) concludes.
Proof.
  intros Hk Hst HK Hn. unfold run_loaded. destruct (verifyFrozenCheckpoint e c); [|by apply concluded]. set (verified := verifyCheckpoint _ _ _ _).
  assert (∀ p : prog GE (result unit), every free p → WP h (match verified with
     | Ok _ => let* lv := p in match lv with Ok _ => drive e fuel c | Err err => Ret (Some (mk_outcome (Some c) false [err])) end
     | Err err => Ret (Some (mk_outcome (Some c) false [err])) end) concludes) as Hgo.
  { intros p Hp. destruct verified; [|by apply concluded]. apply wp_pass; [done|done|]. intros h1 lv H1 Hn1. destruct lv; [|by apply concluded].
    eapply wp_drive_stored; [by apply H1|done|done]. }
  destruct (cp_Status c); try (apply Hgo; first [done|apply verifyLease_free]).
  apply wp_bind_idle; [apply recoverUnknown_idle|]. eapply wp_mono; [|by apply wp_recoverUnknown]. cbn. intros h' o _ Hn'. apply concluded. congruence.
Qed.

Lemma wp_Run request : sq_Key request = K → WP [] (Run e fuel request) concludes.
Proof.
  intros HK. unfold Run. apply wp_bind, wp_ask; [done|]. intros r Hr. destruct r as [c|err].
  { destruct Hr as [Hck [c0 Hst]]. eapply wp_run_loaded; [|done|by rewrite Hck|done]. unfold known. cbn. by left. }
  destruct (bool_decide _); [|by apply concluded]. apply wp_pass; [apply verifyLease_free|done|]. intros h1 lv H1 Hn1. destruct lv; [|by apply concluded].
  apply wp_bind_idle; [apply create_idle|]. eapply wp_mono; [|by apply wp_create]. cbn. intros h2 [[c d]|].
  - intros (Hk & Hck & c0 & Hst) Hn2. eapply wp_run_loaded; [done|done|by rewrite Hck|congruence].
  - intros _ Hn2. apply concluded. congruence.
Qed.

Lemma wp_resume_ready c next code request lease h :
  known h c → lease = leaseForCheckpoint next → cp_Status c = CheckpointWaitingApproval → bool_decide (code = OutcomeNodeStarted) = false → approval_outcome code = true →
  cp_Key next = cp_Key c → cp_GraphID next = cp_GraphID c → cp_DefinitionRevision next = cp_DefinitionRevision c → cp_Steps next = cp_Steps c →
  cp_HostGeneration c < cp_HostGeneration next → nodes h = 0%nat →
  WP h (resume_ready e fuel c next code request lease) concludes.
Proof.
  intros Hk Hle Hs Hc Ha Ek Eg Ed Es Eh Hn. unfold resume_ready.
  apply wp_bind_idle; [apply commit_idle|]. apply wp_commit; [done|done| |intros h1 err _ Hn1; apply concluded; congruence|].
  { apply quiet_step; try done. by right. }
  intros h1 c' d _ Hk1 Hst _ _ Hn1. apply wp_pass; [apply emit_applied_free|congruence|]. intros h2 _ H2 Hn2.
  apply wp_pass; [apply emit_applied_free|done|]. intros h3 _ H3 Hn3. eapply wp_drive_stored; [|done|done]. by apply H3, H2.
Qed.

Lemma wp_resume_denied c next request lease h :
  known h c → lease = leaseForCheckpoint next → cp_Key next = cp_Key c → cp_GraphID next = cp_GraphID c →
  cp_DefinitionRevision next = cp_DefinitionRevision c → cp_Steps next = cp_Steps c → cp_HostGeneration c < cp_HostGeneration next → nodes h = 0%nat →
  WP h (resume_denied e c next request lease) concludes.
Proof.
  intros Hk Hle Ek Eg Ed Es Eh Hn. unfold resume_denied. cbv zeta.
  apply wp_bind_idle; [apply commit_idle|]. apply wp_commit; [done|done| |intros h1 err _ Hn1; apply concluded; congruence|].
  { apply quiet_step; try done. by right. }
  intros h1 c' d _ Hk1 Hst _ _ Hn1. apply wp_pass; [apply emit_applied_free|congruence|]. intros h2 _ H2 Hn2.
  apply wp_pass; [apply emit_applied_free|done|]. intros h3 _ H3 Hn3. apply wp_pass; [apply releaseLease_free|done|]. intros h4 r _ Hn4. by apply concluded.
Qed.

Lemma wp_Resume request : rq_Key request = K → WP [] (Resume e fuel request) concludes.
Proof.
  intros HK. unfold Resume. apply wp_bind, wp_ask; [done|]. intros r Hr. destruct r as [c|err]; [|by apply concluded].
  unfold resume_loaded. set (h := [] ++ _). assert (known h c ∧ nodes h = 0%nat) as [Hk Hn] by (unfold known; cbn; split; [by left|done]).
  clearbody h. cbv zeta.
  destruct (verifyFrozenCheckpoint e c); [|by apply concluded]. destruct (bool_decide_reflect (cp_Status c = CheckpointWaitingApproval)) as [Hs|]; [|by apply concluded].
  cbn [negb]. destruct (_ || _) eqn:Hg; [by apply concluded|]. rewrite !orb_false_iff in Hg. destruct Hg as [_ Hgen]. bool_to_prop.
  apply wp_pass; [apply authorizeApproval_free|done|]. intros h1 au H1 Hn1. destruct au; [|by apply concluded].
  apply wp_pass; [apply verifyLease_free|done|]. intros h2 lv H2 Hn2. destruct lv; [|by apply concluded]. assert (known h2 c) as Hk2 by by apply H2, H1.
  assert (rq_Key request = cp_Key c) as Hck by (destruct Hr as [-> _]; done). rewrite Hck.
  destruct (ad_Decision (rq_Decision request)); [by apply wp_resume_ready| |].
  all: destruct (bool_decide _); [by apply wp_resume_ready|by apply wp_resume_denied].
Qed.
End Discipline.

(** The fuel of the model is enough for every definition within the contract's
    limits. *)
Lemma full_fuel D : li_MaxSteps (d_Limits D) ≤ MaxSteps → li_MaxSteps (d_Limits D) + 1 < Z.of_nat drive_fuel.
Proof. intros H. unfold drive_fuel. rewrite Nat2Z.inj_add, Z2Nat.id by (unfold MaxSteps; lia). lia. Qed.
