(* ===== verification/GraphSystem.v ===== *)
(** * Executors over one checkpoint store

    Any number of [Run] and [Resume] calls of executors of one frozen definition,
    interleaved effect by effect over one checkpoint store.  A store call is
    answered by the store, or fails without reaching it, or takes effect and its
    answer is lost; a call that takes no further step has crashed.  Every other
    effect is answered arbitrarily: leases, planners and sandboxes are not
    trusted to exclude anything. *)
From S2P Require Import Prelude Prog GoString Json Sha256 GraphContract GraphContext GraphState GraphValidate GraphStore GraphStoreFacts GraphExecutor GraphDiscipline.
From stdpp Require Import gmap strings list relations.
From Stdlib Require Import ZArith Lia.
Open Scope Z_scope.

(** ** Threads *)

Record thread := mk_thread { th_key : CheckpointKey; th_hist : list (event GE); th_prog : prog GE (option outcome) }.

Section System.
Context {St : Type} `{Laws : CheckpointStoreLaws St} (D : Definition_).

Record system := mk_system { sy_store : St; sy_threads : list thread }.

(** The answers of the effect [g] that take the store from [s] to [s']. *)
Definition answers (s s' : St) (B : Type) (g : GE B) : B → Prop :=
  match g in GE B return B → Prop with
  | StoreLoad key => λ r, s' = s ∧ (st_load key s r ∨ ∃ err, r = Err err)
  | StoreCreate c t => λ r, s' = s ∧ (∃ err, r = Err err) ∨ ∃ r', st_create c t s r' s' ∧ (r = r' ∨ ∃ err, r = Err err)
  | StoreCAS _ key expected next t => λ r,
      s' = s ∧ (∃ err, r = Err err) ∨ ∃ r', st_cas key expected next t s r' s' ∧ (r = r' ∨ ∃ err, r = Err err)
  | _ => λ _, s' = s
  end.

Inductive sys_step : system → system → Prop :=
| spawn_run s ths e request : x_definition e = D →
    sys_step (mk_system s ths) (mk_system s (ths ++ [mk_thread (sq_Key request) [] (Run e drive_fuel request)]))
| spawn_resume s ths e request : x_definition e = D →
    sys_step (mk_system s ths) (mk_system s (ths ++ [mk_thread (rq_Key request) [] (Resume e drive_fuel request)]))
| thread_step s ths i K h B (g : GE B) k b s' : ths !! i = Some (mk_thread K h (Vis g k)) → answers s s' B g b →
    sys_step (mk_system s ths) (mk_system s' (<[i := mk_thread K (h ++ [Ev g b]) (k b)]> ths)).

(** A store without runs, and no thread. *)
Definition initial (σ : system) : Prop :=
  st_inv (sy_store σ) ∧ (∀ key, st_head (sy_store σ) key = None ∧ st_log (sy_store σ) key = []) ∧ sy_threads σ = [].

Definition reachable (σ : system) : Prop := ∃ σ0, initial σ0 ∧ rtc sys_step σ0 σ.

(** ** Counting *)

(** The applied commits that started an attempt in [a]. *)
Definition starts (a : string → bool) (ev : event GE) : bool :=
  match ev with
  | @Ev _ _ g b =>
    match g in GE B return B → bool with
    | StoreCAS _ _ _ _ t => λ r, match r with Ok (_, CommitApplied) => is_start t && a (t_AttemptID t) | _ => false end
    | _ => λ _, false
    end b
  end.
Definition start_of (a : string → bool) (t : Transition) : bool := is_start t && a (t_AttemptID t).

(** The count over all threads of a run. *)
Definition total (f : event GE → bool) (K : CheckpointKey) (ths : list thread) : nat :=
  sum_list_with (λ th, if bool_decide (th_key th = K) then count f (th_hist th) else 0%nat) ths.

(** Node executions of a run over all threads. *)
Definition executions (σ : system) (K : CheckpointKey) (a : string → bool) : nat := total (executes a) K (sy_threads σ).

Lemma sum_list_with_le {A} (f g : A → nat) l : (∀ x, x ∈ l → (f x ≤ g x)%nat) → (sum_list_with f l ≤ sum_list_with g l)%nat.
Proof. induction l as [|x l IH]; intros Hl; cbn; [done|]. pose proof (Hl x ltac:(by left)). assert (∀ y, y ∈ l → (f y ≤ g y)%nat) as Hl' by (intros; apply Hl; by right). specialize (IH Hl'). lia. Qed.

Lemma sum_list_with_insert {A} (f : A → nat) l i x y : l !! i = Some x → (sum_list_with f (<[i := y]> l) + f x = sum_list_with f l + f y)%nat.
Proof.
  revert i. induction l as [|z l IH]; intros [|i]; cbn; [done|done| |].
  - intros [= ->]. lia.
  - intros Hi%IH. rewrite <- !Nat.add_assoc. f_equal. exact Hi.
Qed.

Lemma total_snoc f K ths K' p : total f K (ths ++ [mk_thread K' [] p]) = total f K ths.
Proof. unfold total. rewrite sum_list_with_app. cbn. destruct (bool_decide _); cbn; lia. Qed.

Lemma total_step f K ths i K' h p p' ev : ths !! i = Some (mk_thread K' h p) →
  total f K (<[i := mk_thread K' (h ++ [ev]) p']> ths) = (total f K ths + if bool_decide (K' = K) then if f ev then 1 else 0 else 0)%nat.
Proof.
  intros Hi. unfold total.
  pose proof (sum_list_with_insert (λ th, if bool_decide (th_key th = K) then count f (th_hist th) else 0%nat) ths i _ (mk_thread K' (h ++ [ev]) p') Hi) as Hs.
  cbn [th_key th_hist] in Hs. destruct (bool_decide (K' = K)); [|lia]. rewrite count_app, count_one in Hs. destruct (f ev); lia.
Qed.

(** ** The invariant *)

(** One execution at most per applied start, and one more is allowed by an open gate. *)
Definition spends (h : list (event GE)) : Prop :=
  ∀ a, (count (executes a) h + match armed h with Some gt => if a (cp_AttemptID (g_checkpoint gt)) then 1 else 0 | None => 0 end ≤ count (starts a) h)%nat.

(** What a thread knows of its run is the head, or older. *)
Definition informed (s : St) (K : CheckpointKey) (h : list (event GE)) : Prop :=
  ∀ c, known h c → cp_Key c = K ∧ ∃ head, st_head s K = Some head ∧ cp_Revision c ≤ cp_Revision head ∧ (cp_Revision c = cp_Revision head → c = head).

Record thread_inv (s : St) (th : thread) : Prop := {
  ti_wp : wp (rule D (th_key th)) honest (th_hist th) (th_prog th) (λ _ r, is_Some r);
  ti_lawful : ∀ h1 ev h2, th_hist th = h1 ++ ev :: h2 → ok_event (rule D (th_key th)) h1 ev;
  ti_known : informed s (th_key th) (th_hist th);
  ti_spends : spends (th_hist th) }.

Definition resumed_start (t : Transition) : bool := is_start t && negb (bool_decide (t_SourceAttemptID t = "")).
Definition resumable (c : Checkpoint) : bool := bool_decide (cp_Status c = CheckpointReady) && negb (bool_decide (cp_AttemptID c = "")).

(** The log of a run against its head. *)
Definition log_inv (head : option Checkpoint) (log : list Transition) : Prop :=
  match head with
  | None => log = []
  | Some c => cp_Steps c = Z.of_nat (count fresh_start log) ∧ (cp_Steps c = 0 ∨ cp_Steps c ≤ li_MaxSteps (d_Limits D))
              ∧ (count resumed_start log + (if resumable c then 1 else 0) ≤ count is_approval log)%nat
  end.

Record sys_inv (σ : system) : Prop := {
  si_store : st_inv (sy_store σ);
  si_threads : ∀ th, th ∈ sy_threads σ → thread_inv (sy_store σ) th;
  si_logs : ∀ K, log_inv (st_head (sy_store σ) K) (st_log (sy_store σ) K);
  si_starts : ∀ K a, (total (starts a) K (sy_threads σ) ≤ count (start_of a) (st_log (sy_store σ) K))%nat }.

Lemma initial_inv σ : initial σ → sys_inv σ.
Proof.
  intros (Hs & Hk & Ht). split; [done| | |].
  - rewrite Ht. by intros th ?%elem_of_nil.
  - intros K. by destruct (Hk K) as [-> ->].
  - intros K a. rewrite Ht. cbn. lia.
Qed.

(** A new thread. *)
Lemma spawn_inv s ths K p : sys_inv (mk_system s ths) → wp (rule D K) honest [] p (λ _ r, is_Some r) → sys_inv (mk_system s (ths ++ [mk_thread K [] p])).
Proof.
  intros [Hs Ht Hl Hc] Hp. split; cbn [sy_store sy_threads] in *; [done| |done|].
  - intros th [Hth|Hth]%elem_of_app; [by apply Ht|]. apply list_elem_of_singleton in Hth as ->. split; cbn; [done| | |].
    + by intros [].
    + by intros c Hk%elem_of_nil.
    + intros a. cbn. lia.
  - intros K' a. rewrite total_snoc. apply Hc.
Qed.

(** ** One effect of a thread *)

Lemma answers_honest s s' B (g : GE B) b : st_inv s → answers s s' B g b → honest B g b.
Proof.
  intros Hs. destruct g; cbn; try done.
  - intros [-> [Hl|[err ->]]]; [|done]. destruct b as [c|]; [|done]. apply law_load in Hl. destruct (law_head _ _ _ Hs Hl) as (? & ? & _). eauto.
  - intros [[_ [err ->]]|(r' & Hc & [->|[err ->]])]; [done| |done]. destruct r' as [[c' d]|]; [|done]. by apply law_create in Hc as [? _].
  - intros [[_ [err ->]]|(r' & Hc & [->|[err ->]])]; [done| |done]. destruct r' as [[c' d]|]; [|done]. by apply law_cas in Hc as [? _].
Qed.

(** What an effect of a thread of [K] does to the store. *)
Inductive change (s s' : St) (K : CheckpointKey) : option Transition → Prop :=
| stays : unchanged s s' → change s s' K None
| created c t : st_head s K = None → st_head s' K = Some c → st_log s' K = [t] → same_elsewhere K s s' → cp_Steps c = 0 → cp_AttemptID c = "" →
    is_start t = false → is_approval t = false → change s s' K (Some t)
| moved head c t : st_head s K = Some head → st_head s' K = Some c → st_log s' K = st_log s K ++ [t] → same_elsewhere K s s' → exec_step D head c t →
    may_follow head c t → change s s' K (Some t).

Lemma exec_step_stored head next c t : stored_as next c → exec_step D head next t → exec_step D head c t.
Proof. intros Hst. destruct (stored_fields _ _ Hst) as (-> & _ & _). intros []. by split. Qed.

(** The transition that an answered effect has applied. *)
Definition applied {B} (g : GE B) : B → option Transition :=
  match g in GE B return B → option Transition with
  | StoreCAS _ _ _ _ t => λ r, match r with Ok (_, CommitApplied) => Some t | _ => None end
  | _ => λ _, None
  end.

Lemma unchanged_refl s : unchanged s s.
Proof. done. Qed.

Lemma create_change s s' K c t r : st_inv s → cp_Key c = K → cp_Steps c = 0 → cp_AttemptID c = "" → is_start t = false → is_approval t = false →
  st_create c t s r s' → ∃ o, change s s' K o ∧ ∀ c' d, r = Ok (c', d) → st_head s' K = Some c'.
Proof.
  intros Hs HK H0 Ha Ht1 Ht2 Hc. destruct r as [[c' d]|err].
  - apply law_create in Hc as (Hst & Hrev & Hsta & [(-> & Hn & Hh & Hlog & Hel)|(-> & Hu & Hh)]); [| |done]; rewrite HK in *.
    + exists (Some t). split; [|by intros ?? [= <- <-]]. destruct (stored_fields _ _ Hst) as (Heq & _ & _). by eapply created; try done; rewrite Heq.
    + exists None. split; [by apply stays|]. intros ?? [= <- <-]. destruct (Hu K) as [-> _]. done.
  - exists None. split; [|done]. apply stays. by eapply law_create_error.
Qed.

Lemma cas_change s s' K expected prev next t r h : st_inv s → informed s K h → known h prev → expected = cp_Revision prev → exec_step D prev next t →
  st_cas K expected next t s r s' →
  ∃ o, change s s' K o ∧ (∀ c' d, r = Ok (c', d) → st_head s' K = Some c') ∧ (∀ c', r = Ok (c', CommitApplied) → o = Some t).
Proof.
  intros Hs Hi Hk -> He Hc. destruct r as [[c' d]|err].
  - apply law_cas in Hc as (Hst & Hkey & [(-> & (head & Hh & Hr & Hmf) & Hh' & Hlog & Hel)|(-> & Hu & Hh)]); [| |done].
    + exists (Some t). destruct (Hi _ Hk) as (_ & head' & Hh2 & _ & Heq). rewrite Hh in Hh2. injection Hh2 as <-. rewrite <- (Heq (eq_sym Hr)) in *.
      split; [|split; [by intros ?? [= <- <-]|done]]. eapply moved; try done. by eapply exec_step_stored.
    + exists None. split; [by apply stays|]. split; [|done]. intros ?? [= <- <-]. by destruct (Hu K) as [-> _].
  - exists None. split; [|done]. apply stays. by eapply law_cas_error.
Qed.

Lemma effect_change s s' K h B (g : GE B) b : st_inv s → informed s K h → rule D K h B g → answers s s' B g b →
  st_inv s' ∧ ∃ o, change s s' K o ∧ (∀ c, returned (Ev g b) = Some c → st_head s' K = Some c) ∧ (∀ t, applied g b = Some t → o = Some t).
Proof.
  intros Hs Hi Hr Ha.
  assert (s' = s → (∀ c, returned (Ev g b) = Some c → st_head s' K = Some c) → applied g b = None →
          st_inv s' ∧ ∃ o, change s s' K o ∧ (∀ c, returned (Ev g b) = Some c → st_head s' K = Some c) ∧ (∀ t, applied g b = Some t → o = Some t)) as Hsame.
  { intros -> Hret Happ. split; [done|]. exists None. split; [by apply stays|]. split; [done|]. by rewrite Happ. }
  destruct g; try (by apply Hsame; [done|by intros c|]).
  - destruct Ha as [-> Hb]. cbn in Hr. subst key. apply Hsame; [done| |done]. cbn. destruct b as [c|]; [|done]. intros ? [= <-]. destruct Hb as [Hb|[? ?]]; [|done].
    by apply law_load.
  - destruct Ha as [[-> [err ->]]|(r' & Hc & Hb)]; [by apply Hsame|]. destruct Hr as (_ & HK & H0 & Hat & Ht1 & Ht2). split; [by eapply law_create_inv|].
    destruct (create_change s s' K c t r') as (o & Ho & Hret); try done. exists o. split; [done|]. split; [|done]. destruct Hb as [->|[err ->]]; [|done].
    cbn. destruct r' as [[c' d]|]; [|done]. intros ? [= <-]. by eapply Hret.
  - destruct Ha as [[-> [err ->]]|(r' & Hc & Hb)]; [by apply Hsame|]. destruct Hr as (_ & prev & Hk & -> & -> & He). split; [by eapply law_cas_inv|].
    destruct (Hi _ Hk) as (HK & _). rewrite HK in Hc. destruct (cas_change s s' K (cp_Revision prev) prev next t r' h) as (o & Ho & Hret & Happ); try done. exists o.
    split; [done|]. destruct Hb as [->|[err ->]]; [|done]. cbn. destruct r' as [[c' d]|]; [|done].
    split; [intros ? [= <-]; by eapply Hret|]. destruct d; try done. intros ? [= <-]. by eapply Happ.
Qed.

(** ** Preservation *)

Lemma change_elsewhere s s' K o K' : change s s' K o → K' ≠ K → st_head s' K' = st_head s K' ∧ st_log s' K' = st_log s K'.
Proof. intros [Hu|c t _ _ _ He _ _ _ _|head c t _ _ _ He _ _] HK; [apply Hu|by apply He|by apply He]. Qed.

Lemma change_informed s s' K o K' h : st_inv s → change s s' K o → informed s K' h → informed s' K' h.
Proof.
  intros Hs Hc Hi c Hk. destruct (Hi c Hk) as (HK & hd & Hh & Hle & Heq). split; [done|]. destruct (decide (K' = K)) as [->|Hne].
  2: { destruct (change_elsewhere _ _ _ _ _ Hc Hne) as [-> _]. by eexists. }
  destruct Hc as [Hu|c' t Hn _ _ _ _ _ _ _|head c' t Hh0 Hh' _ _ He _].
  - destruct (Hu K) as [-> _]. by eexists.
  - by rewrite Hn in Hh.
  - rewrite Hh0 in Hh. injection Hh as <-. exists c'. split; [done|]. rewrite (es_revision _ _ _ _ He). destruct (law_head _ _ _ Hs Hh0) as (_ & _ & Hb).
    unfold u64_succ. rewrite Z.mod_small by lia. lia.
Qed.

Lemma change_log_inv s s' K o K' : change s s' K o → log_inv (st_head s K') (st_log s K') → log_inv (st_head s' K') (st_log s' K').
Proof.
  intros Hc Hl. destruct (decide (K' = K)) as [->|Hne].
  2: { by destruct (change_elsewhere _ _ _ _ _ Hc Hne) as [-> ->]. }
  destruct Hc as [Hu|c t Hn Hh Hlog _ H0 Ha Ht1 Ht2|head c t Hh Hh' Hlog _ He Hmf].
  - by destruct (Hu K) as [-> ->].
  - rewrite Hh, Hlog. unfold log_inv, resumable, fresh_start, resumed_start. rewrite !count_one, H0, Ht1, Ht2, Ha, (bool_decide_true ("" = "")) by done.
    rewrite andb_false_r. cbn. split; [done|]. split; [by left|lia].
  - rewrite Hh in Hl. rewrite Hh', Hlog. destruct Hl as (H1 & H2 & H3). unfold log_inv. rewrite !count_app, !count_one.
    destruct (mf_source _ _ _ Hmf) as (_ & _ & _ & Hsrc). unfold fresh_start at 2. unfold resumed_start at 2. rewrite Hsrc.
    destruct (is_start t) eqn:Hst; cbn [andb].
    + destruct (es_start _ _ _ _ He Hst) as (Hr & Hx & Hap). rewrite Hap. unfold resumable in *. rewrite Hx, Hr in *.
      rewrite (bool_decide_false (CheckpointExecuting = CheckpointReady)) by done. rewrite (bool_decide_true (CheckpointReady = CheckpointReady)) in H3 by done.
      cbn [andb] in *. destruct (bool_decide_reflect (cp_AttemptID head = "")) as [Ha|Ha]; cbn [negb] in *.
      * destruct (es_fresh _ _ _ _ He Hst Ha) as [-> ?]. lia.
      * rewrite (es_resumed _ _ _ _ He Hst Ha). lia.
    + rewrite (es_other _ _ _ _ He Hst). split; [lia|]. split; [done|]. unfold resumable in *.
      destruct (bool_decide_reflect (cp_Status c = CheckpointReady)) as [Hr|]; cbn [andb]; [|lia].
      destruct (bool_decide_reflect (cp_AttemptID c = "")) as [|Ha]; cbn [negb]; [lia|]. destruct (es_ready _ _ _ _ He Hr Ha) as [-> Hw].
      rewrite Hw in H3. cbn in H3. lia.
Qed.

Lemma change_starts s s' K o a K' : change s s' K o → log_inv (st_head s K) (st_log s K) →
  (count (start_of a) (st_log s K') + (if bool_decide (K = K') then match o with Some t => if start_of a t then 1 else 0 | None => 0 end else 0)
   ≤ count (start_of a) (st_log s' K'))%nat.
Proof.
  intros Hc Hl. destruct (bool_decide_reflect (K = K')) as [<-|Hne].
  2: { destruct (change_elsewhere _ _ _ _ K' Hc) as [_ ->]; [congruence|]. lia. }
  destruct Hc as [Hu|c t Hn Hh Hlog _ H0 Ha Ht1 Ht2|head c t Hh Hh' Hlog _ He Hmf].
  - destruct (Hu K) as [_ ->]. lia.
  - rewrite Hn in Hl. cbn in Hl. rewrite Hl, Hlog, count_one. done.
  - rewrite Hlog, count_app, count_one. lia.
Qed.

(** An event moves the counts of a thread as the rule allows. *)
Lemma event_spends K h B (g : GE B) b : spends h → rule D K h B g → honest B g b → spends (h ++ [Ev g b]).
Proof.
  intros Hsp Hr Hh a. specialize (Hsp a). rewrite !count_app, !count_one, armed_snoc.
  destruct g; cbn [executes starts arm]; try lia.
  - destruct b as [[c' []]|]; try (destruct (armed h); lia). destruct Hr as (_ & prev & _ & _ & _ & He). rewrite (es_attempt _ _ _ _ He). unfold is_start.
    cbn in Hh. destruct (stored_fields _ _ Hh) as (Heq & _ & _). assert (cp_AttemptID c' = cp_AttemptID next) as Hat by by rewrite Heq.
    destruct (bool_decide _); cbn; [rewrite Hat; destruct (a _), (armed h)|destruct (armed h)]; lia.
  - destruct (armed h) as [gt|]; [|lia]. destruct b as [[u|]|]; try lia. destruct (decide _); cbn; lia.
  - destruct (armed h) as [gt|]; [|lia]. destruct b as [[p|]|]; cbn; lia.
  - destruct (armed h) as [gt|]; [|lia]. destruct b as [[u|]|]; try lia. destruct (bool_decide _); cbn; lia.
  - destruct Hr as (gt & Hg & _ & _ & _ & _ & -> & _). rewrite Hg in Hsp. lia.
Qed.

Lemma starts_applied a B (g : GE B) b : starts a (Ev g b) = match applied g b with Some t => start_of a t | None => false end.
Proof. destruct g; try done. by destruct b as [[? []]|]. Qed.

Lemma informed_event s K h B (g : GE B) b : st_inv s → informed s K h → (∀ c, returned (Ev g b) = Some c → st_head s K = Some c) → informed s K (h ++ [Ev g b]).
Proof.
  intros Hs Hi Hret c [Hk|Hk]%known_app; [by apply Hi|]. unfold known in Hk. cbn [omap list_omap] in Hk.
  destruct (returned (Ev g b)) as [c'|] eqn:Hc'; [|by apply elem_of_nil in Hk]. apply list_elem_of_singleton in Hk as ->.
  specialize (Hret c' eq_refl). split; [by eapply law_head|]. by exists c'.
Qed.

Lemma thread_step_inv s ths i K h B (g : GE B) k b s' :
  sys_inv (mk_system s ths) → ths !! i = Some (mk_thread K h (Vis g k)) → answers s s' B g b →
  sys_inv (mk_system s' (<[i := mk_thread K (h ++ [Ev g b]) (k b)]> ths)).
Proof.
  intros [Hs Ht Hl Hc] Hi Ha. cbn [sy_store sy_threads] in *. destruct (Ht _ (list_elem_of_lookup_2 _ _ _ Hi)) as [[Hr Hw] Hlaw Hin Hsp].
  cbn [th_key th_hist th_prog] in *. pose proof (answers_honest _ _ _ _ _ Hs Ha) as Hh.
  destruct (effect_change _ _ _ _ _ _ _ Hs Hin Hr Ha) as (Hs' & o & Hch & Hret & Happ). split; cbn [sy_store sy_threads]; [done| | |].
  - intros th Hth. apply list_elem_of_lookup in Hth as [j Hj]. apply list_lookup_insert_Some in Hj as [(-> & <- & _)|[_ Hj]].
    + split; cbn [th_key th_hist th_prog]; [by apply Hw|by apply ok_event_snoc| |by eapply event_spends]. apply informed_event; [done| |done]. exact (change_informed _ _ _ _ _ _ Hs Hch Hin).
    + destruct (Ht _ (list_elem_of_lookup_2 _ _ _ Hj)) as [Hw2 Hlaw2 Hin2 Hsp2]. split; [done|done| |done]. exact (change_informed _ _ _ _ _ _ Hs Hch Hin2).
  - intros K'. by eapply change_log_inv.
  - intros K' a. rewrite (total_step _ _ _ _ _ _ _ _ _ Hi), starts_applied. pose proof (change_starts _ _ _ _ a K' Hch (Hl K)). specialize (Hc K' a).
    destruct (applied g b) as [t|] eqn:Ht'; [rewrite (Happ t eq_refl) in *|]; destruct (bool_decide (K = K')); lia.
Qed.

(** The limits of the definition are within those of the contract. *)
Hypothesis limits_ok : 0 ≤ li_MaxSteps (d_Limits D) ≤ MaxSteps.

Lemma sys_step_inv σ σ' : sys_inv σ → sys_step σ σ' → sys_inv σ'.
Proof.
  intros Hinv Hst. destruct Hst as [s ths e request He|s ths e request He|s ths i K h B g k b s' Hi Ha].
  - apply spawn_inv; [done|]. rewrite <- He. eapply wp_mono; [|apply wp_Run; [rewrite He; lia|apply full_fuel; rewrite He; lia|done]]. by intros h r [? _].
  - apply spawn_inv; [done|]. rewrite <- He. eapply wp_mono; [|apply wp_Resume; [rewrite He; lia|apply full_fuel; rewrite He; lia|done]]. by intros h r [? _].
  - by eapply thread_step_inv.
Qed.

Lemma reachable_inv σ : reachable σ → sys_inv σ.
Proof. intros (σ0 & H0 & Hr). apply initial_inv in H0. induction Hr; [done|]. by eauto using sys_step_inv. Qed.

(** The executions of a run are paid by the starts in its log. *)
Lemma executions_started σ K a : sys_inv σ → (executions σ K a ≤ count (start_of a) (st_log (sy_store σ) K))%nat.
Proof.
  intros [_ Ht _ Hc]. etrans; [|apply Hc]. unfold executions, total. apply sum_list_with_le. intros th Hth. destruct (bool_decide _); [|done].
  pose proof (ti_spends _ _ (Ht th Hth) a). lia.
Qed.

Lemma starts_bounded σ K : sys_inv σ →
  Z.of_nat (count is_start (st_log (sy_store σ) K)) ≤ li_MaxSteps (d_Limits D) + Z.of_nat (count is_approval (st_log (sy_store σ) K)).
Proof.
  intros [_ _ Hl _]. specialize (Hl K). assert (∀ l, count is_start l = count fresh_start l + count resumed_start l)%nat as Hsplit.
  { induction l as [|t l IH]; [done|]. change (t :: l) with ([t] ++ l). rewrite !count_app, !count_one, IH. unfold fresh_start, resumed_start.
    destruct (is_start t), (bool_decide _); cbn; lia. }
  rewrite Hsplit. destruct (st_head (sy_store σ) K) as [c|]; cbn in Hl; [|rewrite Hl; cbn; lia]. destruct Hl as (H1 & H2 & H3). lia.
Qed.
End System.
