(* ===== verification/GraphClaims.v ===== *)
(** * Graph execution is fenced, gated and bounded

    Theorems on any number of [Run] and [Resume] calls over one checkpoint store
    ([GraphSystem]), for every store that keeps the contract, and on a call that
    finds an interrupted attempt. *)
From S2P Require Import Prelude Prog GoString Json Sha256 GraphContract GraphContext GraphState GraphValidate GraphExample GraphStore GraphStoreFacts GraphExecutor GraphDiscipline GraphSystem.
From stdpp Require Import gmap strings list relations.
From Stdlib Require Import ZArith Lia.
Open Scope Z_scope.

(** ** Validated definitions *)

Lemma validated_limits order def kinds reducers predicates D :
  ValidateDefinition order def kinds reducers predicates = Some (Ok D) → 0 ≤ li_MaxSteps (d_Limits D) ≤ MaxSteps.
Proof.
  unfold ValidateDefinition. destruct (negb _); [done|]. destruct (validateDefinition _ _ _ _ _) as [[[]|]|] eqn:Hv; [|done..]. cbv zeta.
  destruct (definitionRevision _) as [revision|]; [|done]. intros [= H]. apply fail_if_ok in H as [_ [= <-]].
  unfold validateDefinition in Hv. destruct (collect _ _ _ _) as [[nodes acc]|] eqn:Hc; [|done]. unfold collect in Hc. rewrite !fail_if_ok in Hc.
  destruct Hc as (_ & _ & _ & _ & _ & _ & Hl & _). apply negb_false_iff in Hl. unfold validateLimits in Hl. rewrite !andb_true_iff in Hl.
  destruct Hl as (((H1 & H2) & _) & _). bool_to_prop. cbn. lia.
Qed.

(** ** What an open gate stands for *)

(** The trace since the applied commit [c] that started the attempt. *)
Definition lease_verified (c : Checkpoint) (h : list (event GE)) : Prop :=
  ∃ durable req u, Ev (LeaseVerify durable req) (Returns (Ok u)) ∈ h ∧ req = leaseForCheckpoint c.
Definition sandbox_authorised (c : Checkpoint) (h : list (event GE)) : Prop :=
  ∃ req u, Ev (SandboxAuthorize req) (Returns (Ok u)) ∈ h ∧ sr_Attempt req = cp_AttemptID c.
Definition planned (p : ContextPlan) (h : list (event GE)) : Prop := ∃ req, Ev (PlanContext req) (Returns (Ok p)) ∈ h.

(** [h] ends in the applied start of [c], followed by [since]. *)
Definition started_by (h : list (event GE)) (c : Checkpoint) (since : list (event GE)) : Prop :=
  ∃ h0 durable key expected next t, h = h0 ++ Ev (StoreCAS durable key expected next t) (Ok (c, CommitApplied)) :: since
    ∧ t_OutcomeCode t = OutcomeNodeStarted.

Record opened (h : list (event GE)) (gt : gate) (since : list (event GE)) : Prop := {
  op_start : started_by h (g_checkpoint gt) since;
  op_unspent : count (executes (λ _, true)) since = 0%nat;
  op_lease : g_leased gt = true → lease_verified (g_checkpoint gt) since;
  op_sandbox : g_sandbox gt = true → sandbox_authorised (g_checkpoint gt) since;
  op_plan : ∀ p, g_plan gt = Some p → planned p since }.

(** One more effect that is neither a commit nor a node. *)
Lemma opened_snoc h gt since ev : opened h gt since → executes (λ _, true) ev = false → opened (h ++ [ev]) gt (since ++ [ev]).
Proof.
  intros [(h0 & d & k & x & n & t & -> & Ht) Hu Hl Hs Hp] Hev. split.
  - exists h0, d, k, x, n, t. split; [by rewrite <- app_assoc|done].
  - by rewrite count_app, count_one, Hev, Hu.
  - intros Hg. destruct (Hl Hg) as (d' & req & u & ? & ?). exists d', req, u. split; [apply elem_of_app; by left|done].
  - intros Hg. destruct (Hs Hg) as (req & u & ? & ?). exists req, u. split; [apply elem_of_app; by left|done].
  - intros p Hg. destruct (Hp p Hg) as (req & ?). exists req. apply elem_of_app. by left.
Qed.

Lemma armed_opened h gt : armed h = Some gt → ∃ since, opened h gt since.
Proof.
  revert gt. induction h as [|ev h IH] using rev_ind; intros gt; [done|]. rewrite armed_snoc. intros Ha.
  assert (armed h = Some gt → executes (λ _, true) ev = false → ∃ since, opened (h ++ [ev]) gt since) as Hsame.
  { intros Hgt Hev. destruct (IH _ Hgt) as [since Ho]. exists (since ++ [ev]). by apply opened_snoc. }
  destruct ev as [B g b]. destruct g; cbn in Ha; try by apply Hsame.
  - destruct b as [[c []]|]; try done. destruct (bool_decide_reflect (t_OutcomeCode t = OutcomeNodeStarted)); [|done]. injection Ha as <-. exists [].
    split; try done. by eexists h, durable, key, expected, next, t.
  - destruct (armed h) as [g0|]; [|done]. destruct b as [[u|]|]; try by apply Hsame. destruct (decide _) as [Heq|]; [|by apply Hsame].
    injection Ha as <-. destruct (IH _ eq_refl) as [since Ho]. exists (since ++ [Ev (LeaseVerify durable req) (Returns (Ok u))]).
    destruct (opened_snoc _ _ _ (Ev (LeaseVerify durable req) (Returns (Ok u))) Ho eq_refl) as [? ? ? ? ?]. split; try done.
    intros _. exists durable, req, u. split; [apply elem_of_app; right; by left|]. destruct req. cbn in Heq. by destruct Heq as (-> & -> & ->).
  - destruct (armed h) as [g0|]; [|done]. destruct b as [[p|]|]; try by apply Hsame.
    injection Ha as <-. destruct (IH _ eq_refl) as [since Ho]. exists (since ++ [Ev (PlanContext req) (Returns (Ok p))]).
    destruct (opened_snoc _ _ _ (Ev (PlanContext req) (Returns (Ok p))) Ho eq_refl) as [? ? ? ? ?]. split; try done.
    intros p' [= <-]. exists req. apply elem_of_app; right; by left.
  - destruct (armed h) as [g0|]; [|done]. destruct b as [[u|]|]; try by apply Hsame. destruct (bool_decide_reflect (sr_Attempt req = cp_AttemptID (g_checkpoint g0))); [|by apply Hsame].
    injection Ha as <-. destruct (IH _ eq_refl) as [since Ho]. exists (since ++ [Ev (SandboxAuthorize req) (Returns (Ok u))]).
    destruct (opened_snoc _ _ _ (Ev (SandboxAuthorize req) (Returns (Ok u))) Ho eq_refl) as [? ? ? ? ?]. split; try done.
    intros _. exists req, u. split; [apply elem_of_app; right; by left|done].
Qed.

(** ** The claims *)

(** C4.  A node runs at most once per start that the store has committed: over
    any interleaving of any number of [Run] and [Resume] calls of executors of a
    frozen definition, on any hosts, with calls that crash, leases that are wrong
    and commits whose answer is lost, the executions of an attempt never exceed the
    [node_started] transitions of that attempt in the run's log, and all executions
    of a run never exceed the step limit of the definition plus the approvals that
    were resolved for it. *)
Theorem nodes_run_once_per_committed_start {St} `{CheckpointStoreLaws St} order def kinds reducers predicates D (σ : system (St := St)) K :
  ValidateDefinition order def kinds reducers predicates = Some (Ok D) → reachable D σ →
  (∀ attempt, executions σ K (λ a, bool_decide (a = attempt))
              ≤ count (start_of (λ a, bool_decide (a = attempt))) (st_log (sy_store σ) K))%nat
  ∧ Z.of_nat (executions σ K (λ _, true)) ≤ li_MaxSteps (d_Limits D) + Z.of_nat (count is_approval (st_log (sy_store σ) K)).
Proof.
  intros Hv Hr. pose proof (reachable_inv D (validated_limits _ _ _ _ _ _ Hv) σ Hr) as Hinv. split; [intros a; by apply executions_started with D|].
  pose proof (executions_started D σ K (λ _, true) Hinv) as He. pose proof (starts_bounded D (validated_limits _ _ _ _ _ _ Hv) σ K Hinv) as Hb.
  assert (count (start_of (λ _, true)) (st_log (sy_store σ) K) = count is_start (st_log (sy_store σ) K)) as Heq.
  { unfold count. f_equal. apply list_filter_iff. intros t. unfold start_of. by rewrite andb_true_r. }
  rewrite Heq in He. lia.
Qed.

(** C5.  A node runs only behind its gate.  Whenever a call executes a node, the
    same call had a [node_started] commit applied by the store for the very attempt
    and has executed nothing since; after the commit the lease of the attempt's
    owner was verified, the sandbox was authorised for this attempt if the node
    uses it, and the planner returned the valid plan the node is given; the node is
    one of the definition. *)
Theorem nodes_run_behind_their_gate {St} `{CheckpointStoreLaws St} order def kinds reducers predicates D (σ : system (St := St)) th h1 binding req answer h2 :
  ValidateDefinition order def kinds reducers predicates = Some (Ok D) → reachable D σ → th ∈ sy_threads σ →
  th_hist th = h1 ++ Ev (NodeExecute binding req) answer :: h2 →
  ∃ c since, started_by h1 c since ∧ count (executes (λ _, true)) since = 0%nat ∧ nr_AttemptID req = cp_AttemptID c ∧ nr_SegmentID req = cp_SegmentID c
    ∧ lease_verified c since ∧ (n_UsesSandbox (nr_Spec req) = true → sandbox_authorised c since)
    ∧ planned (nr_Context req) since ∧ ValidateContextPlan (nr_Context req) = Ok tt ∧ nr_Spec req ∈ d_Nodes D.
Proof.
  intros Hv Hr Hth Hh. pose proof (reachable_inv D (validated_limits _ _ _ _ _ _ Hv) σ Hr) as Hinv.
  destruct (ti_lawful _ _ _ (si_threads _ _ Hinv th Hth) _ _ _ Hh) as (gt & Ha & Hl & Hs & Hp & Hvp & Hat & Hseg & Hn).
  destruct (armed_opened _ _ Ha) as [since [Ho Hu Hle Hsa Hpl]]. exists (g_checkpoint gt), since. split_and!; try done; auto.
Qed.

(** C6.  Commits are fenced.  Immediately before every commit of a call, the lease
    of the segment and host generation that the committed checkpoint names was
    verified; the commit replaces a checkpoint that the store had returned to the
    call, at its revision, and either keeps its owner or raises the host
    generation, never lowers it. *)
Theorem commits_are_fenced {St} `{CheckpointStoreLaws St} order def kinds reducers predicates D (σ : system (St := St)) th h1 durable key expected next t r h2 :
  ValidateDefinition order def kinds reducers predicates = Some (Ok D) → reachable D σ → th ∈ sy_threads σ →
  th_hist th = h1 ++ Ev (StoreCAS durable key expected next t) r :: h2 →
  (∃ h0 durable u, h1 = h0 ++ [Ev (LeaseVerify durable (leaseForCheckpoint next)) (Returns (Ok u))])
  ∧ ∃ prev, known h1 prev ∧ cp_Key prev = th_key th ∧ cp_Key next = th_key th ∧ expected = cp_Revision prev ∧ cp_Revision next = u64_succ expected
      ∧ (cp_SegmentID next = cp_SegmentID prev ∧ cp_HostGeneration next = cp_HostGeneration prev ∨ cp_HostGeneration prev < cp_HostGeneration next).
Proof.
  intros Hv Hr Hth Hh. pose proof (reachable_inv D (validated_limits _ _ _ _ _ _ Hv) σ Hr) as Hinv. pose proof (si_threads _ _ Hinv th Hth) as Hti.
  destruct (ti_lawful _ _ _ Hti _ _ _ Hh) as (Hf & prev & Hk & -> & -> & He). split; [done|]. exists prev.
  assert (cp_Key prev = th_key th) as HK. { apply (ti_known _ _ _ Hti prev). rewrite Hh. apply known_app. by left. }
  split_and!; try done; [by rewrite (es_key _ _ _ _ He)|apply He|]. destruct (es_owner _ _ _ _ He) as [?|[? _]]; by auto.
Qed.

(** A call of an executor. *)
Definition call (e : Executor) (fuel : nat) (q : StartRequest + ResumeRequest) : prog GE (option outcome) :=
  match q with inl request => Run e fuel request | inr request => Resume e fuel request end.

(** The store's answers in a trace keep its contract; the other ports may answer
    anything. *)
Definition lawful_store (tr : list (event GE)) : Prop := Forall (λ ev, match ev with @Ev _ B g b => honest B g b end) tr.

(** C7.  The step limit of the definition bounds every call.  Over a store that
    keeps its contract, whatever the leases, planners, sandboxes, nodes, reducers
    and predicates answer, a [Run] or [Resume] call returns an outcome after at
    most [MaxSteps + 2] iterations of the loop of [drive], [MaxSteps] being the
    limit of the definition it executes, and runs at most [MaxSteps + 1] nodes:
    one for each step, and the attempt it resumes. *)
Theorem calls_return order def kinds reducers predicates e fuel q tr r :
  ValidateDefinition order def kinds reducers predicates = Some (Ok (x_definition e)) →
  (Z.to_nat (li_MaxSteps (d_Limits (x_definition e))) + 2 ≤ fuel)%nat →
  runs (call e fuel q) tr r → lawful_store tr →
  is_Some r ∧ Z.of_nat (count (executes (λ _, true)) tr) ≤ li_MaxSteps (d_Limits (x_definition e)) + 1.
Proof.
  intros Hv%validated_limits Hf Hr Hl. change tr with ([] ++ tr). destruct q as [request|request].
  - eapply (wp_runs _ _ _ _ _ _ _ (wp_Run e (sq_Key request) ltac:(lia) fuel ltac:(lia) request eq_refl)); [exact Hr|exact Hl].
  - eapply (wp_runs _ _ _ _ _ _ _ (wp_Resume e (rq_Key request) ltac:(lia) fuel ltac:(lia) request eq_refl)); [exact Hr|exact Hl].
Qed.

(** ** Recovery *)

(** What a call may do to an interrupted run. *)
Definition recovers (c : Checkpoint) (ev : event GE) : Prop :=
  match ev with
  | @Ev _ _ g _ =>
    match g with
    | NodeExecute _ _ | StoreCreate _ _ => False
    | StoreCAS durable key expected next t =>
        durable = true ∧ key = cp_Key c ∧ expected = cp_Revision c ∧ cp_Status next = CheckpointUnknown ∧ cp_FailureCode next = OutcomeInterruptedUnknown
        ∧ cp_SegmentID next ≠ cp_SegmentID c ∧ cp_HostGeneration c < cp_HostGeneration next
        ∧ cp_State next = cp_State c ∧ cp_AttemptID next = cp_AttemptID c ∧ t_SourceAttemptID t = cp_AttemptID c
    | _ => True
    end
  end.

Lemma every_runs {E A} (P : ∀ B, E B → Prop) (p : prog E A) tr a : every P p → runs p tr a → Forall (λ ev, match ev with @Ev _ B g _ => P B g end) tr.
Proof.
  revert tr. induction p as [x|B g k IH]; intros tr; cbn; [by intros _ [-> _]|]. intros [Hg Hk] (b & tr' & -> & Hr). apply Forall_cons. split; [done|]. by eapply IH.
Qed.

Lemma free_recovers {A} c (p : prog GE A) : every free p → every (λ B g, ∀ b, recovers c (Ev (B := B) g b)) p.
Proof. induction p as [a|B g k IH]; cbn; [done|]. intros [Hg Hk]. split; [by destruct g|]. intros b. by apply IH. Qed.

Lemma recoverUnknown_recovers e c request : cp_CurrentNodeID c ≠ "" → every (λ B g, ∀ b, recovers c (Ev (B := B) g b)) (recoverUnknown e c request).
Proof.
  intros Hne. unfold recoverUnknown. destruct (_ || _) eqn:Hg; [done|]. rewrite !orb_false_iff in Hg. destruct Hg as [[_ Hseg] Hgen]. bool_to_prop. cbv zeta.
  apply every_bind; [apply free_recovers, verifyLease_free|]. intros [[]|]; [|done]. apply every_bind.
  - unfold commit, commitWithEvidence. cbv zeta. apply every_bind; [apply free_recovers, verifyLease_free|]. intros [[]|]; [|done].
    apply every_bind; [|done]. split; [|done]. intros ?. cbn. rewrite bool_decide_false by done. cbn. split_and!; try done.
  - intros [[c' d]|]; [|done]. apply every_bind; [apply free_recovers, emit_applied_free|]. intros _. apply every_bind; [|done].
    apply free_recovers, releaseLease_free.
Qed.

Lemma recoverUnknown_fails e c request tr o : runs (recoverUnknown e c request) tr o → o_Suspended o = false ∧ o_error o ≠ [].
Proof.
  unfold recoverUnknown. destruct (_ || _); [by intros [_ ->]|]. cbv zeta. intros (tr1 & tr2 & lv & -> & _ & H)%runs_bind.
  destruct lv; [|by destruct H as [_ ->]]. apply runs_bind in H as (tr3 & tr4 & r & -> & _ & H). destruct r as [[c' d]|]; [|by destruct H as [_ ->]].
  apply runs_bind in H as (tr5 & tr6 & ? & -> & _ & H). apply runs_bind in H as (tr7 & tr8 & rel & -> & _ & [_ ->]). done.
Qed.

(** C8.  An interrupted attempt is never run again.  A [Run] that loads an
    executing checkpoint executes no node and creates nothing; the only commit it
    may make is a durable one to [unknown], with the attempt and state kept, under
    another segment and a strictly newer host generation; and it never reports
    success. *)
Theorem interrupted_attempts_are_never_rerun e fuel request c loaded tr r :
  runs (Run e fuel request) (loaded :: tr) r → returned loaded = Some c → cp_Status c = CheckpointExecuting → cp_CurrentNodeID c ≠ "" →
  Forall (recovers c) tr ∧ ∃ o, r = Some o ∧ o_Suspended o = false ∧ o_error o ≠ [].
Proof.
  intros (b & tr' & [= -> ->] & Hr) Hl Hs Hne. cbn in Hl. destruct b as [c'|]; [|done]. injection Hl as ->. cbn in Hr. unfold run_loaded in Hr.
  destruct (verifyFrozenCheckpoint e c); [|destruct Hr as [-> ->]; split; [done|]; by eexists]. rewrite Hs in Hr.
  apply runs_bind in Hr as (tr1 & tr2 & o & -> & Ho & [-> ->]). rewrite app_nil_r. split.
  - eapply Forall_impl; [by apply (every_runs _ _ _ _ (recoverUnknown_recovers e c request Hne) Ho)|]. intros [B g b] Hg. apply Hg.
  - exists o. split; [done|]. by eapply recoverUnknown_fails.
Qed.

(** ** An executor to evaluate

    An environment that answers every effect of the graph executor: the in-memory
    store, a lease that always holds, a planner that plans what the node declares,
    and scripted answers of the node, the predicate, the clock and the context. *)

Definition ex_bindings : Bindings :=
  match NewBindings ex_frozen "composition" [mk_binding "work" "1" "w1" true] (BuiltinReducerBinding "r1") [mk_binding "again" "1" "p1" true] with
  | Ok b => b
  | Err _ => mk_bindings "" "" "" ∅ (BuiltinReducerBinding "") ∅
  end.
Definition ex_executor : Executor := mk_executor ex_frozen ex_bindings true true true false true.

(** Scripts; an exhausted script answers success, no match and no cancellation. *)
Record env := mk_env { env_store : Store; env_nodes : list NodeAnswer; env_again : list bool; env_timeouts : list bool; env_cancel : list bool }.

Definition ex_source (layer id : string) : ContextSource := mk_source layer id "1" 10 true [].
Definition ex_plan (req : ContextRequest) : ContextPlan :=
  mk_plan (cq_DefinitionRevision req) "plan" (cq_View req) (cq_Budget req)
    [ex_source LayerCurrentInput "input"; ex_source LayerRequiredState "state"] "".

Definition ex_handler (B : Type) (g : GE B) : env → B * env :=
  match g in GE B return env → B * env with
  | CtxErr => λ s, (match env_cancel s with b :: _ => b | [] => false end,
                    mk_env (env_store s) (env_nodes s) (env_again s) (env_timeouts s) (tail (env_cancel s)))
  | StoreLoad key => λ s, (Load (Ok tt) key (env_store s), s)
  | StoreCreate c t => λ s, let '(r, st) := Create (Ok tt) (Ok tt) 1 c t (env_store s) in
                            (r, mk_env st (env_nodes s) (env_again s) (env_timeouts s) (env_cancel s))
  | StoreCAS _ key expected next t => λ s, let '(r, st) := CompareAndSwap (Ok tt) (Ok tt) 1 key expected next t (env_store s) in
                                           (r, mk_env st (env_nodes s) (env_again s) (env_timeouts s) (env_cancel s))
  | LeaseVerify _ _ => λ s, (Returns (Ok tt), s)
  | LeaseRelease _ => λ s, (Returns (Ok tt), s)
  | PlanContext req => λ s, (Returns (Ok (ex_plan req)), s)
  | SandboxAuthorize _ => λ s, (Returns (Ok tt), s)
  | ApprovalAuthorize _ => λ s, (Returns (Ok tt), s)
  | NodeExecute _ _ => λ s, (match env_nodes s with a :: _ => a | [] => NodeReturns (mk_patch ∅ []) end,
                             mk_env (env_store s) (tail (env_nodes s)) (env_again s) (env_timeouts s) (env_cancel s))
  | AttemptClock => λ s, ((5, match env_timeouts s with b :: _ => b | [] => false end),
                          mk_env (env_store s) (env_nodes s) (env_again s) (tail (env_timeouts s)) (env_cancel s))
  | ReduceState _ st _ => λ s, (Returns (Ok st), s)
  | EvaluatePredicate _ _ => λ s, (Returns (Ok (match env_again s with b :: _ => b | [] => false end)),
                                   mk_env (env_store s) (env_nodes s) (tail (env_again s)) (env_timeouts s) (env_cancel s))
  | Observe _ => λ s, (Returns (Ok tt), s)
  | Backoff _ => λ s, (false, s)
  end.

Definition ex_empty_store : Store := mk_store 4 64 ∅ 0.
Definition ex_start : StartRequest := mk_start ex_run "segment" 1 {["note" := ex_note "hello"]}.

(** The nodes a trace started, with their attempts. *)
Definition started_nodes (tr : list (event GE)) : list string :=
  omap (λ ev : event GE, match ev with Ev (NodeExecute _ req) _ => Some (n_ID (nr_Spec req)) | _ => None end) tr.

(** ** Witnesses *)

Section Scripted.
Context {St : Type} `{CheckpointStoreLaws St} (D : Definition_) {env : Type} (store_of : env → St) (handler : ∀ B, GE B → env → B * env).
Hypothesis handler_ok : ∀ B (g : GE B) s, answers (store_of s) (store_of (handler B g s).2) B g (handler B g s).1.

(** [n] effects of a program under the handler. *)
Fixpoint script (n : nat) (h : list (event GE)) (p : prog GE (option outcome)) (s : env) : list (event GE) * prog GE (option outcome) * env :=
  match n, p with
  | S n, Vis g k => script n (h ++ [Ev g (handler _ g s).1]) (k (handler _ g s).1) (handler _ g s).2
  | _, _ => (h, p, s)
  end.

Lemma script_steps n K h p s :
  rtc (sys_step D) (mk_system (store_of s) [mk_thread K h p])
    (mk_system (store_of (script n h p s).2) [mk_thread K (script n h p s).1.1 (script n h p s).1.2]).
Proof.
  revert h p s. induction n as [|n IH]; intros h p s; [done|]. destruct p as [r|B g k]; [done|]. cbn [script]. eapply rtc_l; [|apply IH].
  apply (thread_step D (store_of s) [mk_thread K h (Vis g k)] 0 K h B g k (handler B g s).1); [done|apply handler_ok].
Qed.

Lemma answers_inv s s' B (g : GE B) b : st_inv s → answers s s' B g b → st_inv s'.
Proof.
  intros Hs. destruct g; cbn; try by intros ->.
  - by intros [-> _].
  - intros [[-> _]|(r' & Hc & _)]; [done|by eapply law_create_inv].
  - intros [[-> _]|(r' & Hc & _)]; [done|by eapply law_cas_inv].
Qed.

(** The store answers as its contract says. *)
Lemma script_lawful {A} (p : prog GE A) s : st_inv (store_of s) → lawful_store (Prog.drive handler p s).2.
Proof.
  revert s. induction p as [r|B g k IH]; intros s Hs; [constructor|]. cbn [Prog.drive]. pose proof (handler_ok B g s) as Ha.
  destruct (handler B g s) as [b s']. cbn in Ha. specialize (IH b s' (answers_inv _ _ _ _ _ Hs Ha)).
  destruct (Prog.drive handler (k b) s') as [[a s''] tr]. constructor; [by eapply answers_honest|exact IH].
Qed.
End Scripted.

Lemma ex_handler_ok B (g : GE B) s : answers (env_store s) (env_store (ex_handler B g s).2) B g (ex_handler B g s).1.
Proof.
  destruct g; try done.
  - cbn. split; [done|]. left. by exists (Ok tt).
  - cbn. right. destruct (Create _ _ _ _ _ _) as [r st] eqn:Hc. exists r. split; [by exists (Ok tt), (Ok tt), 1|by left].
  - cbn. right. destruct (CompareAndSwap _ _ _ _ _ _ _ _) as [r st] eqn:Hc. exists r. split; [by exists (Ok tt), (Ok tt), 1|by left].
Qed.

Definition ex_env : env := mk_env ex_empty_store [] [] [] [].

Lemma ex_initial : initial (mk_system ex_empty_store []).
Proof. split; [|done]. apply (New_inv 4 64). vm_compute. reflexivity. Qed.

Lemma ex_spawned : reachable ex_frozen (mk_system ex_empty_store [mk_thread ex_run [] (Run ex_executor drive_fuel ex_start)]).
Proof.
  exists (mk_system ex_empty_store []). split; [apply ex_initial|]. apply rtc_once.
  exact (spawn_run ex_frozen ex_empty_store [] ex_executor ex_start eq_refl).
Qed.

(** The run up to its first node. *)
Definition ex_partial := script ex_handler 13 [] (Run ex_executor drive_fuel ex_start) ex_env.
Definition ex_partial_system : system := mk_system (env_store ex_partial.2) [mk_thread ex_run ex_partial.1.1 ex_partial.1.2].

Lemma ex_partial_reachable : reachable ex_frozen ex_partial_system.
Proof. destruct ex_spawned as (σ0 & H0 & Hr). exists σ0. split; [done|]. etrans; [exact Hr|]. exact (script_steps ex_frozen env_store ex_handler ex_handler_ok 13 ex_run [] _ ex_env). Qed.

Lemma ex_partial_nodes : started_nodes ex_partial.1.1 = ["a"].
Proof. vm_compute. reflexivity. Qed.

Lemma started_split tr n ns : started_nodes tr = n :: ns → ∃ h1 binding req answer h2, tr = h1 ++ Ev (NodeExecute binding req) answer :: h2.
Proof.
  induction tr as [|[B g b] tr IH]; [done|]. destruct g; cbn; try (intros (h1 & bi & nr & a & h2 & ->)%IH; by eexists (_ :: h1), bi, nr, a, h2).
  intros _. by eexists [], binding, req, b, tr.
Qed.

Lemma nodes_run_once_per_committed_start_witness :
  Z.of_nat (executions ex_partial_system ex_run (λ _, true)) ≤ li_MaxSteps (d_Limits ex_frozen) + Z.of_nat (count is_approval (st_log (sy_store ex_partial_system) ex_run)).
Proof. exact (proj2 (nodes_run_once_per_committed_start _ _ _ _ _ ex_frozen ex_partial_system ex_run ex_frozen_accepted ex_partial_reachable)). Defined.

Lemma nodes_run_behind_their_gate_witness :
  ∃ h1 binding req answer h2 c since, ex_partial.1.1 = h1 ++ Ev (NodeExecute binding req) answer :: h2 ∧ started_by h1 c since ∧ lease_verified c since.
Proof.
  destruct (started_split _ _ _ ex_partial_nodes) as (h1 & binding & req & answer & h2 & Hh).
  destruct (nodes_run_behind_their_gate _ _ _ _ _ ex_frozen ex_partial_system (mk_thread ex_run ex_partial.1.1 ex_partial.1.2) h1 binding req answer h2
              ex_frozen_accepted ex_partial_reachable (list_elem_of_here _ _) Hh) as (c & since & H1 & _ & _ & _ & H2 & _).
  exists h1, binding, req, answer, h2, c, since. split; [exact Hh|]. split; [exact H1|exact H2].
Defined.

(** A history that ran a node holds the commit that started it. *)
Lemma ex_partial_commit : ∃ h1 durable key expected next t r h2, ex_partial.1.1 = h1 ++ Ev (StoreCAS durable key expected next t) r :: h2.
Proof.
  destruct (started_split _ _ _ ex_partial_nodes) as (h1 & binding & req & answer & h2 & Hh).
  pose proof (reachable_inv ex_frozen (validated_limits _ _ _ _ _ _ ex_frozen_accepted) _ ex_partial_reachable) as Hinv.
  destruct (ti_lawful _ _ _ (si_threads _ _ Hinv _ (list_elem_of_here _ _)) h1 _ h2 Hh) as (gt & Ha & _).
  destruct (armed_opened _ _ Ha) as [since [(h0 & d & k & x & n & t & -> & _) _ _ _ _]].
  eexists h0, d, k, x, n, t, _, _. rewrite Hh, <- app_assoc. reflexivity.
Qed.

Lemma commits_are_fenced_witness :
  ∃ h1 durable key expected next t r h2 h0 d u, ex_partial.1.1 = h1 ++ Ev (StoreCAS durable key expected next t) r :: h2
    ∧ h1 = h0 ++ [Ev (LeaseVerify d (leaseForCheckpoint next)) (Returns (Ok u))].
Proof.
  destruct ex_partial_commit as (h1 & durable & key & expected & next & t & r & h2 & Hh).
  destruct (commits_are_fenced _ _ _ _ _ ex_frozen ex_partial_system (mk_thread ex_run ex_partial.1.1 ex_partial.1.2) h1 durable key expected next t r h2
              ex_frozen_accepted ex_partial_reachable (list_elem_of_here _ _) Hh) as [(h0 & d & u & Hf) _].
  exists h1, durable, key, expected, next, t, r, h2, h0, d, u. split; [exact Hh|exact Hf].
Defined.

(** The same run with the fuel its own definition asks for. *)
Definition ex_limit : nat := Z.to_nat (li_MaxSteps (d_Limits ex_frozen)) + 2.
Definition ex_bounded := Prog.drive ex_handler (Run ex_executor ex_limit ex_start) ex_env.

Lemma ex_bounded_lawful : lawful_store ex_bounded.2.
Proof. apply (script_lawful env_store ex_handler ex_handler_ok). apply ex_initial. Qed.

Lemma calls_return_witness :
  is_Some ex_bounded.1.1 ∧ Z.of_nat (count (executes (λ _, true)) ex_bounded.2) ≤ li_MaxSteps (d_Limits ex_frozen) + 1.
Proof.
  exact (calls_return _ _ _ _ _ ex_executor ex_limit (inl ex_start) ex_bounded.2 ex_bounded.1.1 ex_frozen_accepted (le_n ex_limit)
           (drive_trace ex_handler (Run ex_executor ex_limit ex_start) ex_env) ex_bounded_lawful).
Defined.

(** A recovering host of a run whose attempt was interrupted. *)
Definition ex_interrupted : Checkpoint :=
  mk_checkpoint ex_run "segment" "demo" (d_Revision ex_frozen) "composition" (b_implementationRevision ex_bindings) 1 "a" 1 "attempt-1" 1
    {["a" := 1]} 2 {["note" := ex_note "hello"]} None "" None CheckpointExecuting "".
Definition ex_recovery : StartRequest := mk_start ex_run "segment-2" 2 ∅.
Definition ex_recovery_run := Prog.drive ex_handler (run_loaded ex_executor drive_fuel ex_interrupted ex_recovery) ex_env.

Lemma ex_recovery_runs :
  runs (Run ex_executor drive_fuel ex_recovery) (Ev (StoreLoad ex_run) (Ok ex_interrupted) :: ex_recovery_run.2) ex_recovery_run.1.1.
Proof. exists (Ok ex_interrupted), ex_recovery_run.2. split; [reflexivity|]. exact (drive_trace ex_handler (run_loaded ex_executor drive_fuel ex_interrupted ex_recovery) ex_env). Qed.

Lemma interrupted_attempts_are_never_rerun_witness : Forall (recovers ex_interrupted) ex_recovery_run.2.
Proof.
  exact (proj1 (interrupted_attempts_are_never_rerun ex_executor drive_fuel ex_recovery ex_interrupted _ _ _ ex_recovery_runs eq_refl eq_refl
                  ltac:(discriminate))).
Defined.
