(* ===== verification/GraphLease.v ===== *)
(** * Segment leases of graph runs

    [pkg/adapter/sql/graphsegment/store.go]: the SQL authority that lends the
    segment and host generation under which a run is executed.

    A table is a map of rows; a transaction is one step.  Statements can fail,
    and a commit can fail after it took effect ([fault]).  The random
    identifiers, the clock ([None]: it panicked) and the context are arguments. *)
From S2P Require Import Prelude GoString GraphContract GraphExecutor.
From stdpp Require Import gmap strings list relations.
From Stdlib Require Import ZArith Lia.
Open Scope Z_scope.

Definition ErrLeaseBusy : string := "graph segment lease busy".
Definition ErrLeaseInvalid : string := "graph segment lease invalid".
(** [graphsegment.ErrLeaseUnavailable]. *)
Definition ErrSegmentLeaseUnavailable : string := "graph segment lease unavailable".
Definition DeadlineExceeded : string := "context deadline exceeded".

(** Nanoseconds. *)
Definition DefaultTTL : Z := 600000000000.
Definition MinTTL : Z := 300000000000.

Record lease_row := mk_lease_row {
  lw_segment : string; lw_holder : string; lw_generation : Z; lw_expires : Z; lw_released : bool; lw_created : Z; lw_updated : Z }.
Notation lease_table := (gmap CheckpointKey lease_row).

(** A lease held by a host; [le_released] is its own flag. *)
Record lease := mk_held { le_key : CheckpointKey; le_segment : string; le_holder : string; le_generation : Z; le_released : bool }.

Definition NewWithOptions (ttl : Z) : result Z := fail_when ttl <=? MinTTL with ErrLeaseInvalid ;; Ok ttl.

Definition stableDBError (err : string) : string :=
  if bool_decide (err = Canceled) then Canceled else if bool_decide (err = DeadlineExceeded) then DeadlineExceeded else ErrSegmentLeaseUnavailable.

Inductive fault := NoFault | BeginFails (err : string) | UpdateFails (err : string) | RowsFail | InsertFails | SelectFails | CommitFails (applied : bool).

Definition free_row (now : Z) (row : lease_row) : bool := lw_released row || (lw_expires row <=? now).

(** The [UPDATE] of [Acquire]: the row it leaves, if one matches. *)
Definition take_over (key : CheckpointKey) (segment holder : string) (expires now : Z) (t : lease_table) : option lease_row :=
  match t !! key with
  | Some row => if free_row now row then Some (mk_lease_row segment holder (lw_generation row + 1) expires false (lw_created row) now) else None
  | None => None
  end.

Definition Acquire (ctx : result unit) (segment holder : string) (clock : option Z) (f : fault) (ttl : Z) (key : CheckpointKey) (t : lease_table) :
    result lease * lease_table :=
  match ctx with
  | Err err => (Err err, t)
  | Ok _ =>
    if negb (is_ok (ValidateCheckpointKey key)) then (Err ErrLeaseInvalid, t)
    else if bool_decide (segment = "") || bool_decide (holder = "") then (Err ErrSegmentLeaseUnavailable, t) else
    match clock with
    | None => (Err ErrSegmentLeaseUnavailable, t)
    | Some now =>
      let grant row := match f with
                       | CommitFails applied => (Err ErrSegmentLeaseUnavailable, if applied then <[key := row]> t else t)
                       | _ => (Ok (mk_held key segment holder (lw_generation row) false), <[key := row]> t)
                       end in
      match f with
      | BeginFails err | UpdateFails err => (Err (stableDBError err), t)
      | RowsFail => (Err ErrSegmentLeaseUnavailable, t)
      | _ =>
        match take_over key segment holder (now + ttl) now t with
        | Some row => match f with SelectFails => (Err ErrSegmentLeaseUnavailable, t) | _ => grant row end
        | None =>
          match f with
          | InsertFails => (Err ErrSegmentLeaseUnavailable, t)
          | _ => match t !! key with
                 | Some _ => (Err ErrLeaseBusy, t)
                 | None => grant (mk_lease_row segment holder 1 (now + ttl) false now now)
                 end
          end
        end
      end
    end
  end.

Definition check (ctx : result unit) (query : option string) (clock : option Z) (l : lease) (req : LeaseRequest) (t : lease_table) : result unit :=
  let! _ := ctx in
  fail_when negb (bool_decide (lr_Key req = le_key l)) || negb (bool_decide (lr_SegmentID req = le_segment l))
            || negb (lr_HostGeneration req =? le_generation l) with ErrLeaseInvalid ;;
  match query with
  | Some err => Err (stableDBError err)
  | None =>
    match t !! le_key l with
    | None => Err ErrSegmentLeaseUnavailable
    | Some row =>
      match clock with
      | None => Err ErrSegmentLeaseUnavailable
      | Some now =>
        fail_when negb (bool_decide (lw_holder row = le_holder l)) || lw_released row || (lw_expires row <=? now) with ErrSegmentLeaseUnavailable ;;
        Ok tt
      end
    end
  end.

Definition Verify (ctx : result unit) (query : option string) (clock : option Z) (l : lease) (req : LeaseRequest) (t : lease_table) : result unit :=
  check ctx query clock l req t.

(** The [UPDATE] of [Release]; [clock'] is its own reading, [exec] its failure,
    [applied] whether it took effect nevertheless. *)
Definition release_matches (now : Z) (l : lease) (row : lease_row) : bool :=
  bool_decide (lw_segment row = le_segment l) && bool_decide (lw_holder row = le_holder l) && (lw_generation row =? le_generation l)
  && negb (lw_released row) && (now <? lw_expires row).
Definition released_row (now : Z) (row : lease_row) : lease_row :=
  mk_lease_row (lw_segment row) (lw_holder row) (lw_generation row) (lw_expires row) true (lw_created row) now.

Definition Release (ctx : result unit) (query : option string) (clock clock' : option Z) (exec : option (string * bool)) (l : lease) (req : LeaseRequest)
    (t : lease_table) : result unit * lease * lease_table :=
  if le_released l then (Ok tt, l, t) else
  match check ctx query clock l req t with
  | Err err => (Err err, l, t)
  | Ok _ =>
    match clock' with
    | None => (Err ErrSegmentLeaseUnavailable, l, t)
    | Some now =>
      let t' := match t !! le_key l with
                | Some row => if release_matches now l row then <[le_key l := released_row now row]> t else t
                | None => t
                end in
      match exec with
      | Some (err, applied) => (Err (stableDBError err), l, if applied then t' else t)
      | None =>
        match t !! le_key l with
        | Some row => if release_matches now l row then (Ok tt, mk_held (le_key l) (le_segment l) (le_holder l) (le_generation l) true, t')
                      else (Err ErrSegmentLeaseUnavailable, l, t)
        | None => (Err ErrSegmentLeaseUnavailable, l, t)
        end
      end
    end
  end.

(** ** Hosts over one table *)

(** The table, the leases granted so far and the holder identifiers drawn. *)
Record lease_system := mk_leases { ls_table : lease_table; ls_granted : list lease; ls_used : gset string }.

(** Acquisitions draw a holder that was never drawn before; clocks, contexts and
    faults are arbitrary, and clocks of hosts need not agree. *)
Inductive lease_step : lease_system → lease_system → Prop :=
| step_acquire t ls used ctx segment holder clock f ttl key r t' : holder ∉ used → Acquire ctx segment holder clock f ttl key t = (r, t') →
    lease_step (mk_leases t ls used) (mk_leases t' (match r with Ok l => l :: ls | Err _ => ls end) ({[holder]} ∪ used))
| step_release t ls used ctx query clock clock' exec l req r l' t' : l ∈ ls → Release ctx query clock clock' exec l req t = (r, l', t') →
    lease_step (mk_leases t ls used) (mk_leases t' ls used).

Definition lease_reach (σ : lease_system) : Prop := rtc lease_step (mk_leases ∅ [] ∅) σ.

Definition same_owner (l l' : lease) : Prop := le_segment l = le_segment l' ∧ le_holder l = le_holder l' ∧ le_generation l = le_generation l'.

(** A granted lease against the row of its run. *)
Definition granted_by (row : lease_row) (l : lease) : Prop :=
  le_generation l ≤ lw_generation row
  ∧ (le_holder l = lw_holder row ∨ le_generation l = lw_generation row → le_segment l = lw_segment row ∧ le_holder l = lw_holder row ∧ le_generation l = lw_generation row).

Record lease_inv (σ : lease_system) : Prop := {
  li_rows : ∀ l, l ∈ ls_granted σ → ∃ row, ls_table σ !! le_key l = Some row ∧ granted_by row l;
  li_owner : ∀ l l', l ∈ ls_granted σ → l' ∈ ls_granted σ → le_key l = le_key l' → le_generation l = le_generation l' → same_owner l l';
  li_used : (∀ l, l ∈ ls_granted σ → le_holder l ∈ ls_used σ) ∧ ∀ key row, ls_table σ !! key = Some row → lw_holder row ∈ ls_used σ }.

(** An acquisition fails without a trace, or puts a row with a new generation in
    the table and grants it or loses its answer. *)
Lemma Acquire_cases ctx segment holder clock f ttl key t r t' : Acquire ctx segment holder clock f ttl key t = (r, t') →
  (∃ err, r = Err err) ∧ t' = t
  ∨ ∃ row, t' = <[key := row]> t ∧ lw_segment row = segment ∧ lw_holder row = holder ∧ lw_released row = false
      ∧ (∀ old, t !! key = Some old → lw_generation row = lw_generation old + 1)
      ∧ ((∃ err, r = Err err) ∨ r = Ok (mk_held key segment holder (lw_generation row) false)).
Proof.
  unfold Acquire. destruct ctx; [|intros [= <- <-]; left; eauto]. destruct (negb _); [intros [= <- <-]; left; eauto|].
  destruct (_ || _); [intros [= <- <-]; left; eauto|]. destruct clock as [now|]; [|intros [= <- <-]; left; eauto]. cbv zeta. unfold take_over.
  destruct (t !! key) as [old|] eqn:Hk; [destruct (free_row now old)|].
  all: destruct f as [|e|e| | | |[]]; intros [= <- <-]; try (left; by eauto); right; eexists; split_and!; try done; eauto; by intros ? [= <-] || by intros ? ?.
Qed.

Lemma Release_cases ctx query clock clock' exec l req t r l' t' : Release ctx query clock clock' exec l req t = (r, l', t') →
  t' = t ∨ ∃ row now, t !! le_key l = Some row ∧ t' = <[le_key l := released_row now row]> t.
Proof.
  unfold Release. destruct (le_released l); [intros [= _ _ <-]; by left|]. destruct (check _ _ _ _ _ _); [|intros [= _ _ <-]; by left].
  destruct clock' as [now|]; [|intros [= _ _ <-]; by left]. cbv zeta. destruct (t !! le_key l) as [row|] eqn:Hk.
  - destruct (release_matches now l row); [|destruct exec as [[? []]|]; intros [= _ _ <-]; by left].
    destruct exec as [[? []]|]; intros [= _ _ <-]; [right|by left|right]; by eexists row, now.
  - destruct exec as [[? []]|]; intros [= _ _ <-]; by left.
Qed.

Lemma lease_step_inv σ σ' : lease_inv σ → lease_step σ σ' → lease_inv σ'.
Proof.
  intros [Hr Ho [Hu Hw]] Hst. destruct Hst as [t ls used ctx segment holder clock f ttl key r t' Hnew Ha|t ls used ctx query clock clock' exec l req r l' t' Hl Hrel]; cbn in *.
  - destruct (Acquire_cases _ _ _ _ _ _ _ _ _ _ Ha) as [[[err ->] ->]|(row & -> & Hs & Hh & _ & Hg & Hres)].
    { split; cbn; [done|done|]. split; intros; apply elem_of_union_r; eauto. }
    assert (Hold : ∀ l, l ∈ ls → ∃ row', <[key := row]> t !! le_key l = Some row' ∧ granted_by row' l).
    { intros l Hl. destruct (Hr l Hl) as (old & Hk & Hle & Hsame). destruct (decide (key = le_key l)) as [->|Hne].
      - exists row. rewrite lookup_insert_eq. split; [done|]. pose proof (Hg _ Hk). split; [lia|]. intros [Heq|Heq]; [|lia]. exfalso. apply Hnew. rewrite <- Hh, <- Heq. by apply Hu.
      - exists old. rewrite lookup_insert_ne by done. done. }
    assert (Hrows : ∀ k row', <[key := row]> t !! k = Some row' → lw_holder row' ∈ {[holder]} ∪ used).
    { intros k row' [[_ <-]|[_ Hk]]%lookup_insert_Some; [rewrite Hh; by apply elem_of_union_l, elem_of_singleton|]. apply elem_of_union_r. by eapply Hw. }
    destruct Hres as [[err ->]| ->].
    { split; cbn; [done|done|]. split; [|done]. intros. apply elem_of_union_r. eauto. }
    assert (Hlt : ∀ l, l ∈ ls → le_key l = key → le_generation l < lw_generation row).
    { intros l Hl <-. destruct (Hr l Hl) as (old & Hk & Hle & _). rewrite (Hg _ Hk). lia. }
    split; cbn.
    + intros l [->|Hl]%elem_of_cons; [|by apply Hold]. cbn. exists row. rewrite lookup_insert_eq. split; [done|]. split; cbn; [lia|]. by rewrite Hs, Hh.
    + intros l l' [->|Hl]%elem_of_cons [->|Hl']%elem_of_cons; cbn; [done| | |by apply Ho].
      * intros Hk Hgen. specialize (Hlt l' Hl' (eq_sym Hk)). lia.
      * intros Hk Hgen. specialize (Hlt l Hl Hk). lia.
    + split; [|done]. intros l [->|Hl]%elem_of_cons; [by apply elem_of_union_l, elem_of_singleton|]. apply elem_of_union_r. eauto.
  - destruct (Release_cases _ _ _ _ _ _ _ _ _ _ _ Hrel) as [->|(row & now & Hk & ->)]; [done|]. split; cbn; [|done|split; [done|]].
    + intros l2 Hl2. destruct (Hr l2 Hl2) as (old & Hk2 & Hgr). destruct (decide (le_key l = le_key l2)) as [Heq|Hne].
      * exists (released_row now row). rewrite Heq, lookup_insert_eq. rewrite <- Heq, Hk in Hk2. injection Hk2 as <-. done.
      * exists old. by rewrite lookup_insert_ne.
    + intros k row' [[<- <-]|[_ Hk']]%lookup_insert_Some; [|by eapply Hw]. cbn. by eapply Hw.
Qed.

Lemma lease_reach_inv σ : lease_reach σ → lease_inv σ.
Proof.
  intros Hr. assert (lease_inv (mk_leases ∅ [] ∅)) as H0.
  { split; cbn; [by intros ? ?%elem_of_nil|by intros ?? ?%elem_of_nil|]. split; [by intros ? ?%elem_of_nil|]. by intros ?? ?%lookup_empty_Some. }
  unfold lease_reach in Hr. revert H0 Hr. generalize (mk_leases ∅ [] ∅). intros σ0 H0 Hr. induction Hr; [done|]. eauto using lease_step_inv.
Qed.

Lemma Verify_ok ctx query clock l req t : Verify ctx query clock l req t = Ok tt →
  req = mk_lease (le_key l) (le_segment l) (le_generation l)
  ∧ ∃ row now, t !! le_key l = Some row ∧ clock = Some now ∧ lw_holder row = le_holder l ∧ lw_released row = false ∧ now < lw_expires row.
Proof.
  unfold Verify, check. intros H. apply rbind_ok in H as (? & _ & H). apply fail_if_ok in H as [Hf H]. rewrite !orb_false_iff in Hf. destruct Hf as [[H1 H2] H3].
  bool_to_prop. destruct query; [done|]. destruct (t !! le_key l) as [row|] eqn:Hk; [|done]. destruct clock as [now|]; [|done].
  apply fail_if_ok in H as [Hg _]. rewrite !orb_false_iff in Hg. destruct Hg as [[G1 G2] G3]. bool_to_prop. split; [destruct req; cbn in *; by subst|].
  exists row, now. split_and!; try done; lia.
Qed.

(** C9.  A lease that verifies is the newest one of its run.  Whatever the hosts
    do (acquisitions that fail or whose commit is lost, releases, clocks that
    disagree), a lease that passes [Verify] was asked with its own segment and
    generation, has the highest generation ever granted for the run, and no lease
    of another owner verifies on the same table: a host that was replaced is
    refused for ever. *)
Theorem segment_leases_exclude σ l ctx query clock req : lease_reach σ → l ∈ ls_granted σ → Verify ctx query clock l req (ls_table σ) = Ok tt →
  req = mk_lease (le_key l) (le_segment l) (le_generation l)
  ∧ ∀ l', l' ∈ ls_granted σ → le_key l' = le_key l →
      (same_owner l' l ∨ le_generation l' < le_generation l)
      ∧ ∀ ctx' query' clock' req', Verify ctx' query' clock' l' req' (ls_table σ) = Ok tt → same_owner l' l.
Proof.
  intros Hr Hl Hv. destruct (lease_reach_inv _ Hr) as [Hrows Howner _]. destruct (Verify_ok _ _ _ _ _ _ Hv) as (-> & row & now & Hk & _ & Hh & _). split; [done|].
  destruct (Hrows l Hl) as (row0 & Hk0 & Hle & Hs). rewrite Hk in Hk0. injection Hk0 as <-. destruct (Hs (or_introl (eq_sym Hh))) as (_ & _ & Hgen).
  intros l' Hl' Hkey. destruct (Hrows l' Hl') as (row1 & Hk1 & Hle1 & Hs1). rewrite Hkey, Hk in Hk1. injection Hk1 as <-. split.
  - destruct (decide (le_generation l' = le_generation l)) as [Heq|]; [left; by apply Howner|right; lia].
  - intros ctx' query' clock' req' Hv'. destruct (Verify_ok _ _ _ _ _ _ Hv') as (_ & row2 & now2 & Hk2 & _ & Hh2 & _). rewrite Hkey, Hk in Hk2. injection Hk2 as <-.
    destruct (Hs1 (or_introl (eq_sym Hh2))) as (_ & _ & Hg1). apply Howner; [done|done|done|lia].
Qed.

(** ** Availability *)

(** A run without a lease, or whose lease is released or expired, is acquired. *)
Lemma Acquire_free segment holder now ttl key t : is_ok (ValidateCheckpointKey key) = true → segment ≠ "" → holder ≠ "" →
  (∀ row, t !! key = Some row → free_row now row = true) →
  ∃ row, Acquire (Ok tt) segment holder (Some now) NoFault ttl key t = (Ok (mk_held key segment holder (lw_generation row) false), <[key := row]> t)
    ∧ row = mk_lease_row segment holder (match t !! key with Some old => lw_generation old + 1 | None => 1 end) (now + ttl) false
              (match t !! key with Some old => lw_created old | None => now end) now.
Proof.
  intros Hk Hs Hh Hf. unfold Acquire. rewrite Hk. cbn [negb]. rewrite !bool_decide_false by done. cbn [orb]. unfold take_over.
  destruct (t !! key) as [old|]; [rewrite (Hf old) by done|]; eexists; split; reflexivity.
Qed.

Lemma Verify_holds l now row t : t !! le_key l = Some row → lw_holder row = le_holder l → lw_released row = false → now < lw_expires row →
  Verify (Ok tt) None (Some now) l (mk_lease (le_key l) (le_segment l) (le_generation l)) t = Ok tt.
Proof.
  intros Hk Hh Hr He. unfold Verify, check. cbn [rbind lr_Key lr_SegmentID lr_HostGeneration]. rewrite !bool_decide_true by done. rewrite Z.eqb_refl, Hk, Hr.
  rewrite (bool_decide_true (lw_holder row = le_holder l)) by done. cbn. destruct (Z.leb_spec (lw_expires row) now); [lia|done].
Qed.

(** A host whose lease expired and the one that replaced it. *)
Definition ex_leased : CheckpointKey := mk_key "tenant" "session" "run".
Definition ex_held (n : Z) (segment holder : string) : lease := mk_held ex_leased segment holder n false.
Definition ex_taken (n now : Z) (segment holder : string) : lease_row := mk_lease_row segment holder n (now + DefaultTTL) false 0 now.
Definition ex_table1 : lease_table := <[ex_leased := ex_taken 1 0 "s1" "h1"]> ∅.
Definition ex_table2 : lease_table := <[ex_leased := ex_taken 2 DefaultTTL "s2" "h2"]> ex_table1.
Definition ex_used1 : gset string := {["h1"]} ∪ ∅.
Definition ex_leases : lease_system := mk_leases ex_table2 [ex_held 2 "s2" "h2"; ex_held 1 "s1" "h1"] ({["h2"]} ∪ ex_used1).

Lemma ex_leased_valid : is_ok (ValidateCheckpointKey ex_leased) = true.
Proof. vm_compute. reflexivity. Qed.

Lemma ex_first : Acquire (Ok tt) "s1" "h1" (Some 0) NoFault DefaultTTL ex_leased ∅ = (Ok (ex_held 1 "s1" "h1"), ex_table1).
Proof.
  destruct (Acquire_free "s1" "h1" 0 DefaultTTL ex_leased ∅ ex_leased_valid) as (row & -> & Hrow); [done|done|by intros ? ?%lookup_empty_Some|].
  rewrite lookup_empty in Hrow. by subst row.
Qed.

Lemma ex_second : Acquire (Ok tt) "s2" "h2" (Some DefaultTTL) NoFault DefaultTTL ex_leased ex_table1 = (Ok (ex_held 2 "s2" "h2"), ex_table2).
Proof.
  destruct (Acquire_free "s2" "h2" DefaultTTL DefaultTTL ex_leased ex_table1 ex_leased_valid) as (row & -> & Hrow); [done|done| |].
  { intros row. unfold ex_table1. rewrite lookup_insert_eq. intros [= <-]. reflexivity. }
  unfold ex_table1 in Hrow at 1 2. rewrite lookup_insert_eq in Hrow. by subst row.
Qed.

Lemma ex_unused : "h2" ∉ ex_used1.
Proof. unfold ex_used1. set_solver. Qed.

Lemma ex_lease_reach : lease_reach ex_leases.
Proof.
  exact (rtc_l _ _ _ _ (step_acquire ∅ [] ∅ (Ok tt) "s1" "h1" (Some 0) NoFault DefaultTTL ex_leased (Ok (ex_held 1 "s1" "h1")) ex_table1 (not_elem_of_empty _) ex_first)
        (rtc_l _ _ _ _ (step_acquire ex_table1 [ex_held 1 "s1" "h1"] ex_used1 (Ok tt) "s2" "h2" (Some DefaultTTL) NoFault DefaultTTL ex_leased
                          (Ok (ex_held 2 "s2" "h2")) ex_table2 ex_unused ex_second) (rtc_refl _ _))).
Qed.

Lemma ex_second_verifies : Verify (Ok tt) None (Some (DefaultTTL + 1)) (ex_held 2 "s2" "h2") (mk_lease ex_leased "s2" 2) ex_table2 = Ok tt.
Proof. apply (Verify_holds (ex_held 2 "s2" "h2") (DefaultTTL + 1) (ex_taken 2 DefaultTTL "s2" "h2")); [apply lookup_insert_eq|done..]. Qed.

Lemma segment_leases_exclude_witness :
  same_owner (ex_held 1 "s1" "h1") (ex_held 2 "s2" "h2") ∨ le_generation (ex_held 1 "s1" "h1") < le_generation (ex_held 2 "s2" "h2").
Proof.
  exact (proj1 (proj2 (segment_leases_exclude ex_leases (ex_held 2 "s2" "h2") (Ok tt) None (Some (DefaultTTL + 1)) (mk_lease ex_leased "s2" 2) ex_lease_reach
                         (list_elem_of_here _ _) ex_second_verifies)
                  (ex_held 1 "s1" "h1") (list_elem_of_further _ _ _ (list_elem_of_here _ _)) eq_refl)).
Defined.
