(* ===== verification/GraphTurn.v ===== *)
(** * The turn of a graph run

    [pkg/adapter/runexecutor/graph/graph.go]: a turn of the server executed by the
    graph engine.  It acquires a segment lease, runs the built-in one-node graph
    whose node is a turn of the kernel, and gives the lease back.

    The effects are those of the engine's ports ([Port]), of the segment authority
    and its lease, of the decision resolver, of the kernel turn and of the session.
    The engine is the program of [GraphExecutor], with the lease behind a
    [sync.Once] and the node replaced by its implementation ([host]). *)
From S2P Require Import Prelude Prog GoString Json Principal Payload GraphContract GraphContext GraphState GraphValidate GraphExecutor GraphLease.
From stdpp Require Import gmap strings list.
From Stdlib Require Import ZArith Lia.
Open Scope Z_scope.

Definition ID : string := "graph-core-turn".
Definition Version : string := "1".
Definition ImplementationRevision : string := "graph-core-turn-v1".
Definition statusField : string := "status".

Definition ErrInvalidOptions : string := "invalid graph run executor options".
Definition ErrSegmentUnavailable : string := "graph run segment authority unavailable".
Definition ErrApprovalResolverUnavailable : string := "graph approval decision resolver unavailable".
Definition ErrCallbackPanic : string := "graph adapter callback panicked".

(** ** The built-in definition and planner *)

Definition default_graph : Definition_ :=
  mk_definition ID Version "" "turn"
    [mk_node "turn" "core-turn" "1" None (mk_view [statusField] [LayerCurrentInput; LayerRequiredState])
       (mk_budget 32 0 0 {[LayerCurrentInput := 16; LayerRequiredState := 16]}) (mk_retry 0 0) 300000000000 true false (PolicyOther "")]
    [] (mk_schema ReducerTopLevelJSONPatch "1" [mk_field statusField StateString true false 64]) (mk_limits 4 1) [].

(** [NewDefaultDefinition]; the order of the one-node map is unique. *)
Definition NewDefaultDefinition : option (result Definition_) :=
  match NewNodeKindRegistry [mk_meta "core-turn" "1"], NewReducerRegistry [], NewPredicateRegistry [] with
  | Ok kinds, Ok reducers, Ok predicates => ValidateDefinition ["turn"] default_graph kinds reducers predicates
  | Err e, _, _ | _, Err e, _ | _, _, Err e => Some (Err e)
  end.

Definition reference_sources (layers : list string) : list ContextSource :=
  mk_source LayerCurrentInput "current-input" "1" 1 true []
  :: ((λ layer, mk_source layer "state" "1" 1 true []) <$> filter (λ layer, layer = LayerRequiredState) layers).

(** [ReferencePlanner.Plan]. *)
Definition reference_Plan (ctx : result unit) (request : ContextRequest) : result ContextPlan :=
  let! _ := ctx in
  let! _ := ValidateContextBudget (cq_Budget request) in
  let sources := reference_sources (cv_Layers (cq_View request)) in
  fail_when existsb (λ s, default 0 (cb_LayerBudgets (cq_Budget request) !! cs_Layer s) <? cs_EstimatedTokens s) sources with ErrInvalidOptions ;;
  let plan := mk_plan (cq_DefinitionRevision request) "reference-v1" (cq_View request) (cq_Budget request) sources "" in
  let! _ := ValidateContextPlan plan in
  Ok plan.

(** ** Effects *)

Record SegmentGrant := mk_grant { sg_SegmentID : string; sg_HostGeneration : Z; sg_Lease : bool }.

Record TurnResult := mk_turn_result { gt_RunID : string; gt_Status : string; gt_Answer : string }.

(** What the kernel answers: a result, an error as the executor looks at it, or a panic. *)
Inductive core_answer := CoreReturns (r : TurnResult) | CoreFails (e : NodeError) | CorePanics.

Inductive TE : Type → Type :=
| Port {B} (g : GE B) : TE B
| AuthorityAcquire (key : CheckpointKey) : TE (call SegmentGrant)
| SegmentVerify (durable : bool) (req : LeaseRequest) : TE (call unit)
| SegmentRelease (req : LeaseRequest) : TE (call unit)
| DecisionResolve (subject : Principal) (key : CheckpointKey) (id : string) : TE (call ApprovalDecision)
| CoreTurn (resume : bool) (runID text : string) : TE core_answer
| SessionPendingApproval (runID : string) : TE (result (option string)).

Notation tprog := (prog TE).

(** ** The node *)

Definition plain_error : NodeError := mk_node_error false None false false.

(** [turnNode.Execute]; the answer it leaves in the node is the second component. *)
Definition turn_Execute (resume : bool) (runID text answer : string) (request : NodeRequest) : tprog (NodeAnswer * string) :=
  if match nr_ResolvedApproval request with
     | Some a => negb (bool_decide (ae_Decision a = "approved")) && negb (bool_decide (ae_Decision a = "denied"))
     | None => false
     end then Ret (NodeFails plain_error, answer) else
  let* turn := ask (CoreTurn resume runID text) in
  match turn with
  | CorePanics => Ret (NodePanics, answer)
  | CoreFails e => Ret (NodeFails e, answer)
  | CoreReturns r =>
    if bool_decide (gt_Status r = RunWaitingApproval) then
      let* pending := ask (SessionPendingApproval runID) in
      Ret (match pending with
           | Ok (Some id) => NodeFails (mk_node_error false (Some id) false false)
           | _ => NodeFails plain_error
           end, answer)
    else if negb (bool_decide (gt_Status r = RunCompleted)) then Ret (NodeFails plain_error, answer)
    else Ret (NodeReturns (mk_patch {[statusField := encoded_value (JStr (gt_Status r))]} []), gt_Answer r)
  end.

(** ** The engine behind the lease *)

(** The [sync.Once] of the lease with its error, and the answer of the node. *)
Record host_state := mk_host { hs_released : option (result unit); hs_answer : string }.

(** [onceLease.Release]. *)
Definition once_Release (req : LeaseRequest) (st : host_state) : tprog (result unit * host_state) :=
  match hs_released st with
  | Some r => Ret (r, st)
  | None => let* r := ask (SegmentRelease req) in
            let r := safely ErrCallbackPanic r in Ret (r, mk_host (Some r) (hs_answer st))
  end.

Section Host.
Context (resume : bool) (runID text : string).

Definition handle {B} (g : GE B) (st : host_state) : tprog (B * host_state) :=
  match g in GE B return tprog (B * host_state) with
  | LeaseVerify durable req => let* r := ask (SegmentVerify durable req) in Ret (r, st)
  | LeaseRelease req => let* (r, st) := once_Release req st in Ret (Returns r, st)
  | NodeExecute _ request =>
      let* (a, answer) := turn_Execute resume runID text (hs_answer st) request in Ret (a, mk_host (hs_released st) answer)
  | g => let* b := ask (Port g) in Ret (b, st)
  end.

Fixpoint host {A} (p : prog GE A) (st : host_state) : tprog (A * host_state) :=
  match p with
  | Ret a => Ret (a, st)
  | Vis g k => pbind (handle g st) (λ x, host (k x.1) x.2)
  end.
End Host.

(** ** Results *)

Definition joined (errs : list string) (err : string) : bool := bool_decide (err ∈ errs).
Definition lease_lost (errs : list string) : bool := joined errs ErrLeaseUnavailable || joined errs ErrLeasePanic.

Definition sanitizeRunError (errs : list string) : list string :=
  match errs with [] => [] | _ => if lease_lost errs then [ErrSegmentUnavailable] else [ErrExecutionFailed] end.

Definition checkpointStatus (s : State) : option string :=
  match s !! statusField with
  | Some raw =>
    match sv_value raw with
    | Some (JStr v) => if negb (bool_decide (trim_space v = v)) then None
                       else if bool_decide (v ∈ [RunCompleted; RunFailed; RunCancelled; RunWaitingApproval]) then Some v else None
    | _ => None
    end
  | None => None
  end.

(** The status of the checkpoint of a result; a zero checkpoint has none. *)
Definition result_status (o : outcome) : option CheckpointStatus := match o_Checkpoint o with Some c => Some (cp_Status c) | None => None end.

Definition mapResult (runID answer : string) (o : outcome) (runErr : list string) : TurnResult * list string :=
  let turn status := mk_turn_result runID status "" in
  if bool_decide (result_status o = Some CheckpointWaitingApproval) then
    if lease_lost runErr then (turn RunWaitingApproval, [ErrSegmentUnavailable])
    else if negb (bool_decide (runErr = [])) && negb (joined runErr ErrApprovalPending) then (turn RunWaitingApproval, sanitizeRunError runErr)
    else (turn RunWaitingApproval, [])
  else if lease_lost runErr then (turn RunFailed, [ErrSegmentUnavailable])
  else match o_Checkpoint o with
       | Some c =>
         match cp_Status c with
         | CheckpointCompleted =>
           if bool_decide (checkpointStatus (cp_State c) = Some RunCompleted) then (mk_turn_result runID RunCompleted answer, runErr)
           else (turn RunFailed, [ErrInvalidOptions])
         | CheckpointCancelled => (turn RunCancelled, sanitizeRunError runErr)
         | _ => (turn RunFailed, sanitizeRunError runErr)
         end
       | None => (turn RunFailed, sanitizeRunError runErr)
       end.

(** ** Turns *)

(** The registered executor: the frozen definition and which optional ports it has. *)
Record graph_host := mk_graph_host { gh_definition : Definition_; gh_observer : bool; gh_sandbox : bool; gh_approval : bool; gh_decisions : bool }.

Definition engine (h : graph_host) : result Executor :=
  let! bindings := NewBindings (gh_definition h) "graph-core-turn-composition" [mk_binding "core-turn" "1" ImplementationRevision true]
                     (BuiltinReducerBinding "builtin-v1") [] in
  NewExecutorWithOptions (gh_definition h) bindings (gh_observer h) true true (gh_sandbox h) (gh_approval h).

Definition initialState : State := {[statusField := encoded_value (JStr "pending")]}.

Definition no_turn : TurnResult := mk_turn_result "" "" "".

(** [safeAcquire] with the check of the grant. *)
Definition acquire (key : CheckpointKey) : tprog (option SegmentGrant) :=
  let* r := ask (AuthorityAcquire key) in
  Ret (match r with
       | Returns (Ok grant) =>
         if bool_decide (sg_SegmentID grant = "") || (sg_HostGeneration grant =? 0) || negb (sg_Lease grant) then None else Some grant
       | _ => None
       end).

(** The engine under a grant, and the release unless the run waits.  [None] is an
    exhausted loop. *)
Definition under_lease (h : graph_host) (resume : bool) (key : CheckpointKey) (grant : SegmentGrant) (runID text : string)
    (go : Executor → prog GE (option outcome)) : tprog (option (TurnResult * list string)) :=
  let lease := mk_lease key (sg_SegmentID grant) (sg_HostGeneration grant) in
  let st := mk_host None "" in
  match engine h with
  | Err err => let* _ := once_Release lease st in Ret (Some (no_turn, [err]))
  | Ok e =>
    let* (r, st) := host resume runID text (go e) st in
    match r with
    | None => Ret None
    | Some o =>
      if bool_decide (result_status o = Some CheckpointWaitingApproval) then Ret (Some (mapResult runID (hs_answer st) o (o_error o))) else
      let* (released, st) := once_Release lease st in
      let runErr := if negb (is_ok released) && bool_decide (o_error o = []) then [ErrSegmentUnavailable] else o_error o in
      Ret (Some (mapResult runID (hs_answer st) o runErr))
    end
  end.

Definition turn_key (principal : Principal) (session runID : string) : CheckpointKey := mk_key (TenantID principal) session runID.

(** [session] is [None] for a nil session. *)
Definition graph_RunTurn (h : graph_host) (principal : Principal) (session : option string) (runID text : string) :
    tprog (option (TurnResult * list string)) :=
  match session with
  | None => Ret (Some (no_turn, [ErrInvalidOptions]))
  | Some session =>
    if bool_decide (runID = "") then Ret (Some (no_turn, [ErrInvalidOptions])) else
    let key := turn_key principal session runID in
    let* acquired := acquire key in
    match acquired with
    | None => Ret (Some (no_turn, [ErrSegmentUnavailable]))
    | Some grant =>
      under_lease h false key grant runID text
        (λ e, Run e drive_fuel (mk_start key (sg_SegmentID grant) (sg_HostGeneration grant) initialState))
    end
  end.

Definition graph_ResumeTurn (h : graph_host) (principal : Principal) (session : option string) (runID : string) :
    tprog (option (TurnResult * list string)) :=
  let stop err := Ret (Some (no_turn, [err])) in
  match session with
  | None => stop ErrApprovalResolverUnavailable
  | Some session =>
    if bool_decide (runID = "") || negb (gh_decisions h) then stop ErrApprovalResolverUnavailable else
    let key := turn_key principal session runID in
    let* pending := ask (SessionPendingApproval runID) in
    match pending with
    | Err err => stop err
    | Ok None => stop ErrApprovalResolverUnavailable
    | Ok (Some id) =>
      let* resolved := ask (DecisionResolve principal key id) in
      match resolved with
      | Panics => stop ErrCallbackPanic
      | Returns (Err _) => stop ErrApprovalResolverUnavailable
      | Returns (Ok decision) =>
        if negb (is_ok (decision_Validate decision)) || negb (bool_decide (ad_Key decision = key)) || negb (bool_decide (ad_ApprovalID decision = id))
        then stop ErrApprovalResolverUnavailable else
        let* acquired := acquire key in
        match acquired with
        | None => stop ErrSegmentUnavailable
        | Some grant =>
          under_lease h true key grant runID ""
            (λ e, Resume e drive_fuel (mk_resume key (sg_SegmentID grant) (sg_HostGeneration grant) id false decision))
        end
      end
    end
  end.

(** [Registration]: only the built-in definition is accepted.  The flags say which
    ports are given; [None] is an exhausted validation. *)
Definition Registration (definition : option Definition_) (store authority planner observer sandbox approval decisions : bool) : option (result graph_host) :=
  match definition with
  | None => Some (Err ErrInvalidOptions)
  | Some d =>
    if negb (store && authority && planner) then Some (Err ErrInvalidOptions) else
    match NewDefaultDefinition with
    | None => None
    | Some (Err _) => Some (Err ErrInvalidOptions)
    | Some (Ok default) =>
      Some (fail_when negb (bool_decide (d_Revision d = d_Revision default)) with ErrInvalidOptions ;; Ok (mk_graph_host d observer sandbox approval decisions))
    end
  end.

(** ** The lease of a turn *)

Definition is_release (ev : event TE) : bool := match ev with @Ev _ _ g _ => match g with SegmentRelease _ => true | _ => false end end.
Definition releases (tr : list (event TE)) : nat := length (filter (λ ev, is_release ev = true) tr).

Lemma releases_app tr tr' : releases (tr ++ tr') = (releases tr + releases tr')%nat.
Proof. unfold releases. by rewrite filter_app, length_app. Qed.

Lemma releases_one ev : is_release ev = false → releases [ev] = 0%nat.
Proof. intros H. unfold releases. rewrite filter_cons_False by by rewrite H. done. Qed.

(** The grant an acquisition returned, when the turn accepts it. *)
Definition granted (ev : event TE) : option SegmentGrant :=
  match ev with
  | @Ev _ _ g b =>
    match g in TE B return B → option SegmentGrant with
    | AuthorityAcquire _ => λ r,
        match r with
        | Returns (Ok grant) => if bool_decide (sg_SegmentID grant = "") || (sg_HostGeneration grant =? 0) || negb (sg_Lease grant) then None else Some grant
        | _ => None
        end
    | _ => λ _, None
    end b
  end.

Definition spent (st : host_state) : nat := match hs_released st with Some _ => 1 | None => 0 end.

Lemma once_Release_spent req st tr r st' : runs (once_Release req st) tr (r, st') → (releases tr + spent st)%nat = spent st' ∧ spent st' = 1%nat.
Proof.
  unfold once_Release, spent. destruct (hs_released st) as [r0|] eqn:Hr.
  - intros [-> [= -> ->]]. by rewrite Hr.
  - intros (tr1 & tr2 & c & -> & H1 & [-> [= -> ->]])%runs_bind. apply runs_ask in H1 as ->. done.
Qed.

Lemma turn_Execute_silent resume runID text answer req tr a : runs (turn_Execute resume runID text answer req) tr a → releases tr = 0%nat.
Proof.
  unfold turn_Execute. match goal with |- runs (if ?b then _ else _) _ _ → _ => destruct b end; [by intros [-> _]|]. intros (tr1 & tr2 & c & -> & H1 & H2)%runs_bind.
  apply runs_ask in H1 as ->. rewrite releases_app. destruct c as [r|e|]; [|by destruct H2 as [-> _]..].
  destruct (bool_decide _); [|destruct (negb _); by destruct H2 as [-> _]].
  apply runs_bind in H2 as (tr3 & tr4 & p & -> & H3 & [-> _]). by apply runs_ask in H3 as ->.
Qed.

Lemma handle_spent resume runID text {B} (g : GE B) st tr x : runs (handle resume runID text g st) tr x → (releases tr + spent st)%nat = spent x.2.
Proof.
  destruct x as [b st']. destruct g; cbn [handle]; try (by intros (tr1 & tr2 & answ & -> & H1 & [-> [= -> ->]])%runs_bind; apply runs_ask in H1 as ->).
  - intros (tr1 & tr2 & [r s] & -> & H1 & [-> [= -> ->]])%runs_bind. rewrite app_nil_r. by apply once_Release_spent in H1 as [? _].
  - intros (tr1 & tr2 & [a ans] & -> & H1 & [-> [= -> ->]])%runs_bind. rewrite app_nil_r. apply turn_Execute_silent in H1 as ->. done.
Qed.

Lemma host_spent resume runID text {A} (p : prog GE A) st tr x : runs (host resume runID text p st) tr x → (releases tr + spent st)%nat = spent x.2.
Proof.
  revert st tr x. induction p as [a|B g k IH]; intros st tr x; cbn [host].
  - by intros [-> ->].
  - intros (tr1 & tr2 & y & -> & H1 & H2)%runs_bind. apply handle_spent in H1. apply IH in H2. rewrite releases_app. lia.
Qed.

(** What [under_lease] gives back. *)
Lemma under_lease_releases h resume key grant runID text go tr r : runs (under_lease h resume key grant runID text go) tr r →
  (releases tr ≤ 1)%nat ∧ ∀ t errs, r = Some (t, errs) → gt_Status t ≠ RunWaitingApproval → releases tr = 1%nat.
Proof.
  unfold under_lease. cbv zeta. destruct (engine h) as [e|err].
  2: { intros (tr1 & tr2 & [r0 st] & -> & H1 & [-> ->])%runs_bind. apply once_Release_spent in H1 as [H1 H2]. rewrite app_nil_r. cbn in H1. split; [lia|]. intros. lia. }
  intros (tr1 & tr2 & [r0 st] & -> & H1 & H2)%runs_bind. apply host_spent in H1. cbn in H1. rewrite releases_app.
  assert (spent st ≤ 1)%nat by (unfold spent; destruct (hs_released st); lia).
  destruct r0 as [o|]; [|destruct H2 as [-> ->]; cbn; split; [lia|done]].
  destruct (bool_decide (result_status o = Some CheckpointWaitingApproval)) eqn:Hw.
  - destruct H2 as [-> ->]. cbn. split; [lia|]. intros t errs [= Hm] Hs. exfalso. apply Hs. unfold mapResult in Hm. rewrite Hw in Hm.
    destruct (lease_lost _); [by simplify_eq|]. destruct (_ && _); by simplify_eq.
  - apply runs_bind in H2 as (tr3 & tr4 & [rel st'] & -> & H3 & [-> ->]). apply once_Release_spent in H3 as [H3 H4]. rewrite app_nil_r. split; [lia|]. intros. lia.
Qed.

Lemma acquire_silent key tr o : runs (acquire key) tr o → ∃ ev, tr = [ev] ∧ granted ev = o ∧ is_release ev = false.
Proof. intros (tr1 & tr2 & r & -> & H1 & [-> ->])%runs_bind. apply runs_ask in H1 as ->. eexists. split; [done|]. split; [|done]. by destruct r as [[g|]|]. Qed.

(** A turn before its lease: no grant, no release. *)
Lemma RunTurn_cases h principal session runID text tr r : runs (graph_RunTurn h principal session runID text) tr r →
  (releases tr = 0%nat ∧ Forall (λ ev, granted ev = None) tr)
  ∨ ∃ ev tr' grant s, tr = ev :: tr' ∧ session = Some s ∧ granted ev = Some grant ∧ is_release ev = false
      ∧ runs (under_lease h false (turn_key principal s runID) grant runID text
                (λ e, Run e drive_fuel (mk_start (turn_key principal s runID) (sg_SegmentID grant) (sg_HostGeneration grant) initialState))) tr' r.
Proof.
  unfold graph_RunTurn. destruct session as [s|]; [|intros [-> _]; by left]. destruct (bool_decide _); [intros [-> _]; by left|]. cbv zeta.
  intros (tr1 & tr2 & o & -> & H1 & H2)%runs_bind. apply acquire_silent in H1 as (ev & -> & Hg & Hr). destruct o as [grant|].
  - right. by exists ev, tr2, grant, s.
  - destruct H2 as [-> _]. left. rewrite app_nil_r. split; [|by apply Forall_singleton]. by apply releases_one.
Qed.

Lemma ResumeTurn_releases h principal session runID tr r : runs (graph_ResumeTurn h principal session runID) tr r →
  (releases tr ≤ 1)%nat ∧ (Exists (λ ev, is_Some (granted ev)) tr → ∀ t errs, r = Some (t, errs) → gt_Status t ≠ RunWaitingApproval → releases tr = 1%nat).
Proof.
  assert (∀ tr (r : option (TurnResult * list string)), releases tr = 0%nat → Forall (λ ev, granted ev = None) tr →
    (releases tr ≤ 1)%nat ∧ (Exists (λ ev, is_Some (granted ev)) tr → ∀ t errs, r = Some (t, errs) → gt_Status t ≠ RunWaitingApproval → releases tr = 1%nat)) as Hnone.
  { intros tr0 r0 H0 Hf. split; [lia|]. intros He. exfalso. apply Exists_exists in He as (ev & Hin & [g Hg]). rewrite Forall_forall in Hf. rewrite (Hf ev Hin) in Hg. done. }
  unfold graph_ResumeTurn. cbv zeta. destruct session as [s|]; [|intros [-> _]; by apply Hnone]. destruct (_ || _); [intros [-> _]; by apply Hnone|].
  intros (tr1 & tr2 & pend & -> & H1 & H2)%runs_bind. apply runs_ask in H1 as ->. destruct pend as [[id|]|]; [|destruct H2 as [-> _]; by apply Hnone; [|repeat constructor]..].
  apply runs_bind in H2 as (tr3 & tr4 & res & -> & H3 & H4). apply runs_ask in H3 as ->.
  destruct res as [[d|]|]; [|destruct H4 as [-> _]; by apply Hnone; [|repeat constructor]..].
  destruct (_ || _); [destruct H4 as [-> _]; by apply Hnone; [|repeat constructor]|].
  apply runs_bind in H4 as (tr5 & tr6 & o & -> & H5 & H6). apply acquire_silent in H5 as (ev & -> & Hg & Hr). destruct o as [grant|].
  - apply under_lease_releases in H6 as [H6 H7]. rewrite !releases_app.
    rewrite (releases_one ev) by done. cbn. split; [done|]. by intros _.
  - destruct H6 as [-> _]. apply Hnone; [|repeat constructor; done]. rewrite !releases_app, (releases_one ev) by done. done.
Qed.

(** C10.  A turn gives its lease back at most once, and exactly once unless its run
    waits.  Whatever the kernel, the store and the lease answer, panics included, a
    graph turn that was granted a lease and does not report a waiting run releases
    it exactly once, and no turn releases it twice. *)
Theorem turns_release_their_lease_once h principal session runID text tr r :
  runs (graph_RunTurn h principal session runID text) tr r ∨ runs (graph_ResumeTurn h principal session runID) tr r →
  (releases tr ≤ 1)%nat ∧ (Exists (λ ev, is_Some (granted ev)) tr → ∀ t errs, r = Some (t, errs) → gt_Status t ≠ RunWaitingApproval → releases tr = 1%nat).
Proof.
  intros [Hr|Hr]; [|by eapply ResumeTurn_releases]. destruct (RunTurn_cases _ _ _ _ _ _ _ Hr) as [[H0 Hf]|(ev & tr' & grant & s & -> & -> & Hg & Hev & Hu)].
  - split; [lia|]. intros He. exfalso. apply Exists_exists in He as (ev & Hin & [g Hg]). rewrite Forall_forall in Hf. rewrite (Hf ev Hin) in Hg. done.
  - apply under_lease_releases in Hu as [H1 H2]. change (ev :: tr') with ([ev] ++ tr'). rewrite releases_app, (releases_one ev) by done. split; [done|]. by intros _.
Qed.

(** ** A turn on a waiting run *)

Definition loaded (ev : event TE) : option Checkpoint :=
  match ev with
  | @Ev _ _ g b =>
    match g in TE B return B → option Checkpoint with
    | @Port B' g' => match g' in GE B'' return B'' → option Checkpoint with
                     | StoreLoad _ => λ r, match r with Ok c => Some c | Err _ => None end
                     | _ => λ _, None
                     end
    | _ => λ _, None
    end b
  end.

Lemma host_ret resume runID text {A} (a : A) st tr x : runs (host resume runID text (Ret a) st) tr x → tr = [] ∧ x = (a, st).
Proof. done. Qed.

(** The engine finds the run waiting and leaves everything as it is. *)
Lemma waiting_run_loaded resume runID text e fuel c req st tr x : cp_Status c = CheckpointWaitingApproval →
  runs (host resume runID text (run_loaded e (S fuel) c req) st) tr x →
  x.2 = st ∧ ∃ o, x.1 = Some o ∧ result_status o = Some CheckpointWaitingApproval.
Proof.
  intros Hs. unfold run_loaded. rewrite Hs.
  assert (∀ o, o_Checkpoint o = Some c → runs (host resume runID text (Ret (Some o)) st) tr x →
    x.2 = st ∧ ∃ o, x.1 = Some o ∧ result_status o = Some CheckpointWaitingApproval) as Hret.
  { intros o Ho [_ ->]%host_ret. split; [done|]. exists o. split; [done|]. unfold result_status. by rewrite Ho, Hs. }
  destruct (verifyFrozenCheckpoint e c); [|by apply Hret]. destruct (verifyCheckpoint e c _ _); [|by apply Hret].
  cbn [pbind drive]. rewrite Hs. cbn [ask pbind host handle]. intros (b & tr' & -> & Hr). cbn [fst snd] in Hr.
  assert (∀ o, o_Checkpoint o = Some c → runs (host resume runID text (Ret (Some o)) st) tr' x →
    x.2 = st ∧ ∃ o, x.1 = Some o ∧ result_status o = Some CheckpointWaitingApproval) as Hret'.
  { intros o Ho [_ ->]%host_ret. split; [done|]. exists o. split; [done|]. unfold result_status. by rewrite Ho, Hs. }
  destruct b; [|eapply Hret'; [|exact Hr]; done]. unfold GraphExecutor.cancel in Hr. rewrite Hs in Hr. eapply Hret'; [|exact Hr]; done.
Qed.

Lemma fuel_positive : ∃ n, drive_fuel = S n.
Proof. exists (Z.to_nat MaxSteps + 2)%nat. unfold drive_fuel. lia. Qed.

Lemma mapResult_waiting runID answer o errs : result_status o = Some CheckpointWaitingApproval → gt_Status (mapResult runID answer o errs).1 = RunWaitingApproval.
Proof. intros Ho. unfold mapResult. rewrite bool_decide_true by done. destruct (lease_lost errs); [done|]. by destruct (_ && _). Qed.

Lemma waiting_under_lease h key grant runID text ev tr r c :
  runs (under_lease h false key grant runID text (λ e, Run e drive_fuel (mk_start key (sg_SegmentID grant) (sg_HostGeneration grant) initialState)))
    (ev :: tr) r →
  loaded ev = Some c → cp_Status c = CheckpointWaitingApproval →
  releases (ev :: tr) = 0%nat ∧ ∃ t errs, r = Some (t, errs) ∧ gt_Status t = RunWaitingApproval.
Proof.
  intros Hu Hl Hs. unfold under_lease in Hu. cbv zeta in Hu. destruct (engine h) as [e|err].
  2: { destruct Hu as (b & tr' & [= -> _] & _). done. }
  apply runs_bind in Hu as (tr1 & tr2 & [r0 st] & Htr & H1 & H2). pose proof H1 as Hsp. apply host_spent in Hsp.
  destruct H1 as (b & tr1' & -> & H1). injection Htr as -> ->. cbn in Hl. destruct b as [c'|]; [|done]. injection Hl as ->.
  destruct fuel_positive as [n Hn]. rewrite Hn in H1. cbn [fst snd host] in H1. apply waiting_run_loaded in H1 as (Hst & o & Ho & Hw); [|done]. cbn in Hst, Ho. subst st r0.
  cbn in Hsp. rewrite bool_decide_true in H2 by done. destruct H2 as [-> ->]. rewrite app_nil_r. split; [cbn in *; lia|].
  destruct (mapResult runID _ o (o_error o)) as [t errs] eqn:Hm. exists t, errs. split; [done|]. pose proof (mapResult_waiting runID (hs_answer (mk_host None "")) o (o_error o) Hw) as Hg. by rewrite Hm in Hg.
Qed.

Lemma Acquire_held ctx segment holder now f ttl key t l t' : Acquire ctx segment holder (Some now) f ttl key t = (Ok l, t') →
  ∃ row, t' !! key = Some row ∧ lw_released row = false ∧ lw_expires row = now + ttl.
Proof.
  unfold Acquire. destruct ctx; [|done]. destruct (negb _); [done|]. destruct (_ || _); [done|]. cbv zeta. unfold take_over.
  destruct (t !! key) as [old|]; [destruct (free_row now old)|]; destruct f as [|e|e| | | |[]]; intros [= <- <-].
  all: eexists; rewrite lookup_insert_eq; done.
Qed.

Lemma Acquire_busy ctx segment holder now f ttl key t row : t !! key = Some row → lw_released row = false → now < lw_expires row →
  ∃ err, Acquire ctx segment holder (Some now) f ttl key t = (Err err, t).
Proof.
  intros Hk Hr He. unfold Acquire. destruct ctx; [|eauto]. destruct (negb _); [eauto|]. destruct (_ || _); [eauto|]. cbv zeta. unfold take_over.
  assert (free_row now row = false) as Hfr. { unfold free_row. rewrite Hr. cbn. apply Z.leb_gt. lia. }
  rewrite Hk, Hfr. destruct f; eauto.
Qed.

(** C14.  A turn on a run that already waits keeps its lease, and blocks the
    approval.  When [RunTurn] finds the run waiting for an approval (a repeated
    delivery of the run), it reports the run as waiting and never releases the
    lease it acquired: until that lease expires, no other turn, the resumption of
    the approval included, can acquire the run. *)
Theorem waiting_turn_keeps_its_lease h principal session runID text acquired read tr r grant c :
  runs (graph_RunTurn h principal session runID text) (acquired :: read :: tr) r → granted acquired = Some grant → loaded read = Some c →
  cp_Status c = CheckpointWaitingApproval →
  releases (acquired :: read :: tr) = 0%nat ∧ (∃ t errs, r = Some (t, errs) ∧ gt_Status t = RunWaitingApproval)
  ∧ ∀ ctx segment holder now f ttl key t l t', Acquire ctx segment holder (Some now) f ttl key t = (Ok l, t') →
      ∀ ctx' segment' holder' now' f' ttl', now' < now + ttl → ∃ err, Acquire ctx' segment' holder' (Some now') f' ttl' key t' = (Err err, t').
Proof.
  intros Hr Hg Hl Hs. split_and!.
  - destruct (RunTurn_cases _ _ _ _ _ _ _ Hr) as [[H0 _]|(ev & tr' & g & s & [= <- <-] & -> & _ & Hev & Hu)]; [done|].
    destruct (waiting_under_lease _ _ _ _ _ _ _ _ _ Hu Hl Hs) as [H0 _]. change (acquired :: read :: tr) with ([acquired] ++ read :: tr).
    by rewrite releases_app, (releases_one acquired), H0.
  - destruct (RunTurn_cases _ _ _ _ _ _ _ Hr) as [[_ Hf]|(ev & tr' & g & s & [= <- <-] & -> & _ & Hev & Hu)].
    { apply Forall_cons_1 in Hf as [Hf _]. by rewrite Hf in Hg. }
    by destruct (waiting_under_lease _ _ _ _ _ _ _ _ _ Hu Hl Hs) as [_ ?].
  - intros ctx segment holder now f ttl key t l t' Ha ctx' segment' holder' now' f' ttl' Hlt. destruct (Acquire_held _ _ _ _ _ _ _ _ _ _ Ha) as (row & Hk & Hrel & He).
    eapply Acquire_busy; [done|done|]. by rewrite He.
Qed.

(** ** Witnesses *)

(** Ports that answer plainly: a grant, the checkpoint [c] (or none), a lease that
    holds, and a kernel turn that completes. *)
Definition plain_port (c : option Checkpoint) (B : Type) (g : GE B) : B :=
  match g in GE B return B with
  | CtxErr => false
  | StoreLoad _ => match c with Some c => Ok c | None => Err ErrCheckpointNotFound end
  | StoreCreate c _ => Ok (c, CommitApplied)
  | StoreCAS _ _ _ next _ => Ok (next, CommitApplied)
  | LeaseVerify _ _ | LeaseRelease _ | SandboxAuthorize _ | ApprovalAuthorize _ | Observe _ => Returns (Ok tt)
  | PlanContext req => Returns (reference_Plan (Ok tt) req)
  | NodeExecute _ _ => NodePanics
  | AttemptClock => (0, false)
  | ReduceState _ s _ => Returns (Ok s)
  | EvaluatePredicate _ _ => Returns (Ok false)
  | Backoff _ => false
  end.
Definition plain_host (c : option Checkpoint) (B : Type) (g : TE B) (u : unit) : B * unit :=
  (match g in TE B return B with
   | Port g => plain_port c _ g
   | AuthorityAcquire _ => Returns (Ok (mk_grant "segment-2" 2 true))
   | SegmentVerify _ _ | SegmentRelease _ => Returns (Ok tt)
   | DecisionResolve _ _ _ => Panics
   | CoreTurn _ runID _ => CoreReturns (mk_turn_result runID RunCompleted "done")
   | SessionPendingApproval _ => Ok None
   end, u).

Definition ex_turn_host : graph_host := mk_graph_host (set_revision "revision" default_graph) false false false false.
Definition ex_caller : Principal := mk_principal "subject" "tenant" (Scope.mk_path []) ∅ ∅.
Definition ex_turn := graph_RunTurn ex_turn_host ex_caller (Some "session") "run" "hello".

Lemma turns_release_their_lease_once_witness : (releases (Prog.drive (plain_host None) ex_turn tt).2 ≤ 1)%nat.
Proof.
  exact (proj1 (turns_release_their_lease_once ex_turn_host ex_caller (Some "session") "run" "hello" _ _ (or_introl (drive_trace (plain_host None) ex_turn tt)))).
Defined.

Definition ex_turn_engine : option Executor := match engine ex_turn_host with Ok e => Some e | Err _ => None end.

Lemma ex_turn_engine_ok : bool_decide (is_Some ex_turn_engine) = true.
Proof. vm_compute. reflexivity. Qed.

(** A run that waits for an approval since its first segment. *)
Definition ex_waiting : Checkpoint :=
  mk_checkpoint (turn_key ex_caller "session" "run") "segment-1" ID "revision" "graph-core-turn-composition"
    (match ex_turn_engine with Some e => b_implementationRevision (x_bindings e) | None => "" end) 1 "turn" 1 "attempt" 1 {["turn" := 1]} 3
    initialState None "approval" None CheckpointWaitingApproval "".

Lemma ex_waiting_turn :
  ∃ acquired read tr r, runs ex_turn (acquired :: read :: tr) r ∧ granted acquired = Some (mk_grant "segment-2" 2 true) ∧ loaded read = Some ex_waiting.
Proof.
  pose proof (bool_decide_eq_true_1 _ ex_turn_engine_ok) as [e He]. unfold ex_turn_engine in He. destruct (engine ex_turn_host) as [e0|] eqn:Heng; [|done].
  exists (Ev (AuthorityAcquire (turn_key ex_caller "session" "run")) (Returns (Ok (mk_grant "segment-2" 2 true)))).
  exists (Ev (Port (StoreLoad (turn_key ex_caller "session" "run"))) (Ok ex_waiting)). eexists _, _. split; [|done].
  exists (Returns (Ok (mk_grant "segment-2" 2 true))). eexists. split; [reflexivity|]. cbn [acquire ask pbind bool_decide decide]. unfold under_lease. rewrite Heng.
  exists (Ok ex_waiting). eexists. split; [reflexivity|]. apply (drive_trace (plain_host (Some ex_waiting)) _ tt).
Qed.

Lemma waiting_turn_keeps_its_lease_witness : ∃ acquired read tr r, runs ex_turn (acquired :: read :: tr) r ∧ releases (acquired :: read :: tr) = 0%nat.
Proof.
  destruct ex_waiting_turn as (acquired & read & tr & r & Hr & Hg & Hl). exists acquired, read, tr, r. split; [exact Hr|].
  exact (proj1 (waiting_turn_keeps_its_lease ex_turn_host ex_caller (Some "session") "run" "hello" acquired read tr r _ ex_waiting Hr Hg Hl eq_refl)).
Defined.
